(* ===== verification/_CoqProject ===== *)
-Q . S2P
Prelude.v
InstructionSet.v
Variant.v
ValueTupleSet.v
ExecStatemachine.v
TableDb.v
ProgramImage.v
ProgramInstance.v
VmInvariant.v
VmExec.v
VmDatabase.v
Transaction.v
TdlTables.v
SelectorPath.v
ParseUtils.v
TdlProgram.v
Tdl2vm.v
TdlCommand.v
TdlStruct.v
TdlCorrect.v
TdlStatement.v
TdlGenerated.v
TdlLink.v
TdlCalls.v
TdlExec.v
DatabaseLanguage.v
BaseStatement.v
TdlParse.v
TdlLoad.v
TdlParseFacts.v
TdlParseClean.v
TdlLoadFacts.v
TdlDivergences.v
InputStructure.v
InputLayout.v
InputSelect.v
InputFilters.v
TdlPreproc.v
InputRead.v
TdlInput.v
TdlFunction.v
TdlFunctionFacts.v
TdlInputFacts.v
TdlInputTerm.v
Decimal.v
DateTime.v
AddressRestriction.v
BcdWord.v
BigBCD.v
BigBCDArith.v
BigBCDDigits.v
BigBCDMul.v
BigBCDInit.v
Conversions.v
BigNum.v
BigFxp.v
IoBlocks.v
IoBlocksEscape.v
IoBlocksEod.v
EscDlfHandler.v
EscDlfSession.v
CmdParse.v
LineProtocol.v
LineSession.v
MessageHandler.v
MessageSession.v
Base64.v
Base64Encode.v
Base64Decode.v
Base64Stream.v
Hex.v
