(* ===== verification/Prelude.v ===== *)
(** * Wolframe: verification of the core of the application server

    Wolframe is an application server for transactions on a relational database.  Clients
    speak line based protocols with it; a request is a data session inside of the protocol;
    commands run transactions, which were compiled to programs of a virtual machine; values
    are decimal numbers of arbitrary size, integers and strings; keys and messages are encoded
    in base64 or in hexadecimal digits.  This development models these parts as they are
    written and proves what they do, the cases included in which they do something else than
    they mean to.

    ** Parts

    The transaction virtual machine (include/database/vm/, src/libwolframe_database/vm/)
    - InstructionSet: the 32 bit instruction words of instructionSet.hpp, their encoding and
      decoding and their printing.
    - Variant, ExecStatemachine, TableDb: the values, the interface to a database
      (transactionExecStatemachine.hpp) as a type class, its laws, and a database of tables
      that obeys them.
    - ValueTupleSet: tables of values with their iterators (valueTupleSet.hpp), the frames of
      subroutine calls (subroutineFrame.hpp) and the output of a program (output.hpp).
    - ProgramImage, ProgramInstance: the code of a program and the machine that executes it
      (programImage.hpp, programInstance.hpp and .cpp).  One iteration of the loop of execute
      is [ProgramInstance.step]; a group of instructions is a definition ([exec_op] and the
      definitions it calls).  Tables are shared by reference in the code, so they live in a
      heap of the state.
    - VmInvariant: whatever a program does, the machine keeps an invariant (references are
      valid, tables have whole rows, stack and output are not empty), never changes its
      input, and does something undefined only in three ways that are characterised.
    - VmExec: what programs do: loops over results, access to columns by name, and that the
      iteration budget of the model does not matter.
    - Transaction: transactions on top of the machine (transaction.cpp and
      vmTransactionOutput.cpp): executing statements, reading the result, commit and
      rollback, and the refinement theorem that a statement gives the rows of the database.

    The transaction language (src/modules/cmdbind/tdl/, src/libwolframe_database/)
    - TdlTables, SelectorPath, ParseUtils: the tables of names, error hints and tags of a
      program (vm/nameTable.hpp, errorHintTable.hpp, tagTable.cpp), paths that select nodes of
      the input (vm/selectorPath.cpp), the scanner (libwolframe/utils/parseUtils.cpp).
    - TdlProgram: programs, how they are joined with their tables, and subroutines as
      templates (vm/program.cpp, vm/subroutine.cpp).
    - Tdl2vm: the translator with its stack of open constructs (tdl2vmTranslator.cpp);
      TdlCommand: the translation of one command (loadTransactionProgram.cpp).
    - TdlParse, TdlLoad: the parsers of the language (tdl/), and the loader of blocks,
      subroutines, transactions and files (loadTransactionProgram.cpp); DatabaseLanguage: what
      depends on the language of the database (databaseLanguage.cpp).
    - TdlStruct: structured code (loops, blocks) and how it is laid out as instructions, the
      specification of the translator.  TdlCorrect, TdlStatement, TdlGenerated prove that the
      operations of the translator and the translation of commands append structured code,
      TdlLink and TdlCalls that a program is completed with its subroutines, TdlParseFacts,
      TdlParseClean and TdlLoadFacts that parsing ends and that a block the loader accepts is
      translated, TdlExec that the virtual machine runs the body of a generated loop once for
      every row.  TdlDivergences shows on examples where the compiler is wrong.
    - BaseStatement: statements with placeholders, from the form the compiler writes to the
      native statement (baseStatement.cpp, substitutingStatement.cpp).

    The input of transactions and the functions around them (src/modules/cmdbind/tdl/)
    - InputStructure: the tree of the input of a transaction and the selection of its nodes
      (vm/inputStructure.cpp); InputFilters: the filters that read and write parts of it.
    - InputLayout, InputSelect, InputRead: documents as a specification of the tree: how a
      document is laid out in the nodes, that a path selects what it means in the document,
      and that a filter reads the part of the document below its nodes.
    - TdlInput: the rewriter that replaces the paths of a program by constants and tables
      (tdlTransactionInput.cpp); TdlInputFacts proves what it keeps and replaces, TdlInputTerm
      that it ends and that no path is left where the machine can come to.
    - TdlPreproc: preprocessing steps that call functions on nodes of the input
      (tdlTransactionPreprocStep.cpp).
    - TdlFunction: the closure of a transaction function, from reading the input
      (include/filter/redirectFilterClosure.hpp) over authorization
      (libwolframe/execContext.cpp), preprocessing, the rewriter, the machine and the audit
      functions to commit and result (tdlTransactionFunction.cpp).
    - VmDatabase, TdlFunctionFacts: the machine keeps every property of the database that its
      commands keep, and so a call of a closure runs at most one transaction, which ends as
      the result of the call says.

    Decimal numbers (src/libwolframe/types/, src/modules/datatype/bcdnumber/)
    - Decimal: digits, numerals and their values.
    - BcdWord: the bit operations on packed words of fifteen digits (bcdArithmetic.cpp).
    - BigBCD, BigBCDArith, BigBCDDigits, BigBCDMul, BigBCDInit: numbers of packed words; the
      operations are in BigBCD, addition, subtraction and normalisation are proved in
      BigBCDArith, iteration over digits, comparison and conversions in BigBCDDigits,
      products in BigBCDMul; BigBCDInit has the construction from other numbers and the
      theorems of the part.
    - Conversions: machine integers from and to strings (conversions.cpp).
    - BigNum: numbers with a scale (bignumber.cpp), their parser and printer.
    - BigFxp: fixed point arithmetic on packed numbers (fxpArithmetic.cpp and .hpp).

    Other values and configuration (src/libwolframe/types/)
    - DateTime: dates with a time of three precisions, their checks, timestamps, text formats
      and comparison (include/types/datetime.hpp, datetime.cpp).
    - AddressRestriction: the lists of networks that may or may not connect, over the
      interface of the addresses of boost (addressRestriction.cpp).

    Protocols (src/modules/protocol/wolframe/)
    - IoBlocks: memory blocks, the automaton that escapes output, the automaton that finds
      the end of data in the input and takes the escapes away (ioblocks.hpp and .cpp).
    - IoBlocksEscape, IoBlocksEod: the specification of the escape and of the end of data on
      streams of characters, and that the automata follow it on blocks of any size.
    - EscDlfHandler, EscDlfSession: the handler of data sessions (escDlfProtocolHandler.cpp)
      over the interface of command handlers, a type class, and that data go through it
      unchanged in both directions.
    - CmdParse: command lines, the table of commands and the argument buffer (parser.hpp,
      buffers.hpp).
    - LineProtocol, LineSession: the handler of line protocols (lineProtocolHandler.cpp)
      with the delegation to other handlers over an interface, which the handler of data
      sessions implements, and the refinement theorem that it interprets the lines.
    - MessageHandler, MessageSession: the handlers of authentication and password change
      (baseCryptoProtocolHandler.cpp, authProtocolHandler.cpp and
      passwordChangeProtocolHandler.cpp) over the interfaces of authenticators and password
      changers, and the refinement theorem that they carry out the dialog their peer
      defines.

    Encodings (src/libwolframe/)
    - Base64: the encoder and the decoder, for blocks and for chunks (b64encode.c,
      b64decode.c).
    - Base64Encode, Base64Decode: the layout of the text as a specification of the encoder,
      and the decoder as its inverse.
    - Base64Stream: the functions for strings and streams (base64.cpp), and the theorems of
      the codec.
    - Hex: hexadecimal strings (byte2hex.c).

    This file has what all others share: results and exceptions, the state and error monad,
    machine integers, automation and lemmas on bits.

    ** Conventions

    A C++ function is a definition of the same name.  A method that changes its object is
    either a function from the object to the object or, where it throws or calls others
    that do, a computation of the monad [M], which keeps the changes made before an
    exception.  The exceptions of the code are the values of [exn].  [Undefined] is not an
    exception: it marks that the code does something the language leaves undefined, so a
    theorem that excludes it is a theorem on memory safety and overflows.  Integers are [Z]
    with the wrap-around written where they are assigned ([u8] to [u64], [i16] to [i64]);
    positions and sizes in memory are [nat] where no arithmetic wraps.  Virtual interfaces
    are type classes; what the code cannot know (the database, the command handlers, the
    commands of a protocol) is a parameter, and theorems hold for every instance that obeys
    the laws named in their hypotheses.

    ** Bounds and fuel

    Loops are structural where the code counts or consumes something.  The others take a
    number of iterations.  [ProgramInstance.execute] takes the number of instructions,
    because a program may loop; [VmExec.execute_fuel_irrelevant] says that a run that ends
    does not depend on it, [Transaction.executeStatement_returns_rows] that single
    statements end, and with what budget.  The handlers' [nextOperation] takes the number of
    rounds of its loop, because a command handler can keep it busy; the theorems on sessions
    are about the rounds themselves and end.  The loops of the parsers of the transaction
    language take one more round than the text has characters
    ([TdlParseFacts.command_parse_terminates]); loading takes the depth of included files,
    which the code does not bound.  The loops over the siblings of a node of the input take
    the number of nodes, [InputFilter.getNext] the nodes on its stack and the parameters that
    are left.  The rewriter of paths takes a number of steps: [TdlInputTerm.fuel_bound] computes
    one that is enough from a rank of the instructions that falls along the code.  The closure
    of a function hands its fuel to the reader of the input, the rewriter and the machine.  The loops of the base64 functions take one
    more round than they have characters, and a round consumes at least one; that this is
    enough is part of their theorems.  [AddressRestriction.mask_loop] shifts a mask of 32 bits
    and has 34 rounds.  [digit_fuel], [factor_fuel] (16 nibbles of a
    64 bit factor), [estimate_fuel] (21 decimal digits of a 64 bit number) and [touint_fuel]
    (21 additions of a digit) bound loops of the number modules; the theorems on the results
    of these functions show that the bounds are not reached.

    ** What the theorems show

    - Safety: the machine ([VmInvariant]), the transactions of functions
      ([TdlFunctionFacts]), the decision which addresses may connect
      ([AddressRestriction]), the parser of decimal numbers ([BigNum]).
    - Refinement: blocks of the transaction language and the structured code of their
      meaning ([TdlLoadFacts]), nodes of the input and documents ([InputSelect]), single
      statements ([Transaction]), line protocols ([LineSession]), dialogs of authentication
      ([MessageSession]).
    - Function: the values a program sees for its paths ([TdlInputTerm]), the elements a
      preprocessing function reads ([InputRead]), loops over rows ([TdlExec]), the code of
      commands and calls ([TdlGenerated], [TdlCalls]).
    - Round trips: instruction words, integers and strings, decimal numbers, packed numbers,
      arguments of command lines, data sessions, base64 ([Base64Stream]), hexadecimal
      strings ([Hex]), dates with their timestamps and texts ([DateTime]).
    - Equivalence: column access by name and by index, comparisons and values, the base64
      text of a block and of its chunks, comparisons of dates and of their timestamps.
    - Progress: output of data sessions, parsing of commands, independence of fuel.
    - Arithmetic: packed words, sums, products, comparisons, shifts and conversions have the
      values they should, or the exact values they have instead.
    - Errors: what the code does where it is wrong: null results, names of argument types,
      copies of the output filter, integer conversions, escaping of messages, the network
      that is ignored, comparisons of dates that mix units.

    ** Not modelled

    The divisions and the conversions from and to double of the number modules: they
    estimate digits in double precision; the dates of MSDN are doubles too.  The conversions
    between variant types, the printing of address restrictions and the utilities of the
    process are left out.  The filters
    and language bindings are templates over third party parsers and interpreters.  The
    simple form compiler and the libraries of programs are glue between them.  Sockets,
    configuration, logging, modules and the database drivers are input and output or glue;
    ciphers and hashes are adapted from other projects.  Logging and the
    printing of programs and inputs for it are left out of the modelled functions.  Documents
    with arrays are modelled in the structure of the input, but the theorems on documents are
    on those without; the result of a preprocessing function is written by the model, but
    there is no theorem on the tree after it. *)
From stdpp Require Export base numbers list strings gmap fin_maps.
From Stdlib Require Export ZArith Lia Ascii.

#[global] Set Default Proof Using "Type".
#[global] Open Scope Z_scope.
#[global] Arguments Nat.leb : simpl never.
#[global] Arguments Nat.ltb : simpl never.
#[global] Arguments Nat.eqb : simpl never.

(** ** Exceptions and results *)

(** The C++ exception classes the modelled code throws.  [Undefined] is not an
    exception: it marks that the execution reached behaviour the language leaves
    undefined (null dereference, array access out of bounds, division by zero),
    so that a theorem excluding it is a memory-safety statement. *)
Inductive exn : Type :=
| RuntimeError (msg : string)
| LogicError (msg : string)
| OutOfRange (msg : string)
| BadAlloc
| BadCast
| StdException (* an exception rethrown as its base class std::exception *)
| Undefined (what : string).

(** Result of a computation: a value, an exception, or [OutOfFuel] when the
    iteration budget of a loop was too small. *)
Inductive res (A : Type) : Type :=
| Ok (a : A)
| Throw (e : exn)
| OutOfFuel.
Arguments Ok {A} _.
Arguments Throw {A} _.
Arguments OutOfFuel {A}.

#[global] Instance exn_eq_dec : EqDecision exn.
Proof. solve_decision. Defined.
#[global] Instance res_eq_dec {A} `{EqDecision A} : EqDecision (res A).
Proof. solve_decision. Defined.

#[global] Instance res_ret : MRet res := fun _ a => Ok a.
#[global] Instance res_bind : MBind res := fun _ _ f m =>
  match m with
  | Ok a => f a
  | Throw e => Throw e
  | OutOfFuel => OutOfFuel
  end.

(** State and error monad.  An exception keeps the state reached when it was
    thrown, as in C++ where mutations done before a [throw] persist. *)
Definition M (S A : Type) : Type := S -> S * res A.

#[global] Instance M_ret {S} : MRet (M S) := fun _ a s => (s, Ok a).
#[global] Instance M_bind {S} : MBind (M S) := fun _ _ f m s =>
  match m s with
  | (s', Ok a) => f a s'
  | (s', Throw e) => (s', Throw e)
  | (s', OutOfFuel) => (s', OutOfFuel)
  end.

Definition throw {S A} (e : exn) : M S A := fun s => (s, Throw e).
Definition gets {S A} (f : S -> A) : M S A := fun s => (s, Ok (f s)).
Definition modify {S} (f : S -> S) : M S unit := fun s => (f s, Ok tt).
Definition lift {S A} (r : res A) : M S A := fun s => (s, r).
Definition try_catch {S A} (m : M S A) (h : exn -> M S A) : M S A := fun s =>
  match m s with
  | (s', Throw e) => h e s'
  | r => r
  end.

(** [throw_if b e] is the guard [if (b) throw e;]. *)
Definition throw_if {S} (b : bool) (e : exn) : M S unit :=
  if b then throw e else mret tt.
Definition check_that (b : bool) (e : exn) : res unit :=
  if b then Ok tt else Throw e.

(** Run a computation on a component of the state. *)
Definition zoom {S T A} (get : S -> T) (put : T -> S -> S) (m : M T A) : M S A :=
  fun s => let '(t, r) := m (get s) in (put t s, r).

(** ** Machine integers *)

(** [wrap w x] is the value an unsigned [w]-bit integer holds after [x] was
    assigned to it; [swrap w x] the value of a two's complement signed one. *)
Definition wrap (w x : Z) : Z := x mod 2 ^ w.
Definition swrap (w x : Z) : Z := (x + 2 ^ (w - 1)) mod 2 ^ w - 2 ^ (w - 1).
Abbreviation u8 := (wrap 8).
Abbreviation u16 := (wrap 16).
Abbreviation u32 := (wrap 32).
Abbreviation u64 := (wrap 64).
Abbreviation i16 := (swrap 16).
Abbreviation i32 := (swrap 32).
Abbreviation i64 := (swrap 64).

(** Bitwise complement of a [w]-bit unsigned integer. *)
Definition wnot (w x : Z) : Z := 2 ^ w - 1 - x.

(** ** Automation *)

Create HintDb wolf discriminated.
Create Rewrite HintDb wolf_rw.

(** Break the hypotheses of an executed monadic computation apart. *)
Ltac res_inv :=
  repeat match goal with
  | H : Ok _ = Ok _ |- _ => injection H as H; subst
  | H : Throw _ = Throw _ |- _ => injection H as H; subst
  | H : (_, _) = (_, _) |- _ => injection H as H; subst
  | H : Ok _ = Throw _ |- _ => discriminate H
  | H : Throw _ = Ok _ |- _ => discriminate H
  | H : OutOfFuel = Ok _ |- _ => discriminate H
  | H : Ok _ = OutOfFuel |- _ => discriminate H
  | H : OutOfFuel = Throw _ |- _ => discriminate H
  | H : Throw _ = OutOfFuel |- _ => discriminate H
  end.

(** Case analysis on every boolean test of the integers in sight. *)
Ltac zcases :=
  repeat match goal with
  | |- context [Z.ltb ?a ?b] => destruct (Z.ltb_spec a b)
  | |- context [Z.leb ?a ?b] => destruct (Z.leb_spec a b)
  | |- context [Z.eqb ?a ?b] => destruct (Z.eqb_spec a b)
  | |- context [Z.gtb ?a ?b] => rewrite (Z.gtb_ltb a b)
  | |- context [Z.geb ?a ?b] => rewrite (Z.geb_leb a b)
  end.

(** ** Generic lemmas *)

Lemma res_bind_Ok {A B} (m : res A) (f : A -> res B) b :
  (m ≫= f) = Ok b <-> exists a, m = Ok a /\ f a = Ok b.
Proof. destruct m; cbn; naive_solver. Qed.

Lemma M_bind_eq {S A B} (m : M S A) (f : A -> M S B) s :
  (m ≫= f) s = match m s with
               | (s', Ok a) => f a s'
               | (s', Throw e) => (s', Throw e)
               | (s', OutOfFuel) => (s', OutOfFuel)
               end.
Proof. reflexivity. Qed.

Lemma M_bind_Ok {S A B} (m : M S A) (f : A -> M S B) s s' b :
  (m ≫= f) s = (s', Ok b) <->
  exists s1 a, m s = (s1, Ok a) /\ f a s1 = (s', Ok b).
Proof.
  rewrite M_bind_eq. destruct (m s) as [s1 [a|e|]]; naive_solver.
Qed.

Lemma throw_if_false {S} b e (s : S) : b = false -> throw_if b e s = (s, Ok tt).
Proof. intros ->. reflexivity. Qed.

Lemma throw_if_true {S} b e (s : S) : b = true -> throw_if b e s = (s, Throw e).
Proof. intros ->. reflexivity. Qed.

#[export] Hint Rewrite @throw_if_false @throw_if_true using (solve [auto]) : wolf_rw.

Lemma wrap_small w x : 0 <= x < 2 ^ w -> wrap w x = x.
Proof. apply Z.mod_small. Qed.

Lemma wrap_range w x : 0 <= w -> 0 <= wrap w x < 2 ^ w.
Proof. intros. apply Z.mod_pos_bound. lia. Qed.

Lemma swrap_small w x : 0 < w -> - 2 ^ (w - 1) <= x < 2 ^ (w - 1) -> swrap w x = x.
Proof.
  intros Hw Hx. unfold swrap. rewrite Z.mod_small; [lia|].
  replace (2 ^ w) with (2 * 2 ^ (w - 1)); [lia|].
  rewrite <- Z.pow_succ_r by lia. f_equal. lia.
Qed.

Lemma i16_small x : - 2 ^ 15 <= x < 2 ^ 15 -> i16 x = x.
Proof. intros Hx. by apply swrap_small. Qed.
Lemma i32_small x : - 2 ^ 31 <= x < 2 ^ 31 -> i32 x = x.
Proof. intros Hx. by apply swrap_small. Qed.
Lemma i64_small x : - 2 ^ 63 <= x < 2 ^ 63 -> i64 x = x.
Proof. intros Hx. by apply swrap_small. Qed.

#[export] Hint Resolve wrap_range : wolf.

(** ** Bit fields *)

Lemma land_high_low n a b : 0 <= n -> 0 <= a < 2 ^ n -> Z.land a (b * 2 ^ n) = 0.
Proof.
  intros Hn Ha. apply Z.bits_inj'. intros i Hi.
  rewrite Z.land_spec, Z.bits_0. destruct (Z.lt_ge_cases i n).
  - rewrite (Z.mul_pow2_bits_low b n i), andb_false_r by lia. reflexivity.
  - replace (Z.testbit a i) with false; [reflexivity|].
    rewrite <- (Z.mod_small a (2 ^ n)) by lia. symmetry.
    apply Z.mod_pow2_bits_high. lia.
Qed.

(** Disjoint bit fields are joined by addition. *)
Lemma lor_high_low n a b :
  0 <= n -> 0 <= a < 2 ^ n -> Z.lor a (b * 2 ^ n) = a + b * 2 ^ n.
Proof.
  intros Hn Ha. pose proof (land_high_low n a b Hn Ha) as H0.
  rewrite Z.add_nocarry_lxor by assumption. symmetry. now apply Z.lxor_lor.
Qed.

(** Reading [k] bits at offset [n]. *)
Lemma field_read n k w :
  0 <= n -> 0 <= k ->
  Z.shiftr (Z.land w (Z.shiftl (Z.ones k) n)) n = (w / 2 ^ n) mod 2 ^ k.
Proof.
  intros Hn Hk. rewrite Z.shiftr_land, Z.shiftr_shiftl_l, Z.sub_diag, Z.shiftl_0_r by lia.
  rewrite Z.land_ones, Z.shiftr_div_pow2 by lia. reflexivity.
Qed.

(** The bits of a word made of two fields. *)
Lemma field_bits n l h i :
  0 <= n -> 0 <= l < 2 ^ n -> 0 <= i ->
  Z.testbit (l + h * 2 ^ n) i = if i <? n then Z.testbit l i else Z.testbit h (i - n).
Proof.
  intros Hn Hl Hi. rewrite <- lor_high_low, Z.lor_spec by done.
  destruct (Z.ltb_spec i n).
  - rewrite Z.mul_pow2_bits_low by lia. apply orb_false_r.
  - rewrite Z.mul_pow2_bits by lia. replace (Z.testbit l i) with false; [done|].
    rewrite <- (Z.mod_small l (2 ^ n)) by lia. symmetry. apply Z.mod_pow2_bits_high. lia.
Qed.

Ltac field_op :=
  apply Z.bits_inj'; intros i Hi;
  rewrite ?Z.lxor_spec, ?Z.land_spec, ?Z.lor_spec, ?field_bits by auto;
  match goal with |- context [Z.ltb i ?m] => destruct (Z.ltb_spec i m) end;
  rewrite ?Z.lxor_spec, ?Z.land_spec, ?Z.lor_spec; reflexivity.

(** Bitwise operations act on the fields separately. *)
Lemma lxor_fields n l h l' h' :
  0 <= n -> 0 <= l < 2 ^ n -> 0 <= l' < 2 ^ n -> 0 <= Z.lxor l l' < 2 ^ n ->
  Z.lxor (l + h * 2 ^ n) (l' + h' * 2 ^ n) = Z.lxor l l' + Z.lxor h h' * 2 ^ n.
Proof. intros. field_op. Qed.

Lemma land_fields n l h l' h' :
  0 <= n -> 0 <= l < 2 ^ n -> 0 <= l' < 2 ^ n -> 0 <= Z.land l l' < 2 ^ n ->
  Z.land (l + h * 2 ^ n) (l' + h' * 2 ^ n) = Z.land l l' + Z.land h h' * 2 ^ n.
Proof. intros. field_op. Qed.

Lemma lor_fields n l h l' h' :
  0 <= n -> 0 <= l < 2 ^ n -> 0 <= l' < 2 ^ n -> 0 <= Z.lor l l' < 2 ^ n ->
  Z.lor (l + h * 2 ^ n) (l' + h' * 2 ^ n) = Z.lor l l' + Z.lor h h' * 2 ^ n.
Proof. intros. field_op. Qed.

(** Bit operations and wrap-around. *)
Lemma testbit_wrap w x i : 0 <= w -> Z.testbit (wrap w x) i = (i <? w) && Z.testbit x i.
Proof.
  intros Hw. unfold wrap. destruct (Z.lt_ge_cases i 0).
  - rewrite !Z.testbit_neg_r by lia. by rewrite andb_false_r.
  - destruct (Z.ltb_spec i w); [by rewrite Z.mod_pow2_bits_low|by rewrite Z.mod_pow2_bits_high by lia].
Qed.

Lemma lxor_wrap w x y : 0 <= w -> Z.lxor (wrap w x) (wrap w y) = wrap w (Z.lxor x y).
Proof.
  intros Hw. apply Z.bits_inj'. intros i Hi. rewrite !Z.lxor_spec, !testbit_wrap, Z.lxor_spec by done.
  by destruct (i <? w).
Qed.

Lemma land_wrap_l w x m : 0 <= w -> 0 <= m < 2 ^ w -> Z.land (wrap w x) m = Z.land x m.
Proof.
  intros Hw Hm. apply Z.bits_inj'. intros i Hi. rewrite !Z.land_spec, testbit_wrap by done.
  destruct (Z.ltb_spec i w); [done|].
  rewrite <- (wrap_small w m) by done. rewrite testbit_wrap by done.
  destruct (Z.ltb_spec i w); [lia|]. by rewrite !andb_false_r.
Qed.

Lemma wrap_wrap_add w x y : 0 <= w -> wrap w (wrap w x + y) = wrap w (x + y).
Proof. intros Hw. apply Z.add_mod_idemp_l. lia. Qed.

Lemma wrap_wrap_sub w x y : 0 <= w -> wrap w (wrap w x - y) = wrap w (x - y).
Proof. intros Hw. unfold wrap. rewrite Zminus_mod_idemp_l. done. Qed.

Lemma wrap_wrap w x : 0 <= w -> wrap w (wrap w x) = wrap w x.
Proof. intros Hw. unfold wrap. apply Z.mod_mod. lia. Qed.
