(* ===== verification/InstructionSet.v ===== *)
(** * The instruction set of the transaction virtual machine

    Models include/database/vm/instructionSet.hpp: the operation, condition and
    argument type enumerations, the tables indexed by them, and the packing of
    an instruction into a 32 bit word: 6 bits of operation code, 2 bits of
    condition code and 20 bits of argument index. *)
From stdpp Require Import pretty.
From S2P Require Import Prelude.

(** ** Enumerations *)

Inductive OpCode :=
| Op_EXIT
| Op_RETURN
| Op_GOTO
| Op_OUTPUT_CONST
| Op_OUTPUT_PATH
| Op_OUTPUT_LOOPCNT
| Op_OUTPUT_SEL_IDX
| Op_OUTPUT_SEL_NAM
| Op_OUTPUT_ITR_IDX
| Op_OUTPUT_ITR_NAM
| Op_OUTPUT_ITR_COLUMN
| Op_OUTPUT_OPEN_ARRAY
| Op_OUTPUT_OPEN_ELEM
| Op_OUTPUT_OPEN
| Op_OUTPUT_CLOSE_ARRAY
| Op_OUTPUT_CLOSE_ELEM
| Op_OUTPUT_CLOSE
| Op_OUTPUT_ADD_SINK
| Op_KEEP_RESULT
| Op_SELECT_PARAMETER
| Op_SELECT_LAST_RESULT
| Op_SELECT_KEPT_RESULT
| Op_OPEN_ITER_LAST_RESULT
| Op_OPEN_ITER_KEPT_RESULT
| Op_OPEN_ITER_PATH
| Op_OPEN_ITER_TUPLESET
| Op_NEXT
| Op_SUB_FRAME_OPEN
| Op_SUB_ARG_CONST
| Op_SUB_ARG_PATH
| Op_SUB_ARG_LOOPCNT
| Op_SUB_ARG_SEL_IDX
| Op_SUB_ARG_SEL_NAM
| Op_SUB_ARG_ITR_IDX
| Op_SUB_ARG_ITR_NAM
| Op_SUB_FRAME_CLOSE
| Op_SCOPE_OPEN
| Op_SCOPE_CLOSE
| Op_DBSTM_START
| Op_DBSTM_BIND_CONST
| Op_DBSTM_BIND_PATH
| Op_DBSTM_BIND_LOOPCNT
| Op_DBSTM_BIND_SEL_IDX
| Op_DBSTM_BIND_SEL_NAM
| Op_DBSTM_BIND_ITR_IDX
| Op_DBSTM_BIND_ITR_NAM
| Op_DBSTM_HINT
| Op_DBSTM_EXEC
| Op_RESULT_SET_INIT
| Op_RESULT_CONSTRAINT_UNIQUE
| Op_RESULT_CONSTRAINT_NONEMPTY
| Op_NOP.

Definition opcodes : list OpCode :=
  [ Op_EXIT;
    Op_RETURN;
    Op_GOTO;
    Op_OUTPUT_CONST;
    Op_OUTPUT_PATH;
    Op_OUTPUT_LOOPCNT;
    Op_OUTPUT_SEL_IDX;
    Op_OUTPUT_SEL_NAM;
    Op_OUTPUT_ITR_IDX;
    Op_OUTPUT_ITR_NAM;
    Op_OUTPUT_ITR_COLUMN;
    Op_OUTPUT_OPEN_ARRAY;
    Op_OUTPUT_OPEN_ELEM;
    Op_OUTPUT_OPEN;
    Op_OUTPUT_CLOSE_ARRAY;
    Op_OUTPUT_CLOSE_ELEM;
    Op_OUTPUT_CLOSE;
    Op_OUTPUT_ADD_SINK;
    Op_KEEP_RESULT;
    Op_SELECT_PARAMETER;
    Op_SELECT_LAST_RESULT;
    Op_SELECT_KEPT_RESULT;
    Op_OPEN_ITER_LAST_RESULT;
    Op_OPEN_ITER_KEPT_RESULT;
    Op_OPEN_ITER_PATH;
    Op_OPEN_ITER_TUPLESET;
    Op_NEXT;
    Op_SUB_FRAME_OPEN;
    Op_SUB_ARG_CONST;
    Op_SUB_ARG_PATH;
    Op_SUB_ARG_LOOPCNT;
    Op_SUB_ARG_SEL_IDX;
    Op_SUB_ARG_SEL_NAM;
    Op_SUB_ARG_ITR_IDX;
    Op_SUB_ARG_ITR_NAM;
    Op_SUB_FRAME_CLOSE;
    Op_SCOPE_OPEN;
    Op_SCOPE_CLOSE;
    Op_DBSTM_START;
    Op_DBSTM_BIND_CONST;
    Op_DBSTM_BIND_PATH;
    Op_DBSTM_BIND_LOOPCNT;
    Op_DBSTM_BIND_SEL_IDX;
    Op_DBSTM_BIND_SEL_NAM;
    Op_DBSTM_BIND_ITR_IDX;
    Op_DBSTM_BIND_ITR_NAM;
    Op_DBSTM_HINT;
    Op_DBSTM_EXEC;
    Op_RESULT_SET_INIT;
    Op_RESULT_CONSTRAINT_UNIQUE;
    Op_RESULT_CONSTRAINT_NONEMPTY;
    Op_NOP ].

(** The integer value of an enumerator. *)
Definition OpCode_val (i : OpCode) : Z :=
  match i with
  | Op_EXIT => 0
  | Op_RETURN => 1
  | Op_GOTO => 2
  | Op_OUTPUT_CONST => 3
  | Op_OUTPUT_PATH => 4
  | Op_OUTPUT_LOOPCNT => 5
  | Op_OUTPUT_SEL_IDX => 6
  | Op_OUTPUT_SEL_NAM => 7
  | Op_OUTPUT_ITR_IDX => 8
  | Op_OUTPUT_ITR_NAM => 9
  | Op_OUTPUT_ITR_COLUMN => 10
  | Op_OUTPUT_OPEN_ARRAY => 11
  | Op_OUTPUT_OPEN_ELEM => 12
  | Op_OUTPUT_OPEN => 13
  | Op_OUTPUT_CLOSE_ARRAY => 14
  | Op_OUTPUT_CLOSE_ELEM => 15
  | Op_OUTPUT_CLOSE => 16
  | Op_OUTPUT_ADD_SINK => 17
  | Op_KEEP_RESULT => 18
  | Op_SELECT_PARAMETER => 19
  | Op_SELECT_LAST_RESULT => 20
  | Op_SELECT_KEPT_RESULT => 21
  | Op_OPEN_ITER_LAST_RESULT => 22
  | Op_OPEN_ITER_KEPT_RESULT => 23
  | Op_OPEN_ITER_PATH => 24
  | Op_OPEN_ITER_TUPLESET => 25
  | Op_NEXT => 26
  | Op_SUB_FRAME_OPEN => 27
  | Op_SUB_ARG_CONST => 28
  | Op_SUB_ARG_PATH => 29
  | Op_SUB_ARG_LOOPCNT => 30
  | Op_SUB_ARG_SEL_IDX => 31
  | Op_SUB_ARG_SEL_NAM => 32
  | Op_SUB_ARG_ITR_IDX => 33
  | Op_SUB_ARG_ITR_NAM => 34
  | Op_SUB_FRAME_CLOSE => 35
  | Op_SCOPE_OPEN => 36
  | Op_SCOPE_CLOSE => 37
  | Op_DBSTM_START => 38
  | Op_DBSTM_BIND_CONST => 39
  | Op_DBSTM_BIND_PATH => 40
  | Op_DBSTM_BIND_LOOPCNT => 41
  | Op_DBSTM_BIND_SEL_IDX => 42
  | Op_DBSTM_BIND_SEL_NAM => 43
  | Op_DBSTM_BIND_ITR_IDX => 44
  | Op_DBSTM_BIND_ITR_NAM => 45
  | Op_DBSTM_HINT => 46
  | Op_DBSTM_EXEC => 47
  | Op_RESULT_SET_INIT => 48
  | Op_RESULT_CONSTRAINT_UNIQUE => 49
  | Op_RESULT_CONSTRAINT_NONEMPTY => 50
  | Op_NOP => 51
  end.

Inductive ArgumentType :=
| At_None
| At_Address
| At_Path
| At_Constant
| At_ColumnName
| At_TagName
| At_ResultName
| At_Statement
| At_Hint
| At_SubroutineSignature
| At_TupleSet
| At_SelectedColumnIdx
| At_IteratorColumnIdx.

Definition ArgumentType_val (i : ArgumentType) : Z :=
  match i with
  | At_None => 0 | At_Address => 1 | At_Path => 2 | At_Constant => 3
  | At_ColumnName => 4 | At_TagName => 5 | At_ResultName => 6
  | At_Statement => 7 | At_Hint => 8 | At_SubroutineSignature => 9
  | At_TupleSet => 10 | At_SelectedColumnIdx => 11 | At_IteratorColumnIdx => 12
  end.

Inductive CondCode := Co_ALWAYS | Co_IF_COND | Co_NOT_IF_COND.

Definition CondCode_val (i : CondCode) : Z :=
  match i with Co_ALWAYS => 0 | Co_IF_COND => 1 | Co_NOT_IF_COND => 2 end.

#[export] Instance OpCode_eq_dec : EqDecision OpCode.
Proof. solve_decision. Defined.
#[export] Instance ArgumentType_eq_dec : EqDecision ArgumentType.
Proof. solve_decision. Defined.
#[export] Instance CondCode_eq_dec : EqDecision CondCode.
Proof. solve_decision. Defined.

(** ** Tables *)

(** Read of a static table of the code; out of its bounds is undefined. *)
Definition table_read {A} (ar : list A) (i : Z) : res A :=
  match ar !! Z.to_nat i with
  | Some x => Ok x
  | None => Throw (Undefined "table read out of bounds")
  end.

Definition opCodeName_ar : list string :=
  [ "EXIT";
    "RETURN";
    "GOTO";
    "OUTPUT_CONST";
    "OUTPUT_PATH";
    "OUTPUT_LOOPCNT";
    "OUTPUT_SEL_IDX";
    "OUTPUT_SEL_NAM";
    "OUTPUT_ITR_IDX";
    "OUTPUT_ITR_NAM";
    "OUTPUT_ITR_COLUMN";
    "OUTPUT_OPEN_ARRAY";
    "OUTPUT_OPEN_ELEM";
    "OUTPUT_OPEN";
    "OUTPUT_CLOSE_ARRAY";
    "OUTPUT_CLOSE_ELEM";
    "OUTPUT_CLOSE";
    "OUTPUT_ADD_SINK";
    "KEEP_RESULT";
    "SELECT_PARAMETER";
    "SELECT_LAST_RESULT";
    "SELECT_KEPT_RESULT";
    "OPEN_ITER_LAST_RESULT";
    "OPEN_ITER_KEPT_RESULT";
    "OPEN_ITER_PATH";
    "OPEN_ITER_TUPLESET";
    "NEXT";
    "SUB_FRAME_OPEN";
    "SUB_ARG_CONST";
    "SUB_ARG_PATH";
    "SUB_ARG_LOOPCNT";
    "SUB_ARG_SEL_IDX";
    "SUB_ARG_SEL_NAM";
    "SUB_ARG_ITR_IDX";
    "SUB_ARG_ITR_NAM";
    "SUB_FRAME_CLOSE";
    "SCOPE_OPEN";
    "SCOPE_CLOSE";
    "DBSTM_START";
    "DBSTM_BIND_CONST";
    "DBSTM_BIND_PATH";
    "DBSTM_BIND_LOOPCNT";
    "DBSTM_BIND_SEL_IDX";
    "DBSTM_BIND_SEL_NAM";
    "DBSTM_BIND_ITR_IDX";
    "DBSTM_BIND_ITR_NAM";
    "DBSTM_HINT";
    "DBSTM_EXEC";
    "RESULT_SET_INIT";
    "RESULT_CONSTRAINT_UNIQUE";
    "RESULT_CONSTRAINT_NONEMPTY";
    "NOP" ].

Definition opCodeName (i : Z) : res string := table_read opCodeName_ar i.

(** The table of the code has no entry for [At_Hint]. *)
Definition argumentTypeName_ar : list string :=
  [ ""; "Address"; "Path"; "Constant"; "ColumnName"; "TagName"; "ResultName";
    "Statement"; "SubroutineSignature"; "TupleSet"; "SelectedColumnIdx";
    "IteratorColumnIdx" ].

Definition argumentTypeName (i : ArgumentType) : res string :=
  table_read argumentTypeName_ar (ArgumentType_val i).

Definition argumentType_ar : list ArgumentType :=
  [ (* Op_EXIT *) At_None;
    (* Op_RETURN *) At_None;
    (* Op_GOTO *) At_Address;
    (* Op_OUTPUT_CONST *) At_Constant;
    (* Op_OUTPUT_PATH *) At_Path;
    (* Op_OUTPUT_LOOPCNT *) At_None;
    (* Op_OUTPUT_SEL_IDX *) At_SelectedColumnIdx;
    (* Op_OUTPUT_SEL_NAM *) At_ColumnName;
    (* Op_OUTPUT_ITR_IDX *) At_IteratorColumnIdx;
    (* Op_OUTPUT_ITR_NAM *) At_ColumnName;
    (* Op_OUTPUT_ITR_COLUMN *) At_None;
    (* Op_OUTPUT_OPEN_ARRAY *) At_TagName;
    (* Op_OUTPUT_OPEN_ELEM *) At_None;
    (* Op_OUTPUT_OPEN *) At_TagName;
    (* Op_OUTPUT_CLOSE_ARRAY *) At_None;
    (* Op_OUTPUT_CLOSE_ELEM *) At_None;
    (* Op_OUTPUT_CLOSE *) At_None;
    (* Op_OUTPUT_ADD_SINK *) At_None;
    (* Op_KEEP_RESULT *) At_ResultName;
    (* Op_SELECT_PARAMETER *) At_None;
    (* Op_SELECT_LAST_RESULT *) At_None;
    (* Op_SELECT_KEPT_RESULT *) At_ResultName;
    (* Op_OPEN_ITER_LAST_RESULT *) At_None;
    (* Op_OPEN_ITER_KEPT_RESULT *) At_ResultName;
    (* Op_OPEN_ITER_PATH *) At_Path;
    (* Op_OPEN_ITER_TUPLESET *) At_TupleSet;
    (* Op_NEXT *) At_None;
    (* Op_SUB_FRAME_OPEN *) At_SubroutineSignature;
    (* Op_SUB_ARG_CONST *) At_Constant;
    (* Op_SUB_ARG_PATH *) At_Path;
    (* Op_SUB_ARG_LOOPCNT *) At_None;
    (* Op_SUB_ARG_SEL_IDX *) At_SelectedColumnIdx;
    (* Op_SUB_ARG_SEL_NAM *) At_ColumnName;
    (* Op_SUB_ARG_ITR_IDX *) At_IteratorColumnIdx;
    (* Op_SUB_ARG_ITR_NAM *) At_ColumnName;
    (* Op_SUB_FRAME_CLOSE *) At_None;
    (* Op_SCOPE_OPEN *) At_None;
    (* Op_SCOPE_RESTORE *) At_None;
    (* Op_DBSTM_START *) At_Statement;
    (* Op_DBSTM_BIND_CONST *) At_Constant;
    (* Op_DBSTM_BIND_PATH *) At_Path;
    (* Op_DBSTM_BIND_LOOPCNT *) At_None;
    (* Op_DBSTM_BIND_SEL_IDX *) At_SelectedColumnIdx;
    (* Op_DBSTM_BIND_SEL_NAM *) At_ColumnName;
    (* Op_DBSTM_BIND_ITR_IDX *) At_IteratorColumnIdx;
    (* Op_DBSTM_BIND_ITR_NAM *) At_ColumnName;
    (* Op_DBSTM_HINT *) At_Hint;
    (* Op_DBSTM_EXEC *) At_None;
    (* Op_RESULT_SET_INIT *) At_None;
    (* Op_RESULT_CONSTRAINT_UNIQUE *) At_None;
    (* Op_RESULT_CONSTRAINT_NONEMPTY *) At_None;
    (* Op_NOP *) At_None ].

Definition argumentType (i : Z) : res ArgumentType := table_read argumentType_ar i.

Definition condCodeName (i : Z) : res string :=
  table_read [ ""; "IF_COND"; "NOT_IF_COND" ] i.

(** ** Packing *)

Definition BitCnt_OpCode : Z := 6.
Definition Shift_OpCode : Z := 26.
Definition BitCnt_CondCode : Z := 2.
Definition Shift_CondCode : Z := 24.
Definition BitCnt_ArgumentIndex : Z := 20.
Definition Shift_ArgumentIndex : Z := 0.

Definition Max_OpCode : Z := Z.shiftl 1 BitCnt_OpCode - 1.
Definition Max_CondCode : Z := Z.shiftl 1 BitCnt_CondCode - 1.
Definition Max_ArgumentIndex : Z := Z.shiftl 1 BitCnt_ArgumentIndex - 1.

Definition Mask_OpCode : Z := u32 (Z.shiftl Max_OpCode Shift_OpCode).
Definition Mask_CondCode : Z := u32 (Z.shiftl Max_CondCode Shift_CondCode).
Definition Mask_ArgumentIndex : Z := u32 (Z.shiftl Max_ArgumentIndex Shift_ArgumentIndex).

(** [instruction cond opcode arg] with the enumerators passed by their value,
    as the code casts them to [unsigned int]. *)
Definition instruction_raw (cond opcode arg : Z) : res Z :=
  let rt := 0 in
  if Max_CondCode <? cond
  then Throw (RuntimeError "VM instruction condition code out of range")
  else
    let rt := Z.lor rt (u32 (Z.shiftl cond Shift_CondCode)) in
    if Max_OpCode <? opcode
    then Throw (RuntimeError "VM instruction opcode out of range")
    else
      let rt := Z.lor rt (u32 (Z.shiftl opcode Shift_OpCode)) in
      if Max_ArgumentIndex <? arg
      then Throw (RuntimeError "VM instruction parameter reference out of range")
      else Ok (Z.lor rt (u32 (Z.shiftl arg Shift_ArgumentIndex))).

Definition instruction (cond : CondCode) (opcode : OpCode) (arg : Z) : res Z :=
  instruction_raw (CondCode_val cond) (OpCode_val opcode) arg.

Definition instruction_always (opcode : OpCode) (arg : Z) : res Z :=
  instruction Co_ALWAYS opcode arg.

(** The casts of the code yield an integer that need not be an enumerator. *)
Definition condCode (instr : Z) : Z :=
  Z.shiftr (Z.land instr Mask_CondCode) Shift_CondCode.
Definition opCode (instr : Z) : Z :=
  Z.shiftr (Z.land instr Mask_OpCode) Shift_OpCode.
Definition argumentIndex (instr : Z) : Z :=
  Z.shiftr (Z.land instr Mask_ArgumentIndex) Shift_ArgumentIndex.

(** The enumerator of an integer value, if it has one. *)
Definition OpCode_of (v : Z) : option OpCode := opcodes !! Z.to_nat v.

(** ** Printing *)

Definition newline : string := String "010"%char "".

Definition instructionstr (instr : Z) : res string :=
  let cc := condCode instr in
  let oc := opCode instr in
  at_ ← argumentType oc;
  let ai := argumentIndex instr in
  ccn ← condCodeName cc;
  ocn ← opCodeName oc;
  let out := (ccn +:+ " " +:+ ocn +:+ " ")%string in
  if decide (at_ = At_None) then Ok out
  else atn ← argumentTypeName at_; Ok (out +:+ atn +:+ " " +:+ pretty ai)%string.

Fixpoint printProgramRaw_from (adr : Z) (prg : list Z) : res string :=
  match prg with
  | [] => Ok ""%string
  | pi :: pe =>
      line ← instructionstr pi;
      rest ← printProgramRaw_from (u32 (adr + 1)) pe;
      Ok ("[" +:+ pretty adr +:+ "] " +:+ line +:+ newline +:+ rest)%string
  end.

Definition printProgramRaw (prg : list Z) : res string := printProgramRaw_from 0 prg.

(** ** Facts about the packing *)

Lemma OpCode_val_range op : 0 <= OpCode_val op < 52.
Proof. destruct op; cbn; lia. Qed.

Lemma CondCode_val_range c : 0 <= CondCode_val c < 3.
Proof. destruct c; cbn; lia. Qed.

Lemma OpCode_of_val op : OpCode_of (OpCode_val op) = Some op.
Proof. destruct op; reflexivity. Qed.

Lemma OpCode_of_Some v op : 0 <= v -> OpCode_of v = Some op -> OpCode_val op = v.
Proof.
  unfold OpCode_of. intros Hv H.
  rewrite <- (Z2Nat.id v) by lia. generalize dependent (Z.to_nat v). intros n H.
  do 52 (destruct n as [|n]; [injection H as <-; reflexivity|]). discriminate H.
Qed.

#[export] Hint Resolve OpCode_val_range CondCode_val_range : wolf.

(** The word put together from its three parts, as a sum of its fields. *)
Lemma word_of_fields c o a :
  0 <= c < 4 -> 0 <= o < 64 -> 0 <= a < 2 ^ 20 ->
  Z.lor (Z.lor (Z.lor 0 (u32 (Z.shiftl c 24))) (u32 (Z.shiftl o 26))) (u32 (Z.shiftl a 0))
  = o * 2 ^ 26 + c * 2 ^ 24 + a.
Proof.
  intros Hc Ho Ha. rewrite Z.lor_0_l, Z.shiftl_0_r, !Z.shiftl_mul_pow2 by lia.
  unfold wrap. rewrite !Z.mod_small by lia.
  rewrite lor_high_low by lia.
  replace (c * 2 ^ 24 + o * 2 ^ 26) with ((c + o * 4) * 2 ^ 24) by lia.
  rewrite Z.lor_comm, lor_high_low by lia. lia.
Qed.

(** What [instruction] returns, on every branch. *)
Lemma instruction_spec c o a :
  instruction c o a =
  if Max_ArgumentIndex <? a
  then Throw (RuntimeError "VM instruction parameter reference out of range")
  else Ok (Z.lor (Z.lor (Z.lor 0 (u32 (Z.shiftl (CondCode_val c) 24)))
                        (u32 (Z.shiftl (OpCode_val o) 26))) (u32 (Z.shiftl a 0))).
Proof.
  unfold instruction, instruction_raw.
  pose proof (CondCode_val_range c). pose proof (OpCode_val_range o).
  change Max_CondCode with 3. change Max_OpCode with 63.
  destruct (Z.ltb_spec 3 (CondCode_val c)); [lia|].
  destruct (Z.ltb_spec 63 (OpCode_val o)); [lia|]. reflexivity.
Qed.

Lemma fields_read i :
  condCode i = (i / 2 ^ 24) mod 2 ^ 2 /\
  opCode i = (i / 2 ^ 26) mod 2 ^ 6 /\
  argumentIndex i = i mod 2 ^ 20.
Proof.
  unfold condCode, opCode, argumentIndex.
  change Mask_CondCode with (Z.shiftl (Z.ones 2) 24).
  change Mask_OpCode with (Z.shiftl (Z.ones 6) 26).
  change Mask_ArgumentIndex with (Z.shiftl (Z.ones 20) 0).
  rewrite !field_read by (cbv; congruence).
  rewrite Z.pow_0_r, Z.div_1_r. auto.
Qed.

(** Decoding what was packed. *)
Lemma instruction_raw_decode c o a i :
  0 <= c < 4 -> 0 <= o < 64 -> 0 <= a -> instruction_raw c o a = Ok i ->
  condCode i = c /\ opCode i = o /\ argumentIndex i = a /\ 0 <= i < 2 ^ 32.
Proof.
  intros Hc Ho Ha H. unfold instruction_raw in H.
  change Max_CondCode with 3 in H. change Max_OpCode with 63 in H. change Max_ArgumentIndex with 1048575 in H.
  destruct (Z.ltb_spec 3 c); [lia|]. destruct (Z.ltb_spec 63 o); [lia|].
  destruct (Z.ltb_spec 1048575 a); [discriminate|]. injection H as <-.
  change Shift_CondCode with 24. change Shift_OpCode with 26. change Shift_ArgumentIndex with 0.
  rewrite word_of_fields by lia.
  set (w := o * 2 ^ 26 + c * 2 ^ 24 + a).
  destruct (fields_read w) as (-> & -> & ->). subst w.
  assert (E24 : (o * 2 ^ 26 + c * 2 ^ 24 + a) / 2 ^ 24 = o * 4 + c).
  { symmetry. apply (Z.div_unique _ _ _ a); lia. }
  assert (E26 : (o * 2 ^ 26 + c * 2 ^ 24 + a) / 2 ^ 26 = o).
  { symmetry. apply (Z.div_unique _ _ _ (c * 2 ^ 24 + a)); lia. }
  rewrite E24, E26. repeat split; try lia.
  - symmetry. apply (Z.mod_unique _ _ o); lia.
  - apply Z.mod_small. lia.
  - symmetry. apply (Z.mod_unique _ _ (o * 64 + c * 16)); lia.
Qed.

Lemma instruction_decode c o a i :
  0 <= a -> instruction c o a = Ok i ->
  condCode i = CondCode_val c /\ opCode i = OpCode_val o /\ argumentIndex i = a /\
  0 <= i < 2 ^ 32.
Proof.
  pose proof (CondCode_val_range c). pose proof (OpCode_val_range o).
  intros. apply instruction_raw_decode; try done; lia.
Qed.

Lemma instruction_Ok c o a :
  0 <= a <= Max_ArgumentIndex -> exists i, instruction c o a = Ok i.
Proof.
  intros Ha. rewrite instruction_spec. destruct (Z.ltb_spec Max_ArgumentIndex a); [lia|].
  eauto.
Qed.

(** ** Properties *)

(** C25. Encoding and decoding of instructions are inverse: for every condition
    code, operation code and argument index, [instruction] throws exactly when the
    argument exceeds [Max_ArgumentIndex], and otherwise returns a 32 bit word from
    which [condCode], [opCode] and [argumentIndex] read the three parts back. *)
Theorem instruction_roundtrip (c : CondCode) (o : OpCode) (a : Z) :
  0 <= a ->
  (Max_ArgumentIndex < a /\
   instruction c o a = Throw (RuntimeError "VM instruction parameter reference out of range")) \/
  (a <= Max_ArgumentIndex /\ exists i,
     instruction c o a = Ok i /\ 0 <= i < 2 ^ 32 /\
     condCode i = CondCode_val c /\ opCode i = OpCode_val o /\
     OpCode_of (opCode i) = Some o /\ argumentIndex i = a).
Proof.
  intros Ha. destruct (Z.lt_ge_cases Max_ArgumentIndex a) as [H|H].
  - left. split; [done|]. rewrite instruction_spec.
    destruct (Z.ltb_spec Max_ArgumentIndex a); [done|lia].
  - right. split; [lia|]. destruct (instruction_Ok c o a) as [i Hi]; [lia|].
    exists i. destruct (instruction_decode _ _ _ _ Ha Hi) as (Hc & Ho & Hi' & Hr).
    rewrite Ho, OpCode_of_val. split_and!; tauto.
Qed.

Lemma instruction_roundtrip_witness :
  exists i, instruction Co_IF_COND Op_GOTO 77 = Ok i /\ argumentIndex i = 77.
Proof.
  destruct (instruction_roundtrip Co_IF_COND Op_GOTO 77) as [[H _]|(_ & i & Hi & _ & _ & _ & _ & Ha)];
    [lia|cbv in H; discriminate H|eauto].
Defined.

(** The table of argument type names misses the entry of [At_Hint]: printing
    an instruction whose argument is a hint index or a subroutine signature or a
    tuple set names the wrong type, and printing one that addresses an iterator
    column by index reads the table out of its bounds. *)
Theorem instructionstr_argument_names :
  argumentTypeName At_Hint = Ok "SubroutineSignature" /\
  argumentTypeName At_SubroutineSignature = Ok "TupleSet" /\
  (forall i o, OpCode_of (opCode i) = Some o ->
     argumentType (OpCode_val o) = Ok At_IteratorColumnIdx -> condCode i < 3 ->
     instructionstr i = Throw (Undefined "table read out of bounds")).
Proof.
  split; [reflexivity|]. split; [reflexivity|]. intros i o Ho Hat Hc.
  destruct (fields_read i) as (Hcr & Hor & _).
  pose proof (Z.mod_pos_bound (i / 2 ^ 24) (2 ^ 2) eq_refl).
  pose proof (Z.mod_pos_bound (i / 2 ^ 26) (2 ^ 6) eq_refl).
  assert (Hv : OpCode_val o = opCode i) by (apply OpCode_of_Some; [lia|done]).
  unfold instructionstr. rewrite <- Hv.
  assert (Hcn : exists s, condCodeName (condCode i) = Ok s).
  { assert (condCode i = 0 \/ condCode i = 1 \/ condCode i = 2) as [-> | [-> | ->]] by lia;
      eexists; reflexivity. }
  destruct Hcn as [s Hs]. rewrite Hat, Hs. clear -Hat.
  destruct o; try discriminate Hat; reflexivity.
Qed.

Lemma instructionstr_argument_names_witness :
  exists i, instruction Co_ALWAYS Op_OUTPUT_ITR_IDX 1 = Ok i /\
    instructionstr i = Throw (Undefined "table read out of bounds").
Proof.
  eexists. split; [reflexivity|].
  destruct instructionstr_argument_names as (_ & _ & H).
  apply (H _ Op_OUTPUT_ITR_IDX); reflexivity.
Defined.
