(* ===== verification/Variant.v ===== *)
(** * Values

    Models the value type of include/types/variant.hpp (the tagged union
    [Variant], which the virtual machine and the filters pass around) and the
    error record of include/database/databaseError.hpp. *)
From S2P Require Import Prelude.

(** Fixed point number of include/types/bignumber.hpp: the digits are the
    significant decimal digits, most significant first. *)
Record BigNumber := mkBigNumber {
  bn_scale : Z;
  bn_sign : bool;
  bn_digits : list Z
}.

(** The variant types of the code.  A custom value is an object behind a virtual
    interface: the value holds the reference.  A double is held as its 64 bit
    pattern, a timestamp as the 64 bit word of types::DateTime. *)
Inductive Variant :=
| Null
| Custom (ref : nat)
| Timestamp (word : Z)
| BigNum (num : BigNumber)
| Double (bits : Z)
| Int (i : Z)
| UInt (u : Z)
| Bool (b : bool)
| Str (s : string).

#[export] Instance BigNumber_eq_dec : EqDecision BigNumber.
Proof. solve_decision. Defined.
#[export] Instance Variant_eq_dec : EqDecision Variant.
Proof. solve_decision. Defined.

(** [defined()], [atomic()] values: everything but [Null]. *)
Definition defined (v : Variant) : bool :=
  match v with Null => false | _ => true end.

Definition is_String (v : Variant) : bool :=
  match v with Str _ => true | _ => false end.

(** [charsize()] throws for a value that is not a string. *)
Definition charsize (v : Variant) : res nat :=
  match v with
  | Str s => Ok (String.length s)
  | _ => Throw (LogicError "illegal access (type mismatch)")
  end.

(** The constructor [Variant( boost::uint64_t)]. *)
Definition Variant_of_size (n : nat) : Variant := UInt (Z.of_nat n).

(** ** Database errors *)

Record DatabaseError := mkDatabaseError {
  dbname : string;
  errorclass : string;
  errorcode : Z;
  errormsg : string;
  errordetail : string;
  errorhint : string;
  err_ip : Z
}.

Definition DatabaseError_default : DatabaseError := mkDatabaseError "" "" 0 "" "" "" 0.

(** [DatabaseError( errorclass_, errorcode_, errormsg_)]: [errorcode] is unsigned. *)
Definition DatabaseError_make (cls : string) (code : Z) (msg : string) : DatabaseError :=
  mkDatabaseError "" cls (u32 code) msg "" "" 0.

#[export] Instance DatabaseError_eq_dec : EqDecision DatabaseError.
Proof. solve_decision. Defined.
