(* ===== verification/ValueTupleSet.v ===== *)
(** * Tuple sets, subroutine frames and output of the transaction virtual machine

    Models include/database/vm/valueTupleSet.hpp (the tables of values the
    machine reads: database results, transaction input, subroutine parameters),
    include/database/vm/subroutineFrame.hpp (the parameters of a call under
    construction) and include/database/vm/output.hpp (the output sinks).

    Tuple sets are shared by reference in the code (boost::shared_ptr), so they
    live in a store: a list indexed by the locations [nat].  An iterator holds a
    location and an index into the flat array of values. *)
From S2P Require Import Prelude Variant.

(** ** Case insensitive comparison (boost::algorithm::iequals, C locale) *)

Definition toupper_ascii (c : ascii) : ascii :=
  let n := nat_of_ascii c in
  if ((97 <=? n) && (n <=? 122))%nat then ascii_of_nat (n - 32) else c.

Fixpoint iequals (a b : string) : bool :=
  match a, b with
  | "", "" => true
  | String c a', String d b' =>
      bool_decide (toupper_ascii c = toupper_ascii d) && iequals a' b'
  | _, _ => false
  end%string.

Module ValueTupleSet.

(** ** Tuple sets *)

Record t := mk {
  m_colnames : list string;
  m_ar : list Variant
}.

Abbreviation store := (list t).

(** The default constructed set, and a set with column names. *)
Definition empty_set : t := mk [] [].
Definition make (colnames : list string) : t := mk colnames [].

Definition nofColumns (v : t) : nat := length (m_colnames v).

Definition columnName (v : t) (i : nat) : res string :=
  if ((i =? 0) || (length (m_colnames v) <? i))%nat
  then Throw (RuntimeError "column index out of range")
  else match m_colnames v !! (i - 1)%nat with
       | Some s => Ok s
       | None => Throw (OutOfRange "vector::at")
       end.

(** Index of the first column with the name, counted from 1. *)
Fixpoint columnIndex_from (ii : nat) (colnames : list string) (name : string) : res nat :=
  match colnames with
  | [] => Throw (RuntimeError "unknown value set column name")
  | c :: colnames' => if iequals name c then Ok (ii + 1)%nat
                      else columnIndex_from (ii + 1)%nat colnames' name
  end.

Definition columnIndex (v : t) (name : string) : res nat :=
  columnIndex_from 0 (m_colnames v) name.

Definition push (v : t) (c : list Variant) : res t :=
  if negb (length c =? length (m_colnames v))%nat
  then Throw (RuntimeError "pushed result with non matching number of columns")
  else Ok (mk (m_colnames v) (m_ar v ++ c)).

(** [size()] divides by the number of columns. *)
Definition size (v : t) : res nat :=
  match length (m_colnames v) with
  | O => Throw (Undefined "division by zero")
  | n => Ok (length (m_ar v) / n)%nat
  end.

Definition empty (v : t) : bool :=
  match m_ar v with [] => true | _ => false end.

Definition checkConstraintNonEmpty (v : t) : res unit :=
  n ← size v;
  check_that (negb (n =? 0)%nat) (RuntimeError "constraint 'set non empty' failed").

Definition checkConstraintUnique (v : t) : res unit :=
  n ← size v;
  check_that (negb (1 <? n)%nat) (RuntimeError "constraint 'set unique' failed").

Definition append (v ts : t) : res t :=
  if negb (length (m_colnames ts) =? length (m_colnames v))%nat
  then Throw (RuntimeError "joining incompatible lists")
  else Ok (mk (m_colnames v) (m_ar v ++ m_ar ts)).

(** ** Iterators *)

(** A default constructed iterator refers to a static empty set, any other one to
    a set of the store. *)
Inductive ref := RefStatic | Ref (l : nat).

Record const_iterator := mkIterator {
  m_idx : nat;
  m_ref : ref
}.

#[export] Instance ref_eq_dec : EqDecision ref.
Proof. solve_decision. Defined.
#[export] Instance const_iterator_eq_dec : EqDecision const_iterator.
Proof. solve_decision. Defined.
#[export] Instance t_eq_dec : EqDecision t.
Proof. solve_decision. Defined.

Definition iterator_default : const_iterator := mkIterator 0 RefStatic.

Definition deref (h : store) (r : ref) : res t :=
  match r with
  | RefStatic => Ok empty_set
  | Ref l => match h !! l with
             | Some v => Ok v
             | None => Throw (Undefined "dangling reference to value tuple set")
             end
  end.

Definition incr (h : store) (i : const_iterator) : res const_iterator :=
  v ← deref h (m_ref i);
  Ok (mkIterator (m_idx i + length (m_colnames v)) (m_ref i)).

Definition index (i : const_iterator) : nat := m_idx i.

Definition isequal (a b : const_iterator) : bool := bool_decide (a = b).

Definition column (h : store) (it : const_iterator) (i : nat) : res Variant :=
  v ← deref h (m_ref it);
  if ((i =? 0) || (length (m_colnames v) <? i) || (length (m_ar v) <=? m_idx it + i - 1))%nat
  then Throw (RuntimeError "value tuple set column index out of range")
  else match m_ar v !! (m_idx it + i - 1)%nat with
       | Some x => Ok x
       | None => Throw (OutOfRange "vector::at")
       end.

Definition begin (l : nat) : const_iterator := mkIterator 0 (Ref l).
Definition end_ (l : nat) (v : t) : const_iterator := mkIterator (length (m_ar v)) (Ref l).

(** ** Specification vocabulary *)

(** A set is well-formed if its flat array is a whole number of tuples. *)
Definition wf (v : t) : Prop :=
  exists n, length (m_ar v) = (n * length (m_colnames v))%nat.

(** A set given as a table. *)
Definition of_rows (colnames : list string) (rows : list (list Variant)) : t :=
  mk colnames (concat rows).

Definition rows_ok (colnames : list string) (rows : list (list Variant)) : Prop :=
  Forall (fun r => length r = length colnames) rows.

End ValueTupleSet.

(** ** Subroutine frames *)

Module SubroutineFrame.

Record t := mk {
  m_paramnames : list string;
  m_paramvalues : list Variant
}.

Definition clear (f : t) : t := mk [] [].

Definition init (f : t) (paramnames : list string) : t :=
  let f := clear f in mk paramnames (m_paramvalues f).

Definition push (f : t) (p : Variant) : res t :=
  if (length (m_paramnames f) <=? length (m_paramvalues f))%nat
  then Throw (RuntimeError "too many parameters passed to subroutine")
  else Ok (mk (m_paramnames f) (m_paramvalues f ++ [p])).

Definition getParameters (f : t) : res ValueTupleSet.t :=
  if (length (m_paramvalues f) <? length (m_paramnames f))%nat
  then Throw (RuntimeError "too few parameters passed to subroutine")
  else ValueTupleSet.push (ValueTupleSet.make (m_paramnames f)) (m_paramvalues f).

Fixpoint push_all (f : t) (ps : list Variant) : res t :=
  match ps with
  | [] => Ok f
  | p :: ps' => f' ← push f p; push_all f' ps'
  end.

End SubroutineFrame.

(** ** Output *)

Module Output.

Inductive Operation :=
| Open
| OpenArray
| OpenArrayElement
| Close
| CloseArray
| CloseArrayElement
| Value.

#[export] Instance Operation_eq_dec : EqDecision Operation.
Proof. solve_decision. Defined.

Record Element := mkElement {
  m_op : Operation;
  m_arg : Variant
}.

#[export] Instance Element_eq_dec : EqDecision Element.
Proof. solve_decision. Defined.

(** [Element( op)] leaves the argument [Null]. *)
Definition element (op : Operation) : Element := mkElement op Null.

(** The output sinks, the current one last.  The constructor opens the first. *)
Definition t := list (list Element).

Definition make : t := [[]].

(** [m_ar.back().push_back( elem)]. *)
Definition add (o : t) (elem : Element) : res t :=
  match rev o with
  | [] => Throw (Undefined "back of an empty vector")
  | sink :: sinks => Ok (rev sinks ++ [sink ++ [elem]])
  end.

Definition addValue (o : t) (v : Variant) : res t := add o (mkElement Value v).

Definition addOutputSink (o : t) : t := o ++ [[]].

Definition elements (o : t) (i : nat) : res (list Element) :=
  match o !! i with
  | Some sink => Ok sink
  | None => Throw (RuntimeError "array bound access")
  end.

End Output.

(** ** Lemmas *)

Module ValueTupleSetFacts.
Import ValueTupleSet.

Lemma columnIndex_from_spec names name : forall ii,
  match columnIndex_from ii names name with
  | Ok i => exists k c, i = (ii + S k)%nat /\ names !! k = Some c /\ iequals name c = true /\
              forall k' c', (k' < k)%nat -> names !! k' = Some c' -> iequals name c' = false
  | Throw e => e = RuntimeError "unknown value set column name" /\
              Forall (fun c => iequals name c = false) names
  | OutOfFuel => False
  end.
Proof.
  induction names as [|c names IH]; intros ii; cbn; [auto|].
  destruct (iequals name c) eqn:E.
  - exists 0%nat, c. repeat split; auto; lia.
  - specialize (IH (ii + 1)%nat). destruct (columnIndex_from _ _ _) as [i|e|]; [|naive_solver|done].
    destruct IH as (k & c' & -> & Hk & Hc & Hf). exists (S k), c'. repeat split; auto; [lia|].
    intros [|k'] c'' Hlt Hc''; [cbn in Hc''; congruence|].
    apply (Hf k'); [lia|done].
Qed.

Lemma columnIndex_Ok v name i :
  columnIndex v name = Ok i -> (1 <= i <= nofColumns v)%nat.
Proof.
  unfold columnIndex. pose proof (columnIndex_from_spec (m_colnames v) name 0) as Hs.
  intros E. rewrite E in Hs. destruct Hs as (k & c & -> & Hk & _).
  apply lookup_lt_Some in Hk. unfold nofColumns. lia.
Qed.

(** Position of an element in a concatenation of lists of equal length. *)
Lemma concat_lookup {A} (rows : list (list A)) n k i :
  Forall (fun r => length r = n) rows -> (i < n)%nat ->
  concat rows !! (k * n + i)%nat = (r ← rows !! k; r !! i).
Proof.
  intros Hr Hi. revert k. induction Hr as [|r rows Hl _ IH]; intros k; [done|].
  cbn. destruct k as [|k].
  - rewrite lookup_app_l by (cbn; lia). done.
  - rewrite lookup_app_r by (cbn; lia). cbn. rewrite <- IH. f_equal. lia.
Qed.

Lemma concat_length {A} (rows : list (list A)) n :
  Forall (fun r => length r = n) rows -> length (concat rows) = (length rows * n)%nat.
Proof. induction 1; cbn; [done|]. rewrite length_app. lia. Qed.

(** The iterator on the [k]-th row. *)
Definition row_iterator (l : nat) (colnames : list string) (k : nat) : const_iterator :=
  mkIterator (k * length colnames) (Ref l).

Lemma incr_row h l colnames rows k :
  h !! l = Some (of_rows colnames rows) ->
  incr h (row_iterator l colnames k) = Ok (row_iterator l colnames (S k)).
Proof. intros Hl. unfold incr, row_iterator. cbn. rewrite Hl. cbn. do 2 f_equal. lia. Qed.

Lemma column_row h l colnames rows k i :
  h !! l = Some (of_rows colnames rows) -> rows_ok colnames rows ->
  (1 <= i <= length colnames)%nat -> (k < length rows)%nat ->
  column h (row_iterator l colnames k) i =
    match (r ← rows !! k; r !! (i - 1)%nat) with
    | Some x => Ok x
    | None => Throw (OutOfRange "vector::at")
    end.
Proof.
  intros Hl Hr Hi Hk. unfold column, row_iterator, deref. cbn [m_ref m_idx]. rewrite Hl.
  cbn [mbind res_bind of_rows m_colnames m_ar].
  rewrite (concat_length _ _ Hr).
  rewrite (proj2 (Nat.leb_gt (length rows * length colnames) _)) by nia.
  rewrite (proj2 (Nat.ltb_ge (length colnames) i)), (proj2 (Nat.eqb_neq i 0)) by lia.
  cbn. replace (k * length colnames + i - 1)%nat with (k * length colnames + (i - 1))%nat by lia.
  rewrite (concat_lookup _ (length colnames)) by (auto; lia). reflexivity.
Qed.

Lemma row_lookup colnames rows k i :
  rows_ok colnames rows -> (k < length rows)%nat -> (1 <= i <= length colnames)%nat ->
  exists r x, rows !! k = Some r /\ length r = length colnames /\ r !! (i - 1)%nat = Some x.
Proof.
  intros Hr Hk Hi. destruct (lookup_lt_is_Some_2 rows k Hk) as [r Hrk].
  pose proof (Forall_lookup_1 _ _ _ _ Hr Hrk) as Hlen. cbn in Hlen.
  destruct (lookup_lt_is_Some_2 r (i - 1)) as [x Hx]; [lia|]. eauto.
Qed.

Lemma row_iterator_end l colnames rows k :
  rows_ok colnames rows -> colnames <> [] -> (k <= length rows)%nat ->
  isequal (row_iterator l colnames k) (end_ l (of_rows colnames rows)) =
    (k =? length rows)%nat.
Proof.
  intros Hr Hn Hk. unfold isequal, row_iterator, end_. cbn. rewrite (concat_length _ _ Hr).
  destruct colnames as [|c cs]; [done|].
  destruct (Nat.eqb_spec k (length rows)) as [->|Hne].
  - now apply bool_decide_eq_true_2.
  - apply bool_decide_eq_false_2. intros [=]. cbn in *. nia.
Qed.

Lemma columnName_lookup v i name :
  m_colnames v !! i = Some name -> columnName v (S i) = Ok name.
Proof.
  intros Hn. unfold columnName. apply lookup_lt_Some in Hn as Hlt.
  rewrite (proj2 (Nat.ltb_ge _ _)), (proj2 (Nat.eqb_neq _ _)) by lia. cbn [orb].
  replace (S i - 1)%nat with i by lia. by rewrite Hn.
Qed.

Lemma size_of_rows colnames rows :
  rows_ok colnames rows -> colnames <> [] -> size (of_rows colnames rows) = Ok (length rows).
Proof.
  intros Hr Hn. unfold size. cbn [of_rows m_colnames m_ar]. rewrite (concat_length _ _ Hr).
  destruct (length colnames) eqn:E; [destruct colnames; done|].
  rewrite Nat.div_mul by lia. reflexivity.
Qed.

Lemma push_of_rows colnames rows r :
  length r = length colnames ->
  push (of_rows colnames rows) r = Ok (of_rows colnames (rows ++ [r])).
Proof.
  intros Hl. unfold push, of_rows. cbn. rewrite Hl, Nat.eqb_refl. cbn.
  rewrite concat_app. cbn. now rewrite app_nil_r.
Qed.

Lemma push_wf v c v' : wf v -> push v c = Ok v' -> wf v' /\ m_colnames v' = m_colnames v.
Proof.
  intros [n Hn] Hp. unfold push in Hp.
  destruct (Nat.eqb_spec (length c) (length (m_colnames v))); cbn in Hp; [|discriminate].
  res_inv. split; [|done]. exists (S n). cbn. rewrite length_app. lia.
Qed.

Lemma append_wf v ts v' :
  wf v -> wf ts -> append v ts = Ok v' ->
  wf v' /\ m_colnames v' = m_colnames v /\ m_ar v' = m_ar v ++ m_ar ts.
Proof.
  intros [n Hn] [m Hm] Hp. unfold append in Hp.
  destruct (Nat.eqb_spec (length (m_colnames ts)) (length (m_colnames v))); cbn in Hp; [|discriminate].
  res_inv. split_and!; try done. exists (n + m)%nat. cbn. rewrite length_app. nia.
Qed.

Lemma make_wf cs : wf (make cs).
Proof. now exists 0%nat. Qed.

Lemma of_rows_wf cs rows : rows_ok cs rows -> wf (of_rows cs rows).
Proof. intros Hr. exists (length rows). cbn. now apply concat_length. Qed.

End ValueTupleSetFacts.

Module SubroutineFrameFacts.
Import SubroutineFrame.

Lemma push_all_Ok ps : forall f,
  (length (m_paramvalues f) + length ps <= length (m_paramnames f))%nat ->
  push_all f ps = Ok (mk (m_paramnames f) (m_paramvalues f ++ ps)).
Proof.
  induction ps as [|p ps IH]; intros f Hl; cbn in *.
  - rewrite app_nil_r. now destruct f.
  - unfold push at 1.
    destruct (Nat.leb_spec (length (m_paramnames f)) (length (m_paramvalues f))); [lia|]. cbn.
    rewrite IH; cbn; [now rewrite <- app_assoc|]. rewrite length_app. cbn. lia.
Qed.

Lemma push_all_too_many ps : forall f,
  (length (m_paramvalues f) <= length (m_paramnames f))%nat ->
  (length (m_paramnames f) < length (m_paramvalues f) + length ps)%nat ->
  push_all f ps = Throw (RuntimeError "too many parameters passed to subroutine").
Proof.
  induction ps as [|p ps IH]; intros f Hle Hl; cbn in *; [lia|].
  unfold push at 1.
  destruct (Nat.leb_spec (length (m_paramnames f)) (length (m_paramvalues f))); cbn; [done|].
  apply IH; cbn; rewrite length_app; cbn; lia.
Qed.

End SubroutineFrameFacts.

Module OutputFacts.
Import Output.

Lemma add_last o sink elem : add (o ++ [sink]) elem = Ok (o ++ [sink ++ [elem]]).
Proof. unfold add. rewrite rev_app_distr. cbn. now rewrite rev_involutive. Qed.

Lemma add_Ok o elem : o <> [] -> exists o', add o elem = Ok o' /\ o' <> [].
Proof.
  intros Ho. destruct (exists_last Ho) as (o0 & sink & ->). rewrite add_last.
  eexists. split; [done|]. destruct o0; done.
Qed.

End OutputFacts.

(** ** Properties *)

(** [columnIndex] returns the position, counted from 1, of the first column whose
    name is equal to the name searched when case is ignored, and it throws exactly
    when no column has the name. *)
Theorem columnIndex_first (v : ValueTupleSet.t) (name : string) :
  match ValueTupleSet.columnIndex v name with
  | Ok i => exists k c, i = S k /\ ValueTupleSet.m_colnames v !! k = Some c /\
              iequals name c = true /\
              (forall k' c', (k' < k)%nat -> ValueTupleSet.m_colnames v !! k' = Some c' ->
                 iequals name c' = false) /\
              ValueTupleSet.columnName v i = Ok c
  | Throw e => e = RuntimeError "unknown value set column name" /\
              Forall (fun c => iequals name c = false) (ValueTupleSet.m_colnames v)
  | OutOfFuel => False
  end.
Proof.
  unfold ValueTupleSet.columnIndex.
  pose proof (ValueTupleSetFacts.columnIndex_from_spec (ValueTupleSet.m_colnames v) name 0) as Hs.
  destruct (ValueTupleSet.columnIndex_from _ _ _) as [i|e|]; [|done|done].
  destruct Hs as (k & c & -> & Hk & Hc & Hf). exists k, c. split_and!; auto.
  by apply ValueTupleSetFacts.columnName_lookup.
Qed.

(** Iterating over a table: the [k]-th increment of [begin()] is the iterator on the
    [k]-th row, it equals [end()] exactly after the last row, and on a row [column( i)]
    yields the [i]-th value of the row for every column number of the table. *)
Theorem iteration_visits_rows h l colnames rows k it :
  h !! l = Some (ValueTupleSet.of_rows colnames rows) ->
  ValueTupleSet.rows_ok colnames rows -> colnames <> [] ->
  (k <= length rows)%nat ->
  Nat.iter k (fun r => r ≫= ValueTupleSet.incr h) (Ok (ValueTupleSet.begin l)) = Ok it ->
  ValueTupleSet.isequal it (ValueTupleSet.end_ l (ValueTupleSet.of_rows colnames rows)) =
    (k =? length rows)%nat /\
  ((k < length rows)%nat -> exists row, rows !! k = Some row /\
     forall i, (1 <= i <= length colnames)%nat ->
       exists x, row !! (i - 1)%nat = Some x /\ ValueTupleSet.column h it i = Ok x).
Proof.
  intros Hl Hr Hn Hk Hit.
  assert (forall j, Nat.iter j (fun r => r ≫= ValueTupleSet.incr h) (Ok (ValueTupleSet.begin l))
            = Ok (ValueTupleSetFacts.row_iterator l colnames j)) as Hj.
  { induction j as [|j IH]; [done|]. rewrite Nat.iter_succ, IH. cbn.
    eapply ValueTupleSetFacts.incr_row, Hl. }
  rewrite Hj in Hit. res_inv. split; [now apply ValueTupleSetFacts.row_iterator_end|].
  intros Hlt. destruct (lookup_lt_is_Some_2 rows k Hlt) as [row Hrow]. exists row. split; [done|].
  intros i Hi. destruct (ValueTupleSetFacts.row_lookup _ _ k i Hr Hlt Hi) as (r & x & Hrk & _ & Hx).
  assert (r = row) as -> by congruence. exists x. split; [done|].
  rewrite (ValueTupleSetFacts.column_row _ _ _ _ _ _ Hl Hr Hi Hlt), Hrow. cbn. now rewrite Hx.
Qed.

Lemma iteration_visits_rows_witness :
  let rows := [[Int 1; Str "a"]; [Int 2; Str "b"]] in
  exists x, [Int 2; Str "b"] !! 1%nat = Some x /\
    ValueTupleSet.column [ValueTupleSet.of_rows ["id"; "name"]%string rows]
      (ValueTupleSet.mkIterator 2 (ValueTupleSet.Ref 0)) 2 = Ok x.
Proof.
  intros rows.
  destruct (iteration_visits_rows [ValueTupleSet.of_rows ["id"; "name"]%string rows] 0
              ["id"; "name"]%string rows 1 (ValueTupleSet.mkIterator 2 (ValueTupleSet.Ref 0)))
    as [_ Hv]; [reflexivity | repeat constructor | discriminate | cbn; lia | reflexivity |].
  destruct (Hv ltac:(cbn; lia)) as (row & Hrow & Hcol). injection Hrow as <-.
  apply (Hcol 2%nat). cbn. lia.
Defined.

(** Passing the values [ps] to a subroutine with the parameter names [names]
    succeeds exactly if their numbers agree, and then yields the table with the one
    row [ps]; otherwise the error tells whether there were too many or too few. *)
Theorem subroutine_parameters (f : SubroutineFrame.t) (names : list string) (ps : list Variant) :
  (f' ← SubroutineFrame.push_all (SubroutineFrame.init f names) ps;
   SubroutineFrame.getParameters f') =
    match Nat.compare (length ps) (length names) with
    | Eq => Ok (ValueTupleSet.of_rows names [ps])
    | Gt => Throw (RuntimeError "too many parameters passed to subroutine")
    | Lt => Throw (RuntimeError "too few parameters passed to subroutine")
    end.
Proof.
  destruct (Nat.compare_spec (length ps) (length names)) as [Heq|Hlt|Hgt].
  - rewrite SubroutineFrameFacts.push_all_Ok by (cbn; lia). cbn.
    unfold SubroutineFrame.getParameters. cbn.
    destruct (Nat.ltb_spec (length ps) (length names)); [lia|].
    now apply (ValueTupleSetFacts.push_of_rows names [] ps).
  - rewrite SubroutineFrameFacts.push_all_Ok by (cbn; lia). cbn.
    unfold SubroutineFrame.getParameters. cbn.
    destruct (Nat.ltb_spec (length ps) (length names)); [done|lia].
  - now rewrite SubroutineFrameFacts.push_all_too_many by (cbn; lia).
Qed.
