(* ===== verification/ExecStatemachine.v ===== *)
(** * Interface of the database transaction execution state machine

    Models include/database/transactionExecStatemachine.hpp: the operations a
    database module offers to the virtual machine, as a type class over the state
    of the implementation, and the contract a client relies on, as a second class
    of laws.  The code documents the operations only; the laws state the
    documented meaning of the operations of a successful command. *)
From S2P Require Import Prelude Variant.

(** The virtual methods.  A [const char*] result is [None] for a null pointer. *)
Class TransactionExecStatemachine (D : Type) := {
  stm_databaseID : D -> string;
  stm_begin : M D bool;
  stm_commit : M D bool;
  stm_rollback : M D bool;
  stm_start : string -> M D bool;
  stm_bind : nat -> Variant -> M D bool;
  stm_execute : M D bool;
  stm_nofColumns : M D nat;
  stm_columnName : nat -> M D (option string);
  stm_get : nat -> M D Variant;
  stm_next : M D bool;
  stm_hasResult : M D bool;
  stm_getLastError : M D (option DatabaseError)
}.

(** What the operations mean for a command that succeeds: [start] opens a
    statement, [bind] binds the next parameter, [execute] produces a result table,
    and the cursor operations walk through the rows of the table.
    [Prepared d stm ps] says that the statement [stm] is open with the parameters
    [ps] bound; [ResultAt d colnames rows] that a command was executed, with the
    rows [rows] not yet passed by the cursor, the current row first. *)
Class TransactionExecLaws (D : Type) `{TransactionExecStatemachine D} := {
  Prepared : D -> string -> list Variant -> Prop;
  ResultAt : D -> list string -> list (list Variant) -> Prop;
  law_start d d' stm :
    stm_start stm d = (d', Ok true) -> Prepared d' stm [];
  law_bind d d' stm ps v :
    Prepared d stm ps -> stm_bind (S (length ps)) v d = (d', Ok true) ->
    Prepared d' stm (ps ++ [v]);
  law_execute d d' stm ps :
    Prepared d stm ps -> stm_execute d = (d', Ok true) ->
    exists colnames rows, ResultAt d' colnames rows;
  law_rows d colnames rows :
    ResultAt d colnames rows -> Forall (fun r => length r = length colnames) rows;
  law_nofColumns d colnames rows :
    ResultAt d colnames rows -> stm_nofColumns d = (d, Ok (length colnames));
  law_columnName d colnames rows i c :
    ResultAt d colnames rows -> colnames !! i = Some c ->
    stm_columnName (S i) d = (d, Ok (Some c));
  law_hasResult d colnames rows :
    ResultAt d colnames rows ->
    stm_hasResult d = (d, Ok (negb (bool_decide (rows = []))));
  law_get d colnames row rows i v :
    ResultAt d colnames (row :: rows) -> row !! i = Some v ->
    stm_get (S i) d = (d, Ok v);
  law_next d colnames row rows :
    ResultAt d colnames (row :: rows) -> exists d',
    stm_next d = (d', Ok (negb (bool_decide (rows = [])))) /\ ResultAt d' colnames rows
}.
