(* ===== verification/TableDb.v ===== *)
(** * A model database

    A concrete implementation of the interface of ExecStatemachine.v: a database
    that answers a statement with the parameters bound to it by a table, given by a
    function.  It shows that the contract [TransactionExecLaws] can be met, and the
    concrete instances of the theorems about the virtual machine run on it. *)
From S2P Require Import Prelude Variant ExecStatemachine.

(** The calls of the transaction control are recorded in [db_log]. *)
Record TableDb := mkTableDb {
  db_query : string -> list Variant -> option (list string * list (list Variant));
  db_log : list string;
  db_stm : option (string * list Variant);
  db_result : option (list string * list (list Variant))
}.

Definition db_init (query : string -> list Variant -> option (list string * list (list Variant)))
  : TableDb := mkTableDb query [] None None.

Definition db_record (what : string) : M TableDb bool := fun d =>
  (mkTableDb (db_query d) (db_log d ++ [what]) (db_stm d) (db_result d), Ok true).

Definition db_start (stm : string) : M TableDb bool := fun d =>
  (mkTableDb (db_query d) (db_log d) (Some (stm, [])) None, Ok true).

Definition db_bindval (idx : nat) (v : Variant) : M TableDb bool := fun d =>
  match db_stm d with
  | Some (stm, ps) =>
      if (idx =? S (length ps))%nat
      then (mkTableDb (db_query d) (db_log d) (Some (stm, ps ++ [v])) None, Ok true)
      else (d, Ok false)
  | None => (d, Ok false)
  end.

(** A table with a row of the wrong length is no answer. *)
Definition table_ok (t : list string * list (list Variant)) : bool :=
  forallb (fun r => (length r =? length (fst t))%nat) (snd t).

Definition db_exec : M TableDb bool := fun d =>
  match db_stm d with
  | Some (stm, ps) =>
      match db_query d stm ps with
      | Some t => if table_ok t
                  then (mkTableDb (db_query d) (db_log d) None (Some t), Ok true)
                  else (d, Ok false)
      | None => (d, Ok false)
      end
  | None => (d, Ok false)
  end.

Definition db_columns : M TableDb nat := fun d =>
  (d, Ok (match db_result d with Some (cs, _) => length cs | None => 0%nat end)).

Definition db_columnName (i : nat) : M TableDb (option string) := fun d =>
  (d, Ok (match db_result d, i with
          | Some (cs, _), S i' => cs !! i'
          | _, _ => None
          end)).

Definition db_get (i : nat) : M TableDb Variant := fun d =>
  (d, Ok (match db_result d, i with
          | Some (_, row :: _), S i' => default Null (row !! i')
          | _, _ => Null
          end)).

Definition db_next : M TableDb bool := fun d =>
  match db_result d with
  | Some (cs, _ :: rows) =>
      (mkTableDb (db_query d) (db_log d) (db_stm d) (Some (cs, rows)),
       Ok (negb (bool_decide (rows = []))))
  | _ => (d, Ok false)
  end.

Definition db_hasResult : M TableDb bool := fun d =>
  (d, Ok (match db_result d with Some (_, _ :: _) => true | _ => false end)).

Definition db_getLastError : M TableDb (option DatabaseError) := fun d =>
  (d, Ok (Some (DatabaseError_make "SYNTAX" 1 "no such statement"))).

#[export] Instance TableDb_statemachine : TransactionExecStatemachine TableDb := {
  stm_databaseID := fun _ => "tabledb"%string;
  stm_begin := db_record "begin";
  stm_commit := db_record "commit";
  stm_rollback := db_record "rollback";
  stm_start := db_start;
  stm_bind := db_bindval;
  stm_execute := db_exec;
  stm_nofColumns := db_columns;
  stm_columnName := db_columnName;
  stm_get := db_get;
  stm_next := db_next;
  stm_hasResult := db_hasResult;
  stm_getLastError := db_getLastError
}.

(** ** The contract *)

Definition db_prepared (d : TableDb) (stm : string) (ps : list Variant) : Prop :=
  db_stm d = Some (stm, ps).

Definition db_resultAt (d : TableDb) (cs : list string) (rows : list (list Variant)) : Prop :=
  db_result d = Some (cs, rows) /\ Forall (fun r => length r = length cs) rows.

Lemma table_ok_Forall cs rows :
  table_ok (cs, rows) = true -> Forall (fun r => length r = length cs) rows.
Proof.
  unfold table_ok. cbn. induction rows as [|r rows IH]; cbn; [constructor|].
  intros [Hr Hrs]%andb_prop. constructor; [by apply Nat.eqb_eq|auto].
Qed.

#[export] Instance TableDb_laws : TransactionExecLaws TableDb.
Proof.
  refine {| Prepared := db_prepared; ResultAt := db_resultAt |}; cbn.
  - intros d d' stm. unfold db_start. by intros [= <-].
  - intros d d' stm ps v. unfold db_prepared, db_bindval. intros ->.
    rewrite Nat.eqb_refl. by intros [= <-].
  - intros d d' stm ps. unfold db_prepared, db_exec. intros ->.
    destruct (db_query d stm ps) as [[cs rows]|]; [|done].
    destruct (table_ok (cs, rows)) eqn:E; [|done]. intros [= <-].
    exists cs, rows. split; [done|by apply table_ok_Forall].
  - by intros d cs rows [].
  - intros d cs rows [Hr _]. unfold db_columns. by rewrite Hr.
  - intros d cs rows i c [Hr _] Hc. unfold db_columnName. by rewrite Hr, Hc.
  - intros d cs rows [Hr _]. unfold db_hasResult. rewrite Hr. by destruct rows.
  - intros d cs row rows i v [Hr _] Hv. unfold db_get. by rewrite Hr, Hv.
  - intros d cs row rows [Hr Hf]. eexists. unfold db_next. rewrite Hr. split; [done|].
    split; [done|]. by inversion Hf.
Defined.
