(* ===== verification/ProgramImage.v ===== *)
(** * Program code and program image of the transaction virtual machine

    Models include/database/vm/programCode.hpp (the array of instruction words)
    and the data of include/database/vm/programImage.hpp. *)
From S2P Require Import Prelude InstructionSet Variant ValueTupleSet.

Module ProgramCode.

Definition t := list Z.

Definition size (c : t) : Z := u32 (Z.of_nat (length c)).

(** [add] appends the instruction and then checks the size. *)
Definition add (c : t) (instr : Z) : res t :=
  let c := c ++ [instr] in
  if Max_ArgumentIndex <=? Z.of_nat (length c)
  then Throw (RuntimeError "program code size out of range")
  else Ok c.

(** [operator[]]: read, and assignment through the returned reference. *)
Definition at_ (c : t) (adr : Z) : res Z :=
  match c !! Z.to_nat adr with
  | Some i => Ok i
  | None => Throw (RuntimeError "address out of bounds")
  end.

Definition assign (c : t) (adr : Z) (instr : Z) : res t :=
  if (Z.of_nat (length c) <=? adr)
  then Throw (RuntimeError "address out of bounds")
  else Ok (<[Z.to_nat adr := instr]> c).

(** The function call operators that append an instruction. *)
Definition app_cond (c : t) (cond : CondCode) (opcode : OpCode) (arg : Z) : res t :=
  i ← instruction cond opcode arg; add c i.

Definition app (c : t) (opcode : OpCode) (arg : Z) : res t :=
  app_cond c Co_ALWAYS opcode arg.

Definition append (c prg : t) : t := c ++ prg.

(** Reading behind the end of the code yields the instruction [EXIT]. *)
Definition get (c : t) (ip : Z) : res Z :=
  if Z.of_nat (length c) <=? ip then instruction Co_ALWAYS Op_EXIT 0
  else match c !! Z.to_nat ip with
       | Some i => Ok i
       | None => Throw (OutOfRange "vector::at")
       end.

End ProgramCode.

(** A reference to a tuple set: a location of the store or the null pointer. *)
Definition ValueTupleSetR := option nat.

Record ErrorHint := mkErrorHint {
  hint_errorclass : string;
  hint_message : string
}.

Record ProgramImage := mkProgramImage {
  code : ProgramCode.t;
  constants : list Variant;
  colnames : list string;
  tagnames : list string;
  resultnames : list string;
  statements : list string;
  errorhints : list (list ErrorHint);
  signatures : list (list string);
  tuplesets : list ValueTupleSetR
}.

Definition ProgramImage_empty : ProgramImage := mkProgramImage [] [] [] [] [] [] [] [] [].

Definition set_code (p : ProgramImage) (c : ProgramCode.t) : ProgramImage :=
  mkProgramImage c (constants p) (colnames p) (tagnames p) (resultnames p)
    (statements p) (errorhints p) (signatures p) (tuplesets p).

Definition push_constant (p : ProgramImage) (v : Variant) : ProgramImage :=
  mkProgramImage (code p) (constants p ++ [v]) (colnames p) (tagnames p) (resultnames p)
    (statements p) (errorhints p) (signatures p) (tuplesets p).

Definition push_statement (p : ProgramImage) (s : string) : ProgramImage :=
  mkProgramImage (code p) (constants p) (colnames p) (tagnames p) (resultnames p)
    (statements p ++ [s]) (errorhints p) (signatures p) (tuplesets p).

Definition push_tagname (p : ProgramImage) (s : string) : ProgramImage :=
  mkProgramImage (code p) (constants p) (colnames p) (tagnames p ++ [s]) (resultnames p)
    (statements p) (errorhints p) (signatures p) (tuplesets p).

(** ** Lemmas *)

Lemma get_lookup c ip i :
  0 <= ip -> c !! Z.to_nat ip = Some i -> ProgramCode.get c ip = Ok i.
Proof.
  intros Hip H. unfold ProgramCode.get. apply lookup_lt_Some in H as Hlt.
  destruct (Z.leb_spec (Z.of_nat (length c)) ip); [lia|]. now rewrite H.
Qed.

(** Reading past the end of the code aborts the program. *)
Lemma get_past_end c ip :
  Z.of_nat (length c) <= ip -> ProgramCode.get c ip = instruction Co_ALWAYS Op_EXIT 0.
Proof.
  intros H. unfold ProgramCode.get. destruct (Z.leb_spec (Z.of_nat (length c)) ip); [done|lia].
Qed.

Lemma get_Ok c ip : 0 <= ip -> exists i, ProgramCode.get c ip = Ok i.
Proof.
  intros Hip. unfold ProgramCode.get. destruct (Z.leb_spec (Z.of_nat (length c)) ip).
  - eexists. reflexivity.
  - destruct (c !! Z.to_nat ip) eqn:E; [eauto|].
    apply lookup_ge_None in E. lia.
Qed.

Lemma get_cases c ip :
  (exists i, ProgramCode.get c ip = Ok i) \/ exists m, ProgramCode.get c ip = Throw (OutOfRange m).
Proof.
  unfold ProgramCode.get. destruct (Z.leb_spec (Z.of_nat (length c)) ip).
  - left. eexists. reflexivity.
  - destruct (c !! Z.to_nat ip); eauto.
Qed.

Lemma app_cond_Ok c cond opcode arg :
  0 <= arg <= Max_ArgumentIndex -> Z.of_nat (length c) + 1 < Max_ArgumentIndex ->
  exists i, instruction cond opcode arg = Ok i /\
    ProgramCode.app_cond c cond opcode arg = Ok (c ++ [i]).
Proof.
  intros Ha Hl. destruct (instruction_Ok cond opcode arg Ha) as [i Hi].
  exists i. split; [done|]. unfold ProgramCode.app_cond. rewrite Hi. cbn.
  unfold ProgramCode.add. rewrite length_app. cbn [length].
  destruct (Z.leb_spec Max_ArgumentIndex (Z.of_nat (length c + 1))); [lia|reflexivity].
Qed.
