(* ===== verification/ProgramInstance.v ===== *)
(** * The transaction virtual machine

    Models include/database/vm/programInstance.hpp and
    src/libwolframe_database/vm/programInstance.cpp: the state of a running
    program and the interpreter loop.  One iteration of the loop of
    [ProgramInstance::execute] is [step]; the dispatch of its switch is divided
    into one definition per group of instructions.

    References to tuple sets are locations of the store [m_heap], because
    [initResult] appends in place to a set that may be shared with kept results
    and with other stack elements.  Stack elements are kept top first. *)
From S2P Require Import Prelude InstructionSet Variant ValueTupleSet ExecStatemachine ProgramImage.

(** ** State *)

Record ResultFlags := mkResultFlags {
  is_first : bool;
  unique : bool;
  nonempty : bool
}.

Definition ResultFlags_make : ResultFlags := mkResultFlags true false false.
Definition ResultFlags_init (unique_ nonempty_ : bool) : ResultFlags :=
  mkResultFlags true unique_ nonempty_.

(** [touched()] returns whether a result was added before and records this one. *)
Definition touched (f : ResultFlags) : bool * ResultFlags :=
  (negb (is_first f), mkResultFlags false (unique f) (nonempty f)).

Record StackElement := mkStackElement {
  m_return_ip : Z;
  m_bindidx : nat;
  m_hintidx : Z;
  m_parameter : ValueTupleSetR;
  m_lastResult : ValueTupleSetR;
  m_resultFlags : ResultFlags;
  m_resultMap : gmap Z ValueTupleSetR;
  m_selectedSet : ValueTupleSetR;
  m_valueSet : ValueTupleSetR;
  m_valueIter : ValueTupleSet.const_iterator;
  m_valueEnd : ValueTupleSet.const_iterator
}.

Definition StackElement_make (return_ip : Z) (parameter : ValueTupleSetR) : StackElement :=
  mkStackElement return_ip 0 0 parameter None ResultFlags_make ∅ None None
    ValueTupleSet.iterator_default ValueTupleSet.iterator_default.

Definition set_bindidx (e : StackElement) (i : nat) : StackElement :=
  mkStackElement (m_return_ip e) i (m_hintidx e) (m_parameter e) (m_lastResult e)
    (m_resultFlags e) (m_resultMap e) (m_selectedSet e) (m_valueSet e) (m_valueIter e)
    (m_valueEnd e).
Definition set_hintidx (e : StackElement) (i : Z) : StackElement :=
  mkStackElement (m_return_ip e) (m_bindidx e) i (m_parameter e) (m_lastResult e)
    (m_resultFlags e) (m_resultMap e) (m_selectedSet e) (m_valueSet e) (m_valueIter e)
    (m_valueEnd e).
Definition set_lastResult (e : StackElement) (r : ValueTupleSetR) : StackElement :=
  mkStackElement (m_return_ip e) (m_bindidx e) (m_hintidx e) (m_parameter e) r
    (m_resultFlags e) (m_resultMap e) (m_selectedSet e) (m_valueSet e) (m_valueIter e)
    (m_valueEnd e).
Definition set_resultFlags (e : StackElement) (f : ResultFlags) : StackElement :=
  mkStackElement (m_return_ip e) (m_bindidx e) (m_hintidx e) (m_parameter e) (m_lastResult e)
    f (m_resultMap e) (m_selectedSet e) (m_valueSet e) (m_valueIter e) (m_valueEnd e).
Definition set_resultMap (e : StackElement) (m : gmap Z ValueTupleSetR) : StackElement :=
  mkStackElement (m_return_ip e) (m_bindidx e) (m_hintidx e) (m_parameter e) (m_lastResult e)
    (m_resultFlags e) m (m_selectedSet e) (m_valueSet e) (m_valueIter e) (m_valueEnd e).
Definition set_selectedSet (e : StackElement) (r : ValueTupleSetR) : StackElement :=
  mkStackElement (m_return_ip e) (m_bindidx e) (m_hintidx e) (m_parameter e) (m_lastResult e)
    (m_resultFlags e) (m_resultMap e) r (m_valueSet e) (m_valueIter e) (m_valueEnd e).
Definition set_iterator (e : StackElement) (vs : ValueTupleSetR)
    (it it_end : ValueTupleSet.const_iterator) : StackElement :=
  mkStackElement (m_return_ip e) (m_bindidx e) (m_hintidx e) (m_parameter e) (m_lastResult e)
    (m_resultFlags e) (m_resultMap e) (m_selectedSet e) vs it it_end.
Definition set_valueIter (e : StackElement) (it : ValueTupleSet.const_iterator) : StackElement :=
  set_iterator e (m_valueSet e) it (m_valueEnd e).

(** The machine over a database state [D].  [m_db_stm] is [None] for the null
    pointer; the trace callback gets the instruction pointer and may throw. *)
Record ProgramInstance (D : Type) := mkProgramInstance {
  m_program : ProgramImage;
  m_heap : ValueTupleSet.store;
  m_db_stm : option D;
  m_ip : Z;
  m_subroutine_frame : SubroutineFrame.t;
  m_cond : bool;
  m_stack : list StackElement;
  m_output : Output.t;
  m_lastError : DatabaseError;
  m_logTrace : option (Z -> res unit)
}.
Arguments mkProgramInstance {D}.
Arguments m_program {D}. Arguments m_heap {D}. Arguments m_db_stm {D}.
Arguments m_ip {D}. Arguments m_subroutine_frame {D}. Arguments m_cond {D}.
Arguments m_stack {D}. Arguments m_output {D}. Arguments m_lastError {D}.
Arguments m_logTrace {D}.

(** The constructor: one stack element for the top level. *)
Definition ProgramInstance_make {D} (program : ProgramImage) (heap : ValueTupleSet.store)
    (db_stm : option D) (logTrace : option (Z -> res unit)) : ProgramInstance D :=
  mkProgramInstance program heap db_stm 0 (SubroutineFrame.mk [] []) false
    [StackElement_make 0 None] Output.make DatabaseError_default logTrace.

Section Machine.
Context {D : Type} `{TransactionExecStatemachine D}.
Abbreviation vm := (ProgramInstance D).
Abbreviation MV := (M (ProgramInstance D)).

Definition set_program (s : vm) (x : ProgramImage) : vm :=
  mkProgramInstance x (m_heap s) (m_db_stm s) (m_ip s) (m_subroutine_frame s) (m_cond s)
    (m_stack s) (m_output s) (m_lastError s) (m_logTrace s).
Definition set_heap (s : vm) (x : ValueTupleSet.store) : vm :=
  mkProgramInstance (m_program s) x (m_db_stm s) (m_ip s) (m_subroutine_frame s) (m_cond s)
    (m_stack s) (m_output s) (m_lastError s) (m_logTrace s).
Definition set_db_stm (s : vm) (x : option D) : vm :=
  mkProgramInstance (m_program s) (m_heap s) x (m_ip s) (m_subroutine_frame s) (m_cond s)
    (m_stack s) (m_output s) (m_lastError s) (m_logTrace s).
Definition set_ip (s : vm) (x : Z) : vm :=
  mkProgramInstance (m_program s) (m_heap s) (m_db_stm s) x (m_subroutine_frame s) (m_cond s)
    (m_stack s) (m_output s) (m_lastError s) (m_logTrace s).
Definition set_frame (s : vm) (x : SubroutineFrame.t) : vm :=
  mkProgramInstance (m_program s) (m_heap s) (m_db_stm s) (m_ip s) x (m_cond s)
    (m_stack s) (m_output s) (m_lastError s) (m_logTrace s).
Definition set_cond (s : vm) (x : bool) : vm :=
  mkProgramInstance (m_program s) (m_heap s) (m_db_stm s) (m_ip s) (m_subroutine_frame s) x
    (m_stack s) (m_output s) (m_lastError s) (m_logTrace s).
Definition set_stack (s : vm) (x : list StackElement) : vm :=
  mkProgramInstance (m_program s) (m_heap s) (m_db_stm s) (m_ip s) (m_subroutine_frame s)
    (m_cond s) x (m_output s) (m_lastError s) (m_logTrace s).
Definition set_output (s : vm) (x : Output.t) : vm :=
  mkProgramInstance (m_program s) (m_heap s) (m_db_stm s) (m_ip s) (m_subroutine_frame s)
    (m_cond s) (m_stack s) x (m_lastError s) (m_logTrace s).
Definition set_lastError (s : vm) (x : DatabaseError) : vm :=
  mkProgramInstance (m_program s) (m_heap s) (m_db_stm s) (m_ip s) (m_subroutine_frame s)
    (m_cond s) (m_stack s) (m_output s) x (m_logTrace s).

(** ** Access to the state *)

(** [m_stack.back()]. *)
Definition top : MV StackElement := fun s =>
  match m_stack s with
  | e :: _ => (s, Ok e)
  | [] => (s, Throw (Undefined "back of an empty vector"))
  end.
Definition set_top (e : StackElement) : MV unit := fun s =>
  match m_stack s with
  | _ :: st => (set_stack s (e :: st), Ok tt)
  | [] => (s, Throw (Undefined "back of an empty vector"))
  end.

(** Call of a method of the database state machine. *)
Definition db_call {A} (m : M D A) : MV A := fun s =>
  match m_db_stm s with
  | Some d => let '(d', r) := m d in (set_db_stm s (Some d'), r)
  | None => (s, Throw (Undefined "null pointer"))
  end.

(** Dereference of a shared pointer to a tuple set. *)
Definition set_of (r : ValueTupleSetR) : MV (nat * ValueTupleSet.t) := fun s =>
  match r with
  | None => (s, Throw (Undefined "null pointer"))
  | Some l => (s, v ← ValueTupleSet.deref (m_heap s) (ValueTupleSet.Ref l); Ok (l, v))
  end.

(** [new ValueTupleSet]. *)
Definition alloc (v : ValueTupleSet.t) : MV nat := fun s =>
  (set_heap s (m_heap s ++ [v]), Ok (length (m_heap s))).

Definition output_add (e : Output.Element) : MV unit :=
  s ← gets id; o ← lift (Output.add (m_output s) e); modify (fun s => set_output s o).
Definition output_addValue (v : Variant) : MV unit :=
  output_add (Output.mkElement Output.Value v).

Definition inc_ip : MV unit := modify (fun s => set_ip s (u32 (m_ip s + 1))).

(** [std::vector::at] behind an explicit bounds check with its own message. *)
Definition checked_at {A} (l : list A) (idx : Z) (msg : string) : res A :=
  match l !! Z.to_nat idx with
  | Some x => Ok x
  | None => Throw (RuntimeError msg)
  end.

Definition keptResult (idx : Z) : MV ValueTupleSetR :=
  e ← top;
  match m_resultMap e !! idx with
  | Some r => mret r
  | None => throw (RuntimeError "referencing named result not defined")
  end.

Definition tupleSet (argidx : Z) : MV ValueTupleSetR :=
  s ← gets id;
  lift (checked_at (tuplesets (m_program s)) argidx "tuple set reference out of bounds").

Definition constArgument (argidx : Z) : MV Variant :=
  s ← gets id;
  lift (checked_at (constants (m_program s)) argidx "constant index out of bounds").

Definition statementArgument (argidx : Z) : MV string :=
  s ← gets id;
  lift (checked_at (statements (m_program s)) argidx "string index out of bounds").

Definition tagnameArgument (argidx : Z) : MV string :=
  s ← gets id;
  _ ← throw_if (Z.of_nat (length (tagnames (m_program s))) <? argidx)
        (RuntimeError "tag name index out of bounds");
  _ ← throw_if (argidx =? 0) (RuntimeError "tag name index referencing NULL");
  lift (checked_at (tagnames (m_program s)) (argidx - 1) "tag name index out of bounds").

Definition columnIndex (valueset : ValueTupleSetR) (argidx : Z) : MV Z :=
  match valueset with
  | None => throw (RuntimeError "illegal instruction: no value set selected for name access")
  | Some _ =>
      s ← gets id;
      _ ← throw_if (argidx =? 0) (RuntimeError "referencing column index NULL");
      _ ← throw_if (Z.of_nat (length (colnames (m_program s))) <? argidx)
            (RuntimeError "referencing column index out of bounds");
      name ← lift (checked_at (colnames (m_program s)) (argidx - 1)
                     "referencing column index out of bounds");
      '(_, v) ← set_of valueset;
      i ← lift (ValueTupleSet.columnIndex v name);
      mret (u32 (Z.of_nat i))
  end.

Definition selectedArgument (argidx : Z) : MV Variant :=
  e ← top;
  '(l, v) ← set_of (m_selectedSet e);
  if ValueTupleSet.empty v then mret Null
  else s ← gets id;
       lift (ValueTupleSet.column (m_heap s) (ValueTupleSet.begin l) (Z.to_nat argidx)).

Definition iteratorArgument (argidx : Z) : MV Variant :=
  e ← top;
  _ ← throw_if (ValueTupleSet.isequal (m_valueIter e) (m_valueEnd e))
        (RuntimeError "iterator element access out of bounds");
  s ← gets id;
  lift (ValueTupleSet.column (m_heap s) (m_valueIter e) (Z.to_nat argidx)).

Definition loopcntArgument : MV Variant :=
  e ← top;
  match m_valueSet e with
  | None => throw (RuntimeError "referencing loop count (Variable '#') outside a FOREACH context")
  | Some _ => mret (Variant_of_size (ValueTupleSet.index (m_valueIter e) + 1))
  end.

Definition initValueIteraror (valueset : ValueTupleSetR) : MV unit :=
  e ← top;
  match valueset with
  | None => throw (RuntimeError "opening iterator on undefined set")
  | Some _ =>
      '(l, v) ← set_of valueset;
      let it := ValueTupleSet.begin l in
      let it_end := ValueTupleSet.end_ l v in
      _ ← set_top (set_iterator e valueset it it_end);
      modify (fun s => set_cond s (negb (ValueTupleSet.isequal it it_end)))
  end.

(** Body of the loop over the columns in [printIteratorColumn]. *)
Definition printColumn (e : StackElement) (idx : nat) : MV unit :=
  '(_, v) ← set_of (m_valueSet e);
  name ← lift (ValueTupleSet.columnName v idx);
  _ ← output_add (Output.mkElement Output.Open (Str name));
  s ← gets id;
  x ← lift (ValueTupleSet.column (m_heap s) (m_valueIter e) idx);
  _ ← output_add (Output.mkElement Output.Value x);
  output_add (Output.element Output.Close).

Fixpoint for_each {S A} (l : list A) (f : A -> M S unit) : M S unit :=
  match l with
  | [] => mret tt
  | x :: l' => _ ← f x; for_each l' f
  end.

Definition printIteratorColumn : MV unit :=
  e ← top;
  let more := negb (ValueTupleSet.isequal (m_valueIter e) (m_valueEnd e)) in
  _ ← modify (fun s => set_cond s more);
  if more then
    '(_, v) ← set_of (m_valueSet e);
    for_each (seq 1 (ValueTupleSet.nofColumns v)) (printColumn e)
  else mret tt.

(** ** Results *)

Definition checkConstraints (resultset : ValueTupleSetR) : MV unit :=
  e ← top;
  _ ← (if unique (m_resultFlags e) then
         match resultset with
         | None => throw (RuntimeError "checking UNIQUE constraint on non existing result")
         | Some _ => '(_, v) ← set_of resultset; lift (ValueTupleSet.checkConstraintUnique v)
         end
       else mret tt);
  if nonempty (m_resultFlags e) then
    match resultset with
    | None => throw (RuntimeError "checking NONEMPTY constraint on non existing result")
    | Some _ => '(_, v) ← set_of resultset; lift (ValueTupleSet.checkConstraintNonEmpty v)
    end
  else mret tt.

(** In place [top.m_lastResult->append( *resultset)]; inserting the elements of a
    vector into itself is undefined. *)
Definition appendResult (dest : ValueTupleSetR) (resultset : ValueTupleSetR) : MV unit :=
  '(ld, vd) ← set_of dest;
  '(lr, vr) ← set_of resultset;
  _ ← throw_if (ld =? lr)%nat (Undefined "insertion of a vector into itself");
  v ← lift (ValueTupleSet.append vd vr);
  modify (fun s => set_heap s (<[ld := v]> (m_heap s))).

Definition initResult (resultset : ValueTupleSetR) : MV unit :=
  _ ← checkConstraints resultset;
  match resultset with
  | None => mret tt
  | Some _ =>
      e ← top;
      let '(tc, flags) := touched (m_resultFlags e) in
      let e := set_resultFlags e flags in
      _ ← set_top e;
      if tc then appendResult (m_lastResult e) resultset
      else set_top (set_lastResult e resultset)
  end.

Fixpoint fetchColumnNames (ii n : nat) : MV (list string) :=
  match n with
  | O => mret []
  | S n' => cn ← db_call (stm_columnName (ii + 1));
            rest ← fetchColumnNames (S ii) n';
            mret (default ""%string cn :: rest)
  end.

Fixpoint fetchRow (ii n : nat) : MV (list Variant) :=
  match n with
  | O => mret []
  | S n' => v ← db_call (stm_get (ii + 1)); rest ← fetchRow (S ii) n'; mret (v :: rest)
  end.

(** The loop [do ... while (m_db_stm->next())], bounded by the fuel. *)
Fixpoint fetchRows (fuel : nat) (nofColumns : nat) (rt : ValueTupleSet.t)
    : MV ValueTupleSet.t :=
  match fuel with
  | O => fun s => (s, OutOfFuel)
  | S fuel' =>
      col ← fetchRow 0 nofColumns;
      rt ← lift (ValueTupleSet.push rt col);
      more ← db_call stm_next;
      if (more : bool) then fetchRows fuel' nofColumns rt else mret rt
  end.

(** The set is filled before it is reachable from the state, so it is allocated
    when complete. *)
Definition fetchDatabaseResult (fuel : nat) (nofColumns : nat) : MV ValueTupleSetR :=
  colNames ← fetchColumnNames 0 nofColumns;
  has ← db_call stm_hasResult;
  rt ← (if (has : bool) then fetchRows fuel nofColumns (ValueTupleSet.make colNames)
        else mret (ValueTupleSet.make colNames));
  l ← alloc rt;
  mret (Some l).

Fixpoint find_hint (cls : string) (hints : list ErrorHint) : option string :=
  match hints with
  | [] => None
  | h :: hs => if bool_decide (cls = hint_errorclass h) then Some (hint_message h)
               else find_hint cls hs
  end.

Definition set_errorhint (err : DatabaseError) (hint : string) : DatabaseError :=
  mkDatabaseError (dbname err) (errorclass err) (errorcode err) (errormsg err)
    (errordetail err) hint (err_ip err).

Definition set_dbname_ip (err : DatabaseError) (db : string) (ip : Z) : DatabaseError :=
  mkDatabaseError db (errorclass err) (errorcode err) (errormsg err)
    (errordetail err) (errorhint err) ip.

Definition setDatabaseError : MV unit :=
  err ← db_call stm_getLastError;
  match err with
  | None => modify (fun s => set_lastError s (DatabaseError_make "UNKNOWN" 0 "unknown error"))
  | Some err =>
      e ← top;
      db ← db_call (fun d => (d, Ok (stm_databaseID d)));
      _ ← modify (fun s => set_lastError s (set_dbname_ip err db (m_ip s)));
      if m_hintidx e =? 0 then mret tt
      else
        s ← gets id;
        hints ← lift (checked_at (errorhints (m_program s)) (m_hintidx e - 1)
                        "referencing hint out of bounds");
        match find_hint (errorclass err) hints with
        | Some msg => modify (fun s => set_lastError s (set_errorhint (m_lastError s) msg))
        | None => mret tt
        end
  end.

(** ** The interpreter *)

(** Result of an iteration: [None] to continue, [Some b] when [execute] returns [b]. *)
Abbreviation next := (_ ← inc_ip; mret None).

(** [m_program.code[ m_ip] = InstructionSet::instruction( condCode( instr), op, argidx)]:
    the instruction that addresses a column by name is replaced in the local copy
    of the code by the one that addresses it by index. *)
Definition rewrite_instr (instr : Z) (op : OpCode) (argidx : Z) : MV unit :=
  s ← gets id;
  i ← lift (instruction_raw (condCode instr) (OpCode_val op) argidx);
  c ← lift (ProgramCode.assign (code (m_program s)) (m_ip s) i);
  modify (fun s => set_program s (set_code (m_program s) c)).

Definition exec_control (op : OpCode) (argidx : Z) : MV (option bool) :=
  match op with
  | Op_EXIT =>
      _ ← modify (fun s => set_lastError s (DatabaseError_make "VM" 0 "aborted program execution"));
      mret (Some false)
  | Op_RETURN =>
      e ← top;
      _ ← modify (fun s => set_ip s (m_return_ip e));
      let lastResult := m_lastResult e in
      _ ← modify (fun s => set_stack s (tl (m_stack s)));
      s ← gets id;
      match m_stack s with
      | [] => mret (Some true)
      | _ => _ ← initResult lastResult; mret None
      end
  | Op_GOTO =>
      s ← gets id;
      _ ← throw_if (ProgramCode.size (code (m_program s)) <? argidx)
            (RuntimeError "illegal goto instruction argument");
      _ ← modify (fun s => set_ip s argidx);
      mret None
  | _ => mret None
  end.

Definition unresolved_path : MV (option bool) :=
  throw (RuntimeError "illegal instruction in this state: addressing unresolved path expression").

Definition exec_print (instr : Z) (op : OpCode) (argidx : Z) : MV (option bool) :=
  match op with
  | Op_OUTPUT_CONST => v ← constArgument argidx; _ ← output_addValue v; next
  | Op_OUTPUT_PATH => unresolved_path
  | Op_OUTPUT_LOOPCNT => v ← loopcntArgument; _ ← output_addValue v; next
  | Op_OUTPUT_SEL_NAM =>
      e ← top;
      argidx ← columnIndex (m_selectedSet e) argidx;
      _ ← rewrite_instr instr Op_OUTPUT_SEL_IDX argidx;
      v ← selectedArgument argidx; _ ← output_addValue v; next
  | Op_OUTPUT_SEL_IDX => v ← selectedArgument argidx; _ ← output_addValue v; next
  | Op_OUTPUT_ITR_NAM =>
      e ← top;
      argidx ← columnIndex (m_valueSet e) argidx;
      _ ← rewrite_instr instr Op_OUTPUT_ITR_IDX argidx;
      v ← iteratorArgument argidx; _ ← output_addValue v; next
  | Op_OUTPUT_ITR_IDX => v ← iteratorArgument argidx; _ ← output_addValue v; next
  | Op_OUTPUT_ITR_COLUMN => _ ← printIteratorColumn; next
  | Op_OUTPUT_OPEN_ARRAY =>
      t ← tagnameArgument argidx;
      _ ← output_add (Output.mkElement Output.OpenArray (Str t)); next
  | Op_OUTPUT_OPEN_ELEM =>
      _ ← output_add (Output.mkElement Output.OpenArrayElement (Int 0)); next
  | Op_OUTPUT_OPEN =>
      t ← tagnameArgument argidx;
      _ ← output_add (Output.mkElement Output.Open (Str t)); next
  | Op_OUTPUT_CLOSE_ARRAY => _ ← output_add (Output.element Output.CloseArray); next
  | Op_OUTPUT_CLOSE_ELEM => _ ← output_add (Output.element Output.CloseArrayElement); next
  | Op_OUTPUT_CLOSE => _ ← output_add (Output.element Output.Close); next
  | Op_OUTPUT_ADD_SINK =>
      _ ← modify (fun s => set_output s (Output.addOutputSink (m_output s))); next
  | _ => mret None
  end.

(** The check [m_selectedSet->size() > 1] after a selection. *)
Definition check_unambiguous (r : ValueTupleSetR) : MV unit :=
  '(_, v) ← set_of r;
  n ← lift (ValueTupleSet.size v);
  throw_if (1 <? n)%nat (RuntimeError "ambiguous value reference").

Definition exec_assign (op : OpCode) (argidx : Z) : MV (option bool) :=
  match op with
  | Op_KEEP_RESULT =>
      e ← top;
      _ ← set_top (set_resultMap e (<[argidx := m_lastResult e]> (m_resultMap e))); next
  | Op_SELECT_PARAMETER =>
      e ← top;
      match m_parameter e with
      | None => throw (RuntimeError "selecting parameter but no parameters defined")
      | Some _ => _ ← set_top (set_selectedSet e (m_parameter e)); next
      end
  | Op_SELECT_LAST_RESULT =>
      e ← top;
      _ ← set_top (set_selectedSet e (m_lastResult e));
      match m_lastResult e with
      | None => throw (RuntimeError "selecting result set that is not defined")
      | Some _ => _ ← check_unambiguous (m_lastResult e); next
      end
  | Op_SELECT_KEPT_RESULT =>
      e ← top;
      r ← keptResult argidx;
      _ ← set_top (set_selectedSet e r);
      _ ← check_unambiguous r; next
  | _ => mret None
  end.

Definition exec_iterator (op : OpCode) (argidx : Z) : MV (option bool) :=
  match op with
  | Op_OPEN_ITER_LAST_RESULT =>
      e ← top;
      match m_lastResult e with
      | Some _ => _ ← initValueIteraror (m_lastResult e); next
      | None => l ← alloc ValueTupleSet.empty_set; _ ← initValueIteraror (Some l); next
      end
  | Op_OPEN_ITER_KEPT_RESULT => r ← keptResult argidx; _ ← initValueIteraror r; next
  | Op_OPEN_ITER_PATH => unresolved_path
  | Op_OPEN_ITER_TUPLESET => r ← tupleSet argidx; _ ← initValueIteraror r; next
  | Op_NEXT =>
      e ← top;
      _ ← (if ValueTupleSet.isequal (m_valueIter e) (m_valueEnd e)
           then modify (fun s => set_cond s false)
           else
             s ← gets id;
             it ← lift (ValueTupleSet.incr (m_heap s) (m_valueIter e));
             _ ← set_top (set_valueIter e it);
             modify (fun s => set_cond s (negb (ValueTupleSet.isequal it (m_valueEnd e)))));
      next
  | _ => mret None
  end.

Definition frame_push (v : Variant) : MV unit :=
  s ← gets id;
  f ← lift (SubroutineFrame.push (m_subroutine_frame s) v);
  modify (fun s => set_frame s f).

Definition exec_sub (instr : Z) (op : OpCode) (argidx : Z) : MV (option bool) :=
  match op with
  | Op_SUB_FRAME_OPEN =>
      s ← gets id;
      sig ← lift (checked_at (signatures (m_program s)) argidx
                    "suroutine signatiure reference out of bounds");
      _ ← modify (fun s => set_frame s (SubroutineFrame.init (m_subroutine_frame s) sig)); next
  | Op_SUB_ARG_CONST => v ← constArgument argidx; _ ← frame_push v; next
  | Op_SUB_ARG_PATH => unresolved_path
  | Op_SUB_ARG_LOOPCNT => v ← loopcntArgument; _ ← frame_push v; next
  | Op_SUB_ARG_SEL_NAM =>
      e ← top;
      argidx ← columnIndex (m_selectedSet e) argidx;
      _ ← rewrite_instr instr Op_SUB_ARG_SEL_IDX argidx;
      v ← selectedArgument argidx; _ ← frame_push v; next
  | Op_SUB_ARG_SEL_IDX => v ← selectedArgument argidx; _ ← frame_push v; next
  | Op_SUB_ARG_ITR_NAM =>
      e ← top;
      argidx ← columnIndex (m_valueSet e) argidx;
      _ ← rewrite_instr instr Op_SUB_ARG_ITR_IDX argidx;
      v ← iteratorArgument argidx; _ ← frame_push v; next
  | Op_SUB_ARG_ITR_IDX => v ← iteratorArgument argidx; _ ← frame_push v; next
  | Op_SUB_FRAME_CLOSE =>
      _ ← inc_ip;
      s ← gets id;
      params ← lift (SubroutineFrame.getParameters (m_subroutine_frame s));
      l ← alloc params;
      _ ← modify (fun s => set_stack s
            (StackElement_make (u32 (m_ip s + 1)) (Some l) :: m_stack s));
      mret None
  | _ => mret None
  end.

Definition exec_scope (op : OpCode) : MV (option bool) :=
  match op with
  | Op_SCOPE_OPEN =>
      _ ← inc_ip;
      e ← top;
      _ ← modify (fun s => set_stack s (e :: m_stack s));
      mret None
  | Op_SCOPE_CLOSE =>
      _ ← modify (fun s => set_stack s (tl (m_stack s)));
      s ← gets id;
      match m_stack s with
      | [] => throw (RuntimeError "illegal SCOPE_CLOSE operation: stack got empty")
      | _ => next
      end
  | _ => mret None
  end.

(** [if (!call) { setDatabaseError(); return false; } ++m_ip]. *)
Definition db_checked (call : M D bool) : MV (option bool) :=
  ok ← db_call call;
  if (ok : bool) then next else _ ← setDatabaseError; mret (Some false).

(** [m_db_stm->bind( ++top.m_bindidx, v)]. *)
Definition db_bind (v : Variant) : MV (option bool) :=
  e ← top;
  let e := set_bindidx e (S (m_bindidx e)) in
  _ ← set_top e;
  db_checked (stm_bind (m_bindidx e) v).

Definition exec_dbstm (fuel : nat) (instr : Z) (op : OpCode) (argidx : Z) : MV (option bool) :=
  match op with
  | Op_DBSTM_START =>
      e ← top;
      _ ← set_top (set_hintidx (set_bindidx e 0) 0);
      stm ← statementArgument argidx;
      db_checked (stm_start stm)
  | Op_DBSTM_BIND_CONST => v ← constArgument argidx; db_bind v
  | Op_DBSTM_BIND_PATH => unresolved_path
  | Op_DBSTM_BIND_LOOPCNT => v ← loopcntArgument; db_bind v
  | Op_DBSTM_BIND_SEL_NAM =>
      e ← top;
      argidx ← columnIndex (m_selectedSet e) argidx;
      _ ← rewrite_instr instr Op_DBSTM_BIND_SEL_IDX argidx;
      v ← selectedArgument argidx; db_bind v
  | Op_DBSTM_BIND_SEL_IDX => v ← selectedArgument argidx; db_bind v
  | Op_DBSTM_BIND_ITR_NAM =>
      e ← top;
      argidx ← columnIndex (m_valueSet e) argidx;
      _ ← rewrite_instr instr Op_DBSTM_BIND_ITR_IDX argidx;
      v ← iteratorArgument argidx; db_bind v
  | Op_DBSTM_BIND_ITR_IDX => v ← iteratorArgument argidx; db_bind v
  | Op_DBSTM_HINT => e ← top; _ ← set_top (set_hintidx e argidx); next
  | Op_DBSTM_EXEC =>
      ok ← db_call stm_execute;
      if (ok : bool) then
        nofColumns ← db_call stm_nofColumns;
        _ ← (match nofColumns with
             | O => mret tt
             | _ => r ← fetchDatabaseResult fuel nofColumns; initResult r
             end);
        e ← top;
        _ ← set_top (set_hintidx (set_bindidx e 0) 0);
        next
      else _ ← setDatabaseError; mret (Some false)
  | _ => mret None
  end.

Definition exec_result (op : OpCode) : MV (option bool) :=
  e ← top;
  let f := m_resultFlags e in
  match op with
  | Op_RESULT_SET_INIT => _ ← set_top (set_resultFlags e (ResultFlags_init false false)); next
  | Op_RESULT_CONSTRAINT_UNIQUE =>
      _ ← set_top (set_resultFlags e (mkResultFlags (is_first f) true (nonempty f))); next
  | Op_RESULT_CONSTRAINT_NONEMPTY =>
      _ ← set_top (set_resultFlags e (mkResultFlags (is_first f) (unique f) true)); next
  | _ => mret None
  end.

(** The switch over the operation code.  A word whose operation code is no
    enumerator matches no case. *)
Definition exec_op (fuel : nat) (instr : Z) (argidx : Z) : MV (option bool) :=
  match OpCode_of (opCode instr) with
  | None => mret None
  | Some op =>
      match op with
      | Op_EXIT | Op_RETURN | Op_GOTO => exec_control op argidx
      | Op_OUTPUT_CONST | Op_OUTPUT_PATH | Op_OUTPUT_LOOPCNT | Op_OUTPUT_SEL_NAM
      | Op_OUTPUT_SEL_IDX | Op_OUTPUT_ITR_NAM | Op_OUTPUT_ITR_IDX | Op_OUTPUT_ITR_COLUMN
      | Op_OUTPUT_OPEN_ARRAY | Op_OUTPUT_OPEN_ELEM | Op_OUTPUT_OPEN | Op_OUTPUT_CLOSE_ARRAY
      | Op_OUTPUT_CLOSE_ELEM | Op_OUTPUT_CLOSE | Op_OUTPUT_ADD_SINK => exec_print instr op argidx
      | Op_KEEP_RESULT | Op_SELECT_PARAMETER | Op_SELECT_LAST_RESULT
      | Op_SELECT_KEPT_RESULT => exec_assign op argidx
      | Op_OPEN_ITER_LAST_RESULT | Op_OPEN_ITER_KEPT_RESULT | Op_OPEN_ITER_PATH
      | Op_OPEN_ITER_TUPLESET | Op_NEXT => exec_iterator op argidx
      | Op_SUB_FRAME_OPEN | Op_SUB_ARG_CONST | Op_SUB_ARG_PATH | Op_SUB_ARG_LOOPCNT
      | Op_SUB_ARG_SEL_NAM | Op_SUB_ARG_SEL_IDX | Op_SUB_ARG_ITR_NAM | Op_SUB_ARG_ITR_IDX
      | Op_SUB_FRAME_CLOSE => exec_sub instr op argidx
      | Op_SCOPE_OPEN | Op_SCOPE_CLOSE => exec_scope op
      | Op_DBSTM_START | Op_DBSTM_BIND_CONST | Op_DBSTM_BIND_PATH | Op_DBSTM_BIND_LOOPCNT
      | Op_DBSTM_BIND_SEL_NAM | Op_DBSTM_BIND_SEL_IDX | Op_DBSTM_BIND_ITR_NAM
      | Op_DBSTM_BIND_ITR_IDX | Op_DBSTM_HINT | Op_DBSTM_EXEC => exec_dbstm fuel instr op argidx
      | Op_RESULT_SET_INIT | Op_RESULT_CONSTRAINT_UNIQUE
      | Op_RESULT_CONSTRAINT_NONEMPTY => exec_result op
      | Op_NOP => next
      end
  end.

(** Whether the instruction is skipped because of its condition code. *)
Definition skipped (instr : Z) (cond : bool) : bool :=
  if condCode instr =? CondCode_val Co_IF_COND then negb cond
  else if condCode instr =? CondCode_val Co_NOT_IF_COND then cond
  else false.

(** One iteration of the loop of [execute]. *)
Definition step (fuel : nat) : MV (option bool) :=
  _ ← top;
  s ← gets id;
  _ ← (match m_logTrace s with
       | Some callback => lift (callback (m_ip s))
       | None => mret tt
       end);
  instr ← lift (ProgramCode.get (code (m_program s)) (m_ip s));
  if skipped instr (m_cond s) then next
  else exec_op fuel instr (argumentIndex instr).

Fixpoint loop (fuel : nat) : MV bool :=
  match fuel with
  | O => fun s => (s, OutOfFuel)
  | S fuel' =>
      r ← step fuel';
      match r with
      | Some b => mret b
      | None => loop fuel'
      end
  end.

Definition execute (fuel : nat) : MV bool :=
  s ← gets id;
  match m_db_stm s, m_stack s with
  | None, _ => mret false
  | _, [] => mret false
  | _, _ => loop fuel
  end.

End Machine.
