(* ===== verification/VmInvariant.v ===== *)
(** * Memory safety and aliasing of the transaction virtual machine

    The invariant of the machine of ProgramInstance.v and its preservation by every
    instruction.  The invariant says that every reference the machine holds is valid
    and that the sets the machine appends to are results it created itself, so the
    sets a program got as input are never written; [hazard] are the states whose
    next instruction does what the language leaves undefined. *)
From S2P Require Import Prelude InstructionSet Variant ValueTupleSet ExecStatemachine ProgramImage ProgramInstance TableDb.

(** ** Growth of the store *)

(** [heap_ext n0 h h']: sets only grow, column names never change, and the first
    [n0] sets do not change at all. *)
Definition heap_ext (n0 : nat) (h h' : ValueTupleSet.store) : Prop :=
  forall l v, h !! l = Some v -> exists v', h' !! l = Some v' /\
    ValueTupleSet.m_colnames v' = ValueTupleSet.m_colnames v /\
    ValueTupleSet.m_ar v `prefix_of` ValueTupleSet.m_ar v' /\
    ((l < n0)%nat -> v' = v).

(** ** Valid references *)

Definition set_ok (h : ValueTupleSet.store) (r : ValueTupleSetR) : Prop :=
  match r with None => True | Some l => is_Some (h !! l) end.

(** A result: a set that the machine created and that has columns. *)
Definition result_ok (n0 : nat) (h : ValueTupleSet.store) (r : ValueTupleSetR) : Prop :=
  match r with
  | None => True
  | Some l => (n0 <= l)%nat /\
      exists v, h !! l = Some v /\ ValueTupleSet.m_colnames v <> []
  end.

Definition iter_ok (h : ValueTupleSet.store) (it : ValueTupleSet.const_iterator) : Prop :=
  match ValueTupleSet.m_ref it with
  | ValueTupleSet.RefStatic => True
  | ValueTupleSet.Ref l => is_Some (h !! l)
  end.

Record elem_ok (n0 : nat) (h : ValueTupleSet.store) (e : StackElement) : Prop := {
  eo_parameter : set_ok h (m_parameter e);
  eo_lastResult : result_ok n0 h (m_lastResult e);
  eo_resultMap : map_Forall (fun _ r => result_ok n0 h r) (m_resultMap e);
  eo_selectedSet : set_ok h (m_selectedSet e);
  eo_valueSet : set_ok h (m_valueSet e);
  eo_valueIter : iter_ok h (m_valueIter e);
  eo_iter_set : m_valueSet e = None ->
    ValueTupleSet.isequal (m_valueIter e) (m_valueEnd e) = true;
  eo_touched : is_first (m_resultFlags e) = false -> m_lastResult e <> None
}.

Record vm_ok {D} (n0 : nat) (s : ProgramInstance D) : Prop := {
  vo_heap : (n0 <= length (m_heap s))%nat;
  vo_wf : Forall ValueTupleSet.wf (m_heap s);
  vo_db : m_db_stm s <> None;
  vo_nonempty : m_stack s <> [];
  vo_stack : Forall (elem_ok n0 (m_heap s)) (m_stack s);
  vo_output : m_output s <> [];
  vo_tuplesets : Forall (set_ok (m_heap s)) (tuplesets (m_program s));
  vo_trace : forall f ip w, m_logTrace s = Some f -> f ip <> Throw (Undefined w)
}.

(** ** Undefined behaviour *)

(** The next instruction (1) prints or passes a column by index while no set is
    selected, (2) selects a kept result that is the null pointer, or (3) returns from
    a subroutine a set that is appended to itself. *)
Definition hazard {D} (s : ProgramInstance D) : bool :=
  match m_stack s, ProgramCode.get (code (m_program s)) (m_ip s) with
  | e :: st, Ok instr =>
      negb (skipped instr (m_cond s)) &&
      match OpCode_of (opCode instr) with
      | Some Op_OUTPUT_SEL_IDX | Some Op_SUB_ARG_SEL_IDX | Some Op_DBSTM_BIND_SEL_IDX =>
          bool_decide (m_selectedSet e = None)
      | Some Op_SELECT_KEPT_RESULT =>
          bool_decide (m_resultMap e !! argumentIndex instr = Some None)
      | Some Op_RETURN =>
          match st with
          | [] => false
          | e' :: _ => negb (is_first (m_resultFlags e')) &&
                       bool_decide (m_lastResult e = m_lastResult e')
          end
      | _ => false
      end
  | _, _ => false
  end.

(** No operation of the database state machine itself does undefined things. *)
Definition no_undefined {S A} (m : M S A) : Prop :=
  forall s w, snd (m s) <> Throw (Undefined w).

Record db_safe (D : Type) `{TransactionExecStatemachine D} : Prop := {
  ds_start stm : no_undefined (stm_start stm);
  ds_bind i v : no_undefined (stm_bind i v);
  ds_execute : no_undefined stm_execute;
  ds_nofColumns : no_undefined stm_nofColumns;
  ds_columnName i : no_undefined (stm_columnName i);
  ds_get i : no_undefined (stm_get i);
  ds_next : no_undefined stm_next;
  ds_hasResult : no_undefined stm_hasResult;
  ds_getLastError : no_undefined stm_getLastError
}.

(** The states the loop of [execute] passes through, at the head of an iteration. *)
Inductive reaches {D} `{TransactionExecStatemachine D} : ProgramInstance D -> ProgramInstance D -> Prop :=
| reaches_refl s : reaches s s
| reaches_step fuel s1 s2 s3 :
    step fuel s1 = (s2, Ok None) -> reaches s2 s3 -> reaches s1 s3.

(** ** The store only grows *)

Lemma heap_ext_refl n0 h : heap_ext n0 h h.
Proof. intros l v Hl. exists v. auto. Qed.

Lemma heap_ext_trans n0 h1 h2 h3 :
  heap_ext n0 h1 h2 -> heap_ext n0 h2 h3 -> heap_ext n0 h1 h3.
Proof.
  intros H12 H23 l v Hl. destruct (H12 _ _ Hl) as (v2 & Hl2 & Hc2 & Hp2 & He2).
  destruct (H23 _ _ Hl2) as (v3 & Hl3 & Hc3 & Hp3 & He3). exists v3. split_and!; auto.
  - congruence.
  - by etrans.
  - intros Hlt. rewrite He3, He2 by done. done.
Qed.

Lemma heap_ext_snoc n0 h v : heap_ext n0 h (h ++ [v]).
Proof. intros l w Hl. exists w. split_and!; auto. by apply lookup_app_l_Some. Qed.

Lemma heap_ext_append n0 h l v v' :
  (n0 <= l)%nat -> h !! l = Some v ->
  ValueTupleSet.m_colnames v' = ValueTupleSet.m_colnames v ->
  ValueTupleSet.m_ar v `prefix_of` ValueTupleSet.m_ar v' ->
  heap_ext n0 h (<[l := v']> h).
Proof.
  intros Hn Hl Hc Hp k w Hk. destruct (decide (k = l)) as [->|Hne].
  - exists v'. rewrite list_lookup_insert_eq by (by eapply lookup_lt_Some).
    assert (w = v) as -> by congruence. split_and!; auto. lia.
  - exists w. rewrite list_lookup_insert_ne by done. auto.
Qed.

Lemma heap_ext_is_Some n0 h h' l : heap_ext n0 h h' -> is_Some (h !! l) -> is_Some (h' !! l).
Proof. intros He [v Hv]. destruct (He _ _ Hv) as (v' & ? & _). eauto. Qed.

Lemma heap_ext_length n0 h h' : heap_ext n0 h h' -> (length h <= length h')%nat.
Proof.
  intros He. destruct h as [|v h] using rev_ind; [cbn; lia|].
  destruct (He (length h) v) as (v' & Hl & _).
  { rewrite lookup_app_r, Nat.sub_diag by done. done. }
  apply lookup_lt_Some in Hl. rewrite length_app. cbn. lia.
Qed.

Lemma heap_ext_take n0 h h' : heap_ext n0 h h' -> (n0 <= length h)%nat -> take n0 h' = take n0 h.
Proof.
  intros He Hn. apply list_eq. intros i. destruct (decide (i < n0)%nat).
  - rewrite !lookup_take_lt by done. destruct (lookup_lt_is_Some_2 h i) as [v Hv]; [lia|].
    destruct (He _ _ Hv) as (v' & Hv' & _ & _ & Heq). rewrite Hv, Hv'. f_equal. auto.
  - rewrite !lookup_take_ge by lia. done.
Qed.

Lemma set_ok_ext n0 h h' r : heap_ext n0 h h' -> set_ok h r -> set_ok h' r.
Proof. destruct r; cbn; [|done]. apply heap_ext_is_Some. Qed.

Lemma result_ok_ext n0 h h' r : heap_ext n0 h h' -> result_ok n0 h r -> result_ok n0 h' r.
Proof.
  destruct r as [l|]; cbn; [|done]. intros He (Hn & v & Hv & Hc). split; [done|].
  destruct (He _ _ Hv) as (v' & Hv' & Hc' & _). exists v'. split; [done|]. congruence.
Qed.

Lemma iter_ok_ext n0 h h' it : heap_ext n0 h h' -> iter_ok h it -> iter_ok h' it.
Proof. unfold iter_ok. destruct (ValueTupleSet.m_ref it); [done|]. apply heap_ext_is_Some. Qed.

#[export] Hint Resolve heap_ext_refl heap_ext_snoc set_ok_ext result_ok_ext iter_ok_ext : wolf.

Lemma elem_ok_ext n0 h h' e : heap_ext n0 h h' -> elem_ok n0 h e -> elem_ok n0 h' e.
Proof.
  intros He []. constructor; eauto with wolf.
  intros i r Hi. eauto with wolf.
Qed.

Lemma result_set_ok n0 h r : result_ok n0 h r -> set_ok h r.
Proof. destruct r; cbn; [|done]. intros (_ & v & Hv & _). eauto. Qed.

Lemma elem_ok_make n0 h ip r : set_ok h r -> elem_ok n0 h (StackElement_make ip r).
Proof. intros Hr. constructor; cbn; try done. Qed.

#[export] Hint Resolve elem_ok_ext result_set_ok elem_ok_make : wolf.

(** ** Rules for the computations of the machine *)

Section Rules.
Context {D : Type} `{TransactionExecStatemachine D}.
Variable n0 : nat.
(** [U] says whether undefined behaviour is tolerated. *)
Variable U : Prop.
Abbreviation vm := (ProgramInstance D).
Abbreviation MV := (M (ProgramInstance D)).

(** [wp m Q s]: run in [s], the computation only lets the store grow, never changes
    the program's references to tuple sets, ends in a state satisfying [Q] if it
    returns, and does nothing undefined unless [U]. *)
Definition wp {A} (m : MV A) (Q : A -> vm -> Prop) (s : vm) : Prop :=
  heap_ext n0 (m_heap s) (m_heap (fst (m s))) /\
  tuplesets (m_program (fst (m s))) = tuplesets (m_program s) /\
  match snd (m s) with
  | Ok a => Q a (fst (m s))
  | Throw (Undefined _) => U
  | _ => True
  end.

Lemma wp_ret {A} (a : A) Q s : Q a s -> wp (mret a) Q s.
Proof. intros HQ. split_and!; cbn; auto with wolf. Qed.

Lemma wp_mono {A} (m : MV A) (Q Q' : A -> vm -> Prop) s :
  wp m Q s -> (forall a s', Q a s' -> Q' a s') -> wp m Q' s.
Proof.
  intros (Hh & Ht & Hr) HQ. split_and!; auto. destruct (snd (m s)); auto.
Qed.

Lemma wp_bind {A B} (m : MV A) (f : A -> MV B) Q s :
  wp m (fun a s' => wp (f a) Q s') s -> wp (m ≫= f) Q s.
Proof.
  unfold wp. rewrite M_bind_eq. destruct (m s) as [s1 [a|e|]]; cbn; [|done|done].
  intros (Hh & Ht & Hh' & Ht' & Hr). split_and!; [|congruence|done].
  by eapply heap_ext_trans.
Qed.

Lemma wp_throw {A} e Q s :
  match e with Undefined _ => U | _ => True end -> wp (A := A) (throw e) Q s.
Proof. intros He. split_and!; cbn; auto with wolf. Qed.

Lemma wp_lift {A} (r : res A) (Q : A -> vm -> Prop) s :
  match r with Ok a => Q a s | Throw (Undefined _) => U | _ => True end -> wp (lift r) Q s.
Proof. intros Hr. split_and!; cbn; auto with wolf. Qed.

Lemma wp_gets {A} (f : vm -> A) (Q : A -> vm -> Prop) s : Q (f s) s -> wp (gets f) Q s.
Proof. intros HQ. split_and!; cbn; auto with wolf. Qed.

(** A change of the state that leaves the store and the program's references alone. *)
Lemma wp_modify (f : vm -> vm) (Q : unit -> vm -> Prop) s :
  m_heap (f s) = m_heap s -> tuplesets (m_program (f s)) = tuplesets (m_program s) ->
  Q tt (f s) -> wp (modify f) Q s.
Proof. intros Hh Ht HQ. split_and!; cbn; auto. rewrite Hh. auto with wolf. Qed.

Lemma wp_throw_if b e (Q : unit -> vm -> Prop) s :
  (b = true -> match e with Undefined _ => U | _ => True end) ->
  (b = false -> Q tt s) -> wp (throw_if b e) Q s.
Proof. destruct b; intros He HQ; [apply wp_throw, He|apply wp_ret, HQ]; done. Qed.

Lemma wp_out_of_fuel {A} (Q : A -> vm -> Prop) s : wp (fun s => (s, OutOfFuel)) Q s.
Proof. split_and!; cbn; auto with wolf. Qed.

Lemma wp_top (Q : StackElement -> vm -> Prop) s e st :
  m_stack s = e :: st -> Q e s -> wp top Q s.
Proof.
  intros Hs HQ. unfold wp, top. rewrite Hs. cbn. auto with wolf.
Qed.

Lemma wp_set_top e (Q : unit -> vm -> Prop) s e0 st :
  m_stack s = e0 :: st -> Q tt (set_stack s (e :: st)) -> wp (set_top e) Q s.
Proof. intros Hs HQ. unfold wp, set_top. rewrite Hs. cbn. auto with wolf. Qed.

Lemma wp_set_of r (Q : nat * ValueTupleSet.t -> vm -> Prop) s :
  (r = None -> U) -> set_ok (m_heap s) r ->
  (forall l v, r = Some l -> m_heap s !! l = Some v -> Q (l, v) s) -> wp (set_of r) Q s.
Proof.
  intros HU Hok HQ. unfold wp, set_of. destruct r as [l|]; cbn.
  - destruct Hok as [v Hv]. rewrite Hv. cbn. auto with wolf.
  - split_and!; auto with wolf.
Qed.

Lemma wp_alloc v (Q : nat -> vm -> Prop) s :
  Q (length (m_heap s)) (set_heap s (m_heap s ++ [v])) -> wp (alloc v) Q s.
Proof. intros HQ. split_and!; cbn; auto with wolf. Qed.

Lemma wp_db_call {A} (m : M D A) (Q : A -> vm -> Prop) s :
  m_db_stm s <> None -> (U \/ no_undefined m) ->
  (forall a d', Q a (set_db_stm s (Some d'))) -> wp (db_call m) Q s.
Proof.
  intros Hdb Hu HQ. unfold wp, db_call. destruct (m_db_stm s) as [d|]; [|done].
  destruct (m d) as [d' r] eqn:E. cbn. split_and!; auto with wolf.
  destruct r as [a|[]|]; auto. destruct Hu as [Hu|Hu]; [done|].
  specialize (Hu d what). rewrite E in Hu. cbn in Hu. done.
Qed.

End Rules.

(** ** Preservation of the invariant by updates of the state *)

Section Updates.
Context {D : Type} (n0 : nat).
Implicit Type s : ProgramInstance D.

Lemma ok_set_ip s x : vm_ok n0 s -> vm_ok n0 (set_ip s x).
Proof. now intros []. Qed.
Lemma ok_set_cond s x : vm_ok n0 s -> vm_ok n0 (set_cond s x).
Proof. now intros []. Qed.
Lemma ok_set_frame s x : vm_ok n0 s -> vm_ok n0 (set_frame s x).
Proof. now intros []. Qed.
Lemma ok_set_lastError s x : vm_ok n0 s -> vm_ok n0 (set_lastError s x).
Proof. now intros []. Qed.
Lemma ok_set_code s c : vm_ok n0 s -> vm_ok n0 (set_program s (set_code (m_program s) c)).
Proof. now intros []. Qed.
Lemma ok_set_db_stm s d : vm_ok n0 s -> vm_ok n0 (set_db_stm s (Some d)).
Proof. now intros []. Qed.
Lemma ok_set_output s o : o <> [] -> vm_ok n0 s -> vm_ok n0 (set_output s o).
Proof. now intros ? []. Qed.

Lemma ok_set_stack s st :
  st <> [] -> Forall (elem_ok n0 (m_heap s)) st -> vm_ok n0 s -> vm_ok n0 (set_stack s st).
Proof. now intros ? ? []. Qed.

Lemma ok_top s e st : vm_ok n0 s -> m_stack s = e :: st -> elem_ok n0 (m_heap s) e.
Proof. intros [] He. rewrite He in vo_stack0. now inversion vo_stack0. Qed.

Lemma ok_tail s e st :
  vm_ok n0 s -> m_stack s = e :: st -> Forall (elem_ok n0 (m_heap s)) st.
Proof. intros [] He. rewrite He in vo_stack0. now inversion vo_stack0. Qed.

Lemma ok_set_top s e e' st :
  vm_ok n0 s -> m_stack s = e :: st -> elem_ok n0 (m_heap s) e' ->
  vm_ok n0 (set_stack s (e' :: st)).
Proof.
  intros Hok Hs He. apply ok_set_stack; [done| |done]. constructor; [done|]. eauto using ok_tail.
Qed.

Lemma ok_set_heap s h :
  heap_ext n0 (m_heap s) h -> Forall ValueTupleSet.wf h -> vm_ok n0 s ->
  vm_ok n0 (set_heap s h).
Proof.
  intros He Hwf []. constructor; cbn; auto.
  - apply heap_ext_length in He. lia.
  - eapply Forall_impl; [done|]. eauto with wolf.
  - eapply Forall_impl; [done|]. intros r Hr. eapply set_ok_ext; eauto.
Qed.

Lemma ok_alloc s v : ValueTupleSet.wf v -> vm_ok n0 s -> vm_ok n0 (set_heap s (m_heap s ++ [v])).
Proof.
  intros Hv Hok. apply ok_set_heap; auto with wolf.
  apply Forall_app. split; [apply Hok|]. now constructor.
Qed.

Lemma ok_append s l v v' :
  vm_ok n0 s -> (n0 <= l)%nat -> m_heap s !! l = Some v ->
  ValueTupleSet.m_colnames v' = ValueTupleSet.m_colnames v ->
  ValueTupleSet.m_ar v `prefix_of` ValueTupleSet.m_ar v' -> ValueTupleSet.wf v' ->
  vm_ok n0 (set_heap s (<[l := v']> (m_heap s))).
Proof.
  intros Hok Hn Hl Hc Hp Hwf. apply ok_set_heap; auto.
  - by eapply heap_ext_append.
  - apply Forall_insert; [apply Hok|done].
Qed.

Lemma ok_wf s l v : vm_ok n0 s -> m_heap s !! l = Some v -> ValueTupleSet.wf v.
Proof. intros [] Hl. by eapply Forall_lookup_1. Qed.

Lemma ok_stack_cons s : vm_ok n0 s -> exists e st, m_stack s = e :: st.
Proof. intros []. destruct (m_stack s); [done|eauto]. Qed.

Lemma set_ok_alloc s v : set_ok (m_heap s ++ [v]) (Some (length (m_heap s))).
Proof. cbn. rewrite lookup_app_r, Nat.sub_diag by done. eauto. Qed.

(** Updates of a stack element. *)
Lemma elem_set_bindidx h e i : elem_ok n0 h e -> elem_ok n0 h (set_bindidx e i).
Proof. now intros []. Qed.
Lemma elem_set_hintidx h e i : elem_ok n0 h e -> elem_ok n0 h (set_hintidx e i).
Proof. now intros []. Qed.
Lemma elem_set_selectedSet h e r : set_ok h r -> elem_ok n0 h e -> elem_ok n0 h (set_selectedSet e r).
Proof. now intros ? []. Qed.
Lemma elem_set_resultMap h e i :
  elem_ok n0 h e -> elem_ok n0 h (set_resultMap e (<[i := m_lastResult e]> (m_resultMap e))).
Proof. intros []. constructor; cbn; auto. apply map_Forall_insert_2; auto. Qed.
Lemma elem_set_flags h e f :
  (is_first f = false -> m_lastResult e <> None) -> elem_ok n0 h e ->
  elem_ok n0 h (set_resultFlags e f).
Proof. now intros ? []. Qed.
Lemma elem_set_iterator h e l it it_end :
  is_Some (h !! l) -> iter_ok h it -> elem_ok n0 h e ->
  elem_ok n0 h (set_iterator e (Some l) it it_end).
Proof. now intros ? ? []. Qed.
Lemma elem_set_valueIter h e it :
  (m_valueSet e = None -> ValueTupleSet.isequal it (m_valueEnd e) = true) ->
  iter_ok h it -> elem_ok n0 h e -> elem_ok n0 h (set_valueIter e it).
Proof. now intros ? ? []. Qed.
End Updates.

#[export] Hint Resolve ok_set_ip ok_set_cond ok_set_frame ok_set_lastError ok_set_code
  ok_set_db_stm ok_set_output ok_set_top ok_alloc ok_top elem_set_bindidx elem_set_hintidx
  elem_set_selectedSet elem_set_resultMap elem_set_flags set_ok_alloc : wolf.

(** ** The operations of the machine *)

Section Operations.
#[local] Set Default Proof Using "All".
Context {D : Type} `{TransactionExecStatemachine D}.
Variable n0 : nat.
Variable U : Prop.
Hypothesis Hdb : U \/ db_safe D.
Abbreviation vm := (ProgramInstance D).
Abbreviation MV := (M (ProgramInstance D)).
Abbreviation wp := (wp n0 U).
Abbreviation vm_ok := (vm_ok n0).
Implicit Type s : vm.

(** What a step leaves: the invariant, if the program goes on. *)
Definition next_ok (r : option bool) (s : vm) : Prop :=
  match r with None => vm_ok s | Some _ => True end.

Ltac wps_with tac :=
  repeat (cbn beta iota zeta; match goal with
  | |- VmInvariant.wp _ _ (_ ≫= _) _ _ => apply wp_bind
  | |- VmInvariant.wp _ _ (mret _) _ _ => apply wp_ret
  | |- VmInvariant.wp _ _ (throw _) _ _ => apply wp_throw; try exact I
  | |- VmInvariant.wp _ _ (gets _) _ _ => apply wp_gets; unfold id
  | |- VmInvariant.wp _ _ (modify _) _ _ => apply wp_modify; [reflexivity|reflexivity|]
  | |- VmInvariant.wp _ _ inc_ip _ _ => unfold inc_ip
  | Hs : m_stack ?s = _ :: _ |- VmInvariant.wp _ _ top _ _ =>
      eapply wp_top; [exact Hs|]
  | Hs : m_stack ?s = _ :: _ |- VmInvariant.wp _ _ (set_top _) _ _ =>
      eapply wp_set_top; [exact Hs|]
  | |- VmInvariant.wp _ _ (throw_if _ _) _ _ => apply wp_throw_if; intros ?; try exact I
  | _ => tac
  end).
Ltac wps := wps_with fail.

Lemma wp_checked_at {A} (l : list A) i msg (Q : A -> vm -> Prop) s :
  (forall x, l !! Z.to_nat i = Some x -> Q x s) -> wp (lift (checked_at l i msg)) Q s.
Proof. intros HQ. apply wp_lift. unfold checked_at. destruct (l !! Z.to_nat i); auto. Qed.

Lemma wp_constArgument i (Q : Variant -> vm -> Prop) s :
  (forall v, Q v s) -> wp (constArgument i) Q s.
Proof. intros HQ. unfold constArgument. wps. apply wp_checked_at. auto. Qed.

Lemma wp_statementArgument i (Q : string -> vm -> Prop) s :
  (forall v, Q v s) -> wp (statementArgument i) Q s.
Proof. intros HQ. unfold statementArgument. wps. apply wp_checked_at. auto. Qed.

Lemma wp_tagnameArgument i (Q : string -> vm -> Prop) s :
  (forall v, Q v s) -> wp (tagnameArgument i) Q s.
Proof. intros HQ. unfold tagnameArgument. wps. apply wp_checked_at. auto. Qed.

Lemma wp_tupleSet i (Q : ValueTupleSetR -> vm -> Prop) s :
  vm_ok s -> (forall r, set_ok (m_heap s) r -> Q r s) -> wp (tupleSet i) Q s.
Proof.
  intros Hok HQ. unfold tupleSet. wps. apply wp_checked_at. intros r Hr. apply HQ.
  eapply Forall_lookup_1; [apply Hok|done].
Qed.

Lemma wp_keptResult i (Q : ValueTupleSetR -> vm -> Prop) s e st :
  m_stack s = e :: st -> elem_ok n0 (m_heap s) e ->
  (forall r, m_resultMap e !! i = Some r -> result_ok n0 (m_heap s) r -> Q r s) ->
  wp (keptResult i) Q s.
Proof.
  intros Hs He HQ. unfold keptResult. wps.
  destruct (m_resultMap e !! i) eqn:E; wps. apply HQ; [done|]. by eapply eo_resultMap.
Qed.

Lemma wp_columnIndex r i (Q : Z -> vm -> Prop) s :
  set_ok (m_heap s) r -> (forall x, r <> None -> Q x s) -> wp (columnIndex r i) Q s.
Proof.
  intros Hr HQ. unfold columnIndex. destruct r as [l|]; wps.
  apply wp_checked_at. intros name Hn. wps. apply wp_set_of; [done|done|].
  intros l' v [= <-] Hl. wps. apply wp_lift.
  unfold ValueTupleSet.columnIndex.
  pose proof (ValueTupleSetFacts.columnIndex_from_spec (ValueTupleSet.m_colnames v) name 0) as Hc.
  destruct (ValueTupleSet.columnIndex_from _ _ _) as [j|ex|]; [|destruct Hc as [-> _]; done|done].
  wps. by apply HQ.
Qed.

Lemma column_total h it i :
  iter_ok h it ->
  match ValueTupleSet.column h it i with
  | Ok _ => True | Throw (Undefined _) => U | _ => True end.
Proof.
  unfold iter_ok, ValueTupleSet.column. destruct (ValueTupleSet.m_ref it) as [|l]; cbn.
  - intros _. by repeat case_match; simplify_eq.
  - intros [v Hv]. rewrite Hv. cbn. by repeat case_match; simplify_eq.
Qed.

Lemma wp_column it i (Q : Variant -> vm -> Prop) s h :
  iter_ok h it -> (forall x, Q x s) -> wp (lift (ValueTupleSet.column h it i)) Q s.
Proof.
  intros Hit HQ. apply wp_lift. pose proof (column_total _ _ i Hit).
  destruct (ValueTupleSet.column h it i); auto.
Qed.

Lemma wp_selectedArgument i (Q : Variant -> vm -> Prop) s e st :
  m_stack s = e :: st -> elem_ok n0 (m_heap s) e -> (m_selectedSet e = None -> U) ->
  (forall x, Q x s) -> wp (selectedArgument i) Q s.
Proof.
  intros Hs He Hsel HQ. unfold selectedArgument. wps. apply wp_set_of; [done|apply He|].
  intros l v Hr Hl. wps. destruct (ValueTupleSet.empty v); wps; [done|].
  apply wp_column; [|done]. cbn. eauto.
Qed.

Lemma wp_iteratorArgument i (Q : Variant -> vm -> Prop) s e st :
  m_stack s = e :: st -> elem_ok n0 (m_heap s) e ->
  (forall x, Q x s) -> wp (iteratorArgument i) Q s.
Proof.
  intros Hs He HQ. unfold iteratorArgument. wps. apply wp_column; [apply He|done].
Qed.

Lemma wp_loopcntArgument (Q : Variant -> vm -> Prop) s e st :
  m_stack s = e :: st -> (forall x, Q x s) -> wp loopcntArgument Q s.
Proof. intros Hs HQ. unfold loopcntArgument. wps. destruct (m_valueSet e); wps. done. Qed.

Lemma wp_output_add x (Q : unit -> vm -> Prop) s :
  vm_ok s -> (forall o, o <> [] -> Q tt (set_output s o)) -> wp (output_add x) Q s.
Proof.
  intros Hok HQ. unfold output_add. wps. apply wp_lift.
  destruct (OutputFacts.add_Ok (m_output s) x) as (o & -> & Ho); [apply Hok|]. wps. auto.
Qed.

Lemma wp_frame_push v (Q : unit -> vm -> Prop) s :
  (forall f, Q tt (set_frame s f)) -> wp (frame_push v) Q s.
Proof.
  intros HQ. unfold frame_push. wps. apply wp_lift.
  unfold SubroutineFrame.push. destruct (_ <=? _)%nat; wps; auto.
Qed.

Lemma wp_rewrite_instr instr op i (Q : unit -> vm -> Prop) s :
  (forall c, Q tt (set_program s (set_code (m_program s) c))) -> wp (rewrite_instr instr op i) Q s.
Proof.
  intros HQ. unfold rewrite_instr. wps. apply wp_lift.
  unfold instruction_raw. repeat case_match; try done. wps. apply wp_lift.
  unfold ProgramCode.assign. destruct (_ <=? _); [done|]. wps. auto.
Qed.

Lemma wp_initValueIteraror r (Q : unit -> vm -> Prop) s e st :
  vm_ok s -> m_stack s = e :: st -> set_ok (m_heap s) r ->
  (forall s', vm_ok s' -> Q tt s') -> wp (initValueIteraror r) Q s.
Proof.
  intros Hok Hs Hr HQ. unfold initValueIteraror. wps. destruct r as [l|]; wps.
  apply wp_set_of; [done|done|]. intros l' v [= <-] Hl. wps. apply HQ. apply ok_set_cond.
  eapply ok_set_top; eauto. apply elem_set_iterator; [done|done|]. by eapply ok_top.
Qed.

(** A result is checked against the constraints of the frame without changing anything. *)
Lemma wp_check (chk : ValueTupleSet.t -> res unit) (b : bool) msg r (Q : unit -> vm -> Prop) s :
  (forall v, ValueTupleSet.m_colnames v <> [] ->
     chk v = Ok tt \/ exists m, chk v = Throw (RuntimeError m)) ->
  result_ok n0 (m_heap s) r -> Q tt s ->
  wp (if b then match r with
                | None => throw (RuntimeError msg)
                | Some _ => '(_, v) ← set_of r; lift (chk v)
                end
      else mret tt) Q s.
Proof.
  intros Hchk Hr HQ. destruct b; [|by wps]. destruct r as [l|]; [|by wps]. wps.
  apply wp_set_of; [done|by eapply result_set_ok|]. intros l' v [= <-] Hl. wps. apply wp_lift.
  destruct Hr as (_ & v' & Hl' & Hc). assert (v' = v) as -> by congruence.
  by destruct (Hchk v Hc) as [->|[m ->]].
Qed.

Lemma check_total v :
  ValueTupleSet.m_colnames v <> [] ->
  (ValueTupleSet.checkConstraintUnique v = Ok tt \/
     exists m, ValueTupleSet.checkConstraintUnique v = Throw (RuntimeError m)) /\
  (ValueTupleSet.checkConstraintNonEmpty v = Ok tt \/
     exists m, ValueTupleSet.checkConstraintNonEmpty v = Throw (RuntimeError m)).
Proof.
  unfold ValueTupleSet.checkConstraintUnique, ValueTupleSet.checkConstraintNonEmpty,
    ValueTupleSet.size, check_that.
  destruct (ValueTupleSet.m_colnames v); [done|]. cbn. intros _.
  split; destruct (negb _); eauto.
Qed.

Lemma wp_checkConstraints r (Q : unit -> vm -> Prop) s e st :
  m_stack s = e :: st -> result_ok n0 (m_heap s) r ->
  Q tt s -> wp (checkConstraints r) Q s.
Proof.
  intros Hs Hr HQ. unfold checkConstraints. wps. apply wp_check; [apply check_total|done|].
  apply wp_check; [apply check_total|done|done].
Qed.

Lemma wp_appendResult d r (Q : unit -> vm -> Prop) s :
  vm_ok s -> (d = r \/ d = None -> U) -> result_ok n0 (m_heap s) d ->
  result_ok n0 (m_heap s) r -> r <> None ->
  (forall s', vm_ok s' -> Q tt s') -> wp (appendResult d r) Q s.
Proof.
  intros Hok HU Hd Hr Hrn HQ. unfold appendResult. wps.
  apply wp_set_of; [auto|by eapply result_set_ok|]. intros ld vd -> Hld. wps.
  apply wp_set_of; [done|by eapply result_set_ok|]. intros lr vr -> Hlr. wps.
  { apply HU. left. f_equal. by apply Nat.eqb_eq. }
  destruct (ValueTupleSet.append vd vr) as [v'|ex|] eqn:E; apply wp_lift; [|by
    unfold ValueTupleSet.append in E; destruct (negb _); simplify_eq..].
  apply ValueTupleSetFacts.append_wf in E as (Hwf & Hc & Ha); [|by eapply ok_wf..].
  assert (ValueTupleSet.m_ar vd `prefix_of` ValueTupleSet.m_ar v') as Hp.
  { rewrite Ha. by eexists. }
  split_and!; cbn; [|done|].
  - eapply heap_ext_append; eauto. apply Hd.
  - apply HQ. eapply ok_append; eauto. apply Hd.
Qed.

Lemma wp_initResult r (Q : unit -> vm -> Prop) s e st :
  vm_ok s -> m_stack s = e :: st -> result_ok n0 (m_heap s) r ->
  (is_first (m_resultFlags e) = false -> r = m_lastResult e -> U) ->
  (forall s', vm_ok s' -> Q tt s') -> wp (initResult r) Q s.
Proof.
  intros Hok Hs Hr Hhaz HQ. pose proof (ok_top _ _ _ _ Hok Hs) as He.
  unfold initResult. apply wp_bind. eapply wp_checkConstraints; eauto.
  destruct r as [l|]; [|by wps; apply HQ]. wps.
  unfold touched. destruct (is_first (m_resultFlags e)) eqn:Ef; cbn [negb]; wps.
  - eapply wp_set_top; [reflexivity|]. apply HQ. cbn.
    eapply (ok_set_top _ s); eauto. destruct He. by constructor.
  - assert (elem_ok n0 (m_heap s) (set_resultFlags e
              (mkResultFlags false (unique (m_resultFlags e)) (nonempty (m_resultFlags e))))) as He'.
    { apply elem_set_flags; [|done]. intros _. by apply He. }
    apply wp_appendResult; auto.
    + by eapply ok_set_top.
    + intros [Hl|Hl]; [by apply Hhaz|]. exfalso. by apply (eo_touched _ _ _ He).
    + apply He.
Qed.

(** ** Fetching a database result *)

Lemma db_safe_op {A} (m : M D A) : (db_safe D -> no_undefined m) -> U \/ no_undefined m.
Proof. destruct Hdb; auto. Qed.

Lemma wp_db {A} (m : M D A) (Q : A -> vm -> Prop) s :
  vm_ok s -> (db_safe D -> no_undefined m) ->
  (forall a d', vm_ok (set_db_stm s (Some d')) -> Q a (set_db_stm s (Some d'))) ->
  wp (db_call m) Q s.
Proof.
  intros Hok Hm HQ. apply wp_db_call; [apply Hok|by apply db_safe_op|].
  intros a d'. apply HQ. by apply ok_set_db_stm.
Qed.

(** A state that differs from [s] only in the database state. *)
Definition db_only s s' : Prop := exists d, s' = set_db_stm s (Some d).

Lemma wp_fetchColumnNames n : forall ii (Q : list string -> vm -> Prop) s,
  vm_ok s -> (forall cs s', vm_ok s' -> db_only s s' -> length cs = n -> Q cs s') ->
  wp (fetchColumnNames ii n) Q s.
Proof.
  induction n as [|n IH]; intros ii Q s Hok HQ; cbn [fetchColumnNames].
  - wps. apply HQ; [done| |done]. destruct s as [? ? [d|] ? ? ? ? ? ? ?]; [by exists d|].
    by destruct Hok.
  - wps. apply wp_db; [done|by intros []|]. intros cn d' Hok'. wps.
    apply IH; [done|]. intros cs s' Hok'' [d'' ->] Hl. wps. apply HQ; [done| |cbn; lia].
    by exists d''.
Qed.

Lemma wp_fetchRow n : forall ii (Q : list Variant -> vm -> Prop) s,
  vm_ok s -> (forall vs s', vm_ok s' -> db_only s s' -> length vs = n -> Q vs s') ->
  wp (fetchRow ii n) Q s.
Proof.
  induction n as [|n IH]; intros ii Q s Hok HQ; cbn [fetchRow].
  - wps. apply HQ; [done| |done]. destruct s as [? ? [d|] ? ? ? ? ? ? ?]; [by exists d|].
    by destruct Hok.
  - wps. apply wp_db; [done|by intros []|]. intros v d' Hok'. wps.
    apply IH; [done|]. intros vs s' Hok'' [d'' ->] Hl. wps. apply HQ; [done| |cbn; lia].
    by exists d''.
Qed.

Lemma wp_fetchRows fuel n : forall rt (Q : ValueTupleSet.t -> vm -> Prop) s,
  vm_ok s -> ValueTupleSet.wf rt ->
  (forall rt' s', vm_ok s' -> db_only s s' -> ValueTupleSet.wf rt' ->
     ValueTupleSet.m_colnames rt' = ValueTupleSet.m_colnames rt -> Q rt' s') ->
  wp (fetchRows fuel n rt) Q s.
Proof.
  induction fuel as [|fuel IH]; intros rt Q s Hok Hwf HQ; cbn [fetchRows];
    [apply wp_out_of_fuel|].
  wps. apply wp_fetchRow; [done|]. intros vs s1 Hok1 [d1 ->] Hl. wps. apply wp_lift.
  destruct (ValueTupleSet.push rt vs) as [rt'|ex|] eqn:E;
    [|by unfold ValueTupleSet.push in E; destruct (negb _); simplify_eq..].
  apply ValueTupleSetFacts.push_wf in E as [Hwf' Hc]; [|done].
  wps. apply wp_db; [done|by intros []|]. intros more d2 Hok2. destruct more; wps.
  - apply IH; [done|done|]. intros rt'' s' Hok' [d3 ->] Hwf'' Hc'. apply HQ; [done| |done|congruence].
    by exists d3.
  - apply HQ; [done| |done|done]. by exists d2.
Qed.

Lemma wp_fetchDatabaseResult fuel n (Q : ValueTupleSetR -> vm -> Prop) s :
  vm_ok s ->
  (forall l s', vm_ok s' -> m_stack s' = m_stack s -> m_heap s !! l = None ->
     (n <> 0%nat -> result_ok n0 (m_heap s') (Some l)) -> Q (Some l) s') ->
  wp (fetchDatabaseResult fuel n) Q s.
Proof.
  intros Hok HQ. unfold fetchDatabaseResult. wps. apply wp_fetchColumnNames; [done|].
  intros cs s1 Hok1 [d1 ->] Hl. wps. apply wp_db; [done|by intros []|].
  intros has d2 Hok2.
  assert (forall rt s', vm_ok s' -> db_only s s' -> ValueTupleSet.wf rt ->
    ValueTupleSet.m_colnames rt = cs ->
    wp (alloc rt) (fun l s'' => wp (mret (Some l)) Q s'') s') as Halloc.
  { intros rt s' Hok' [d3 ->] Hwf Hc. apply wp_alloc. wps. apply HQ; [by apply ok_alloc|done| |].
    - apply lookup_ge_None. cbn. lia.
    - intros Hn. split; [apply Hok|]. exists rt. cbn. rewrite lookup_app_r, Nat.sub_diag by done.
      split; [done|]. rewrite Hc. by destruct cs; cbn in Hl; subst. }
  wps. destruct has; wps.
  - apply wp_fetchRows; [done|apply ValueTupleSetFacts.make_wf|]. intros rt s' Hok' [d3 ->] Hwf Hc.
    wps. apply Halloc; [done| |done|done]. by exists d3.
  - apply Halloc; [done| |apply ValueTupleSetFacts.make_wf|done]. by exists d2.
Qed.

Lemma wp_setDatabaseError (Q : unit -> vm -> Prop) s :
  vm_ok s -> (forall s', vm_ok s' -> Q tt s') -> wp setDatabaseError Q s.
Proof.
  intros Hok HQ. destruct (ok_stack_cons _ _ Hok) as (e & st & Hs).
  unfold setDatabaseError. wps. apply wp_db; [done|by intros []|].
  intros [err|] d1 Hok1; wps; [|by apply HQ, ok_set_lastError].
  apply wp_db; [done| |].
  { intros _ ? ?. done. }
  intros db d2 Hok2. wps. destruct (m_hintidx e =? 0); wps; [by apply HQ, ok_set_lastError|].
  apply wp_checked_at. intros hints _. wps. destruct (find_hint _ _); wps;
    by apply HQ; repeat apply ok_set_lastError.
Qed.

Lemma wp_printColumn e i (Q : unit -> vm -> Prop) s :
  vm_ok s -> elem_ok n0 (m_heap s) e -> m_valueSet e <> None ->
  (forall o, o <> [] -> Q tt (set_output s o)) -> wp (printColumn e i) Q s.
Proof.
  intros Hok He Hv HQ. unfold printColumn. wps. apply wp_set_of; [done|apply He|].
  intros l v _ _. wps. apply wp_lift. unfold ValueTupleSet.columnName.
  destruct (_ || _)%nat; [done|]. destruct (_ !! _); [|done]. wps.
  apply wp_output_add; [done|]. intros o Ho. wps. apply wp_column; [apply He|].
  intros x. wps. apply wp_output_add; [by apply ok_set_output|]. intros o' Ho'.
  apply wp_output_add; [by repeat apply ok_set_output|]. intros o'' Ho''. by apply (HQ o'').
Qed.

Lemma wp_printColumns e ixs : forall (Q : unit -> vm -> Prop) s,
  vm_ok s -> elem_ok n0 (m_heap s) e -> m_valueSet e <> None ->
  (forall s', vm_ok s' -> Q tt s') -> wp (for_each ixs (printColumn e)) Q s.
Proof.
  induction ixs as [|i ixs IH]; intros Q s Hok He Hv HQ; cbn [for_each]; wps; [auto|].
  apply wp_printColumn; auto. intros o Ho. apply IH; auto. by apply ok_set_output.
Qed.

Lemma wp_printIteratorColumn (Q : unit -> vm -> Prop) s :
  vm_ok s -> (forall s', vm_ok s' -> Q tt s') -> wp printIteratorColumn Q s.
Proof.
  intros Hok HQ. destruct (ok_stack_cons _ _ Hok) as (e & st & Hs).
  pose proof (ok_top _ _ _ _ Hok Hs) as He. unfold printIteratorColumn. wps.
  destruct (ValueTupleSet.isequal _ _) eqn:Ei; cbn [negb]; wps; [by apply HQ, ok_set_cond|].
  assert (m_valueSet e <> None) as Hv.
  { intros Hv. apply (eo_iter_set _ _ _ He) in Hv. congruence. }
  apply wp_set_of; [done|apply He|]. intros l v _ _. wps.
  apply wp_printColumns; auto with wolf.
Qed.

(** ** Instructions *)

(** Instructions that access a column of the selected set by index. *)
Definition is_sel_idx (op : OpCode) : bool :=
  match op with
  | Op_OUTPUT_SEL_IDX | Op_SUB_ARG_SEL_IDX | Op_DBSTM_BIND_SEL_IDX => true
  | _ => false
  end.

Ltac vm_rules :=
  match goal with
  | |- VmInvariant.wp _ _ (constArgument _) _ _ => apply wp_constArgument; intros ?
  | |- VmInvariant.wp _ _ (statementArgument _) _ _ => apply wp_statementArgument; intros ?
  | |- VmInvariant.wp _ _ (tagnameArgument _) _ _ => apply wp_tagnameArgument; intros ?
  | |- VmInvariant.wp _ _ (frame_push _) _ _ => apply wp_frame_push; intros ?
  | |- VmInvariant.wp _ _ (rewrite_instr _ _ _) _ _ => apply wp_rewrite_instr; intros ?
  | |- VmInvariant.wp _ _ (output_addValue _) _ _ => unfold output_addValue
  | |- VmInvariant.wp _ _ (output_add _) _ _ =>
      apply wp_output_add; [solve [auto 10 with wolf]|intros ? ?]
  | Hs : m_stack _ = _ :: _ |- VmInvariant.wp _ _ loopcntArgument _ _ =>
      eapply wp_loopcntArgument; [exact Hs|intros ?]
  | Hs : m_stack _ = _ :: _, He : elem_ok _ _ _ |- VmInvariant.wp _ _ (iteratorArgument _) _ _ =>
      eapply wp_iteratorArgument; [exact Hs|exact He|intros ?]
  | Hs : m_stack _ = _ :: _, He : elem_ok _ _ _ |- VmInvariant.wp _ _ (selectedArgument _) _ _ =>
      eapply wp_selectedArgument; [exact Hs|exact He|try (intros ?; congruence)|intros ?]
  | He : elem_ok _ _ ?e |- VmInvariant.wp _ _ (columnIndex (m_selectedSet ?e) _) _ _ =>
      apply wp_columnIndex; [exact (eo_selectedSet _ _ _ He)|intros ? ?]
  | He : elem_ok _ _ ?e |- VmInvariant.wp _ _ (columnIndex (m_valueSet ?e) _) _ _ =>
      apply wp_columnIndex; [exact (eo_valueSet _ _ _ He)|intros ? ?]
  end.
Ltac vmgo := wps_with ltac:(idtac; vm_rules).
Ltac vmdone := cbn [next_ok]; auto 10 with wolf.

Lemma wp_exec_print instr op i s e st :
  vm_ok s -> m_stack s = e :: st -> (is_sel_idx op = true -> m_selectedSet e = None -> U) ->
  wp (exec_print instr op i) next_ok s.
Proof.
  intros Hok Hs Hsel. pose proof (ok_top _ _ _ _ Hok Hs) as He.
  unfold exec_print, unresolved_path. destruct op; vmgo; vmdone.
  - apply wp_printIteratorColumn; [done|]. intros s' Hok'. vmgo. vmdone.
  - cbn. apply ok_set_ip, ok_set_output; [|done]. unfold Output.addOutputSink.
    by destruct (m_output s).
Qed.

Lemma wp_exec_sub instr op i s e st :
  vm_ok s -> m_stack s = e :: st -> (is_sel_idx op = true -> m_selectedSet e = None -> U) ->
  wp (exec_sub instr op i) next_ok s.
Proof.
  intros Hok Hs Hsel. pose proof (ok_top _ _ _ _ Hok Hs) as He.
  unfold exec_sub, unresolved_path. destruct op; vmgo; vmdone.
  - apply wp_checked_at. intros sig _. vmgo. vmdone.
  - apply wp_lift. unfold SubroutineFrame.getParameters.
    destruct (_ <? _)%nat; [done|].
    destruct (ValueTupleSet.push _ _) as [v|ex|] eqn:E;
      [|by unfold ValueTupleSet.push in E; destruct (negb _); simplify_eq..].
    apply ValueTupleSetFacts.push_wf in E as [Hwf _]; [|apply ValueTupleSetFacts.make_wf].
    vmgo. apply wp_alloc. vmgo. cbn.
    pose proof (ok_alloc n0 (set_ip s (u32 (m_ip s + 1))) v Hwf (ok_set_ip _ _ _ Hok)) as Hok'.
    apply (ok_set_stack n0 (set_heap (set_ip s (u32 (m_ip s + 1))) (m_heap s ++ [v]))); [done| |done].
    constructor; [|apply Hok']. apply elem_ok_make. apply set_ok_alloc.
Qed.

Lemma wp_exec_assign op i s e st :
  vm_ok s -> m_stack s = e :: st ->
  (op = Op_SELECT_KEPT_RESULT -> m_resultMap e !! i = Some None -> U) ->
  wp (exec_assign op i) next_ok s.
Proof.
  intros Hok Hs Hkept. pose proof (ok_top _ _ _ _ Hok Hs) as He.
  assert (forall r s' e' st', vm_ok s' -> m_stack s' = e' :: st' -> (r = None -> U) ->
    result_ok n0 (m_heap s') r ->
    wp (check_unambiguous r) (fun _ s'' => wp (_ ← inc_ip; mret None) next_ok s'') s') as Hchk.
  { intros r s' e' st' Hok' Hs' Hnull Hr. unfold check_unambiguous. vmgo.
    apply wp_set_of; [done|by eapply result_set_ok|]. intros l v -> Hl. vmgo. apply wp_lift.
    destruct Hr as (_ & v' & Hl' & Hc). assert (v' = v) as -> by congruence.
    unfold ValueTupleSet.size. destruct (ValueTupleSet.m_colnames v); [done|]. cbn [length].
    vmgo. vmdone. }
  unfold exec_assign. destruct op; vmgo; vmdone.
  - eapply ok_set_ip, ok_set_top; eauto with wolf.
  - destruct (m_parameter e) eqn:Ep; vmgo. eapply ok_set_ip, ok_set_top; eauto.
    apply elem_set_selectedSet; [|done]. rewrite <- Ep. apply He.
  - destruct (m_lastResult e) eqn:Er; vmgo.
    rewrite <- Er. eapply Hchk; [|done|congruence|apply He].
    eapply ok_set_top; eauto. apply elem_set_selectedSet; [|done].
    rewrite Er, <- Er. eapply result_set_ok, He.
  - eapply wp_keptResult; [done|done|]. intros r Hr Hrok. vmgo.
    eapply Hchk; [|done| |done].
    + eapply ok_set_top; eauto. apply elem_set_selectedSet; [|done]. by eapply result_set_ok.
    + intros ->. auto.
Qed.

Lemma wp_exec_iterator op i s :
  vm_ok s -> wp (exec_iterator op i) next_ok s.
Proof.
  intros Hok. destruct (ok_stack_cons _ _ Hok) as (e & st & Hs).
  pose proof (ok_top _ _ _ _ Hok Hs) as He.
  assert (forall s', vm_ok s' -> next_ok None (set_ip s' (u32 (m_ip s' + 1)))) as Hn.
  { intros s' Hs'. vmdone. }
  unfold exec_iterator, unresolved_path. destruct op; vmgo; vmdone.
  - destruct (m_lastResult e) eqn:Er; vmgo.
    + eapply wp_initValueIteraror; [done|done|rewrite <- Er; eapply result_set_ok, He|].
      intros s' Hs'. vmgo. auto.
    + apply wp_alloc. vmgo. eapply wp_initValueIteraror; [|done|apply set_ok_alloc|].
      * apply ok_alloc; [|done]. by exists 0%nat.
      * intros s' Hs'. vmgo. auto.
  - eapply wp_keptResult; [done|done|]. intros r _ Hr. vmgo.
    eapply wp_initValueIteraror; [done|done|by eapply result_set_ok|].
    intros s' Hs'. vmgo. auto.
  - apply wp_tupleSet; [done|]. intros r Hr. vmgo.
    eapply wp_initValueIteraror; [done|done|done|]. intros s' Hs'. vmgo. auto.
  - destruct (ValueTupleSet.isequal _ _) eqn:Ei; vmgo; [vmdone|].
    apply wp_lift. unfold ValueTupleSet.incr.
    pose proof (eo_valueIter _ _ _ He) as Hit. unfold iter_ok in Hit.
    assert (exists v, ValueTupleSet.deref (m_heap s) (ValueTupleSet.m_ref (m_valueIter e)) = Ok v)
      as [v ->].
    { destruct (ValueTupleSet.m_ref _); cbn; [eauto|]. destruct Hit as [v ->]. eauto. }
    cbn [mbind res_bind]. vmgo. apply Hn, ok_set_cond. eapply ok_set_top; eauto.
    apply elem_set_valueIter; [|done|done]. intros Hv.
    apply (eo_iter_set _ _ _ He) in Hv. congruence.
Qed.

Lemma wp_exec_scope op s : vm_ok s -> wp (exec_scope op) next_ok s.
Proof.
  intros Hok. destruct (ok_stack_cons _ _ Hok) as (e & st & Hs).
  unfold exec_scope. destruct op; vmgo; vmdone.
  - cbn. rewrite Hs. apply (ok_set_stack n0 (set_ip s (u32 (m_ip s + 1)))); [done| |auto with wolf].
    constructor; [by eapply (ok_top _ s)|]. rewrite <- Hs. apply Hok.
  - cbn [set_stack m_stack]. rewrite Hs. cbn [tl]. destruct st as [|e' st]; vmgo.
    cbn [next_ok]. apply ok_set_ip, ok_set_stack; [done|by eapply ok_tail|done].
Qed.

Lemma wp_db_checked (call : M D bool) s :
  vm_ok s -> (db_safe D -> no_undefined call) -> wp (db_checked call) next_ok s.
Proof.
  intros Hok Hc. unfold db_checked. vmgo. apply wp_db; [done|done|]. intros ok d' Hok'.
  destruct ok; vmgo; [vmdone|].
  apply wp_setDatabaseError; [done|]. intros s' _. by vmgo.
Qed.

Lemma wp_db_bind v s : vm_ok s -> wp (db_bind v) next_ok s.
Proof.
  intros Hok. destruct (ok_stack_cons _ _ Hok) as (e & st & Hs). unfold db_bind. vmgo.
  apply wp_db_checked; [|by intros []]. eapply ok_set_top; eauto with wolf.
Qed.

Lemma wp_exec_dbstm fuel instr op i s e st :
  vm_ok s -> m_stack s = e :: st -> (is_sel_idx op = true -> m_selectedSet e = None -> U) ->
  wp (exec_dbstm fuel instr op i) next_ok s.
Proof.
  intros Hok Hs Hsel. pose proof (ok_top _ _ _ _ Hok Hs) as He.
  unfold exec_dbstm, unresolved_path. destruct op; vmgo; vmdone.
  all: try (apply wp_db_bind; auto 10 with wolf).
  - apply wp_db_checked; [|by intros []]. eapply ok_set_top; eauto with wolf.
  - eapply ok_set_ip, ok_set_top; eauto with wolf.
  - apply wp_db; [done|by intros []|]. intros ok d1 Hok1. destruct ok; vmgo.
    2: { apply wp_setDatabaseError; [done|]. intros s' _. by vmgo. }
    assert (forall s', vm_ok s' ->
      wp (e ← top; _ ← set_top (set_hintidx (set_bindidx e 0) 0); _ ← inc_ip; mret None) next_ok s')
      as Hend.
    { intros s' Hok'. destruct (ok_stack_cons _ _ Hok') as (e' & st' & Hs'). vmgo. cbn.
      apply (ok_set_ip n0 (set_stack s' _)). eapply ok_set_top; eauto.
      apply elem_set_hintidx, elem_set_bindidx. by eapply ok_top. }
    apply wp_db; [done|by intros []|]. intros [|n] d2 Hok2; vmgo.
    { eapply ok_set_ip, ok_set_top; eauto with wolf. }
    apply wp_fetchDatabaseResult; [done|]. intros l s' Hok' Hs' Hl Hr.
    eapply wp_initResult; [done|rewrite Hs'; exact Hs|by apply Hr| |apply Hend].
    intros _ Heq. exfalso. pose proof (eo_lastResult _ _ _ He) as Hlast. rewrite <- Heq in Hlast.
    destruct Hlast as (_ & v & Hv & _). cbn in Hl. congruence.
Qed.

Lemma wp_exec_result op s : vm_ok s -> wp (exec_result op) next_ok s.
Proof.
  intros Hok. destruct (ok_stack_cons _ _ Hok) as (e & st & Hs).
  pose proof (ok_top _ _ _ _ Hok Hs) as He.
  unfold exec_result. destruct op; vmgo; vmdone;
    eapply ok_set_ip, ok_set_top; eauto; apply elem_set_flags; try done; apply He.
Qed.

Lemma wp_exec_control op i s :
  vm_ok s ->
  (op = Op_RETURN -> forall e e' st, m_stack s = e :: e' :: st ->
     is_first (m_resultFlags e') = false -> m_lastResult e = m_lastResult e' -> U) ->
  wp (exec_control op i) next_ok s.
Proof.
  intros Hok Hret. destruct (ok_stack_cons _ _ Hok) as (e & st & Hs).
  pose proof (ok_top _ _ _ _ Hok Hs) as He.
  unfold exec_control. destruct op; vmgo; vmdone.
  cbn [set_stack set_ip m_stack]. rewrite Hs. cbn [tl]. destruct st as [|e' st]; vmgo; [done|].
  assert (vm_ok (set_stack (set_ip s (m_return_ip e)) (e' :: st))) as Hok'.
  { apply ok_set_stack; [done|by eapply (ok_tail _ s)|auto with wolf]. }
  eapply wp_initResult; [done|done|apply He| |].
  - intros Hf Hl. by eapply Hret.
  - intros s' Hs'. by vmgo.
Qed.

(** ** The interpreter *)

(** An iteration of the loop keeps the invariant, whatever the instruction word, and
    does something undefined only from a hazard. *)
Lemma wp_step fuel s :
  vm_ok s -> (hazard s = true -> U) ->
  wp (step fuel) next_ok s.
Proof.
  intros Hok Hhaz. destruct (ok_stack_cons _ _ Hok) as (e & st & Hs).
  unfold step. vmgo.
  assert (forall (f : unit -> MV (option bool)), wp (f tt) next_ok s ->
    wp (match m_logTrace s with
        | Some callback => lift (callback (m_ip s))
        | None => mret tt
        end) (fun a s' => wp (f a) next_ok s') s) as Htrace.
  { intros f Hf. destruct (m_logTrace s) as [cb|] eqn:Etr; vmgo; [|done]. apply wp_lift.
    destruct (cb (m_ip s)) as [[]|[]|] eqn:E; try done.
    by destruct (vo_trace _ _ Hok cb (m_ip s) what Etr). }
  apply (Htrace (fun _ => _)). clear Htrace. vmgo. apply wp_lift. unfold hazard in Hhaz. rewrite Hs in Hhaz.
  destruct (get_cases (code (m_program s)) (m_ip s)) as [[instr Eget]|[m Eget]];
    rewrite Eget in Hhaz |- *; [|done].
  destruct (skipped instr (m_cond s)); vmgo; [vmdone|].
  cbn [negb andb] in Hhaz. unfold exec_op.
  destruct (OpCode_of (opCode instr)) as [op|]; vmgo; [|done].
  assert (is_sel_idx op = true -> m_selectedSet e = None -> U) as Hsel.
  { intros Hop Hnone. apply Hhaz. destruct op; try discriminate Hop; by apply bool_decide_eq_true. }
  assert (op = Op_SELECT_KEPT_RESULT ->
          m_resultMap e !! argumentIndex instr = Some None -> U) as Hkept.
  { intros -> Hk. apply Hhaz. by apply bool_decide_eq_true. }
  assert (op = Op_RETURN -> forall e0 e' st', m_stack s = e0 :: e' :: st' ->
     is_first (m_resultFlags e') = false -> m_lastResult e0 = m_lastResult e' -> U) as Hret.
  { intros -> e0 e' st' Hs' Hf Hl. apply Hhaz. rewrite Hs in Hs'. simplify_eq.
    rewrite Hf. by apply bool_decide_eq_true. }
  destruct op; vmgo; vmdone;
    first [ by eapply wp_exec_print | by eapply wp_exec_sub | by eapply wp_exec_assign
          | by eapply wp_exec_iterator | by eapply wp_exec_scope | by eapply wp_exec_dbstm
          | by eapply wp_exec_result | by eapply wp_exec_control ].
Qed.

Lemma wp_loop fuel : forall s,
  vm_ok s -> (forall s', reaches s s' -> hazard s' = true -> U) ->
  wp (loop fuel) (fun _ _ => True) s.
Proof.
  induction fuel as [|fuel IH]; intros s Hok Hhaz; cbn [loop]; [apply wp_out_of_fuel|].
  apply wp_bind.
  assert (wp (step fuel) next_ok s) as Hstep by (apply wp_step; eauto using reaches_refl).
  destruct (step fuel s) as [s1 r] eqn:E. unfold VmInvariant.wp in Hstep |- *. rewrite E in Hstep |- *.
  destruct Hstep as (Hh & Ht & Hr). split_and!; [done|done|].
  destruct r as [[b|]|ex|]; cbn [fst snd] in *; try done.
  - split_and!; cbn; auto with wolf.
  - refine (IH s1 Hr _). intros s' Hs'. apply Hhaz. by eapply reaches_step.
Qed.

Lemma wp_execute fuel s :
  vm_ok s -> (forall s', reaches s s' -> hazard s' = true -> U) ->
  wp (execute fuel) (fun _ _ => True) s.
Proof.
  intros Hok Hhaz. unfold execute. vmgo.
  destruct (m_db_stm s), (m_stack s); vmgo; try done. by apply wp_loop.
Qed.
End Operations.

(** The states of an execution satisfy the invariant. *)
Lemma reaches_ok {D} `{TransactionExecStatemachine D} n0 (s s' : ProgramInstance D) :
  vm_ok n0 s -> reaches s s' -> vm_ok n0 s'.
Proof.
  intros Hok Hr. induction Hr as [|fuel s1 s2 s3 Hs _ IH]; [done|]. apply IH.
  destruct (wp_step n0 True (or_introl I) fuel s1 Hok (fun _ => I)) as (_ & _ & Hn).
  by rewrite Hs in Hn.
Qed.

(** A new machine over the tables [heap] satisfies the invariant. *)
Lemma vm_ok_make {D} program heap (d : D) logTrace :
  Forall ValueTupleSet.wf heap -> Forall (set_ok heap) (tuplesets program) ->
  (forall f ip w, logTrace = Some f -> f ip <> Throw (Undefined w)) ->
  vm_ok (length heap) (ProgramInstance_make program heap (Some d) logTrace).
Proof.
  intros Hwf Ht Htr. constructor; cbn; try done. constructor; [|done].
  constructor; cbn; try done.
Qed.

(** ** Properties *)

(** C19. Whatever its program, the machine keeps its invariant while it runs: from a
    state where all references are valid, tables are whole numbers of rows and the
    stack is not empty, every state at the head of an iteration of [execute] is again
    such a state. *)
Theorem execute_preserves_invariant {D} `{TransactionExecStatemachine D}
    program heap (d : D) logTrace s' :
  Forall ValueTupleSet.wf heap -> Forall (set_ok heap) (tuplesets program) ->
  (forall f ip w, logTrace = Some f -> f ip <> Throw (Undefined w)) ->
  reaches (ProgramInstance_make program heap (Some d) logTrace) s' ->
  vm_ok (length heap) s'.
Proof. intros Hwf Ht Htr. apply reaches_ok. by apply vm_ok_make. Qed.

(** C18. A program never modifies the tables it gets as input: after [execute], ended in
    whatever way, the input tables are what they were, and the references of the
    program to them are the same, although results are appended in place to tables
    the machine shares by reference. *)
Theorem execute_inputs_unchanged {D} `{TransactionExecStatemachine D}
    program heap (d : D) logTrace fuel :
  Forall ValueTupleSet.wf heap -> Forall (set_ok heap) (tuplesets program) ->
  (forall f ip w, logTrace = Some f -> f ip <> Throw (Undefined w)) ->
  let s' := fst (execute fuel (ProgramInstance_make program heap (Some d) logTrace)) in
  take (length heap) (m_heap s') = heap /\ tuplesets (m_program s') = tuplesets program.
Proof.
  intros Hwf Ht Htr s'. pose proof (vm_ok_make program heap d logTrace Hwf Ht Htr) as Hok.
  destruct (wp_execute _ True (or_introl I) fuel _ Hok (fun _ _ _ => I)) as (Hh & Htup & _).
  split; [|done]. subst s'. rewrite (heap_ext_take _ _ _ Hh) by apply Hok.
  cbn. by rewrite take_ge.
Qed.

(** C17. Memory safety of [execute]: over a database module that does nothing undefined,
    a program does something undefined (a null or dangling reference, an access
    behind the end of an array, a division by zero) only by reaching one of the three
    hazards, an access by index without a selected set, the selection of a kept null
    result, or the return of a result appended to itself. *)
Theorem execute_no_undefined {D} `{TransactionExecStatemachine D}
    program heap (d : D) logTrace fuel w :
  db_safe D ->
  Forall ValueTupleSet.wf heap -> Forall (set_ok heap) (tuplesets program) ->
  (forall f ip w, logTrace = Some f -> f ip <> Throw (Undefined w)) ->
  (forall s', reaches (ProgramInstance_make program heap (Some d) logTrace) s' ->
     hazard s' = false) ->
  snd (execute fuel (ProgramInstance_make program heap (Some d) logTrace)) <>
    Throw (Undefined w).
Proof.
  intros Hdb Hwf Ht Htr Hhaz Hw.
  pose proof (vm_ok_make program heap d logTrace Hwf Ht Htr) as Hok.
  destruct (wp_execute _ False (or_intror Hdb) fuel _ Hok) as (_ & _ & Hr).
  { intros s' Hs' Hh. rewrite Hhaz in Hh by done. done. }
  by rewrite Hw in Hr.
Qed.

(** ** Instances *)

(** A program that iterates over its input and prints a column of the first row. *)
Module Demo.

Definition instr (cond : CondCode) (op : OpCode) (arg : Z) : Z :=
  match instruction cond op arg with Ok i => i | _ => 0 end.

Definition input : ValueTupleSet.store :=
  [ValueTupleSet.of_rows ["id"; "name"]%string [[Int 1; Str "a"]; [Int 2; Str "b"]]].

Definition program : ProgramImage :=
  mkProgramImage
    [instr Co_ALWAYS Op_OPEN_ITER_TUPLESET 0; instr Co_IF_COND Op_OUTPUT_ITR_IDX 2;
     instr Co_ALWAYS Op_RETURN 0]
    [] [] [] [] [] [] [] [Some 0%nat].

Definition db : TableDb := db_init (fun _ _ => None).

End Demo.

Lemma TableDb_safe : db_safe TableDb.
Proof.
  constructor; cbn; unfold no_undefined, db_start, db_bindval, db_exec, db_columns,
    db_columnName, db_get, db_next, db_hasResult, db_getLastError; intros; cbn; try done;
    repeat case_match; cbn; congruence.
Qed.

Lemma execute_preserves_invariant_witness :
  exists s', reaches (ProgramInstance_make Demo.program Demo.input (Some Demo.db) None) s' /\
    m_ip s' = 1 /\ vm_ok 1 s'.
Proof.
  eexists. refine (_ : _ /\ _ /\ vm_ok (length Demo.input) _).
  assert (reaches (ProgramInstance_make Demo.program Demo.input (Some Demo.db) None)
    (fst (step 0 (ProgramInstance_make Demo.program Demo.input (Some Demo.db) None)))) as Hr.
  { eapply (reaches_step 0); [vm_compute; reflexivity|apply reaches_refl]. }
  split; [exact Hr|]. split; [reflexivity|].
  apply (execute_preserves_invariant Demo.program Demo.input Demo.db None).
  - repeat constructor. by exists 2%nat.
  - repeat constructor. by eexists.
  - discriminate.
  - exact Hr.
Defined.

Lemma execute_inputs_unchanged_witness :
  take 1 (m_heap (fst (execute 10 (ProgramInstance_make Demo.program Demo.input
    (Some Demo.db) None)))) = Demo.input.
Proof.
  apply (execute_inputs_unchanged Demo.program Demo.input Demo.db None 10).
  - repeat constructor. by exists 2%nat.
  - repeat constructor. by eexists.
  - discriminate.
Defined.

Lemma execute_no_undefined_witness :
  snd (execute 10 (ProgramInstance_make Demo.program Demo.input (Some Demo.db) None)) <>
    Throw (Undefined "null pointer").
Proof.
  apply (execute_no_undefined Demo.program Demo.input Demo.db None 10).
  - apply TableDb_safe.
  - repeat constructor. by exists 2%nat.
  - repeat constructor. by eexists.
  - discriminate.
  - intros s' Hr. inversion Hr as [|f1 a1 a2 a3 H1 Hr1]; subst; [reflexivity|].
    vm_compute in H1. injection H1 as <-.
    inversion Hr1 as [|f2 b1 b2 b3 H2 Hr2]; subst; [reflexivity|].
    vm_compute in H2. injection H2 as <-.
    inversion Hr2 as [|f3 c1 c2 c3 H3 Hr3]; subst; [reflexivity|].
    vm_compute in H3. discriminate H3.
Defined.

(** The hazard of a kept null result is real: after a statement that produced no
    result set, such as an INSERT, [KEEP_RESULT] stores the null pointer, and
    [SELECT_KEPT_RESULT], which unlike [SELECT_LAST_RESULT] does not check it,
    dereferences it: from every state of the machine whose frame has no last result. *)
Theorem select_kept_null {D} `{TransactionExecStatemachine D} (s : ProgramInstance D) e st idx :
  m_stack s = e :: st -> m_lastResult e = None ->
  let s1 := fst (exec_assign Op_KEEP_RESULT idx s) in
  snd (exec_assign Op_KEEP_RESULT idx s) = Ok None /\
  snd (exec_assign Op_SELECT_KEPT_RESULT idx s1) = Throw (Undefined "null pointer") /\
  snd (exec_assign Op_SELECT_LAST_RESULT idx s1) =
    Throw (RuntimeError "selecting result set that is not defined").
Proof.
  intros Hs Hl. cbn. unfold exec_assign, keptResult, top, set_top, mbind, M_bind.
  cbn. rewrite !Hs. cbn. rewrite Hl, lookup_insert_eq. cbn. auto.
Qed.

Lemma select_kept_null_witness :
  snd (exec_assign Op_SELECT_KEPT_RESULT 3
        (fst (exec_assign Op_KEEP_RESULT 3
          (ProgramInstance_make Demo.program Demo.input (Some Demo.db) None)))) =
    Throw (Undefined "null pointer").
Proof. by eapply (select_kept_null (ProgramInstance_make _ _ _ None)). Defined.
