(* ===== verification/VmExec.v ===== *)
(** * Execution of programs by the transaction virtual machine

    Functional theorems about the interpreter of ProgramInstance.v: the result of an
    execution does not depend on the fuel, the instructions that rewrite themselves
    in the local copy of the code stay equivalent to the original ones, and the loop
    the TDL compiler emits to print a result prints every row once. *)
From S2P Require Import Prelude InstructionSet Variant ValueTupleSet ExecStatemachine TableDb ProgramImage ProgramInstance VmInvariant.

(** ** Specification vocabulary *)

(** What printing a row of a result adds to the output. *)
Definition column_elements (name : string) (v : Variant) : list Output.Element :=
  [Output.mkElement Output.Open (Str name); Output.mkElement Output.Value v;
   Output.element Output.Close].

Definition row_elements (colnames : list string) (row : list Variant) : list Output.Element :=
  concat (zip_with column_elements colnames row).

(** ... as an element of an array. *)
Definition array_element (colnames : list string) (row : list Variant) : list Output.Element :=
  Output.mkElement Output.OpenArrayElement (Int 0) :: row_elements colnames row ++
  [Output.element Output.CloseArrayElement].

(** [runs m s n s']: with a budget of [m] iterations left for the loops inside an
    instruction, [n] iterations of the interpreter lead from [s] to [s']. *)
Definition runs {D} `{TransactionExecStatemachine D} (m : nat) (s : ProgramInstance D) (n : nat)
    (s' : ProgramInstance D) : Prop :=
  forall f, (m <= f)%nat -> loop (n + f) s = loop f s'.

(** The condition under which an instruction is executed. *)
Definition cond_holds (c : CondCode) (cond : bool) : bool :=
  match c with
  | Co_ALWAYS => true
  | Co_IF_COND => cond
  | Co_NOT_IF_COND => negb cond
  end.

(** Computations whose result, once there is one, does not change with more fuel. *)
Definition monotone {S A} (m : nat -> M S A) : Prop :=
  forall f f' s, (f <= f')%nat -> snd (m f s) <> OutOfFuel -> m f' s = m f s.

(** The instruction that addresses a column by index for the one that addresses it
    by name. *)
Definition idx_of_nam (op : OpCode) : option OpCode :=
  match op with
  | Op_OUTPUT_SEL_NAM => Some Op_OUTPUT_SEL_IDX
  | Op_OUTPUT_ITR_NAM => Some Op_OUTPUT_ITR_IDX
  | Op_SUB_ARG_SEL_NAM => Some Op_SUB_ARG_SEL_IDX
  | Op_SUB_ARG_ITR_NAM => Some Op_SUB_ARG_ITR_IDX
  | Op_DBSTM_BIND_SEL_NAM => Some Op_DBSTM_BIND_SEL_IDX
  | Op_DBSTM_BIND_ITR_NAM => Some Op_DBSTM_BIND_ITR_IDX
  | _ => None
  end.

(** The set a column name of the instruction refers to. *)
Definition nam_set (op : OpCode) (e : StackElement) : ValueTupleSetR :=
  match op with
  | Op_OUTPUT_ITR_NAM | Op_SUB_ARG_ITR_NAM | Op_DBSTM_BIND_ITR_NAM => m_valueSet e
  | _ => m_selectedSet e
  end.

(** ** Fuel *)

Lemma mono_const {S A} (m : M S A) : monotone (fun _ => m).
Proof. done. Qed.

Lemma mono_bind {S A B} (m : nat -> M S A) (k : nat -> A -> M S B) :
  monotone m -> (forall a, monotone (fun f => k f a)) -> monotone (fun f => m f ≫= k f).
Proof.
  intros Hm Hk f f' s Hf. rewrite !M_bind_eq. intros Hr.
  rewrite (Hm f f' s Hf); [|by intros E; destruct (m f s) as [? []]; cbn in *].
  destruct (m f s) as [s1 [a|ex|]]; try done. by apply Hk.
Qed.

Lemma mono_if {S A} (b : bool) (m m' : nat -> M S A) :
  monotone m -> monotone m' -> monotone (fun f => if b then m f else m' f).
Proof. by destruct b. Qed.

Section Fuel.
Context {D : Type} `{TransactionExecStatemachine D}.

Lemma mono_fetchRows n : forall rt, monotone (S := ProgramInstance D) (fun f => fetchRows f n rt).
Proof.
  intros rt f. revert rt. induction f as [|f IH]; intros rt f' s Hf; [done|].
  destruct f' as [|f']; [lia|]. cbn [fetchRows]. rewrite !M_bind_eq.
  destruct (fetchRow 0 n s) as [s1 [col|ex|]]; try done. rewrite !M_bind_eq.
  destruct (lift (ValueTupleSet.push rt col) s1) as [s2 [rt'|ex|]]; try done. rewrite !M_bind_eq.
  destruct (db_call stm_next s2) as [s3 [[]|ex|]]; try done. intros Hr. apply IH; [lia|done].
Qed.

Ltac mono_consts := try apply mono_const; try (intros ?; apply mono_const).

Lemma mono_fetchDatabaseResult n :
  monotone (S := ProgramInstance D) (fun f => fetchDatabaseResult f n).
Proof.
  unfold fetchDatabaseResult. apply mono_bind; mono_consts. intros cs.
  apply mono_bind; mono_consts. intros has. apply mono_bind; mono_consts.
  destruct has; [apply mono_fetchRows|mono_consts].
Qed.

Lemma mono_exec_op i arg : monotone (S := ProgramInstance D) (fun f => exec_op f i arg).
Proof.
  unfold exec_op. destruct (OpCode_of (opCode i)) as [op|]; mono_consts.
  destruct op; try apply mono_const. all: unfold exec_dbstm; try apply mono_const.
  apply mono_bind; mono_consts. intros ok. apply mono_if; mono_consts.
  apply mono_bind; mono_consts. intros n. apply mono_bind; mono_consts.
  destruct n; mono_consts. apply mono_bind; [apply mono_fetchDatabaseResult|mono_consts].
Qed.

Lemma mono_step : monotone (S := ProgramInstance D) step.
Proof.
  unfold step. do 4 (apply mono_bind; mono_consts; intros ?).
  apply mono_if; mono_consts. apply mono_exec_op.
Qed.

Lemma mono_loop : monotone (S := ProgramInstance D) loop.
Proof.
  intros f. induction f as [|f IH]; intros f' s Hf; [done|].
  destruct f' as [|f']; [lia|]. cbn [loop]. rewrite !M_bind_eq.
  destruct (step f s) as [s1 r] eqn:E. intros Hr.
  rewrite (mono_step f f' s) by (try lia; rewrite E; by destruct r). rewrite E.
  destruct r as [[b|]|ex|]; try done. apply IH; [lia|done].
Qed.

Lemma mono_execute : monotone (S := ProgramInstance D) execute.
Proof.
  unfold execute. apply mono_bind; mono_consts. intros s.
  destruct (m_db_stm s), (m_stack s); mono_consts. apply mono_loop.
Qed.

(** ** Steps *)

Lemma runs_refl m (s : ProgramInstance D) : runs m s 0 s.
Proof. done. Qed.

Lemma runs_trans m1 m2 s1 n1 s2 n2 s3 :
  runs m1 s1 n1 s2 -> runs m2 s2 n2 s3 -> runs (m1 + m2) s1 (n1 + n2) s3.
Proof.
  intros H1 H2 f Hf. replace (n1 + n2 + f)%nat with (n1 + (n2 + f))%nat by lia.
  rewrite H1 by lia. apply H2. lia.
Qed.

Lemma runs_step m s s' :
  (forall f, (m <= f)%nat -> step f s = (s', Ok None)) -> runs m s 1 s'.
Proof. intros Hs f Hf. cbn [Nat.add loop]. by rewrite M_bind_eq, Hs. Qed.

(** The instruction at the instruction pointer. *)
Definition at_instr (s : ProgramInstance D) (c : CondCode) (op : OpCode) (arg : Z) : Prop :=
  0 <= m_ip s /\ 0 <= arg /\
  exists i, instruction c op arg = Ok i /\ code (m_program s) !! Z.to_nat (m_ip s) = Some i.

Lemma skipped_cond c op arg i cond :
  0 <= arg -> instruction c op arg = Ok i -> skipped i cond = negb (cond_holds c cond).
Proof.
  intros Ha Hi. destruct (instruction_decode _ _ _ _ Ha Hi) as (Hc & _). unfold skipped.
  rewrite Hc. by destruct c, cond.
Qed.

Lemma step_skip f s c op arg e st :
  m_stack s = e :: st -> m_logTrace s = None -> at_instr s c op arg ->
  cond_holds c (m_cond s) = false ->
  step f s = (set_ip s (u32 (m_ip s + 1)), Ok None).
Proof.
  intros Hs Ht (Hip & Ha & i & Hi & Hc) Hcond. unfold step, top, mbind, M_bind. cbn.
  rewrite Hs. cbn. rewrite Ht. cbn. rewrite (get_lookup _ _ _ Hip Hc).
  by rewrite (skipped_cond _ _ _ _ _ Ha Hi), Hcond.
Qed.

Lemma step_exec f s c op arg e st :
  m_stack s = e :: st -> m_logTrace s = None -> at_instr s c op arg ->
  cond_holds c (m_cond s) = true ->
  exists i, instruction c op arg = Ok i /\ OpCode_of (opCode i) = Some op /\
    condCode i = CondCode_val c /\ argumentIndex i = arg /\ step f s = exec_op f i arg s.
Proof.
  intros Hs Ht (Hip & Ha & i & Hi & Hc) Hcond. exists i.
  destruct (instruction_decode _ _ _ _ Ha Hi) as (Hcc & Hop & Harg & _).
  rewrite Hop, OpCode_of_val. split_and!; try done.
  unfold step, top, mbind, M_bind. cbn.
  rewrite Hs. cbn. rewrite Ht. cbn. rewrite (get_lookup _ _ _ Hip Hc).
  by rewrite (skipped_cond _ _ _ _ _ Ha Hi), Hcond, Harg.
Qed.

Lemma runs_exec m s s' c op arg e st :
  m_stack s = e :: st -> m_logTrace s = None -> at_instr s c op arg ->
  cond_holds c (m_cond s) = true ->
  (forall f i, (m <= f)%nat -> OpCode_of (opCode i) = Some op -> exec_op f i arg s = (s', Ok None)) ->
  runs m s 1 s'.
Proof.
  intros Hs Ht Hat Hc Hx. apply runs_step. intros f Hf.
  destruct (step_exec f s c op arg e st Hs Ht Hat Hc) as (i & _ & Hof & _ & _ & ->). auto.
Qed.

(** ** Calls of the database *)

Lemma db_call_eq {A} (m : M D A) (s : ProgramInstance D) d d' r :
  m_db_stm s = Some d -> m d = (d', r) -> db_call m s = (set_db_stm s (Some d'), r).
Proof. intros Hd Hm. unfold db_call. by rewrite Hd, Hm. Qed.

Lemma db_call_pure {A} (m : M D A) (s : ProgramInstance D) d a :
  m_db_stm s = Some d -> m d = (d, Ok a) -> db_call m s = (s, Ok a).
Proof.
  intros Hd Hm. rewrite (db_call_eq _ _ _ _ _ Hd Hm). destruct s. cbn in *. by subst.
Qed.

(** ** Rewriting of column names to column indices *)

(** The machine with the instruction at the instruction pointer replaced. *)
Definition patched (s : ProgramInstance D) (w : Z) : ProgramInstance D :=
  set_program s (set_code (m_program s) (<[Z.to_nat (m_ip s) := w]> (code (m_program s)))).

Lemma nam_resolved {A} r arg instr op' idx w c (k : Z -> M (ProgramInstance D) A) s e st :
  m_stack s = e :: st -> columnIndex (r e) arg s = (s, Ok idx) -> condCode instr = CondCode_val c ->
  instruction c op' idx = Ok w -> 0 <= m_ip s < Z.of_nat (length (code (m_program s))) ->
  (e ← top; argidx ← columnIndex (r e) arg; _ ← rewrite_instr instr op' argidx; k argidx) s =
  k idx (patched s w).
Proof.
  intros Hs Hci Hcc Hw Hip. unfold top at 1. rewrite M_bind_eq, Hs, M_bind_eq, Hci, M_bind_eq.
  unfold rewrite_instr, instruction in *. rewrite Hcc.
  unfold mbind, M_bind, gets, id, lift, ProgramCode.assign. rewrite Hw.
  destruct (Z.leb_spec (Z.of_nat (length (code (m_program s)))) (m_ip s)); [lia|]. reflexivity.
Qed.
End Fuel.

(** ** Properties *)



(** C27. The instructions that address a column by name rewrite themselves, in the local
    copy of the code, to the instruction that addresses it by index.  This is not
    observable: as long as the name resolves, in the set then selected or iterated, to
    the index written, the next iteration gives the same result and the same state
    whether it finds the original or the rewritten instruction. *)
Theorem name_access_rewritten {D} `{TransactionExecStatemachine D} f (s : ProgramInstance D)
    e st c op op' arg idx w :
  m_stack s = e :: st -> m_logTrace s = None -> at_instr s c op arg ->
  cond_holds c (m_cond s) = true -> idx_of_nam op = Some op' ->
  columnIndex (nam_set op e) arg s = (s, Ok idx) -> 0 <= idx -> instruction c op' idx = Ok w ->
  step f s = step f (patched s w).
Proof.
  intros Hs Ht Hat Hcond Hop Hci Hidx Hw.
  destruct (step_exec f s c op arg e st Hs Ht Hat Hcond) as (i & Hi & Hof & Hcc & Harg & ->).
  destruct Hat as (Hip & Ha & i' & Hi' & Hl). apply lookup_lt_Some in Hl.
  assert (at_instr (patched s w) c op' idx) as Hat'.
  { split_and!; [done|done|]. exists w. split; [done|]. cbn.
    by apply list_lookup_insert_eq. }
  destruct (step_exec f (patched s w) c op' idx e st Hs Ht Hat' Hcond)
    as (w' & Hw' & Hof' & _ & _ & ->).
  assert (w' = w) as -> by congruence.
  unfold exec_op. rewrite Hof, Hof'.
  destruct op; try discriminate Hop; injection Hop as <-;
    cbn [exec_print exec_sub exec_dbstm nam_set] in *.
  all: first [ erewrite (nam_resolved m_selectedSet) by (try done; lia)
             | erewrite (nam_resolved m_valueSet) by (try done; lia) ]; reflexivity.
Qed.

Module NamDemo.

(** The iterator on the first row of a table with two columns, and a program that
    prints the second one by name. *)
Definition program : ProgramImage :=
  mkProgramImage
    [Demo.instr Co_ALWAYS Op_OPEN_ITER_TUPLESET 0; Demo.instr Co_ALWAYS Op_OUTPUT_ITR_NAM 1]
    [] ["NAME"]%string [] [] [] [] [] [Some 0%nat].

Definition state : ProgramInstance TableDb :=
  fst (step 0 (ProgramInstance_make program Demo.input (Some Demo.db) None)).

End NamDemo.

Lemma name_access_rewritten_witness :
  snd (step 5 NamDemo.state) = Ok None /\
  step 5 NamDemo.state = step 5 (patched NamDemo.state (Demo.instr Co_ALWAYS Op_OUTPUT_ITR_IDX 2)).
Proof.
  split; [vm_compute; reflexivity|].
  eapply (name_access_rewritten 5 NamDemo.state _ _ Co_ALWAYS Op_OUTPUT_ITR_NAM
            Op_OUTPUT_ITR_IDX 1 2).
  - reflexivity.
  - reflexivity.
  - split_and!; [vm_compute; congruence|lia|]. eexists. split; reflexivity.
  - reflexivity.
  - reflexivity.
  - reflexivity.
  - lia.
  - reflexivity.
Defined.

(** ** Printing the rows of a table *)

Section Foreach.
Context {D : Type} `{TransactionExecStatemachine D}.
Variables (p : ProgramImage) (h : ValueTupleSet.store) (fr : SubroutineFrame.t)
  (e : StackElement) (st : list StackElement) (o : Output.t) (err : DatabaseError)
  (d : option D).
Variables (l : nat) (colnames : list string) (rows : list (list Variant)).
Hypothesis Hset : h !! l = Some (ValueTupleSet.of_rows colnames rows).
Hypothesis Hrows : ValueTupleSet.rows_ok colnames rows.
Hypothesis Hcols : colnames <> [].

(** The machine in a frame that iterates over the table, before row [k]. *)
Definition at_row (ip : Z) (cond : bool) (k : nat) (sink : list Output.Element)
    : ProgramInstance D :=
  mkProgramInstance p h d ip fr cond
    (set_iterator e (Some l) (ValueTupleSetFacts.row_iterator l colnames k)
       (ValueTupleSet.end_ l (ValueTupleSet.of_rows colnames rows)) :: st)
    (o ++ [sink]) err None.

#[local] Set Default Proof Using "All".

Lemma output_add_at ip cond k sink x :
  output_add x (at_row ip cond k sink) = (at_row ip cond k (sink ++ [x]), Ok tt).
Proof.
  unfold output_add, mbind, M_bind, gets, lift, modify, id. cbn.
  by rewrite OutputFacts.add_last.
Qed.

Lemma set_of_at ip cond k sink :
  set_of (Some l) (at_row ip cond k sink) =
  (at_row ip cond k sink, Ok (l, ValueTupleSet.of_rows colnames rows)).
Proof. unfold set_of, ValueTupleSet.deref. cbn [m_heap at_row]. by rewrite Hset. Qed.

Lemma printColumn_at ip cond k sink i row name x :
  rows !! k = Some row -> colnames !! i = Some name -> row !! i = Some x ->
  printColumn (set_iterator e (Some l) (ValueTupleSetFacts.row_iterator l colnames k)
      (ValueTupleSet.end_ l (ValueTupleSet.of_rows colnames rows))) (S i)
    (at_row ip cond k sink) =
  (at_row ip cond k (sink ++ column_elements name x), Ok tt).
Proof.
  intros Hr Hn Hx. unfold printColumn. rewrite M_bind_eq.
  change (m_valueSet (set_iterator _ ?r _ _)) with r. rewrite set_of_at. cbv beta iota.
  rewrite M_bind_eq. unfold lift at 1. rewrite (ValueTupleSetFacts.columnName_lookup
    (ValueTupleSet.of_rows colnames rows) i name Hn).
  cbv beta iota. rewrite M_bind_eq, output_add_at. cbv beta iota.
  rewrite M_bind_eq. unfold gets at 1, id. cbv beta iota. rewrite M_bind_eq.
  unfold lift at 1. cbn [m_heap at_row].
  change (m_valueIter (set_iterator _ _ ?it _)) with it.
  apply lookup_lt_Some in Hn as Hlt. apply lookup_lt_Some in Hr as Hk.
  rewrite (ValueTupleSetFacts.column_row _ _ _ _ _ _ Hset Hrows) by lia.
  rewrite Hr. cbn [mbind option_bind]. replace (S i - 1)%nat with i by lia. rewrite Hx.
  cbv beta iota. rewrite M_bind_eq, !output_add_at. by rewrite <- !app_assoc.
Qed.

Lemma printColumns_at ip cond k row : rows !! k = Some row ->
  forall n j sink, (j + n = length colnames)%nat ->
  for_each (seq (S j) n) (printColumn (set_iterator e (Some l)
      (ValueTupleSetFacts.row_iterator l colnames k)
      (ValueTupleSet.end_ l (ValueTupleSet.of_rows colnames rows)))) (at_row ip cond k sink) =
  (at_row ip cond k (sink ++ row_elements (drop j colnames) (drop j row)), Ok tt).
Proof.
  intros Hr n. pose proof (Forall_lookup_1 _ _ _ _ Hrows Hr) as Hlen. cbn in Hlen.
  induction n as [|n IH]; intros j sink Hj; cbn [seq for_each].
  - rewrite drop_ge by lia. cbn. by rewrite app_nil_r.
  - destruct (lookup_lt_is_Some_2 colnames j) as [name Hn]; [lia|].
    destruct (lookup_lt_is_Some_2 row j) as [x Hx]; [lia|].
    rewrite M_bind_eq, (printColumn_at _ _ _ _ _ _ _ _ Hr Hn Hx), IH by lia.
    rewrite (drop_S colnames name j Hn), (drop_S row x j Hx). unfold row_elements. cbn [zip_with concat].
    by rewrite <- app_assoc.
Qed.

Lemma top_at ip cond k sink :
  top (at_row ip cond k sink) =
  (at_row ip cond k sink, Ok (set_iterator e (Some l) (ValueTupleSetFacts.row_iterator l colnames k)
       (ValueTupleSet.end_ l (ValueTupleSet.of_rows colnames rows)))).
Proof. reflexivity. Qed.

Lemma iter_end k :
  (k <= length rows)%nat ->
  ValueTupleSet.isequal (ValueTupleSetFacts.row_iterator l colnames k)
    (ValueTupleSet.end_ l (ValueTupleSet.of_rows colnames rows)) = (k =? length rows)%nat.
Proof. by apply ValueTupleSetFacts.row_iterator_end. Qed.

Lemma printIteratorColumn_at ip cond k row sink :
  rows !! k = Some row ->
  printIteratorColumn (at_row ip cond k sink) =
  (at_row ip true k (sink ++ row_elements colnames row), Ok tt).
Proof.
  intros Hr. apply lookup_lt_Some in Hr as Hk. unfold printIteratorColumn.
  rewrite M_bind_eq, top_at. cbv beta iota zeta.
  change (m_valueIter (set_iterator _ _ ?it _)) with it.
  change (m_valueEnd (set_iterator _ _ _ ?it)) with it.
  rewrite iter_end by lia. rewrite (proj2 (Nat.eqb_neq _ _)) by lia. cbn [negb].
  rewrite M_bind_eq. change (modify _ (at_row ip cond k sink)) with (at_row ip true k sink, Ok tt).
  cbv beta iota. rewrite M_bind_eq. change (m_valueSet (set_iterator _ ?r _ _)) with r.
  rewrite set_of_at. cbv beta iota.
  rewrite (printColumns_at _ _ _ row Hr _ 0) by reflexivity. done.
Qed.

(** The instruction list [is] stands in the code from the address [ip] on. *)
Definition code_at (ip : Z) (instrs : list (CondCode * OpCode * Z)) : Prop :=
  forall j c op arg, instrs !! j = Some (c, op, arg) -> 0 <= arg /\
    exists i, instruction c op arg = Ok i /\ code p !! Z.to_nat (ip + Z.of_nat j) = Some i.

Lemma code_at_instr ip instrs j c op arg cond k sink :
  0 <= ip -> code_at ip instrs -> instrs !! j = Some (c, op, arg) ->
  at_instr (at_row (ip + Z.of_nat j) cond k sink) c op arg.
Proof.
  intros Hip Hc Hj. destruct (Hc _ _ _ _ Hj) as (Ha & i & Hi & Hl).
  split_and!; [cbn; lia|done|]. by exists i.
Qed.

(** One instruction whose effect on the machine is known. *)
Lemma runs_instr ip cond k sink c op arg s' :
  at_instr (at_row ip cond k sink) c op arg -> cond_holds c cond = true ->
  (forall f i, OpCode_of (opCode i) = Some op -> exec_op f i arg (at_row ip cond k sink) =
     (s', Ok None)) ->
  runs 0 (at_row ip cond k sink) 1 s'.
Proof.
  intros Hat Hc Hs. eapply runs_exec; [reflexivity|reflexivity|done|done|]. intros f i _. apply Hs.
Qed.

Lemma inc_ip_at ip cond k sink :
  0 <= ip -> ip + 1 < 2 ^ 32 ->
  inc_ip (at_row ip cond k sink) = (at_row (ip + 1) cond k sink, Ok tt).
Proof.
  intros H0 H1. unfold inc_ip, modify, set_ip, at_row. cbn. by rewrite wrap_small by lia.
Qed.

Lemma next_at (s' : ProgramInstance D) :
  (_ ← inc_ip; mret None) s' = (fst (inc_ip s'), Ok (@None bool)).
Proof. reflexivity. Qed.

Lemma exec_NEXT_at f i ip cond k sink :
  OpCode_of (opCode i) = Some Op_NEXT -> (k < length rows)%nat -> 0 <= ip -> ip + 1 < 2 ^ 32 ->
  exec_op f i 0 (at_row ip cond k sink) =
  (at_row (ip + 1) (negb (S k =? length rows)%nat) (S k) sink, Ok None).
Proof.
  intros Hof Hk H0 H1. unfold exec_op. rewrite Hof. unfold exec_iterator.
  rewrite M_bind_eq, top_at. cbv beta iota. rewrite M_bind_eq.
  change (m_valueIter (set_iterator _ _ ?it _)) with it.
  change (m_valueEnd (set_iterator _ _ _ ?it)) with it.
  rewrite iter_end, (proj2 (Nat.eqb_neq _ _)) by lia.
  unfold gets, id, lift, modify. rewrite !M_bind_eq. cbn [m_heap at_row].
  rewrite (ValueTupleSetFacts.incr_row _ _ _ _ _ Hset). cbv beta iota.
  rewrite M_bind_eq. unfold set_top. cbn [m_stack at_row]. cbv beta iota.
  rewrite iter_end by lia. rewrite next_at. do 2 f_equal.
  unfold inc_ip, modify. cbn. by rewrite wrap_small by lia.
Qed.

(** The loop over the rows that the TDL compiler (Tdl2vmTranslator::output_statement_result)
    and singleStatementProgram emit, from the address [start] on. *)
Definition print_loop (start : Z) : list (CondCode * OpCode * Z) :=
  [(Co_ALWAYS, Op_OUTPUT_OPEN_ELEM, 0); (Co_ALWAYS, Op_OUTPUT_ITR_COLUMN, 0);
   (Co_ALWAYS, Op_OUTPUT_CLOSE_ELEM, 0); (Co_ALWAYS, Op_NEXT, 0);
   (Co_IF_COND, Op_GOTO, start)].

Lemma runs_row start cond k row sink :
  0 <= start -> start + 5 < 2 ^ 32 -> code_at start (print_loop start) -> rows !! k = Some row ->
  runs 0 (at_row start cond k sink) 4
    (at_row (start + 4) (negb (S k =? length rows)%nat) (S k) (sink ++ array_element colnames row)).
Proof.
  intros H0 H1 Hc Hr. apply lookup_lt_Some in Hr as Hk.
  apply (runs_trans 0 0 _ 1 (at_row (start + 1) cond k
    (sink ++ [Output.mkElement Output.OpenArrayElement (Int 0)])) 3).
  { eapply (runs_instr _ _ _ _ Co_ALWAYS Op_OUTPUT_OPEN_ELEM 0); [|done|].
    - replace start with (start + Z.of_nat 0) at 1 by lia. by eapply code_at_instr.
    - intros f i Hof. unfold exec_op. rewrite Hof. cbn [exec_print].
      rewrite M_bind_eq, output_add_at. cbv beta iota. rewrite next_at, inc_ip_at by lia. done. }
  apply (runs_trans 0 0 _ 1 (at_row (start + 2) true k
    (sink ++ [Output.mkElement Output.OpenArrayElement (Int 0)] ++ row_elements colnames row)) 2).
  { eapply (runs_instr _ _ _ _ Co_ALWAYS Op_OUTPUT_ITR_COLUMN 0); [|done|].
    - replace (start + 1) with (start + Z.of_nat 1) at 1 by lia. by eapply code_at_instr.
    - intros f i Hof. unfold exec_op. rewrite Hof. cbn [exec_print].
      rewrite M_bind_eq, (printIteratorColumn_at _ _ _ _ _ Hr). cbv beta iota.
      rewrite next_at, inc_ip_at by lia. rewrite <- app_assoc. by rewrite <- Z.add_assoc. }
  apply (runs_trans 0 0 _ 1 (at_row (start + 3) true k (sink ++ array_element colnames row)) 1).
  { eapply (runs_instr _ _ _ _ Co_ALWAYS Op_OUTPUT_CLOSE_ELEM 0); [|done|].
    - replace (start + 2) with (start + Z.of_nat 2) at 1 by lia. by eapply code_at_instr.
    - intros f i Hof. unfold exec_op. rewrite Hof. cbn [exec_print].
      rewrite M_bind_eq, output_add_at. cbv beta iota. rewrite next_at, inc_ip_at by lia.
      unfold array_element. rewrite <- !app_assoc. cbn [app]. by rewrite <- Z.add_assoc. }
  eapply (runs_instr _ _ _ _ Co_ALWAYS Op_NEXT 0); [|done|].
  - replace (start + 3) with (start + Z.of_nat 3) at 1 by lia. by eapply code_at_instr.
  - intros f i Hof. rewrite exec_NEXT_at by (try done; lia). by rewrite <- Z.add_assoc.
Qed.

Lemma runs_goto start cond k sink :
  0 <= start -> start + 5 < 2 ^ 32 -> code_at start (print_loop start) ->
  start <= Z.of_nat (length (code p)) < 2 ^ 32 ->
  runs 0 (at_row (start + 4) cond k sink) 1
    (at_row (if cond then start else start + 5) cond k sink).
Proof.
  intros H0 H1 Hc Hlen.
  assert (at_instr (at_row (start + 4) cond k sink) Co_IF_COND Op_GOTO start) as Hat.
  { replace (start + 4) with (start + Z.of_nat 4) at 1 by lia. by eapply code_at_instr. }
  destruct cond.
  - eapply (runs_instr _ _ _ _ Co_IF_COND Op_GOTO start); [done|done|].
    intros f i Hof. unfold exec_op. rewrite Hof. cbn [exec_control].
    rewrite M_bind_eq. unfold gets, id. rewrite M_bind_eq. cbn [m_program at_row].
    unfold ProgramCode.size. rewrite wrap_small by lia.
    unfold throw_if. destruct (Z.ltb_spec (Z.of_nat (length (code p))) start); [lia|]. done.
  - apply runs_step. intros f _.
    rewrite (step_skip f (at_row (start + 4) false k sink) Co_IF_COND Op_GOTO start _ st
      eq_refl eq_refl Hat eq_refl).
    unfold set_ip, at_row. cbn. rewrite wrap_small by lia.
    by rewrite <- Z.add_assoc.
Qed.

(** The loop prints the rows from row [k] on. *)
Lemma runs_print_loop start :
  0 <= start -> start + 5 < 2 ^ 32 -> code_at start (print_loop start) ->
  start <= Z.of_nat (length (code p)) < 2 ^ 32 ->
  forall n k cond sink, (k + S n = length rows)%nat ->
  runs 0 (at_row start cond k sink) (5 * S n)
    (at_row (start + 5) false (length rows)
       (sink ++ concat (map (array_element colnames) (drop k rows)))).
Proof.
  intros H0 H1 Hc Hlen n. induction n as [|n IH]; intros k cond sink Hk.
  all: destruct (lookup_lt_is_Some_2 rows k) as [row Hr]; [lia|].
  all: pose proof (runs_row start cond k row sink H0 H1 Hc Hr) as Hrow.
  - rewrite (proj2 (Nat.eqb_eq _ _)) in Hrow by lia. cbn [negb] in Hrow.
    rewrite (drop_S _ _ _ Hr), drop_ge by lia. cbn [map concat]. rewrite app_nil_r.
    replace (length rows) with (S k) at 1 by lia.
    exact (runs_trans 0 0 _ 4 _ 1 _ Hrow (runs_goto start false _ _ H0 H1 Hc Hlen)).
  - rewrite (proj2 (Nat.eqb_neq _ _)) in Hrow by lia. cbn [negb] in Hrow.
    rewrite (drop_S _ _ _ Hr). cbn [map concat]. rewrite app_assoc.
    pose proof (runs_trans 0 0 _ 4 _ 1 _ Hrow (runs_goto start true _ _ H0 H1 Hc Hlen)) as Hone.
    replace (5 * S (S n))%nat with (5 + 5 * S n)%nat by lia.
    apply (runs_trans 0 0 _ 5 _ _ _ Hone). apply IH. lia.
Qed.
End Foreach.

(** ** Fetching a result from a lawful database *)

Section Fetch.
Context {D : Type} `{TransactionExecLaws D}.
Implicit Type s : ProgramInstance D.

Lemma fetchColumnNames_result s d colnames rows :
  m_db_stm s = Some d -> ResultAt d colnames rows ->
  forall n ii, (ii + n = length colnames)%nat ->
  fetchColumnNames ii n s = (s, Ok (drop ii colnames)).
Proof.
  intros Hd Hr n. induction n as [|n IH]; intros ii Hn; cbn [fetchColumnNames].
  - by rewrite drop_ge by lia.
  - destruct (lookup_lt_is_Some_2 colnames ii) as [c Hc]; [lia|].
    rewrite M_bind_eq, Nat.add_1_r, (db_call_pure _ _ d (Some c)), M_bind_eq, IH, (drop_S _ _ _ Hc)
      by (try done; try lia; by eapply law_columnName). done.
Qed.

Lemma fetchRow_result s d colnames row rows :
  m_db_stm s = Some d -> ResultAt d colnames (row :: rows) ->
  forall n ii, (ii + n = length row)%nat ->
  fetchRow ii n s = (s, Ok (drop ii row)).
Proof.
  intros Hd Hr n. induction n as [|n IH]; intros ii Hn; cbn [fetchRow].
  - by rewrite drop_ge by lia.
  - destruct (lookup_lt_is_Some_2 row ii) as [v Hv]; [lia|].
    rewrite M_bind_eq, Nat.add_1_r, (db_call_pure _ _ d v), M_bind_eq, IH, (drop_S _ _ _ Hv)
      by (try done; try lia; by eapply law_get). done.
Qed.

Lemma fetchRows_result colnames rows row : forall fuel d s done,
  m_db_stm s = Some d -> ResultAt d colnames (row :: rows) -> (length rows < fuel)%nat ->
  exists d', ResultAt d' colnames [] /\
    fetchRows fuel (length colnames) (ValueTupleSet.of_rows colnames done) s =
    (set_db_stm s (Some d'), Ok (ValueTupleSet.of_rows colnames (done ++ row :: rows))).
Proof.
  revert row. induction rows as [|row' rows IH]; intros row fuel d s done Hd Hr Hf;
    (destruct fuel as [|fuel]; [lia|]); cbn [fetchRows].
  all: pose proof (law_rows _ _ _ Hr) as Hlen; inversion Hlen as [|? ? Hrow Hrest]; subst.
  all: rewrite M_bind_eq, (fetchRow_result s d colnames row _ Hd Hr _ 0) by lia.
  all: rewrite M_bind_eq; unfold lift;
    change (drop 0 row) with row; rewrite (ValueTupleSetFacts.push_of_rows _ _ row) by done.
  all: destruct (law_next _ _ _ _ Hr) as (d' & Hnext & Hr').
  all: rewrite M_bind_eq, (db_call_eq _ _ _ _ _ Hd Hnext).
  - exists d'. split; [done|]. by rewrite bool_decide_eq_true_2.
  - rewrite bool_decide_eq_false_2 by done. cbn [negb].
    destruct (IH row' fuel d' (set_db_stm s (Some d')) (done ++ [row])) as (d'' & Hr'' & He);
      [done|done|cbn in Hf; lia|].
    exists d''. split; [done|]. rewrite He. by rewrite <- app_assoc.
Qed.

Lemma fetchDatabaseResult_result fuel s d colnames rows :
  m_db_stm s = Some d -> ResultAt d colnames rows -> (length rows < fuel)%nat ->
  exists d', fetchDatabaseResult fuel (length colnames) s =
    (set_heap (set_db_stm s (Some d')) (m_heap s ++ [ValueTupleSet.of_rows colnames rows]),
     Ok (Some (length (m_heap s)))).
Proof.
  intros Hd Hr Hf. unfold fetchDatabaseResult.
  rewrite M_bind_eq, (fetchColumnNames_result s d colnames rows Hd Hr _ 0) by lia.
  rewrite M_bind_eq, (db_call_pure _ _ _ _ Hd (law_hasResult _ _ _ Hr)). rewrite M_bind_eq.
  destruct rows as [|row rows].
  - exists d. cbn. destruct s. cbn in *. by subst.
  - rewrite bool_decide_eq_false_2 by done. cbn [negb].
    destruct (fetchRows_result colnames rows row fuel d s [] Hd Hr) as (d' & _ & He);
      [cbn in Hf; lia|].
    exists d'. change (ValueTupleSet.make (drop 0 colnames)) with (ValueTupleSet.of_rows colnames []).
    rewrite He. reflexivity.
Qed.
End Fetch.

(** C26. The loop emitted to print a result (open an array element, print the columns,
    close the element, advance, jump back while there is a row) prints, from the first
    row on, every row of the table exactly once and in order, each as an array element
    of its named columns; it takes five instructions per row, ends behind the loop
    with the condition flag cleared, and changes nothing else of the machine. *)
Theorem print_loop_prints_rows {D} `{TransactionExecStatemachine D} p h fr e st o err (d : option D)
    l colnames rows start cond sink :
  h !! l = Some (ValueTupleSet.of_rows colnames rows) ->
  ValueTupleSet.rows_ok colnames rows -> colnames <> [] -> rows <> [] ->
  0 <= start -> start + 5 < 2 ^ 32 -> start <= Z.of_nat (length (code p)) < 2 ^ 32 ->
  code_at p start (print_loop start) ->
  runs 0 (at_row p h fr e st o err d l colnames rows start cond 0 sink) (5 * length rows)
    (at_row p h fr e st o err d l colnames rows (start + 5) false (length rows)
       (sink ++ concat (map (array_element colnames) rows))).
Proof.
  intros Hset Hrows Hcols Hne H0 H1 Hlen Hc. destruct rows as [|r rows]; [done|].
  exact (runs_print_loop p h fr e st o err d l colnames (r :: rows) Hset Hrows Hcols start H0 H1
           Hc Hlen (length rows) 0 cond sink eq_refl).
Qed.

(** The loop count (variable '#') in the [k]-th iteration over a table with [n] columns is
    [k * n + 1]: the iterator counts values, not rows, so the loop count is the number
    of the row only for tables with one column. *)
Theorem loopcnt_counts_values {D} `{TransactionExecStatemachine D} (s : ProgramInstance D) e st l
    colnames k :
  m_stack s = e :: st -> m_valueSet e = Some l ->
  m_valueIter e = ValueTupleSetFacts.row_iterator l colnames k ->
  loopcntArgument s = (s, Ok (UInt (Z.of_nat (k * length colnames + 1)))).
Proof.
  intros Hs Hv Hi. unfold loopcntArgument. rewrite M_bind_eq. unfold top. rewrite Hs.
  by rewrite Hv, Hi.
Qed.

Module LoopDemo.

Definition start : Z := 2.

Definition program : ProgramImage :=
  mkProgramImage
    [Demo.instr Co_ALWAYS Op_OPEN_ITER_TUPLESET 0; Demo.instr Co_NOT_IF_COND Op_GOTO 7;
     Demo.instr Co_ALWAYS Op_OUTPUT_OPEN_ELEM 0; Demo.instr Co_ALWAYS Op_OUTPUT_ITR_COLUMN 0;
     Demo.instr Co_ALWAYS Op_OUTPUT_CLOSE_ELEM 0; Demo.instr Co_ALWAYS Op_NEXT 0;
     Demo.instr Co_IF_COND Op_GOTO 2]
    [] [] [] [] [] [] [] [Some 0%nat].

(** The second row of a table with two columns. *)
Definition state : ProgramInstance TableDb :=
  fst (loop 7 (ProgramInstance_make program Demo.input (Some Demo.db) None)).

End LoopDemo.

Lemma print_loop_prints_rows_witness :
  runs 0
    (at_row LoopDemo.program Demo.input (SubroutineFrame.mk [] []) (StackElement_make 0 None) []
       [] DatabaseError_default (Some Demo.db) 0 ["id"; "name"]%string
       [[Int 1; Str "a"]; [Int 2; Str "b"]] 2 true 0 []) 10
    (at_row LoopDemo.program Demo.input (SubroutineFrame.mk [] []) (StackElement_make 0 None) []
       [] DatabaseError_default (Some Demo.db) 0 ["id"; "name"]%string
       [[Int 1; Str "a"]; [Int 2; Str "b"]] 7 false 2
       [Output.mkElement Output.OpenArrayElement (Int 0);
        Output.mkElement Output.Open (Str "id"); Output.mkElement Output.Value (Int 1);
        Output.element Output.Close;
        Output.mkElement Output.Open (Str "name"); Output.mkElement Output.Value (Str "a");
        Output.element Output.Close; Output.element Output.CloseArrayElement;
        Output.mkElement Output.OpenArrayElement (Int 0);
        Output.mkElement Output.Open (Str "id"); Output.mkElement Output.Value (Int 2);
        Output.element Output.Close;
        Output.mkElement Output.Open (Str "name"); Output.mkElement Output.Value (Str "b");
        Output.element Output.Close; Output.element Output.CloseArrayElement]).
Proof.
  apply (print_loop_prints_rows LoopDemo.program Demo.input (SubroutineFrame.mk [] [])
    (StackElement_make 0 None) [] [] DatabaseError_default (Some Demo.db) 0 ["id"; "name"]%string
    [[Int 1; Str "a"]; [Int 2; Str "b"]] 2 true []);
    [reflexivity|repeat constructor|discriminate|discriminate|lia|lia|cbn; lia|].
  intros j c op arg Hj. do 5 (destruct j as [|j]; [injection Hj as <- <- <-;
    split; [lia|eexists; split; reflexivity]|]). discriminate Hj.
Defined.

Lemma loopcnt_counts_values_witness :
  snd (loopcntArgument LoopDemo.state) = Ok (UInt 3).
Proof.
  erewrite (loopcnt_counts_values LoopDemo.state _ _ 0 ["id"; "name"]%string 1);
    [reflexivity|vm_compute; reflexivity|reflexivity|reflexivity].
Defined.
