(* ===== verification/VmDatabase.v ===== *)
(** * What the virtual machine does with the database

    The machine calls the commands of the database only (statements, their parameters, the
    cursor on their result and the error), never the start or the end of a transaction: a
    property of the database that the commands keep is kept by every execution, whatever the
    program is and however it ends. *)
From S2P Require Import Prelude InstructionSet Variant ValueTupleSet ExecStatemachine ProgramImage ProgramInstance.

Section Keeps.
Context {D : Type} `{TransactionExecStatemachine D} (P : D -> Prop).
Abbreviation vm := (ProgramInstance D).

Definition db_keeps {A} (m : M D A) : Prop := forall d, P d -> P (m d).1.

(** The commands of the database. *)
Record commands_keep : Prop := {
  ck_start stm : db_keeps (stm_start stm);
  ck_bind i v : db_keeps (stm_bind i v);
  ck_execute : db_keeps stm_execute;
  ck_nofColumns : db_keeps stm_nofColumns;
  ck_columnName i : db_keeps (stm_columnName i);
  ck_get i : db_keeps (stm_get i);
  ck_next : db_keeps stm_next;
  ck_hasResult : db_keeps stm_hasResult;
  ck_getLastError : db_keeps stm_getLastError
}.

Definition db_holds (s : vm) : Prop := exists d, m_db_stm s = Some d /\ P d.
Definition keeps {A} (m : M vm A) : Prop := forall s, db_holds s -> db_holds (m s).1.

Lemma keeps_ret {A} (a : A) : keeps (mret a).
Proof. intros s Hs. exact Hs. Qed.

Lemma keeps_throw {A} e : keeps (A := A) (throw e).
Proof. intros s Hs. exact Hs. Qed.

Lemma keeps_throw_if b e : keeps (throw_if b e).
Proof. destruct b; intros s Hs; exact Hs. Qed.

Lemma keeps_lift {A} (r : res A) : keeps (lift r).
Proof. intros s Hs. exact Hs. Qed.

Lemma keeps_gets {A} (f : vm -> A) : keeps (gets f).
Proof. intros s Hs. exact Hs. Qed.

Lemma keeps_fuel {A} : keeps (fun s => (s, @OutOfFuel A)).
Proof. intros s Hs. exact Hs. Qed.

Lemma keeps_modify f : (forall s, m_db_stm (f s) = m_db_stm s) -> keeps (modify f).
Proof. intros Hf s (d & Hd & Hp). exists d. cbn. by rewrite Hf. Qed.

Lemma keeps_bind {A B} (m : M vm A) (f : A -> M vm B) : keeps m -> (forall a, keeps (f a)) -> keeps (m ≫= f).
Proof.
  intros Hm Hf s Hs. specialize (Hm s Hs). rewrite M_bind_eq. destruct (m s) as [s' [a|e|]]; [|exact Hm..].
  by apply Hf.
Qed.

Lemma keeps_top : keeps top.
Proof. intros s Hs. unfold top. destruct (m_stack s); exact Hs. Qed.

Lemma keeps_set_top e : keeps (set_top e).
Proof. intros s Hs. unfold set_top. destruct (m_stack s); exact Hs. Qed.

Lemma keeps_set_of r : keeps (set_of r).
Proof. intros s Hs. destruct r; exact Hs. Qed.

Lemma keeps_alloc v : keeps (alloc v).
Proof. intros s Hs. exact Hs. Qed.

Lemma keeps_db_call {A} (m : M D A) : db_keeps m -> keeps (db_call m).
Proof.
  intros Hm s (d & Hd & Hp). unfold db_call. rewrite Hd. specialize (Hm d Hp). destruct (m d) as [d' r]. by exists d'.
Qed.

Create HintDb keep.
#[local] Hint Resolve keeps_ret keeps_throw keeps_throw_if keeps_lift keeps_gets keeps_fuel keeps_top keeps_set_top
  keeps_set_of keeps_alloc : keep.

Ltac keep := repeat first
  [ solve [auto with keep]
  | apply keeps_bind; [|intros ?]
  | apply keeps_modify; intros ?; reflexivity
  | case_match ].

Lemma keeps_output_add e : keeps (output_add e).
Proof. unfold output_add. keep. Qed.
Lemma keeps_output_addValue v : keeps (output_addValue v).
Proof. apply keeps_output_add. Qed.
Lemma keeps_inc_ip : keeps inc_ip.
Proof. unfold inc_ip. keep. Qed.
#[local] Hint Resolve keeps_output_add keeps_output_addValue keeps_inc_ip : keep.

Lemma keeps_keptResult i : keeps (keptResult i).
Proof. unfold keptResult. keep. Qed.
Lemma keeps_tupleSet i : keeps (tupleSet i).
Proof. unfold tupleSet. keep. Qed.
Lemma keeps_constArgument i : keeps (constArgument i).
Proof. unfold constArgument. keep. Qed.
Lemma keeps_statementArgument i : keeps (statementArgument i).
Proof. unfold statementArgument. keep. Qed.
Lemma keeps_tagnameArgument i : keeps (tagnameArgument i).
Proof. unfold tagnameArgument. keep. Qed.
Lemma keeps_columnIndex r i : keeps (columnIndex r i).
Proof. unfold columnIndex. keep. Qed.
Lemma keeps_selectedArgument i : keeps (selectedArgument i).
Proof. unfold selectedArgument. keep. Qed.
Lemma keeps_iteratorArgument i : keeps (iteratorArgument i).
Proof. unfold iteratorArgument. keep. Qed.
Lemma keeps_loopcntArgument : keeps loopcntArgument.
Proof. unfold loopcntArgument. keep. Qed.
Lemma keeps_initValueIteraror r : keeps (initValueIteraror r).
Proof. unfold initValueIteraror. keep. Qed.
Lemma keeps_rewrite_instr x op i : keeps (rewrite_instr x op i).
Proof. unfold rewrite_instr. keep. Qed.
Lemma keeps_frame_push v : keeps (frame_push v).
Proof. unfold frame_push. keep. Qed.
Lemma keeps_check_unambiguous r : keeps (check_unambiguous r).
Proof. unfold check_unambiguous. keep. Qed.
Lemma keeps_checkConstraints r : keeps (checkConstraints r).
Proof. unfold checkConstraints. keep. Qed.
Lemma keeps_appendResult d r : keeps (appendResult d r).
Proof. unfold appendResult. keep. Qed.
#[local] Hint Resolve keeps_keptResult keeps_tupleSet keeps_constArgument keeps_statementArgument keeps_tagnameArgument
  keeps_columnIndex keeps_selectedArgument keeps_iteratorArgument keeps_loopcntArgument keeps_initValueIteraror
  keeps_rewrite_instr keeps_frame_push keeps_check_unambiguous keeps_checkConstraints keeps_appendResult : keep.

Lemma keeps_initResult r : keeps (initResult r).
Proof. unfold initResult. keep. Qed.
Lemma keeps_for_each {A} (l : list A) (f : A -> M vm unit) : (forall a, keeps (f a)) -> keeps (for_each l f).
Proof. intros Hf. induction l as [|a l IH]; cbn; keep. Qed.
Lemma keeps_printColumn e i : keeps (printColumn e i).
Proof. unfold printColumn. keep. Qed.
Lemma keeps_printIteratorColumn : keeps printIteratorColumn.
Proof. unfold printIteratorColumn. pose proof keeps_printColumn. keep. apply keeps_for_each. auto. Qed.
#[local] Hint Resolve keeps_initResult keeps_printIteratorColumn : keep.

Context (C : commands_keep).
#[local] Hint Resolve keeps_db_call ck_start ck_bind ck_execute ck_nofColumns ck_columnName ck_get ck_next ck_hasResult
  ck_getLastError : keep.

Lemma keeps_fetchColumnNames n : forall ii, keeps (fetchColumnNames ii n).
Proof using C. induction n as [|n IH]; intros ii; cbn; keep. Qed.
Lemma keeps_fetchRow n : forall ii, keeps (fetchRow ii n).
Proof using C. induction n as [|n IH]; intros ii; cbn; keep. Qed.
#[local] Hint Resolve keeps_fetchColumnNames keeps_fetchRow : keep.
Lemma keeps_fetchRows fuel n : forall rt, keeps (fetchRows fuel n rt).
Proof using C. induction fuel as [|fuel IH]; intros rt; cbn; keep. Qed.
#[local] Hint Resolve keeps_fetchRows : keep.
Lemma keeps_fetchDatabaseResult fuel n : keeps (fetchDatabaseResult fuel n).
Proof using C. unfold fetchDatabaseResult. keep. Qed.
Lemma keeps_databaseID : db_keeps (fun d => (d, Ok (stm_databaseID d))).
Proof. intros d Hd. exact Hd. Qed.
#[local] Hint Resolve keeps_fetchDatabaseResult keeps_databaseID : keep.
Lemma keeps_setDatabaseError : keeps setDatabaseError.
Proof using C. unfold setDatabaseError. keep. Qed.
#[local] Hint Resolve keeps_setDatabaseError : keep.
Lemma keeps_db_checked call : db_keeps call -> keeps (db_checked call).
Proof using C. intros Hc. unfold db_checked. keep. Qed.
#[local] Hint Resolve keeps_db_checked : keep.
Lemma keeps_db_bind v : keeps (db_bind v).
Proof using C. unfold db_bind. keep. Qed.
#[local] Hint Resolve keeps_db_bind : keep.

Lemma keeps_exec_dbstm fuel x op i : keeps (exec_dbstm fuel x op i).
Proof using C. unfold exec_dbstm, unresolved_path. destruct op; keep. Qed.
Lemma keeps_exec_control op i : keeps (exec_control op i).
Proof. unfold exec_control. destruct op; keep. Qed.
Lemma keeps_exec_print x op i : keeps (exec_print x op i).
Proof. unfold exec_print, unresolved_path. destruct op; keep. Qed.
Lemma keeps_exec_assign op i : keeps (exec_assign op i).
Proof. unfold exec_assign. destruct op; keep. Qed.
Lemma keeps_exec_iterator op i : keeps (exec_iterator op i).
Proof. unfold exec_iterator, unresolved_path. destruct op; keep. Qed.
Lemma keeps_exec_sub x op i : keeps (exec_sub x op i).
Proof. unfold exec_sub, unresolved_path. destruct op; keep. Qed.
Lemma keeps_exec_scope op : keeps (exec_scope op).
Proof. unfold exec_scope. destruct op; keep. Qed.
Lemma keeps_exec_result op : keeps (exec_result op).
Proof. unfold exec_result. destruct op; keep. Qed.
#[local] Hint Resolve keeps_exec_dbstm keeps_exec_control keeps_exec_print keeps_exec_assign keeps_exec_iterator
  keeps_exec_sub keeps_exec_scope keeps_exec_result : keep.

Lemma keeps_step fuel : keeps (step fuel).
Proof using C. unfold step, exec_op. keep. Qed.
#[local] Hint Resolve keeps_step : keep.

Lemma keeps_loop fuel : keeps (loop fuel).
Proof using C. induction fuel as [|fuel IH]; cbn; keep. Qed.
#[local] Hint Resolve keeps_loop : keep.

(** A property of the database that the commands keep is kept by every execution. *)
Lemma keeps_execute fuel : keeps (ProgramInstance.execute fuel).
Proof using C. unfold ProgramInstance.execute. keep. Qed.

End Keeps.
