(* ===== verification/Transaction.v ===== *)
(** * Transactions

    Models include/database/transaction.hpp and src/libwolframe_database/transaction.cpp
    (execution of a program as a transaction, the program generated for a single
    statement, and the reading of its result), with the filter of
    src/libwolframe_database/vmTransactionOutput.cpp through which the result is read.

    The conversion of values to strings ([Variant::tostring]) is an interface: the
    transaction only converts column names with it, which are strings. *)
From stdpp Require Import pretty.
From S2P Require Import Prelude InstructionSet Variant ValueTupleSet ExecStatemachine TableDb ProgramImage ProgramInstance VmInvariant VmExec.

(** ** Conversion of values to strings *)

Class VariantToString := {
  tostring : Variant -> res string;
  tostring_Str s : tostring (Str s) = Ok s
}.

(** ** The filter on the output *)

Module VmTransactionInputFilter.

(** langbind::FilterBase::ElementType *)
Inductive ElementType := OpenTag | Attribute | Value | CloseTag.

#[export] Instance ElementType_eq_dec : EqDecision ElementType.
Proof. solve_decision. Defined.

(** The elements from [m_itr] to [m_end]; the stack with its last element first;
    the flag SerializeWithIndices. *)
Record t := mk {
  m_done : bool;
  m_rest : list Output.Element;
  m_stack : list Variant;
  SerializeWithIndices : bool
}.

Definition make (output : Output.t) (index : nat) : res t :=
  es ← Output.elements output index; Ok (mk false es [] false).

(** The copy constructor. *)
Definition copy (f : t) : t := mk (m_done f) (m_rest f) [] (SerializeWithIndices f).

(** [++m_stack.back().data().value.Int] *)
Definition increment_top (stack : list Variant) : res (list Variant) :=
  match stack with
  | Int i :: st => Ok (Int (i64 (i + 1)) :: st)
  | _ => Throw (Undefined "access to the wrong member of a union")
  end.

Definition not_balanced : exn := RuntimeError "tags in output not balanced".

(** [getNext] from the elements [rest] on; the recursion is the [goto AGAIN]. *)
Fixpoint next_from (ser done : bool) (stack : list Variant) (rest : list Output.Element)
    : t * res (option (ElementType * Variant)) :=
  match rest with
  | [] => if done then (mk done [] stack ser, Ok None)
          else (mk true [] stack ser, Ok (Some (CloseTag, Null)))
  | x :: rest' =>
      match Output.m_op x with
      | Output.OpenArray =>
          if ser then (mk done rest' (Int 0 :: stack) ser, Ok (Some (OpenTag, Output.m_arg x)))
          else next_from ser done (Output.m_arg x :: stack) rest'
      | Output.OpenArrayElement =>
          match stack with
          | [] => (mk done rest stack ser, Throw not_balanced)
          | tag :: _ =>
              if ser
              then match increment_top stack with
                   | Ok stack' => (mk done rest' stack' ser, Ok (Some (OpenTag, default Null (head stack'))))
                   | Throw e => (mk done rest stack ser, Throw e)
                   | OutOfFuel => (mk done rest stack ser, OutOfFuel)
                   end
              else (mk done rest' stack ser, Ok (Some (OpenTag, tag)))
          end
      | Output.Open => (mk done rest' stack ser, Ok (Some (OpenTag, Output.m_arg x)))
      | Output.CloseArray =>
          match stack with
          | [] => (mk done rest stack ser, Throw not_balanced)
          | _ :: stack' =>
              if ser then (mk done rest' stack' ser, Ok (Some (CloseTag, Output.m_arg x)))
              else next_from ser done stack' rest'
          end
      | Output.CloseArrayElement | Output.Close =>
          (mk done rest' stack ser, Ok (Some (CloseTag, Output.m_arg x)))
      | Output.Value => (mk done rest' stack ser, Ok (Some (Value, Output.m_arg x)))
      end
  end.

Definition getNext : M t (option (ElementType * Variant)) := fun f =>
  next_from (SerializeWithIndices f) (m_done f) (m_stack f) (m_rest f).

End VmTransactionInputFilter.

(** ** Error messages *)

Definition CR : ascii := ascii_of_nat 13.
Definition LF : ascii := ascii_of_nat 10.
Definition SP : ascii := ascii_of_nat 32.

(** The loop of [removeCRLF]: [rt] is the result so far, its last character first. *)
Fixpoint removeCRLF_from (rt : list ascii) (src : list ascii) : list ascii :=
  match src with
  | [] => reverse rt
  | c :: src' =>
      if bool_decide (c = CR) || bool_decide (c = LF)
      then match rt with
           | d :: _ => if bool_decide (d = SP) then removeCRLF_from rt src'
                       else removeCRLF_from (SP :: rt) src'
           | [] => removeCRLF_from rt src'
           end
      else removeCRLF_from (c :: rt) src'
  end.

Definition removeCRLF (src : string) : string :=
  String.string_of_list_ascii (removeCRLF_from [] (String.list_ascii_of_string src)).

Definition errorMessageString (err : DatabaseError) : string :=
  let errordetail := removeCRLF (errordetail err) in
  let errormsg := removeCRLF (errormsg err) in
  ("error in database '" +:+ dbname err +:+ "' error class '" +:+ errorclass err +:+ "'" +:+
   (if (errorcode err =? 0)%Z then "" else
      " database internal error code " +:+ pretty (errorcode err) +:+ "'") +:+
   (if (String.length errormsg =? 0)%nat then "" else " " +:+ errormsg) +:+
   (if (String.length errordetail =? 0)%nat then "" else " " +:+ errordetail))%string.

(** ** The program of a single statement *)

(** The calls [rt.code( op, arg)(...)...]. *)
Fixpoint emit (c : ProgramCode.t) (instrs : list (CondCode * OpCode * Z)) : res ProgramCode.t :=
  match instrs with
  | [] => Ok c
  | (cond, op, arg) :: instrs' => c ← ProgramCode.app_cond c cond op arg; emit c instrs'
  end.

Fixpoint emit_binds (p : ProgramImage) (params : list Variant) : res ProgramImage :=
  match params with
  | [] => Ok p
  | v :: params' =>
      c ← emit (code p)
            [(Co_ALWAYS, Op_DBSTM_BIND_CONST, u32 (Z.of_nat (length (constants p))))];
      emit_binds (push_constant (set_code p c) v) params'
  end.

Definition singleStatementProgram (stm : string) (params : list Variant) : res ProgramImage :=
  let rt := ProgramImage_empty in
  c ← emit (code rt) [(Co_ALWAYS, Op_RESULT_SET_INIT, 0); (Co_ALWAYS, Op_DBSTM_START, 0)];
  let rt := push_statement (set_code rt c) stm in
  rt ← emit_binds rt params;
  c ← emit (code rt) [(Co_ALWAYS, Op_DBSTM_EXEC, 0)];
  let rt := push_tagname (set_code rt c) "" in
  c ← emit (code rt) [(Co_ALWAYS, Op_OUTPUT_OPEN_ARRAY, 1)];
  let rt := set_code rt c in
  let endofblock := u32 (Z.of_nat (length (code rt)) + 7) in
  let startofblock := u32 (Z.of_nat (length (code rt)) + 2) in
  c ← emit (code rt)
    [(Co_ALWAYS, Op_OPEN_ITER_LAST_RESULT, 0); (Co_NOT_IF_COND, Op_GOTO, endofblock);
     (Co_ALWAYS, Op_OUTPUT_OPEN_ELEM, 0); (Co_ALWAYS, Op_OUTPUT_ITR_COLUMN, 0);
     (Co_ALWAYS, Op_OUTPUT_CLOSE_ELEM, 0); (Co_ALWAYS, Op_NEXT, 0);
     (Co_IF_COND, Op_GOTO, startofblock)];
  c ← emit c [(Co_ALWAYS, Op_OUTPUT_CLOSE_ARRAY, 0); (Co_ALWAYS, Op_RETURN, 0)];
  Ok (set_code rt c).

(** ** Transactions *)

Record Transaction (D : Type) := mkTransaction {
  m_stm : D;
  tr_lastError : DatabaseError
}.
Arguments mkTransaction {D}. Arguments m_stm {D}. Arguments tr_lastError {D}.

(** Transaction::Result *)
Record Result := mkResult {
  res_colnames : list string;
  res_rows : list (list Variant)
}.

(** The local variables of the loop that reads the result. *)
Record ReadState := mkReadState {
  rd_taglevel : Z;
  rd_firstRow : bool;
  rd_colnames : list string;
  rd_rows : list (list Variant);
  rd_row : list Variant;
  rd_done : bool
}.

Definition ReadState_init : ReadState := mkReadState 0 true [] [] [] false.

Definition set_taglevel (r : ReadState) (l : Z) : ReadState :=
  mkReadState l (rd_firstRow r) (rd_colnames r) (rd_rows r) (rd_row r) (rd_done r).
Definition push_colname (r : ReadState) (c : string) : ReadState :=
  mkReadState (rd_taglevel r) (rd_firstRow r) (rd_colnames r ++ [c]) (rd_rows r) (rd_row r)
    (rd_done r).

Section Transactions.
Context {D : Type} `{TransactionExecStatemachine D} `{VariantToString}.
Abbreviation MT := (M (Transaction D)).

Definition set_stm (t : Transaction D) (d : D) : Transaction D := mkTransaction d (tr_lastError t).
Definition set_tr_error (t : Transaction D) (err : DatabaseError) : Transaction D :=
  mkTransaction (m_stm t) err.

Definition tr_call {A} (m : M D A) : MT A := zoom m_stm (fun d t => set_stm t d) m.

(** Transaction::begin, commit and rollback. *)
Definition checked_call (call : M D bool) : MT unit :=
  ok ← tr_call call;
  if (ok : bool) then mret tt
  else
    err ← tr_call stm_getLastError;
    match err with
    | Some err => throw (RuntimeError (errorMessageString err))
    | None => mret tt
    end.

Definition begin : MT unit := checked_call stm_begin.
Definition commit : MT unit := checked_call stm_commit.
Definition rollback : MT unit := checked_call stm_rollback.

(** [m_stm->rollback(); return false;] *)
Definition abort : MT (option Output.t) := _ ← tr_call stm_rollback; mret None.

(** Transaction::execute: [Some output] for true, [None] for false.  The log level is
    above LOGLEVEL_DATA; the trace callback is an argument. *)
Definition execute (fuel : nat) (logTrace : option (Z -> res unit))
    (program : ProgramImage) (heap : ValueTupleSet.store) : MT (option Output.t) := fun t =>
  let '(s, r) := ProgramInstance.execute fuel
                   (ProgramInstance_make program heap (Some (m_stm t)) logTrace) in
  let t := match m_db_stm s with Some d => set_stm t d | None => t end in
  match r with
  | Ok true => (t, Ok (Some (m_output s)))
  | Ok false => abort (set_tr_error t (m_lastError s))
  | Throw (RuntimeError msg) =>
      let err := DatabaseError_make "EXCEPTION" 0 msg in
      abort (set_tr_error t (set_dbname_ip err (dbname err) (m_ip s)))
  | Throw (Undefined w) => (t, Throw (Undefined w))
  | Throw _ => (_ ← tr_call stm_rollback; throw StdException) t
  | OutOfFuel => (t, OutOfFuel)
  end.

(** One element of the result in [executeStatement]; an error is the message of the
    database error reported. *)
Definition read_element (r : ReadState) (type : VmTransactionInputFilter.ElementType)
    (value : Variant) : res (ReadState + string) :=
  if rd_done r then Ok (inr "unexpected element after final CLOSE"%string)
  else
    match type with
    | VmTransactionInputFilter.OpenTag =>
        let r := set_taglevel r (rd_taglevel r + 1) in
        if rd_taglevel r =? 1 then
          if negb (is_String value) then Ok (inr "unexpected top level tag in result"%string)
          else
            n ← charsize value;
            if negb (n =? 0)%nat then Ok (inr "unexpected top level tag in result"%string)
            else Ok (inl r)
        else if rd_taglevel r =? 2 then
          if rd_firstRow r then c ← tostring value; Ok (inl (push_colname r c))
          else Ok (inl r)
        else Ok (inr "unexpected structure in result"%string)
    | VmTransactionInputFilter.CloseTag =>
        let r := set_taglevel r (rd_taglevel r - 1) in
        let r := if rd_taglevel r =? -1
                 then mkReadState (rd_taglevel r) (rd_firstRow r) (rd_colnames r) (rd_rows r)
                        (rd_row r) true
                 else r in
        if rd_taglevel r =? 0 then
          if negb (length (rd_row r) =? length (rd_colnames r))%nat
          then Ok (inr "row size does not mach to number of columns"%string)
          else Ok (inl (mkReadState (rd_taglevel r) false (rd_colnames r)
                          (rd_rows r ++ [rd_row r]) [] (rd_done r)))
        else Ok (inl r)
    | VmTransactionInputFilter.Attribute =>
        if rd_taglevel r =? 1 then
          if rd_firstRow r then c ← tostring value; Ok (inl (push_colname r c))
          else Ok (inl r)
        else Ok (inr "unexpected attribute in result"%string)
    | VmTransactionInputFilter.Value =>
        Ok (inl (mkReadState (rd_taglevel r) (rd_firstRow r) (rd_colnames r) (rd_rows r)
                   (rd_row r ++ [value]) (rd_done r)))
    end.

(** The loop [while (of->getNext( type, value))]. *)
Fixpoint read_result (fuel : nat) (r : ReadState) (f : VmTransactionInputFilter.t)
    : res (ReadState + string) :=
  match fuel with
  | O => OutOfFuel
  | S fuel' =>
      let '(f', nx) := VmTransactionInputFilter.getNext f in
      el ← nx;
      match el with
      | None => Ok (inl r)
      | Some (type, value) =>
          rr ← read_element r type value;
          match rr with
          | inl r' => read_result fuel' r' f'
          | inr msg => Ok (inr msg)
          end
      end
  end.

(** Transaction::executeStatement without result. *)
Definition executeStatement (fuel : nat) (logTrace : option (Z -> res unit)) (stm : string)
    (params : list Variant) : MT bool :=
  p ← lift (singleStatementProgram stm params);
  out ← execute fuel logTrace p [];
  mret (match out with Some _ => true | None => false end).

(** Transaction::executeStatement with result: [Some result] for true. *)
Definition executeStatementResult (fuel : nat) (logTrace : option (Z -> res unit)) (stm : string)
    (params : list Variant) : MT (option Result) :=
  p ← lift (singleStatementProgram stm params);
  out ← execute fuel logTrace p [];
  match out with
  | None => mret None
  | Some output =>
      f ← lift (VmTransactionInputFilter.make output 0);
      rr ← lift (read_result (length (VmTransactionInputFilter.m_rest f) + 2) ReadState_init f);
      match rr with
      | inl r => mret (Some (mkResult (rd_colnames r) (rd_rows r)))
      | inr msg => _ ← modify (fun t => set_tr_error t (DatabaseError_make "EXCEPTION" 0 msg));
                   mret None
      end
  end.
End Transactions.

(** ** The generated program *)

Definition encode (x : CondCode * OpCode * Z) : Z :=
  match instruction (x.1.1) (x.1.2) (x.2) with Ok i => i | _ => 0 end.

(** The code of the program for a statement with [n] parameters. *)
Definition statement_code (n : nat) : list (CondCode * OpCode * Z) :=
  [(Co_ALWAYS, Op_RESULT_SET_INIT, 0); (Co_ALWAYS, Op_DBSTM_START, 0)] ++
  map (fun k => (Co_ALWAYS, Op_DBSTM_BIND_CONST, Z.of_nat k)) (seq 0 n) ++
  [(Co_ALWAYS, Op_DBSTM_EXEC, 0); (Co_ALWAYS, Op_OUTPUT_OPEN_ARRAY, 1);
   (Co_ALWAYS, Op_OPEN_ITER_LAST_RESULT, 0); (Co_NOT_IF_COND, Op_GOTO, Z.of_nat n + 11)] ++
  print_loop (Z.of_nat n + 6) ++
  [(Co_ALWAYS, Op_OUTPUT_CLOSE_ARRAY, 0); (Co_ALWAYS, Op_RETURN, 0)].

Definition statement_image (stm : string) (params : list Variant) : ProgramImage :=
  mkProgramImage (map encode (statement_code (length params))) params [] [""%string] [] [stm]
    [] [] [].

Definition args_ok (instrs : list (CondCode * OpCode * Z)) : Prop :=
  Forall (fun x => 0 <= x.2 <= Max_ArgumentIndex) instrs.

Ltac solve_args :=
  unfold args_ok; change Max_ArgumentIndex with 1048575;
  repeat (constructor; [cbn; lia|]); constructor.

Lemma emit_Ok instrs : forall c,
  args_ok instrs -> Z.of_nat (length c + length instrs) < Max_ArgumentIndex ->
  emit c instrs = Ok (c ++ map encode instrs).
Proof.
  induction instrs as [|[[cond op] arg] instrs IH]; intros c Ha Hl; cbn [emit].
  - by rewrite app_nil_r.
  - inversion Ha as [|? ? Harg Hrest]; subst. cbn in Harg, Hl.
    destruct (app_cond_Ok c cond op arg) as (i & Hi & ->); [done|lia|]. cbn [mbind res_bind].
    rewrite IH; [|done|rewrite length_app; cbn; lia]. rewrite <- app_assoc. cbn.
    unfold encode at 2. cbn. by rewrite Hi.
Qed.

Lemma emit_binds_Ok params : forall p,
  Z.of_nat (length (code p) + length params) < Max_ArgumentIndex ->
  Z.of_nat (length (constants p) + length params) < Max_ArgumentIndex ->
  emit_binds p params = Ok (mkProgramImage
    (code p ++ map encode (map (fun k => (Co_ALWAYS, Op_DBSTM_BIND_CONST, Z.of_nat k))
       (seq (length (constants p)) (length params))))
    (constants p ++ params) (colnames p) (tagnames p) (resultnames p) (statements p)
    (errorhints p) (signatures p) (tuplesets p)).
Proof.
  change Max_ArgumentIndex with 1048575.
  induction params as [|v params IH]; intros p Hc Hk; cbn [emit_binds length seq map].
  - rewrite !app_nil_r. by destruct p.
  - cbn [length] in Hc, Hk. rewrite wrap_small by lia.
    rewrite emit_Ok; [|solve_args
                      |change Max_ArgumentIndex with 1048575; cbn; lia].
    cbn [mbind res_bind]. rewrite IH; unfold push_constant, set_code; cbn; rewrite !length_app;
      cbn; [|lia|lia].
    by rewrite <- !app_assoc, Nat.add_1_r.
Qed.

Lemma length_statement_code n : length (statement_code n) = (n + 13)%nat.
Proof. unfold statement_code. rewrite !length_app, length_map, length_seq. cbn. lia. Qed.

(** What [singleStatementProgram] generates. *)
Lemma singleStatementProgram_Ok stm params :
  Z.of_nat (length params) + 13 < Max_ArgumentIndex ->
  singleStatementProgram stm params = Ok (statement_image stm params).
Proof.
  change Max_ArgumentIndex with 1048575. intros Hn. unfold singleStatementProgram.
  assert (forall i, 0 <= i <= 1048575 -> 0 <= i <= Max_ArgumentIndex) as Hmax by done.
  rewrite emit_Ok; [|solve_args|cbn; change Max_ArgumentIndex with 1048575; lia].
  cbn [mbind res_bind].
  rewrite emit_binds_Ok by (change Max_ArgumentIndex with 1048575; cbn; lia).
  cbn [mbind res_bind code set_code constants push_statement push_tagname ProgramImage_empty
    statements tagnames colnames resultnames errorhints signatures tuplesets app].
  rewrite emit_Ok; [|solve_args|].
  2: { change Max_ArgumentIndex with 1048575. cbn. rewrite !length_map, length_seq. lia. }
  cbn [mbind res_bind]. rewrite emit_Ok; [|solve_args|].
  2: { change Max_ArgumentIndex with 1048575. rewrite !length_app. cbn.
       rewrite !length_map, length_seq. lia. }
  cbn [mbind res_bind code set_code constants push_statement push_tagname
    statements tagnames colnames resultnames errorhints signatures tuplesets].
  change (length (@nil Variant)) with 0%nat.
  match goal with |- context [length (?a ++ ?b)] => set (c0 := a ++ b) end.
  assert (Z.of_nat (length c0) = Z.of_nat (length params) + 4) as Hc0.
  { subst c0. rewrite !length_app. cbn. rewrite !length_map, length_seq. lia. }
  rewrite !Hc0, !wrap_small by lia.
  rewrite emit_Ok; [|solve_args|change Max_ArgumentIndex with 1048575; cbn [length]; lia].
  cbn [mbind res_bind].
  rewrite emit_Ok; [|solve_args
    |change Max_ArgumentIndex with 1048575; rewrite length_app, length_map; cbn [length]; lia].
  cbn [mbind res_bind]. unfold statement_image. do 2 f_equal. subst c0.
  unfold statement_code. rewrite !map_app, <- !app_assoc. cbn [map app].
  replace (Z.of_nat (length params) + 4 + 7) with (Z.of_nat (length params) + 11) by lia.
  replace (Z.of_nat (length params) + 4 + 2) with (Z.of_nat (length params) + 6) by lia.
  reflexivity.
Qed.

Lemma statement_args_ok n :
  Z.of_nat n + 13 < Max_ArgumentIndex -> args_ok (statement_code n).
Proof.
  change Max_ArgumentIndex with 1048575. intros Hn. unfold statement_code, args_ok.
  rewrite !Forall_app. split_and!; try (solve_args).
  apply Forall_map, Forall_seq. intros k Hk. change Max_ArgumentIndex with 1048575. cbn. lia.
Qed.

Lemma statement_code_at stm params :
  Z.of_nat (length params) + 13 < Max_ArgumentIndex ->
  code_at (statement_image stm params) 0 (statement_code (length params)).
Proof.
  intros Hn j c op arg Hj. pose proof (statement_args_ok _ Hn) as Ha.
  pose proof (Forall_lookup_1 _ _ _ _ Ha Hj) as Harg. cbn in Harg. split; [lia|].
  destruct (instruction_Ok c op arg Harg) as [i Hi]. exists i. split; [done|].
  cbn [code statement_image]. rewrite Z.add_0_l, Nat2Z.id.
  pose proof (list_lookup_fmap encode (statement_code (length params)) j) as E.
  rewrite Hj in E. cbn [fmap option_fmap option_map] in E. unfold encode at 2 in E.
  cbn [fst snd] in E. rewrite Hi in E. exact E.
Qed.

Lemma code_at_drop p ip instrs1 instrs2 :
  code_at p ip (instrs1 ++ instrs2) -> code_at p (ip + Z.of_nat (length instrs1)) instrs2.
Proof.
  intros Hc j c op arg Hj. rewrite <- Z.add_assoc, <- Nat2Z.inj_add. apply Hc.
  by rewrite lookup_app_r, Nat.add_sub_swap, Nat.sub_diag by lia.
Qed.

Lemma code_at_take p ip instrs1 instrs2 :
  code_at p ip (instrs1 ++ instrs2) -> code_at p ip instrs1.
Proof. intros Hc j c op arg Hj. apply Hc. by apply lookup_app_l_Some. Qed.

(** ** Reading the result *)

Section Reading.
Context `{VariantToString}.
Abbreviation flt := (VmTransactionInputFilter.mk false).

Lemma read_step fuel r es stack x type v r' :
  VmTransactionInputFilter.getNext (flt (x :: es) stack false) =
    (flt es stack false, Ok (Some (type, v))) ->
  read_element r type v = Ok (inl r') ->
  read_result (S fuel) r (flt (x :: es) stack false) = read_result fuel r' (flt es stack false).
Proof. intros Hn Hr. cbn [read_result]. rewrite Hn. cbn. by rewrite Hr. Qed.

(** The columns of a row. *)
Lemma read_columns first cols rows es stack names : forall vals row fuel,
  length vals = length names ->
  read_result (3 * length names + fuel) (mkReadState 1 first cols rows row false)
    (flt (row_elements names vals ++ es) stack false) =
  read_result fuel
    (mkReadState 1 first (if first then cols ++ names else cols) rows (row ++ vals) false)
    (flt es stack false).
Proof.
  revert cols. induction names as [|name names IH]; intros cols [|v vals] row fuel Hl; try done.
  - rewrite !app_nil_r. by destruct first.
  - unfold row_elements. cbn [zip_with concat]. rewrite <- app_assoc.
    replace (3 * length (name :: names) + fuel)%nat
      with (S (S (S (3 * length names + fuel)))) by (cbn; lia).
    cbn [column_elements app].
    rewrite (read_step _ _ _ _ _ VmTransactionInputFilter.OpenTag (Str name)
      (mkReadState 2 first (if first then cols ++ [name] else cols) rows row false));
      [|reflexivity|unfold read_element; cbn; destruct first; by rewrite ?tostring_Str].
    rewrite (read_step _ _ _ _ _ VmTransactionInputFilter.Value v
      (mkReadState 2 first (if first then cols ++ [name] else cols) rows (row ++ [v]) false))
      by reflexivity.
    rewrite (read_step _ _ _ _ _ VmTransactionInputFilter.CloseTag Null
      (mkReadState 1 first (if first then cols ++ [name] else cols) rows (row ++ [v]) false))
      by reflexivity.
    cbn [length] in Hl. fold (row_elements names vals).
    rewrite IH by lia. by destruct first; rewrite <- ?app_assoc.
Qed.

(** A row, read as the first or a later one. *)
Lemma read_row (first : bool) cols rows es tag names vals fuel :
  length vals = length names -> (if first then cols = [] else cols = names) ->
  tag = Str "" ->
  read_result (3 * length names + 2 + fuel) (mkReadState 0 first cols rows [] false)
    (flt (array_element names vals ++ es) [tag] false) =
  read_result fuel (mkReadState 0 false names (rows ++ [vals]) [] false) (flt es [tag] false).
Proof.
  intros Hl Hc ->.
  replace (3 * length names + 2 + fuel)%nat with (S (3 * length names + S fuel)) by lia.
  unfold array_element. cbn [app].
  rewrite (read_step _ _ _ _ _ VmTransactionInputFilter.OpenTag (Str "")
    (mkReadState 1 first cols rows [] false)) by reflexivity.
  rewrite <- app_assoc, read_columns by done. cbn [app].
  rewrite (read_step _ _ _ _ _ VmTransactionInputFilter.CloseTag Null
    (mkReadState 0 false names (rows ++ [vals]) [] false)); [done|reflexivity|].
  assert ((if first then cols ++ names else cols) = names) as -> by (by destruct first; subst).
  unfold read_element. cbn. change (1 - 1) with 0. cbn. by rewrite Hl, Nat.eqb_refl.
Qed.

Lemma read_rows names es : forall todo (first : bool) cols rows fuel,
  Forall (fun r => length r = length names) todo ->
  (if first then cols = [] else cols = names) ->
  read_result (length todo * (3 * length names + 2) + fuel)
    (mkReadState 0 first cols rows [] false)
    (flt (concat (map (array_element names) todo) ++ es) [Str ""] false) =
  read_result fuel
    (match todo with
     | [] => mkReadState 0 first cols rows [] false
     | _ => mkReadState 0 false names (rows ++ todo) [] false
     end) (flt es [Str ""] false).
Proof.
  intros todo. induction todo as [|row todo IH]; intros first cols rows fuel Hf Hc; [done|].
  inversion Hf as [|? ? Hrow Hrest]; subst. cbn [map concat]. rewrite <- app_assoc.
  replace (length (row :: todo) * (3 * length names + 2) + fuel)%nat with
    (3 * length names + 2 + (length todo * (3 * length names + 2) + fuel))%nat by (cbn; lia).
  rewrite read_row by done. rewrite (IH false names) by done.
  destruct todo; [done|]. by rewrite <- app_assoc.
Qed.

Lemma length_row_elements names : forall vals,
  length vals = length names -> length (row_elements names vals) = (3 * length names)%nat.
Proof.
  induction names as [|name names IH]; intros [|v vals] Hl; try done.
  unfold row_elements in *. cbn in *. rewrite IH; lia.
Qed.

Lemma length_array_elements names rows :
  Forall (fun r => length r = length names) rows ->
  length (concat (map (array_element names) rows)) = (length rows * (3 * length names + 2))%nat.
Proof.
  induction 1 as [|row rows Hr _ IH]; [done|]. cbn [map concat]. rewrite length_app, IH.
  unfold array_element. cbn. rewrite length_app, length_row_elements by done. cbn. lia.
Qed.

(** The result read from the output of the program of a statement. *)
Lemma read_output names rows :
  Forall (fun r => length r = length names) rows ->
  let es := Output.mkElement Output.OpenArray (Str "") ::
              concat (map (array_element names) rows) ++ [Output.element Output.CloseArray] in
  exists r, read_result (length es + 2) ReadState_init (flt es [] false) = Ok (inl r) /\
    rd_colnames r = (match rows with [] => [] | _ => names end) /\ rd_rows r = rows.
Proof.
  intros Hf es. subst es. cbn [length]. rewrite length_app, length_array_elements by done.
  cbn [length].
  replace (S (length rows * (3 * length names + 2) + 1) + 2)%nat with
    (S (length rows * (3 * length names + 2) + 3)) by lia.
  set (body := concat (map (array_element names) rows) ++ [Output.element Output.CloseArray]).
  assert (forall f, read_result (S f) ReadState_init
    (flt (Output.mkElement Output.OpenArray (Str "") :: body) [] false) =
    read_result (S f) ReadState_init (flt body [Str ""] false)) as -> by reflexivity.
  replace (S (length rows * (3 * length names + 2) + 3)) with
    (length rows * (3 * length names + 2) + 4)%nat by lia.
  unfold body. unfold ReadState_init. rewrite (read_rows names _ rows true) by done.
  destruct rows as [|row rows]; eexists; (split; [reflexivity|]); auto.
Qed.
End Reading.

(** ** Running the program of a statement *)

(** Binding the parameters [ps], the first of them as number [i + 1]. *)
Fixpoint bind_all {D} `{TransactionExecStatemachine D} (i : nat) (ps : list Variant) : M D bool :=
  match ps with
  | [] => mret true
  | v :: ps' => ok ← stm_bind (S i) v; if (ok : bool) then bind_all (S i) ps' else mret false
  end.

Lemma statement_code_bind n k :
  (k < n)%nat -> statement_code n !! (2 + k)%nat = Some (Co_ALWAYS, Op_DBSTM_BIND_CONST, Z.of_nat k).
Proof.
  intros Hk. unfold statement_code. rewrite lookup_app_r by (cbn; lia).
  cbn [length]. replace (2 + k - 2)%nat with k by lia. rewrite lookup_app_l by (rewrite length_map, length_seq; lia).
  change (map ?f ?l) with (f <$> l). by rewrite list_lookup_fmap, lookup_seq_lt by lia.
Qed.

Lemma statement_code_tail n k :
  statement_code n !! (n + 2 + k)%nat =
  ([(Co_ALWAYS, Op_DBSTM_EXEC, 0); (Co_ALWAYS, Op_OUTPUT_OPEN_ARRAY, 1);
   (Co_ALWAYS, Op_OPEN_ITER_LAST_RESULT, 0); (Co_NOT_IF_COND, Op_GOTO, Z.of_nat n + 11)] ++
  print_loop (Z.of_nat n + 6) ++
  [(Co_ALWAYS, Op_OUTPUT_CLOSE_ARRAY, 0); (Co_ALWAYS, Op_RETURN, 0)]) !! k.
Proof.
  unfold statement_code. rewrite app_assoc, lookup_app_r; rewrite length_app, length_map, length_seq; cbn [length].
  - f_equal. lia.
  - lia.
Qed.

(** Compute the effect of an instruction on a known state. *)
Ltac vm_cbn :=
  unfold exec_dbstm, exec_print, exec_iterator, exec_control, initValueIteraror, initResult,
    checkConstraints, statementArgument, constArgument, tagnameArgument, db_bind, db_checked,
    db_call, output_add, set_of, top, set_top, alloc, lift, gets, modify, throw_if, id,
    mbind, M_bind; cbn.

(** Two states that differ in the spelling of the instruction pointer only. *)
Ltac solve_ip :=
  match goal with
  | |- context [Z.of_nat (S ?a)] =>
      match goal with
      | |- context [Z.of_nat (length ?ps + ?b)] => replace (length ps + b)%nat with (S a) by lia
      end
  end; reflexivity.

Section Run.
Context {D : Type} `{TransactionExecLaws D}.
Variables (stm : string) (params : list Variant).
Hypothesis Hn : Z.of_nat (length params) + 13 < Max_ArgumentIndex.
#[local] Set Default Proof Using "All".
Abbreviation n := (length params).
Abbreviation p := (statement_image stm params).

Definition st_at (h : ValueTupleSet.store) (d : D) (ip : Z) (cond : bool) (e : StackElement)
    (sink : list Output.Element) : ProgramInstance D :=
  mkProgramInstance p h (Some d) ip (SubroutineFrame.mk [] []) cond [e] [sink]
    DatabaseError_default None.

Lemma n_bound : Z.of_nat n + 13 < 1048575.
Proof. exact Hn. Qed.

Lemma instr_at j c op arg h d cond e sink :
  statement_code n !! j = Some (c, op, arg) ->
  at_instr (st_at h d (Z.of_nat j) cond e sink) c op arg.
Proof.
  intros Hj. destruct (statement_code_at stm params Hn j c op arg Hj) as (Ha & i & Hi & Hl).
  split_and!; [cbn; lia|done|]. by exists i.
Qed.

Lemma ip_next j : (j < n + 13)%nat -> u32 (Z.of_nat j + 1) = Z.of_nat (S j).
Proof. intros Hj. pose proof n_bound. rewrite wrap_small; lia. Qed.

(** One unconditional instruction of the program. *)
Lemma run_instr m j op arg h d cond e sink s' :
  statement_code n !! j = Some (Co_ALWAYS, op, arg) ->
  (forall f i, (m <= f)%nat -> OpCode_of (opCode i) = Some op ->
     exec_op f i arg (st_at h d (Z.of_nat j) cond e sink) = (s', Ok None)) ->
  runs m (st_at h d (Z.of_nat j) cond e sink) 1 s'.
Proof.
  intros Hj Hx. eapply (runs_exec m _ s'); [reflexivity|reflexivity|by apply instr_at|reflexivity|].
  exact Hx.
Qed.

Abbreviation e0 := (StackElement_make 0 None).

Lemma run_start d d1 cond sink :
  stm_start stm d = (d1, Ok true) ->
  runs 0 (st_at [] d 0 cond e0 sink) 2 (st_at [] d1 2 cond e0 sink).
Proof.
  intros Hs. eapply (runs_trans 0 0 _ 1 (st_at [] d 1 cond e0 sink)).
  - eapply (run_instr 0 0 Op_RESULT_SET_INIT 0); [reflexivity|].
    intros f i _ Hof. unfold exec_op. by rewrite Hof.
  - eapply (run_instr 0 1 Op_DBSTM_START 0); [reflexivity|].
    intros f i _ Hof. unfold exec_op. rewrite Hof. vm_cbn.
    change (checked_at [stm] 0 _) with (@Ok string stm). cbv beta iota. rewrite Hs. reflexivity.
Qed.

Lemma run_binds cond sink : forall done todo d d2, params = done ++ todo ->
  bind_all (length done) todo d = (d2, Ok true) ->
  runs 0 (st_at [] d (Z.of_nat (2 + length done)) cond (set_bindidx e0 (length done)) sink)
    (length todo)
    (st_at [] d2 (Z.of_nat (2 + n)) cond (set_bindidx e0 n) sink).
Proof.
  intros done todo. revert done. induction todo as [|v todo IH]; intros done d d2 Hp Hb.
  - rewrite app_nil_r in Hp. subst done. cbn in Hb. injection Hb as ->. by apply runs_refl.
  - assert (length done < n)%nat as Hlt by (rewrite Hp, length_app; cbn; lia).
    cbn [bind_all] in Hb. rewrite M_bind_eq in Hb.
    destruct (stm_bind (S (length done)) v d) as [d' [[]|ex|]] eqn:Eb; try discriminate Hb.
    apply (runs_trans 0 0 _ 1 (st_at [] d' (Z.of_nat (2 + length (done ++ [v]))) cond
      (set_bindidx e0 (length (done ++ [v]))) sink) (length todo)).
    + eapply run_instr; [by apply statement_code_bind|].
      intros f i _ Hof. unfold exec_op. rewrite Hof. vm_cbn.
      unfold checked_at. rewrite Nat2Z.id, Hp. rewrite list_lookup_middle by done. cbn.
      rewrite Eb. unfold inc_ip, modify, set_ip. cbn. rewrite length_app, Nat.add_1_r.
      pose proof (ip_next (2 + length done)) as Hip. cbn in Hip. rewrite Hip by lia. reflexivity.
    + apply IH; [by rewrite <- app_assoc|]. by rewrite length_app, Nat.add_1_r.
Qed.

(** The frame after the statement was executed with a result. *)
Definition e_result : StackElement :=
  set_hintidx (set_bindidx (set_lastResult (set_resultFlags e0 (mkResultFlags false false false))
    (Some 0%nat)) 0) 0.

Lemma exec_at_n : Z.of_nat (n + 2) = Z.of_nat (n + 2 + 0).
Proof. by rewrite Nat.add_0_r. Qed.

Lemma run_exec d d3 cond sink colnames rows :
  stm_execute d = (d3, Ok true) -> ResultAt d3 colnames rows -> colnames <> [] ->
  exists d4, runs (S (length rows)) (st_at [] d (Z.of_nat (2 + n)) cond (set_bindidx e0 n) sink) 1
    (st_at [ValueTupleSet.of_rows colnames rows] d4 (Z.of_nat (n + 3)) cond e_result sink).
Proof.
  intros Hx Hr Hc.
  destruct (fetchDatabaseResult_result (S (length rows))
    (st_at [] d3 (Z.of_nat (2 + n)) cond (set_bindidx e0 n) sink) d3 colnames rows eq_refl Hr)
    as (d4 & Hf); [lia|].
  exists d4. replace (2 + n)%nat with (n + 2 + 0)%nat in * by lia.
  eapply run_instr; [by rewrite statement_code_tail|].
  intros f i Hfu Hof. unfold exec_op. rewrite Hof. unfold exec_dbstm.
  rewrite M_bind_eq, (db_call_eq _ _ d d3 (Ok true)) by done.
  change (set_db_stm (st_at ?h d ?j ?c ?e ?s) (Some d3)) with (st_at h d3 j c e s).
  rewrite M_bind_eq, (db_call_pure _ (st_at [] d3 (Z.of_nat (n + 2 + 0)) cond (set_bindidx e0 n) sink)
    d3 _ eq_refl (law_nofColumns _ _ _ Hr)).
  rewrite M_bind_eq. destruct (length colnames) as [|nc] eqn:Enc; [by destruct colnames|].
  rewrite M_bind_eq.
  rewrite (mono_fetchDatabaseResult (S nc) (S (length rows)) f _ Hfu), Hf by (by rewrite Hf).
  unfold inc_ip. vm_cbn. unfold set_ip. cbn.
  rewrite ip_next by lia. solve_ip.
Qed.

Lemma run_exec_nothing d d3 cond sink rows :
  stm_execute d = (d3, Ok true) -> ResultAt d3 [] rows ->
  runs 0 (st_at [] d (Z.of_nat (2 + n)) cond (set_bindidx e0 n) sink) 1
    (st_at [] d3 (Z.of_nat (n + 3)) cond e0 sink).
Proof.
  intros Hx Hr. replace (2 + n)%nat with (n + 2 + 0)%nat by lia.
  eapply run_instr; [by rewrite statement_code_tail|].
  intros f i _ Hof. unfold exec_op. rewrite Hof. unfold exec_dbstm.
  rewrite M_bind_eq, (db_call_eq _ _ d d3 (Ok true)) by done.
  change (set_db_stm (st_at ?h d ?j ?c ?e ?s) (Some d3)) with (st_at h d3 j c e s).
  rewrite M_bind_eq, (db_call_pure _ (st_at [] d3 (Z.of_nat (n + 2 + 0)) cond (set_bindidx e0 n) sink)
    d3 _ eq_refl (law_nofColumns _ _ _ Hr)).
  unfold inc_ip. vm_cbn. unfold set_ip. cbn.
  rewrite ip_next by lia. solve_ip.
Qed.

Lemma run_open_array h d cond e :
  runs 0 (st_at h d (Z.of_nat (n + 3)) cond e []) 1
    (st_at h d (Z.of_nat (n + 4)) cond e [Output.mkElement Output.OpenArray (Str "")]).
Proof.
  replace (n + 3)%nat with (n + 2 + 1)%nat by lia.
  eapply run_instr; [by rewrite statement_code_tail|].
  intros f i _ Hof. unfold exec_op. rewrite Hof. vm_cbn.
  change (Z.of_nat 1 <? 1) with false.
  change (checked_at [""%string] (1 - 1) _) with (@Ok string ""%string).
  cbn. unfold set_ip. cbn. rewrite ip_next by lia. solve_ip.
Qed.

Lemma run_open_iter d cond sink colnames rows :
  ValueTupleSet.rows_ok colnames rows -> colnames <> [] ->
  runs 0 (st_at [ValueTupleSet.of_rows colnames rows] d (Z.of_nat (n + 4)) cond e_result sink) 1
    (at_row p [ValueTupleSet.of_rows colnames rows] (SubroutineFrame.mk [] []) e_result [] []
       DatabaseError_default (Some d) 0 colnames rows (Z.of_nat (n + 5))
       (negb (0 =? length rows)%nat) 0 sink).
Proof.
  intros Hok Hc. replace (n + 4)%nat with (n + 2 + 2)%nat by lia.
  eapply run_instr; [by rewrite statement_code_tail|].
  intros f i _ Hof. unfold exec_op. rewrite Hof. vm_cbn.
  pose proof (ValueTupleSetFacts.row_iterator_end 0 colnames rows 0 Hok Hc) as Hend.
  unfold ValueTupleSetFacts.row_iterator in Hend. cbn [Nat.mul] in Hend.
  unfold ValueTupleSet.begin. rewrite Hend by lia.
  unfold inc_ip, modify, set_ip. cbn. rewrite ip_next by lia. solve_ip.
Qed.

Lemma run_open_iter_nothing d cond sink :
  runs 0 (st_at [] d (Z.of_nat (n + 4)) cond e0 sink) 1
    (st_at [ValueTupleSet.empty_set] d (Z.of_nat (n + 5)) false
       (set_iterator e0 (Some 0%nat) (ValueTupleSet.begin 0) (ValueTupleSet.begin 0)) sink).
Proof.
  replace (n + 4)%nat with (n + 2 + 2)%nat by lia.
  eapply run_instr; [by rewrite statement_code_tail|].
  intros f i _ Hof. unfold exec_op. rewrite Hof. vm_cbn.
  unfold set_ip. cbn. rewrite ip_next by lia. solve_ip.
Qed.

Lemma run_skip_loop h d e sink :
  runs 0 (st_at h d (Z.of_nat (n + 5)) false e sink) 1
    (st_at h d (Z.of_nat (n + 11)) false e sink).
Proof.
  replace (n + 5)%nat with (n + 2 + 3)%nat by lia. pose proof n_bound as Hb.
  eapply (runs_exec 0 _ _ Co_NOT_IF_COND Op_GOTO (Z.of_nat n + 11)); [reflexivity|reflexivity| |reflexivity|].
  - apply instr_at. by rewrite statement_code_tail.
  - intros f i _ Hof. unfold exec_op. rewrite Hof. cbn [exec_control].
    assert (ProgramCode.size (code p) = Z.of_nat n + 13) as Hsz.
    { unfold ProgramCode.size. pose proof (length_map encode (statement_code n)) as Hl.
      rewrite length_statement_code in Hl. cbn [code statement_image].
      etrans; [apply f_equal, f_equal, Hl|]. rewrite wrap_small; lia. }
    rewrite M_bind_eq. unfold gets, id. rewrite M_bind_eq. cbn [m_program st_at]. rewrite Hsz.
    unfold throw_if. destruct (Z.ltb_spec (Z.of_nat n + 13) (Z.of_nat n + 11)); [lia|].
    replace (Z.of_nat n + 11) with (Z.of_nat (n + 11)) by lia. reflexivity.
Qed.

Lemma run_close_array h d cond e sink :
  runs 0 (st_at h d (Z.of_nat (n + 11)) cond e sink) 1
    (st_at h d (Z.of_nat (n + 12)) cond e (sink ++ [Output.element Output.CloseArray])).
Proof.
  replace (n + 11)%nat with (n + 2 + 9)%nat by lia.
  eapply run_instr; [by rewrite statement_code_tail|].
  intros f i _ Hof. unfold exec_op. rewrite Hof. vm_cbn.
  unfold set_ip. cbn. rewrite ip_next by lia. solve_ip.
Qed.

Lemma run_return f h d cond e sink :
  exists s', loop (S f) (st_at h d (Z.of_nat (n + 12)) cond e sink) = (s', Ok true) /\
    m_output s' = [sink] /\ m_db_stm s' = Some d.
Proof.
  assert (at_instr (st_at h d (Z.of_nat (n + 12)) cond e sink) Co_ALWAYS Op_RETURN 0) as Hat.
  { apply instr_at. replace (n + 12)%nat with (n + 2 + 10)%nat by lia. by rewrite statement_code_tail. }
  destruct (step_exec f (st_at h d (Z.of_nat (n + 12)) cond e sink) _ _ _ e [] eq_refl eq_refl
    Hat eq_refl) as (i & _ & Hof & _ & _ & Hs).
  cbn [loop]. rewrite M_bind_eq, Hs. unfold exec_op. rewrite Hof. vm_cbn. eauto.
Qed.

(** From the opened iterator to the end of the loop. *)
Lemma run_rows d colnames rows sink :
  ValueTupleSet.rows_ok colnames rows -> colnames <> [] ->
  exists e', runs 0
    (at_row p [ValueTupleSet.of_rows colnames rows] (SubroutineFrame.mk [] []) e_result [] []
       DatabaseError_default (Some d) 0 colnames rows (Z.of_nat (n + 5))
       (negb (0 =? length rows)%nat) 0 sink) (1 + 5 * length rows)
    (st_at [ValueTupleSet.of_rows colnames rows] d (Z.of_nat (n + 11)) false e'
       (sink ++ concat (map (array_element colnames) rows))).
Proof.
  intros Hok Hc. pose proof n_bound as Hb. destruct rows as [|row rows].
  - eexists. rewrite app_nil_r. apply run_skip_loop.
  - eexists. eapply (runs_trans 0 0 _ 1).
    + apply runs_step. intros f _.
      eapply (step_skip f _ Co_NOT_IF_COND Op_GOTO (Z.of_nat n + 11));
        [reflexivity|reflexivity| |reflexivity].
      replace (n + 5)%nat with (n + 2 + 3)%nat by lia. eapply instr_at. by rewrite statement_code_tail.
    + assert (0 + Z.of_nat n + 6 = u32 (Z.of_nat (n + 5) + 1)) as Hip by (rewrite wrap_small; lia).
      assert (code_at p (Z.of_nat n + 6) (print_loop (Z.of_nat n + 6))) as Hcode.
      { pose proof (statement_code_at stm params Hn) as Hall. unfold statement_code in Hall.
        rewrite !app_assoc in Hall. apply code_at_take in Hall. apply code_at_drop in Hall.
        rewrite !length_app, length_map, length_seq in Hall. cbn in Hall.
        replace (Z.of_nat n + 6) with (Z.of_nat (2 + n + 4)) at 1 by lia. exact Hall. }
      pose proof (runs_print_loop p [ValueTupleSet.of_rows colnames (row :: rows)]
        (SubroutineFrame.mk [] []) e_result [] [] DatabaseError_default (Some d) 0 colnames
        (row :: rows) eq_refl Hok Hc (Z.of_nat n + 6)) as Hloop.
      specialize (Hloop ltac:(lia) ltac:(lia) Hcode).
      assert (length (code p) = n + 13)%nat as Hlen.
      { etrans; [apply (length_map encode (statement_code n))|apply length_statement_code]. }
      specialize (Hloop ltac:(lia) (length rows) 0%nat true sink eq_refl).
      replace (Z.of_nat n + 6 + 5) with (Z.of_nat (n + 11)) in Hloop by lia.
      unfold set_ip, at_row in Hloop |- *. cbn [m_ip m_program m_heap m_db_stm m_subroutine_frame
        m_cond m_stack m_output m_lastError m_logTrace]. rewrite <- Hip, Z.add_0_l.
      exact Hloop.
Qed.

(** The output of the program for a statement with the result [rows]. *)
Definition result_output (colnames : list string) (rows : list (list Variant)) : Output.t :=
  [Output.mkElement Output.OpenArray (Str "") ::
   concat (map (array_element colnames) rows) ++ [Output.element Output.CloseArray]].

(** A budget for the program that returns [k] rows. *)
Definition statement_fuel (k : nat) : nat := n + 6 * k + 10.

Lemma run_prefix d d1 d2 :
  stm_start stm d = (d1, Ok true) -> bind_all 0 params d1 = (d2, Ok true) ->
  runs 0 (ProgramInstance_make p [] (Some d) None) (2 + n)
    (st_at [] d2 (Z.of_nat (2 + n)) false (set_bindidx e0 n) []).
Proof.
  intros Hs Hb. apply (runs_trans 0 0 _ 2 (st_at [] d1 2 false e0 [])); [by apply run_start|].
  by apply (run_binds false [] [] params d1 d2).
Qed.

Lemma run_suffix s0 m k h d e sink :
  runs m s0 k (st_at h d (Z.of_nat (n + 11)) false e sink) ->
  forall fuel, (m + k + 3 <= fuel)%nat -> exists s',
    loop fuel s0 = (s', Ok true) /\
    m_output s' = [sink ++ [Output.element Output.CloseArray]] /\ m_db_stm s' = Some d.
Proof.
  intros Hr fuel Hf. pose proof (runs_trans _ _ _ _ _ _ _ Hr (run_close_array h d false e sink)) as Hr'.
  replace fuel with (k + 1 + S (fuel - k - 2))%nat by lia. rewrite Hr' by lia.
  apply run_return.
Qed.

Lemma run_statement d d1 d2 d3 colnames rows :
  stm_start stm d = (d1, Ok true) -> bind_all 0 params d1 = (d2, Ok true) ->
  stm_execute d2 = (d3, Ok true) -> ResultAt d3 colnames rows ->
  exists d4, forall fuel, (statement_fuel (length rows) <= fuel)%nat -> exists s',
    ProgramInstance.execute fuel (ProgramInstance_make p [] (Some d) None) = (s', Ok true) /\
    m_output s' = result_output colnames (match colnames with [] => [] | _ => rows end) /\
    m_db_stm s' = Some d4.
Proof.
  intros Hs Hb Hx Hr. pose proof (run_prefix d d1 d2 Hs Hb) as H1.
  unfold statement_fuel. destruct (decide (colnames = [])) as [->|Hc].
  - exists d3. intros fuel Hf.
    pose proof (runs_trans _ _ _ _ _ _ _ H1 (run_exec_nothing d2 d3 false [] rows Hx Hr)) as H2.
    pose proof (runs_trans _ _ _ _ _ _ _ H2 (run_open_array [] d3 false e0)) as H3.
    pose proof (runs_trans _ _ _ _ _ _ _ H3 (run_open_iter_nothing d3 false _)) as H4.
    pose proof (runs_trans _ _ _ _ _ _ _ H4 (run_skip_loop _ _ _ _)) as H5.
    exact (run_suffix _ _ _ _ _ _ _ H5 fuel ltac:(lia)).
  - destruct (run_exec d2 d3 false [] colnames rows Hx Hr Hc) as (d4 & Hrun). exists d4.
    intros fuel Hf. pose proof (law_rows _ _ _ Hr) as Hok.
    pose proof (runs_trans _ _ _ _ _ _ _ H1 Hrun) as H2.
    pose proof (runs_trans _ _ _ _ _ _ _ H2 (run_open_array _ d4 false e_result)) as H3.
    pose proof (runs_trans _ _ _ _ _ _ _ H3 (run_open_iter d4 false _ colnames rows Hok Hc)) as H4.
    destruct (run_rows d4 colnames rows [Output.mkElement Output.OpenArray (Str "")] Hok Hc)
      as (e' & Hrows).
    pose proof (runs_trans _ _ _ _ _ _ _ H4 Hrows) as H5.
    destruct (run_suffix _ _ _ _ _ _ _ H5 fuel ltac:(lia)) as (s' & Hl & Ho & Hd).
    exists s'. split_and!; [exact Hl| |exact Hd]. rewrite Ho. by destruct colnames.
Qed.
End Run.

(** ** Properties *)


#[export] Instance string_only_tostring : VariantToString := {
  tostring v := match v with Str s => Ok s | _ => Throw (RuntimeError "bad lexical cast") end;
  tostring_Str s := eq_refl
}.

Module StatementDemo.

(** A database that knows one statement. *)
Definition db : TableDb := db_init (fun stm ps =>
  if bool_decide (stm = "SELECT name FROM t WHERE id = $1"%string) then
    match ps with
    | [Int 7] => Some (["name"; "id"]%string, [[Str "seven"; Int 7]; [Str "sept"; Int 7]])
    | _ => Some (["name"; "id"]%string, [])
    end
  else None).

Definition transaction : Transaction TableDb := mkTransaction db DatabaseError_default.

End StatementDemo.


(** A statement that the database refuses to execute: [executeStatement] returns
    false after exactly one rollback, and the error of the transaction is the error
    of the database with the database's name and the address of the failing
    instruction. *)
Theorem executeStatement_refused {D} `{TransactionExecLaws D} `{VariantToString}
    (t : Transaction D) stm params d1 d2 d3 d4 d5 err ok fuel :
  Z.of_nat (length params) + 13 < Max_ArgumentIndex ->
  stm_start stm (m_stm t) = (d1, Ok true) -> bind_all 0 params d1 = (d2, Ok true) ->
  stm_execute d2 = (d3, Ok false) -> stm_getLastError d3 = (d4, Ok (Some err)) ->
  stm_rollback d4 = (d5, Ok ok) -> (length params + 4 <= fuel)%nat ->
  executeStatementResult fuel None stm params t =
  (mkTransaction d5 (set_dbname_ip err (stm_databaseID d4) (Z.of_nat (length params + 2))), Ok None).
Proof.
  intros Hn Hs Hb Hx He Hrb Hf. pose proof (run_prefix stm params Hn (m_stm t) d1 d2 Hs Hb) as Hrun.
  unfold executeStatementResult. rewrite M_bind_eq. unfold lift.
  rewrite (singleStatementProgram_Ok stm params Hn), M_bind_eq. unfold execute.
  change (ProgramInstance.execute fuel ?s) with (loop fuel s).
  replace fuel with (2 + length params + S (fuel - length params - 3))%nat by lia.
  rewrite Hrun by lia.
  set (s := st_at stm params [] d2 (Z.of_nat (2 + length params)) false
    (set_bindidx (StackElement_make 0 None) (length params)) []).
  assert (at_instr s Co_ALWAYS Op_DBSTM_EXEC 0) as Hat.
  { apply (instr_at stm params Hn). replace (2 + length params)%nat with (length params + 2 + 0)%nat by lia.
    by rewrite statement_code_tail. }
  destruct (step_exec (fuel - length params - 3) s _ _ _ _ [] eq_refl eq_refl Hat eq_refl)
    as (i & _ & Hof & _ & _ & Hst).
  cbn [loop]. rewrite M_bind_eq, Hst. unfold exec_op. rewrite Hof. unfold exec_dbstm.
  rewrite M_bind_eq, (db_call_eq _ s d2 d3 (Ok false) eq_refl Hx). rewrite M_bind_eq.
  unfold setDatabaseError. rewrite M_bind_eq, (db_call_eq _ (set_db_stm s (Some d3)) d3 d4 _ eq_refl He).
  vm_cbn. unfold abort. vm_cbn. unfold tr_call, zoom. cbn. rewrite Hrb. cbn.
  by replace (length params + 2)%nat with (2 + length params)%nat by lia.
Qed.

Lemma executeStatement_refused_witness :
  snd (executeStatementResult 20 None "DROP t" [] StatementDemo.transaction) = Ok None.
Proof.
  erewrite (executeStatement_refused StatementDemo.transaction "DROP t" []);
    [reflexivity|reflexivity|reflexivity|reflexivity|reflexivity|reflexivity|reflexivity|cbn; lia].
Defined.

(** The elements a filter has still to produce. *)
Definition filter_rest (f : VmTransactionInputFilter.t) : nat :=
  (length (VmTransactionInputFilter.m_rest f) +
   if VmTransactionInputFilter.m_done f then 0 else 1)%nat.

Lemma next_from_decreases ser done rest : forall stack f' x,
  VmTransactionInputFilter.next_from ser done stack rest = (f', Ok (Some x)) ->
  (filter_rest f' < length rest + if done then 0 else 1)%nat.
Proof.
  unfold filter_rest. induction rest as [|el rest IH]; intros stack f' x; cbn.
  - destruct done; intros [=]; subst; cbn; lia.
  - destruct (Output.m_op el), ser, stack as [|v stack]; cbn; intros Hx;
      try (apply IH in Hx; lia); try discriminate Hx;
      try (injection Hx as <- <-; cbn; lia).
    destruct v; cbn in Hx; try discriminate Hx. injection Hx as <- <-. cbn. lia.
Qed.

Lemma next_from_no_fuel ser done rest : forall stack,
  snd (VmTransactionInputFilter.next_from ser done stack rest) <> OutOfFuel.
Proof.
  induction rest as [|el rest IH]; intros stack; cbn; [by destruct done|].
  destruct (Output.m_op el), ser, stack as [|v stack]; cbn; try done; try apply IH.
  by destruct v.
Qed.

Lemma read_element_no_fuel `{VariantToString} r type v :
  (forall v, tostring v <> OutOfFuel) -> read_element r type v <> OutOfFuel.
Proof.
  intros Ht. specialize (Ht v). unfold read_element. destruct (rd_done r); [done|].
  destruct type; cbn -[Z.add Z.sub Z.eqb]; try done.
  - destruct (_ =? 1); [by destruct v; cbn; try destruct (negb _)|].
    destruct (_ =? 2); [|done]. destruct (rd_firstRow r); [|done].
    by destruct (tostring v).
  - destruct (_ =? 1); [|done]. destruct (rd_firstRow r); [|done]. by destruct (tostring v).
  - destruct (_ =? -1); cbn -[Z.add Z.sub Z.eqb]; destruct (_ =? 0); try done;
      by destruct (negb _).
Qed.

(** Reading a result always terminates: the budget [executeStatement] reads with, two
    more than the number of output elements, is never exhausted, whatever the output
    and the state of the reader. *)
Theorem read_result_terminates `{VariantToString} r (f : VmTransactionInputFilter.t) :
  (forall v, tostring v <> OutOfFuel) ->
  read_result (length (VmTransactionInputFilter.m_rest f) + 2) r f <> OutOfFuel.
Proof.
  intros Ht.
  assert (forall fuel r f, (filter_rest f < fuel)%nat -> read_result fuel r f <> OutOfFuel) as Hall.
  { clear r f. intros fuel. induction fuel as [|fuel IH]; intros r f Hf; [lia|].
    cbn [read_result]. unfold VmTransactionInputFilter.getNext.
    pose proof (next_from_no_fuel (VmTransactionInputFilter.SerializeWithIndices f)
      (VmTransactionInputFilter.m_done f) (VmTransactionInputFilter.m_rest f)
      (VmTransactionInputFilter.m_stack f)) as Hnf.
    destruct (VmTransactionInputFilter.next_from _ _ _ _) as [f' nx] eqn:E. cbn in Hnf.
    destruct nx as [[[type v]|]|ex|]; cbn; try done.
    pose proof (read_element_no_fuel r type v Ht) as Hre.
    destruct (read_element r type v) as [[r'|msg]|ex|]; cbn; try done.
    apply IH. apply next_from_decreases in E. unfold filter_rest in Hf, E |- *. lia. }
  apply Hall. unfold filter_rest. destruct (VmTransactionInputFilter.m_done f); lia.
Qed.

Lemma read_result_terminates_witness :
  read_result (1 + 2) ReadState_init
    (VmTransactionInputFilter.mk false [Output.element Output.CloseArrayElement] [] false) <>
  OutOfFuel.
Proof.
  apply (read_result_terminates ReadState_init
    (VmTransactionInputFilter.mk false [Output.element Output.CloseArrayElement] [] false)).
  by intros [].
Defined.

(** A copy of the filter made inside an array loses the tags of the open arrays: where
    the original goes on with the next array element, the copy throws that the tags are
    not balanced. *)
Theorem filter_copy_loses_stack (f : VmTransactionInputFilter.t) arg rest tag tags :
  VmTransactionInputFilter.m_rest f = Output.mkElement Output.OpenArrayElement arg :: rest ->
  VmTransactionInputFilter.m_stack f = tag :: tags ->
  VmTransactionInputFilter.SerializeWithIndices f = false ->
  snd (VmTransactionInputFilter.getNext f) = Ok (Some (VmTransactionInputFilter.OpenTag, tag)) /\
  snd (VmTransactionInputFilter.getNext (VmTransactionInputFilter.copy f)) =
    Throw (RuntimeError "tags in output not balanced").
Proof.
  intros Hr Hs Hi. unfold VmTransactionInputFilter.getNext. cbn. by rewrite Hr, Hs, Hi.
Qed.

Lemma filter_copy_loses_stack_witness :
  snd (VmTransactionInputFilter.getNext (VmTransactionInputFilter.copy
    (VmTransactionInputFilter.mk false
       [Output.mkElement Output.OpenArrayElement (Int 0)] [Str "row"] false))) =
  Throw (RuntimeError "tags in output not balanced").
Proof. by eapply (filter_copy_loses_stack (VmTransactionInputFilter.mk _ _ _ _)). Defined.
