(* ===== verification/TdlTables.v ===== *)
(** * Tables of the compiler of the transaction language

    Models the tables a program under construction keeps
    (src/modules/cmdbind/tdl/vm/): nameTable.hpp, errorHintTable.hpp,
    tagTable.hpp and tagTable.cpp, and patchArgumentMap.hpp, which maps the argument
    indices of a program that is joined to another one to their new values.

    An exception ends the compilation and destroys the program under construction, so
    the operations return the new table or the exception. *)
From Stdlib Require Import Sorted.
From S2P Require Import Prelude InstructionSet ValueTupleSet ProgramImage.

(** ** Case of strings (boost::to_upper_copy, boost::to_lower_copy, C locale) *)

Definition tolower_ascii (c : ascii) : ascii :=
  let n := nat_of_ascii c in
  if ((65 <=? n) && (n <=? 90))%nat then ascii_of_nat (n + 32) else c.

Fixpoint map_string (f : ascii -> ascii) (s : string) : string :=
  match s with
  | EmptyString => EmptyString
  | String c s' => String (f c) (map_string f s')
  end.

Definition to_upper_copy : string -> string := map_string toupper_ascii.
Definition to_lower_copy : string -> string := map_string tolower_ascii.

(** ** Maps with string keys (std::map), iterated in the order of the keys *)

Module StdMap.

Definition t (A : Type) := list (string * A).

Fixpoint find {A} (k : string) (m : t A) : option A :=
  match m with
  | [] => None
  | (k', v) :: m' => if bool_decide (k = k') then Some v else find k m'
  end.

(** [m[ k] = v]. *)
Fixpoint set {A} (k : string) (v : A) (m : t A) : t A :=
  match m with
  | [] => [(k, v)]
  | (k', v') :: m' =>
      match String.compare k k' with
      | Lt => (k, v) :: m
      | Eq => (k, v) :: m'
      | Gt => (k', v') :: set k v m'
      end
  end.

(** Keys in ascending order. *)
Definition key_lt (k k' : string) : Prop := String.compare k k' = Lt.
Definition sorted {A} (m : t A) : Prop := StronglySorted (fun p q => key_lt p.1 q.1) m.

Lemma compare_refl k : String.compare k k = Eq.
Proof.
  induction k as [|c k IH]; [done|]. cbn. unfold Ascii.compare. by rewrite N.compare_refl.
Qed.

Lemma find_set_eq {A} k (v : A) m : find k (set k v m) = Some v.
Proof.
  induction m as [|[k' v'] m IH]; cbn; [by rewrite bool_decide_eq_true_2|].
  destruct (String.compare k k') eqn:E; cbn; try by rewrite bool_decide_eq_true_2.
  case_bool_decide as Ek; [subst; by rewrite compare_refl in E|done].
Qed.

Lemma find_set_ne {A} k k1 (v : A) m : k1 <> k -> find k1 (set k v m) = find k1 m.
Proof.
  intros Hk. induction m as [|[k' v'] m IH]; cbn; [by rewrite bool_decide_eq_false_2|].
  destruct (String.compare k k') eqn:E; cbn; try by rewrite bool_decide_eq_false_2.
  - apply String.compare_eq_iff in E as <-. by rewrite !bool_decide_eq_false_2.
  - by rewrite IH.
Qed.

Lemma length_set {A} k (v : A) m : find k m = None -> length (set k v m) = S (length m).
Proof.
  induction m as [|[k' v'] m IH]; cbn; [done|]. case_bool_decide as E; [done|]. intros Hf.
  destruct (String.compare k k') eqn:Ek; cbn; [|done|by rewrite IH].
  by apply String.compare_eq_iff in Ek.
Qed.

Lemma key_lt_trans k1 k2 k3 : key_lt k1 k2 -> key_lt k2 k3 -> key_lt k1 k3.
Proof.
  unfold key_lt. revert k2 k3. induction k1 as [|c1 k1 IH]; intros [|c2 k2] [|c3 k3]; cbn; try done.
  unfold Ascii.compare.
  destruct (N.compare_spec (N_of_ascii c1) (N_of_ascii c2)), (N.compare_spec (N_of_ascii c2) (N_of_ascii c3)),
    (N.compare_spec (N_of_ascii c1) (N_of_ascii c3)); try done; try lia. apply IH.
Qed.

Lemma sorted_set {A} k (v : A) m : sorted m -> sorted (set k v m).
Proof.
  unfold sorted. induction 1 as [|[k' v'] m Hs IH Hf]; cbn; [by repeat constructor|].
  destruct (String.compare k k') eqn:E.
  - apply String.compare_eq_iff in E as ->. by constructor.
  - constructor; [by constructor|]. constructor; [done|].
    eapply Forall_impl; [exact Hf|]. intros [k2 v2] H2; cbn in *. by eapply key_lt_trans.
  - constructor; [done|]. apply Forall_forall. intros [k2 v2] H2. apply list_elem_of_In in H2.
    assert (key_lt k' k) by (unfold key_lt; by rewrite String.compare_antisym, E).
    assert (k2 = k \/ In (k2, v2) m) as [->|Hin]; [|done|].
    { clear -H2. induction m as [|[k1 v1] m IH]; cbn in H2.
      - naive_solver.
      - destruct (String.compare k k1); cbn in *; naive_solver. }
    rewrite Forall_forall in Hf. apply (Hf (k2, v2)). by apply list_elem_of_In.
Qed.

Lemma find_In {A} k (v : A) m : sorted m -> find k m = Some v <-> In (k, v) m.
Proof.
  induction 1 as [|[k' v'] m Hs IH Hf]; cbn; [done|]. case_bool_decide as E.
  - subst k'. split; [intros [=->]; by left|]. intros [[=->]|Hin]; [done|].
    rewrite Forall_forall in Hf. apply list_elem_of_In, Hf in Hin. unfold key_lt in Hin. cbn in Hin.
    by rewrite compare_refl in Hin.
  - rewrite IH. split; [auto|]. intros [[=]|]; [by subst|done].
Qed.

End StdMap.

(** ** Maps of argument indices (patchArgumentMap.hpp) *)

(** The implementations of the interface [PatchArgumentMap]. *)
Inductive PatchArgumentMap :=
| PatchArgumentMap_Offset (ofs : Z)
| PatchArgumentMap_Table (map : gmap Z Z).

(** [operator[]]. *)
Definition patch_index (pm : PatchArgumentMap) (i : Z) : res Z :=
  match pm with
  | PatchArgumentMap_Offset ofs => Ok (u32 (ofs + i))
  | PatchArgumentMap_Table map =>
      match map !! i with
      | Some j => Ok j
      | None => Throw (LogicError "incomplete patch argument map")
      end
  end.

(** ** Names with indices from 1 (nameTable.hpp) *)

Module NameTable.

(** The keys of the map are the names in upper case ([types::keymap]). *)
Record t := mk {
  m_namemap : StdMap.t Z;
  m_namear : list string
}.

Definition make : t := mk [] [].

Definition getName (nt : t) (idx : Z) : res string :=
  if Z.of_nat (length (m_namear nt)) <? idx
  then Throw (RuntimeError "reference out of range")
  else if idx =? 0 then Throw (RuntimeError "reference is NULL")
  else match m_namear nt !! Z.to_nat (idx - 1) with
       | Some nam => Ok nam
       | None => Throw (OutOfRange "vector::at")
       end.

(** 0 if the name is not defined. *)
Definition getIndex (nt : t) (nam : string) : Z :=
  match StdMap.find (to_upper_copy nam) (m_namemap nt) with
  | Some i => i
  | None => 0
  end.

(** [keymap::insert] refuses a key that is defined. *)
Definition keymap_insert (key : string) (value : Z) (m : StdMap.t Z) : res (StdMap.t Z) :=
  match StdMap.find key m with
  | Some _ => Throw (RuntimeError ("duplicate definition of '" +:+ key +:+ "'"))
  | None => Ok (StdMap.set key value m)
  end.

Definition define (nt : t) (nam : string) : res (t * Z) :=
  m ← keymap_insert (to_upper_copy nam) (u32 (Z.of_nat (length (m_namear nt)) + 1))
        (m_namemap nt);
  let ar := m_namear nt ++ [nam] in
  Ok (mk m ar, u32 (Z.of_nat (length ar))).

Definition get (nt : t) (nam : string) : res (t * Z) :=
  match StdMap.find (to_upper_copy nam) (m_namemap nt) with
  | None => define nt nam
  | Some i => Ok (nt, i)
  end.

(** The loop of [join] over the entries of the other table, in the order of its keys. *)
Fixpoint join_from (oi : StdMap.t Z) (oth : t) (nt : t) (map : gmap Z Z) : res (t * gmap Z Z) :=
  match oi with
  | [] => Ok (nt, map)
  | (_, i) :: oi' =>
      match m_namear oth !! Z.to_nat (u32 (i - 1)) with
      | None => Throw (OutOfRange "vector::at")
      | Some nam => '(nt, j) ← get nt nam; join_from oi' oth nt (<[i := j]> map)
      end
  end.

Definition join (nt oth : t) : res (t * PatchArgumentMap) :=
  '(nt, map) ← join_from (m_namemap oth) oth nt ∅;
  Ok (nt, PatchArgumentMap_Table map).

Definition array (nt : t) : list string := m_namear nt.

End NameTable.

(** ** Hints for errors of a statement, with indices from 1 (errorHintTable.hpp) *)

Module ErrorHintTable.

Definition t := list (list ErrorHint).

Definition make : t := [].

(** The first hint of a list for an error class. *)
Fixpoint find_class (hints : list ErrorHint) (cls : string) : option string :=
  match hints with
  | [] => None
  | hi :: he => if iequals cls (hint_errorclass hi) then Some (hint_message hi)
                else find_class he cls
  end.

(** A null pointer if there is no hint for the class. *)
Definition findHint (ht : t) (idx : Z) (cls : string) : res (option string) :=
  if (Z.of_nat (length ht) <? idx) || (idx =? 0)
  then Throw (RuntimeError "hint table index out of bounds")
  else match ht !! Z.to_nat (idx - 1) with
       | Some hints => Ok (find_class hints cls)
       | None => Throw (OutOfRange "vector::at")
       end.

Definition startdef (ht : t) : res (t * Z) :=
  if Max_ArgumentIndex <=? Z.of_nat (length ht)
  then Throw (RuntimeError "number of defined hint sets out of bounds")
  else let ht := ht ++ [[]] in Ok (ht, u32 (Z.of_nat (length ht))).

Definition define (ht : t) (cls message : string) : res t :=
  match last ht with
  | None => Throw (LogicError "hint table definition without start")
  | Some top =>
      h ← findHint ht (u32 (Z.of_nat (length ht))) cls;
      match h with
      | Some _ => Throw (RuntimeError ("duplicate definition of hint for error class '" +:+ cls
                                         +:+ "' for same statement"))
      | None => Ok (removelast ht ++ [top ++ [mkErrorHint cls message]])
      end
  end.

Definition join (ht oth : t) : t * PatchArgumentMap :=
  (ht ++ oth, PatchArgumentMap_Offset (u32 (Z.of_nat (length ht)))).

End ErrorHintTable.

(** ** Tags as integers (tagTable.hpp, tagTable.cpp) *)

Module TagTable.

(** [m_size] is never changed.  The index of a tag is the position of its name in the
    buffer [m_strings] of names that end with a null character. *)
Record t := mk {
  m_case_sensitive : bool;
  m_size : Z;
  m_map : StdMap.t Z;
  m_strings : list ascii
}.

Definition nul : ascii := "000"%char.

Definition make (case_sensitive : bool) : t := mk case_sensitive 0 [] [nul; nul].

Definition key (tab : t) (tagnam : string) : string :=
  if m_case_sensitive tab then tagnam else to_lower_copy tagnam.

Definition find (tab : t) (tagnam : string) : Z :=
  match StdMap.find (key tab tagnam) (m_map tab) with
  | Some i => i
  | None => 0
  end.

Definition get (tab : t) (tagnam : string) : t * Z :=
  match StdMap.find (key tab tagnam) (m_map tab) with
  | None =>
      let rt := i32 (Z.of_nat (length (m_strings tab))) in
      (mk (m_case_sensitive tab) (m_size tab) (StdMap.set (key tab tagnam) rt (m_map tab))
          (m_strings tab ++ String.list_ascii_of_string tagnam ++ [nul]), rt)
  | Some rt => (tab, rt)
  end.

(** The string a pointer into a buffer denotes to the C library. *)
Fixpoint c_str (buf : list ascii) : list ascii :=
  match buf with
  | [] => []
  | c :: buf' => if bool_decide (c = nul) then [] else c :: c_str buf'
  end.

(** [None] for the null pointer. *)
Definition getstr (tab : t) (tg : Z) : res (option string) :=
  if tg <=? 0 then Ok None
  else if Z.of_nat (length (m_strings tab)) <? tg then Throw (Undefined "read out of bounds")
  else Ok (Some (String.string_of_list_ascii (c_str (drop (Z.to_nat tg) (m_strings tab))))).

Fixpoint insert_from (oi : StdMap.t Z) (tab : t) (rt : gmap Z Z) : t * gmap Z Z :=
  match oi with
  | [] => (tab, rt)
  | (k, i) :: oi' => let '(tab, ref) := get tab k in insert_from oi' tab (<[i := ref]> rt)
  end.

Definition insert (tab o : t) : t * gmap Z Z := insert_from (m_map o) tab ∅.

Definition unused : Z := 1.

End TagTable.

(** ** Facts *)

Lemma toupper_idemp c : toupper_ascii (toupper_ascii c) = toupper_ascii c.
Proof. by destruct c as [[] [] [] [] [] [] [] []]. Qed.

Lemma tolower_idemp c : tolower_ascii (tolower_ascii c) = tolower_ascii c.
Proof. by destruct c as [[] [] [] [] [] [] [] []]. Qed.

Lemma map_string_compose f g s : map_string f (map_string g s) = map_string (fun c => f (g c)) s.
Proof. induction s; cbn; congruence. Qed.

Lemma map_string_ext f g s : (forall c, f c = g c) -> map_string f s = map_string g s.
Proof. intros H. induction s; cbn; congruence. Qed.

Lemma iequals_upper a b : iequals a b = true <-> to_upper_copy a = to_upper_copy b.
Proof.
  revert b. induction a as [|c a IH]; intros [|d b]; cbn; try done.
  rewrite andb_true_iff, bool_decide_eq_true, IH. split; [intros [-> ->]; done|by intros [=]].
Qed.

#[export] Instance iequals_equivalence : Equivalence (fun a b => iequals a b = true).
Proof.
  split; intros ? **; rewrite ?iequals_upper in *; congruence.
Qed.

Lemma iequals_app a b a' b' :
  iequals a a' = true -> iequals b b' = true -> iequals (a +:+ b) (a' +:+ b') = true.
Proof.
  revert a'. induction a as [|c a IH]; intros [|c' a']; cbn [iequals]; try done.
  rewrite andb_true_iff. intros [Hc Ha] Hb.
  change (iequals (String c (a +:+ b)) (String c' (a' +:+ b')) = true). cbn [iequals].
  rewrite Hc. by apply IH.
Qed.

Lemma lookup_snoc_cases {A} (l : list A) x i y :
  (l ++ [x]) !! i = Some y <-> l !! i = Some y \/ (i = length l /\ y = x).
Proof.
  rewrite lookup_app. destruct (l !! i) eqn:E.
  - split; [auto|]. intros [H|[-> _]]; [done|]. apply lookup_lt_Some in E. lia.
  - apply lookup_ge_None in E. rewrite list_lookup_singleton.
    destruct (i - length l)%nat eqn:Ei.
    + split; [intros [=->]; right; split; [lia|done]|]. intros [|[-> ->]]; done.
    + split; [done|]. intros [|[-> _]]; [done|lia].
Qed.

Module NameTableFacts.
Import NameTable.

(** The map of a table gives the index of each name: no two names are equal up to case. *)
Record ok (nt : t) : Prop := {
  ok_sorted : StdMap.sorted (m_namemap nt);
  ok_size : Z.of_nat (length (m_namear nt)) < 2 ^ 32;
  ok_length : length (m_namemap nt) = length (m_namear nt);
  ok_index : forall k v, StdMap.find k (m_namemap nt) = Some v <->
    exists i nam, m_namear nt !! i = Some nam /\ to_upper_copy nam = k /\ v = Z.of_nat i + 1
}.

Lemma ok_make : ok make.
Proof. split; [constructor|done|done|]. intros k v. split; [done|]. by intros (i & nam & ? & _). Qed.

Lemma ok_unique nt i j a b :
  ok nt -> m_namear nt !! i = Some a -> m_namear nt !! j = Some b ->
  iequals a b = true -> i = j.
Proof.
  intros Hok Hi Hj Hab. apply iequals_upper in Hab.
  assert (StdMap.find (to_upper_copy b) (m_namemap nt) = Some (Z.of_nat i + 1)) as H1.
  { apply ok_index; [done|]. by exists i, a. }
  assert (StdMap.find (to_upper_copy b) (m_namemap nt) = Some (Z.of_nat j + 1)) as H2.
  { apply ok_index; [done|]. by exists j, b. }
  rewrite H1 in H2. injection H2. lia.
Qed.

(** What [get] returns: the index of the name that is equal up to case, a new one otherwise. *)
Lemma get_spec nt nam :
  ok nt -> Z.of_nat (length (m_namear nt)) + 1 < 2 ^ 32 ->
  exists nt' i nam', get nt nam = Ok (nt', Z.of_nat i + 1) /\ ok nt' /\
    m_namear nt' !! i = Some nam' /\ iequals nam nam' = true /\
    (nt' = nt \/ m_namear nt' = m_namear nt ++ [nam]).
Proof.
  intros Hok Hlen. unfold get. destruct (StdMap.find _ _) as [v|] eqn:Ef.
  - apply ok_index in Ef as (i & nam' & Hi & Hu & ->); [|done]. exists nt, i, nam'.
    split_and!; try done; [|by left]. by apply iequals_upper.
  - unfold define, keymap_insert. rewrite Ef. cbn. rewrite length_app. cbn [length].
    rewrite !wrap_small by lia. eexists _, (length (m_namear nt)), nam.
    split; [do 3 f_equal; lia|]. split.
    + split; cbn; [by apply StdMap.sorted_set, ok_sorted|rewrite length_app; cbn; lia| |].
      { rewrite (StdMap.length_set _ _ _ Ef), length_app, (ok_length _ Hok). cbn. lia. }
      intros k v. destruct (decide (k = to_upper_copy nam)) as [->|Hk].
      * rewrite StdMap.find_set_eq. split.
        -- intros [=<-]. exists (length (m_namear nt)), nam. by rewrite lookup_snoc_cases; auto.
        -- intros (i & nam' & Hi & Hu & ->). apply lookup_snoc_cases in Hi as [Hi|[-> ->]]; [|done].
           assert (StdMap.find (to_upper_copy nam) (m_namemap nt) = Some (Z.of_nat i + 1)) as H1.
           { apply ok_index; [done|]. by exists i, nam'. }
           by rewrite Ef in H1.
      * rewrite StdMap.find_set_ne, (ok_index _ Hok) by done.
        split; intros (i & nam' & Hi & Hu & ->); exists i, nam'; split_and!; try done.
        -- apply lookup_snoc_cases. by left.
        -- apply lookup_snoc_cases in Hi as [Hi|[-> ->]]; [done|]. by destruct Hk.
    + cbn. split_and!; [apply lookup_snoc_cases; auto| |by right].
      by apply iequals_upper.
Qed.

Lemma getIndex_0 nt nam :
  ok nt -> getIndex nt nam = 0 <-> Forall (fun c => iequals nam c = false) (m_namear nt).
Proof.
  intros Hok. unfold getIndex. destruct (StdMap.find _ _) as [v|] eqn:Ef.
  - apply ok_index in Ef as (i & nam' & Hi & Hu & ->); [|done]. split; [lia|].
    intros Hf. rewrite Forall_lookup in Hf. apply Hf in Hi.
    apply not_true_iff_false in Hi. by rewrite iequals_upper in Hi.
  - split; [|done]. intros _. apply Forall_lookup. intros i c Hi.
    apply not_true_iff_false. intros Hc%iequals_upper.
    assert (StdMap.find (to_upper_copy nam) (m_namemap nt) = Some (Z.of_nat i + 1)) as H1.
    { apply ok_index; [done|]. by exists i, c. }
    by rewrite Ef in H1.
Qed.

Lemma getIndex_pos nt nam :
  ok nt -> getIndex nt nam <> 0 -> exists i nam', getIndex nt nam = Z.of_nat i + 1 /\
    m_namear nt !! i = Some nam' /\ iequals nam nam' = true.
Proof.
  intros Hok. unfold getIndex. destruct (StdMap.find _ _) as [v|] eqn:Ef; [|done]. intros _.
  apply ok_index in Ef as (i & nam' & Hi & Hu & ->); [|done]. exists i, nam'.
  split_and!; try done. by apply iequals_upper.
Qed.

Lemma get_prefix nt nt' nam :
  nt' = nt \/ m_namear nt' = m_namear nt ++ [nam] ->
  m_namear nt `prefix_of` m_namear nt' /\ (length (m_namear nt') <= length (m_namear nt) + 1)%nat.
Proof.
  intros [->|E]; [split; [done|lia]|]. rewrite E, length_app. cbn. split; [by eexists|lia].
Qed.

(** The entry of a joined table that stands for an entry of the other one. *)
Definition renamed (oth nt : t) (i j : Z) : Prop :=
  exists n m nam nam', i = Z.of_nat n + 1 /\ j = Z.of_nat m + 1 /\
    m_namear oth !! n = Some nam /\ m_namear nt !! m = Some nam' /\ iequals nam nam' = true.

Lemma renamed_prefix oth nt nt' i j :
  m_namear nt `prefix_of` m_namear nt' -> renamed oth nt i j -> renamed oth nt' i j.
Proof.
  intros Hp (n & m & nam & nam' & Hi & Hj & Hn & Hm & He). exists n, m, nam, nam'.
  split_and!; try done. by eapply prefix_lookup_Some.
Qed.

Lemma join_from_spec oth : ok oth -> forall oi nt map,
  (forall k i, In (k, i) oi -> exists n nam, m_namear oth !! n = Some nam /\ i = Z.of_nat n + 1) ->
  ok nt -> Z.of_nat (length (m_namear nt) + length oi) < 2 ^ 32 ->
  (forall i j, map !! i = Some j -> renamed oth nt i j) ->
  exists nt' map', join_from oi oth nt map = Ok (nt', map') /\ ok nt' /\
    m_namear nt `prefix_of` m_namear nt' /\
    (length (m_namear nt') <= length (m_namear nt) + length oi)%nat /\
    (forall i j, map' !! i = Some j -> renamed oth nt' i j) /\
    (forall i, is_Some (map !! i) \/ (exists k, In (k, i) oi) -> is_Some (map' !! i)).
Proof.
  intros Hoth oi. induction oi as [|[k i] oi IH]; intros nt map Hoi Hok Hlen Hmap; cbn [join_from].
  { exists nt, map. split_and!; try done; [lia|]. naive_solver. }
  destruct (Hoi k i) as (n & nam & Hn & Hi); [by left|].
  pose proof (ok_size _ Hoth). apply lookup_lt_Some in Hn as Hlt. cbn [length] in Hlen.
  subst i. rewrite wrap_small by lia. replace (Z.to_nat (Z.of_nat n + 1 - 1)) with n by lia. rewrite Hn.
  destruct (get_spec nt nam Hok) as (nt1 & m & nam' & Hg & Hok1 & Hm & He & Hnt1); [lia|].
  rewrite Hg. cbn. apply get_prefix in Hnt1 as [Hp1 Hl1].
  destruct (IH nt1 (<[Z.of_nat n + 1 := Z.of_nat m + 1]> map))
    as (nt' & map' & Hj & Hok' & Hp' & Hl' & Hmap' & Hdom'); [naive_solver|done|lia| |].
  { intros i' j'. rewrite lookup_insert. case_decide as Ei.
    - intros [= <-]. exists n, m, nam, nam'. subst i'. done.
    - intros Hl. eapply renamed_prefix; [done|auto]. }
  exists nt', map'. split_and!; try done; [by etrans|lia|].
  intros i' [Hs|[k' [[= _ <-]|Hk']]]; apply Hdom'; [| |right; by exists k'].

  - left. rewrite lookup_insert. case_decide; [done|]. done.
  - left. rewrite lookup_insert_eq. done.
Qed.

(** Joining keeps the names of the table and gives every name of the other one an entry. *)
Lemma join_spec nt oth :
  ok nt -> ok oth -> Z.of_nat (length (m_namear nt) + length (m_namear oth)) < 2 ^ 32 ->
  exists nt' pm, join nt oth = Ok (nt', pm) /\ ok nt' /\
    m_namear nt `prefix_of` m_namear nt' /\
    (length (m_namear nt') <= length (m_namear nt) + length (m_namear oth))%nat /\
    (forall i j, patch_index pm i = Ok j -> renamed oth nt' i j) /\
    (forall i, 1 <= i <= Z.of_nat (length (m_namear oth)) -> exists j, patch_index pm i = Ok j).
Proof.
  intros Hok Hoth Hlen. unfold join.
  destruct (join_from_spec oth Hoth (m_namemap oth) nt ∅) as (nt' & map & Hj & Hok' & Hp & Hl & Hm & Hd).
  - intros k i Hin. apply StdMap.find_In in Hin; [|by apply ok_sorted].
    apply ok_index in Hin as (n & nam & ? & _ & ?); [|done]. by exists n, nam.
  - done.
  - by rewrite (ok_length _ Hoth).
  - intros i j. by rewrite lookup_empty.
  - rewrite Hj. cbn. rewrite (ok_length _ Hoth) in Hl.
    exists nt', (PatchArgumentMap_Table map). split_and!; try done.
    + intros i j. cbn. destruct (map !! i) eqn:E; [|done]. intros [= <-]. auto.
    + intros i Hi. destruct (lookup_lt_is_Some_2 (m_namear oth) (Z.to_nat (i - 1))) as [nam Hnam]; [lia|].
      destruct (Hd i) as [j Ej]; [|exists j; cbn; by rewrite Ej].
      right. exists (to_upper_copy nam). apply StdMap.find_In; [by apply ok_sorted|].
      apply ok_index; [done|]. exists (Z.to_nat (i - 1)), nam. split_and!; [done|done|lia].
Qed.

End NameTableFacts.
