(* ===== verification/SelectorPath.v ===== *)
(** * Selector paths of the transaction language

    Models src/modules/cmdbind/tdl/vm/selectorPath.hpp and selectorPath.cpp (parsing and
    printing of paths that select nodes of the input of a transaction) and
    selectorPathSet.hpp and .cpp (the table of the paths of a program). *)
From S2P Require Import Prelude InstructionSet ValueTupleSet TdlTables.

Module SelectorPath.

Inductive Type_ := Root | Current | Next | Find | Up.

#[global] Instance Type_eq_dec : EqDecision Type_.
Proof. solve_decision. Defined.

Record Element := mkElement {
  m_type : Type_;
  m_tag : Z
}.

Definition t := list Element.

Definition slash : ascii := "/"%char.
Definition asterisk : ascii := "*"%char.

Definition dquote : string := String "034"%char "".

(** Characters up to the blank are skipped at the start. *)
Definition is_blank (c : ascii) : bool := (nat_of_ascii c <=? 32)%nat.

Fixpoint skip_blanks (ii : list ascii) : list ascii :=
  match ii with
  | [] => []
  | c :: ii' => if is_blank c then skip_blanks ii' else ii
  end.

(** The characters up to the next slash. *)
Fixpoint span_tag (ii : list ascii) : list ascii * list ascii :=
  match ii with
  | [] => ([], [])
  | c :: ii' => if bool_decide (c = slash) then ([], ii)
                else let '(tagnam, rest) := span_tag ii' in (c :: tagnam, rest)
  end.

(** The separator in front of a tag: nothing for the end of the path. *)
Definition read_separator (ii : list ascii) : option (Type_ * list ascii) :=
  match ii with
  | [] => None
  | c :: ii1 =>
      if bool_decide (c = slash) then
        match ii1 with
        | [] => None
        | d :: ii2 => if bool_decide (d = slash) then Some (Find, ii2) else Some (Next, ii1)
        end
      else Some (Next, ii)
  end.

Abbreviation str := String.string_of_list_ascii.
Abbreviation chars := String.list_ascii_of_string.

(** The element for a tag: [None] for the current node, which is left out. *)
Definition tag_element (selector : string) (type : Type_) (tagnam : list ascii) (tm : TagTable.t)
    : res (option Element * TagTable.t) :=
  match tagnam with
  | [] => Throw (RuntimeError ("empty tag in path '" +:+ selector +:+ "'"))
  | _ =>
      if bool_decide (str tagnam = "..") then
        if bool_decide (type = Find)
        then Throw (RuntimeError ("selection '//..' is illegal in path '" +:+ selector +:+ "'"))
        else Ok (Some (mkElement Up 0), tm)
      else if bool_decide (str tagnam = ".") then
        if bool_decide (type = Find)
        then Throw (RuntimeError ("selection '//.' is illegal in path '" +:+ selector +:+ "'"))
        else Ok (None, tm)
      else if bool_decide (str tagnam = "*") then Ok (Some (mkElement type 0), tm)
      else if bool_decide (asterisk ∈ TagTable.c_str tagnam)
      then Throw (RuntimeError ("asterisk character '*' not allowed as character in a token other than the string "
                                  +:+ dquote +:+ "*" +:+ dquote))
      else let '(tm, tag) := TagTable.get tm (str tagnam) in Ok (Some (mkElement type tag), tm)
  end%string.

(** The loop over the selector; a round consumes at least one character. *)
Fixpoint parse_loop (fuel : nat) (selector : string) (ii : list ascii) (path : t)
    (tm : TagTable.t) : res (t * TagTable.t) :=
  match read_separator ii with
  | None => Ok (path, tm)
  | Some (type, ii) =>
      match fuel with
      | O => OutOfFuel
      | S fuel' =>
          let '(tagnam, ii) := span_tag ii in
          '(e, tm) ← tag_element selector type tagnam tm;
          parse_loop fuel' selector ii (match e with Some e => path ++ [e] | None => path end) tm
      end
  end.

(** [print]: [first] is whether the element is the first one, [prev] the type before. *)
Definition tagstr (tm : TagTable.t) (tag : Z) : res string :=
  if tag =? 0 then Ok "*"%string
  else s ← TagTable.getstr tm tag;
       match s with
       | Some s => Ok s
       | None => Throw (Undefined "null pointer")
       end.

Definition print_element (first : bool) (prev : Type_) (e : Element) (tm : TagTable.t)
    : res string :=
  match m_type e with
  | Current => Ok ""
  | Root => if first then Ok "" else Throw (RuntimeError "illegal path")
  | Next => s ← tagstr tm (m_tag e); Ok ((if bool_decide (prev = Current) then "" else "/") +:+ s)
  | Find => s ← tagstr tm (m_tag e); Ok ((if bool_decide (prev = Current) then ".//" else "//") +:+ s)
  | Up => if bool_decide (prev = Root) then Throw (RuntimeError "illegal path")
          else Ok (if bool_decide (prev = Current) then ".." else "/..")
  end%string.

Fixpoint print_from (first : bool) (prev : Type_) (path : t) (tm : TagTable.t) : res string :=
  match path with
  | [] => Ok (match prev with Root => "/" | Current => "." | _ => "" end)
  | e :: path' =>
      s ← print_element first prev e tm;
      rest ← print_from false (m_type e) path' tm;
      Ok (s +:+ rest)
  end%string.

Definition tostring (path : t) (tm : TagTable.t) : res string := print_from true Next path tm.

(** The constructor: the path is printed again and compared with the selector. *)
Definition make (selector : string) (tm : TagTable.t) : res (t * TagTable.t) :=
  match skip_blanks (chars selector) with
  | [] => Ok ([], tm)
  | (c :: _) as ii =>
      let first := mkElement (if bool_decide (c = slash) then Root else Current) 0 in
      '(path, tm) ← parse_loop (length ii) selector ii [first] tm;
      redu ← tostring path tm;
      if iequals redu selector || iequals ("./" +:+ redu) selector then Ok (path, tm)
      else Throw (RuntimeError ("illegal selection path string '" +:+ selector
                                  +:+ "' (reduced to '" +:+ redu +:+ "')"))
  end%string.

Definition normalize (pathstr : string) : res string :=
  '(path, tm) ← make pathstr (TagTable.make false); tostring path tm.

(** [None] for the null pointer. *)
Definition lastElementName (path : t) (tm : TagTable.t) : res (option string) :=
  match last path with
  | None => Ok None
  | Some e =>
      if negb (m_tag e =? 0) then TagTable.getstr tm (m_tag e)
      else if bool_decide (m_type e = Current) && (length path =? 1)%nat then Ok (Some "."%string)
      else Ok None
  end.

(** The table of the code has no entry for [Current]. *)
Definition Type_val (i : Type_) : Z :=
  match i with Root => 0 | Current => 1 | Next => 2 | Find => 3 | Up => 4 end.
Definition typeName (i : Type_) : res string :=
  table_read ["Root"; "Next"; "Find"; "Up"]%string (Type_val i).

End SelectorPath.

(** ** The paths of a program, with indices from 1 *)

Module SelectorPathSet.

Record t := mk {
  m_tagtab : TagTable.t;
  m_pathar : list SelectorPath.t
}.

Definition make : t := mk (TagTable.make false) [].

Definition getPath (ps : t) (idx : Z) : res SelectorPath.t :=
  if idx =? 0 then Throw (RuntimeError "accessing null selector path")
  else if Z.of_nat (length (m_pathar ps)) <? idx
  then Throw (RuntimeError "selector path index out of bounds")
  else match m_pathar ps !! Z.to_nat (idx - 1) with
       | Some p => Ok p
       | None => Throw (OutOfRange "vector::at")
       end.

Definition add (ps : t) (selector : string) : res (t * Z) :=
  '(p, tm) ← SelectorPath.make selector (m_tagtab ps);
  let ar := m_pathar ps ++ [p] in
  Ok (mk tm ar, u32 (Z.of_nat (length ar))).

(** The tags of a path of the other set, as tags of this one. *)
Fixpoint join_path (elems : SelectorPath.t) (oth_tagtab tagtab : TagTable.t)
    : res (SelectorPath.t * TagTable.t) :=
  match elems with
  | [] => Ok ([], tagtab)
  | ei :: ee =>
      '(ei, tagtab) ←
        (if negb (SelectorPath.m_tag ei =? 0) then
           estr ← TagTable.getstr oth_tagtab (SelectorPath.m_tag ei);
           match estr with
           | None => Throw (LogicError "patch argument tag name not found")
           | Some estr =>
               let '(tagtab, tag) := TagTable.get tagtab estr in
               Ok (SelectorPath.mkElement (SelectorPath.m_type ei) tag, tagtab)
           end
         else Ok (ei, tagtab));
      '(ee, tagtab) ← join_path ee oth_tagtab tagtab;
      Ok (ei :: ee, tagtab)
  end.

Fixpoint join_from (paths : list SelectorPath.t) (oth : t) (ps : t) : res t :=
  match paths with
  | [] => Ok ps
  | p :: paths' =>
      '(p, tagtab) ← join_path p (m_tagtab oth) (m_tagtab ps);
      join_from paths' oth (mk tagtab (m_pathar ps ++ [p]))
  end.

Definition join (ps oth : t) : res (t * PatchArgumentMap) :=
  ps' ← join_from (m_pathar oth) oth ps;
  Ok (ps', PatchArgumentMap_Offset (u32 (Z.of_nat (length (m_pathar ps))))).

End SelectorPathSet.

(** ** Facts *)

Module TagTableFacts.
Import TagTable.

(** The name [nam] is stored at position [i] of a buffer. *)
Definition tag_at (strings : list ascii) (i : Z) (nam : string) : Prop :=
  0 < i /\ (nul ∉ SelectorPath.chars nam) /\
  exists rest, drop (Z.to_nat i) strings = SelectorPath.chars nam ++ nul :: rest.

Definition fits (tab : t) : Prop := Z.of_nat (length (m_strings tab)) < 2 ^ 31.

Record ok (tab : t) : Prop := {
  ok_start : (2 <= length (m_strings tab))%nat;
  ok_names : forall k i, StdMap.find k (m_map tab) = Some i ->
    exists nam, key tab nam = k /\ tag_at (m_strings tab) i nam
}.

Lemma ok_make_tags b : ok (make b).
Proof. by split. Qed.

Lemma c_str_name cs rest : nul ∉ cs -> c_str (cs ++ nul :: rest) = cs.
Proof.
  induction cs as [|c cs IH]; cbn; [done|]. intros H. rewrite not_elem_of_cons in H.
  rewrite bool_decide_eq_false_2 by naive_solver. f_equal. naive_solver.
Qed.

Lemma chars_str s : String.string_of_list_ascii (String.list_ascii_of_string s) = s.
Proof. apply String.string_of_list_ascii_of_string. Qed.

Lemma tag_at_getstr tab i nam : tag_at (m_strings tab) i nam -> getstr tab i = Ok (Some nam).
Proof.
  intros (Hi & Hn & rest & Hd). unfold getstr. destruct (Z.leb_spec i 0); [lia|].
  destruct (Z.ltb_spec (Z.of_nat (length (m_strings tab))) i).
  - rewrite drop_ge in Hd by lia. by destruct (SelectorPath.chars nam).
  - by rewrite Hd, c_str_name, chars_str.
Qed.

Lemma tag_at_app strings i nam more : tag_at strings i nam -> tag_at (strings ++ more) i nam.
Proof.
  intros (Hi & Hn & rest & Hd). split_and!; [done|done|]. exists (rest ++ more).
  rewrite drop_app, Hd. rewrite <- app_assoc. cbn. do 2 f_equal.
  replace (Z.to_nat i - length strings)%nat with 0%nat; [done|].
  assert (drop (Z.to_nat i) strings <> []) as Hne by (rewrite Hd; by destruct (SelectorPath.chars nam)).
  destruct (decide (Z.to_nat i < length strings)%nat); [lia|]. by rewrite drop_ge in Hne by lia.
Qed.

Lemma get_grows tab nam : m_strings tab `prefix_of` m_strings ((get tab nam).1).
Proof. unfold get. destruct (StdMap.find _ _); cbn; [done|]. by eexists. Qed.

(** [get] gives the position of a name that is the same up to case. *)
Lemma get_tag_spec tab nam :
  ok tab -> nul ∉ SelectorPath.chars nam -> fits (get tab nam).1 ->
  exists nam', ok (get tab nam).1 /\ m_case_sensitive (get tab nam).1 = m_case_sensitive tab /\
    key tab nam' = key tab nam /\
    tag_at (m_strings (get tab nam).1) (get tab nam).2 nam'.
Proof.
  intros Hok Hnul. unfold get, fits. destruct (StdMap.find (key tab nam) (m_map tab)) as [i|] eqn:Ef; cbn.
  { intros _. destruct (ok_names _ Hok _ _ Ef) as (nam' & Hk & Ht). by exists nam'. }
  pose proof (ok_start _ Hok) as Hst. rewrite length_app. intros Hfit.
  rewrite i32_small by lia. exists nam.
  assert (tag_at (m_strings tab ++ SelectorPath.chars nam ++ [nul])
            (Z.of_nat (length (m_strings tab))) nam) as Hat.
  { split_and!; [lia|done|]. exists []. by rewrite Nat2Z.id, drop_app_length. }
  split_and!; try done. split; cbn; [rewrite length_app; lia|].
  intros k i. destruct (decide (k = key tab nam)) as [->|Hk].
  - rewrite StdMap.find_set_eq. intros [= <-]. by exists nam.
  - rewrite StdMap.find_set_ne by done. intros Hf.
    destruct (ok_names _ Hok _ _ Hf) as (nam' & Hk' & Ht). exists nam'. split; [done|].
    by apply tag_at_app.
Qed.
End TagTableFacts.

Module SelectorPathFacts.
Import SelectorPath TagTableFacts.
Abbreviation strings := TagTable.m_strings.

(** Tags that name the same thing, up to case, in two tables without case. *)
Definition same_tag (tab tab' : TagTable.t) (i j : Z) : Prop :=
  (i = 0 /\ j = 0) \/
  exists nam nam', tag_at (strings tab) i nam /\ tag_at (strings tab') j nam' /\
    iequals nam nam' = true.

Definition same_element (tab tab' : TagTable.t) (e e' : Element) : Prop :=
  m_type e = m_type e' /\ same_tag tab tab' (m_tag e) (m_tag e').

Definition same_path (tab tab' : TagTable.t) : t -> t -> Prop := Forall2 (same_element tab tab').

Definition ok_path (tab : TagTable.t) : t -> Prop :=
  Forall (fun e => m_tag e = 0 \/ exists nam, tag_at (strings tab) (m_tag e) nam).

Lemma same_path_grows tab tab1 tab2 p p' :
  strings tab1 `prefix_of` strings tab2 -> same_path tab tab1 p p' -> same_path tab tab2 p p'.
Proof.
  intros [more Hm] Hp. eapply Forall2_impl; [exact Hp|]. intros e e' [Ht [H|(nam & nam' & H1 & H2 & H3)]].
  - split; [done|by left].
  - split; [done|]. right. exists nam, nam'. rewrite Hm. split_and!; try done. by apply tag_at_app.
Qed.

Lemma ok_path_grows tab1 tab2 p :
  strings tab1 `prefix_of` strings tab2 -> ok_path tab1 p -> ok_path tab2 p.
Proof.
  intros [more Hm] Hp. eapply Forall_impl; [exact Hp|]. intros e [H|[nam H]]; [by left|].
  right. exists nam. rewrite Hm. by apply tag_at_app.
Qed.

Lemma lower_upper a b : to_lower_copy a = to_lower_copy b -> iequals a b = true.
Proof.
  revert b. induction a as [|c a IH]; intros [|d b]; cbn; try done.
  intros [= Hc Hs]. rewrite andb_true_iff, bool_decide_eq_true. split; [|by apply IH].
  assert (forall x, toupper_ascii x = toupper_ascii (tolower_ascii x)) as Hx
    by (by intros [[] [] [] [] [] [] [] []]).
  by rewrite (Hx c), (Hx d), Hc.
Qed.

Lemma nul_upper c : toupper_ascii c = TagTable.nul <-> c = TagTable.nul.
Proof. split; [|by intros ->]. by destruct c as [[] [] [] [] [] [] [] []]. Qed.

(** Paths that are the same are printed the same, up to case. *)
Lemma same_path_print tab tab' p p' first prev s :
  same_path tab tab' p p' -> print_from first prev p tab = Ok s ->
  exists s', print_from first prev p' tab' = Ok s' /\ iequals s s' = true.
Proof.
  intros Hp. revert first prev s.
  induction Hp as [|e e' p p' [Ht Htag] Hp IH]; intros first prev s; cbn.
  { intros [= <-]. eexists. split; [done|]. by apply iequals_upper. }
  assert (forall x, tagstr tab (m_tag e) = Ok x ->
    exists x', tagstr tab' (m_tag e') = Ok x' /\ iequals x x' = true) as Htagstr.
  { unfold tagstr. destruct Htag as [[-> ->]|(nam & nam' & H1 & H2 & H3)]; [intros x [= <-]; eexists; split; [done|by apply iequals_upper]|].
    rewrite (tag_at_getstr _ _ _ H1), (tag_at_getstr _ _ _ H2).
    destruct H1 as [H1 _], H2 as [H2 _].
    rewrite (proj2 (Z.eqb_neq _ _)), (proj2 (Z.eqb_neq _ _)) by lia. cbn. intros x [= <-]. eauto. }
  assert (forall x, print_element first prev e tab = Ok x ->
    exists x', print_element first prev e' tab' = Ok x' /\ iequals x x' = true) as Hel.
  { unfold print_element. rewrite <- Ht. destruct (m_type e).
    1: destruct first; [|done].
    5: case_bool_decide; [done|].
    1,2,5: intros x [= <-]; eexists; split; [done|]; by apply iequals_upper.
    all: destruct (tagstr tab (m_tag e)) as [x|ex|] eqn:Ex; cbn; try done; intros y [= <-].
    all: destruct (Htagstr _ eq_refl) as (x' & -> & Hx'); cbn; eexists; (split; [done|]);
      apply iequals_app; [by apply iequals_upper|done]. }
  destruct (print_element first prev e tab) as [x|ex|]; cbn; try done.
  destruct (Hel _ eq_refl) as (x' & -> & Hx'). cbn. rewrite <- Ht.
  destruct (print_from false (m_type e) p tab) as [y|ey|] eqn:Ey; cbn; try done. intros [= <-].
  destruct (IH _ _ _ Ey) as (y' & -> & Hy'). cbn. eauto using iequals_app.
Qed.

Lemma same_path_tostring tab tab' p p' s :
  same_path tab tab' p p' -> tostring p tab = Ok s ->
  exists s', tostring p' tab' = Ok s' /\ iequals s s' = true.
Proof. apply same_path_print. Qed.

Definition nocase (tab : TagTable.t) : Prop := TagTable.m_case_sensitive tab = false.

Lemma join_path_grows elems oth tab elems' tab' :
  SelectorPathSet.join_path elems oth tab = Ok (elems', tab') -> strings tab `prefix_of` strings tab'.
Proof.
  revert tab elems'. induction elems as [|e ee IH]; intros tab elems'; cbn; [by intros [= _ <-]|].
  destruct (m_tag e =? 0); cbn.
  - destruct (SelectorPathSet.join_path ee oth tab) as [[ee' t2]| |] eqn:E; cbn; try done.
    intros [= _ <-]. by eapply IH.
  - destruct (TagTable.getstr oth (m_tag e)) as [[s|]| |]; cbn; try done.
    pose proof (get_grows tab s). destruct (TagTable.get tab s) as [t1 tag]. cbn in *.
    destruct (SelectorPathSet.join_path ee oth t1) as [[ee' t2]| |] eqn:E; cbn; try done.
    intros [= _ <-]. etrans; [done|by eapply IH].
Qed.

Lemma fits_prefix tab tab' : strings tab `prefix_of` strings tab' -> fits tab' -> fits tab.
Proof. intros Hp%prefix_length. unfold fits. lia. Qed.

Lemma join_path_total elems oth tab :
  ok_path oth elems -> exists elems' tab', SelectorPathSet.join_path elems oth tab = Ok (elems', tab').
Proof.
  intros He. revert tab. induction He as [|e ee He Hee IH]; intros tab; cbn; [eauto|].
  destruct He as [He|(nam & Hnam)].
  - rewrite He. cbn. destruct (IH tab) as (ee' & tab' & ->). cbn. eauto.
  - pose proof Hnam as [H0 _]. rewrite (proj2 (Z.eqb_neq _ _)) by lia. cbn.
    rewrite (tag_at_getstr _ _ _ Hnam). cbn. destruct (TagTable.get tab nam) as [tab1 tag].
    cbn. destruct (IH tab1) as (ee' & tab' & ->). cbn. eauto.
Qed.

(** The tags of a path of another set are translated to tags that name the same. *)
Lemma join_path_spec oth elems elems' tab tab' :
  ok tab -> nocase tab -> ok_path oth elems ->
  SelectorPathSet.join_path elems oth tab = Ok (elems', tab') -> fits tab' ->
  ok tab' /\ nocase tab' /\ same_path oth tab' elems elems' /\ ok_path tab' elems'.
Proof.
  intros Hok Hc He. revert tab elems' Hok Hc.
  induction He as [|e ee He Hee IH]; intros tab elems' Hok Hc; cbn.
  { intros [= <- <-] Hf. split_and!; try done; constructor. }
  destruct He as [He|(nam & Hnam)].
  - rewrite He. cbn. destruct (SelectorPathSet.join_path ee oth tab) as [[ee' t2]| |] eqn:E; cbn; try done.
    intros [= <- <-] Hf. destruct (IH _ _ Hok Hc E Hf) as (? & ? & ? & ?).
    split_and!; try done; constructor; try done; [|by left]. split; [done|by left].
  - pose proof Hnam as [H0 [Hnul _]]. rewrite (proj2 (Z.eqb_neq _ _)) by lia. cbn.
    rewrite (tag_at_getstr _ _ _ Hnam). cbn. pose proof (get_tag_spec tab nam Hok Hnul) as Hg.
    destruct (TagTable.get tab nam) as [tab1 tag] eqn:Eg. cbn in *.
    destruct (SelectorPathSet.join_path ee oth tab1) as [[ee' t2]|ex|] eqn:Ej; cbn; try done.
    intros [= <- <-] Hf. pose proof (join_path_grows _ _ _ _ _ Ej) as Hgr.
    destruct Hg as (nam' & Hok1 & Hc1 & Hk & Hat); [by eapply fits_prefix|].
    unfold nocase in *. rewrite Hc in Hc1. destruct (IH _ _ Hok1 Hc1 Ej Hf) as (? & ? & ? & ?).
    assert (tag_at (strings t2) tag nam') by (destruct Hgr as [more ->]; by apply tag_at_app).
    split_and!; try done; constructor; try done; [|right; by exists nam'].
    split; [done|]. right. exists nam, nam'. split_and!; try done.
    apply lower_upper. unfold TagTable.key in Hk. by rewrite Hc in Hk.
Qed.

Record ok_set (ps : SelectorPathSet.t) : Prop := {
  ok_tab : ok (SelectorPathSet.m_tagtab ps);
  ok_case : nocase (SelectorPathSet.m_tagtab ps);
  ok_paths : Forall (ok_path (SelectorPathSet.m_tagtab ps)) (SelectorPathSet.m_pathar ps)
}.

Lemma ok_set_make : ok_set SelectorPathSet.make.
Proof. split; [apply ok_make_tags|done|constructor]. Qed.

Lemma join_from_grows paths oth ps ps' :
  SelectorPathSet.join_from paths oth ps = Ok ps' ->
  strings (SelectorPathSet.m_tagtab ps) `prefix_of` strings (SelectorPathSet.m_tagtab ps').
Proof.
  revert ps. induction paths as [|p paths IH]; intros ps; cbn; [by intros [= ->]|].
  destruct (SelectorPathSet.join_path p _ _) as [[p' t1]| |] eqn:E; cbn; try done.
  intros Hj%IH. etrans; [by eapply join_path_grows|done].
Qed.

(** Joining keeps the paths of the set and appends those of the other one, translated. *)
Lemma join_paths_spec oth paths : Forall (ok_path (SelectorPathSet.m_tagtab oth)) paths ->
  forall ps ps', ok_set ps -> SelectorPathSet.join_from paths oth ps = Ok ps' ->
  fits (SelectorPathSet.m_tagtab ps') ->
  ok_set ps' /\ exists more, SelectorPathSet.m_pathar ps' = SelectorPathSet.m_pathar ps ++ more /\
    Forall2 (same_path (SelectorPathSet.m_tagtab oth) (SelectorPathSet.m_tagtab ps')) paths more.
Proof.
  induction 1 as [|p paths Hp Hps IH]; intros ps ps' Hok; cbn.
  { intros [= ->] _. split; [done|]. exists []. by rewrite app_nil_r. }
  destruct (SelectorPathSet.join_path p _ _) as [[p' t1]| |] eqn:E; cbn; try done.
  intros Hj Hf. pose proof (join_from_grows _ _ _ _ Hj) as Hgr. cbn in Hgr.
  destruct (join_path_spec _ _ _ _ _ (ok_tab _ Hok) (ok_case _ Hok) Hp E) as (Ho1 & Hc1 & Hs1 & Hp1).
  { by eapply fits_prefix. }
  eassert (ok_set _) as Hok1; [|destruct (IH _ _ Hok1 Hj Hf) as (Hok' & more & Hm & Hfa)].
  - split; [exact Ho1|exact Hc1|]. cbn. apply Forall_app. split; [|by repeat constructor].
    eapply Forall_impl; [exact (ok_paths _ Hok)|]. intros q. apply ok_path_grows.
    by eapply join_path_grows.
  - split; [done|]. exists (p' :: more). split; [rewrite Hm; cbn; by rewrite <- app_assoc|].
    constructor; [|done]. by eapply same_path_grows.
Qed.

Lemma join_from_total oth paths ps :
  Forall (ok_path (SelectorPathSet.m_tagtab oth)) paths ->
  exists ps', SelectorPathSet.join_from paths oth ps = Ok ps'.
Proof.
  intros Hp. revert ps. induction Hp as [|p paths Hp Hps IH]; intros ps; cbn; [eauto|].
  destruct (join_path_total p (SelectorPathSet.m_tagtab oth) (SelectorPathSet.m_tagtab ps) Hp)
    as (p' & t1 & ->). cbn. apply IH.
Qed.

(** ** Parsing of a selector *)

Lemma span_tag_app ii : (span_tag ii).1 ++ (span_tag ii).2 = ii.
Proof.
  induction ii as [|c ii IH]; cbn; [done|]. case_bool_decide; [done|].
  destruct (span_tag ii). cbn in *. by rewrite IH.
Qed.

Lemma skip_blanks_suffix ii : exists pre, ii = pre ++ skip_blanks ii.
Proof.
  induction ii as [|c ii [pre IH]]; cbn; [by exists []|]. destruct (is_blank c); [|by exists []].
  exists (c :: pre). cbn. by f_equal.
Qed.

Lemma read_separator_suffix ii type ii' :
  read_separator ii = Some (type, ii') -> exists pre, ii = pre ++ ii'.
Proof.
  destruct ii as [|c [|d ii]]; cbn; repeat case_bool_decide; try done; intros [= <- <-].
  1,4: by exists [].
  - by exists [c; d].
  - by exists [c].
Qed.

Lemma tag_element_spec selector type tagnam tm e tm' :
  ok tm -> nocase tm -> TagTable.nul ∉ tagnam ->
  tag_element selector type tagnam tm = Ok (e, tm') -> fits tm' ->
  ok tm' /\ nocase tm' /\ strings tm `prefix_of` strings tm' /\
  match e with
  | Some e => m_tag e = 0 \/ exists nam, tag_at (strings tm') (m_tag e) nam
  | None => True
  end.
Proof.
  intros Hok Hc Hnul. unfold tag_element. destruct tagnam as [|c tagnam]; [done|].
  repeat case_bool_decide; try done; try (intros [= <- <-] Hf; split_and!; auto; done).
  set (nam := str (c :: tagnam)). assert (TagTable.nul ∉ chars nam) as Hn.
  { unfold nam. by rewrite String.list_ascii_of_string_of_list_ascii. }
  pose proof (get_tag_spec tm nam Hok Hn) as Hg. pose proof (get_grows tm nam) as Hgr.
  destruct (TagTable.get tm nam) as [t1 tag]. cbn in *. intros [= <- <-] Hf.
  destruct (Hg Hf) as (nam' & Ho & Hcs & _ & Hat). unfold nocase in *.
  split_and!; try congruence; cbn; eauto.
Qed.

Lemma tag_element_grows selector type tagnam tm e tm' :
  tag_element selector type tagnam tm = Ok (e, tm') -> strings tm `prefix_of` strings tm'.
Proof.
  unfold tag_element. destruct tagnam as [|c tagnam]; [done|]. repeat case_bool_decide; try done.
  1-3: by intros [= _ <-].
  pose proof (get_grows tm (str (c :: tagnam))) as Hgr.
  destruct (TagTable.get tm (str (c :: tagnam))). by intros [= _ <-].
Qed.

Lemma parse_loop_grows fuel selector : forall ii path tm path' tm',
  parse_loop fuel selector ii path tm = Ok (path', tm') -> strings tm `prefix_of` strings tm'.
Proof.
  induction fuel as [|fuel IH]; intros ii path tm path' tm'; cbn;
    destruct (read_separator ii) as [[type ii']|]; try done; try by intros [= _ <-].
  destruct (span_tag ii') as [tagnam ii2].
  destruct (tag_element selector type tagnam tm) as [[e t1]| |] eqn:E; cbn; try done.
  intros Hp%IH. etrans; [by eapply tag_element_grows|done].
Qed.

Lemma parse_loop_spec fuel selector : forall ii path tm path' tm',
  ok tm -> nocase tm -> TagTable.nul ∉ ii -> ok_path tm path ->
  parse_loop fuel selector ii path tm = Ok (path', tm') -> fits tm' ->
  ok tm' /\ nocase tm' /\ ok_path tm' path'.
Proof.
  induction fuel as [|fuel IH]; intros ii path tm path' tm' Hok Hc Hnul Hp; cbn;
    destruct (read_separator ii) as [[type ii']|] eqn:Er; try done; try by intros [= <- <-].
  destruct (read_separator_suffix _ _ _ Er) as (pre & ->).
  pose proof (span_tag_app ii') as Hsp. destruct (span_tag ii') as [tagnam ii2]. cbn in Hsp.
  rewrite <- Hsp, !elem_of_app in Hnul.
  destruct (tag_element selector type tagnam tm) as [[e t1]| |] eqn:E; cbn; try done.
  intros Hl Hf. assert (TagTable.nul ∉ tagnam) as Hnt by naive_solver.
  destruct (tag_element_spec _ _ _ _ _ _ Hok Hc Hnt E) as (Ho & Hc1 & Hgr & He).
  { eapply fits_prefix; [by eapply parse_loop_grows|done]. }
  eapply IH; [done|done| | |done|done]; [naive_solver|].
  pose proof (ok_path_grows _ _ _ Hgr Hp). destruct e as [e|]; [|done].
  apply Forall_app. split; [done|]. by constructor.
Qed.

Lemma make_grows selector tm path tm' :
  make selector tm = Ok (path, tm') -> strings tm `prefix_of` strings tm'.
Proof.
  unfold make. destruct (skip_blanks (chars selector)) as [|c ii]; [by intros [= _ <-]|].
  destruct (parse_loop _ _ _ _ _) as [[p t1]| |] eqn:E; cbn; try done.
  destruct (tostring p t1); cbn; try done. destruct (_ || _); [|done]. intros [= _ <-].
  by eapply parse_loop_grows.
Qed.

Lemma make_spec selector tm path tm' :
  ok tm -> nocase tm -> TagTable.nul ∉ chars selector ->
  make selector tm = Ok (path, tm') -> fits tm' ->
  ok tm' /\ nocase tm' /\ ok_path tm' path.
Proof.
  intros Hok Hc Hnul. unfold make. destruct (skip_blanks_suffix (chars selector)) as [pre Hpre].
  destruct (skip_blanks (chars selector)) as [|c ii] eqn:Es.
  { intros [= <- <-] _. split_and!; try done. constructor. }
  destruct (parse_loop _ _ _ _ _) as [[p t1]| |] eqn:E; cbn; try done.
  destruct (tostring p t1); cbn; try done. destruct (_ || _); [|done]. intros [= <- <-] Hf.
  eapply parse_loop_spec; [exact Hok|exact Hc| | |exact E|exact Hf].
  - rewrite Hpre, elem_of_app in Hnul. intros Hx; apply Hnul; by right.
  - constructor; [by left|constructor].
Qed.

(** Adding a selector appends its path. *)
Lemma add_selector_spec ps selector ps' idx :
  ok_set ps -> TagTable.nul ∉ chars selector ->
  SelectorPathSet.add ps selector = Ok (ps', idx) -> fits (SelectorPathSet.m_tagtab ps') ->
  ok_set ps' /\ exists p, SelectorPathSet.m_pathar ps' = SelectorPathSet.m_pathar ps ++ [p] /\
    idx = u32 (Z.of_nat (length (SelectorPathSet.m_pathar ps'))).
Proof.
  intros Hok Hnul. unfold SelectorPathSet.add.
  destruct (make selector _) as [[p t1]| |] eqn:E; cbn; try done. intros [= <- <-] Hf.
  destruct (make_spec _ _ _ _ (ok_tab _ Hok) (ok_case _ Hok) Hnul E Hf) as (H1 & H2 & H3).
  split; [|by exists p]. split; [done|done|]. cbn. apply Forall_app. split; [|by constructor].
  eapply Forall_impl; [exact (ok_paths _ Hok)|]. intros q. apply ok_path_grows. by eapply make_grows.
Qed.

End SelectorPathFacts.
