(* ===== verification/ParseUtils.v ===== *)
(** * Scanning of source text

    Models src/libwolframe/utils/parseUtils.cpp and include/utils/parseUtils.hpp: tables of
    characters, the scanner for tokens, lines and assignments, and tables of keywords.  An
    iterator over the source is the text that is left. *)
From S2P Require Import Prelude ValueTupleSet TdlTables.

Abbreviation str := String.string_of_list_ascii.
Abbreviation chars := String.list_ascii_of_string.
Abbreviation nul := TagTable.nul.

Definition ord (c : ascii) : Z := Z.of_nat (nat_of_ascii c).

(** ** Character tables *)

Module CharTable.

Definition t := ascii -> bool.

Definition set (c : ascii) (b : bool) (m_ar : t) : t :=
  fun d => if bool_decide (d = c) then b else m_ar d.

Definition set_range (lo hi : Z) (b : bool) (m_ar : t) : t :=
  fun d => if (lo <=? ord d) && (ord d <=? hi) then b else m_ar d.

(** The loop of the constructor; [prev] is the character before.  The loop over a range is
    endless if the range ends with the character 255. *)
Fixpoint fill (prev : option ascii) (op : list ascii) (isInverse : bool) (m_ar : t) : res t :=
  match op with
  | [] => Ok m_ar
  | c :: op1 =>
      match op1 with
      | d :: op2 =>
          if bool_decide (c = "."%char) && bool_decide (d = "."%char) then
            let hi := match op2 with h :: _ => ord h | [] => 255 end in
            let lo := match prev with Some p => ord p | None => 1 end in
            let '(lo, hi) := if hi <? lo then (hi, lo) else (lo, hi) in
            if hi =? 255 then OutOfFuel
            else
              let m_ar := set_range (lo + 1) hi (negb isInverse) m_ar in
              match op2 with
              | h :: op3 => fill (Some h) op3 isInverse (set h (negb isInverse) m_ar)
              | [] => Throw (Undefined "read behind the end of a string")
              end
          else fill (Some c) op1 isInverse (set c (negb isInverse) m_ar)
      | [] => fill (Some c) op1 isInverse (set c (negb isInverse) m_ar)
      end
  end.

Definition make (op : string) (isInverse : bool) : res t :=
  fill None (chars op) isInverse (fun c => if ord c <=? 32 then false else isInverse).

(** A table that is known to be built. *)
Definition table (op : string) (isInverse : bool) : t :=
  match make op isInverse with Ok m_ar => m_ar | _ => fun _ => false end.

End CharTable.

Definition identifierCharTable : CharTable.t := CharTable.table "a..z_A..Z0..9" false.
Definition emptyCharTable : CharTable.t := CharTable.table "" false.
Definition anyCharTable : CharTable.t := CharTable.table "" true.

(** ** Tokens *)

(** Skip to the next character above the blank; the null character at the end. *)
Fixpoint skip (itr : list ascii) : list ascii :=
  match itr with
  | [] => []
  | c :: itr' => if ord c <=? 32 then skip itr' else itr
  end.

Definition gotoNextToken (itr : list ascii) : ascii * list ascii :=
  let itr := skip itr in
  (match itr with [] => nul | c :: _ => c end, itr).

Definition is_quote (c : ascii) : bool :=
  bool_decide (c = "'"%char) || bool_decide (c = "034"%char).
Definition backslash : ascii := "092"%char.

Definition not_terminated {A} : res A := Throw (RuntimeError "string not terminated").
Definition binary_string {A} : res A :=
  Throw (RuntimeError "string has multibyte encoding or is binary").

(** The characters of a string up to the closing quote [eb]. *)
Fixpoint read_string (eb : ascii) (itr tok : list ascii) : res (list ascii * list ascii) :=
  match itr with
  | [] => not_terminated
  | c :: itr1 =>
      if bool_decide (c = eb) then Ok (tok, itr1)
      else if bool_decide (c = backslash) then
        match itr1 with
        | [] => not_terminated
        | d :: itr2 => if bool_decide (d = nul) then binary_string
                       else read_string eb itr2 (tok ++ [d])
        end
      else if bool_decide (c = nul) then binary_string
      else read_string eb itr1 (tok ++ [c])
  end.

Fixpoint span_alpha (alphaTable : CharTable.t) (itr : list ascii) : list ascii * list ascii :=
  match itr with
  | [] => ([], [])
  | c :: itr' =>
      if (32 <? ord c) && alphaTable c
      then let '(tok, rest) := span_alpha alphaTable itr' in (c :: tok, rest)
      else ([], itr)
  end.

(** The result is the first character of the token, the token and the text behind it. *)
Definition parseNextToken (itr : list ascii) (operatorTable alphaTable : CharTable.t)
    : res (ascii * string * list ascii) :=
  match skip itr with
  | [] => Ok (nul, ""%string, [])
  | rt :: itr1 =>
      if is_quote rt then '(tok, rest) ← read_string rt itr1 []; Ok (rt, str tok, rest)
      else if operatorTable rt then Ok (rt, ""%string, itr1)
      else if alphaTable rt then
        let '(tok, rest) := span_alpha alphaTable (rt :: itr1) in Ok (rt, str tok, rest)
      else Throw (RuntimeError ("unexpected token character '" +:+ str [rt] +:+ "'"))
  end.

Definition parseNextToken_op (itr : list ascii) (operatorTable : CharTable.t) :=
  parseNextToken itr operatorTable identifierCharTable.
Definition parseNextToken_id (itr : list ascii) := parseNextToken_op itr emptyCharTable.

(** ** Lines *)

Definition newline_char : ascii := "010"%char.
Definition return_char : ascii := "013"%char.

(** A line with backslashes at the ends of continued lines.  The exception for blanks
    behind a backslash is created, but not thrown. *)
Fixpoint nextLine (itr rt : list ascii) : res (list ascii * list ascii) :=
  match itr with
  | [] => Ok (rt, [])
  | c :: itr1 =>
      if bool_decide (c = newline_char) then Ok (rt, itr1)
      else if bool_decide (c = backslash) then
        match itr1 with
        | [] => Throw (RuntimeError "found '\' at end of input")
        | d :: itr2 =>
            if bool_decide (d = newline_char) then nextLine itr2 rt
            else nextLine itr2 (rt ++ [backslash; d])
        end
      else nextLine itr1 (rt ++ [c])
  end.

Definition parseNextLine (itr : list ascii) : res (string * list ascii) :=
  '(rt, itr) ← nextLine itr []; Ok (str rt, itr).

Fixpoint span_line (si : list ascii) : list ascii * list ascii :=
  match si with
  | [] => ([], [])
  | c :: si' =>
      if bool_decide (c = newline_char) || bool_decide (c = return_char) then ([], si)
      else let '(rt, rest) := span_line si' in (c :: rt, rest)
  end.

Definition parseLine (si : list ascii) : string * list ascii :=
  let '(rt, si) := span_line si in
  (str rt,
   match si with
   | [] => []
   | c :: si1 =>
       if bool_decide (c = return_char) then
         match si1 with
         | d :: si2 => if bool_decide (d = newline_char) then si2 else si1
         | [] => []
         end
       else si1
   end).

(** ** Assignments

    The exceptions for a missing identifier, a missing equal sign and a missing value are
    created, but not thrown: whatever is in the place of the equal sign is skipped. *)
Definition parseTokenAssignement (itr : list ascii) (alphaTable : CharTable.t)
    : res (string * string * list ascii) :=
  let optab := CharTable.table "=" false in
  '(_, first, itr) ← parseNextToken_op itr optab;
  let '(_, itr) := gotoNextToken itr in
  match itr with
  | [] => Throw (Undefined "increment of the end iterator")
  | _ :: itr =>
      '(_, second, itr) ← parseNextToken itr optab alphaTable;
      Ok (first, second, itr)
  end.

(** ** Keywords *)

Module IdentifierTable.

(** The entries of a table that does not regard case are in upper case. *)
Record t := mk {
  m_casesensitive : bool;
  m_tab : StdMap.t Z;
  m_arg : list string
}.

Definition key (casesensitive : bool) (tok : string) : string :=
  if casesensitive then tok else to_upper_copy tok.

Fixpoint fill (casesensitive : bool) (idx : Z) (arg : list string) (tab : StdMap.t Z)
    : res (StdMap.t Z) :=
  match arg with
  | [] => Ok tab
  | kk :: arg' =>
      if 100 <=? idx
      then Throw (LogicError "internal: IdentifierTable parameter list not NULL terminated or with more than 100 elements")
      else fill casesensitive (idx + 1) arg' (StdMap.set (key casesensitive kk) (idx + 1) tab)
  end.

Definition make (casesensitive : bool) (arg : list string) : res t :=
  tab ← fill casesensitive 0 arg []; Ok (mk casesensitive tab arg).

(** 0 for a token that is no keyword. *)
Definition index (it : t) (tok : string) : Z :=
  match StdMap.find (key (m_casesensitive it) tok) (m_tab it) with
  | Some i => i
  | None => 0
  end.

(** The keywords in the order of the map. *)
Fixpoint join_names (names : list string) : string :=
  match names with
  | [] => ""
  | [n] => n
  | n :: names' => n +:+ ", " +:+ join_names names'
  end%string.

Definition tostring (it : t) : string := join_names (map fst (m_tab it)).

(** [m_arg[ id]] without the offset by one of the indices. *)
Definition idstring (it : t) (id : Z) : res string :=
  match m_arg it !! Z.to_nat id with
  | Some s => Ok s
  | None => Throw (Undefined "null pointer")
  end.

End IdentifierTable.

(** The index of the keyword that comes next, or 0, and the text behind it. *)
Definition parseNextIdentifier (si : list ascii) (idtab : IdentifierTable.t)
    : res (Z * list ascii) :=
  let '(ch, si) := gotoNextToken si in
  if identifierCharTable ch then
    '(_, tok, rest) ← parseNextToken_id si;
    let idx := IdentifierTable.index idtab tok in
    Ok (if negb (idx =? 0) then (idx, rest) else (0, si))
  else Ok (0, si).

(** ** Facts *)

Lemma identifierCharTable_spec c :
  identifierCharTable c =
  ((97 <=? ord c) && (ord c <=? 122)) || (ord c =? 95) || ((65 <=? ord c) && (ord c <=? 90))
  || ((48 <=? ord c) && (ord c <=? 57)).
Proof. by destruct c as [[] [] [] [] [] [] [] []]. Qed.

Lemma skip_suffix itr : exists pre, itr = pre ++ skip itr.
Proof.
  induction itr as [|c itr [pre IH]]; cbn; [by exists []|]. destruct (ord c <=? 32); [|by exists []].
  exists (c :: pre). cbn. by f_equal.
Qed.

Lemma span_alpha_app t itr : (span_alpha t itr).1 ++ (span_alpha t itr).2 = itr.
Proof.
  induction itr as [|c itr IH]; cbn; [done|]. destruct (_ && _); [|done].
  destruct (span_alpha t itr). cbn in *. by rewrite IH.
Qed.

Lemma read_string_shorter eb itr tok tok' rest :
  read_string eb itr tok = Ok (tok', rest) -> (length rest < length itr)%nat.
Proof.
  revert tok. induction itr as [itr IH] using (induction_ltof1 _ length).
  destruct itr as [|c itr]; intros tok; cbn; [done|]. case_bool_decide; [intros [= _ <-]; cbn; lia|].
  case_bool_decide.
  - destruct itr as [|d itr]; [done|]. case_bool_decide; [done|].
    intros Hr%IH; [cbn; lia|unfold ltof; cbn; lia].
  - case_bool_decide; [done|]. intros Hr%IH; [cbn; lia|unfold ltof; cbn; lia].
Qed.

(** A token that is found is not empty, so scanning for tokens ends. *)
Lemma parseNextToken_shorter itr ops alphas ch tok rest :
  parseNextToken itr ops alphas = Ok (ch, tok, rest) -> ch <> nul -> (length rest < length itr)%nat.
Proof.
  unfold parseNextToken. destruct (skip_suffix itr) as [pre Hpre].
  assert (length (skip itr) <= length itr)%nat as Hle by (rewrite Hpre at 2; rewrite length_app; lia).
  destruct (skip itr) as [|c itr1] eqn:E; [by intros [= <- _ _]|]. cbn in Hle. intros H Hch.
  destruct (is_quote c).
  { destruct (read_string c itr1 []) as [[tok' rest']| |] eqn:Er; cbn in H; try done.
    injection H as <- _ <-. apply read_string_shorter in Er. lia. }
  destruct (ops c); [injection H as _ _ <-; lia|].
  destruct (alphas c) eqn:Ea; [|done].
  pose proof (span_alpha_app alphas (c :: itr1)) as Hs. cbn in H, Hs.
  destruct (Z.ltb_spec 32 (ord c)) as [H32|H32]; rewrite ?Ea in *; cbn in *.
  - destruct (span_alpha alphas itr1) as [t1 r1]. cbn in *. injection H as _ _ <-. injection Hs as Hs.
    apply (f_equal length) in Hs. rewrite length_app in Hs. lia.
  - exfalso. clear -E H32. revert E. generalize itr. intros l. induction l as [|d l IH]; cbn; [done|].
    destruct (Z.leb_spec (ord d) 32); [done|]. intros [= -> _]. lia.
Qed.

(** ** Round trips *)

(** Writing a string between quotes, with the quote and the backslash escaped. *)
Fixpoint escape (eb : ascii) (s : list ascii) : list ascii :=
  match s with
  | [] => []
  | c :: s' => if bool_decide (c = eb) || bool_decide (c = backslash)
               then backslash :: c :: escape eb s' else c :: escape eb s'
  end.

Lemma read_string_escape eb s tok rest :
  eb <> backslash -> nul ∉ s ->
  read_string eb (escape eb s ++ eb :: rest) tok = Ok (tok ++ s, rest).
Proof.
  intros Heb. revert tok. induction s as [|c s IH]; intros tok Hs; cbn.
  { rewrite bool_decide_eq_true_2 by done. by rewrite app_nil_r. }
  rewrite not_elem_of_cons in Hs. destruct Hs as [Hc Hs].
  case_bool_decide as E1; [|case_bool_decide as E2]; cbn.
  - rewrite bool_decide_eq_false_2 by done. rewrite (bool_decide_eq_true_2 (backslash = _)) by done.
    rewrite bool_decide_eq_false_2 by done. rewrite IH by done. by rewrite <- app_assoc.
  - rewrite bool_decide_eq_false_2 by done. rewrite (bool_decide_eq_true_2 (backslash = _)) by done.
    rewrite bool_decide_eq_false_2 by done. rewrite IH by done. by rewrite <- app_assoc.
  - rewrite !bool_decide_eq_false_2 by done. rewrite IH by done. by rewrite <- app_assoc.
Qed.

Lemma skip_cons c l : 32 < ord c -> skip (c :: l) = c :: l.
Proof. intros H. cbn. destruct (Z.leb_spec (ord c) 32); [lia|done]. Qed.

(** C23. A quoted string is read back, whatever characters it has, null characters apart. *)
Theorem quoted_string_roundtrip eb s rest ops alphas :
  is_quote eb = true -> nul ∉ chars s ->
  parseNextToken (eb :: escape eb (chars s) ++ eb :: rest) ops alphas = Ok (eb, s, rest).
Proof.
  intros Heb Hs. unfold parseNextToken.
  assert (eb <> backslash /\ 32 < ord eb) as [Hb Ho].
  { unfold is_quote in Heb. apply orb_true_iff in Heb as [?%bool_decide_eq_true|?%bool_decide_eq_true];
      by subst. }
  rewrite skip_cons, Heb, read_string_escape by done. cbn.
  by rewrite String.string_of_list_ascii_of_string.
Qed.

Lemma quoted_string_roundtrip_witness :
  parseNextToken (chars "'it\'s' + 1") emptyCharTable identifierCharTable
  = Ok ("'"%char, "it's"%string, chars " + 1").
Proof.
  apply (quoted_string_roundtrip "'" "it's" (chars " + 1")); [reflexivity|].
  vm_compute. repeat (apply not_elem_of_cons; split; [discriminate|]). apply not_elem_of_nil.
Defined.
