(* ===== verification/TdlProgram.v ===== *)
(** * Programs under construction

    Models src/modules/cmdbind/tdl/vm/program.hpp and program.cpp: the program the
    compiler of the transaction language builds, with its tables, the joining of two
    programs, and the image that the virtual machine executes.  Of
    include/utils/sourceLineInfo.hpp and fileLineInfo.hpp it has the positions in the source
    of the program. *)
From S2P Require Import Prelude InstructionSet Variant ValueTupleSet ProgramImage TdlTables SelectorPath.

(** ** Positions in a source file *)

Record FileLineInfo := mkFileLineInfo {
  m_filename : option string;
  m_line : Z;
  m_column : Z
}.

(** ** Programs *)

Record InstructionPos := mkInstructionPos {
  pos_ip : nat;
  pos_pos : FileLineInfo
}.

Module Program.

Record t := mk {
  code : ProgramCode.t;
  pathset : SelectorPathSet.t;
  constants : list Variant;
  colnametab : NameTable.t;
  tagnametab : NameTable.t;
  resultnametab : NameTable.t;
  statements : list string;
  hinttab : ErrorHintTable.t;
  signatures : list (list string);
  tuplesets : list ValueTupleSetR;
  tdlpositions : list InstructionPos
}.

Definition make : t :=
  mk [] SelectorPathSet.make [] NameTable.make NameTable.make NameTable.make [] ErrorHintTable.make
    [] [] [].

Definition set_code (p : t) (x : ProgramCode.t) : t :=
  mk x (pathset p) (constants p) (colnametab p) (tagnametab p) (resultnametab p) (statements p)
    (hinttab p) (signatures p) (tuplesets p) (tdlpositions p).
Definition set_pathset (p : t) (x : SelectorPathSet.t) : t :=
  mk (code p) x (constants p) (colnametab p) (tagnametab p) (resultnametab p) (statements p)
    (hinttab p) (signatures p) (tuplesets p) (tdlpositions p).
Definition set_constants (p : t) (x : list Variant) : t :=
  mk (code p) (pathset p) x (colnametab p) (tagnametab p) (resultnametab p) (statements p)
    (hinttab p) (signatures p) (tuplesets p) (tdlpositions p).
Definition set_colnametab (p : t) (x : NameTable.t) : t :=
  mk (code p) (pathset p) (constants p) x (tagnametab p) (resultnametab p) (statements p)
    (hinttab p) (signatures p) (tuplesets p) (tdlpositions p).
Definition set_tagnametab (p : t) (x : NameTable.t) : t :=
  mk (code p) (pathset p) (constants p) (colnametab p) x (resultnametab p) (statements p)
    (hinttab p) (signatures p) (tuplesets p) (tdlpositions p).
Definition set_resultnametab (p : t) (x : NameTable.t) : t :=
  mk (code p) (pathset p) (constants p) (colnametab p) (tagnametab p) x (statements p)
    (hinttab p) (signatures p) (tuplesets p) (tdlpositions p).
Definition set_statements (p : t) (x : list string) : t :=
  mk (code p) (pathset p) (constants p) (colnametab p) (tagnametab p) (resultnametab p) x
    (hinttab p) (signatures p) (tuplesets p) (tdlpositions p).
Definition set_hinttab (p : t) (x : ErrorHintTable.t) : t :=
  mk (code p) (pathset p) (constants p) (colnametab p) (tagnametab p) (resultnametab p)
    (statements p) x (signatures p) (tuplesets p) (tdlpositions p).
Definition set_signatures (p : t) (x : list (list string)) : t :=
  mk (code p) (pathset p) (constants p) (colnametab p) (tagnametab p) (resultnametab p)
    (statements p) (hinttab p) x (tuplesets p) (tdlpositions p).
Definition set_tuplesets (p : t) (x : list ValueTupleSetR) : t :=
  mk (code p) (pathset p) (constants p) (colnametab p) (tagnametab p) (resultnametab p)
    (statements p) (hinttab p) (signatures p) x (tdlpositions p).
Definition set_tdlpositions (p : t) (x : list InstructionPos) : t :=
  mk (code p) (pathset p) (constants p) (colnametab p) (tagnametab p) (resultnametab p)
    (statements p) (hinttab p) (signatures p) (tuplesets p) x.

(** ** Joining *)

Definition joinVectors {A} (dst ar : list A) : list A * PatchArgumentMap :=
  (dst ++ ar, PatchArgumentMap_Offset (u32 (Z.of_nat (length dst)))).

Definition joinProgramCode (ths oth : ProgramCode.t) : ProgramCode.t * PatchArgumentMap :=
  (ProgramCode.append ths oth, PatchArgumentMap_Offset (u32 (ProgramCode.size ths))).

(** The body of the loop of [patchCode]. *)
Definition patch_instr (argtype : ArgumentType) (pamap : PatchArgumentMap) (ci : Z) : res Z :=
  let oc := opCode ci in
  at_ ← argumentType oc;
  if decide (argtype = at_) then
    ai ← patch_index pamap (argumentIndex ci);
    instruction_raw (condCode ci) oc ai
  else Ok ci.

Fixpoint patch_from (argtype : ArgumentType) (pamap : PatchArgumentMap) (c : list Z)
    : res (list Z) :=
  match c with
  | [] => Ok []
  | ci :: ce =>
      ci ← patch_instr argtype pamap ci;
      ce ← patch_from argtype pamap ce;
      Ok (ci :: ce)
  end.

Definition patchCode (c : ProgramCode.t) (argtype : ArgumentType) (startidx : Z)
    (pamap : PatchArgumentMap) : res ProgramCode.t :=
  if ProgramCode.size c <? startidx then Throw (LogicError "array bound access")
  else if startidx =? ProgramCode.size c then Ok c
  else
    let start := Z.to_nat startidx in
    rest ← patch_from argtype pamap (drop start c);
    Ok (take start c ++ rest).

Definition add (p oth : t) (doPatchGOTOs : bool) : res t :=
  let startidx := ProgramCode.size (code p) in
  c ← (if doPatchGOTOs then
         let '(c, pmap) := joinProgramCode (code p) (code oth) in
         patchCode c At_Address startidx pmap
       else Ok (ProgramCode.append (code p) (code oth)));
  let '(cs, pmap) := joinVectors (constants p) (constants oth) in
  c ← patchCode c At_Constant startidx pmap;
  '(tags, pmap) ← NameTable.join (tagnametab p) (tagnametab oth);
  c ← patchCode c At_TagName startidx pmap;
  '(results, pmap) ← NameTable.join (resultnametab p) (resultnametab oth);
  c ← patchCode c At_ResultName startidx pmap;
  '(cols, pmap) ← NameTable.join (colnametab p) (colnametab oth);
  c ← patchCode c At_ColumnName startidx pmap;
  let '(stms, pmap) := joinVectors (statements p) (statements oth) in
  c ← patchCode c At_Statement startidx pmap;
  let '(hints, pmap) := ErrorHintTable.join (hinttab p) (hinttab oth) in
  c ← patchCode c At_Hint startidx pmap;
  let '(sigs, pmap) := joinVectors (signatures p) (signatures oth) in
  c ← patchCode c At_SubroutineSignature startidx pmap;
  let '(sets, pmap) := joinVectors (tuplesets p) (tuplesets oth) in
  c ← patchCode c At_TupleSet startidx pmap;
  '(paths, pmap) ← SelectorPathSet.join (pathset p) (pathset oth);
  c ← patchCode c At_Path startidx pmap;
  Ok (mk c paths cs cols tags results stms hints sigs sets
        (tdlpositions p ++
         map (fun di => mkInstructionPos (pos_ip di + Z.to_nat startidx) (pos_pos di))
           (tdlpositions oth))).

(** ** Positions *)

Definition setCurrentSourceReference (p : t) (posinfo : FileLineInfo) : t :=
  set_tdlpositions p (tdlpositions p ++ [mkInstructionPos (Z.to_nat (ProgramCode.size (code p))) posinfo]).

(** The loop over the positions up to the first behind [ip]; [prev] is the last one passed. *)
Fixpoint find_position (ip : nat) (prev : option FileLineInfo) (di : list InstructionPos)
    : option FileLineInfo :=
  match di with
  | [] => prev
  | d :: di' => if (pos_ip d <=? ip)%nat then find_position ip (Some (pos_pos d)) di' else prev
  end.

Definition getSourceReference (p : t) (ip : nat) : option FileLineInfo :=
  find_position ip None (tdlpositions p).

(** ** The image for the virtual machine *)

Definition image (p : t) : ProgramImage :=
  mkProgramImage (code p) (constants p) (NameTable.array (colnametab p))
    (NameTable.array (tagnametab p)) (NameTable.array (resultnametab p)) (statements p)
    (hinttab p) (signatures p) (tuplesets p).

End Program.

(** ** Specification vocabulary *)

Module ProgramFacts.
Import Program.

(** An argument of type [at_] refers to something in the tables of the program. *)
Definition valid_arg (p : t) (at_ : ArgumentType) (a : Z) : Prop :=
  match at_ with
  | At_Constant => is_Some (constants p !! Z.to_nat a)
  | At_TagName => 1 <= a <= Z.of_nat (length (NameTable.m_namear (tagnametab p)))
  | At_ResultName => 1 <= a <= Z.of_nat (length (NameTable.m_namear (resultnametab p)))
  | At_ColumnName => 1 <= a <= Z.of_nat (length (NameTable.m_namear (colnametab p)))
  | At_Statement => is_Some (statements p !! Z.to_nat a)
  | At_Hint => 1 <= a <= Z.of_nat (length (hinttab p))
  | At_SubroutineSignature => is_Some (signatures p !! Z.to_nat a)
  | At_TupleSet => is_Some (tuplesets p !! Z.to_nat a)
  | At_Path => 1 <= a <= Z.of_nat (length (SelectorPathSet.m_pathar (pathset p)))
  | At_Address | At_None | At_SelectedColumnIdx | At_IteratorColumnIdx => True
  end.

(** [a'] refers in [p'] to what [a] refers to in [p]; jumps are moved by [ofs]. *)
Definition same_arg (p p' : t) (ofs : Z) (at_ : ArgumentType) (a a' : Z) : Prop :=
  match at_ with
  | At_Constant => constants p' !! Z.to_nat a' = constants p !! Z.to_nat a
  | At_TagName => NameTableFacts.renamed (tagnametab p) (tagnametab p') a a'
  | At_ResultName => NameTableFacts.renamed (resultnametab p) (resultnametab p') a a'
  | At_ColumnName => NameTableFacts.renamed (colnametab p) (colnametab p') a a'
  | At_Statement => statements p' !! Z.to_nat a' = statements p !! Z.to_nat a
  | At_Hint => 1 <= a' /\ hinttab p' !! Z.to_nat (a' - 1) = hinttab p !! Z.to_nat (a - 1)
  | At_SubroutineSignature => signatures p' !! Z.to_nat a' = signatures p !! Z.to_nat a
  | At_TupleSet => tuplesets p' !! Z.to_nat a' = tuplesets p !! Z.to_nat a
  | At_Path => 1 <= a' /\ exists q q',
      SelectorPathSet.m_pathar (pathset p) !! Z.to_nat (a - 1) = Some q /\
      SelectorPathSet.m_pathar (pathset p') !! Z.to_nat (a' - 1) = Some q' /\
      SelectorPathFacts.same_path (SelectorPathSet.m_tagtab (pathset p))
        (SelectorPathSet.m_tagtab (pathset p')) q q'
  | At_Address => a' = a + ofs
  | At_None | At_SelectedColumnIdx | At_IteratorColumnIdx => a' = a
  end.

(** The type of the argument of an operation, as the table of the code has it. *)
Definition arg_type (op : OpCode) : ArgumentType :=
  match argumentType (OpCode_val op) with Ok at_ => at_ | _ => At_None end.

Lemma argumentType_val op : argumentType (OpCode_val op) = Ok (arg_type op).
Proof. by destruct op. Qed.

(** A word that is an instruction with a valid argument. *)
Definition valid_instr (p : t) (i : Z) : Prop :=
  exists c op a, 0 <= a /\ instruction c op a = Ok i /\ valid_arg p (arg_type op) a.

Definition same_instr (p p' : t) (ofs : Z) (i i' : Z) : Prop :=
  exists c op a a', 0 <= a /\ 0 <= a' /\ instruction c op a = Ok i /\ instruction c op a' = Ok i' /\
    same_arg p p' ofs (arg_type op) a a'.

Record ok (p : t) : Prop := {
  ok_tags : NameTableFacts.ok (tagnametab p);
  ok_results : NameTableFacts.ok (resultnametab p);
  ok_columns : NameTableFacts.ok (colnametab p);
  ok_pathset : SelectorPathFacts.ok_set (pathset p);
  ok_code : Forall (valid_instr p) (code p)
}.

(** Bounds on the sizes of the tables, far above what an argument index can address. *)
Record small (p : t) : Prop := {
  small_code : Z.of_nat (length (code p)) < 2 ^ 31;
  small_tags : Z.of_nat (length (NameTable.m_namear (tagnametab p))) < 2 ^ 31;
  small_results : Z.of_nat (length (NameTable.m_namear (resultnametab p))) < 2 ^ 31;
  small_columns : Z.of_nat (length (NameTable.m_namear (colnametab p))) < 2 ^ 31;
  small_constants : Z.of_nat (length (constants p)) < 2 ^ 31;
  small_statements : Z.of_nat (length (statements p)) < 2 ^ 31;
  small_hints : Z.of_nat (length (hinttab p)) < 2 ^ 31;
  small_signatures : Z.of_nat (length (signatures p)) < 2 ^ 31;
  small_tuplesets : Z.of_nat (length (tuplesets p)) < 2 ^ 31;
  small_paths : Z.of_nat (length (SelectorPathSet.m_pathar (pathset p))) < 2 ^ 31;
  small_pathtags : TagTableFacts.fits (SelectorPathSet.m_tagtab (pathset p))
}.

(** ** Patching *)

(** The map for a type of arguments. *)
Fixpoint find_map (pms : list (ArgumentType * PatchArgumentMap)) (at_ : ArgumentType)
    : option PatchArgumentMap :=
  match pms with
  | [] => None
  | (t, pm) :: pms' => if ArgumentType_val t =? ArgumentType_val at_ then Some pm else find_map pms' at_
  end.

Lemma ArgumentType_val_inj a b : ArgumentType_val a = ArgumentType_val b -> a = b.
Proof. by destruct a, b. Qed.

Lemma find_map_None pms at_ : at_ ∉ pms.*1 -> find_map pms at_ = None.
Proof.
  induction pms as [|[t pm] pms IH]; cbn; [done|]. rewrite not_elem_of_cons. intros [Hne Hin].
  destruct (Z.eqb_spec (ArgumentType_val t) (ArgumentType_val at_)) as [E|]; [|auto].
  by apply ArgumentType_val_inj in E.
Qed.

Lemma find_map_snoc pms t pm at_ :
  find_map (pms ++ [(t, pm)]) at_ =
  match find_map pms at_ with
  | Some pm1 => Some pm1
  | None => if decide (t = at_) then Some pm else None
  end.
Proof.
  induction pms as [|[t1 pm1] pms IH]; cbn.
  - destruct (Z.eqb_spec (ArgumentType_val t) (ArgumentType_val at_)) as [E|E].
    + apply ArgumentType_val_inj in E. by rewrite decide_True.
    + rewrite decide_False; [done|congruence].
  - by destruct (_ =? _).
Qed.

(** The effect of a pass of [patchCode] on one instruction. *)
Definition patched (pms : list (ArgumentType * PatchArgumentMap)) (i i' : Z) : Prop :=
  exists c op a a', 0 <= a /\ 0 <= a' /\ instruction c op a = Ok i /\ instruction c op a' = Ok i' /\
    match find_map pms (arg_type op) with
    | Some pm => patch_index pm a = Ok a'
    | None => a' = a
    end.

Lemma instruction_inj c op a c' op' a' i :
  0 <= a -> 0 <= a' -> instruction c op a = Ok i -> instruction c' op' a' = Ok i ->
  c = c' /\ op = op' /\ a = a'.
Proof.
  intros Ha Ha' Hi Hi'. destruct (instruction_decode _ _ _ _ Ha Hi) as (Hc & Ho & Hx & _).
  destruct (instruction_decode _ _ _ _ Ha' Hi') as (Hc' & Ho' & Hx' & _). split_and!; [| |congruence].
  - rewrite Hc in Hc'. by destruct c, c'.
  - assert (Some op = Some op') as [=]; [|done].
    by rewrite <- (OpCode_of_val op), <- (OpCode_of_val op'), <- Ho, <- Ho'.
Qed.

(** All instructions of a code with an argument of type [at_] can be patched. *)
Definition can_patch (at_ : ArgumentType) (pm : PatchArgumentMap) (i : Z) : Prop :=
  forall cc op a, 0 <= a -> instruction cc op a = Ok i -> arg_type op = at_ ->
    exists a', patch_index pm a = Ok a' /\ 0 <= a' <= Max_ArgumentIndex.

(** One more pass. *)
Lemma patch_instr_patched pms at_ pm i i1 :
  at_ ∉ pms.*1 -> patched pms i i1 -> can_patch at_ pm i ->
  exists i2, patch_instr at_ pm i1 = Ok i2 /\ patched (pms ++ [(at_, pm)]) i i2.
Proof.
  intros Hnot (c & op & a & a1 & Ha & Ha1 & Hi & Hi1 & Hf) Hp.
  destruct (instruction_decode _ _ _ _ Ha1 Hi1) as (Hc & Ho & Hx & _).
  unfold patch_instr. rewrite Ho, argumentType_val, Hx, Hc. cbn. case_decide as E; cbn.
  - pose proof Hnot as Hnone%find_map_None. rewrite E in Hnone. rewrite Hnone in Hf. subst a1.
    destruct (Hp _ _ _ Ha Hi (eq_sym E)) as (a2 & Ep & Ha2). rewrite Ep. cbn.
    destruct (instruction_Ok c op a2 Ha2) as [i2 Hi2]. exists i2. split; [done|].
    exists c, op, a, a2. split_and!; try done; [lia|].
    rewrite find_map_snoc, Hnone. by rewrite decide_True.
  - exists i1. split; [done|]. exists c, op, a, a1. split_and!; try done.
    rewrite find_map_snoc. destruct (find_map pms (arg_type op)); [done|]. by rewrite decide_False.
Qed.

Lemma patch_from_patched pms at_ pm c c1 :
  at_ ∉ pms.*1 -> Forall2 (patched pms) c c1 -> Forall (can_patch at_ pm) c ->
  exists c2, patch_from at_ pm c1 = Ok c2 /\ Forall2 (patched (pms ++ [(at_, pm)])) c c2.
Proof.
  intros Hnot Hc. induction Hc as [|i i1 c c1 Hi Hc IH]; intros Hp; cbn.
  { exists []. by split. }
  inversion Hp as [|? ? Hp1 Hp2]; subst. destruct (IH Hp2) as (c2 & -> & Hc2).
  destruct (patch_instr_patched _ _ pm _ _ Hnot Hi Hp1) as (i2 & -> & Hi2). cbn.
  exists (i2 :: c2). split; [done|]. by constructor.
Qed.

Lemma patchCode_patched pms at_ pm pre c c1 :
  Z.of_nat (length (pre ++ c)) < 2 ^ 32 -> at_ ∉ pms.*1 ->
  Forall2 (patched pms) c c1 -> Forall (can_patch at_ pm) c ->
  exists c2, patchCode (pre ++ c1) at_ (Z.of_nat (length pre)) pm = Ok (pre ++ c2) /\
    Forall2 (patched (pms ++ [(at_, pm)])) c c2.
Proof.
  intros Hlen Hnot Hc Hp. pose proof (Forall2_length _ _ _ Hc) as Hl. rewrite length_app in Hlen.
  unfold patchCode, ProgramCode.size. rewrite length_app, wrap_small by lia.
  destruct (Z.ltb_spec (Z.of_nat (length pre + length c1)) (Z.of_nat (length pre))); [lia|].
  destruct (Z.eqb_spec (Z.of_nat (length pre)) (Z.of_nat (length pre + length c1))).
  - destruct c1; [|cbn in *; lia]. inversion Hc; subst. exists []. by split.
  - rewrite Nat2Z.id, drop_app_length, take_app_length.
    destruct (patch_from_patched _ _ pm _ _ Hnot Hc Hp) as (c2 & -> & Hc2). exists c2. by split.
Qed.

Lemma patched_start p c : Forall (valid_instr p) c -> Forall2 (patched []) c c.
Proof.
  induction 1 as [|i c (cc & op & a & Ha & Hi & _) Hc IH]; [constructor|]. constructor; [|done].
  by exists cc, op, a, a.
Qed.


(** ** Joining *)

(** The tables of two programs fit together into the range of argument indices. *)
Record joinable (p oth : t) : Prop := {
  join_code : Z.of_nat (length (code p) + length (code oth)) <= Max_ArgumentIndex;
  join_tags : Z.of_nat (length (NameTable.m_namear (tagnametab p))
                + length (NameTable.m_namear (tagnametab oth))) <= Max_ArgumentIndex;
  join_results : Z.of_nat (length (NameTable.m_namear (resultnametab p))
                + length (NameTable.m_namear (resultnametab oth))) <= Max_ArgumentIndex;
  join_columns : Z.of_nat (length (NameTable.m_namear (colnametab p))
                + length (NameTable.m_namear (colnametab oth))) <= Max_ArgumentIndex;
  join_constants : Z.of_nat (length (constants p) + length (constants oth)) <= Max_ArgumentIndex;
  join_statements : Z.of_nat (length (statements p) + length (statements oth)) <= Max_ArgumentIndex;
  join_hints : Z.of_nat (length (hinttab p) + length (hinttab oth)) <= Max_ArgumentIndex;
  join_signatures : Z.of_nat (length (signatures p) + length (signatures oth)) <= Max_ArgumentIndex;
  join_tuplesets : Z.of_nat (length (tuplesets p) + length (tuplesets oth)) <= Max_ArgumentIndex;
  join_paths : Z.of_nat (length (SelectorPathSet.m_pathar (pathset p))
                + length (SelectorPathSet.m_pathar (pathset oth))) <= Max_ArgumentIndex;
  join_pathtags : forall ps,
    SelectorPathSet.join_from (SelectorPathSet.m_pathar (pathset oth)) (pathset oth) (pathset p) = Ok ps ->
    TagTableFacts.fits (SelectorPathSet.m_tagtab ps)
}.

(** Jumps stay inside of the code or go to its end. *)
Definition jump_below (n : Z) (i : Z) : Prop :=
  forall cc op a, 0 <= a -> instruction cc op a = Ok i -> arg_type op = At_Address -> a <= n.

(** A program whose tables begin with those of another one. *)
Record extends (p p' : t) : Prop := {
  ext_code : code p `prefix_of` code p';
  ext_tags : NameTable.m_namear (tagnametab p) `prefix_of` NameTable.m_namear (tagnametab p');
  ext_results : NameTable.m_namear (resultnametab p) `prefix_of` NameTable.m_namear (resultnametab p');
  ext_columns : NameTable.m_namear (colnametab p) `prefix_of` NameTable.m_namear (colnametab p');
  ext_constants : constants p `prefix_of` constants p';
  ext_statements : statements p `prefix_of` statements p';
  ext_hints : hinttab p `prefix_of` hinttab p';
  ext_signatures : signatures p `prefix_of` signatures p';
  ext_tuplesets : tuplesets p `prefix_of` tuplesets p';
  ext_paths : SelectorPathSet.m_pathar (pathset p) `prefix_of` SelectorPathSet.m_pathar (pathset p');
  ext_pathtags : TagTable.m_strings (SelectorPathSet.m_tagtab (pathset p)) `prefix_of`
                 TagTable.m_strings (SelectorPathSet.m_tagtab (pathset p'))
}.

Lemma extends_refl p : extends p p.
Proof. by split. Qed.

Lemma extends_trans p1 p2 p3 : extends p1 p2 -> extends p2 p3 -> extends p1 p3.
Proof. intros [] []. split; by etrans. Qed.

Lemma small_extends p p' : extends p p' -> small p' -> small p.
Proof.
  intros [E1 E2 E3 E4 E5 E6 E7 E8 E9 E10 E11] [].
  apply prefix_length in E1, E2, E3, E4, E5, E6, E7, E8, E9, E10, E11.
  split; unfold TagTableFacts.fits in *; lia.
Qed.

Lemma valid_arg_extends p p' at_ a : extends p p' -> valid_arg p at_ a -> valid_arg p' at_ a.
Proof.
  intros [He1 He2 He3 He4 He5 He6 He7 He8 He9 He10 He11].
  pose proof (prefix_length _ _ He2). pose proof (prefix_length _ _ He3).
  pose proof (prefix_length _ _ He4). pose proof (prefix_length _ _ He7).
  pose proof (prefix_length _ _ He10).
  destruct at_; cbn; try done; try lia; intros [x Hx]; exists x; by eapply prefix_lookup_Some.
Qed.

Lemma valid_instr_extends p p' i : extends p p' -> valid_instr p i -> valid_instr p' i.
Proof.
  intros He (c & op & a & Ha & Hi & Hv). exists c, op, a. split_and!; try done.
  by eapply valid_arg_extends.
Qed.

Lemma same_arg_valid p p' ofs at_ a a' :
  0 <= a -> valid_arg p at_ a -> same_arg p p' ofs at_ a a' -> valid_arg p' at_ a'.
Proof.
  intros Ha. destruct at_; cbn; try done.
  - intros Hv (H1 & q & q' & _ & Hq' & _). apply lookup_lt_Some in Hq'. lia.
  - by intros Hv ->.
  - intros Hv (n & m & nam & nam' & -> & -> & _ & Hm%lookup_lt_Some & _). lia.
  - intros Hv (n & m & nam & nam' & -> & -> & _ & Hm%lookup_lt_Some & _). lia.
  - intros Hv (n & m & nam & nam' & -> & -> & _ & Hm%lookup_lt_Some & _). lia.
  - by intros Hv ->.
  - intros Hv [H1 Heq]. destruct (lookup_lt_is_Some_2 (hinttab p) (Z.to_nat (a - 1))) as [x Hx]; [lia|].
    pose proof (eq_trans Heq Hx) as H2%lookup_lt_Some. lia.
  - by intros Hv ->.
  - by intros Hv ->.
Qed.

Lemma valid_can_patch p at_ pm c :
  Forall (valid_instr p) c ->
  (forall a, 0 <= a -> valid_arg p at_ a ->
     exists a', patch_index pm a = Ok a' /\ 0 <= a' <= Max_ArgumentIndex) ->
  Forall (can_patch at_ pm) c.
Proof.
  intros Hc Hp. eapply Forall_impl; [exact Hc|]. intros i (cc & op & a & Ha & Hi & Hv) cc' op' a' Ha' Hi' Ht.
  destruct (instruction_inj _ _ _ _ _ _ _ Ha Ha' Hi Hi') as (_ & <- & <-). apply Hp; [done|].
  by rewrite <- Ht.
Qed.

Lemma patch_offset n m a :
  Z.of_nat (n + m) <= Max_ArgumentIndex -> 0 <= a <= Z.of_nat m ->
  patch_index (PatchArgumentMap_Offset (u32 (Z.of_nat n))) a = Ok (Z.of_nat n + a) /\
  0 <= Z.of_nat n + a <= Max_ArgumentIndex.
Proof.
  change Max_ArgumentIndex with 1048575. intros Hn Ha. cbn. rewrite !wrap_small; [split; [done|lia]|lia|].
  rewrite wrap_small; lia.
Qed.

Lemma patch_offset_inv n m a a' :
  Z.of_nat (n + m) <= Max_ArgumentIndex ->
  patch_index (PatchArgumentMap_Offset (u32 (Z.of_nat n))) a = Ok a' -> 0 <= a <= Z.of_nat m ->
  a' = Z.of_nat n + a.
Proof.
  intros Hn Hp Ha. destruct (patch_offset n m a Hn Ha) as [E _]. rewrite E in Hp. by injection Hp.
Qed.

Lemma lookup_offset {A} (l m : list A) a : 0 <= a ->
  (l ++ m) !! Z.to_nat (Z.of_nat (length l) + a) = m !! Z.to_nat a.
Proof.
  intros Ha. rewrite lookup_app_r by lia. f_equal. lia.
Qed.

(** The maps of the passes for the tables of [oth]. *)
Definition table_maps (p oth : t) (tags results cols : PatchArgumentMap)
    : list (ArgumentType * PatchArgumentMap) :=
  let ofs n := PatchArgumentMap_Offset (u32 (Z.of_nat n)) in
  [ (At_Constant, ofs (length (constants p))); (At_TagName, tags); (At_ResultName, results);
    (At_ColumnName, cols); (At_Statement, ofs (length (statements p)));
    (At_Hint, ofs (length (hinttab p))); (At_SubroutineSignature, ofs (length (signatures p)));
    (At_TupleSet, ofs (length (tuplesets p)));
    (At_Path, ofs (length (SelectorPathSet.m_pathar (pathset p)))) ].

Lemma name_can_patch p at_ nt oth_nt pm :
  (forall a, 0 <= a -> valid_arg p at_ a -> 1 <= a <= Z.of_nat (length (NameTable.m_namear oth_nt))) ->
  Forall (valid_instr p) (code p) ->
  Z.of_nat (length (NameTable.m_namear nt)) <= Max_ArgumentIndex ->
  (forall i j, patch_index pm i = Ok j -> NameTableFacts.renamed oth_nt nt i j) ->
  (forall i, 1 <= i <= Z.of_nat (length (NameTable.m_namear oth_nt)) -> exists j, patch_index pm i = Ok j) ->
  Forall (can_patch at_ pm) (code p).
Proof.
  intros Hat Hc Hlen Hr Hd. eapply valid_can_patch; [done|]. intros a Ha Hv.
  destruct (Hd a (Hat a Ha Hv)) as [j Hj]. exists j. split; [done|].
  destruct (Hr _ _ Hj) as (n & m & nam & nam' & _ & -> & _ & Hm%lookup_lt_Some & _). lia.
Qed.

Lemma offset_can_patch p at_ n m :
  Forall (valid_instr p) (code p) -> Z.of_nat (n + m) <= Max_ArgumentIndex ->
  (forall a, 0 <= a -> valid_arg p at_ a -> a <= Z.of_nat m) ->
  Forall (can_patch at_ (PatchArgumentMap_Offset (u32 (Z.of_nat n)))) (code p).
Proof.
  intros Hc Hn Hv. eapply valid_can_patch; [done|]. intros a Ha Hva. eexists. apply patch_offset with (m := m).
  - done.
  - split; [done|]. by apply Hv.
Qed.

Lemma address_can_patch oth n :
  Forall (valid_instr oth) (code oth) -> Forall (jump_below (Z.of_nat (length (code oth)))) (code oth) ->
  Z.of_nat (n + length (code oth)) <= Max_ArgumentIndex ->
  Forall (can_patch At_Address (PatchArgumentMap_Offset (u32 (Z.of_nat n)))) (code oth).
Proof.
  intros _ Hj Hn. eapply Forall_impl; [exact Hj|]. intros i Hb cc op a Ha Hi Ht. eexists.
  apply patch_offset with (m := length (code oth)); [done|]. split; [done|]. by eapply Hb.
Qed.

(** The first pass, over the jumps, if it is done. *)
Definition address_maps (p : t) (b : bool) : list (ArgumentType * PatchArgumentMap) :=
  if b then [(At_Address, PatchArgumentMap_Offset (u32 (Z.of_nat (length (code p)))))] else [].

(** A sequence of passes with what follows. *)
Fixpoint passes {A} (pms : list (ArgumentType * PatchArgumentMap)) (startidx : Z)
    (c : ProgramCode.t) (k : ProgramCode.t -> res A) : res A :=
  match pms with
  | [] => k c
  | (at_, pm) :: pms' => c ← patchCode c at_ startidx pm; passes pms' startidx c k
  end.

Lemma passes_patched {A} pms done_ pre c c1 (k : ProgramCode.t -> res A) :
  Z.of_nat (length (pre ++ c)) < 2 ^ 32 -> NoDup ((done_ ++ pms).*1) ->
  Forall2 (patched done_) c c1 -> Forall (fun e => Forall (can_patch e.1 e.2) c) pms ->
  exists c2, passes pms (Z.of_nat (length pre)) (pre ++ c1) k = k (pre ++ c2) /\
    Forall2 (patched (done_ ++ pms)) c c2.
Proof.
  intros Hlen. revert done_ c1. induction pms as [|[at_ pm] pms IH]; intros done_ c1 Hnd Hc Hp; cbn.
  { exists c1. by rewrite app_nil_r. }
  inversion Hp as [|? ? Hp1 Hp2]; subst.
  assert (at_ ∉ done_.*1) as Hnot.
  { rewrite fmap_app, NoDup_app in Hnd. destruct Hnd as (_ & Hd & _). intros Hin.
    by apply (Hd at_ Hin); left. }
  destruct (patchCode_patched done_ at_ pm pre c c1 Hlen Hnot Hc Hp1) as (c2 & -> & Hc2). cbn.
  rewrite cons_middle, (app_assoc done_) in Hnd. destruct (IH _ c2 Hnd Hc2 Hp2) as (c3 & -> & Hc3).
  exists c3. split; [done|]. by rewrite cons_middle, (app_assoc done_).
Qed.

(** The tables of the joined program. *)
Record joined (p oth : t) (tags results cols : NameTable.t) (ptags presults pcols : PatchArgumentMap)
    (paths : SelectorPathSet.t) : Prop := {
  j_tags : NameTable.join (tagnametab p) (tagnametab oth) = Ok (tags, ptags);
  j_results : NameTable.join (resultnametab p) (resultnametab oth) = Ok (results, presults);
  j_cols : NameTable.join (colnametab p) (colnametab oth) = Ok (cols, pcols);
  j_paths : SelectorPathSet.join_from (SelectorPathSet.m_pathar (pathset oth)) (pathset oth) (pathset p)
            = Ok paths
}.

Definition joined_program (p oth : t) (c : ProgramCode.t) (tags results cols : NameTable.t)
    (paths : SelectorPathSet.t) : t :=
  mk c paths (constants p ++ constants oth) cols tags results (statements p ++ statements oth)
    (hinttab p ++ hinttab oth) (signatures p ++ signatures oth) (tuplesets p ++ tuplesets oth)
    (tdlpositions p ++
       map (fun di => mkInstructionPos (pos_ip di + Z.to_nat (ProgramCode.size (code p))) (pos_pos di))
         (tdlpositions oth)).

Lemma add_passes p oth b tags results cols ptags presults pcols paths :
  Z.of_nat (length (code p)) < 2 ^ 32 ->
  joined p oth tags results cols ptags presults pcols paths ->
  add p oth b =
  passes (address_maps p b ++ table_maps p oth ptags presults pcols) (Z.of_nat (length (code p)))
    (code p ++ code oth) (fun c => Ok (joined_program p oth c tags results cols paths)).
Proof.
  intros Hl [Ht Hr Hc Hp].
  assert (ProgramCode.size (code p) = Z.of_nat (length (code p))) as Hsz.
  { unfold ProgramCode.size. by rewrite wrap_small by lia. }
  unfold add, joinProgramCode, ProgramCode.append. rewrite Ht, Hr, Hc.
  unfold SelectorPathSet.join. rewrite Hp. unfold joined_program. rewrite Hsz. by destruct b.
Qed.

(** Every pass over the code of [oth] succeeds. *)
Lemma maps_can_patch p oth b tags results cols ptags presults pcols paths :
  ok p -> ok oth -> joinable p oth ->
  (b = true -> Forall (jump_below (Z.of_nat (length (code oth)))) (code oth)) ->
  joined p oth tags results cols ptags presults pcols paths ->
  Forall (fun e => Forall (can_patch e.1 e.2) (code oth))
    (address_maps p b ++ table_maps p oth ptags presults pcols).
Proof.
  intros Hp Ho [J1 J2 J3 J4 J5 J6 J7 J8 J9 J10 J11] Hb [Et Er Ec _]. pose proof (ok_code _ Ho) as Hc.
  change Max_ArgumentIndex with 1048575 in *.
  destruct (NameTableFacts.join_spec _ _ (ok_tags _ Hp) (ok_tags _ Ho)) as (t' & pt' & Et' & _ & _ & Lt & Rt & Dt); [lia|].
  destruct (NameTableFacts.join_spec _ _ (ok_results _ Hp) (ok_results _ Ho)) as (r' & pr' & Er' & _ & _ & Lr & Rr & Dr); [lia|].
  destruct (NameTableFacts.join_spec _ _ (ok_columns _ Hp) (ok_columns _ Ho)) as (c' & pc' & Ec' & _ & _ & Lc & Rc & Dc); [lia|].
  rewrite Et in Et'. rewrite Er in Er'. rewrite Ec in Ec'. res_inv.
  apply Forall_app. split.
  { destruct b; [|done]. constructor; [|done]. apply address_can_patch; auto. }
  repeat apply Forall_cons_2; try apply Forall_nil_2; cbn [fst snd].
  all: first [ eapply name_can_patch; [|done| |eassumption|eassumption];
                 [by intros a _ Hv|change Max_ArgumentIndex with 1048575; lia]
             | eapply offset_can_patch; [done|eassumption|]; intros a Ha; cbn;
                 first [intros Hv%lookup_lt_is_Some; lia|lia] ].
Qed.

Lemma table_maps_types p oth b pt pr pc :
  NoDup ((address_maps p b ++ table_maps p oth pt pr pc).*1).
Proof.
  destruct b; cbn; repeat (apply NoDup_cons_2; [by set_solver|]); apply NoDup_nil_2.
Qed.

(** What the instruction refers to is the same after the passes. *)
Lemma patched_same p oth b c tags results cols ptags presults pcols paths :
  ok p -> ok oth -> joinable p oth ->
  joined p oth tags results cols ptags presults pcols paths ->
  (b = true -> Forall (jump_below (Z.of_nat (length (code oth)))) (code oth)) ->
  forall i i', In i (code oth) ->
  patched (address_maps p b ++ table_maps p oth ptags presults pcols) i i' ->
  same_instr oth (joined_program p oth c tags results cols paths)
    (if b then Z.of_nat (length (code p)) else 0) i i'.
Proof.
  intros Hp Ho [J1 J2 J3 J4 J5 J6 J7 J8 J9 J10 J11] [Et Er Ec Eps] Hb i i' Hin
    (cc & op & a & a' & Ha & Ha' & Hi & Hi' & Hf).
  change Max_ArgumentIndex with 1048575 in *.
  destruct (NameTableFacts.join_spec _ _ (ok_tags _ Hp) (ok_tags _ Ho)) as (t' & pt' & Et' & _ & _ & _ & Rt & _); [lia|].
  destruct (NameTableFacts.join_spec _ _ (ok_results _ Hp) (ok_results _ Ho)) as (r' & pr' & Er' & _ & _ & _ & Rr & _); [lia|].
  destruct (NameTableFacts.join_spec _ _ (ok_columns _ Hp) (ok_columns _ Ho)) as (c' & pc' & Ec' & _ & _ & _ & Rc & _); [lia|].
  rewrite Et in Et'. rewrite Er in Er'. rewrite Ec in Ec'. res_inv.
  pose proof (ok_code _ Ho) as Hc. rewrite Forall_forall in Hc.
  destruct (Hc i) as (cc1 & op1 & a1 & Ha1 & Hi1 & Hv); [by apply list_elem_of_In|].
  destruct (instruction_inj _ _ _ _ _ _ _ Ha Ha1 Hi Hi1) as (<- & <- & <-).
  exists cc, op, a, a'. split_and!; try done.
  destruct (arg_type op) eqn:Eat; cbn in Hv |- *.
  2: { destruct b; cbn in Hf; [|lia].
       specialize (Hb eq_refl). rewrite Forall_forall in Hb.
       assert (a <= Z.of_nat (length (code oth))).
       { by eapply (Hb i); [apply list_elem_of_In|..]. }
       eapply patch_offset_inv in Hf; [|done|lia]. lia. }
  all: replace (find_map _ _) with (find_map (table_maps p oth pt' pr' pc') (arg_type op)) in Hf
    by (rewrite Eat; by destruct b); rewrite Eat in Hf; cbn in Hf; try done; auto.
  all: try (apply lookup_lt_is_Some in Hv as Hlt).
  all: first [eapply (patch_offset_inv _ _ _ _ J5) in Hf | eapply (patch_offset_inv _ _ _ _ J6) in Hf
             | eapply (patch_offset_inv _ _ _ _ J7) in Hf | eapply (patch_offset_inv _ _ _ _ J8) in Hf
             | eapply (patch_offset_inv _ _ _ _ J9) in Hf | eapply (patch_offset_inv _ _ _ _ J10) in Hf];
    [|lia]; subst a'; try by apply lookup_offset.
  - split; [lia|]. destruct (lookup_lt_is_Some_2 (SelectorPathSet.m_pathar (pathset oth)) (Z.to_nat (a - 1)))
      as [q Hq]; [lia|].
    destruct (SelectorPathFacts.join_paths_spec _ _ (SelectorPathFacts.ok_paths _ (ok_pathset _ Ho)) _ _
      (ok_pathset _ Hp) Eps (J11 _ Eps)) as (_ & morep & Emp & Hfa).
    destruct (Forall2_lookup_l _ _ _ _ _ Hfa Hq) as (q' & Hq' & Hs). exists q, q'. split_and!; try done.
    rewrite Emp. replace (Z.of_nat _ + a - 1) with (Z.of_nat (length (SelectorPathSet.m_pathar (pathset p))) + (a - 1)) by lia.
    rewrite lookup_offset by lia. done.
  - split; [lia|]. replace (Z.of_nat _ + a - 1) with (Z.of_nat (length (hinttab p)) + (a - 1)) by lia.
    apply lookup_offset. lia.
Qed.

(** Joining two programs within the range of argument indices: it succeeds, keeps the
    instructions and tables of the first, and appends the instructions of the second,
    each with an argument that refers to the same thing. *)
Lemma join_programs_spec p oth b :
  ok p -> ok oth -> joinable p oth ->
  (b = true -> Forall (jump_below (Z.of_nat (length (code oth)))) (code oth)) ->
  exists p' more, add p oth b = Ok p' /\ ok p' /\ extends p p' /\ code p' = code p ++ more /\
    Forall2 (same_instr oth p' (if b then Z.of_nat (length (code p)) else 0)) (code oth) more.
Proof.
  intros Hp Ho Hj Hb. pose proof Hj as [J1 J2 J3 J4 J5 J6 J7 J8 J9 J10 J11].
  change Max_ArgumentIndex with 1048575 in *.
  destruct (NameTableFacts.join_spec _ _ (ok_tags _ Hp) (ok_tags _ Ho)) as (t' & pt' & Et & Ot & Xt & _); [lia|].
  destruct (NameTableFacts.join_spec _ _ (ok_results _ Hp) (ok_results _ Ho)) as (r' & pr' & Er & Or & Xr & _); [lia|].
  destruct (NameTableFacts.join_spec _ _ (ok_columns _ Hp) (ok_columns _ Ho)) as (c' & pc' & Ec & Oc & Xc & _); [lia|].
  destruct (SelectorPathFacts.join_from_total (pathset oth) (SelectorPathSet.m_pathar (pathset oth)) (pathset p))
    as [paths Eps]; [apply SelectorPathFacts.ok_paths, ok_pathset, Ho|].
  destruct (SelectorPathFacts.join_paths_spec _ _ (SelectorPathFacts.ok_paths _ (ok_pathset _ Ho)) _ _
    (ok_pathset _ Hp) Eps (J11 _ Eps)) as (Ops & morep & Emp & _).
  assert (joined p oth t' r' c' pt' pr' pc' paths) as Hjd by done.
  assert (Z.of_nat (length (code p)) < 2 ^ 32) as Hl by lia. rewrite (add_passes _ _ _ _ _ _ _ _ _ _ Hl Hjd).
  destruct (passes_patched (address_maps p b ++ table_maps p oth pt' pr' pc') [] (code p) (code oth)
    (code oth) (fun c => Ok (joined_program p oth c t' r' c' paths))) as (more & -> & Hm).
  - rewrite length_app. lia.
  - apply table_maps_types.
  - by eapply patched_start, ok_code.
  - by eapply maps_can_patch.
  - set (p' := joined_program p oth (code p ++ more) t' r' c' paths).
    assert (extends p p') as Hext.
    { split; cbn; try done; rewrite ?Emp; try by eexists. by eapply SelectorPathFacts.join_from_grows. }
    assert (Forall2 (same_instr oth p' (if b then Z.of_nat (length (code p)) else 0)) (code oth) more) as Hs.
    { apply Forall2_same_length_lookup_2; [by eapply Forall2_length|]. intros n x y Hx Hy.
      eapply patched_same; try done.
      - apply list_elem_of_In. by eapply list_elem_of_lookup_2.
      - by eapply Forall2_lookup_lr. }
    exists p', more. split_and!; try done. split; try done. cbn. apply Forall_app. split.
    + eapply Forall_impl; [exact (ok_code _ Hp)|]. intros i. by apply valid_instr_extends.
    + pose proof (ok_code _ Ho) as Hc. clearbody p'. clear -Hc Hs. induction Hs as [|i i' c1 c2 Hi Hs IH]; [constructor|].
      inversion Hc as [|? ? H1 H2]; subst. constructor; [|auto].
      destruct Hi as (cc & op & a & a' & Ha & Ha' & Hi & Hi' & Hsa).
      destruct H1 as (cc1 & op1 & a1 & Ha1 & Hi1 & Hv).
      destruct (instruction_inj _ _ _ _ _ _ _ Ha Ha1 Hi Hi1) as (<- & <- & <-).
      exists cc, op, a'. split_and!; try done. by eapply same_arg_valid.
Qed.

End ProgramFacts.

(** ** Small programs *)

Lemma ok_empty : ProgramFacts.ok Program.make.
Proof.
  split; try apply NameTableFacts.ok_make; [apply SelectorPathFacts.ok_set_make|constructor].
Qed.

Lemma small_decide p :
  forallb (fun n => Z.of_nat n <? 2 ^ 31)
    [length (Program.code p); length (NameTable.m_namear (Program.tagnametab p));
     length (NameTable.m_namear (Program.resultnametab p)); length (NameTable.m_namear (Program.colnametab p));
     length (Program.constants p); length (Program.statements p); length (Program.hinttab p);
     length (Program.signatures p); length (Program.tuplesets p);
     length (SelectorPathSet.m_pathar (Program.pathset p))] = true ->
  TagTableFacts.fits (SelectorPathSet.m_tagtab (Program.pathset p)) -> ProgramFacts.small p.
Proof.
  cbn [forallb]. rewrite !andb_true_iff, !Z.ltb_lt. intros H Hf. by destruct_and! H; split.
Qed.

Lemma joinable_decide p oth :
  forallb (fun '(n, m) => Z.of_nat (n + m) <=? Max_ArgumentIndex)
    [(length (Program.code p), length (Program.code oth));
     (length (NameTable.m_namear (Program.tagnametab p)), length (NameTable.m_namear (Program.tagnametab oth)));
     (length (NameTable.m_namear (Program.resultnametab p)), length (NameTable.m_namear (Program.resultnametab oth)));
     (length (NameTable.m_namear (Program.colnametab p)), length (NameTable.m_namear (Program.colnametab oth)));
     (length (Program.constants p), length (Program.constants oth));
     (length (Program.statements p), length (Program.statements oth));
     (length (Program.hinttab p), length (Program.hinttab oth));
     (length (Program.signatures p), length (Program.signatures oth));
     (length (Program.tuplesets p), length (Program.tuplesets oth));
     (length (SelectorPathSet.m_pathar (Program.pathset p)), length (SelectorPathSet.m_pathar (Program.pathset oth)))] = true ->
  match SelectorPathSet.join_from (SelectorPathSet.m_pathar (Program.pathset oth)) (Program.pathset oth) (Program.pathset p) with
  | Ok ps => TagTableFacts.fits (SelectorPathSet.m_tagtab ps)
  | _ => True
  end -> ProgramFacts.joinable p oth.
Proof.
  cbn [forallb]. rewrite !andb_true_iff, !Z.leb_le. intros H Hf. destruct_and! H. split; try done.
  intros ps Hps. by rewrite Hps in Hf.
Qed.

Lemma ok_no_tables c p :
  Forall (ProgramFacts.valid_instr (Program.set_code p c)) c ->
  Program.tagnametab p = NameTable.make -> Program.resultnametab p = NameTable.make ->
  Program.colnametab p = NameTable.make -> Program.pathset p = SelectorPathSet.make ->
  Program.code p = c -> ProgramFacts.ok p.
Proof.
  intros Hc H1 H2 H3 H4 <-. split; rewrite ?H1, ?H2, ?H3, ?H4; try apply NameTableFacts.ok_make.
  - apply SelectorPathFacts.ok_set_make.
  - by destruct p.
Qed.

Lemma not_jump n cc op a i :
  0 <= a -> instruction cc op a = Ok i -> ProgramFacts.arg_type op <> At_Address -> ProgramFacts.jump_below n i.
Proof.
  intros Ha Hi Hne cc' op' a' Ha' Hi' Ht.
  destruct (ProgramFacts.instruction_inj _ _ _ _ _ _ _ Ha Ha' Hi Hi') as (_ & <- & _). done.
Qed.

(** ** Theorems *)

(** C13. Joining two programs within the range of argument indices, as it is done for subroutines,
    audit functions and the main program: it succeeds and keeps the instructions of the first
    program and what they refer to; behind them are the instructions of the second, each with
    an argument that refers in the joined tables to what it referred to before, and with the
    jumps moved if they are to be relocated. *)
Theorem programs_join p oth relocate :
  ProgramFacts.ok p -> ProgramFacts.ok oth -> ProgramFacts.joinable p oth ->
  (relocate = true -> Forall (ProgramFacts.jump_below (Z.of_nat (length (Program.code oth)))) (Program.code oth)) ->
  exists p' more, Program.add p oth relocate = Ok p' /\ ProgramFacts.ok p' /\ ProgramFacts.extends p p' /\
    Program.code p' = Program.code p ++ more /\
    Forall2 (ProgramFacts.same_instr oth p' (if relocate then Z.of_nat (length (Program.code p)) else 0))
      (Program.code oth) more.
Proof. apply ProgramFacts.join_programs_spec. Qed.

(** Two programs with a constant each. *)
Definition const_program (v : Variant) : Program.t :=
  match instruction Co_ALWAYS Op_OUTPUT_CONST 0 with
  | Ok i => Program.set_constants (Program.set_code Program.make [i]) [v]
  | _ => Program.make
  end.

Lemma const_program_ok v : ProgramFacts.ok (const_program v).
Proof.
  eapply ok_no_tables; try reflexivity. constructor; [|done].
  exists Co_ALWAYS, Op_OUTPUT_CONST, 0. split_and!; [lia|reflexivity|by eexists].
Qed.

Lemma programs_join_witness :
  exists p' more, Program.add (const_program (Str "a")) (const_program (Str "b")) true = Ok p' /\
    Program.code p' = Program.code (const_program (Str "a")) ++ more /\
    Forall2 (ProgramFacts.same_instr (const_program (Str "b")) p' 1) (Program.code (const_program (Str "b"))) more.
Proof.
  destruct (programs_join (const_program (Str "a")) (const_program (Str "b")) true)
    as (p' & more & H1 & _ & _ & H2 & H3).
  - apply const_program_ok.
  - apply const_program_ok.
  - by apply joinable_decide.
  - intros _. constructor; [|done]. by apply (not_jump _ Co_ALWAYS Op_OUTPUT_CONST 0).
  - by exists p', more.
Defined.
