(* ===== verification/Tdl2vm.v ===== *)
(** * Translation of the transaction language to programs of the virtual machine

    Models src/modules/cmdbind/tdl/tdl2vmTranslator.hpp and tdl2vmTranslator.cpp: the
    translator that the parser of the transaction language drives, with its stack of open
    constructs, the segment of the subroutines and the segment of the main program, and
    vm/subroutine.hpp and vm/subroutine.cpp: subroutines and the substitution of the
    parameters of templates. *)
From S2P Require Import Prelude InstructionSet Variant ValueTupleSet ProgramImage TdlTables SelectorPath ParseUtils TdlProgram.

(** ** Subroutines *)

Module Subroutine.

Record t := mk {
  m_name : string;
  m_templateParams : list string;
  m_params : list string;
  m_program : Program.t
}.

Definition g_sub_optab : CharTable.t := CharTable.table ";:-,.=)(<>[]{}/&%*|+-#?!$" false.

(** Whether a character begins an identifier, or a string whose quote it is. *)
Definition is_letter (ch : ascii) : bool :=
  ((97 <=? Z.lor (ord ch) 32) && (Z.lor (ord ch) 32 <=? 122) && (ord ch <? 128)) || bool_decide (ch = "_"%char).

(** The range of characters from [from] up to [upto] of [cmd]. *)
Definition range (cmd : list ascii) (from upto : Z) : res (list ascii) :=
  if (from <=? upto) && (0 <=? from)
  then Ok (take (Z.to_nat (upto - from)) (drop (Z.to_nat from) cmd))
  else Throw (Undefined "range with its end before its start").

(** The loop over the parameters of the template for one token, which ends at [si]. *)
Fixpoint replace_token (cmd : list ascii) (tok : string) (quote : option ascii) (si : Z)
    (names values : list string) (rt : list ascii) (start : Z) : res (list ascii * Z) :=
  match names, values with
  | ai :: names', vi :: values' =>
      if iequals tok ai then
        pre ← range cmd start (si - Z.of_nat (String.length tok));
        let value := match quote with
                     | Some q => q :: chars vi ++ [q]
                     | None => chars vi
                     end in
        replace_token cmd tok quote si names' values' (rt ++ pre ++ value) si
      else replace_token cmd tok quote si names' values' rt start
  | _, _ => Ok (rt, start)
  end.

(** The loop over the tokens; a token has at least one character. *)
Fixpoint substitute_loop (fuel : nat) (cmd itr : list ascii) (names values : list string)
    (rt : list ascii) (start : Z) : res (list ascii * Z) :=
  match fuel with
  | O => OutOfFuel
  | S fuel' =>
      '(ch, tok, itr) ← parseNextToken_op itr g_sub_optab;
      if bool_decide (ch = nul) then Ok (rt, start)
      else
        '(rt, start) ←
          (if is_letter ch || is_quote ch then
             replace_token cmd tok (if is_quote ch then Some ch else None)
               (Z.of_nat (length cmd - length itr)) names values rt start
           else Ok (rt, start));
        substitute_loop fuel' cmd itr names values rt start
  end.

Definition substituteTemplateArguments (cmd : string) (names values : list string) : res string :=
  let cs := chars cmd in
  '(rt, start) ← substitute_loop (S (length cs)) cs cs names values [] 0;
  if start =? 0 then Ok cmd
  else rest ← range cs start (Z.of_nat (length cs)); Ok (str (rt ++ rest)).

Fixpoint substitute_all (stms : list string) (names values : list string) : res (list string) :=
  match stms with
  | [] => Ok []
  | si :: se => s ← substituteTemplateArguments si names values;
                rest ← substitute_all se names values; Ok (s :: rest)
  end.

Definition substituteStatementTemplates (s : t) (values : list string) : res t :=
  if negb (length values =? length (m_templateParams s))%nat
  then Throw (RuntimeError "number of template parameters do not match")
  else match values with
       | [] => Ok s
       | _ => stms ← substitute_all (Program.statements (m_program s)) (m_templateParams s) values;
              Ok (mk (m_name s) (m_templateParams s) (m_params s)
                    (Program.set_statements (m_program s) stms))
       end.

End Subroutine.

(** ** The translator *)

Inductive StateId :=
| OpenForeach | OpenIntoBlock | OpenIntoBlockArray | OpenStatementCall | StatementHint
| OpenSubroutineCall | OpenLoopElement.

#[export] Instance StateId_eq_dec : EqDecision StateId.
Proof. solve_decision. Defined.

Record State := mkState {
  st_id : StateId;
  st_value : Z;
  st_paramcnt : Z
}.

Record CalledSubroutineDef := mkCalledSubroutineDef {
  called_address : Z;
  called_subroutine : Subroutine.t;
  called_mangledName : string
}.

Module Tdl2vm.

(** The stack is kept top first. *)
Record t := mk {
  m_stateStack : list State;
  m_soubroutinemap : StdMap.t Subroutine.t;
  m_calledSubroutines : list CalledSubroutineDef;
  m_sub_program : Program.t;
  m_main_program : Program.t;
  m_isSubroutine : bool;
  m_nofCommands : Z
}.

Definition set_stateStack (tr : t) (x : list State) : t :=
  mk x (m_soubroutinemap tr) (m_calledSubroutines tr) (m_sub_program tr) (m_main_program tr)
    (m_isSubroutine tr) (m_nofCommands tr).
Definition set_called (tr : t) (x : list CalledSubroutineDef) (sub : Program.t) : t :=
  mk (m_stateStack tr) (m_soubroutinemap tr) x sub (m_main_program tr) (m_isSubroutine tr)
    (m_nofCommands tr).
Definition set_main (tr : t) (x : Program.t) : t :=
  mk (m_stateStack tr) (m_soubroutinemap tr) (m_calledSubroutines tr) (m_sub_program tr) x
    (m_isSubroutine tr) (m_nofCommands tr).
Definition set_nofCommands (tr : t) (x : Z) : t :=
  mk (m_stateStack tr) (m_soubroutinemap tr) (m_calledSubroutines tr) (m_sub_program tr)
    (m_main_program tr) (m_isSubroutine tr) x.

Definition instr3 : Type := CondCode * OpCode * Z.

(** Instructions are appended one after the other. *)
Fixpoint app_code (c : ProgramCode.t) (l : list instr3) : res ProgramCode.t :=
  match l with
  | [] => Ok c
  | (cond, op, arg) :: l' => c ← ProgramCode.app_cond c cond op arg; app_code c l'
  end.

Definition emit (l : list instr3) (tr : t) : res t :=
  c ← app_code (Program.code (m_main_program tr)) l;
  Ok (set_main tr (Program.set_code (m_main_program tr) c)).

(** [( op, arg)], [( op)]. *)
Abbreviation ins op arg := (Co_ALWAYS, op, arg).
Abbreviation ins0 op := (Co_ALWAYS, op, 0).

Definition make (soubroutinemap : StdMap.t Subroutine.t) (isSubroutine : bool) : res t :=
  c ← app_code [] [ins Op_GOTO 0];
  Ok (mk [] soubroutinemap [] (Program.set_code Program.make c) Program.make isSubroutine 0).

Definition main_size (tr : t) : Z := ProgramCode.size (Program.code (m_main_program tr)).

Definition push_state (id : StateId) (value : Z) (tr : t) : t :=
  set_stateStack tr (mkState id (u32 value) 0 :: m_stateStack tr).
Definition pop_state (tr : t) : t := set_stateStack tr (tl (m_stateStack tr)).

(** The value of the state on top, which must be of the kind that is closed. *)
Definition top_value (tr : t) (id : StateId) (msg : string) : res Z :=
  match m_stateStack tr with
  | st :: _ => if decide (st_id st = id) then Ok (st_value st) else Throw (RuntimeError msg)
  | [] => Throw (RuntimeError msg)
  end.

(** ** Results *)

Definition result_KEEP (name : string) (tr : t) : res t :=
  '(tab, idx) ← NameTable.get (Program.resultnametab (m_main_program tr)) name;
  emit [ins Op_KEEP_RESULT idx] (set_main tr (Program.set_resultnametab (m_main_program tr) tab)).

Definition init_resultset : t -> res t := emit [ins0 Op_RESULT_SET_INIT].
Definition define_resultset_unique : t -> res t := emit [ins0 Op_RESULT_CONSTRAINT_UNIQUE].
Definition define_resultset_nonempty : t -> res t := emit [ins0 Op_RESULT_CONSTRAINT_UNIQUE].

(** ** Loops *)

Definition add_path (selector : string) (tr : t) : res (t * Z) :=
  '(ps, idx) ← SelectorPathSet.add (Program.pathset (m_main_program tr)) selector;
  Ok (set_main tr (Program.set_pathset (m_main_program tr) ps), idx).

(** The instruction that opens the iterator. *)
Definition open_iterator (selector : string) (tr : t) : res (t * instr3) :=
  let idx := NameTable.getIndex (Program.resultnametab (m_main_program tr)) selector in
  if negb (idx =? 0) then Ok (tr, ins Op_OPEN_ITER_KEPT_RESULT idx)
  else if iequals selector "RESULT" then Ok (tr, ins0 Op_OPEN_ITER_LAST_RESULT)
  else if iequals selector "PARAM"
  then Throw (RuntimeError "PARAM not allowed as argument of FOREACH")
  else '(tr, idx) ← add_path selector tr; Ok (tr, ins Op_OPEN_ITER_PATH idx).

Definition begin_FOREACH (selector : string) (tr : t) : res t :=
  '(tr, i) ← open_iterator selector tr;
  tr ← emit [i; (Co_NOT_IF_COND, Op_GOTO, 0)] tr;
  Ok (push_state OpenForeach (main_size tr) tr).

Definition end_FOREACH (tr : t) : res t :=
  v ← top_value tr OpenForeach "illegal state: end of FOREACH";
  tr ← emit [ins0 Op_NEXT; (Co_IF_COND, Op_GOTO, v)] tr;
  let c := Program.code (m_main_program tr) in
  forwardJumpInstr ← ProgramCode.at_ c (u32 (v - 1));
  expected ← instruction Co_NOT_IF_COND Op_GOTO 0;
  if negb (forwardJumpInstr =? expected)
  then Throw (RuntimeError "illegal state: forward patch reference not pointing to instruction expected")
  else
    i ← instruction Co_NOT_IF_COND Op_GOTO (ProgramCode.size c);
    c ← ProgramCode.assign c (u32 (v - 1)) i;
    Ok (pop_state (set_main tr (Program.set_code (m_main_program tr) c))).

(** ** Statements *)

Definition begin_DO_statement (stm : string) (tr : t) : res t :=
  let idx := u32 (Z.of_nat (length (Program.statements (m_main_program tr)))) in
  tr ← emit [ins Op_DBSTM_START idx] tr;
  let tr := push_state OpenStatementCall idx tr in
  Ok (set_main tr (Program.set_statements (m_main_program tr)
                     (Program.statements (m_main_program tr) ++ [stm]))).

Definition statement_HINT (errorclass message : string) (tr : t) : res t :=
  match m_stateStack tr with
  | [] => Throw (RuntimeError "illegal state: HINT without statement")
  | st :: _ =>
      tr ← (if decide (st_id st = OpenStatementCall) then
              '(tab, hintIdx) ← ErrorHintTable.startdef (Program.hinttab (m_main_program tr));
              let tr := set_main tr (Program.set_hinttab (m_main_program tr) tab) in
              emit [ins Op_DBSTM_HINT hintIdx] (push_state StatementHint hintIdx tr)
            else Ok tr);
      _ ← top_value tr StatementHint "illegal state: HINT without open statement";
      tab ← ErrorHintTable.define (Program.hinttab (m_main_program tr)) errorclass message;
      Ok (set_main tr (Program.set_hinttab (m_main_program tr) tab))
  end.

Definition end_DO_statement (tr : t) : res t :=
  v ← top_value tr OpenStatementCall "illegal state: end of DO statement";
  tr ← emit [ins Op_DBSTM_EXEC v] tr;
  Ok (set_nofCommands (pop_state tr) (u32 (m_nofCommands tr + 1))).

(** The loop that prints the last result. *)
Definition output_statement_result (isLoop : bool) (tr : t) : res t :=
  let endofblock := u32 (main_size tr + 5) in
  let endofblock := if isLoop then u32 (endofblock + 2) else endofblock in
  let startofblock := u32 (main_size tr + 2) in
  tr ← emit [ins0 Op_OPEN_ITER_LAST_RESULT; (Co_NOT_IF_COND, Op_GOTO, endofblock)] tr;
  tr ← (if isLoop then emit [ins0 Op_OUTPUT_OPEN_ELEM] tr else Ok tr);
  tr ← emit [ins0 Op_OUTPUT_ITR_COLUMN] tr;
  tr ← (if isLoop then emit [ins0 Op_OUTPUT_CLOSE_ELEM] tr else Ok tr);
  emit [ins0 Op_NEXT; (Co_IF_COND, Op_GOTO, startofblock)] tr.

(** ** Output blocks *)

(** An instruction with the index of a tag name. *)
Definition open_tag (op : OpCode) (name : string) (tr : t) : res t :=
  '(tab, idx) ← NameTable.get (Program.tagnametab (m_main_program tr)) name;
  emit [ins op idx] (set_main tr (Program.set_tagnametab (m_main_program tr) tab)).

Fixpoint open_tags (path : list string) (tr : t) : res t :=
  match path with
  | [] => Ok tr
  | pi :: pe => tr ← open_tag Op_OUTPUT_OPEN pi tr; open_tags pe tr
  end.

Fixpoint close_tags (cnt : nat) (tr : t) : res t :=
  match cnt with
  | O => Ok tr
  | S cnt' => tr ← emit [ins0 Op_OUTPUT_CLOSE] tr; close_tags cnt' tr
  end.

Definition begin_INTO_block_name (name : string) (tr : t) : res t :=
  tr ← open_tag Op_OUTPUT_OPEN name tr; Ok (push_state OpenIntoBlock 1 tr).

Definition begin_INTO_block (path : list string) (tr : t) : res t :=
  tr ← open_tags path tr; Ok (push_state OpenIntoBlock (Z.of_nat (length path)) tr).

Definition end_INTO_block (tr : t) : res t :=
  v ← top_value tr OpenIntoBlock "illegal state: end of INTO";
  tr ← close_tags (Z.to_nat v) tr; Ok (pop_state tr).

(** The innermost tag of the path is an array. *)
Fixpoint open_array (path : list string) (tr : t) : res t :=
  match path with
  | [] => Throw (RuntimeError "loop INTO statement with empty path")
  | [pi] => open_tag Op_OUTPUT_OPEN_ARRAY pi tr
  | pi :: pe => tr ← open_tag Op_OUTPUT_OPEN pi tr; open_array pe tr
  end.

Definition begin_loop_INTO_block (path : list string) (tr : t) : res t :=
  tr ← open_array path tr; Ok (push_state OpenIntoBlockArray (Z.of_nat (length path)) tr).

Definition end_loop_INTO_block (tr : t) : res t :=
  v ← top_value tr OpenIntoBlockArray "illegal state: end of INTO (array)";
  match Z.to_nat v with
  | O => Ok (pop_state tr)
  | S cnt => tr ← emit [ins0 Op_OUTPUT_CLOSE_ARRAY] tr;
             tr ← close_tags cnt tr; Ok (pop_state tr)
  end.

Definition begin_loop_element (tr : t) : res t :=
  tr ← emit [ins0 Op_OUTPUT_OPEN_ELEM] tr; Ok (push_state OpenLoopElement 0 tr).

Definition end_loop_element (tr : t) : res t :=
  _ ← top_value tr OpenLoopElement "illegal state: end of loop element";
  tr ← emit [ins0 Op_OUTPUT_CLOSE_ELEM] tr; Ok (pop_state tr).

(** ** Subroutine calls *)

Definition mangledSubroutineName (name : string) (templateParamValues : list string)
    (selector : string) : string :=
  match templateParamValues with
  | [] => to_lower_copy name
  | _ => to_lower_copy name
           +:+ String.concat "" (map (fun ti => "$" +:+ to_upper_copy ti) templateParamValues)
           +:+ "%" +:+ to_upper_copy selector
  end%string.

(** Index of a called subroutine, the number of them if it was not called before. *)
Fixpoint find_called (mangledName : string) (ci : list CalledSubroutineDef) : nat :=
  match ci with
  | [] => O
  | c :: ci' => if bool_decide (mangledName = called_mangledName c) then O
                else S (find_called mangledName ci')
  end.

(** The code of a subroutine called for the first time is added to the subroutine segment. *)
Definition add_called (name mangledName : string) (templateParamValues : list string)
    (sr : Subroutine.t) (tr : t) : res t :=
  let address := ProgramCode.size (Program.code (m_sub_program tr)) in
  if negb (length (Subroutine.m_templateParams sr) =? length templateParamValues)%nat
  then Throw (RuntimeError ("calling subroutine template '" +:+ name
                              +:+ "' with wrong number of template parameters"))
  else
    sr ← (match templateParamValues with
          | [] => Ok sr
          | _ => Subroutine.substituteStatementTemplates sr templateParamValues
          end);
    sub ← Program.add (m_sub_program tr) (Subroutine.m_program sr) true;
    Ok (set_called tr (m_calledSubroutines tr ++ [mkCalledSubroutineDef address sr mangledName]) sub).

Definition begin_DO_subroutine (name : string) (templateParamValues : list string)
    (selector : string) (tr : t) : res t :=
  match StdMap.find (to_upper_copy name) (m_soubroutinemap tr) with
  | None =>
      Throw (RuntimeError (match templateParamValues with
                           | [] => "calling undefined subroutine '"
                           | _ => "calling undefined subroutine template '"
                           end +:+ name +:+ "'"))
  | Some sr =>
      let mangledName := mangledSubroutineName name templateParamValues selector in
      let subroutineIdx := find_called mangledName (m_calledSubroutines tr) in
      tr ← (if (subroutineIdx =? length (m_calledSubroutines tr))%nat
            then add_called name mangledName templateParamValues sr tr
            else Ok tr);
      match m_calledSubroutines tr !! subroutineIdx with
      | None => Throw (OutOfRange "vector::at")
      | Some cs =>
          let main := m_main_program tr in
          let frameIdx := u32 (Z.of_nat (length (Program.signatures main))) in
          let main := Program.set_signatures main
                        (Program.signatures main ++ [Subroutine.m_params (called_subroutine cs)]) in
          tr ← emit [ins Op_SUB_FRAME_OPEN frameIdx] (set_main tr main);
          Ok (push_state OpenSubroutineCall (Z.of_nat subroutineIdx) tr)
      end
  end%string.

Definition end_DO_subroutine (tr : t) : res t :=
  v ← top_value tr OpenSubroutineCall "illegal state: end of DO";
  match m_calledSubroutines tr !! Z.to_nat v, m_stateStack tr with
  | Some cs, st :: _ =>
      if negb (Z.of_nat (length (Subroutine.m_params (called_subroutine cs))) =? st_paramcnt st)
      then Throw (RuntimeError "number of parameters in subroutine call does not match")
      else
        tr ← emit [ins0 Op_SUB_FRAME_CLOSE; ins Op_GOTO (called_address cs)] tr;
        Ok (set_nofCommands (pop_state tr) (u32 (m_nofCommands tr + 1)))
  | _, _ => Throw (OutOfRange "vector::at")
  end.

(** ** Arguments of statements and subroutine calls *)

(** [++m_stateStack.back().paramcnt]. *)
Definition count_param (tr : t) : res t :=
  match m_stateStack tr with
  | [] => Throw (RuntimeError "illegal state: push paramter without context")
  | st :: ss => Ok (set_stateStack tr (mkState (st_id st) (st_value st) (u32 (st_paramcnt st + 1)) :: ss))
  end.

Definition pop_hint (tr : t) : t :=
  match m_stateStack tr with
  | st :: _ => if decide (st_id st = StatementHint) then pop_state tr else tr
  | [] => tr
  end.

(** The operation for an argument: of a subroutine call or of a statement. *)
Definition arg_op (sub_op stm_op : OpCode) (msg : string) (tr : t) : res OpCode :=
  match m_stateStack tr with
  | st :: _ =>
      if decide (st_id st = OpenSubroutineCall) then Ok sub_op
      else if decide (st_id st = OpenStatementCall) then Ok stm_op
      else Throw (RuntimeError msg)
  | [] => Throw (Undefined "back of an empty vector")
  end.

Definition msg_push : string :=
  "illegal state: expected statement or subroutine call context for push paramter".
Definition msg_bind : string :=
  "illegal state: expected statement or subroutine call context for push/bind paramter".

Definition push_ARGUMENT_LOOPCNT (tr : t) : res t :=
  tr ← count_param tr;
  let tr := pop_hint tr in
  op ← arg_op Op_SUB_ARG_LOOPCNT Op_DBSTM_BIND_LOOPCNT msg_push tr;
  emit [ins0 op] tr.

Definition push_ARGUMENT_PATH (selector : string) (tr : t) : res t :=
  tr ← count_param tr;
  let tr := pop_hint tr in
  '(tr, idx) ← add_path selector tr;
  op ← arg_op Op_SUB_ARG_PATH Op_DBSTM_BIND_PATH msg_push tr;
  emit [ins op idx] tr.

Definition add_constant (value : Variant) (tr : t) : t * Z :=
  let main := m_main_program tr in
  (set_main tr (Program.set_constants main (Program.constants main ++ [value])),
   u32 (Z.of_nat (length (Program.constants main)))).

Definition push_ARGUMENT_CONST (value : Variant) (tr : t) : res t :=
  tr ← count_param tr;
  let tr := pop_hint tr in
  let '(tr, idx) := add_constant value tr in
  op ← arg_op Op_SUB_ARG_CONST Op_DBSTM_BIND_CONST msg_bind tr;
  emit [ins op idx] tr.

(** The instruction that selects the set a name refers to.  Without a name it is the last
    result, or the parameters of a subroutine that has not executed a command. *)
Definition select_set (setname : string) (tr : t) : res instr3 :=
  let unnamed := bool_decide (setname = ""%string) in
  let referencing_PARAM := unnamed && (m_isSubroutine tr && (m_nofCommands tr =? 0)) in
  let referencing_RESULT := unnamed && negb (m_isSubroutine tr && (m_nofCommands tr =? 0)) in
  let idx := NameTable.getIndex (Program.resultnametab (m_main_program tr)) setname in
  if negb (idx =? 0) then Ok (ins Op_SELECT_KEPT_RESULT idx)
  else if referencing_RESULT || iequals setname "RESULT" then Ok (ins0 Op_SELECT_LAST_RESULT)
  else if referencing_PARAM || iequals setname "PARAM" then Ok (ins0 Op_SELECT_PARAMETER)
  else Throw (RuntimeError ("selecting unknown name of set '" +:+ setname +:+ "'")).

Definition push_ARGUMENT_TUPLESET_idx (setname : string) (colidx : Z) (tr : t) : res t :=
  tr ← count_param tr;
  let tr := pop_hint tr in
  op ← arg_op Op_SUB_ARG_SEL_IDX Op_DBSTM_BIND_SEL_IDX msg_bind tr;
  sel ← select_set setname tr;
  emit [sel; ins op colidx] tr.

Definition get_column (colname : string) (tr : t) : res (t * Z) :=
  '(tab, idx) ← NameTable.get (Program.colnametab (m_main_program tr)) colname;
  Ok (set_main tr (Program.set_colnametab (m_main_program tr) tab), idx).

Definition push_ARGUMENT_TUPLESET_nam (setname colname : string) (tr : t) : res t :=
  tr ← count_param tr;
  '(tr, colnameidx) ← get_column colname tr;
  op ← arg_op Op_SUB_ARG_SEL_NAM Op_DBSTM_BIND_SEL_NAM msg_bind tr;
  sel ← select_set setname tr;
  emit [sel; ins op colnameidx] tr.

Definition push_ARGUMENT_ITER_idx (colidx : Z) (tr : t) : res t :=
  tr ← count_param tr;
  op ← arg_op Op_SUB_ARG_ITR_IDX Op_DBSTM_BIND_ITR_IDX msg_bind tr;
  emit [ins op colidx] tr.

Definition push_ARGUMENT_ITER_nam (colname : string) (tr : t) : res t :=
  tr ← count_param tr;
  '(tr, colnameidx) ← get_column colname tr;
  op ← arg_op Op_SUB_ARG_ITR_NAM Op_DBSTM_BIND_ITR_NAM msg_bind tr;
  emit [ins op colnameidx] tr.

(** ** Output of values *)

Definition output_ARGUMENT_LOOPCNT : t -> res t := emit [ins0 Op_OUTPUT_LOOPCNT].

Definition output_ARGUMENT_PATH (selector : string) (tr : t) : res t :=
  '(tr, idx) ← add_path selector tr; emit [ins Op_OUTPUT_PATH idx] tr.

Definition output_ARGUMENT_CONST (value : Variant) (tr : t) : res t :=
  let '(tr, idx) := add_constant value tr in emit [ins Op_OUTPUT_CONST idx] tr.

Definition output_ARGUMENT_TUPLESET_idx (setname : string) (colidx : Z) (tr : t) : res t :=
  sel ← select_set setname tr; emit [sel; ins Op_OUTPUT_SEL_IDX colidx] tr.

Definition output_ARGUMENT_TUPLESET_nam (setname colname : string) (tr : t) : res t :=
  '(tr, colnameidx) ← get_column colname tr;
  sel ← select_set setname tr; emit [sel; ins Op_OUTPUT_SEL_NAM colnameidx] tr.

Definition output_ARGUMENT_ITER_idx (colidx : Z) : t -> res t := emit [ins Op_OUTPUT_ITR_IDX colidx].

Definition output_ARGUMENT_ITER_nam (colname : string) (tr : t) : res t :=
  '(tr, colnameidx) ← get_column colname tr; emit [ins Op_OUTPUT_ITR_NAM colnameidx] tr.

Definition setCurrentSourceReference (posinfo : FileLineInfo) (tr : t) : t :=
  set_main tr (Program.setCurrentSourceReference (m_main_program tr) posinfo).

(** ** Audit calls and the complete program *)

Definition add_auditcall (auditcallprg : Program.t) (tr : t) : res t :=
  match m_stateStack tr with
  | _ :: _ => Throw (RuntimeError "illegal state: add audit call in bad context")
  | [] =>
      tr ← emit [ins0 Op_OUTPUT_ADD_SINK; ins0 Op_SCOPE_OPEN] tr;
      main ← Program.add (m_main_program tr) auditcallprg true;
      emit [ins0 Op_SCOPE_CLOSE] (set_main tr main)
  end.

(** The loop that moves the jumps of the main program; a jump behind the instruction
    [Op_SUB_FRAME_CLOSE] is the call of a subroutine. *)
Fixpoint patch_gotos (ip_start_main : Z) (lastOpCode : Z) (c : list Z) : res (list Z) :=
  match c with
  | [] => Ok []
  | instr :: c' =>
      let oc := opCode instr in
      let cc := condCode instr in
      at_ ← argumentType oc;
      let ai := argumentIndex instr in
      instr ← (if bool_decide (at_ = At_Address) && negb (lastOpCode =? OpCode_val Op_SUB_FRAME_CLOSE)
               then instruction_raw cc oc (u32 (ai + ip_start_main)) else Ok instr);
      c' ← patch_gotos ip_start_main oc c';
      Ok (instr :: c')
  end.

Definition createProgram (withReturn : bool) (tr : t) : res Program.t :=
  let sub := m_sub_program tr in
  let ip_start_main := ProgramCode.size (Program.code sub) in
  expected ← instruction Co_ALWAYS Op_GOTO 0;
  first ← (if ip_start_main =? 0 then Ok None
           else i ← ProgramCode.at_ (Program.code sub) 0; Ok (Some i));
  if negb (bool_decide (first = Some expected))
  then Throw (RuntimeError "illegal state: jump to main instruction not found")
  else
    '(rt, ip_start_main) ←
      (if 1 <? ip_start_main then
         i ← instruction Co_ALWAYS Op_GOTO ip_start_main;
         c ← ProgramCode.assign (Program.code sub) 0 i;
         Ok (Program.set_code sub c, ip_start_main)
       else Ok (Program.make, 0));
    rt ← Program.add rt (m_main_program tr) false;
    let start := Z.to_nat ip_start_main in
    main ← patch_gotos ip_start_main (OpCode_val Op_NOP) (drop start (Program.code rt));
    let rt := Program.set_code rt (take start (Program.code rt) ++ main) in
    if withReturn then
      c ← app_code (Program.code rt) [ins0 Op_RETURN]; Ok (Program.set_code rt c)
    else Ok rt.

End Tdl2vm.
