(* ===== verification/TdlCommand.v ===== *)
(** * Commands of the transaction language

    Models the parsed elements of the language (src/modules/cmdbind/tdl/tdl/: elementReference.hpp,
    auditElementReference.hpp, embeddedStatement.hpp, subroutineCallStatement.hpp,
    auditCallStatement.hpp, commandDefinition.hpp) and the functions of
    loadTransactionProgram.cpp that hand them to the translator. *)
From S2P Require Import Prelude InstructionSet Variant ValueTupleSet ProgramImage TdlTables SelectorPath ParseUtils TdlProgram Tdl2vm.

(** ** Elements *)

Module ElementReference.

Inductive Type_ := SelectorPath | LoopCounter | Constant | NamedSetElement | IndexSetElement.

(** A reference without an index or a name has those of the default. *)
Record t := mk {
  type : Type_;
  selector : string;
  name : string;
  index : Z
}.

Definition of_type (ty : Type_) : t := mk ty "" "" 0.
Definition of_selector (ty : Type_) (s : string) : t := mk ty s "" 0.
Definition of_index (ty : Type_) (s : string) (i : Z) : t := mk ty s "" i.
Definition of_name (ty : Type_) (s n : string) : t := mk ty s n 0.

End ElementReference.

(** The member [name] of an audit parameter hides the one of the reference it is derived from. *)
Record AuditElementReference := mkAuditElementReference {
  audit_ref : ElementReference.t;
  audit_name : string
}.

Record EmbeddedStatement := mkEmbeddedStatement {
  stm_stmstring : string;
  stm_params : list ElementReference.t
}.

Record SubroutineCallStatement := mkSubroutineCallStatement {
  call_name : string;
  call_templateparams : list string;
  call_params : list ElementReference.t
}.

Record AuditCallStatement := mkAuditCallStatement {
  auditcall_name : string;
  auditcall_params : list AuditElementReference
}.

Record CommandDefinition := mkCommandDefinition {
  cmd_selector : string;
  cmd_statement : EmbeddedStatement;
  cmd_call : SubroutineCallStatement;
  cmd_resultpath : list string;
  cmd_nonempty : bool;
  cmd_unique : bool;
  cmd_embedded : bool;
  cmd_hints : list ErrorHint
}.

Definition EmbeddedStatement_empty : EmbeddedStatement := mkEmbeddedStatement "" [].
Definition SubroutineCallStatement_empty : SubroutineCallStatement :=
  mkSubroutineCallStatement "" [] [].
Definition CommandDefinition_empty : CommandDefinition :=
  mkCommandDefinition "" EmbeddedStatement_empty SubroutineCallStatement_empty [] false false false [].

(** ** Translation *)

Section Loops.
Context {A : Type}.

Fixpoint each (f : A -> Tdl2vm.t -> res Tdl2vm.t) (l : list A) (prg : Tdl2vm.t) : res Tdl2vm.t :=
  match l with
  | [] => Ok prg
  | x :: l' => prg ← f x prg; each f l' prg
  end.

End Loops.

(** [if (c) op]. *)
Definition when (c : bool) (op : Tdl2vm.t -> res Tdl2vm.t) (prg : Tdl2vm.t) : res Tdl2vm.t :=
  if c then op prg else Ok prg.

(** A constant has the text of the selector as its value. *)
Definition const_value (s : string) : Variant := Str s.

(** Whether a set of that name is the one the command iterates over. *)
Definition is_iterated (cmdselector setname : string) : bool :=
  negb (bool_decide (cmdselector = ""%string)) &&
  (iequals setname cmdselector || bool_decide (setname = ""%string)).

(** The switch over the type of a parameter of a statement or a call; the case of the loop
    counter goes on with the one of a constant. *)
Definition push_param (cmdselector : string) (pi : ElementReference.t) (prg : Tdl2vm.t)
    : res Tdl2vm.t :=
  let sel := ElementReference.selector pi in
  let iter := is_iterated cmdselector sel in
  match ElementReference.type pi with
  | ElementReference.SelectorPath => Tdl2vm.push_ARGUMENT_PATH sel prg
  | ElementReference.LoopCounter =>
      prg ← Tdl2vm.push_ARGUMENT_LOOPCNT prg;
      Tdl2vm.push_ARGUMENT_CONST (const_value sel) prg
  | ElementReference.Constant => Tdl2vm.push_ARGUMENT_CONST (const_value sel) prg
  | ElementReference.NamedSetElement =>
      if iter then Tdl2vm.push_ARGUMENT_ITER_nam (ElementReference.name pi) prg
      else Tdl2vm.push_ARGUMENT_TUPLESET_nam sel (ElementReference.name pi) prg
  | ElementReference.IndexSetElement =>
      if iter then Tdl2vm.push_ARGUMENT_ITER_idx (u32 (ElementReference.index pi)) prg
      else Tdl2vm.push_ARGUMENT_TUPLESET_idx sel (u32 (ElementReference.index pi)) prg
  end.

(** The switch over the type of a value to print, with the name of its column passed. *)
Definition output_elem (elem : ElementReference.t) (colname : string) (prg : Tdl2vm.t)
    : res Tdl2vm.t :=
  let sel := ElementReference.selector elem in
  match ElementReference.type elem with
  | ElementReference.SelectorPath => Tdl2vm.output_ARGUMENT_PATH sel prg
  | ElementReference.LoopCounter =>
      prg ← Tdl2vm.output_ARGUMENT_LOOPCNT prg;
      Tdl2vm.output_ARGUMENT_CONST (const_value sel) prg
  | ElementReference.Constant => Tdl2vm.output_ARGUMENT_CONST (const_value sel) prg
  | ElementReference.NamedSetElement => Tdl2vm.output_ARGUMENT_TUPLESET_nam sel colname prg
  | ElementReference.IndexSetElement =>
      Tdl2vm.output_ARGUMENT_TUPLESET_idx sel (u32 (ElementReference.index elem)) prg
  end.

(** Whether a result path opens a block: neither none nor a dot. *)
Definition hasIntoBlock (path : list string) : bool :=
  match path with
  | [] => false
  | [p] => negb (bool_decide (p = "."%string))
  | _ => true
  end.

(** The part of a command with an embedded statement that prints the result. *)
Definition print_result (cmd : CommandDefinition) (prg : Tdl2vm.t) : res Tdl2vm.t :=
  let path := cmd_resultpath cmd in
  match path with
  | [] => Ok prg
  | _ =>
      if negb (hasIntoBlock path) then
        prg ← Tdl2vm.begin_INTO_block [] prg;
        prg ← Tdl2vm.output_statement_result false prg;
        Tdl2vm.end_INTO_block prg
      else if negb (cmd_unique cmd) || negb (bool_decide (cmd_selector cmd = ""%string)) then
        prg ← Tdl2vm.begin_loop_INTO_block path prg;
        prg ← Tdl2vm.output_statement_result true prg;
        Tdl2vm.end_loop_INTO_block prg
      else
        prg ← Tdl2vm.begin_INTO_block path prg;
        prg ← Tdl2vm.output_statement_result false prg;
        Tdl2vm.end_INTO_block prg
  end.

Definition add_embedded (cmd : CommandDefinition) (prg : Tdl2vm.t) : res Tdl2vm.t :=
  let has_selector := negb (bool_decide (cmd_selector cmd = ""%string)) in
  prg ← when has_selector (Tdl2vm.begin_FOREACH (cmd_selector cmd)) prg;
  prg ← Tdl2vm.begin_DO_statement (stm_stmstring (cmd_statement cmd)) prg;
  prg ← each (fun h => Tdl2vm.statement_HINT (hint_errorclass h) (hint_message h)) (cmd_hints cmd) prg;
  prg ← each (push_param (cmd_selector cmd)) (stm_params (cmd_statement cmd)) prg;
  prg ← Tdl2vm.end_DO_statement prg;
  prg ← when has_selector Tdl2vm.end_FOREACH prg;
  print_result cmd prg.

Definition add_call (cmd : CommandDefinition) (prg : Tdl2vm.t) : res Tdl2vm.t :=
  let has_selector := negb (bool_decide (cmd_selector cmd = ""%string)) in
  let into := hasIntoBlock (cmd_resultpath cmd) in
  let hasIntoLoop := into && has_selector in
  prg ← when into (fun prg =>
          if has_selector then Tdl2vm.begin_loop_INTO_block (cmd_resultpath cmd) prg
          else Tdl2vm.begin_INTO_block (cmd_resultpath cmd) prg) prg;
  prg ← when has_selector (Tdl2vm.begin_FOREACH (cmd_selector cmd)) prg;
  prg ← when hasIntoLoop Tdl2vm.begin_loop_element prg;
  selector ← SelectorPath.normalize (cmd_selector cmd);
  prg ← Tdl2vm.begin_DO_subroutine (call_name (cmd_call cmd)) (call_templateparams (cmd_call cmd))
          selector prg;
  prg ← each (push_param (cmd_selector cmd)) (call_params (cmd_call cmd)) prg;
  prg ← Tdl2vm.end_DO_subroutine prg;
  prg ← when hasIntoLoop Tdl2vm.end_loop_element prg;
  prg ← when has_selector Tdl2vm.end_FOREACH prg;
  when into (fun prg =>
    if has_selector then Tdl2vm.end_loop_INTO_block prg else Tdl2vm.end_INTO_block prg) prg.

Definition programAddCommandDefinition (cmd : CommandDefinition) (prg : Tdl2vm.t) : res Tdl2vm.t :=
  prg ← Tdl2vm.init_resultset prg;
  prg ← when (cmd_nonempty cmd) Tdl2vm.define_resultset_nonempty prg;
  prg ← when (cmd_unique cmd) Tdl2vm.define_resultset_unique prg;
  if cmd_embedded cmd then add_embedded cmd prg else add_call cmd prg.

(** [PRINT] and the parameters of audit functions: a value in a block. *)
Definition print_value (elem : ElementReference.t) (path : list string) (prg : Tdl2vm.t)
    : res Tdl2vm.t :=
  prg ← when (hasIntoBlock path) (Tdl2vm.begin_INTO_block path) prg;
  prg ← output_elem elem (ElementReference.name elem) prg;
  when (hasIntoBlock path) Tdl2vm.end_INTO_block prg.

Definition print_audit_param (pi : AuditElementReference) (prg : Tdl2vm.t) : res Tdl2vm.t :=
  let into := negb (bool_decide (audit_name pi = ""%string) || bool_decide (audit_name pi = "."%string)) in
  prg ← when into (Tdl2vm.begin_INTO_block_name (audit_name pi)) prg;
  prg ← output_elem (audit_ref pi) (audit_name pi) prg;
  when into Tdl2vm.end_INTO_block prg.
