(* ===== verification/TdlStruct.v ===== *)
(** * Structured code

    The vocabulary in which the output of the translator of the transaction language is
    specified: instructions whose argument is what it refers to instead of an index, trees
    of instructions, loops and calls, and the linear code such a tree stands for at an
    address. *)
From S2P Require Import Prelude InstructionSet Variant ValueTupleSet ProgramImage TdlTables SelectorPath TdlProgram.
Import Program.
#[local] Set Warnings "-register-all".

(** ** Symbolic arguments *)

(** An unused argument is one that the operation does not read. *)
Inductive sym :=
| SNum (a : Z)
| SUnused
| SConst (v : Variant)
| SPath (selector : string)
| STag (nam : string)
| SResult (nam : string)
| SColumn (nam : string)
| SStm (stm : string)
| SHint (hints : list ErrorHint)
| SSig (params : list string).

(** The entry of a table of names. *)
Definition name_entry (nt : NameTable.t) (nam : string) (a : Z) : Prop :=
  exists m nam', a = Z.of_nat m + 1 /\ NameTable.m_namear nt !! m = Some nam' /\ iequals nam nam' = true.

(** The path of a selector, as its text tells. *)
Definition path_of (tab : TagTable.t) (selector : string) (q : SelectorPath.t) : Prop :=
  (SelectorPath.skip_blanks (SelectorPath.chars selector) = [] /\ q = []) \/
  exists s, SelectorPath.tostring q tab = Ok s /\
    (iequals s selector || iequals ("./" +:+ s) selector) = true.

(** [a] is the index of the argument in the tables of a program. *)
Definition sym_ok (p : Program.t) (s : sym) (a : Z) : Prop :=
  match s with
  | SNum n => a = n
  | SUnused => True
  | SConst v => constants p !! Z.to_nat a = Some v
  | SPath selector => 1 <= a /\ exists q,
      SelectorPathSet.m_pathar (pathset p) !! Z.to_nat (a - 1) = Some q /\
      SelectorPathFacts.ok_path (SelectorPathSet.m_tagtab (pathset p)) q /\
      path_of (SelectorPathSet.m_tagtab (pathset p)) selector q
  | STag nam => name_entry (tagnametab p) nam a
  | SResult nam => name_entry (resultnametab p) nam a
  | SColumn nam => name_entry (colnametab p) nam a
  | SStm stm => statements p !! Z.to_nat a = Some stm
  | SHint hints => 1 <= a /\ hinttab p !! Z.to_nat (a - 1) = Some hints
  | SSig params => signatures p !! Z.to_nat a = Some params
  end.

(** The operations whose argument is of the kind of the symbolic one. *)
Definition sym_fits (s : sym) (at_ : ArgumentType) : bool :=
  match s, at_ with
  | SNum _, (At_None | At_Address | At_SelectedColumnIdx | At_IteratorColumnIdx) => true
  | SUnused, At_None => true
  | SConst _, At_Constant | SPath _, At_Path | STag _, At_TagName | SResult _, At_ResultName
  | SColumn _, At_ColumnName | SStm _, At_Statement | SHint _, At_Hint
  | SSig _, At_SubroutineSignature => true
  | _, _ => false
  end.

Definition sinstr : Type := CondCode * OpCode * sym.

(** A word of the code is the encoding of a symbolic instruction. *)
Definition senc (p : Program.t) (x : sinstr) (i : Z) : Prop :=
  let '(c, op, s) := x in
  exists a, 0 <= a /\ instruction c op a = Ok i /\ sym_ok p s a /\
    sym_fits s (ProgramFacts.arg_type op) = true.

(** ** Trees *)

Inductive node :=
| Ins (op : OpCode) (s : sym)
| Loop (op : OpCode) (s : sym) (body : list node)
| Call (address : Z).

(** The number of instructions. *)
Fixpoint node_size (n : node) : nat :=
  match n with
  | Ins _ _ => 1
  | Loop _ _ body =>
      4 + (fix sizes (ns : list node) := match ns with [] => 0 | n :: ns' => node_size n + sizes ns' end)
            body
  | Call _ => 2
  end%nat.

Definition sizes (ns : list node) : nat := list_sum (map node_size ns).

Lemma node_size_Loop op s body : node_size (Loop op s body) = (4 + sizes body)%nat.
Proof.
  cbn. unfold sizes. do 4 f_equal.
  induction body as [|n body IH]; [done|]. change (list_sum (map node_size (n :: body))) with
    (node_size n + list_sum (map node_size body))%nat. by rewrite <- IH.
Qed.

(** The code of a tree at address [o]. *)
Fixpoint flatten1 (o : Z) (n : node) : list sinstr :=
  match n with
  | Ins op s => [(Co_ALWAYS, op, s)]
  | Loop op s body =>
      let len := Z.of_nat (node_size n) in
      [(Co_ALWAYS, op, s); (Co_NOT_IF_COND, Op_GOTO, SNum (o + len))]
        ++ (fix flat (o : Z) (ns : list node) :=
              match ns with
              | [] => []
              | n :: ns' => flatten1 o n ++ flat (o + Z.of_nat (node_size n)) ns'
              end) (o + 2) body
        ++ [(Co_ALWAYS, Op_NEXT, SNum 0); (Co_IF_COND, Op_GOTO, SNum (o + 2))]
  | Call address => [(Co_ALWAYS, Op_SUB_FRAME_CLOSE, SNum 0); (Co_ALWAYS, Op_GOTO, SNum address)]
  end.

Fixpoint flatten (o : Z) (ns : list node) : list sinstr :=
  match ns with
  | [] => []
  | n :: ns' => flatten1 o n ++ flatten (o + Z.of_nat (node_size n)) ns'
  end.

Lemma flatten1_Loop o op s body :
  flatten1 o (Loop op s body) =
  [(Co_ALWAYS, op, s); (Co_NOT_IF_COND, Op_GOTO, SNum (o + 4 + Z.of_nat (sizes body)))]
    ++ flatten (o + 2) body
    ++ [(Co_ALWAYS, Op_NEXT, SNum 0); (Co_IF_COND, Op_GOTO, SNum (o + 2))].
Proof.
  change (flatten1 o (Loop op s body)) with
    ([(Co_ALWAYS, op, s); (Co_NOT_IF_COND, Op_GOTO, SNum (o + Z.of_nat (node_size (Loop op s body))))]
       ++ flatten (o + 2) body ++ [(Co_ALWAYS, Op_NEXT, SNum 0); (Co_IF_COND, Op_GOTO, SNum (o + 2))]).
  rewrite node_size_Loop. replace (o + Z.of_nat (4 + sizes body)) with (o + 4 + Z.of_nat (sizes body)) by lia.
  done.
Qed.

(** Induction over trees. *)
Lemma node_ind' (P : node -> Prop) :
  (forall op s, P (Ins op s)) -> (forall op s body, Forall P body -> P (Loop op s body)) ->
  (forall a, P (Call a)) -> forall n, P n.
Proof.
  intros H1 H2 H3. fix IH 1. intros [op s|op s body|a]; [apply H1| |apply H3].
  apply H2. induction body as [|n body IHb]; constructor; [apply IH|apply IHb].
Qed.

Lemma length_flatten_Forall ns :
  Forall (fun n => forall o, length (flatten1 o n) = node_size n) ns ->
  forall o, length (flatten o ns) = sizes ns.
Proof.
  induction 1 as [|n ns Hn Hns IH]; intros o; [done|]. cbn [flatten]. rewrite length_app, Hn, IH. done.
Qed.

Lemma length_flatten1 n : forall o, length (flatten1 o n) = node_size n.
Proof.
  induction n as [op s|op s body IH|a] using node_ind'; intros o; [done| |done].
  rewrite flatten1_Loop, node_size_Loop, !length_app, (length_flatten_Forall _ IH). cbn. lia.
Qed.

Lemma length_flatten ns o : length (flatten o ns) = sizes ns.
Proof. apply length_flatten_Forall, Forall_forall. intros n _. apply length_flatten1. Qed.

Lemma flatten_app o ns ns' :
  flatten o (ns ++ ns') = flatten o ns ++ flatten (o + Z.of_nat (sizes ns)) ns'.
Proof.
  revert o. induction ns as [|n ns IH]; intros o; cbn [flatten app].
  - by rewrite Z.add_0_r.
  - rewrite IH, <- app_assoc. do 3 f_equal. change (sizes (n :: ns)) with (node_size n + sizes ns)%nat. lia.
Qed.

Lemma sizes_app ns ns' : sizes (ns ++ ns') = (sizes ns + sizes ns')%nat.
Proof. unfold sizes. by rewrite map_app, list_sum_app. Qed.

(** ** Growing tables *)

Lemma name_entry_grows nt nt' nam a :
  NameTable.m_namear nt `prefix_of` NameTable.m_namear nt' -> name_entry nt nam a -> name_entry nt' nam a.
Proof.
  intros Hp (m & nam' & -> & Hm & He). exists m, nam'. split_and!; try done.
  by eapply prefix_lookup_Some.
Qed.

Lemma same_path_self tab tab' q :
  TagTable.m_strings tab `prefix_of` TagTable.m_strings tab' -> SelectorPathFacts.ok_path tab q ->
  SelectorPathFacts.same_path tab tab' q q.
Proof.
  intros [more Hm] Hq. induction Hq as [|e q He Hq IH]; constructor; [|done]. split; [done|].
  destruct He as [He|[nam He]]; [by left|]. right. exists nam, nam. split_and!; [done| |].
  - rewrite Hm. by apply TagTableFacts.tag_at_app.
  - by apply iequals_upper.
Qed.

Lemma iequals_trans a b c : iequals a b = true -> iequals b c = true -> iequals a c = true.
Proof. rewrite !iequals_upper. congruence. Qed.

Lemma iequals_sym a b : iequals a b = true -> iequals b a = true.
Proof. by rewrite !iequals_upper. Qed.

Lemma path_of_grows tab tab' selector q :
  TagTable.m_strings tab `prefix_of` TagTable.m_strings tab' -> SelectorPathFacts.ok_path tab q ->
  path_of tab selector q -> path_of tab' selector q.
Proof.
  intros Hp Hok [H|(s & Hs & He)]; [by left|]. right.
  destruct (SelectorPathFacts.same_path_tostring _ _ _ _ _ (same_path_self _ _ _ Hp Hok) Hs) as (s' & Hs' & Hi).
  exists s'. split; [done|]. apply orb_true_iff in He. apply orb_true_iff.
  apply iequals_sym in Hi. destruct He as [He|He]; [left|right]; [by eapply iequals_trans|].
  eapply iequals_trans; [|exact He]. apply iequals_app; [done|done].
Qed.

Lemma sym_ok_extends p p' s a : ProgramFacts.extends p p' -> sym_ok p s a -> sym_ok p' s a.
Proof.
  intros [E1 E2 E3 E4 E5 E6 E7 E8 E9 E10 E11]. destruct s; cbn; try done;
    try (intros H; by eapply prefix_lookup_Some); try by apply name_entry_grows.
  - intros (Ha & q & Hq & Hok & Hp). split; [done|]. exists q. split_and!.
    + by eapply prefix_lookup_Some.
    + by eapply SelectorPathFacts.ok_path_grows.
    + by eapply path_of_grows.
  - intros (Ha & H). split; [done|]. by eapply prefix_lookup_Some.
Qed.

Lemma senc_extends p p' x i : ProgramFacts.extends p p' -> senc p x i -> senc p' x i.
Proof.
  intros He. destruct x as [[c op] s]. intros (a & Ha & Hi & Hs & Hf). exists a. split_and!; try done.
  by eapply sym_ok_extends.
Qed.

(** An encoded instruction has a valid argument. *)
Lemma senc_valid p x i : senc p x i -> ProgramFacts.valid_instr p i.
Proof.
  destruct x as [[c op] s]. intros (a & Ha & Hi & Hs & Hf). exists c, op, a. split_and!; try done.
  destruct s; destruct (ProgramFacts.arg_type op); cbn in *; try done; try by eexists.
  - destruct Hs as (H1 & q & Hq%lookup_lt_Some & _). lia.
  - destruct Hs as (m & nam' & -> & Hm%lookup_lt_Some & _). lia.
  - destruct Hs as (m & nam' & -> & Hm%lookup_lt_Some & _). lia.
  - destruct Hs as (m & nam' & -> & Hm%lookup_lt_Some & _). lia.
  - destruct Hs as (H1 & Hq%lookup_lt_Some). lia.
Qed.

(** ** Growing programs *)

(** The program [p'] is [p] with tables that may have grown and with the code of [l] appended. *)
Record pgrows (p p' : Program.t) (l : list sinstr) : Prop := {
  g_extends : ProgramFacts.extends p p';
  g_ok : ProgramFacts.ok p';
  g_code : exists more, code p' = code p ++ more /\ Forall2 (senc p') l more
}.

Lemma pgrows_trans p1 p2 p3 l1 l2 : pgrows p1 p2 l1 -> pgrows p2 p3 l2 -> pgrows p1 p3 (l1 ++ l2).
Proof.
  intros [E1 O1 (m1 & C1 & F1)] [E2 O2 (m2 & C2 & F2)]. split; [by eapply ProgramFacts.extends_trans|done|].
  exists (m1 ++ m2). split; [by rewrite C2, C1, <- app_assoc|]. apply Forall2_app; [|done].
  eapply Forall2_impl; [exact F1|]. intros x i. by apply senc_extends.
Qed.

Lemma pgrows_refl p : ProgramFacts.ok p -> pgrows p p [].
Proof. intros H. split; [apply ProgramFacts.extends_refl|done|]. exists []. by rewrite app_nil_r. Qed.

Lemma pgrows_length p p' l : pgrows p p' l -> length (code p') = (length (code p) + length l)%nat.
Proof. intros [_ _ (m & -> & F)]. rewrite length_app. by rewrite (Forall2_length _ _ _ F). Qed.

(** Tables that grow leave the code valid. *)
Lemma ok_grown p p' :
  ProgramFacts.ok p -> ProgramFacts.extends p p' -> code p' = code p ->
  NameTableFacts.ok (tagnametab p') -> NameTableFacts.ok (resultnametab p') ->
  NameTableFacts.ok (colnametab p') -> SelectorPathFacts.ok_set (pathset p') -> pgrows p p' [].
Proof.
  intros Hok He Hc H1 H2 H3 H4. split; [done| |exists []; by rewrite app_nil_r].
  split; try done. rewrite Hc. eapply Forall_impl; [apply (ProgramFacts.ok_code _ Hok)|].
  intros i. by apply ProgramFacts.valid_instr_extends.
Qed.

(** Appending code. *)
Lemma pgrows_code p more l :
  ProgramFacts.ok p -> Forall2 (senc p) l more -> pgrows p (set_code p (code p ++ more)) l.
Proof.
  intros Hok Hl. assert (ProgramFacts.extends p (set_code p (code p ++ more))) as He.
  { split; cbn; try done. by eexists. }
  assert (Forall2 (senc (set_code p (code p ++ more))) l more) as Hl'.
  { eapply Forall2_impl; [exact Hl|]. intros x i. by apply senc_extends. }
  split; [done| |by exists more]. split; try apply Hok. cbn. apply Forall_app. split.
  - eapply Forall_impl; [apply (ProgramFacts.ok_code _ Hok)|]. intros i.
    by apply ProgramFacts.valid_instr_extends.
  - eapply Forall2_Forall_r; [exact Hl'|]. apply Forall_forall. intros i _ x. apply senc_valid.
Qed.

(** A loop is patched behind its end: the tree of the loop is encoded. *)
Lemma Forall2_insert_middle {A B} (P : A -> B -> Prop) l1 x l2 k1 y y' k2 :
  Forall2 P l1 k1 -> P x y' -> Forall2 P l2 k2 ->
  Forall2 P (l1 ++ x :: l2) (<[length k1 := y']> (k1 ++ y :: k2)).
Proof.
  intros H1 Hx H2. replace (length k1) with (length k1 + 0)%nat by lia.
  rewrite insert_app_r. apply Forall2_app; [done|]. cbn. by constructor.
Qed.
