(* ===== verification/TdlCorrect.v ===== *)
(** * What the translator generates

    The operations of the translator (Tdl2vm) generate structured code, with arguments that
    refer to what the source names, and keep the program under construction valid. *)
From S2P Require Import Prelude InstructionSet Variant ValueTupleSet ProgramImage TdlTables SelectorPath ParseUtils TdlProgram Tdl2vm TdlStruct.
Import Tdl2vm.

(** ** Emitting instructions *)

Definition enc3 (x : instr3) (i : Z) : Prop := instruction x.1.1 x.1.2 x.2 = Ok i.

Lemma app_code_spec c l c' :
  app_code c l = Ok c' -> exists more, c' = c ++ more /\ Forall2 enc3 l more.
Proof.
  revert c. induction l as [|[[cc op] a] l IH]; intros c; cbn; [intros [= <-]; exists []; by rewrite app_nil_r|].
  unfold ProgramCode.app_cond. destruct (instruction cc op a) as [i| |] eqn:E; cbn; try done.
  unfold ProgramCode.add. destruct (_ <=? _); cbn; try done. intros (more & -> & Hm)%IH.
  exists (i :: more). rewrite <- app_assoc. split; [done|]. by constructor.
Qed.

Lemma app_code_size c l c' :
  app_code c l = Ok c' -> l <> [] -> Z.of_nat (length c') < Max_ArgumentIndex.
Proof.
  revert c. induction l as [|[[cc op] a] l IH]; intros c; cbn; [done|].
  unfold ProgramCode.app_cond. destruct (instruction cc op a) as [i| |]; cbn; try done.
  unfold ProgramCode.add. destruct (Z.leb_spec Max_ArgumentIndex (Z.of_nat (length (c ++ [i])))); cbn; try done.
  intros Hl _. destruct l; [|by eapply IH]. cbn in Hl. by injection Hl as <-.
Qed.

(** The symbolic form of an instruction. *)
Definition symbolic (p : Program.t) (x : instr3) (y : sinstr) : Prop :=
  x.1 = y.1 /\ 0 <= x.2 /\ sym_ok p y.2 x.2 /\ sym_fits y.2 (ProgramFacts.arg_type y.1.2) = true.

Lemma symbolic_num p cc op a :
  0 <= a -> sym_fits (SNum a) (ProgramFacts.arg_type op) = true -> symbolic p (cc, op, a) (cc, op, SNum a).
Proof. done. Qed.

(** The parts of the translator apart from the stack and the main program.  Commands count
    and may add to the called subroutines; a [strict] operation does neither. *)
Record same_rest (strict : bool) (tr tr' : t) : Prop := {
  rest_map : m_soubroutinemap tr' = m_soubroutinemap tr;
  rest_isSubroutine : m_isSubroutine tr' = m_isSubroutine tr;
  rest_called : m_calledSubroutines tr `prefix_of` m_calledSubroutines tr';
  rest_strict : strict = true -> m_calledSubroutines tr' = m_calledSubroutines tr /\
    m_sub_program tr' = m_sub_program tr /\ m_nofCommands tr' = m_nofCommands tr
}.

Lemma same_rest_trans strict tr1 tr2 tr3 :
  same_rest strict tr1 tr2 -> same_rest strict tr2 tr3 -> same_rest strict tr1 tr3.
Proof.
  intros [A1 A2 A3 A4] [B1 B2 B3 B4]. split; [congruence|congruence|by etrans|].
  intros Hs. destruct (A4 Hs) as (? & ? & ?), (B4 Hs) as (? & ? & ?). split_and!; congruence.
Qed.

Abbreviation small tr := (ProgramFacts.small (m_main_program tr)).
Abbreviation ok tr := (ProgramFacts.ok (m_main_program tr)).
Abbreviation code_len tr := (length (Program.code (m_main_program tr))).

Abbreviation kepttab tr := (Program.resultnametab (m_main_program tr)).

Section Specifications.
Context {strict : bool}.

(** What an operation does in any case: it appends [n] instructions, leaves the stack [ss]
    and does not make tables smaller. *)
Record step (tr tr' : t) (ss : list State) (n : nat) : Prop := {
  step_len : code_len tr' = (code_len tr + n)%nat;
  step_stack : m_stateStack tr' = ss;
  step_rest : same_rest strict tr tr';
  step_kept : Program.resultnametab (m_main_program tr') = Program.resultnametab (m_main_program tr);
  step_ext : ProgramFacts.extends (m_main_program tr) (m_main_program tr')
}.

(** The specification of an operation: it appends the instructions [l]. *)
Definition spec (op : t -> res t) (tr : t) (ss : list State) (l : list sinstr) : Prop :=
  forall tr', op tr = Ok tr' -> step tr tr' ss (length l) /\
    (ok tr -> small tr' -> pgrows (m_main_program tr) (m_main_program tr') l).

Lemma step_refl tr : step tr tr (m_stateStack tr) 0.
Proof. split; [lia|done|done|done|apply ProgramFacts.extends_refl]. Qed.

Lemma step_trans tr1 tr2 tr3 ss2 ss3 n1 n2 :
  step tr1 tr2 ss2 n1 -> step tr2 tr3 ss3 n2 -> step tr1 tr3 ss3 (n1 + n2).
Proof.
  intros [L1 S1 R1 K1 M1] [L2 S2 R2 K2 M2]. split; [lia|done|by eapply same_rest_trans|congruence|].
  by eapply ProgramFacts.extends_trans.
Qed.

Lemma step_small tr tr' ss n : step tr tr' ss n -> small tr' -> small tr.
Proof. intros S. apply ProgramFacts.small_extends, S. Qed.

Lemma spec_ret tr : spec Ok tr (m_stateStack tr) [].
Proof. intros tr' [= <-]. split; [apply step_refl|]. intros Hok _. by apply pgrows_refl. Qed.

Lemma spec_seq op1 op2 tr ss1 ss2 l1 l2 :
  spec op1 tr ss1 l1 -> (forall tr1, step tr tr1 ss1 (length l1) -> spec op2 tr1 ss2 l2) ->
  spec (fun tr => op1 tr ≫= op2) tr ss2 (l1 ++ l2).
Proof.
  intros H1 H2 tr' H. destruct (op1 tr) as [tr1| |] eqn:E; cbn in H; try done.
  destruct (H1 _ E) as [S1 G1]. destruct (H2 _ S1 _ H) as [S2 G2]. split.
  - rewrite length_app. by eapply step_trans.
  - intros Hok Hs. pose proof (step_small _ _ _ _ S2 Hs) as Hs1. specialize (G1 Hok Hs1).
    eapply pgrows_trans; [exact G1|]. apply G2; [apply (g_ok _ _ _ G1)|done].
Qed.

Lemma spec_ext op op' tr ss l : (forall tr, op tr = op' tr) -> spec op tr ss l -> spec op' tr ss l.
Proof. intros He H tr' Ht. apply H. by rewrite He. Qed.

Lemma emit_step l tr tr' :
  emit l tr = Ok tr' -> step tr tr' (m_stateStack tr) (length l).
Proof.
  unfold emit. destruct (app_code _ l) as [c| |] eqn:E; cbn; try done.
  intros [= <-]. apply app_code_spec in E as (more & -> & Hm). split; try done.
  - cbn. rewrite length_app, <- (Forall2_length _ _ _ Hm). lia.
  - split; cbn; try done. by eexists.
Qed.

Lemma emit_grows l sl tr tr' :
  emit l tr = Ok tr' -> ok tr -> Forall2 (symbolic (m_main_program tr)) l sl ->
  pgrows (m_main_program tr) (m_main_program tr') sl.
Proof.
  unfold emit. destruct (app_code _ l) as [c| |] eqn:E; cbn; try done.
  intros [= <-] Hok Hsym. apply app_code_spec in E as (more & -> & Hm). apply pgrows_code; [done|].
  clear -Hsym Hm. revert more Hm.
  induction Hsym as [|x y l sl (H1 & H2 & H3 & H4) Hl IH]; intros more Hm; inversion Hm; subst; constructor; [|auto].
  destruct y as [[cc op] s], x as [[cc' op'] a]. cbn in *. injection H1 as -> ->. by exists a.
Qed.

(** Instructions without an argument in a table. *)
Definition plain (l : list instr3) : list sinstr := map (fun '(cc, op, a) => (cc, op, SNum a)) l.

Definition plain_ok (x : instr3) : bool :=
  (0 <=? x.2) && sym_fits (SNum x.2) (ProgramFacts.arg_type x.1.2).

Lemma plain_symbolic p l : forallb plain_ok l = true -> Forall2 (symbolic p) l (plain l).
Proof.
  induction l as [|[[cc op] a] l IH]; cbn; [constructor|]. intros [H1 H2]%andb_true_iff.
  apply andb_true_iff in H1 as [H0 H1]. constructor; [|auto]. split_and!; try done. by apply Z.leb_le.
Qed.

Lemma length_plain l : length (plain l) = length l.
Proof. apply length_map. Qed.

Lemma spec_emit_plain l tr :
  forallb plain_ok l = true -> spec (emit l) tr (m_stateStack tr) (plain l).
Proof.
  intros Hl tr' H. split; [rewrite length_plain; by apply emit_step|].
  intros Hok _. eapply emit_grows; [done|done|]. by apply plain_symbolic.
Qed.

Lemma main_size_small tr : small tr -> main_size tr = Z.of_nat (code_len tr).
Proof. intros [Hc _ _ _ _ _ _ _ _ _ _]. unfold main_size, ProgramCode.size. rewrite wrap_small; [done|lia]. Qed.

(** ** Tables *)

(** The specification of an operation that enters something into a table. *)
Definition enters (op : t -> res (t * Z)) (tr : t) (s : sym) : Prop :=
  forall tr' idx, op tr = Ok (tr', idx) -> step tr tr' (m_stateStack tr) 0 /\
    (ok tr -> small tr' -> pgrows (m_main_program tr) (m_main_program tr') [] /\
       sym_ok (m_main_program tr') s idx /\ 0 <= idx).

(** The index is the argument of an instruction behind others. *)
Lemma spec_enter_emit op tr s pre cc o :
  enters op tr s -> forallb plain_ok pre = true -> sym_fits s (ProgramFacts.arg_type o) = true ->
  spec (fun tr => '(tr, idx) ← op tr; emit (pre ++ [(cc, o, idx)]) tr) tr (m_stateStack tr)
    (plain pre ++ [(cc, o, s)]).
Proof.
  intros He Hpre Hfit tr' H. destruct (op tr) as [[tr1 idx]| |] eqn:E; cbn in H; try done.
  destruct (He _ _ E) as [S1 G1].
  pose proof (emit_step _ _ _ H) as S2. rewrite (step_stack _ _ _ _ S1) in S2. split.
  - replace (length _) with (0 + length (pre ++ [(cc, o, idx)]))%nat; [by eapply step_trans|].
    rewrite !length_app, length_plain. done.
  - intros Hok Hs. pose proof (step_small _ _ _ _ S2 Hs) as Hs1. destruct (G1 Hok Hs1) as (G & Hsym & H0).
    apply (pgrows_trans _ _ _ [] _ G). eapply emit_grows; [done|apply (g_ok _ _ _ G)|].
    apply Forall2_app; [by apply plain_symbolic|]. by repeat constructor.
Qed.

(** ** The operations that enter something into a table *)

Lemma name_enters nt nam nt' idx :
  NameTable.get nt nam = Ok (nt', idx) ->
  NameTable.m_namear nt `prefix_of` NameTable.m_namear nt' /\
  (NameTableFacts.ok nt -> Z.of_nat (length (NameTable.m_namear nt')) < 2 ^ 31 ->
     NameTableFacts.ok nt' /\ name_entry nt' nam idx).
Proof.
  intros Hg. assert (NameTable.m_namear nt `prefix_of` NameTable.m_namear nt') as Hp.
  { revert Hg. unfold NameTable.get, NameTable.define, NameTable.keymap_insert.
    destruct (StdMap.find _ _); [by intros [= <- _]|]. cbn. intros [= <- _]. cbn. by eexists. }
  split; [done|]. intros Hok Hs. pose proof (prefix_length _ _ Hp).
  destruct (NameTableFacts.get_spec nt nam Hok) as (nt1 & i & nam' & Hg' & Hok' & Hi & He & Hc); [lia|].
  rewrite Hg in Hg'. injection Hg' as <- ->. split; [done|]. by exists i, nam'.
Qed.

Lemma name_entry_pos nt nam a : name_entry nt nam a -> 0 <= a.
Proof. intros (m & _ & -> & _). lia. Qed.

(** A change of the tables of the main program alone. *)
Lemma set_main_step tr p :
  ProgramFacts.extends (m_main_program tr) p -> Program.code p = Program.code (m_main_program tr) ->
  Program.resultnametab p = Program.resultnametab (m_main_program tr) ->
  step tr (set_main tr p) (m_stateStack tr) 0.
Proof.
  intros He Hc Hk. split; [cbn; rewrite Hc; lia|done|done|done|done].
Qed.

Definition enter_tag (nam : string) (tr : t) : res (t * Z) :=
  '(tab, idx) ← NameTable.get (Program.tagnametab (m_main_program tr)) nam;
  Ok (set_main tr (Program.set_tagnametab (m_main_program tr) tab), idx).

Ltac enter_name H :=
  destruct (NameTable.get _ _) as [[? ?]| |] eqn:H; cbn; try done; intros [= <- <-];
  apply name_enters in H as [? H]; (split; [apply set_main_step; [by split|done|done]|]);
  intros Hok Hs; destruct H as [? Hn]; [apply Hok|apply Hs|];
  (split; [apply ok_grown; try apply Hok; try done; by split|]);
  (split; [exact Hn|by eapply name_entry_pos]).

Lemma enter_tag_spec nam tr : enters (enter_tag nam) tr (STag nam).
Proof. intros tr' idx. unfold enter_tag. enter_name H. Qed.

Lemma get_column_spec nam tr : enters (get_column nam) tr (SColumn nam).
Proof. intros tr' idx. unfold get_column. enter_name H. Qed.

Lemma add_constant_spec v tr : enters (fun tr => Ok (add_constant v tr)) tr (SConst v).
Proof.
  intros tr' idx [= <- <-]. split; [apply set_main_step; [split; cbn; try done; by eexists|done|done]|].
  intros Hok [_ _ _ _ Hs _ _ _ _ _ _]. cbn in *. rewrite length_app in Hs. cbn in Hs. split.
  - apply ok_grown; try apply Hok; try done. split; cbn; try done. by eexists.
  - rewrite wrap_small by lia. split; [|lia]. rewrite Nat2Z.id. apply lookup_snoc_cases. by right.
Qed.

Lemma make_path_of selector tm p tm' :
  SelectorPath.make selector tm = Ok (p, tm') -> path_of tm' selector p.
Proof.
  unfold SelectorPath.make, path_of. destruct (SelectorPath.skip_blanks _) as [|c ii] eqn:E.
  { intros [= <- <-]. by left. }
  destruct (SelectorPath.parse_loop _ _ _ _ _) as [[q t1]| |]; cbn; try done.
  destruct (SelectorPath.tostring q t1) as [s| |] eqn:Es; cbn; try done.
  destruct (_ || _) eqn:Eo; [|done]. intros [= <- <-]. right. by exists s.
Qed.

Lemma add_path_spec sel tr : nul ∉ chars sel -> enters (add_path sel) tr (SPath sel).
Proof.
  intros Hnul tr' idx. unfold add_path.
  destruct (SelectorPathSet.add _ sel) as [[ps i]| |] eqn:Ha; cbn; try done. intros [= <- <-].
  pose proof Ha as Ha'. revert Ha'. unfold SelectorPathSet.add.
  destruct (SelectorPath.make sel _) as [[q t1]| |] eqn:E; cbn; try done. intros [= <- <-].
  pose proof (SelectorPathFacts.make_grows _ _ _ _ E) as Hgr.
  split; [apply set_main_step; [split; cbn; try done; by eexists|done|done]|].
  intros Hok [_ _ _ _ _ _ _ _ _ Hs Hf]. cbn in Hs, Hf.
  pose proof (ProgramFacts.ok_pathset _ Hok) as Hps.
  destruct (SelectorPathFacts.add_selector_spec _ _ _ _ Hps Hnul Ha Hf) as (Hok' & _).
  rewrite length_app in *. cbn [length] in *. split.
  - apply ok_grown; try apply Hok; try done. split; cbn; try done. by eexists.
  - rewrite wrap_small by lia. split; [|lia]. cbn. split; [lia|]. exists q. split_and!.
    + apply lookup_snoc_cases. right. split; [lia|done].
    + pose proof (SelectorPathFacts.ok_paths _ Hok') as Hfa. cbn in Hfa. apply Forall_app in Hfa as [_ Hfa].
      by inversion Hfa.
    + by eapply make_path_of.
Qed.

(** ** The stack *)

Lemma step_set_stack tr tr' ss n ss' : step tr tr' ss n -> step tr (set_stateStack tr' ss') ss' n.
Proof. intros [L S [] K M]. by split. Qed.

Lemma spec_push op tr ss l id (v : t -> Z) w :
  spec op tr ss l -> (forall tr1, op tr = Ok tr1 -> u32 (v tr1) = w) ->
  spec (fun tr => tr ← op tr; Ok (push_state id (v tr) tr)) tr (mkState id w 0 :: ss) l.
Proof.
  intros Hop Hv tr' H. destruct (op tr) as [tr1| |] eqn:E; cbn in H; try done. injection H as <-.
  destruct (Hop _ E) as [S G]. split; [|exact G].
  unfold push_state. rewrite (Hv _ eq_refl), (step_stack _ _ _ _ S). by eapply step_set_stack.
Qed.

Lemma spec_pop op tr st ss l :
  spec op tr (st :: ss) l -> spec (fun tr => tr ← op tr; Ok (pop_state tr)) tr ss l.
Proof.
  intros Hop tr' H. destruct (op tr) as [tr1| |] eqn:E; cbn in H; try done. injection H as <-.
  destruct (Hop _ E) as [S G]. split; [|exact G].
  unfold pop_state. rewrite (step_stack _ _ _ _ S). by eapply step_set_stack.
Qed.

(** The state on top is the one that is expected, if it has its kind. *)
Lemma spec_top id msg (k : Z -> t -> res t) tr st ss ss' l :
  m_stateStack tr = st :: ss -> (st_id st = id -> spec (k (st_value st)) tr ss' l) ->
  spec (fun tr => v ← top_value tr id msg; k v tr) tr ss' l.
Proof.
  intros Hss Hk tr' H. unfold top_value in H. rewrite Hss in H. destruct (decide _) as [Hid|]; [|done].
  by apply Hk.
Qed.

Lemma top_value_Ok tr id msg v :
  top_value tr id msg = Ok v -> exists st ss, m_stateStack tr = st :: ss /\ st_id st = id /\ st_value st = v.
Proof.
  unfold top_value. destruct (m_stateStack tr) as [|st ss]; [done|]. destruct (decide _); [|done].
  intros [= <-]. by exists st, ss.
Qed.

Lemma emit_size l tr tr' :
  emit l tr = Ok tr' -> l <> [] -> Z.of_nat (code_len tr') < Max_ArgumentIndex.
Proof.
  unfold emit. destruct (app_code _ l) as [c| |] eqn:E; cbn; try done. intros [= <-]. cbn.
  by eapply app_code_size.
Qed.

(** ** Output blocks *)

Definition tags (op : OpCode) (path : list string) : list sinstr :=
  map (fun p => (Co_ALWAYS, op, STag p)) path.

Lemma open_tag_spec op name tr :
  ProgramFacts.arg_type op = At_TagName ->
  spec (open_tag op name) tr (m_stateStack tr) [(Co_ALWAYS, op, STag name)].
Proof.
  intros Hop. eapply (spec_ext (fun tr => '(tr, idx) ← enter_tag name tr; emit ([] ++ [(Co_ALWAYS, op, idx)]) tr)).
  - intros tr0. unfold open_tag, enter_tag. by destruct (NameTable.get _ _) as [[? ?]| |].
  - apply (spec_enter_emit _ _ (STag name) []); [apply enter_tag_spec|done|]. cbn. by rewrite Hop.
Qed.

Lemma open_tags_spec path tr :
  spec (open_tags path) tr (m_stateStack tr) (tags Op_OUTPUT_OPEN path).
Proof.
  revert tr. induction path as [|p path IH]; intros tr; [apply spec_ret|].
  apply (spec_seq _ _ _ (m_stateStack tr) _ [_]); [by apply open_tag_spec|].
  intros tr1 S1. rewrite <- (step_stack _ _ _ _ S1). apply IH.
Qed.

Lemma close_tags_spec n tr :
  spec (close_tags n) tr (m_stateStack tr) (plain (replicate n (Co_ALWAYS, Op_OUTPUT_CLOSE, 0))).
Proof.
  revert tr. induction n as [|n IH]; intros tr; [apply spec_ret|].
  apply (spec_seq _ _ _ (m_stateStack tr) _ [(Co_ALWAYS, Op_OUTPUT_CLOSE, SNum 0)]).
  - by apply (spec_emit_plain [(Co_ALWAYS, Op_OUTPUT_CLOSE, 0)]).
  - intros tr1 S1. rewrite <- (step_stack _ _ _ _ S1). apply IH.
Qed.

Lemma open_tag_size op name tr tr' :
  open_tag op name tr = Ok tr' -> Z.of_nat (code_len tr') < Max_ArgumentIndex.
Proof.
  unfold open_tag. destruct (NameTable.get _ _) as [[? ?]| |]; cbn [mbind res_bind]; try done.
  intros H. by eapply emit_size.
Qed.

Lemma open_tags_size path tr tr' :
  open_tags path tr = Ok tr' -> path <> [] -> Z.of_nat (code_len tr') < Max_ArgumentIndex.
Proof.
  revert tr. induction path as [|p path IH]; intros tr H Hne; [done|]. cbn in H.
  destruct (open_tag _ _ _) as [tr1| |] eqn:E; cbn in H; try done.
  destruct path; [injection H as <-; by eapply open_tag_size|by eapply IH].
Qed.

Lemma path_u32 (path : list string) n :
  (path <> [] -> Z.of_nat n < Max_ArgumentIndex /\ (length path <= n)%nat) ->
  u32 (Z.of_nat (length path)) = Z.of_nat (length path).
Proof.
  intros H. apply wrap_small. destruct path as [|p path]; [done|].
  destruct H as [H1 H2]; [done|]. change Max_ArgumentIndex with 1048575 in H1. lia.
Qed.

Lemma begin_INTO_block_spec path tr :
  spec (begin_INTO_block path) tr (mkState OpenIntoBlock (Z.of_nat (length path)) 0 :: m_stateStack tr)
    (tags Op_OUTPUT_OPEN path).
Proof.
  apply (spec_push (open_tags path) tr _ _ OpenIntoBlock (fun _ => Z.of_nat (length path))).
  - apply open_tags_spec.
  - intros tr1 E. apply (path_u32 path (code_len tr1)). intros Hne. split; [by eapply open_tags_size|].
    destruct (open_tags_spec _ _ _ E) as [S _]. rewrite (step_len _ _ _ _ S). unfold tags. rewrite length_map. lia.
Qed.

Lemma begin_INTO_block_name_spec name tr :
  spec (begin_INTO_block_name name) tr (mkState OpenIntoBlock 1 0 :: m_stateStack tr)
    (tags Op_OUTPUT_OPEN [name]).
Proof.
  apply (spec_push (open_tag Op_OUTPUT_OPEN name) tr _ _ OpenIntoBlock (fun _ => 1)); [|done].
  by apply open_tag_spec.
Qed.

(** The end of a block closes the tags. *)
Definition closes (n : nat) : list sinstr := plain (replicate n (Co_ALWAYS, Op_OUTPUT_CLOSE, 0)).

Lemma end_INTO_block_spec n ss tr :
  m_stateStack tr = mkState OpenIntoBlock (Z.of_nat n) 0 :: ss -> spec end_INTO_block tr ss (closes n).
Proof.
  intros Hss. eapply spec_top; [exact Hss|]. intros _. cbn [st_value]. rewrite Nat2Z.id.
  eapply spec_pop. rewrite <- Hss. apply close_tags_spec.
Qed.

Lemma open_array_spec path tr :
  path <> [] ->
  spec (open_array path) tr (m_stateStack tr)
    (tags Op_OUTPUT_OPEN (removelast path) ++ tags Op_OUTPUT_OPEN_ARRAY (drop (length path - 1) path)).
Proof.
  revert tr. induction path as [|p [|p2 path] IH]; intros tr Hne; [done|by apply open_tag_spec|].
  apply (spec_seq (open_tag Op_OUTPUT_OPEN p) (open_array (p2 :: path)) _ (m_stateStack tr) _
           [(Co_ALWAYS, Op_OUTPUT_OPEN, STag p)]); [by apply open_tag_spec|].
  intros tr1 S1. rewrite <- (step_stack _ _ _ _ S1).
  replace (length (p :: p2 :: path) - 1)%nat with (S (length (p2 :: path) - 1)) by (cbn; lia).
  by apply IH.
Qed.

Lemma open_array_size path tr tr' :
  open_array path tr = Ok tr' -> Z.of_nat (code_len tr') < Max_ArgumentIndex.
Proof.
  revert tr. induction path as [|p [|p2 path] IH]; intros tr; [done|apply open_tag_size|].
  change (open_array (p :: p2 :: path) tr) with (tr ← open_tag Op_OUTPUT_OPEN p tr; open_array (p2 :: path) tr).
  destruct (open_tag _ _ _); cbn [mbind res_bind]; try done. apply IH.
Qed.

(** The tags of a path whose last element is an array. *)
Definition array_tags (path : list string) : list sinstr :=
  tags Op_OUTPUT_OPEN (removelast path) ++ tags Op_OUTPUT_OPEN_ARRAY (drop (length path - 1) path).

Lemma length_array_tags path : length (array_tags path) = length path.
Proof.
  unfold array_tags, tags. rewrite length_app, !length_map, length_drop, removelast_firstn_len, length_firstn.
  destruct path; cbn; lia.
Qed.

Lemma begin_loop_INTO_block_spec path tr :
  spec (begin_loop_INTO_block path) tr
    (mkState OpenIntoBlockArray (Z.of_nat (length path)) 0 :: m_stateStack tr) (array_tags path).
Proof.
  destruct (decide (path = [])) as [->|Hne]; [by intros tr'|].
  apply (spec_push (open_array path) tr _ _ OpenIntoBlockArray (fun _ => Z.of_nat (length path))).
  - by apply open_array_spec.
  - intros tr1 E. apply (path_u32 path (code_len tr1)). intros _. split; [by eapply open_array_size|].
    destruct (open_array_spec _ _ Hne _ E) as [S _]. rewrite (step_len _ _ _ _ S).
    change (_ ++ _) with (array_tags path). rewrite length_array_tags. lia.
Qed.

(** The end of an array closes the array and the tags around it. *)
Definition array_closes (n : nat) : list sinstr :=
  match n with
  | O => []
  | S n' => (Co_ALWAYS, Op_OUTPUT_CLOSE_ARRAY, SNum 0) :: closes n'
  end.

Lemma end_loop_INTO_block_spec n ss tr :
  m_stateStack tr = mkState OpenIntoBlockArray (Z.of_nat n) 0 :: ss ->
  spec end_loop_INTO_block tr ss (array_closes n).
Proof.
  intros Hss. eapply (spec_top OpenIntoBlockArray _ (fun v tr =>
    match Z.to_nat v with
    | O => Ok (pop_state tr)
    | S cnt => tr ← emit [ins0 Op_OUTPUT_CLOSE_ARRAY] tr; tr ← close_tags cnt tr; Ok (pop_state tr)
    end)); [exact Hss|]. intros _. cbn [st_value]. rewrite Nat2Z.id. destruct n as [|n].
  - eapply (spec_pop Ok). rewrite <- Hss. apply spec_ret.
  - apply (spec_seq (emit [ins0 Op_OUTPUT_CLOSE_ARRAY]) (fun tr => tr ← close_tags n tr; Ok (pop_state tr))
             _ (m_stateStack tr) _ [(Co_ALWAYS, Op_OUTPUT_CLOSE_ARRAY, SNum 0)]).
    + by apply (spec_emit_plain [(Co_ALWAYS, Op_OUTPUT_CLOSE_ARRAY, 0)]).
    + intros tr1 S1. eapply spec_pop. rewrite <- Hss, <- (step_stack _ _ _ _ S1). apply close_tags_spec.
Qed.

Lemma begin_loop_element_spec tr :
  spec begin_loop_element tr (mkState OpenLoopElement 0 0 :: m_stateStack tr)
    [(Co_ALWAYS, Op_OUTPUT_OPEN_ELEM, SNum 0)].
Proof.
  apply (spec_push (emit [ins0 Op_OUTPUT_OPEN_ELEM]) tr _ _ OpenLoopElement (fun _ => 0)); [|done].
  by apply (spec_emit_plain [(Co_ALWAYS, Op_OUTPUT_OPEN_ELEM, 0)]).
Qed.

Lemma end_loop_element_spec ss tr :
  m_stateStack tr = mkState OpenLoopElement 0 0 :: ss ->
  spec end_loop_element tr ss [(Co_ALWAYS, Op_OUTPUT_CLOSE_ELEM, SNum 0)].
Proof.
  intros Hss. eapply (spec_top OpenLoopElement _ (fun _ tr => tr ← emit [ins0 Op_OUTPUT_CLOSE_ELEM] tr; Ok (pop_state tr)));
    [exact Hss|]. intros _.
  eapply spec_pop. rewrite <- Hss. by apply (spec_emit_plain [(Co_ALWAYS, Op_OUTPUT_CLOSE_ELEM, 0)]).
Qed.

(** ** Loops *)

(** Whether a name is that of a kept result. *)
Definition kept (nt : NameTable.t) (nam : string) : bool := negb (NameTable.getIndex nt nam =? 0).

(** The instruction that opens the iterator of a FOREACH. *)
Definition foreach_open (nt : NameTable.t) (selector : string) : option (OpCode * sym) :=
  if kept nt selector then Some (Op_OPEN_ITER_KEPT_RESULT, SResult selector)
  else if iequals selector "RESULT" then Some (Op_OPEN_ITER_LAST_RESULT, SNum 0)
  else if iequals selector "PARAM" then None
  else Some (Op_OPEN_ITER_PATH, SPath selector).

Lemma getIndex_entry nt nam :
  NameTableFacts.ok nt -> NameTable.getIndex nt nam <> 0 -> name_entry nt nam (NameTable.getIndex nt nam).
Proof.
  intros Hok Hne. destruct (NameTableFacts.getIndex_pos _ _ Hok Hne) as (i & nam' & -> & Hi & He).
  by exists i, nam'.
Qed.

(** The two instructions at the begin of a FOREACH. *)
Lemma open_iterator_spec selector tr tr1 tr' x :
  nul ∉ chars selector -> open_iterator selector tr = Ok (tr1, x) ->
  emit [x; (Co_NOT_IF_COND, Op_GOTO, 0)] tr1 = Ok tr' ->
  exists op s, foreach_open (kepttab tr) selector = Some (op, s) /\
    step tr tr' (m_stateStack tr) 2 /\
    (ok tr -> small tr' -> pgrows (m_main_program tr) (m_main_program tr')
       [(Co_ALWAYS, op, s); (Co_NOT_IF_COND, Op_GOTO, SNum 0)]).
Proof.
  intros Hnul Ho He. pose proof (emit_step _ _ _ He) as S2. unfold open_iterator in Ho.
  unfold foreach_open, kept. destruct (negb _) eqn:Ek.
  { injection Ho as <- <-. eexists _, _. split; [done|]. split; [done|]. intros Hok Hs.
    eapply emit_grows; [done|done|]. constructor; [split_and!; [done| | |done]|by repeat constructor].
    - cbn. unfold NameTable.getIndex. destruct (StdMap.find _ _) eqn:E; [|done].
      apply (NameTableFacts.ok_index _ (ProgramFacts.ok_results _ Hok)) in E as (i & nam & _ & _ & ->). lia.
    - cbn. apply getIndex_entry; [apply Hok|]. intros E. by rewrite E in Ek. }
  destruct (iequals selector "RESULT").
  { injection Ho as <- <-. eexists _, _. split; [done|]. split; [done|]. intros Hok Hs.
    eapply emit_grows; [done|done|]. by repeat constructor. }
  destruct (iequals selector "PARAM"); [done|].
  destruct (add_path selector tr) as [[tr2 idx]| |] eqn:Ea; cbn in Ho; try done. injection Ho as <- <-.
  destruct (add_path_spec _ _ Hnul _ _ Ea) as [S1 G1]. rewrite (step_stack _ _ _ _ S1) in S2.
  eexists _, _. split; [done|]. split; [exact (step_trans _ _ _ _ _ _ _ S1 S2)|]. intros Hok Hs.
  destruct (G1 Hok (step_small _ _ _ _ S2 Hs)) as (G & Hsym & H0).
  apply (pgrows_trans _ _ _ [] _ G). eapply emit_grows; [done|apply (g_ok _ _ _ G)|].
  constructor; [split_and!; [done|done|exact Hsym|done]|by repeat constructor].
Qed.

(** Replacing one instruction of the code of a program. *)
Lemma pgrows_patch p p' l1 x l2 y i :
  ProgramFacts.ok p -> pgrows p p' (l1 ++ x :: l2) -> senc p' y i ->
  pgrows p (Program.set_code p' (<[(length (Program.code p) + length l1)%nat := i]> (Program.code p')))
    (l1 ++ y :: l2).
Proof.
  intros Hok [He Ho (more & Hc & Hm)] Hy.
  set (q := Program.set_code p' (Program.code p)).
  assert (pgrows p q []) as Hq.
  { apply ok_grown; try apply Ho; try done. destruct He. by split. }
  apply Forall2_app_inv_l in Hm as (m1 & m2 & H1 & H2 & ->). inversion H2 as [|? i0 ? m3 Hx H3]; subst.
  assert (Program.set_code p' (<[(length (Program.code p) + length l1)%nat := i]> (Program.code p'))
          = Program.set_code q (Program.code q ++ m1 ++ i :: m3)) as ->.
  { unfold Program.set_code. cbn. f_equal. rewrite Hc, (Forall2_length _ _ _ H1).
    etransitivity; [apply (insert_app_r (Program.code p))|]. f_equal.
    replace (length m1) with (length m1 + 0)%nat by lia. apply (insert_app_r m1). }
  apply (pgrows_trans _ _ _ [] _ Hq). apply pgrows_code; [apply (g_ok _ _ _ Hq)|].
  apply Forall2_app; [exact H1|]. by constructor.
Qed.

Lemma small_set_code p c : length c = length (Program.code p) -> ProgramFacts.small (Program.set_code p c) ->
  ProgramFacts.small p.
Proof. intros Hl []. split; try done. cbn in *. by rewrite <- Hl. Qed.

Lemma emit_stack l tr tr' : emit l tr = Ok tr' -> m_stateStack tr' = m_stateStack tr.
Proof. unfold emit. destruct (app_code _ _); cbn; try done. by intros [= <-]. Qed.

(** The end of a FOREACH: the jump at the begin is patched behind the end. *)
Lemma end_FOREACH_Ok v ss tr tr' :
  m_stateStack tr = mkState OpenForeach v 0 :: ss -> end_FOREACH tr = Ok tr' ->
  exists tr3 i, emit [ins0 Op_NEXT; (Co_IF_COND, Op_GOTO, v)] tr = Ok tr3 /\
    instruction Co_NOT_IF_COND Op_GOTO (main_size tr3) = Ok i /\
    tr' = set_stateStack (set_main tr3 (Program.set_code (m_main_program tr3)
            (<[Z.to_nat (u32 (v - 1)) := i]> (Program.code (m_main_program tr3))))) ss.
Proof.
  intros Hss. unfold end_FOREACH, top_value. rewrite Hss. cbn [st_id st_value decide]. rewrite decide_True by done.
  cbn [mbind res_bind]. destruct (emit _ tr) as [tr3| |] eqn:E; cbn [mbind res_bind]; try done.
  destruct (ProgramCode.at_ _ _) as [w| |]; cbn [mbind res_bind]; try done.
  destruct (instruction Co_NOT_IF_COND Op_GOTO 0) as [e| |]; cbn [mbind res_bind]; try done.
  destruct (negb _); [done|].
  destruct (instruction _ _ _) as [i| |] eqn:Ei; cbn [mbind res_bind]; try done.
  unfold ProgramCode.assign. destruct (_ <=? _); cbn [mbind res_bind]; try done. intros [= <-].
  exists tr3, i. split_and!; try done. unfold pop_state. cbn.
  by rewrite (emit_stack _ _ _ E), Hss.
Qed.

(** The code behind that of [p] may be changed. *)
Lemma extends_patch p p' n i :
  ProgramFacts.extends p p' -> (length (Program.code p) <= n)%nat ->
  ProgramFacts.extends p (Program.set_code p' (<[n := i]> (Program.code p'))).
Proof.
  intros [[more Hc]] Hn. split; try done. cbn. exists (<[(n - length (Program.code p))%nat := i]> more).
  rewrite Hc. by apply insert_app_r_alt.
Qed.

End Specifications.

Lemma step_weaken strict tr tr' ss n : @step true tr tr' ss n -> @step strict tr tr' ss n.
Proof. intros [L S [A B C D] K X]. split; try done. split; try done. intros _. by apply D. Qed.

(** An operation between the begin and the end of a FOREACH. *)
Definition foreach (selector : string) (body : t -> res t) (tr : t) : res t :=
  tr ← begin_FOREACH selector tr; tr ← body tr; end_FOREACH tr.

(** A FOREACH over an operation that generates the code of [ns] generates the loop over
    [ns]: both jumps have the right target. *)
Lemma foreach_spec {strict} selector body ns tr :
  nul ∉ chars selector ->
  (forall tr1 v, m_stateStack tr1 = mkState OpenForeach v 0 :: m_stateStack tr -> @step true tr tr1 (m_stateStack tr1) 2 ->
     @spec strict body tr1 (m_stateStack tr1) (flatten (Z.of_nat (code_len tr1)) ns)) ->
  forall op s, foreach_open (kepttab tr) selector = Some (op, s) ->
  @spec strict (foreach selector body) tr (m_stateStack tr) (flatten (Z.of_nat (code_len tr)) [Loop op s ns]).
Proof.
  intros Hnul Hbody op s Hopen tr' H. unfold foreach, begin_FOREACH in H.
  destruct (open_iterator selector tr) as [[tr0 x]| |] eqn:E1; cbn [mbind res_bind] in H; try done.
  destruct (emit _ tr0) as [tr1| |] eqn:E2; cbn [mbind res_bind] in H; try done.
  destruct (open_iterator_spec (strict := true) _ _ _ _ _ Hnul E1 E2) as (op' & s' & Hopen' & S1 & G1).
  rewrite Hopen in Hopen'. injection Hopen' as <- <-.
  assert (main_size tr1 = Z.of_nat (code_len tr + 2)) as Hv.
  { unfold main_size, ProgramCode.size. rewrite <- (step_len _ _ _ _ S1). apply wrap_small.
    pose proof (emit_size _ _ _ E2 ltac:(done)) as Hz. change Max_ArgumentIndex with 1048575 in Hz. lia. }
  assert (Z.of_nat (code_len tr + 2) < 2 ^ 20) as Hlim.
  { rewrite <- (step_len _ _ _ _ S1). pose proof (emit_size _ _ _ E2 ltac:(done)) as Hz.
    change Max_ArgumentIndex with 1048575 in Hz. lia. }
  set (v := Z.of_nat (code_len tr + 2)) in *. set (trb := push_state OpenForeach (main_size tr1) tr1) in *.
  assert (m_stateStack trb = mkState OpenForeach v 0 :: m_stateStack tr) as Hsb.
  { unfold trb, push_state. cbn. rewrite Hv, (step_stack _ _ _ _ S1), wrap_small; [done|lia]. }
  assert (@step true tr trb (m_stateStack trb) 2) as Sb by (by eapply step_set_stack).
  destruct (body trb) as [tr2| |] eqn:E3; cbn [mbind res_bind] in H; try done.
  destruct (Hbody trb v Hsb Sb _ E3) as [S2 G2].
  destruct (end_FOREACH_Ok v (m_stateStack tr) tr2 tr') as (tr3 & i & E4 & Ei & ->).
  { rewrite <- Hsb. apply S2. } { done. }
  pose proof (emit_step (strict := strict) _ _ _ E4) as S3. apply (step_weaken strict) in Sb.
  pose proof (step_len _ _ _ _ S2) as L2. pose proof (step_len _ _ _ _ S3) as L3.
  pose proof (step_len _ _ _ _ Sb) as Lb. rewrite length_flatten in L2. cbn [length] in L3.
  assert (@step strict tr tr3 (m_stateStack tr2) (2 + sizes ns + 2)) as S.
  { eapply step_trans; [|exact S3]. eapply step_trans; [exact Sb|]. rewrite length_flatten in S2.
    exact S2. }
  assert (Z.to_nat (u32 (v - 1)) = length (Program.code (m_main_program tr)) + 1)%nat as Hix
    by (rewrite wrap_small; lia).
  split.
  - rewrite length_flatten. unfold sizes at 1. cbn [map list_sum foldr]. rewrite node_size_Loop, Nat.add_0_r.
    replace (4 + sizes ns)%nat with (2 + sizes ns + 2)%nat by lia.
    eapply step_set_stack. destruct S as [Ln Sn Rn Kn Mn]. split; try done.
    + etransitivity; [apply length_insert|exact Ln].
    + destruct Rn. by split.
    + eapply extends_patch; [exact Mn|rewrite Hix; lia].
  - intros Hok Hs. cbn [m_main_program set_stateStack set_main] in Hs |- *.
    assert (small tr3) as Hs3. { eapply small_set_code; [|exact Hs]. apply length_insert. }
    pose proof (step_small _ _ _ _ S3 Hs3) as Hs2. pose proof (step_small _ _ _ _ S2 Hs2) as Hs1.
    pose proof (G1 Hok Hs1) as P1. pose proof (G2 (g_ok _ _ _ P1) Hs2) as P2.
    assert (pgrows (m_main_program tr2) (m_main_program tr3) (plain [ins0 Op_NEXT; (Co_IF_COND, Op_GOTO, v)])) as P3.
    { eapply emit_grows; [exact E4|apply (g_ok _ _ _ P2)|]. apply plain_symbolic.
      cbn [forallb]. unfold plain_ok at 2. cbn [fst snd]. rewrite (proj2 (Z.leb_le 0 v)); [done|lia]. }
    pose proof (pgrows_trans _ _ _ _ _ (pgrows_trans _ _ _ _ _ P1 P2) P3) as P.
    rewrite <- app_assoc in P.
    cbn [flatten]. rewrite flatten1_Loop, app_nil_r.
    rewrite Hix.
    apply (pgrows_patch _ _ [(Co_ALWAYS, op, s)] (Co_NOT_IF_COND, Op_GOTO, SNum 0) _
             (Co_NOT_IF_COND, Op_GOTO, SNum (Z.of_nat (code_len tr) + 4 + Z.of_nat (sizes ns))) i Hok).
    + cbn [app] in P. replace (Z.of_nat (code_len trb)) with (Z.of_nat (code_len tr) + 2) in P by lia.
      replace v with (Z.of_nat (code_len tr) + 2) in P by lia. exact P.
    + exists (main_size tr3). rewrite (main_size_small _ Hs3) in *. split_and!; [lia|done| |done]. cbn. lia.
Qed.
