(* ===== verification/TdlStatement.v ===== *)
(** * Arguments, statements and calls

    The structured code that the translator generates for the arguments of statements and
    subroutine calls, for statements with their hints and for subroutine calls, as functions
    of the parsed elements, and that the translator generates just this. *)
From S2P Require Import Prelude InstructionSet Variant ValueTupleSet ProgramImage TdlTables SelectorPath ParseUtils TdlProgram Tdl2vm TdlCommand TdlStruct TdlCorrect.
Import Tdl2vm.

(** ** Specification with trees *)

Definition inss (l : list (OpCode * sym)) : list node := map (fun x => Ins x.1 x.2) l.

Lemma flatten_inss o l : flatten o (inss l) = map (fun x => (Co_ALWAYS, x.1, x.2)) l.
Proof. revert o. induction l as [|[op s] l IH]; intros o; [done|]. cbn. by rewrite IH. Qed.

Lemma sizes_inss l : sizes (inss l) = length l.
Proof. by rewrite <- (length_flatten _ 0), flatten_inss, length_map. Qed.

Definition oapp {A} (x y : option (list A)) : option (list A) :=
  match x, y with
  | Some a, Some b => Some (a ++ b)
  | _, _ => None
  end.

Section Specifications.
Context {strict : bool}.

(** An operation that succeeds only if there is a tree, and generates its code. *)
Definition outcome (tr tr' : t) (ss : list State) (o : option (list node)) : Prop :=
  exists ns, o = Some ns /\ @step strict tr tr' ss (sizes ns) /\
    (ok tr -> small tr' ->
     pgrows (m_main_program tr) (m_main_program tr') (flatten (Z.of_nat (code_len tr)) ns)).

Definition ospec (op : t -> res t) (tr : t) (ss : list State) (o : option (list node)) : Prop :=
  forall tr', op tr = Ok tr' -> outcome tr tr' ss o.

Lemma outcome_seq tr tr1 tr2 ss1 ss2 o1 o2 :
  outcome tr tr1 ss1 o1 -> outcome tr1 tr2 ss2 o2 -> outcome tr tr2 ss2 (oapp o1 o2).
Proof.
  intros (l1 & -> & S1 & G1) (l2 & -> & S2 & G2).
  exists (l1 ++ l2). split; [done|]. rewrite sizes_app. split; [by eapply step_trans|].
  intros Hok Hs. specialize (G1 Hok (step_small _ _ _ _ S2 Hs)). rewrite flatten_app.
  eapply pgrows_trans; [exact G1|]. rewrite (step_len _ _ _ _ S1) in G2. rewrite Nat2Z.inj_add in G2.
  apply G2; [apply (g_ok _ _ _ G1)|done].
Qed.

Lemma ospec_spec op tr ss ns :
  @spec strict op tr ss (flatten (Z.of_nat (code_len tr)) ns) -> ospec op tr ss (Some ns).
Proof. intros H tr' Ht. exists ns. rewrite <- (length_flatten ns (Z.of_nat (code_len tr))). split; [done|by apply H]. Qed.

Lemma ospec_inss op tr ss l :
  @spec strict op tr ss (map (fun x => (Co_ALWAYS, x.1, x.2)) l) -> ospec op tr ss (Some (inss l)).
Proof. intros H. apply ospec_spec. by rewrite flatten_inss. Qed.

Lemma spec_ospec op tr ss ns :
  ospec op tr ss (Some ns) -> @spec strict op tr ss (flatten (Z.of_nat (code_len tr)) ns).
Proof. intros H tr' Ht. destruct (H _ Ht) as (ns' & [= <-] & Hs). by rewrite length_flatten. Qed.

Lemma ospec_ext op op' tr ss o : op tr = op' tr -> ospec op tr ss o -> ospec op' tr ss o.
Proof. intros He H tr' Ht. apply H. by rewrite He. Qed.

Lemma ospec_ret tr : ospec Ok tr (m_stateStack tr) (Some []).
Proof. apply ospec_spec, spec_ret. Qed.

Lemma ospec_seq op1 op2 tr ss1 ss2 o1 o2 :
  ospec op1 tr ss1 o1 ->
  (forall tr1 ns1, o1 = Some ns1 -> @step strict tr tr1 ss1 (sizes ns1) -> ospec op2 tr1 ss2 o2) ->
  ospec (fun tr => op1 tr ≫= op2) tr ss2 (oapp o1 o2).
Proof.
  intros H1 H2 tr' H. destruct (op1 tr) as [tr1| |] eqn:E; cbn in H; try done.
  pose proof (H1 _ E) as O1. eapply outcome_seq; [exact O1|].
  destruct O1 as (ns1 & Ho & S1 & _). by apply (H2 _ _ Ho S1).
Qed.

(** The condition for an operation that is only done in some cases. *)
Lemma ospec_when c op tr ss o :
  (c = true -> ospec op tr ss o) -> (c = false -> ss = m_stateStack tr /\ o = Some []) ->
  ospec (when c op) tr ss o.
Proof.
  intros H1 H2. destruct c; [by apply H1|]. destruct H2 as [-> ->]; [done|]. apply ospec_ret.
Qed.

End Specifications.

Arguments outcome : clear implicits.
Arguments ospec : clear implicits.

(** Strict operations are operations. *)
Lemma outcome_weaken strict tr tr' ss o : outcome true tr tr' ss o -> outcome strict tr tr' ss o.
Proof. intros (ns & -> & S & G). exists ns. split_and!; [done| |done]. by apply step_weaken. Qed.

Lemma ospec_weaken strict op tr ss o : ospec true op tr ss o -> ospec strict op tr ss o.
Proof. intros H tr' Ht. by apply outcome_weaken, H. Qed.

(** ** Arguments *)

(** What the selection of a set depends on. *)
Record env := mkEnv {
  e_kept : NameTable.t;
  e_sub : bool;
  e_nof : Z
}.

Definition env_of (tr : t) : env :=
  mkEnv (Program.resultnametab (m_main_program tr)) (m_isSubroutine tr) (m_nofCommands tr).

Lemma env_of_step tr tr' ss n : @step true tr tr' ss n -> env_of tr' = env_of tr.
Proof. intros [_ _ [_ Hi _ Hs] Hk _]. destruct (Hs eq_refl) as (_ & _ & Hn). unfold env_of. by rewrite Hk, Hi, Hn. Qed.

(** The selection of the set a name refers to: a kept result, the last result, or the
    parameters.  Without a name it is the last result, or the parameters at the begin of a
    subroutine. *)
Definition select_ins (e : env) (setname : string) : option (OpCode * sym) :=
  if kept (e_kept e) setname then Some (Op_SELECT_KEPT_RESULT, SResult setname)
  else if bool_decide (setname = ""%string) then
    Some (if e_sub e && (e_nof e =? 0) then Op_SELECT_PARAMETER else Op_SELECT_LAST_RESULT, SNum 0)
  else if iequals setname "RESULT" then Some (Op_SELECT_LAST_RESULT, SNum 0)
  else if iequals setname "PARAM" then Some (Op_SELECT_PARAMETER, SNum 0)
  else None.

Lemma kept_symbolic tr nam op :
  ok tr -> kept (kepttab tr) nam = true -> ProgramFacts.arg_type op = At_ResultName ->
  symbolic (m_main_program tr) (ins op (NameTable.getIndex (kepttab tr) nam)) (ins op (SResult nam)).
Proof.
  intros Hok Hk Hop. assert (NameTable.getIndex (kepttab tr) nam <> 0) as Hne.
  { unfold kept in Hk. intros E. by rewrite E in Hk. }
  apply getIndex_entry in Hne; [|apply Hok]. split_and!; [done|by eapply name_entry_pos|done|].
  cbn. by rewrite Hop.
Qed.

Lemma select_set_spec setname tr x :
  select_set setname tr = Ok x -> exists op s, select_ins (env_of tr) setname = Some (op, s) /\
    (ok tr -> symbolic (m_main_program tr) x (ins op s)).
Proof.
  unfold select_set, select_ins, env_of. cbn [e_kept e_sub e_nof].
  destruct (kept (kepttab tr) setname) eqn:Ek; unfold kept in Ek; rewrite Ek.
  { intros [= <-]. eexists _, _. split; [done|]. intros Hok. by apply kept_symbolic. }
  destruct (bool_decide_reflect (setname = ""%string)) as [->|Hne]; cbn [andb].
  - change (iequals "" "RESULT") with false. change (iequals "" "PARAM") with false.
    destruct (m_isSubroutine tr && (m_nofCommands tr =? 0)); cbn [negb orb];
      intros [= <-]; eexists _, _; (split; [done|]); done.
  - cbn [orb]. destruct (iequals setname "RESULT"); [intros [= <-]; eexists _, _; split; done|].
    destruct (iequals setname "PARAM"); [intros [= <-]; eexists _, _; split; done|done].
Qed.

(** An argument: whether it ends the hints of the statement, the operation in a call and in
    a statement, the set that is selected before, and the argument of the operation. *)
Record argument := mkArgument {
  arg_ends_hints : bool;
  arg_sub : OpCode;
  arg_stm : OpCode;
  arg_msg : string;
  arg_set : option string;
  arg_sym : sym
}.

Definition arg_LOOPCNT : argument :=
  mkArgument true Op_SUB_ARG_LOOPCNT Op_DBSTM_BIND_LOOPCNT msg_push None (SNum 0).
Definition arg_PATH (selector : string) : argument :=
  mkArgument true Op_SUB_ARG_PATH Op_DBSTM_BIND_PATH msg_push None (SPath selector).
Definition arg_CONST (v : Variant) : argument :=
  mkArgument true Op_SUB_ARG_CONST Op_DBSTM_BIND_CONST msg_bind None (SConst v).
Definition arg_TUPLESET_idx (setname : string) (idx : Z) : argument :=
  mkArgument true Op_SUB_ARG_SEL_IDX Op_DBSTM_BIND_SEL_IDX msg_bind (Some setname) (SNum idx).
Definition arg_TUPLESET_nam (setname nam : string) : argument :=
  mkArgument false Op_SUB_ARG_SEL_NAM Op_DBSTM_BIND_SEL_NAM msg_bind (Some setname) (SColumn nam).
Definition arg_ITER_idx (idx : Z) : argument :=
  mkArgument false Op_SUB_ARG_ITR_IDX Op_DBSTM_BIND_ITR_IDX msg_bind None (SNum idx).
Definition arg_ITER_nam (nam : string) : argument :=
  mkArgument false Op_SUB_ARG_ITR_NAM Op_DBSTM_BIND_ITR_NAM msg_bind None (SColumn nam).

(** The arguments of a parameter; a loop counter is followed by a constant. *)
Definition param_arguments (cmdselector : string) (pi : ElementReference.t) : list argument :=
  let sel := ElementReference.selector pi in
  let idx := u32 (ElementReference.index pi) in
  match ElementReference.type pi with
  | ElementReference.SelectorPath => [arg_PATH sel]
  | ElementReference.LoopCounter => [arg_LOOPCNT; arg_CONST (const_value sel)]
  | ElementReference.Constant => [arg_CONST (const_value sel)]
  | ElementReference.NamedSetElement =>
      [if is_iterated cmdselector sel then arg_ITER_nam (ElementReference.name pi)
       else arg_TUPLESET_nam sel (ElementReference.name pi)]
  | ElementReference.IndexSetElement =>
      [if is_iterated cmdselector sel then arg_ITER_idx idx else arg_TUPLESET_idx sel idx]
  end.

(** The argument of an operation is entered into its table. *)
Definition enter (s : sym) (tr : t) : res (t * Z) :=
  match s with
  | SNum n => Ok (tr, n)
  | SConst v => Ok (add_constant v tr)
  | SPath p => add_path p tr
  | SColumn n => get_column n tr
  | STag n => enter_tag n tr
  | _ => Throw (LogicError "not an argument")
  end.

(** An argument whose kind is that of the operations. *)
Definition ok_sym (s : sym) : bool :=
  match s with
  | SNum n => 0 <=? n
  | SPath p => bool_decide (nul ∉ chars p)
  | SConst _ | SColumn _ | STag _ => true
  | _ => false
  end.

Lemma enter_spec s tr : ok_sym s = true -> @enters true (enter s) tr s.
Proof.
  destruct s; try done; cbn [ok_sym]; intros H.
  - intros tr' idx [= <- <-]. split; [apply step_refl|]. intros Hok _.
    split_and!; [by apply pgrows_refl|done|by apply Z.leb_le].
  - apply add_constant_spec.
  - apply bool_decide_eq_true in H. by apply add_path_spec.
  - apply enter_tag_spec.
  - apply get_column_spec.
Qed.

(** ** Pushing arguments *)

(** The parameter is counted in the state on top; the state of the hints may be left. *)
Definition settle (ends_hints : bool) (tr : t) : res t :=
  tr ← count_param tr; Ok (if ends_hints then pop_hint tr else tr).

(** The operation for an argument that has the index [idx] in its table. *)
Definition emit_with (op : OpCode) (set : option string) (idx : Z) (tr : t) : res t :=
  match set with
  | None => emit [ins op idx] tr
  | Some setname => sel ← select_set setname tr; emit [sel; ins op idx] tr
  end.

Definition emit_arg (a : argument) (idx : Z) (tr : t) : res t :=
  op ← arg_op (arg_sub a) (arg_stm a) (arg_msg a) tr; emit_with op (arg_set a) idx tr.

Definition push_arg (a : argument) (tr : t) : res t :=
  tr ← settle (arg_ends_hints a) tr; '(tr, idx) ← enter (arg_sym a) tr; emit_arg a idx tr.

Ltac push_arg_cases :=
  unfold push_arg, settle; destruct (count_param _); cbn; try done;
  repeat match goal with
         | |- context [add_path ?s ?tr] => destruct (add_path s tr) as [[? ?]| |]; cbn; try done
         | |- context [get_column ?s ?tr] => destruct (get_column s tr) as [[? ?]| |]; cbn; try done
         end.

Lemma push_LOOPCNT_arg tr : push_ARGUMENT_LOOPCNT tr = push_arg arg_LOOPCNT tr.
Proof. unfold push_ARGUMENT_LOOPCNT. push_arg_cases. Qed.

Lemma push_PATH_arg sel tr : push_ARGUMENT_PATH sel tr = push_arg (arg_PATH sel) tr.
Proof. unfold push_ARGUMENT_PATH. push_arg_cases. Qed.

Lemma push_CONST_arg v tr : push_ARGUMENT_CONST v tr = push_arg (arg_CONST v) tr.
Proof. unfold push_ARGUMENT_CONST. push_arg_cases. Qed.

Lemma push_TUPLESET_idx_arg setname i tr :
  push_ARGUMENT_TUPLESET_idx setname i tr = push_arg (arg_TUPLESET_idx setname i) tr.
Proof. unfold push_ARGUMENT_TUPLESET_idx. push_arg_cases. Qed.

Lemma push_TUPLESET_nam_arg setname n tr :
  push_ARGUMENT_TUPLESET_nam setname n tr = push_arg (arg_TUPLESET_nam setname n) tr.
Proof. unfold push_ARGUMENT_TUPLESET_nam. push_arg_cases. Qed.

Lemma push_ITER_idx_arg i tr : push_ARGUMENT_ITER_idx i tr = push_arg (arg_ITER_idx i) tr.
Proof. unfold push_ARGUMENT_ITER_idx. push_arg_cases. Qed.

Lemma push_ITER_nam_arg n tr : push_ARGUMENT_ITER_nam n tr = push_arg (arg_ITER_nam n) tr.
Proof. unfold push_ARGUMENT_ITER_nam. push_arg_cases. Qed.

Lemma each_one {A} (f : A -> t -> res t) a tr : each f [a] tr = f a tr.
Proof. cbn. by destruct (f a tr). Qed.

Lemma each_app {A} (f : A -> t -> res t) l l' tr :
  each f (l ++ l') tr = (tr ← each f l tr; each f l' tr).
Proof. revert tr. induction l as [|a l IH]; intros tr; [done|]. cbn. by destruct (f a tr); cbn. Qed.

(** The switch over the type of a parameter pushes its arguments. *)
Lemma push_param_arguments cs pi tr :
  push_param cs pi tr = each push_arg (param_arguments cs pi) tr.
Proof.
  unfold push_param, param_arguments. destruct (ElementReference.type pi).
  - by rewrite each_one, push_PATH_arg.
  - change (each push_arg [?a; ?b] tr) with (tr ← push_arg a tr; each push_arg [b] tr).
    rewrite push_LOOPCNT_arg. destruct (push_arg arg_LOOPCNT tr); cbn [mbind res_bind]; try done.
    by rewrite each_one, push_CONST_arg.
  - by rewrite each_one, push_CONST_arg.
  - rewrite each_one. destruct (is_iterated _ _); [apply push_ITER_nam_arg|apply push_TUPLESET_nam_arg].
  - rewrite each_one. destruct (is_iterated _ _); [apply push_ITER_idx_arg|apply push_TUPLESET_idx_arg].
Qed.

Lemma each_push_param cs l tr :
  each (push_param cs) l tr = each push_arg (concat (map (param_arguments cs) l)) tr.
Proof.
  revert tr. induction l as [|pi l IH]; intros tr; [done|]. cbn [map concat]. rewrite each_app, <- push_param_arguments.
  cbn. by destruct (push_param cs pi tr); cbn.
Qed.

(** *** What is generated *)

(** The operation in the context of a state. *)
Definition context_op (id : StateId) (a : argument) : option OpCode :=
  match id with
  | OpenSubroutineCall => Some (arg_sub a)
  | OpenStatementCall => Some (arg_stm a)
  | _ => None
  end.

(** An operation after the selection of its set. *)
Definition with_set (e : env) (set : option string) (op : OpCode) (s : sym) : option (list (OpCode * sym)) :=
  match set with
  | None => Some [(op, s)]
  | Some setname =>
      match select_ins e setname with
      | Some sel => Some [sel; (op, s)]
      | None => None
      end
  end.

Definition argument_ins (e : env) (id : StateId) (a : argument) : option (list (OpCode * sym)) :=
  match context_op id a with
  | Some op => with_set e (arg_set a) op (arg_sym a)
  | None => None
  end.

(** The operations of an argument take the kind of its argument. *)
Definition ok_argument (a : argument) : bool :=
  ok_sym (arg_sym a) && sym_fits (arg_sym a) (ProgramFacts.arg_type (arg_sub a))
    && sym_fits (arg_sym a) (ProgramFacts.arg_type (arg_stm a)).

Lemma arg_op_spec a id v n ss tr op :
  m_stateStack tr = mkState id v n :: ss -> arg_op (arg_sub a) (arg_stm a) (arg_msg a) tr = Ok op ->
  context_op id a = Some op.
Proof.
  unfold arg_op. intros ->. cbn [st_id].
  destruct (decide (id = OpenSubroutineCall)) as [->|H1]; [by intros [= <-]|].
  destruct (decide (id = OpenStatementCall)) as [->|H2]; [by intros [= <-]|done].
Qed.

Lemma enter_emit_with op set s tr :
  ok_sym s = true -> sym_fits s (ProgramFacts.arg_type op) = true ->
  ospec true (fun tr => '(tr, idx) ← enter s tr; emit_with op set idx tr) tr (m_stateStack tr)
    (option_map inss (with_set (env_of tr) set op s)).
Proof.
  intros Hsym Hf tr' H.
  destruct (enter s tr) as [[tr1 idx]| |] eqn:E; cbn [mbind res_bind] in H; try done.
  destruct (enter_spec _ _ Hsym _ _ E) as [S1 G1]. rewrite <- (env_of_step _ _ _ _ S1).
  assert (forall l l', emit (l ++ [ins op idx]) tr1 = Ok tr' -> length l = length l' ->
    (ok tr1 -> Forall2 (symbolic (m_main_program tr1)) l (map (fun x => (Co_ALWAYS, x.1, x.2)) l')) ->
    outcome true tr tr' (m_stateStack tr) (Some (inss (l' ++ [(op, s)])))) as K.
  { intros l l' Hem Hl Hpre. pose proof (emit_step (strict := true) _ _ _ Hem) as S2.
    rewrite (step_stack _ _ _ _ S1) in S2. eexists. split; [done|]. split.
    - rewrite sizes_inss, length_app, <- Hl. cbn [length]. rewrite length_app in S2.
      exact (step_trans _ _ _ _ _ _ _ S1 S2).
    - intros Hok Hs. destruct (G1 Hok (step_small _ _ _ _ S2 Hs)) as (G & Hy & H0).
      apply (pgrows_trans _ _ _ [] _ G). rewrite flatten_inss, map_app.
      eapply emit_grows; [exact Hem|apply (g_ok _ _ _ G)|].
      apply Forall2_app; [apply Hpre, (g_ok _ _ _ G)|]. constructor; [by split_and!|constructor]. }
  unfold emit_with in H. unfold with_set. destruct set as [setname|].
  - destruct (select_set setname tr1) as [sel| |] eqn:Es; cbn [mbind res_bind] in H; try done.
    destruct (select_set_spec _ _ _ Es) as (sop & ssym & Hsel & Hsy). rewrite Hsel.
    apply (K [sel] [(sop, ssym)]); [done|done|]. intros Hok. constructor; [by apply Hsy|constructor].
  - by apply (K [] []).
Qed.

Lemma enter_emit_arg a id v n ss tr :
  ok_argument a = true -> m_stateStack tr = mkState id v n :: ss ->
  ospec true (fun tr => '(tr, idx) ← enter (arg_sym a) tr; emit_arg a idx tr) tr (m_stateStack tr)
    (option_map inss (argument_ins (env_of tr) id a)).
Proof.
  unfold ok_argument. rewrite !andb_true_iff. intros [[Hsym Hf1] Hf2] Hss tr' H.
  destruct (enter (arg_sym a) tr) as [[tr1 idx]| |] eqn:E; cbn [mbind res_bind] in H; try done.
  destruct (enter_spec _ _ Hsym _ _ E) as [S1 _]. unfold emit_arg in H.
  destruct (arg_op _ _ _ tr1) as [op| |] eqn:Eo; cbn [mbind res_bind] in H; try done.
  pose proof (step_stack _ _ _ _ S1) as Hss1. rewrite Hss in Hss1.
  apply (arg_op_spec _ _ _ _ _ _ _ Hss1) in Eo. unfold argument_ins. rewrite Eo.
  apply (enter_emit_with op (arg_set a) (arg_sym a) tr Hsym).
  - destruct id; try done; by injection Eo as <-.
  - rewrite E. exact H.
Qed.

Fixpoint arguments_nodes (e : env) (id : StateId) (l : list argument) : option (list node) :=
  match l with
  | [] => Some []
  | a :: l' => oapp (option_map inss (argument_ins e id a)) (arguments_nodes e id l')
  end.

(** The stack after the settlement of the state on top. *)
Definition settled (ends_hints : bool) (st : State) (ss : list State) : list State :=
  if ends_hints && bool_decide (st_id st = StatementHint) then ss
  else mkState (st_id st) (st_value st) (u32 (st_paramcnt st + 1)) :: ss.

Lemma settle_stack b st ss tr tr' :
  m_stateStack tr = st :: ss -> settle b tr = Ok tr' -> tr' = set_stateStack tr (settled b st ss).
Proof.
  unfold settle, count_param, pop_hint, settled. intros ->. cbn. destruct b; [|by intros [= <-]].
  destruct (decide (st_id st = StatementHint)) as [He|He]; cbn.
  - rewrite bool_decide_true by done. by intros [= <-].
  - rewrite bool_decide_false by done. by intros [= <-].
Qed.

Lemma push_arg_spec a st ss tr id v n ss' :
  ok_argument a = true -> m_stateStack tr = st :: ss -> settled (arg_ends_hints a) st ss = mkState id v n :: ss' ->
  ospec true (push_arg a) tr (mkState id v n :: ss') (option_map inss (argument_ins (env_of tr) id a)).
Proof.
  intros Ha Hss Hset tr' H. unfold push_arg in H.
  destruct (settle _ tr) as [tr1| |] eqn:E; cbn [mbind res_bind] in H; try done.
  pose proof (settle_stack _ _ _ _ _ Hss E) as ->. rewrite Hset in H.
  apply (enter_emit_arg a id v n ss' (set_stateStack tr (mkState id v n :: ss')) Ha eq_refl) in H as (ns & Hn & [L S [] K X] & G).
  exists ns. split_and!; [exact Hn|by split|done].
Qed.

Definition counted (n : Z) (l : list argument) : Z := fold_left (fun n _ => u32 (n + 1)) l n.

Lemma push_args_spec e id v l : id <> StatementHint -> Forall (fun a => ok_argument a = true) l ->
  forall n ss tr, env_of tr = e -> m_stateStack tr = mkState id v n :: ss ->
  ospec true (each push_arg l) tr (mkState id v (counted n l) :: ss) (arguments_nodes e id l).
Proof.
  intros Hid. induction 1 as [|a l Ha Hl IH]; intros n ss tr <- Hss.
  { cbn [each counted fold_left arguments_nodes]. rewrite <- Hss. apply ospec_ret. }
  cbn [each]. eapply ospec_seq.
  - eapply (push_arg_spec a _ ss tr id v (u32 (n + 1)) ss Ha Hss). unfold settled. cbn.
    rewrite bool_decide_false by done. by rewrite andb_false_r.
  - intros tr1 ns1 _ S1. apply IH; [by eapply env_of_step|apply (step_stack _ _ _ _ S1)].
Qed.

(** The arguments of a statement: after a hint the first one must end the hints. *)
Definition statement_arguments (e : env) (hinted : bool) (l : list argument) : option (list node) :=
  if hinted && negb (match l with a :: _ => arg_ends_hints a | [] => false end) then None
  else arguments_nodes e OpenStatementCall l.

Lemma hinted_args_spec l h m v ss tr :
  Forall (fun a => ok_argument a = true) l ->
  m_stateStack tr = mkState StatementHint h m :: mkState OpenStatementCall v 0 :: ss ->
  forall tr', each push_arg l tr = Ok tr' -> (forall st ss', m_stateStack tr' = st :: ss' -> st_id st = OpenStatementCall) ->
  exists n, outcome true tr tr' (mkState OpenStatementCall v n :: ss) (statement_arguments (env_of tr) true l).
Proof.
  intros Hl Hss tr' H Htop. destruct Hl as [|a l Ha Hl].
  { injection H as <-. specialize (Htop _ _ Hss). done. }
  unfold statement_arguments. cbn [andb]. destruct (arg_ends_hints a) eqn:Eh; cbn [negb].
  - assert (ospec true (each push_arg (a :: l)) tr (mkState OpenStatementCall v (counted 0 l) :: ss)
      (arguments_nodes (env_of tr) OpenStatementCall (a :: l))) as Hs.
    { cbn [each]. eapply ospec_seq.
      - eapply (push_arg_spec a _ _ tr OpenStatementCall v 0 ss Ha Hss). unfold settled. by rewrite Eh.
      - intros tr1 ns1 _ S1. apply push_args_spec; [done|done|by eapply env_of_step|apply (step_stack _ _ _ _ S1)]. }
    exists (counted 0 l). by apply Hs.
  - exfalso. cbn [each] in H. destruct (push_arg a tr) as [tr1| |] eqn:E; cbn in H; try done.
    destruct (push_arg_spec a _ _ tr StatementHint h (u32 (m + 1)) (mkState OpenStatementCall v 0 :: ss) Ha Hss) with (tr' := tr1)
      as (ns & Hn & _); [unfold settled; by rewrite Eh|done|].
    unfold argument_ins in Hn. cbn in Hn. done.
Qed.

(** ** Statements *)

Definition add_hints : list ErrorHint -> t -> res t :=
  each (fun h => statement_HINT (hint_errorclass h) (hint_message h)).

Lemma add_hints_cons hi hints tr :
  add_hints (hi :: hints) tr = (tr ← statement_HINT (hint_errorclass hi) (hint_message hi) tr; add_hints hints tr).
Proof. done. Qed.

(** Further hints go to the set that was begun. *)
Lemma more_hints hints : forall base acc h m ss tr tr',
  m_stateStack tr = mkState StatementHint h m :: ss ->
  Program.hinttab (m_main_program tr) = base ++ [acc] -> add_hints hints tr = Ok tr' ->
  tr' = set_main tr (Program.set_hinttab (m_main_program tr) (base ++ [acc ++ hints])).
Proof.
  induction hints as [|hi hints IH]; intros base acc h m ss tr tr' Hss Hb.
  { cbn. intros [= <-]. rewrite app_nil_r, <- Hb. by destruct tr as [? ? ? ? [] ? ?]. }
  rewrite add_hints_cons. unfold statement_HINT. rewrite Hss.
  cbn [st_id]. rewrite decide_False by done. cbn [mbind res_bind].
  unfold top_value. rewrite Hss. cbn [st_id]. rewrite decide_True by done. cbn [mbind res_bind]. unfold ErrorHintTable.define. rewrite Hb, last_snoc.
  destruct (ErrorHintTable.findHint _ _ _) as [[x|]| |]; cbn [mbind res_bind]; try done.
  rewrite removelast_last. intros H.
  apply (IH base (acc ++ [mkErrorHint (hint_errorclass hi) (hint_message hi)]) h m ss) in H; [|done|done].
  subst tr'. cbn. rewrite <- app_assoc. destruct hi. done.
Qed.

(** The instruction for the hints of a statement. *)
Definition hint_nodes (hints : list ErrorHint) : list node :=
  match hints with
  | [] => []
  | _ => [Ins Op_DBSTM_HINT (SHint hints)]
  end.

Lemma add_hints_spec hints v n ss tr tr' :
  hints <> [] -> m_stateStack tr = mkState OpenStatementCall v n :: ss -> add_hints hints tr = Ok tr' ->
  exists h, outcome true tr tr' (mkState StatementHint h 0 :: mkState OpenStatementCall v n :: ss)
    (Some (hint_nodes hints)).
Proof.
  intros Hne Hss. destruct hints as [|hi hints]; [done|]. clear Hne. rewrite add_hints_cons.
  unfold statement_HINT. rewrite Hss. cbn [st_id]. rewrite decide_True by done.
  unfold ErrorHintTable.startdef. destruct (Z.leb_spec Max_ArgumentIndex (Z.of_nat (length (Program.hinttab (m_main_program tr))))) as [|Hlim]; cbn [mbind res_bind]; try done.
  set (ht := Program.hinttab (m_main_program tr)) in *.
  assert (u32 (Z.of_nat (length (ht ++ [[]]))) = Z.of_nat (length ht) + 1) as ->.
  { rewrite length_app. change Max_ArgumentIndex with 1048575 in Hlim. cbn. rewrite wrap_small; lia. }
  set (idx := Z.of_nat (length ht) + 1) in *. unfold emit, app_code.
  destruct (ProgramCode.app_cond _ _ _ _) as [c| |] eqn:Ec; cbn [mbind res_bind]; try done.
  unfold ProgramCode.app_cond in Ec. destruct (instruction _ _ _) as [i| |] eqn:Ei; cbn [mbind res_bind] in Ec; try done.
  unfold ProgramCode.add in Ec. destruct (_ <=? _); [done|]. injection Ec as <-.
  unfold top_value. cbn [m_stateStack set_main push_state set_stateStack st_id]. rewrite decide_True by done.
  cbn [mbind res_bind]. unfold ErrorHintTable.define. cbn [Program.hinttab Program.set_code Program.set_hinttab m_main_program set_main push_state set_stateStack].
  rewrite last_snoc. destruct (ErrorHintTable.findHint _ _ _) as [[x|]| |]; cbn [mbind res_bind]; try done.
  rewrite removelast_last. intros H.
  eapply (more_hints hints ht [_]) in H; [|done|done]. subst tr'.
  cbn [m_main_program set_main Program.set_hinttab Program.set_code m_stateStack push_state set_stateStack].
  assert (hi = mkErrorHint (hint_errorclass hi) (hint_message hi)) as <- by (by destruct hi).
  set (main := m_main_program tr) in *.
  exists (u32 idx), (hint_nodes (hi :: hints)). split; [done|].
  match goal with |- step tr ?x _ _ /\ _ => set (tr' := x) end.
  split.
  - split; try done.
    + cbn. rewrite length_app. done.
    + cbn. by rewrite Hss.
    + split; try done; by eexists.
  - intros Hok _. change (pgrows main (Program.set_code (Program.set_hinttab main (ht ++ [hi :: hints]))
      (Program.code main ++ [i])) (flatten (Z.of_nat (code_len tr)) (hint_nodes (hi :: hints)))).
    apply (pgrows_trans _ (Program.set_hinttab main (ht ++ [hi :: hints])) _ []).
    + apply ok_grown; try apply Hok; try done. split; cbn; try done. by eexists.
    + apply (pgrows_code (Program.set_hinttab main (ht ++ [hi :: hints])) [i]).
      * eapply (g_ok main _ []). apply ok_grown; try apply Hok; try done. split; cbn; try done. by eexists.
      * constructor; [|constructor]. exists idx. split_and!; [lia|done| |done]. cbn. split; [lia|].
        apply lookup_snoc_cases. right. split; [lia|done].
Qed.

(** The begin of a statement enters its text into the table of the statements. *)
Lemma begin_DO_statement_spec stm tr :
  spec (strict := true) (begin_DO_statement stm) tr
    (mkState OpenStatementCall (u32 (Z.of_nat (length (Program.statements (m_main_program tr))))) 0 :: m_stateStack tr)
    [(Co_ALWAYS, Op_DBSTM_START, SStm stm)].
Proof.
  intros tr'. unfold begin_DO_statement. set (main := m_main_program tr).
  set (idx := u32 (Z.of_nat (length (Program.statements main)))).
  destruct (emit _ tr) as [tr1| |] eqn:E; cbn [mbind res_bind]; try done. intros [= <-].
  unfold emit in E. destruct (app_code _ _) as [c| |] eqn:Ec; cbn [mbind res_bind] in E; try done.
  injection E as <-. apply app_code_spec in Ec as (more & -> & Hm).
  inversion Hm as [|? i ? ? Hi Hnil]; subst. inversion Hnil; subst.
  cbn [m_main_program set_main push_state set_stateStack Program.statements Program.set_code].
  fold main. assert (ProgramFacts.extends main (Program.set_statements main (Program.statements main ++ [stm]))) as He.
  { split; cbn; try done. by eexists. }
  split.
  - split; try done.
    + cbn. rewrite length_app. done.
    + cbn. unfold idx. by rewrite wrap_wrap.
    + split; try done; by eexists.
  - intros Hok [_ _ _ _ _ Hs _ _ _ _ _]. cbn in Hs. rewrite length_app in Hs. cbn in Hs.
    assert (pgrows main (Program.set_statements main (Program.statements main ++ [stm])) []) as G
      by (apply ok_grown; try apply Hok; done).
    apply (pgrows_trans _ _ _ [] _ G).
    apply (pgrows_code (Program.set_statements main (Program.statements main ++ [stm])) [i] _ (g_ok _ _ _ G)).
    constructor; [|constructor]. assert (idx = Z.of_nat (length (Program.statements main))) as Hidx.
    { unfold idx. apply wrap_small. lia. }
    exists idx. split_and!; [lia|exact Hi| |done]. cbn. apply lookup_snoc_cases. right. split; [lia|done].
Qed.

(** The end of a statement; the execution does not read its argument. *)
Lemma end_DO_statement_spec v n ss tr :
  m_stateStack tr = mkState OpenStatementCall v n :: ss -> 0 <= v ->
  ospec false end_DO_statement tr ss (Some [Ins Op_DBSTM_EXEC SUnused]).
Proof.
  intros Hss Hv tr'. unfold end_DO_statement, top_value. rewrite Hss. cbn [st_id].
  rewrite decide_True by done. cbn [mbind res_bind st_value].
  destruct (emit _ tr) as [tr1| |] eqn:E; cbn [mbind res_bind]; try done. intros [= <-].
  pose proof (emit_step (strict := false) _ _ _ E) as S. rewrite Hss in S.
  eexists. split; [done|]. split.
  - destruct S as [L S [] K X]. split; [exact L|cbn; by rewrite S|by split|exact K|exact X].
  - intros Hok Hs. apply (emit_grows _ _ _ tr1 E Hok). constructor; [|constructor].
    by split_and!.
Qed.

Lemma end_DO_statement_top tr tr' st ss :
  end_DO_statement tr = Ok tr' -> m_stateStack tr = st :: ss -> st_id st = OpenStatementCall.
Proof. unfold end_DO_statement, top_value. intros H Hss. rewrite Hss in H. by destruct (decide _). Qed.

(** A statement with its hints and its arguments. *)
Definition do_statement (stm : string) (hints : list ErrorHint) (l : list argument) (tr : t) : res t :=
  tr ← begin_DO_statement stm tr; tr ← add_hints hints tr; tr ← each push_arg l tr; end_DO_statement tr.

Definition is_nil {A} (l : list A) : bool := match l with [] => true | _ => false end.

Definition statement_nodes (e : env) (stm : string) (hints : list ErrorHint) (l : list argument)
    : option (list node) :=
  oapp (Some [Ins Op_DBSTM_START (SStm stm)])
    (oapp (Some (hint_nodes hints))
       (oapp (statement_arguments e (negb (is_nil hints)) l) (Some [Ins Op_DBSTM_EXEC SUnused]))).

(** Hints and arguments: afterwards the state of the statement is on top again. *)
Lemma hints_args_spec hints l v ss tr tr1 tr' :
  Forall (fun a => ok_argument a = true) l -> m_stateStack tr = mkState OpenStatementCall v 0 :: ss ->
  add_hints hints tr = Ok tr1 -> each push_arg l tr1 = Ok tr' ->
  (forall st ss', m_stateStack tr' = st :: ss' -> st_id st = OpenStatementCall) ->
  exists n, outcome true tr tr' (mkState OpenStatementCall v n :: ss)
    (oapp (Some (hint_nodes hints)) (statement_arguments (env_of tr) (negb (is_nil hints)) l)).
Proof.
  intros Hl Hss E1 E2 Htop. destruct hints as [|hi hints].
  - injection E1 as <-. exists (counted 0 l).
    pose proof (push_args_spec (env_of tr) OpenStatementCall v l ltac:(done) Hl 0 ss tr eq_refl Hss _ E2) as O.
    unfold statement_arguments. cbn [is_nil negb andb]. destruct O as (ns & -> & O). by exists ns.
  - destruct (add_hints_spec (hi :: hints) v 0 ss tr tr1 ltac:(done) Hss E1) as (h & O1).
    pose proof O1 as (ns1 & _ & S1 & _).
    destruct (hinted_args_spec l h 0 v ss tr1 Hl (step_stack _ _ _ _ S1) _ E2 Htop) as (n & O2).
    rewrite (env_of_step _ _ _ _ S1) in O2. exists n. by eapply outcome_seq.
Qed.

Lemma do_statement_spec stm hints l tr :
  Forall (fun a => ok_argument a = true) l ->
  ospec false (do_statement stm hints l) tr (m_stateStack tr) (statement_nodes (env_of tr) stm hints l).
Proof.
  intros Hl tr' H. unfold do_statement in H.
  destruct (begin_DO_statement stm tr) as [tr1| |] eqn:E1; cbn [mbind res_bind] in H; try done.
  destruct (add_hints hints tr1) as [tr2| |] eqn:E2; cbn [mbind res_bind] in H; try done.
  destruct (each push_arg l tr2) as [tr3| |] eqn:E3; cbn [mbind res_bind] in H; try done.
  pose proof (ospec_spec _ _ _ [Ins Op_DBSTM_START (SStm stm)] (begin_DO_statement_spec stm tr) _ E1) as O1.
  pose proof O1 as (ns1 & _ & S1 & _).
  destruct (hints_args_spec hints l _ _ tr1 tr2 tr3 Hl (step_stack _ _ _ _ S1) E2 E3) as (n & O2).
  { intros st ss'. by eapply end_DO_statement_top. }
  rewrite (env_of_step _ _ _ _ S1) in O2. pose proof O2 as (ns2 & _ & S2 & _).
  unfold statement_nodes. eapply outcome_seq; [by apply outcome_weaken|].
  pose proof (end_DO_statement_spec _ _ _ tr3 (step_stack _ _ _ _ S2) (proj1 (wrap_range 32 _ ltac:(lia))) _ H) as O3.
  assert (forall x y z : option (list node), oapp (oapp x y) z = oapp x (oapp y z)) as Hassoc.
  { intros [x|] [y|] [z|]; cbn; try done. by rewrite app_assoc. }
  rewrite <- Hassoc. eapply outcome_seq; [by apply outcome_weaken|exact O3].
Qed.

(** ** Subroutine calls *)

(** The subroutine that is called, after its code was added on the first call. *)
Definition resolve (name : string) (templateParamValues : list string) (selector : string) (tr : t)
    : res (t * CalledSubroutineDef) :=
  match StdMap.find (to_upper_copy name) (m_soubroutinemap tr) with
  | None => Throw (RuntimeError "calling undefined subroutine")
  | Some sr =>
      let mangledName := mangledSubroutineName name templateParamValues selector in
      let idx := find_called mangledName (m_calledSubroutines tr) in
      tr ← (if (idx =? length (m_calledSubroutines tr))%nat
            then add_called name mangledName templateParamValues sr tr else Ok tr);
      match m_calledSubroutines tr !! idx with
      | None => Throw (OutOfRange "vector::at")
      | Some cs => Ok (tr, cs)
      end
  end.

Definition called_index (name : string) (templateParamValues : list string) (selector : string) (tr : t) : nat :=
  find_called (mangledSubroutineName name templateParamValues selector) (m_calledSubroutines tr).

(** The frame of a call is opened with the parameter names of the subroutine. *)
Definition open_frame (idx : nat) (params : list string) (tr : t) : res t :=
  let main := m_main_program tr in
  tr ← emit [ins Op_SUB_FRAME_OPEN (u32 (Z.of_nat (length (Program.signatures main))))]
         (set_main tr (Program.set_signatures main (Program.signatures main ++ [params])));
  Ok (push_state OpenSubroutineCall (Z.of_nat idx) tr).

Lemma begin_DO_subroutine_resolve name tparams selector tr tr' :
  begin_DO_subroutine name tparams selector tr = Ok tr' ->
  exists tr1 cs, resolve name tparams selector tr = Ok (tr1, cs) /\
    open_frame (called_index name tparams selector tr) (Subroutine.m_params (called_subroutine cs)) tr1 = Ok tr'.
Proof.
  unfold begin_DO_subroutine, resolve, open_frame, called_index. destruct (StdMap.find _ _) as [sr|]; [|done].
  destruct (if (_ =? _)%nat then _ else _) as [tr1| |]; cbn [mbind res_bind]; try done.
  destruct (_ !! _) as [cs|]; [|done]. intros H. by exists tr1, cs.
Qed.

(** Resolving a name leaves the main program as it is and does not forget a subroutine. *)
Lemma resolve_spec name tparams selector tr tr' cs :
  resolve name tparams selector tr = Ok (tr', cs) ->
  m_main_program tr' = m_main_program tr /\ m_stateStack tr' = m_stateStack tr /\ env_of tr' = env_of tr /\
  same_rest false tr tr' /\ m_calledSubroutines tr' !! called_index name tparams selector tr = Some cs /\
  (cs ∈ m_calledSubroutines tr \/ called_address cs = ProgramCode.size (Program.code (m_sub_program tr))).
Proof.
  unfold resolve, called_index. destruct (StdMap.find _ _) as [sr|]; [|done].
  set (m := mangledSubroutineName _ _ _). set (idx := find_called m _).
  destruct (Nat.eqb_spec idx (length (m_calledSubroutines tr))) as [Hidx|Hidx]; cbn [mbind res_bind].
  - unfold add_called. destruct (negb _); [done|].
    destruct (match tparams with [] => _ | _ => _ end) as [sr'| |]; cbn [mbind res_bind]; try done.
    destruct (Program.add _ _ _) as [sub| |]; cbn [mbind res_bind]; try done.
    cbn [set_called m_calledSubroutines]. rewrite Hidx, list_lookup_middle by done. intros [= <- <-].
    split_and!; try done; [split; try done; by eexists|by apply list_lookup_middle|by right].
  - destruct (_ !! idx) as [c|] eqn:Ec; [|done]. intros [= <- <-]. split_and!; try done.
    left. by eapply list_elem_of_lookup_2.
Qed.

Lemma open_frame_spec idx params tr :
  spec (strict := true) (open_frame idx params) tr
    (mkState OpenSubroutineCall (u32 (Z.of_nat idx)) 0 :: m_stateStack tr)
    [(Co_ALWAYS, Op_SUB_FRAME_OPEN, SSig params)].
Proof.
  unfold open_frame. set (main := m_main_program tr).
  apply (spec_push (fun tr => emit [ins Op_SUB_FRAME_OPEN (u32 (Z.of_nat (length (Program.signatures (m_main_program tr)))))]
    (set_main tr (Program.set_signatures (m_main_program tr) (Program.signatures (m_main_program tr) ++ [params]))))
    tr _ _ OpenSubroutineCall (fun _ => Z.of_nat idx)); [|done].
  intros tr' H. fold main in H. pose proof (emit_step (strict := true) _ _ _ H) as S.
  assert (@step true tr (set_main tr (Program.set_signatures main (Program.signatures main ++ [params]))) (m_stateStack tr) 0) as S1.
  { apply set_main_step; [|done|done]. split; cbn; try done. by eexists. }
  split; [exact (step_trans _ _ _ _ _ _ _ S1 S)|].
  intros Hok Hs. pose proof (step_small _ _ _ _ S Hs) as [_ _ _ _ _ _ _ Hsig _ _ _]. cbn in Hsig.
  rewrite length_app in Hsig. cbn in Hsig.
  assert (pgrows main (Program.set_signatures main (Program.signatures main ++ [params])) []) as G.
  { apply ok_grown; try apply Hok; try done. split; cbn; try done. by eexists. }
  apply (pgrows_trans _ _ _ [] _ G).
  apply (emit_grows _ _ _ _ H (g_ok _ _ _ G)). constructor; [|constructor]. cbn. split_and!; [done| | |done]; cbn; rewrite wrap_small by lia; [lia|].
  apply lookup_snoc_cases. right. split; [lia|done].
Qed.

(** The end of a call, with as many arguments as the subroutine has parameters. *)
Lemma end_DO_subroutine_spec v n ss tr cs :
  m_stateStack tr = mkState OpenSubroutineCall v n :: ss ->
  m_calledSubroutines tr !! Z.to_nat v = Some cs -> 0 <= called_address cs ->
  ospec false end_DO_subroutine tr ss
    (if Z.of_nat (length (Subroutine.m_params (called_subroutine cs))) =? n
     then Some [Call (called_address cs)] else None).
Proof.
  intros Hss Hcs Ha tr'. unfold end_DO_subroutine, top_value. rewrite Hss. cbn [st_id].
  rewrite decide_True by done. cbn [mbind res_bind st_value st_paramcnt]. rewrite Hcs.
  destruct (_ =? n); cbn [negb]; [|done].
  destruct (emit _ tr) as [tr1| |] eqn:E; cbn [mbind res_bind]; try done. intros [= <-].
  pose proof (emit_step (strict := false) _ _ _ E) as S. rewrite Hss in S.
  eexists. split; [done|]. split.
  - destruct S as [L S [] K X]. split; [exact L|cbn; by rewrite S|by split|exact K|exact X].
  - intros Hok Hs. apply (emit_grows _ _ _ tr1 E Hok).
    constructor; [by split_and!|]. constructor; [by split_and!|constructor].
Qed.

(** A call with its arguments. *)
Definition do_subroutine (name : string) (tparams : list string) (selector : string)
    (l : list argument) (tr : t) : res t :=
  tr ← begin_DO_subroutine name tparams selector tr; tr ← each push_arg l tr; end_DO_subroutine tr.

Definition call_nodes (e : env) (cs : CalledSubroutineDef) (l : list argument) : option (list node) :=
  oapp (Some [Ins Op_SUB_FRAME_OPEN (SSig (Subroutine.m_params (called_subroutine cs)))])
    (oapp (arguments_nodes e OpenSubroutineCall l)
       (if Z.of_nat (length (Subroutine.m_params (called_subroutine cs))) =? counted 0 l
        then Some [Call (called_address cs)] else None)).

(** The called subroutines have addresses. *)
Definition called_ok (tr : t) : Prop := Forall (fun cs => 0 <= called_address cs) (m_calledSubroutines tr).

Lemma do_subroutine_spec name tparams selector l tr tr' :
  Forall (fun a => ok_argument a = true) l -> called_ok tr ->
  Z.of_nat (length (m_calledSubroutines tr)) < 2 ^ 31 ->
  do_subroutine name tparams selector l tr = Ok tr' ->
  exists tr1 cs, resolve name tparams selector tr = Ok (tr1, cs) /\
    m_calledSubroutines tr' !! called_index name tparams selector tr = Some cs /\
    outcome false tr tr' (m_stateStack tr) (call_nodes (env_of tr) cs l).
Proof.
  intros Hl Hcs Hlim H. unfold do_subroutine in H.
  destruct (begin_DO_subroutine _ _ _ tr) as [tr2| |] eqn:E1; cbn [mbind res_bind] in H; try done.
  destruct (each push_arg l tr2) as [tr3| |] eqn:E2; cbn [mbind res_bind] in H; try done.
  destruct (begin_DO_subroutine_resolve _ _ _ _ _ E1) as (tr1 & cs & Hr & Ho). exists tr1, cs. split; [done|].
  destruct (resolve_spec _ _ _ _ _ _ Hr) as (Hm & Hss & He & Hrest & Hidx & Ha).
  assert (0 <= called_address cs) as Hcs0.
  { destruct Ha as [Ha | ->]; [|apply wrap_range; lia].
    unfold called_ok in Hcs. rewrite Forall_forall in Hcs. by apply Hcs. }
  set (idx := called_index name tparams selector tr) in *.
  assert (Z.to_nat (u32 (Z.of_nat idx)) = idx) as Hi.
  { assert (idx <= length (m_calledSubroutines tr))%nat; [|rewrite wrap_small; lia].
    unfold idx, called_index. generalize (m_calledSubroutines tr) as c. intros c.
    induction c as [|x c IHc]; cbn; [lia|]. destruct (bool_decide _); lia. }
  pose proof (ospec_spec _ _ _ [Ins _ (SSig _)] (open_frame_spec idx (Subroutine.m_params (called_subroutine cs)) tr1) _ Ho) as O1.
  pose proof O1 as (ns1 & _ & S1 & _).
  pose proof (push_args_spec (env_of tr) OpenSubroutineCall _ l ltac:(done) Hl _ _ tr2
    (eq_trans (env_of_step _ _ _ _ S1) He) (step_stack _ _ _ _ S1) _ E2) as O2.
  pose proof O2 as (ns2 & _ & S2 & _).
  assert (m_calledSubroutines tr3 = m_calledSubroutines tr1) as Hc3.
  { destruct (rest_strict _ _ _ (step_rest _ _ _ _ S1) eq_refl) as (C1 & _).
    destruct (rest_strict _ _ _ (step_rest _ _ _ _ S2) eq_refl) as (C2 & _). congruence. }
  assert (m_calledSubroutines tr3 !! Z.to_nat (u32 (Z.of_nat idx)) = Some cs) as Hl3 by (by rewrite Hi, Hc3).
  pose proof (end_DO_subroutine_spec _ _ _ tr3 cs (step_stack _ _ _ _ S2) Hl3 Hcs0 _ H) as O3.
  pose proof O3 as (ns3 & _ & S3 & _). rewrite Hss in O3. split.
  - eapply prefix_lookup_Some; [|apply (rest_called _ _ _ (step_rest _ _ _ _ S3))]. by rewrite Hc3.
  - pose proof (outcome_seq _ _ _ _ _ _ _ (outcome_weaken _ _ _ _ _ O1)
      (outcome_seq _ _ _ _ _ _ _ (outcome_weaken _ _ _ _ _ O2) O3)) as O.
    fold (call_nodes (env_of tr) cs l) in O. destruct O as (ns & Hns & [L S R K X] & G). exists ns. split; [done|].
    split; [split; [by rewrite <- Hm|done|by eapply same_rest_trans|by rewrite <- Hm|by rewrite <- Hm]|by rewrite <- Hm].
Qed.
