(* ===== verification/TdlGenerated.v ===== *)
(** * Commands, results and values

    The structured code of whole commands of the transaction language, of the printing of
    results and of printed values, as functions of the parsed elements, and the theorem that
    the translator generates it. *)
From S2P Require Import Prelude InstructionSet Variant ValueTupleSet ProgramImage TdlTables SelectorPath ParseUtils TdlProgram Tdl2vm TdlCommand TdlStruct TdlCorrect TdlStatement.
Import Tdl2vm.

(** ** Blocks of output *)

Definition open_ins (path : list string) : list (OpCode * sym) := map (fun p => (Op_OUTPUT_OPEN, STag p)) path.
Definition close_ins (n : nat) : list (OpCode * sym) := replicate n (Op_OUTPUT_CLOSE, SNum 0).

(** The innermost tag is an array. *)
Definition open_array_ins (path : list string) : list (OpCode * sym) :=
  open_ins (removelast path)
    ++ map (fun p => (Op_OUTPUT_OPEN_ARRAY, STag p)) (drop (length path - 1) path).
Definition close_array_ins (n : nat) : list (OpCode * sym) :=
  match n with O => [] | S n' => (Op_OUTPUT_CLOSE_ARRAY, SNum 0) :: close_ins n' end.

Definition block (path : list string) (inner : list node) : list node :=
  inss (open_ins path) ++ inner ++ inss (close_ins (length path)).
Definition array (path : list string) (inner : list node) : list node :=
  inss (open_array_ins path) ++ inner ++ inss (close_array_ins (length path)).

Lemma tags_ins op path : tags op path = map (fun x => (Co_ALWAYS, x.1, x.2)) (map (fun p => (op, STag p)) path).
Proof. by rewrite map_map. Qed.

Lemma closes_ins n : closes n = map (fun x => (Co_ALWAYS, x.1, x.2)) (close_ins n).
Proof. unfold closes, plain, close_ins. induction n as [|n IH]; [done|]. cbn. by rewrite IH. Qed.

Section Blocks.
Context {strict : bool}.

Lemma bracket_spec op1 body op2 tr st ss l o l' :
  ospec true op1 tr (st :: ss) (Some l) ->
  (forall tr1, @step true tr tr1 (st :: ss) (sizes l) -> ospec strict body tr1 (st :: ss) o) ->
  (forall tr1, m_stateStack tr1 = st :: ss -> ospec strict op2 tr1 ss (Some l')) ->
  ospec strict (fun tr => tr ← op1 tr; tr ← body tr; op2 tr) tr ss
    (option_map (fun ns => l ++ ns ++ l') o).
Proof.
  intros H1 Hb H2 tr' H. destruct (op1 tr) as [tr1| |] eqn:E1; cbn [mbind res_bind] in H; try done.
  destruct (body tr1) as [tr2| |] eqn:E2; cbn [mbind res_bind] in H; try done.
  pose proof (H1 _ E1) as O1. pose proof O1 as (ns1 & [= <-] & S1 & _).
  pose proof (Hb _ S1 _ E2) as O2. pose proof O2 as (ns2 & Ho & S2 & _).
  pose proof (H2 _ (step_stack _ _ _ _ S2) _ H) as O3.
  pose proof (outcome_seq _ _ _ _ _ _ _ (outcome_weaken _ _ _ _ _ O1) (outcome_seq _ _ _ _ _ _ _ O2 O3)) as O. by rewrite Ho in O |- *.
Qed.

Lemma block_spec path body o tr :
  (forall tr1 st, m_stateStack tr1 = st :: m_stateStack tr -> @step true tr tr1 (m_stateStack tr1) (length path) ->
     ospec strict body tr1 (m_stateStack tr1) o) ->
  ospec strict (fun tr => tr ← begin_INTO_block path tr; tr ← body tr; end_INTO_block tr) tr (m_stateStack tr)
    (option_map (block path) o).
Proof.
  intros Hb. apply (bracket_spec _ _ _ tr (mkState OpenIntoBlock (Z.of_nat (length path)) 0) (m_stateStack tr)
    (inss (open_ins path)) o (inss (close_ins (length path)))).
  - apply ospec_inss. unfold open_ins. rewrite <- tags_ins. apply begin_INTO_block_spec.
  - intros tr1 S. rewrite <- (step_stack _ _ _ _ S). eapply Hb; [apply (step_stack _ _ _ _ S)|].
    rewrite (step_stack _ _ _ _ S). rewrite sizes_inss in S. unfold open_ins in S. by rewrite length_map in S.
  - intros tr1 Hss. apply ospec_inss. rewrite <- closes_ins. by apply end_INTO_block_spec.
Qed.

Lemma array_spec path body o tr :
  (forall tr1 st, m_stateStack tr1 = st :: m_stateStack tr -> @step true tr tr1 (m_stateStack tr1) (length path) ->
     ospec strict body tr1 (m_stateStack tr1) o) ->
  ospec strict (fun tr => tr ← begin_loop_INTO_block path tr; tr ← body tr; end_loop_INTO_block tr) tr
    (m_stateStack tr) (option_map (array path) o).
Proof.
  intros Hb. assert (map (fun x : OpCode * sym => (Co_ALWAYS, x.1, x.2)) (open_array_ins path) = array_tags path) as Ha.
  { unfold open_array_ins, array_tags, open_ins. by rewrite map_app, <- !tags_ins. }
  apply (bracket_spec _ _ _ tr (mkState OpenIntoBlockArray (Z.of_nat (length path)) 0) (m_stateStack tr)
    (inss (open_array_ins path)) o (inss (close_array_ins (length path)))).
  - apply ospec_inss. rewrite Ha. apply begin_loop_INTO_block_spec.
  - intros tr1 S. rewrite <- (step_stack _ _ _ _ S). eapply Hb; [apply (step_stack _ _ _ _ S)|].
    rewrite (step_stack _ _ _ _ S). by rewrite <- (length_flatten _ 0), flatten_inss, Ha, length_array_tags in S.
  - intros tr1 Hss. apply ospec_inss.
    replace (map _ _) with (array_closes (length path)); [by apply end_loop_INTO_block_spec|].
    destruct (length path); [done|]. cbn. by rewrite closes_ins.
Qed.

(** One instruction without an argument in a table. *)
Lemma emit_one_spec op tr :
  sym_fits (SNum 0) (ProgramFacts.arg_type op) = true ->
  ospec strict (emit [ins0 op]) tr (m_stateStack tr) (Some [Ins op (SNum 0)]).
Proof.
  intros H. apply (ospec_inss _ _ _ [(op, SNum 0)]). apply (spec_emit_plain [(Co_ALWAYS, op, 0)]).
  cbn [forallb plain_ok fst snd]. unfold plain_ok. cbn [fst snd]. by rewrite H.
Qed.

(** The loop over the last result. *)
Definition result_loop (isLoop : bool) : node :=
  Loop Op_OPEN_ITER_LAST_RESULT (SNum 0)
    (if isLoop then [Ins Op_OUTPUT_OPEN_ELEM (SNum 0); Ins Op_OUTPUT_ITR_COLUMN (SNum 0); Ins Op_OUTPUT_CLOSE_ELEM (SNum 0)]
     else [Ins Op_OUTPUT_ITR_COLUMN (SNum 0)]).

Lemma app_code_app c l l' : app_code c (l ++ l') = (c ← app_code c l; app_code c l').
Proof.
  revert c. induction l as [|[[cc op] a] l IH]; intros c; [done|]. cbn.
  destruct (ProgramCode.app_cond _ _ _ _); cbn; [apply IH|done|done].
Qed.

Lemma emit_app l l' tr : emit (l ++ l') tr = (tr ← emit l tr; emit l' tr).
Proof.
  unfold emit. rewrite app_code_app. destruct (app_code _ l) as [c| |]; by cbn.
Qed.

Definition result_code (isLoop : bool) (n : Z) : list instr3 :=
  let skip := u32 (n + 5) in
  let skip := if isLoop then u32 (skip + 2) else skip in
  [ins0 Op_OPEN_ITER_LAST_RESULT; (Co_NOT_IF_COND, Op_GOTO, skip)]
    ++ (if isLoop then [ins0 Op_OUTPUT_OPEN_ELEM] else []) ++ [ins0 Op_OUTPUT_ITR_COLUMN]
    ++ (if isLoop then [ins0 Op_OUTPUT_CLOSE_ELEM] else [])
    ++ [ins0 Op_NEXT; (Co_IF_COND, Op_GOTO, u32 (n + 2))].

Lemma output_statement_result_emit isLoop tr :
  output_statement_result isLoop tr = emit (result_code isLoop (main_size tr)) tr.
Proof.
  unfold output_statement_result, result_code. destruct isLoop; rewrite ?app_nil_l; cbv zeta;
    repeat (rewrite emit_app;
            match goal with |- context [emit ?l ?tr] => destruct (emit l tr) as [?| |]; cbn [mbind res_bind]; try done end);
    done.
Qed.

(** The printing of a result is a loop: the precomputed jumps have the right targets. *)
Lemma output_statement_result_spec isLoop tr :
  ospec strict (output_statement_result isLoop) tr (m_stateStack tr) (Some [result_loop isLoop]).
Proof.
  apply ospec_spec. intros tr'. rewrite output_statement_result_emit. intros H. split.
  - replace (length (flatten _ _)) with (length (result_code isLoop (main_size tr))); [by apply emit_step|].
    rewrite length_flatten. by destruct isLoop.
  - intros Hok Hs. apply (emit_grows _ _ _ _ H Hok).
    pose proof (emit_step (strict := strict) _ _ _ H) as S.
    pose proof (ProgramFacts.small_code _ Hs) as Hc. rewrite (step_len _ _ _ _ S) in Hc.
    rewrite (main_size_small _ (step_small _ _ _ _ S Hs)). cbn [flatten]. rewrite app_nil_r.
    unfold result_loop. rewrite flatten1_Loop. unfold result_code. destruct isLoop.
    + rewrite (wrap_small 32 (_ + 5)), !wrap_small by (cbn in Hc; lia). cbn.
      repeat (constructor; [split_and!; cbn; lia || done|]). constructor.
    + rewrite !wrap_small by (cbn in Hc; lia). cbn.
      repeat (constructor; [split_and!; cbn; lia || done|]). constructor.
Qed.
End Blocks.

(** ** Results *)

Definition has_selector (cmd : CommandDefinition) : bool := negb (bool_decide (cmd_selector cmd = ""%string)).

(** A result is printed as an array unless it is unique and the command is not iterated; a
    path that is a dot opens no block. *)
Definition print_result_nodes (cmd : CommandDefinition) : list node :=
  let path := cmd_resultpath cmd in
  match path with
  | [] => []
  | _ => if negb (hasIntoBlock path) then block [] [result_loop false]
         else if negb (cmd_unique cmd) || has_selector cmd then array path [result_loop true]
         else block path [result_loop false]
  end.

Lemma print_result_spec strict cmd tr :
  ospec strict (print_result cmd) tr (m_stateStack tr) (Some (print_result_nodes cmd)).
Proof.
  unfold print_result, print_result_nodes, has_selector. set (path := cmd_resultpath cmd).
  assert (forall path, ospec strict (fun tr => tr ← begin_INTO_block path tr;
    tr ← output_statement_result false tr; end_INTO_block tr) tr (m_stateStack tr)
    (Some (block path [result_loop false]))) as Hb.
  { intros p. apply (block_spec p _ (Some _)). intros tr1 st _ _. apply output_statement_result_spec. }
  destruct path as [|p path'] eqn:E; [apply ospec_ret|]. destruct (negb (hasIntoBlock _)); [apply Hb|].
  destruct (_ || _); [|apply Hb]. apply (array_spec (p :: path') _ (Some _)).
  intros tr1 st _ _. apply output_statement_result_spec.
Qed.

(** ** Printed values *)

Definition value_ins (e : env) (elem : ElementReference.t) (colname : string) : option (list (OpCode * sym)) :=
  let sel := ElementReference.selector elem in
  match ElementReference.type elem with
  | ElementReference.SelectorPath => Some [(Op_OUTPUT_PATH, SPath sel)]
  | ElementReference.LoopCounter =>
      Some [(Op_OUTPUT_LOOPCNT, SNum 0); (Op_OUTPUT_CONST, SConst (const_value sel))]
  | ElementReference.Constant => Some [(Op_OUTPUT_CONST, SConst (const_value sel))]
  | ElementReference.NamedSetElement => with_set e (Some sel) Op_OUTPUT_SEL_NAM (SColumn colname)
  | ElementReference.IndexSetElement =>
      with_set e (Some sel) Op_OUTPUT_SEL_IDX (SNum (u32 (ElementReference.index elem)))
  end.

(** The text of a reference has no null character. *)
Definition ok_element (elem : ElementReference.t) : bool := bool_decide (nul ∉ chars (ElementReference.selector elem)).

Lemma output_CONST_spec v tr :
  ospec true (output_ARGUMENT_CONST v) tr (m_stateStack tr) (Some (inss [(Op_OUTPUT_CONST, SConst v)])).
Proof.
  eapply ospec_ext; [|exact (enter_emit_with Op_OUTPUT_CONST None (SConst v) tr eq_refl eq_refl)].
  unfold output_ARGUMENT_CONST. cbn [enter mbind res_bind]. by destruct (add_constant v tr).
Qed.

Lemma u32_nonneg x : (0 <=? u32 x) = true.
Proof. apply Z.leb_le, wrap_range. lia. Qed.

Lemma output_elem_spec elem colname tr :
  ok_element elem = true ->
  ospec true (output_elem elem colname) tr (m_stateStack tr)
    (option_map inss (value_ins (env_of tr) elem colname)).
Proof.
  intros Hok. unfold output_elem, value_ins. destruct (ElementReference.type elem).
  - apply (ospec_ext (fun tr => '(tr, idx) ← enter (SPath (ElementReference.selector elem)) tr; emit_with Op_OUTPUT_PATH None idx tr));
      [done|]. apply (enter_emit_with Op_OUTPUT_PATH None (SPath _)); [exact Hok|done].
  - apply (ospec_seq output_ARGUMENT_LOOPCNT (output_ARGUMENT_CONST (const_value (ElementReference.selector elem))) tr
             (m_stateStack tr) _ (Some [_]) (Some [_])).
    + by apply emit_one_spec.
    + intros tr1 ns1 _ S. rewrite <- (step_stack _ _ _ _ S). apply output_CONST_spec.
  - apply output_CONST_spec.
  - apply (ospec_ext (fun tr => '(tr, idx) ← enter (SColumn colname) tr;
      emit_with Op_OUTPUT_SEL_NAM (Some (ElementReference.selector elem)) idx tr)); [done|].
    by apply (enter_emit_with Op_OUTPUT_SEL_NAM (Some _) (SColumn colname)).
  - apply (enter_emit_with Op_OUTPUT_SEL_IDX (Some (ElementReference.selector elem)) (SNum _)); [apply u32_nonneg|done].
Qed.

(** [PRINT]: the value in the block of its path. *)
Definition print_value_nodes (e : env) (elem : ElementReference.t) (path : list string) : option (list node) :=
  option_map (fun l => if hasIntoBlock path then block path (inss l) else inss l)
    (value_ins e elem (ElementReference.name elem)).

Lemma print_value_spec elem path tr :
  ok_element elem = true ->
  ospec true (print_value elem path) tr (m_stateStack tr) (print_value_nodes (env_of tr) elem path).
Proof.
  intros Hok. unfold print_value, print_value_nodes, when. destruct (hasIntoBlock path).
  - replace (option_map _ (value_ins _ _ _)) with (option_map (block path) (option_map inss
      (value_ins (env_of tr) elem (ElementReference.name elem)))) by (by destruct (value_ins _ _ _)).
    apply block_spec. intros tr1 st _ S. rewrite <- (env_of_step _ _ _ _ S). by apply output_elem_spec.
  - eapply ospec_ext; [|by apply output_elem_spec]. cbn [mbind res_bind].
    by destruct (output_elem _ _ _).
Qed.

(** A parameter of an audit function: the column of a named element is that of the
    parameter's own name. *)
Definition print_audit_param_nodes (e : env) (pi : AuditElementReference) : option (list node) :=
  let n := audit_name pi in
  option_map (fun l => if bool_decide (n = ""%string) || bool_decide (n = "."%string) then inss l else block [n] (inss l))
    (value_ins e (audit_ref pi) n).

Lemma print_audit_param_spec pi tr :
  ok_element (audit_ref pi) = true ->
  ospec true (print_audit_param pi) tr (m_stateStack tr) (print_audit_param_nodes (env_of tr) pi).
Proof.
  intros Hok. unfold print_audit_param, print_audit_param_nodes, when. set (n := audit_name pi).
  destruct (_ || _); cbn [negb].
  - eapply ospec_ext; [|by apply output_elem_spec]. cbn [mbind res_bind]. by destruct (output_elem _ _ _).
  - replace (option_map _ (value_ins _ _ _)) with (option_map (block [n]) (option_map inss
      (value_ins (env_of tr) (audit_ref pi) n))) by (by destruct (value_ins _ _ _)).
    eapply ospec_ext; [|apply (block_spec [n] (output_elem (audit_ref pi) n))].
    + unfold begin_INTO_block, begin_INTO_block_name. cbn [open_tags].
      by destruct (open_tag _ n tr).
    + intros tr1 st _ S. rewrite <- (env_of_step _ _ _ _ S). by apply output_elem_spec.
Qed.

(** ** Commands *)

Definition command_arguments (cmd : CommandDefinition) : list argument :=
  concat (map (param_arguments (cmd_selector cmd))
    (if cmd_embedded cmd then stm_params (cmd_statement cmd) else call_params (cmd_call cmd))).

(** The loop of a FOREACH around the code of a command. *)
Definition iterated (e : env) (cmd : CommandDefinition) (o : option (list node)) : option (list node) :=
  if has_selector cmd then
    match foreach_open (e_kept e) (cmd_selector cmd), o with
    | Some (op, s), Some ns => Some [Loop op s ns]
    | _, _ => None
    end
  else o.

Definition embedded_nodes (e : env) (cmd : CommandDefinition) : option (list node) :=
  oapp (iterated e cmd (statement_nodes e (stm_stmstring (cmd_statement cmd)) (cmd_hints cmd) (command_arguments cmd)))
    (Some (print_result_nodes cmd)).

(** A call that is iterated over prints an array of its results. *)
Definition calling_nodes (e : env) (target : option CalledSubroutineDef) (cmd : CommandDefinition)
    : option (list node) :=
  let path := cmd_resultpath cmd in
  let call := match target with Some cs => call_nodes e cs (command_arguments cmd) | None => None end in
  if hasIntoBlock path then
    if has_selector cmd then
      option_map (array path) (iterated e cmd
        (option_map (fun ns => [Ins Op_OUTPUT_OPEN_ELEM (SNum 0)] ++ ns ++ [Ins Op_OUTPUT_CLOSE_ELEM (SNum 0)]) call))
    else option_map (block path) call
  else iterated e cmd call.

(** The constraints of the result; both have the same instruction. *)
Definition constraint_ins (cmd : CommandDefinition) : list (OpCode * sym) :=
  [(Op_RESULT_SET_INIT, SNum 0)]
    ++ (if cmd_nonempty cmd then [(Op_RESULT_CONSTRAINT_UNIQUE, SNum 0)] else [])
    ++ (if cmd_unique cmd then [(Op_RESULT_CONSTRAINT_UNIQUE, SNum 0)] else []).

(** The subroutine a command calls. *)
Definition call_target (cmd : CommandDefinition) (tr : t) : option CalledSubroutineDef :=
  match SelectorPath.normalize (cmd_selector cmd) with
  | Ok selector =>
      match resolve (call_name (cmd_call cmd)) (call_templateparams (cmd_call cmd)) selector tr with
      | Ok (_, cs) => Some cs
      | _ => None
      end
  | _ => None
  end.

Definition command_nodes (e : env) (target : option CalledSubroutineDef) (cmd : CommandDefinition)
    : option (list node) :=
  oapp (Some (inss (constraint_ins cmd)))
    (if cmd_embedded cmd then embedded_nodes e cmd else calling_nodes e target cmd).

(** The texts of a command have no null characters. *)
Definition ok_command (cmd : CommandDefinition) : bool :=
  bool_decide (nul ∉ chars (cmd_selector cmd)) &&
  forallb ok_element (stm_params (cmd_statement cmd)) && forallb ok_element (call_params (cmd_call cmd)).

Lemma param_arguments_ok cs pi : ok_element pi = true -> Forall (fun a => ok_argument a = true) (param_arguments cs pi).
Proof.
  intros Hok. unfold ok_element in Hok. unfold param_arguments.
  destruct (ElementReference.type pi); try destruct (is_iterated _ _); repeat constructor; unfold ok_argument; cbn;
    rewrite ?Hok, ?u32_nonneg; done.
Qed.

Lemma command_arguments_ok cmd : ok_command cmd = true -> Forall (fun a => ok_argument a = true) (command_arguments cmd).
Proof.
  unfold ok_command, command_arguments. rewrite !andb_true_iff, !forallb_forall. intros [[_ H1] H2].
  apply Forall_concat, Forall_map, Forall_forall. intros pi Hpi. apply param_arguments_ok.
  destruct (cmd_embedded cmd); [apply H1|apply H2]; by apply list_elem_of_In.
Qed.

(** *** The translator generates the code of a command *)

Definition nonul (s : string) : Prop := nul ∉ chars s.

Lemma foreach_ospec strict selector body o tr e :
  nonul selector -> env_of tr = e ->
  (forall tr1, @step true tr tr1 (m_stateStack tr1) 2 -> ospec strict body tr1 (m_stateStack tr1) o) ->
  ospec strict (foreach selector body) tr (m_stateStack tr)
    (match foreach_open (e_kept e) selector, o with
     | Some (op, s), Some ns => Some [Loop op s ns]
     | _, _ => None
     end).
Proof.
  intros Hnul <- Hb tr' H. pose proof H as H'. unfold foreach, begin_FOREACH in H.
  destruct (open_iterator selector tr) as [[tr0 x]| |] eqn:E1; cbn [mbind res_bind] in H; try done.
  destruct (emit _ tr0) as [tr1| |] eqn:E2; cbn [mbind res_bind] in H; try done.
  destruct (open_iterator_spec (strict := true) _ _ _ _ _ Hnul E1 E2) as (op & s & Hopen & S1 & _).
  cbn [e_kept env_of]. rewrite Hopen.
  destruct (body _) as [tr2| |] eqn:E3 in H; cbn [mbind res_bind] in H; try done.
  destruct (Hb (push_state OpenForeach (main_size tr1) tr1)) with (tr' := tr2) as (ns & -> & _); [by eapply step_set_stack|done|].
  apply (ospec_spec (foreach selector body)); [|done].
  apply (foreach_spec selector body ns tr Hnul); [|done]. intros tr3 v _ S3. by apply spec_ospec, Hb.
Qed.

Lemma iterated_spec strict cmd body o tr e :
  nonul (cmd_selector cmd) -> env_of tr = e ->
  (forall tr1, env_of tr1 = e -> (exists n, @step true tr tr1 (m_stateStack tr1) n) -> ospec strict body tr1 (m_stateStack tr1) o) ->
  ospec strict (fun tr =>
    tr ← when (has_selector cmd) (begin_FOREACH (cmd_selector cmd)) tr; tr ← body tr;
    when (has_selector cmd) end_FOREACH tr) tr (m_stateStack tr) (iterated e cmd o).
Proof.
  intros Hnul He Hb. unfold iterated, when. destruct (has_selector cmd).
  - apply (foreach_ospec strict _ body o tr e Hnul He). intros tr1 S1. apply Hb; [|by eexists].
    rewrite <- He. by eapply env_of_step.
  - eapply ospec_ext; [|apply Hb; [done|]].
    + cbn [mbind res_bind]. by destruct (body tr).
    + exists 0%nat. apply step_refl.
Qed.

(** Two sequences of the same operations: step by step. *)
Ltac first_step x :=
  lazymatch x with
  | mbind _ ?y => first_step y
  | _ => destruct x; try done
  end.

Ltac same_steps :=
  repeat (cbn [mbind res_bind when]; rewrite <- ?each_push_param;
          match goal with |- mbind ?f ?x = _ => first_step (mbind f x) end);
  try (cbn [mbind res_bind]; match goal with |- ?x = _ => destruct x; done end).

Lemma command_selector_ok cmd : ok_command cmd = true -> nonul (cmd_selector cmd).
Proof. unfold ok_command. rewrite !andb_true_iff. intros [[H _] _]. by apply bool_decide_eq_true in H. Qed.

Lemma embedded_spec cmd tr :
  ok_command cmd = true -> cmd_embedded cmd = true ->
  ospec false (add_embedded cmd) tr (m_stateStack tr) (embedded_nodes (env_of tr) cmd) .
Proof.
  intros Hok Hem. unfold embedded_nodes.
  eapply (ospec_ext (fun tr => tr ← (fun tr => tr ← when (has_selector cmd) (begin_FOREACH (cmd_selector cmd)) tr;
    tr ← do_statement (stm_stmstring (cmd_statement cmd)) (cmd_hints cmd) (command_arguments cmd) tr;
    when (has_selector cmd) end_FOREACH tr) tr; print_result cmd tr)).
  - unfold add_embedded, do_statement, command_arguments, add_hints. rewrite Hem. fold (has_selector cmd). same_steps.
  - eapply (ospec_seq _ _ _ (m_stateStack tr)).
    + apply iterated_spec; [by apply command_selector_ok|done|].
      intros tr1 He _. rewrite <- He. by apply do_statement_spec, command_arguments_ok.
    + intros tr1 ns1 _ S. rewrite <- (step_stack _ _ _ _ S). apply print_result_spec.
Qed.

(** The part of a command that calls the subroutine. *)
Definition do_call (cmd : CommandDefinition) (tr : t) : res t :=
  selector ← SelectorPath.normalize (cmd_selector cmd);
  do_subroutine (call_name (cmd_call cmd)) (call_templateparams (cmd_call cmd)) selector
    (command_arguments cmd) tr.

(** The table of the called subroutines is well formed. *)
Definition called_fits (tr : t) : Prop :=
  called_ok tr /\ Z.of_nat (length (m_calledSubroutines tr)) < 2 ^ 31.

Lemma called_fits_step tr tr' ss n : @step true tr tr' ss n -> called_fits tr -> called_fits tr'.
Proof.
  intros [_ _ [_ _ _ Hs] _ _] H. destruct (Hs eq_refl) as (Hc & _). unfold called_fits, called_ok. by rewrite Hc.
Qed.

Lemma resolve_step tr tr1 tr' ss n name tparams selector cs :
  @step true tr tr1 ss n -> resolve name tparams selector tr1 = Ok (tr', cs) ->
  exists tr2, resolve name tparams selector tr = Ok (tr2, cs).
Proof.
  intros [_ _ [Hm _ _ Hs] _ _]. destruct (Hs eq_refl) as (Hc & Hsub & _). unfold resolve. rewrite Hm, Hc.
  destruct (StdMap.find _ _) as [sr|]; [|done]. destruct (_ =? _)%nat; cbn [mbind res_bind].
  - unfold add_called. rewrite Hsub. destruct (negb _); [done|].
    destruct (match tparams with [] => _ | _ => _ end) as [sr'| |]; cbn [mbind res_bind]; try done.
    destruct (Program.add _ _ _) as [sub| |]; cbn [mbind res_bind]; try done.
    cbn [set_called m_calledSubroutines]. rewrite Hc. destruct (_ !! _); [|done]. intros [= _ ->]. by eexists.
  - rewrite Hc. destruct (_ !! _); [|done]. intros [= _ ->]. by eexists.
Qed.

Lemma do_call_spec cmd tr0 tr n :
  ok_command cmd = true -> called_fits tr0 -> @step true tr0 tr (m_stateStack tr) n ->
  ospec false (do_call cmd) tr (m_stateStack tr)
    (match call_target cmd tr0 with
     | Some cs => call_nodes (env_of tr0) cs (command_arguments cmd)
     | None => None
     end).
Proof.
  intros Hok Hf S tr' H. unfold do_call in H. unfold call_target.
  destruct (SelectorPath.normalize _) as [selector| |]; cbn [mbind res_bind] in H; try done.
  destruct (called_fits_step _ _ _ _ S Hf) as [Hf1 Hf2].
  destruct (do_subroutine_spec _ _ _ _ _ _ (command_arguments_ok _ Hok) Hf1 Hf2 H) as (tr1 & cs & Hr & _ & O).
  destruct (resolve_step _ _ _ _ _ _ _ _ _ S Hr) as [tr2 ->]. by rewrite <- (env_of_step _ _ _ _ S).
Qed.

(** An element of an array around a call. *)
Lemma loop_element_spec strict body o tr :
  (forall tr1, @step true tr tr1 (m_stateStack tr1) 1 -> ospec strict body tr1 (m_stateStack tr1) o) ->
  ospec strict (fun tr => tr ← begin_loop_element tr; tr ← body tr; end_loop_element tr) tr (m_stateStack tr)
    (option_map (fun ns => [Ins Op_OUTPUT_OPEN_ELEM (SNum 0)] ++ ns ++ [Ins Op_OUTPUT_CLOSE_ELEM (SNum 0)]) o).
Proof.
  intros Hb. apply (bracket_spec _ _ _ tr (mkState OpenLoopElement 0 0) (m_stateStack tr)).
  - apply (ospec_inss _ _ _ [(_, _)]), begin_loop_element_spec.
  - intros tr1 S. rewrite <- (step_stack _ _ _ _ S). apply Hb. by rewrite (step_stack _ _ _ _ S).
  - intros tr1 Hss. apply (ospec_inss _ _ _ [(_, _)]). by apply end_loop_element_spec.
Qed.

Ltac calls Hem path Ei Es :=
  unfold add_call, foreach, do_call, do_subroutine, command_arguments; rewrite Hem; fold path; rewrite Ei;
  match type of Es with has_selector ?cmd = _ => fold (has_selector cmd) end; rewrite Es; cbn [andb when];
  same_steps.

Lemma call_command_spec cmd tr0 tr n :
  ok_command cmd = true -> cmd_embedded cmd = false -> called_fits tr0 ->
  @step true tr0 tr (m_stateStack tr) n ->
  ospec false (add_call cmd) tr (m_stateStack tr) (calling_nodes (env_of tr0) (call_target cmd tr0) cmd).
Proof.
  intros Hok Hem Hf S. unfold calling_nodes. set (path := cmd_resultpath cmd).
  set (call := match call_target cmd tr0 with Some cs => _ | None => None end).
  assert (forall tr1 n1, @step true tr tr1 (m_stateStack tr1) n1 -> ospec false (do_call cmd) tr1 (m_stateStack tr1) call) as Hcall.
  { intros tr1 n1 S1. eapply do_call_spec; [done|done|exact (step_trans _ _ _ _ _ _ _ S S1)]. }
  assert (forall tr1 tr2 n1 n2, @step true tr tr1 (m_stateStack tr1) n1 -> @step true tr1 tr2 (m_stateStack tr2) n2 ->
    @step true tr tr2 (m_stateStack tr2) (n1 + n2)) as Htrans.
  { intros tr1 tr2 n1 n2 S1 S2. exact (step_trans _ _ _ _ _ _ _ S1 S2). }
  pose proof (command_selector_ok _ Hok) as Hnul. pose proof (env_of_step _ _ _ _ S) as He.
  unfold iterated. fold (has_selector cmd).
  destruct (hasIntoBlock path) eqn:Ei; destruct (has_selector cmd) eqn:Es.
  - eapply (ospec_ext (fun tr => tr ← begin_loop_INTO_block path tr; tr ← foreach (cmd_selector cmd)
      (fun tr => tr ← begin_loop_element tr; tr ← do_call cmd tr; end_loop_element tr) tr; end_loop_INTO_block tr)).
    + calls Hem path Ei Es.
    + apply array_spec. intros tr1 st _ S1. apply foreach_ospec; [done|by rewrite (env_of_step _ _ _ _ S1)|].
      intros tr2 S2. apply loop_element_spec. intros tr3 S3. by eapply Hcall, Htrans, S3; eapply Htrans.
  - eapply (ospec_ext (fun tr => tr ← begin_INTO_block path tr; tr ← do_call cmd tr; end_INTO_block tr)).
    + calls Hem path Ei Es.
    + apply block_spec. intros tr1 st _ S1. by eapply Hcall.
  - eapply (ospec_ext (foreach (cmd_selector cmd) (do_call cmd))).
    + calls Hem path Ei Es.
    + apply foreach_ospec; [done|done|]. intros tr1 S1. by eapply Hcall.
  - eapply (ospec_ext (do_call cmd)).
    + calls Hem path Ei Es.
    + apply (Hcall tr 0%nat), step_refl.
Qed.

(** The conditions on the translator under which its tables are within their bounds. *)
Lemma command_spec cmd tr :
  ok_command cmd = true -> called_fits tr ->
  ospec false (programAddCommandDefinition cmd) tr (m_stateStack tr)
    (command_nodes (env_of tr) (call_target cmd tr) cmd).
Proof.
  intros Hok Hf. unfold command_nodes, constraint_ins.
  set (constraints := fun tr => tr ← init_resultset tr; tr ← when (cmd_nonempty cmd) define_resultset_nonempty tr;
    when (cmd_unique cmd) define_resultset_unique tr).
  eapply (ospec_ext (fun tr => tr ← constraints tr;
    if cmd_embedded cmd then add_embedded cmd tr else add_call cmd tr)).
  { unfold programAddCommandDefinition, constraints. same_steps. }
  assert (ospec true constraints tr (m_stateStack tr) (Some (inss ([(Op_RESULT_SET_INIT, SNum 0)]
    ++ (if cmd_nonempty cmd then [(Op_RESULT_CONSTRAINT_UNIQUE, SNum 0)] else [])
    ++ (if cmd_unique cmd then [(Op_RESULT_CONSTRAINT_UNIQUE, SNum 0)] else []))))) as Hc.
  { unfold inss. rewrite !map_app. 
    apply (ospec_seq init_resultset _ tr (m_stateStack tr) _ (Some [_])
      (Some (inss (if cmd_nonempty cmd then _ else _) ++ inss (if cmd_unique cmd then _ else _)))); [by apply emit_one_spec|].
    intros tr1 ns1 _ S1. rewrite <- (step_stack _ _ _ _ S1).
    apply (ospec_seq (when (cmd_nonempty cmd) define_resultset_nonempty) _ tr1 (m_stateStack tr1) _ (Some _) (Some _)).
    - destruct (cmd_nonempty cmd); [by apply emit_one_spec|apply ospec_ret].
    - intros tr2 ns2 _ S2. rewrite <- (step_stack _ _ _ _ S2).
      destruct (cmd_unique cmd); [by apply emit_one_spec|apply ospec_ret]. }
  intros tr' H. destruct (constraints tr) as [tr1| |] eqn:E; cbn [mbind res_bind] in H; try done.
  pose proof (Hc _ E) as O1. eapply outcome_seq; [by apply outcome_weaken|].
  destruct O1 as (ns1 & _ & S1 & _). rewrite <- (step_stack _ _ _ _ S1) in S1 |- *.
  destruct (cmd_embedded cmd) eqn:Hem.
  - rewrite <- (env_of_step _ _ _ _ S1). by apply embedded_spec.
  - by apply (call_command_spec cmd tr tr1 _ Hok Hem Hf S1).
Qed.

(** ** Commands of the language *)


(** [FOREACH a/b DO INSERT INTO t (x,y) VALUES ($1,'z')] into [r], with UNIQUE. *)
Definition example_command : CommandDefinition :=
  mkCommandDefinition "a/b"
    (mkEmbeddedStatement "INSERT INTO t (x,y) VALUES ($1,$2)"
       [ElementReference.of_selector ElementReference.SelectorPath "id";
        ElementReference.of_selector ElementReference.Constant "z"])
    SubroutineCallStatement_empty ["r"%string] false true true [].

