(* ===== verification/TdlLink.v ===== *)
(** * Linking

    The code of the called subroutines and the code of the main program are put together:
    every subroutine is at the address it is called at, and the main program is moved behind
    the subroutines with its loops relocated and its calls kept. *)
From S2P Require Import Prelude InstructionSet Variant ValueTupleSet ProgramImage TdlTables SelectorPath ParseUtils TdlProgram Tdl2vm TdlCommand TdlStruct TdlCorrect TdlStatement TdlGenerated.
Import Tdl2vm.
#[local] Set Warnings "-register-all".

(** ** Joining keeps the meaning of symbolic instructions *)

Lemma name_entry_same oth nt nam a a' :
  NameTableFacts.renamed oth nt a a' -> name_entry oth nam a -> name_entry nt nam a'.
Proof.
  intros (n & m & nam1 & nam2 & -> & -> & H1 & H2 & He) (n' & nam' & Ha & Hn & He').
  assert (n' = n) as -> by lia. rewrite H1 in Hn. injection Hn as <-.
  exists m, nam2. split_and!; [done|done|]. by eapply iequals_trans.
Qed.

Lemma path_of_same tab tab' selector q q' :
  SelectorPathFacts.same_path tab tab' q q' -> path_of tab selector q -> path_of tab' selector q'.
Proof.
  intros Hsp [[H ->]|(s & Hs & He)]; [left; by inversion Hsp|]. right.
  destruct (SelectorPathFacts.same_path_tostring _ _ _ _ _ Hsp Hs) as (s' & Hs' & Hi).
  exists s'. split; [done|]. apply orb_true_iff in He. apply orb_true_iff.
  apply iequals_sym in Hi. destruct He as [He|He]; [left|right]; [by eapply iequals_trans|].
  eapply iequals_trans; [|exact He]. by apply iequals_app.
Qed.

Lemma same_path_ok tab tab' q q' : SelectorPathFacts.same_path tab tab' q q' -> SelectorPathFacts.ok_path tab' q'.
Proof.
  intros H. induction H as [|e e' q q' [_ Ht] Hq IH]; constructor; [|done].
  destruct Ht as [[_ ->]|(n & n' & _ & H2 & _)]; [by left|]. right. by exists n'.
Qed.

(** An argument that refers to the same thing has the same symbolic form. *)
Lemma sym_ok_same p p' s a a' at_ :
  sym_fits s at_ = true -> ProgramFacts.same_arg p p' 0 at_ a a' -> sym_ok p s a -> sym_ok p' s a'.
Proof.
  intros Hf Hs. destruct s; destruct at_; try done; cbn in Hs |- *; intros Hsym;
    try (by eapply name_entry_same); try (by subst; rewrite ?Z.add_0_r); try (by rewrite Hs).
  - destruct Hsym as (Ha & q & Hq & Hq1 & Hq2). destruct Hs as (Ha' & q1 & q' & H1 & H2 & Hsp).
    rewrite Hq in H1. injection H1 as <-. split; [done|]. exists q'.
    split_and!; [done|by eapply same_path_ok|by eapply path_of_same].
  - destruct Hs as [Ha' ->]. by destruct Hsym.
Qed.

Lemma senc_same p p' x i i' : ProgramFacts.same_instr p p' 0 i i' -> senc p x i -> senc p' x i'.
Proof.
  destruct x as [[c op] s]. intros (c1 & op1 & a & a' & Ha & Ha' & Hi & Hi' & Hs) (a1 & Ha1 & Hi1 & Hsym & Hf).
  destruct (ProgramFacts.instruction_inj _ _ _ _ _ _ _ Ha Ha1 Hi Hi1) as (<- & <- & <-).
  exists a'. split_and!; try done. by eapply sym_ok_same.
Qed.

(** ** Moving structured code *)

(** Nodes whose instructions neither jump nor close a frame. *)
Definition ok_op (op : OpCode) : bool :=
  negb (bool_decide (ProgramFacts.arg_type op = At_Address)) && negb (bool_decide (op = Op_SUB_FRAME_CLOSE)).

Inductive ok_node : node -> Prop :=
| ok_Ins op s : ok_op op = true -> ok_node (Ins op s)
| ok_Loop op s body : ok_op op = true -> Forall ok_node body -> ok_node (Loop op s body)
| ok_Call a : ok_node (Call a).

(** The loop of the code over the instructions, on symbolic ones. *)
Fixpoint move_jumps (k : Z) (behind_close : bool) (l : list sinstr) : list sinstr :=
  match l with
  | [] => []
  | (c, op, s) :: l' =>
      (c, op, match s with
              | SNum a => if bool_decide (ProgramFacts.arg_type op = At_Address) && negb behind_close
                          then SNum (a + k) else s
              | _ => s
              end) :: move_jumps k (bool_decide (op = Op_SUB_FRAME_CLOSE)) l'
  end.

Lemma move_jumps_ins k b c op s l :
  ok_op op = true -> move_jumps k b ((c, op, s) :: l) = (c, op, s) :: move_jumps k false l.
Proof.
  unfold ok_op. rewrite andb_true_iff, !negb_true_iff. intros [H1 H2]. cbn [move_jumps]. rewrite H1, H2. cbn [andb].
  by destruct s.
Qed.

Lemma move_jumps_nodes k ns :
  Forall (fun n => forall o l, move_jumps k false (flatten1 o n ++ l) = flatten1 (o + k) n ++ move_jumps k false l) ns ->
  forall o l, move_jumps k false (flatten o ns ++ l) = flatten (o + k) ns ++ move_jumps k false l.
Proof.
  induction 1 as [|n ns Hn Hns IH]; intros o l; [done|]. cbn [flatten]. rewrite <- !app_assoc, Hn, IH.
  by replace (o + k + Z.of_nat (node_size n)) with (o + Z.of_nat (node_size n) + k) by lia.
Qed.

(** Moving the code of a tree: its loops jump to their new place, its calls are kept. *)
Lemma move_jumps_node k n : ok_node n ->
  forall o l, move_jumps k false (flatten1 o n ++ l) = flatten1 (o + k) n ++ move_jumps k false l.
Proof.
  induction n as [op s|op s body IH|a] using node_ind'; intros Hn o l; inversion Hn; subst.
  - cbn [flatten1 app]. by rewrite move_jumps_ins.
  - rewrite !flatten1_Loop, <- !app_assoc. cbn [app]. rewrite move_jumps_ins by done. f_equal.
    change (move_jumps k false (?i :: ?l)) with (move_jumps k false ([i] ++ l)). cbn [app move_jumps].
    rewrite bool_decide_true, bool_decide_false by done. cbn [andb negb]. f_equal.
    { f_equal. f_equal. lia. }
    rewrite move_jumps_nodes.
    + by replace (o + k + 2) with (o + 2 + k) by lia.
    + match goal with H : Forall ok_node body |- _ => rename H into Hbody end.
      rewrite Forall_forall in *. intros n Hin. by apply IH, Hbody.
  - reflexivity.
Qed.

Lemma move_jumps_flatten k ns o :
  Forall ok_node ns -> move_jumps k false (flatten o ns) = flatten (o + k) ns.
Proof.
  intros H. rewrite <- (app_nil_r (flatten o ns)), <- (app_nil_r (flatten (o + k) ns)).
  rewrite move_jumps_nodes; [done|]. eapply Forall_impl; [exact H|]. intros n Hn o' l. by apply move_jumps_node.
Qed.

(** The loop that moves the jumps moves those of the symbolic instructions. *)
Lemma patch_gotos_senc p k l : forall c c' last,
  0 <= k < 2 ^ 31 -> Forall2 (senc p) l c -> patch_gotos k last c = Ok c' ->
  Forall2 (senc p) (move_jumps k (last =? OpCode_val Op_SUB_FRAME_CLOSE) l) c'.
Proof.
  induction l as [|[[cc op] s] l IH]; intros c c' last Hk Hl H; inversion Hl as [|? i ? c1 Hx Hl1]; subst.
  { injection H as <-. constructor. }
  destruct Hx as (a & Ha & Hi & Hsym & Hf). cbn [patch_gotos] in H.
  destruct (instruction_decode _ _ _ _ Ha Hi) as (D1 & D2 & D3 & _). cbv zeta in H. rewrite D1, D2, D3 in H.
  rewrite ProgramFacts.argumentType_val in H. cbn [mbind res_bind] in H.
  assert (a < 2 ^ 31) as Hmax.
  { rewrite instruction_spec in Hi. destruct (Z.ltb_spec Max_ArgumentIndex a); [done|].
    change Max_ArgumentIndex with 1048575 in *. lia. }
  assert ((OpCode_val op =? OpCode_val Op_SUB_FRAME_CLOSE) = bool_decide (op = Op_SUB_FRAME_CLOSE)) as Hclose
    by (by destruct op).
  cbn [move_jumps]. destruct (_ && _) eqn:Eb in H |- *.
  - rewrite wrap_small in H by lia. destruct (instruction_raw _ _ _) as [i'| |] eqn:Ei; cbn [mbind res_bind] in H; try done.
    destruct (patch_gotos k _ c1) as [c2| |] eqn:E2; cbn [mbind res_bind] in H; try done. injection H as <-.
    pose proof (IH _ _ _ Hk Hl1 E2) as IH2. rewrite Hclose in IH2. constructor; [|exact IH2].
    apply andb_true_iff in Eb as [Et Hb]. apply bool_decide_eq_true in Et. rewrite Et in Hf.
    destruct s; try done. cbn in Hsym. subst a.
    exists (a0 + k). split_and!; [lia|exact Ei|done|by rewrite Et].
  - cbn [mbind res_bind] in H.
    destruct (patch_gotos k _ c1) as [c2| |] eqn:E2; cbn [mbind res_bind] in H; try done. injection H as <-.
    pose proof (IH _ _ _ Hk Hl1 E2) as IH2. rewrite Hclose in IH2. constructor; [|exact IH2].
    exists a. by destruct s.
Qed.

(** ** The complete program *)

(** The segment of the subroutines begins with a jump to the main program; without a
    subroutine there is no segment. *)
Definition sub_segment (sub : Program.t) (jump : Z) : Program.t :=
  match Program.code sub with
  | _ :: (_ :: _) as subs => Program.set_code sub (jump :: tl (Program.code sub))
  | _ => Program.make
  end.

(** The part of [createProgram] behind the selection of the segment. *)
Definition link (seg main : Program.t) (withReturn : bool) : res Program.t :=
  let ip_start_main := Z.of_nat (length (Program.code seg)) in
  rt ← Program.add seg main false;
  let start := Z.to_nat ip_start_main in
  code ← patch_gotos ip_start_main (OpCode_val Op_NOP) (drop start (Program.code rt));
  let rt := Program.set_code rt (take start (Program.code rt) ++ code) in
  if withReturn then c ← app_code (Program.code rt) [ins0 Op_RETURN]; Ok (Program.set_code rt c)
  else Ok rt.

Lemma createProgram_link withReturn tr p first subs jump :
  Program.code (m_sub_program tr) = first :: subs ->
  instruction Co_ALWAYS Op_GOTO (Z.of_nat (length (first :: subs))) = Ok jump ->
  createProgram withReturn tr = Ok p ->
  link (sub_segment (m_sub_program tr) jump) (m_main_program tr) withReturn = Ok p.
Proof.
  intros Hsub Hjump.
  assert (Z.of_nat (length (first :: subs)) <= 1048575) as Hlen.
  { rewrite instruction_spec in Hjump. destruct (Z.ltb_spec Max_ArgumentIndex (Z.of_nat (length (first :: subs)))); [done|].
    by change Max_ArgumentIndex with 1048575 in *. }
  unfold createProgram, link, sub_segment. rewrite Hsub. unfold ProgramCode.size. rewrite wrap_small by lia.
  destruct (instruction _ _ 0) as [expected| |]; cbn [mbind res_bind]; try done.
  destruct (_ =? 0) eqn:E0; [apply Z.eqb_eq in E0; cbn in E0; lia|]. unfold ProgramCode.at_. change ((first :: subs) !! Z.to_nat 0) with (Some first).
  cbn [mbind res_bind]. destruct (bool_decide (Some first = Some expected)); cbn [negb]; [|done].
  destruct subs as [|s1 subs].
  - change (1 <? Z.of_nat (length [first])) with false. cbn [mbind res_bind]. exact (fun H => H).
  - rewrite (proj2 (Z.ltb_lt _ _)) by (cbn; lia). rewrite Hjump. cbn [mbind res_bind].
    unfold ProgramCode.assign. destruct (_ <=? 0); cbn [mbind res_bind]; try done.
Qed.

(** Linking moves the main program behind the segment. *)
Lemma link_spec seg main withReturn p ns :
  ProgramFacts.ok seg -> ProgramFacts.ok main -> ProgramFacts.joinable seg main ->
  Forall ok_node ns -> Forall2 (senc main) (flatten 0 ns) (Program.code main) ->
  link seg main withReturn = Ok p ->
  exists code ret,
    Program.code p = Program.code seg ++ code ++ ret /\
    Forall2 (senc p) (flatten (Z.of_nat (length (Program.code seg))) ns) code /\
    ProgramFacts.extends seg p /\
    (if withReturn then exists i, instruction Co_ALWAYS Op_RETURN 0 = Ok i /\ ret = [i] else ret = []).
Proof.
  intros Hoks Hokm Hjoin Hns Hcode. unfold link.
  destruct (ProgramFacts.join_programs_spec seg main false Hoks Hokm Hjoin) as (p1 & more & -> & Hok1 & He & Hc1 & Hsame); [done|].
  cbn [mbind res_bind]. rewrite Nat2Z.id. rewrite Hc1. 
  rewrite (drop_app_length (Program.code seg)), (take_app_length (Program.code seg)).
  destruct (patch_gotos _ _ more) as [code| |] eqn:Ep; cbn [mbind res_bind]; try done.
  assert (Forall2 (senc p1) (flatten 0 ns) more) as Hmore.
  { clear -Hcode Hsame. revert more Hsame. induction Hcode as [|x i l c Hx Hl IH]; intros more Hs;
      inversion Hs; subst; constructor; [by eapply senc_same|by apply IH]. }
  pose proof (ProgramFacts.join_code _ _ Hjoin) as Hlim. change Max_ArgumentIndex with 1048575 in Hlim.
  apply (patch_gotos_senc p1 (Z.of_nat (length (Program.code seg))) _ _ _ _ ltac:(lia) Hmore) in Ep.
  change (OpCode_val Op_NOP =? OpCode_val Op_SUB_FRAME_CLOSE) with false in Ep. rewrite move_jumps_flatten in Ep by done.
  rewrite Z.add_0_l in Ep.
  assert (forall ret, Forall2 (senc (Program.set_code p1 (Program.code seg ++ code ++ ret)))
    (flatten (Z.of_nat (length (Program.code seg))) ns) code /\
    ProgramFacts.extends seg (Program.set_code p1 (Program.code seg ++ code ++ ret))) as K.
  { intros ret. split.
    - eapply Forall2_impl; [exact Ep|]. intros [[cc op] s] i Hx. exact Hx.
    - destruct He. split; try done. by eexists. }
  destruct withReturn; cbn [Program.code Program.set_code].
  - destruct (app_code _ _) as [c| |] eqn:Ea; cbn [mbind res_bind]; try done. intros [= <-].
    apply app_code_spec in Ea as (ret & -> & Hr). inversion Hr as [|? i ? ? Hi Hn]; subst. inversion Hn; subst.
    exists code, [i]. destruct (K [i]) as [K1 K2]. rewrite <- (app_assoc (Program.code seg)). split_and!; [done|exact K1|exact K2|].
    exists i. by split.
  - intros [= <-]. exists code, []. destruct (K []) as [K1 K2]. rewrite app_nil_r in *. by split_and!.
Qed.

(** ** The generated code can be moved *)

Lemma inss_ok l : forallb (fun x => ok_op x.1) l = true -> Forall ok_node (inss l).
Proof.
  intros H. rewrite forallb_forall in H. apply Forall_forall. intros n Hn. unfold inss in Hn.
  apply list_elem_of_In, in_map_iff in Hn as (x & <- & Hx). constructor. by apply H.
Qed.

Lemma forallb_replicate {A} (f : A -> bool) n x : f x = true -> forallb f (replicate n x) = true.
Proof. intros H. induction n as [|n IH]; cbn; [done|]. by rewrite H. Qed.

Lemma forallb_tags op path :
  ok_op op = true -> forallb (fun x : OpCode * sym => ok_op x.1) (map (fun p => (op, STag p)) path) = true.
Proof. intros H. induction path as [|p path IH]; cbn; [done|]. by rewrite H. Qed.

Lemma block_ok path inner : Forall ok_node inner -> Forall ok_node (block path inner).
Proof.
  intros H. unfold block. rewrite !Forall_app. split_and!; [|done|]; apply inss_ok; [by apply forallb_tags|].
  by apply forallb_replicate.
Qed.

Lemma array_ok path inner : Forall ok_node inner -> Forall ok_node (array path inner).
Proof.
  intros H. unfold array. rewrite !Forall_app. split_and!; [|done|]; apply inss_ok.
  - unfold open_array_ins, open_ins. rewrite forallb_app. by rewrite !forallb_tags.
  - destruct (length path); [done|]. cbn. by apply forallb_replicate.
Qed.

Lemma select_ok e setname op s : select_ins e setname = Some (op, s) -> ok_op op = true.
Proof.
  unfold select_ins. repeat case_match; by intros [= <- <-].
Qed.

Lemma with_set_ok e set op s l :
  with_set e set op s = Some l -> ok_op op = true -> Forall ok_node (inss l).
Proof.
  unfold with_set. destruct set as [n|].
  - destruct (select_ins e n) as [[sop ss]|] eqn:E; [|done]. intros [= <-] H. apply inss_ok. cbn.
    by rewrite (select_ok _ _ _ _ E), H.
  - intros [= <-] H. apply inss_ok. cbn. by rewrite H.
Qed.

Lemma value_ok e elem n l : value_ins e elem n = Some l -> Forall ok_node (inss l).
Proof.
  unfold value_ins. destruct (ElementReference.type elem); try (intros [= <-]; by apply inss_ok).
  all: intros H; by eapply with_set_ok.
Qed.

Lemma argument_ok e id a l :
  argument_ins e id a = Some l -> ok_op (arg_sub a) = true -> ok_op (arg_stm a) = true -> Forall ok_node (inss l).
Proof. unfold argument_ins, context_op. destruct id; try done; intros; by eapply with_set_ok. Qed.

Definition ok_argument_ops (a : argument) : bool := ok_op (arg_sub a) && ok_op (arg_stm a).

Lemma arguments_ok e id l : forall ns,
  forallb ok_argument_ops l = true -> arguments_nodes e id l = Some ns -> Forall ok_node ns.
Proof.
  induction l as [|a l IH]; intros ns Hl; cbn; [by intros [= <-]|].
  cbn in Hl. apply andb_true_iff in Hl as [[H1 H2]%andb_true_iff Hl].
  destruct (argument_ins e id a) as [x|] eqn:E; [|done].
  destruct (arguments_nodes e id l) as [y|]; [|done]. cbn. intros [= <-].
  apply Forall_app. split; [by eapply argument_ok|by apply IH].
Qed.

Lemma command_arguments_ops cmd : forallb ok_argument_ops (command_arguments cmd) = true.
Proof.
  unfold command_arguments. generalize (if cmd_embedded cmd then stm_params (cmd_statement cmd) else call_params (cmd_call cmd)).
  intros l. induction l as [|pi l IH]; [done|]. cbn. rewrite forallb_app, IH.
  unfold param_arguments. destruct (ElementReference.type pi); try done; by destruct (is_iterated _ _).
Qed.

Lemma foreach_open_ok nt selector op s : foreach_open nt selector = Some (op, s) -> ok_op op = true.
Proof. unfold foreach_open. repeat case_match; try done; by intros [= <- <-]. Qed.

Lemma iterated_ok e cmd o ns :
  iterated e cmd o = Some ns -> (forall x, o = Some x -> Forall ok_node x) -> Forall ok_node ns.
Proof.
  unfold iterated. destruct (has_selector cmd); [|by intros -> H; apply H].
  destruct (foreach_open _ _) as [[op s]|] eqn:E; [|done]. destruct o as [x|]; [|done].
  intros [= <-] H. constructor; [|constructor]. constructor; [by eapply foreach_open_ok|by apply H].
Qed.

Lemma call_nodes_ok e cs l ns :
  forallb ok_argument_ops l = true -> call_nodes e cs l = Some ns -> Forall ok_node ns.
Proof.
  intros Hl. unfold call_nodes. destruct (arguments_nodes _ _ _) as [x|] eqn:E; [|done].
  destruct (_ =? _); [|done]. cbn. intros [= <-]. constructor; [by constructor|].
  apply Forall_app. split; [by eapply arguments_ok|]. by repeat constructor.
Qed.

Lemma statement_nodes_ok e stm hints l ns :
  forallb ok_argument_ops l = true -> statement_nodes e stm hints l = Some ns -> Forall ok_node ns.
Proof.
  intros Hl. unfold statement_nodes, statement_arguments. destruct (_ && _); [done|].
  destruct (arguments_nodes _ _ _) as [x|] eqn:E; [|done]. cbn. intros [= <-].
  constructor; [by constructor|]. apply Forall_app. split; [destruct hints; by repeat constructor|].
  apply Forall_app. split; [by eapply arguments_ok|by repeat constructor].
Qed.

Lemma result_loop_ok b : ok_node (result_loop b).
Proof. destruct b; by repeat constructor. Qed.

Lemma print_result_ok cmd : Forall ok_node (print_result_nodes cmd).
Proof.
  unfold print_result_nodes. destruct (cmd_resultpath cmd); [done|].
  destruct (negb _); [|destruct (_ || _)]; [apply block_ok|apply array_ok|apply block_ok];
    (constructor; [apply result_loop_ok|done]).
Qed.

Lemma command_nodes_ok e target cmd ns : command_nodes e target cmd = Some ns -> Forall ok_node ns.
Proof.
  unfold command_nodes. destruct (if cmd_embedded cmd then _ else _) as [x|] eqn:E; cbn [oapp]; [|done]. intros H. apply (inj Some) in H as <-.
  apply Forall_app. split; [apply inss_ok; unfold constraint_ins; by destruct (cmd_nonempty cmd), (cmd_unique cmd)|].
  pose proof (command_arguments_ops cmd) as Hargs. destruct (cmd_embedded cmd).
  - unfold embedded_nodes in E. destruct (iterated _ _ _) as [y|] eqn:Ey; [|done]. cbn in E. injection E as <-.
    apply Forall_app. split; [|apply print_result_ok]. eapply iterated_ok; [exact Ey|].
    intros z Hz. by eapply statement_nodes_ok.
  - unfold calling_nodes in E.
    assert (forall z, (match target with Some cs => call_nodes e cs (command_arguments cmd) | None => None end) = Some z ->
      Forall ok_node z) as Hcall.
    { intros z. destruct target; [|done]. by apply call_nodes_ok. }
    destruct (hasIntoBlock _); [destruct (has_selector cmd)|].
    + destruct (iterated _ _ _) as [y|] eqn:Ey; [|done]. cbn in E. injection E as <-. apply array_ok.
      eapply iterated_ok; [exact Ey|]. intros z Hz. destruct (match target with Some _ => _ | None => _ end) as [w|] eqn:Ew; [|done].
      cbn in Hz. injection Hz as <-. constructor; [by constructor|]. apply Forall_app. split; [by apply Hcall|by repeat constructor].
    + destruct (match target with Some _ => _ | None => _ end) as [w|] eqn:Ew; [|done]. cbn in E. injection E as <-.
      apply block_ok. by apply Hcall.
    + eapply iterated_ok; [exact E|done].
Qed.
