(* ===== verification/TdlCalls.v ===== *)
(** * Called subroutines

    The code of a subroutine that is called is added to the segment of the subroutines at the
    address of its calls, stays there when further subroutines are added, and is there in
    the complete program. *)
From S2P Require Import Prelude InstructionSet Variant ValueTupleSet ProgramImage TdlTables SelectorPath ParseUtils TdlProgram Tdl2vm TdlCommand TdlStruct TdlCorrect TdlStatement TdlGenerated TdlLink.
Import Tdl2vm.

(** ** Instructions in a growing program *)

Lemma same_arg_extends oth p p' ofs at_ a a' :
  ProgramFacts.valid_arg oth at_ a -> ProgramFacts.extends p p' ->
  ProgramFacts.same_arg oth p ofs at_ a a' -> ProgramFacts.same_arg oth p' ofs at_ a a'.
Proof.
  intros Hv [E1 E2 E3 E4 E5 E6 E7 E8 E9 E10 E11]. destruct at_; cbn in Hv |- *; try done.
  - intros (Ha & q & q' & Hq & Hq' & Hs). split; [done|]. exists q, q'. split_and!; [done| |].
    + by eapply prefix_lookup_Some.
    + by eapply SelectorPathFacts.same_path_grows.
  - destruct Hv as [x Hx]. rewrite Hx. intros H. by eapply prefix_lookup_Some.
  - by apply NameTableFacts.renamed_prefix.
  - by apply NameTableFacts.renamed_prefix.
  - by apply NameTableFacts.renamed_prefix.
  - destruct Hv as [x Hx]. rewrite Hx. intros H. by eapply prefix_lookup_Some.
  - intros [Ha H]. split; [done|].
    destruct (lookup_lt_is_Some_2 (Program.hinttab oth) (Z.to_nat (a - 1))) as [x Hx]; [lia|].
    pose proof (eq_trans H Hx) as H'. etrans; [by eapply prefix_lookup_Some|done].
  - destruct Hv as [x Hx]. rewrite Hx. intros H. by eapply prefix_lookup_Some.
  - destruct Hv as [x Hx]. rewrite Hx. intros H. by eapply prefix_lookup_Some.
Qed.

Lemma same_instr_extends oth p p' ofs i i' :
  ProgramFacts.valid_instr oth i -> ProgramFacts.extends p p' ->
  ProgramFacts.same_instr oth p ofs i i' -> ProgramFacts.same_instr oth p' ofs i i'.
Proof.
  intros (c1 & op1 & a1 & Ha1 & Hi1 & Hv) He (c & op & a & a' & Ha & Ha' & Hi & Hi' & Hs).
  destruct (ProgramFacts.instruction_inj _ _ _ _ _ _ _ Ha Ha1 Hi Hi1) as (<- & <- & <-).
  exists c, op, a, a'. split_and!; try done. by eapply same_arg_extends.
Qed.

(** ** The place of a subroutine *)

(** The code of the subroutine is in the program at the address of the subroutine, behind
    the first instruction, with its jumps moved to that address. *)
Definition placed (p : Program.t) (cs : CalledSubroutineDef) : Prop :=
  let sub := Subroutine.m_program (called_subroutine cs) in
  ProgramFacts.ok sub /\
  exists first pre more post,
    Program.code p = first :: pre ++ more ++ post /\
    called_address cs = Z.of_nat (length (first :: pre)) /\
    Forall2 (ProgramFacts.same_instr sub p (called_address cs)) (Program.code sub) more.

Lemma placed_instrs oth p p' ofs c more :
  ProgramFacts.extends p p' -> Forall (ProgramFacts.valid_instr oth) c ->
  Forall2 (ProgramFacts.same_instr oth p ofs) c more -> Forall2 (ProgramFacts.same_instr oth p' ofs) c more.
Proof.
  intros He Hc H. induction H as [|i i' c more Hi H IH]; [constructor|]. inversion Hc; subst.
  constructor; [by eapply same_instr_extends|by apply IH].
Qed.

Lemma placed_extends p p' cs : ProgramFacts.extends p p' -> placed p cs -> placed p' cs.
Proof.
  intros He (Hok & first & pre & more & post & Hc & Ha & Hm). split; [done|].
  destruct (ProgramFacts.ext_code _ _ He) as [k Hk].
  exists first, pre, more, (post ++ k). split_and!; [rewrite Hk, Hc; cbn; by rewrite <- !app_assoc|done|].
  by eapply placed_instrs; [exact He|apply Hok|].
Qed.

(** The first instruction is not part of a subroutine. *)
Lemma placed_first p cs jump : placed p cs ->
  placed (Program.set_code p (jump :: tl (Program.code p))) cs.
Proof.
  intros (Hok & first & pre & more & post & Hc & Ha & Hm). split; [done|].
  exists jump, pre, more, post. cbn [Program.code Program.set_code]. by rewrite Hc.
Qed.

(** The subroutine with the parameters of its template. *)
Definition instantiated (sr : Subroutine.t) (tparams : list string) : res Subroutine.t :=
  match tparams with [] => Ok sr | _ => Subroutine.substituteStatementTemplates sr tparams end.

Lemma add_called_placed name mn tparams sr sr' tr tr' :
  instantiated sr tparams = Ok sr' ->
  ProgramFacts.ok (m_sub_program tr) -> Program.code (m_sub_program tr) <> [] ->
  Forall (placed (m_sub_program tr)) (m_calledSubroutines tr) ->
  ProgramFacts.ok (Subroutine.m_program sr') ->
  ProgramFacts.joinable (m_sub_program tr) (Subroutine.m_program sr') ->
  Forall (ProgramFacts.jump_below (Z.of_nat (length (Program.code (Subroutine.m_program sr')))))
    (Program.code (Subroutine.m_program sr')) ->
  add_called name mn tparams sr tr = Ok tr' ->
  ProgramFacts.ok (m_sub_program tr') /\ ProgramFacts.extends (m_sub_program tr) (m_sub_program tr') /\
  Forall (placed (m_sub_program tr')) (m_calledSubroutines tr') /\
  exists cs, m_calledSubroutines tr' = m_calledSubroutines tr ++ [cs] /\
    called_subroutine cs = sr' /\ called_mangledName cs = mn.
Proof.
  intros Hi Hok Hne Hpl Hsub Hj Hb H. unfold add_called in H. destruct (negb _); [done|].
  fold (instantiated sr tparams) in H. rewrite Hi in H. cbn [mbind res_bind] in H.
  destruct (ProgramFacts.join_programs_spec _ _ true Hok Hsub Hj) as (p & more & Hadd & Hokp & He & Hc & Hs); [done|].
  rewrite Hadd in H. cbn [mbind res_bind] in H. injection H as <-. cbn.
  pose proof (ProgramFacts.join_code _ _ Hj) as Hl. change Max_ArgumentIndex with 1048575 in Hl.
  split_and!; [done|done| |by eexists].
  apply Forall_app. split; [eapply Forall_impl; [exact Hpl|]; intros cs; by apply placed_extends|].
  constructor; [|done]. split; [exact Hsub|]. cbn. unfold ProgramCode.size. rewrite wrap_small by lia.
  destruct (Program.code (m_sub_program tr)) as [|first pre] eqn:Ec; [done|].
  exists first, pre, more, []. by rewrite app_nil_r.
Qed.

(** The segment with the jump to the main program. *)
Lemma sub_segment_ok sub first subs jump :
  Program.code sub = first :: subs -> subs <> [] ->
  instruction Co_ALWAYS Op_GOTO (Z.of_nat (length (first :: subs))) = Ok jump -> ProgramFacts.ok sub ->
  sub_segment sub jump = Program.set_code sub (jump :: subs) /\ ProgramFacts.ok (sub_segment sub jump).
Proof.
  intros Hc Hne Hj [H1 H2 H3 H4 H5].
  assert (sub_segment sub jump = Program.set_code sub (jump :: subs)) as Heq.
  { unfold sub_segment. rewrite Hc. by destruct subs. }
  split; [done|]. rewrite Heq. split; try done. cbn. rewrite Hc in H5. inversion H5; subst.
  constructor; [|done]. exists Co_ALWAYS, Op_GOTO, (Z.of_nat (length (first :: subs))). by split_and!; [lia| |].
Qed.

Lemma joinable_segment sub first subs jump main :
  Program.code sub = first :: subs -> ProgramFacts.joinable sub main ->
  ProgramFacts.joinable (Program.set_code sub (jump :: subs)) main.
Proof. intros Hc [J1 J2 J3 J4 J5 J6 J7 J8 J9 J10 J11]. rewrite Hc in J1. by split. Qed.

(** The complete program of a translator that has called subroutines. *)
Lemma linked_placed withReturn tr p first subs jump ns :
  Program.code (m_sub_program tr) = first :: subs -> subs <> [] ->
  instruction Co_ALWAYS Op_GOTO (Z.of_nat (length (first :: subs))) = Ok jump ->
  ProgramFacts.ok (m_sub_program tr) -> ProgramFacts.ok (m_main_program tr) ->
  ProgramFacts.joinable (m_sub_program tr) (m_main_program tr) ->
  Forall ok_node ns -> Forall2 (senc (m_main_program tr)) (flatten 0 ns) (Program.code (m_main_program tr)) ->
  Forall (placed (m_sub_program tr)) (m_calledSubroutines tr) ->
  createProgram withReturn tr = Ok p ->
  Forall (placed p) (m_calledSubroutines tr) /\
  exists code ret, Program.code p = jump :: subs ++ code ++ ret /\
    Forall2 (senc p) (flatten (Z.of_nat (length (first :: subs))) ns) code.
Proof.
  intros Hc Hne Hj Hsub Hmain Hjoin Hns Henc Hpl Hp.
  destruct (sub_segment_ok _ _ _ _ Hc Hne Hj Hsub) as [Heq Hseg].
  pose proof (createProgram_link _ _ _ _ _ _ Hc Hj Hp) as Hl. rewrite Heq in Hl, Hseg.
  destruct (link_spec _ _ _ _ ns Hseg Hmain (joinable_segment _ _ _ _ _ Hc Hjoin) Hns Henc Hl)
    as (code & ret & H1 & H2 & H3 & _). split.
  - eapply Forall_impl; [exact Hpl|]. intros cs Hcs. eapply placed_extends; [exact H3|].
    apply (placed_first _ _ jump) in Hcs. by rewrite Hc in Hcs.
  - by exists code, ret.
Qed.

(** ** Theorems *)

(** Adding the code of a subroutine keeps the subroutines that were added before at their
    addresses, and the code of the new one, with the parameters of its template filled in,
    is at the address that its calls jump to. *)
Theorem subroutine_code_placed name mn tparams sr sr' tr tr' :
  instantiated sr tparams = Ok sr' ->
  ProgramFacts.ok (m_sub_program tr) -> Program.code (m_sub_program tr) <> [] ->
  Forall (placed (m_sub_program tr)) (m_calledSubroutines tr) ->
  ProgramFacts.ok (Subroutine.m_program sr') ->
  ProgramFacts.joinable (m_sub_program tr) (Subroutine.m_program sr') ->
  Forall (ProgramFacts.jump_below (Z.of_nat (length (Program.code (Subroutine.m_program sr')))))
    (Program.code (Subroutine.m_program sr')) ->
  add_called name mn tparams sr tr = Ok tr' ->
  ProgramFacts.ok (m_sub_program tr') /\
  Forall (placed (m_sub_program tr')) (m_calledSubroutines tr') /\
  exists cs, m_calledSubroutines tr' = m_calledSubroutines tr ++ [cs] /\
    called_subroutine cs = sr' /\ called_mangledName cs = mn.
Proof.
  intros Hi Hok Hne Hpl Hsub Hj Hb H.
  destruct (add_called_placed _ _ _ _ _ _ _ Hi Hok Hne Hpl Hsub Hj Hb H) as (H1 & _ & H2 & H3). done.
Qed.

(** A subroutine that executes a command. *)
Definition example_program : Program.t :=
  Program.set_statements
    (Program.set_code Program.make
       (match app_code [] [(Co_ALWAYS, Op_DBSTM_START, 0); (Co_ALWAYS, Op_DBSTM_EXEC, 0); (Co_ALWAYS, Op_RETURN, 0)] with
        | Ok c => c | _ => [] end)) ["DELETE FROM t"%string].
Definition example_subroutine : Subroutine.t := Subroutine.mk "f" [] [] example_program.
Definition example_map : StdMap.t Subroutine.t := StdMap.set "F" example_subroutine [].

Definition example_translator : res t := Tdl2vm.make example_map false.
Definition example_call : CommandDefinition :=
  mkCommandDefinition "" EmbeddedStatement_empty (mkSubroutineCallStatement "f" [] []) [] false false false [].

Lemma example_ok : ProgramFacts.ok example_program.
Proof.
  eapply ok_no_tables; try reflexivity. repeat (constructor; [|]); try apply Forall_nil_2.
  - exists Co_ALWAYS, Op_DBSTM_START, 0. split_and!; [lia|reflexivity|by eexists].
  - exists Co_ALWAYS, Op_DBSTM_EXEC, 0. by split_and!.
  - exists Co_ALWAYS, Op_RETURN, 0. by split_and!.
Qed.

Lemma example_jumps n : Forall (ProgramFacts.jump_below n) (Program.code example_program).
Proof.
  repeat (constructor; [|]); try apply Forall_nil_2.
  - by apply (not_jump _ Co_ALWAYS Op_DBSTM_START 0).
  - by apply (not_jump _ Co_ALWAYS Op_DBSTM_EXEC 0).
  - by apply (not_jump _ Co_ALWAYS Op_RETURN 0).
Qed.

(** The segment of the subroutines in the beginning: a jump. *)
Lemma jump_segment_ok : ProgramFacts.ok (Program.set_code Program.make [134217728]).
Proof.
  eapply ok_no_tables; try reflexivity. constructor; [|done]. exists Co_ALWAYS, Op_GOTO, 0. by split_and!.
Qed.

Lemma subroutine_code_placed_witness :
  exists tr tr', example_translator = Ok tr /\ add_called "f" "f" [] example_subroutine tr = Ok tr' /\
    Forall (placed (m_sub_program tr')) (m_calledSubroutines tr') /\ length (m_calledSubroutines tr') = 1%nat.
Proof.
  destruct example_translator as [tr| |] eqn:E0; [|discriminate E0..].
  destruct (add_called "f" "f" [] example_subroutine tr) as [tr'| |] eqn:Ea;
    [|injection E0 as <-; vm_compute in Ea; discriminate Ea..].
  exists tr, tr'. split; [done|]. split; [done|].
  destruct (subroutine_code_placed "f" "f" [] example_subroutine example_subroutine tr tr') as (_ & H & cs & Hcs & _).
  - reflexivity.
  - injection E0 as <-. exact jump_segment_ok.
  - by injection E0 as <-.
  - injection E0 as <-. constructor.
  - exact example_ok.
  - injection E0 as <-. by apply joinable_decide.
  - apply example_jumps.
  - exact Ea.
  - split; [exact H|]. rewrite Hcs, length_app. by injection E0 as <-.
Defined.


(** The translation of a call of the subroutine. *)
Definition example_main : res t := tr ← example_translator; programAddCommandDefinition example_call tr.

Definition example_nodes : list node :=
  [Ins Op_RESULT_SET_INIT (SNum 0); Ins Op_SUB_FRAME_OPEN (SSig []); Call 1].

Lemma example_main_nodes tr :
  example_main = Ok tr ->
  ProgramFacts.ok (m_main_program tr) /\
  Forall2 (senc (m_main_program tr)) (flatten 0 example_nodes) (Program.code (m_main_program tr)) /\
  ProgramFacts.ok (m_sub_program tr) /\ Forall (placed (m_sub_program tr)) (m_calledSubroutines tr).
Proof.
  unfold example_main. destruct example_translator as [tr0| |] eqn:E0; cbn [mbind res_bind]; try done. intros H.
  assert (called_fits tr0) as Hf by (injection E0 as <-; split; [by constructor|done]).
  pose proof (command_spec example_call tr0 eq_refl Hf _ H) as (ns & Hns & _ & G).
  assert (ns = example_nodes) as -> by (injection E0 as <-; vm_compute in Hns; by injection Hns as <-).
  assert (ok tr0) as Hok by (injection E0 as <-; exact ok_empty).
  assert (small tr) as Hs by (injection E0 as <-; vm_compute in H; injection H as <-; by apply small_decide).
  destruct (G Hok Hs) as [_ Hok' (code & Hcode & Henc)]. split; [done|].
  assert (Program.code (m_main_program tr0) = []) as E1 by (by injection E0 as <-). rewrite E1 in Hcode, Henc.
  split; [by rewrite Hcode|].
  destruct (add_called "f" "f" [] example_subroutine tr0) as [tr1| |] eqn:Ea;
    [|injection E0 as <-; vm_compute in Ea; discriminate Ea..].
  assert (m_sub_program tr = m_sub_program tr1 /\ m_calledSubroutines tr = m_calledSubroutines tr1) as [-> ->].
  { injection E0 as <-. vm_compute in Ea, H. injection Ea as <-. by injection H as <-. }
  eapply add_called_placed in Ea as (A1 & _ & A2 & _); [done|reflexivity|injection E0 as <-; exact jump_segment_ok
    |by injection E0 as <-|injection E0 as <-; constructor|exact example_ok
    |injection E0 as <-; by apply joinable_decide|apply example_jumps].
Qed.

