(* ===== verification/TdlExec.v ===== *)
(** * Execution of compiled loops

    The code the translator generates for FOREACH, executed by the virtual machine: the body
    is run once for every row of the set that is iterated over, in order, with the iterator
    on that row, whatever the body does apart from leaving the iterator and the code of the
    loop as they are. *)
From S2P Require Import Prelude InstructionSet Variant ValueTupleSet ExecStatemachine TableDb ProgramImage ProgramInstance VmInvariant VmExec TdlTables SelectorPath TdlProgram TdlStruct TdlLink.

Section Loops.
Context {D : Type} `{TransactionExecStatemachine D}.
Variables (l : nat) (colnames : list string) (rows : list (list Variant)).
Hypothesis Hrows : ValueTupleSet.rows_ok colnames rows.
Hypothesis Hcols : colnames <> [].
Variables (o size : Z).
Hypothesis Ho : 0 <= o.
Hypothesis Hsize : 0 <= size.

(** ** The loop and the machine in it *)

(** An instruction is in the code of the machine at an address. *)
Definition holds (s : ProgramInstance D) (ip : Z) (c : CondCode) (op : OpCode) (arg : Z) : Prop :=
  0 <= arg /\ exists i, instruction c op arg = Ok i /\ code (m_program s) !! Z.to_nat ip = Some i.

(** The end of a loop at address [o] with a body of [size] instructions. *)
Record loop_code (s : ProgramInstance D) : Prop := {
  loop_next : holds s (o + 2 + size) Co_ALWAYS Op_NEXT 0;
  loop_back : holds s (o + 3 + size) Co_IF_COND Op_GOTO (o + 2);
  loop_room : o + 4 + size <= Z.of_nat (length (code (m_program s))) < 2 ^ 32
}.

(** The iterator of the frame on top is on row [k] of the set. *)
Record iterating (s : ProgramInstance D) (k : nat) : Prop := {
  it_set : m_heap s !! l = Some (ValueTupleSet.of_rows colnames rows);
  it_trace : m_logTrace s = None;
  it_top : exists e st, m_stack s = e :: st /\ m_valueSet e = Some l /\
    m_valueIter e = ValueTupleSetFacts.row_iterator l colnames k /\
    m_valueEnd e = ValueTupleSet.end_ l (ValueTupleSet.of_rows colnames rows)
}.

(** The machine at [ip] with the iterator of the frame on top on row [k]. *)
Definition on_row (k : nat) (ip : Z) (s : ProgramInstance D) : ProgramInstance D :=
  set_ip (set_cond (match m_stack s with
    | e :: st => set_stack s (set_iterator e (Some l) (ValueTupleSetFacts.row_iterator l colnames k)
        (ValueTupleSet.end_ l (ValueTupleSet.of_rows colnames rows)) :: st)
    | [] => s
    end) (negb (k =? length rows)%nat)) ip.

(** What the runs of the body do: one after the other, for every row from row [k] on. *)
Inductive rows_run (B : nat -> ProgramInstance D -> ProgramInstance D -> Prop)
    : nat -> ProgramInstance D -> ProgramInstance D -> Prop :=
| rows_last k s s1 : S k = length rows -> B k s s1 -> rows_run B k s (on_row (S k) (o + 4 + size) s1)
| rows_more k s s1 s' : (S k < length rows)%nat -> B k s s1 ->
    rows_run B (S k) (on_row (S k) (o + 2) s1) s' -> rows_run B k s s'.

(** ** The instructions of a loop *)

Lemma holds_at s ip c op arg : 0 <= ip -> m_ip s = ip -> holds s ip c op arg -> at_instr s c op arg.
Proof. intros H0 <- (Ha & i & Hi & Hc). split_and!; [done|done|by exists i]. Qed.

#[local] Set Default Proof Using "All".

Lemma row_end k : (k <= length rows)%nat ->
  ValueTupleSet.isequal (ValueTupleSetFacts.row_iterator l colnames k)
    (ValueTupleSet.end_ l (ValueTupleSet.of_rows colnames rows)) = (k =? length rows)%nat.
Proof. by apply ValueTupleSetFacts.row_iterator_end. Qed.

Lemma on_row_iterating s k ip : iterating s k -> forall k', iterating (on_row k' ip s) k'.
Proof.
  intros [Hset Ht (e & st & Hs & Hv & Hi & He)] k'. unfold on_row. rewrite Hs.
  split; [done|done|]. by eexists _, _.
Qed.

Lemma on_row_loop_code s k ip : loop_code s -> loop_code (on_row k ip s).
Proof. intros [H1 H2 H3]. unfold on_row. destruct (m_stack s); by split. Qed.

(** [NEXT]. *)
Lemma runs_next s k :
  (k < length rows)%nat -> m_ip s = o + 2 + size -> iterating s k -> loop_code s ->
  runs 0 s 1 (on_row (S k) (o + 3 + size) s).
Proof.
  intros Hk Hip [Hset Ht (e & st & Hs & Hv & Hi & He)] [Hn _ Hr].
  eapply (runs_exec 0 s _ Co_ALWAYS Op_NEXT 0 e st Hs Ht); [|done|].
  { eapply holds_at; [|exact Hip|done]. lia. }
  intros f i _ Hof. unfold exec_op. rewrite Hof. unfold exec_iterator.
  rewrite M_bind_eq. unfold top. rewrite Hs. cbv beta iota. rewrite M_bind_eq, Hi, He.
  rewrite row_end, (proj2 (Nat.eqb_neq _ _)) by lia.
  unfold gets, id, lift, modify. rewrite !M_bind_eq. rewrite (ValueTupleSetFacts.incr_row _ _ _ _ _ Hset).
  cbv beta iota. rewrite M_bind_eq. unfold set_top. rewrite Hs. cbv beta iota.
  rewrite row_end by lia. cbv beta iota. unfold inc_ip, modify. rewrite M_bind_eq. unfold on_row. rewrite Hs.
  cbn [set_ip set_cond set_stack m_ip fst snd]. rewrite Hip, wrap_small by lia.
  unfold set_valueIter. rewrite Hv, He. replace (o + 2 + size + 1) with (o + 3 + size) by lia. done.
Qed.

(** The jump back to the body, or the end of the loop. *)
Lemma runs_back s k k' :
  m_ip s = o + 3 + size -> iterating s k -> loop_code s ->
  m_cond s = negb (k' =? length rows)%nat ->
  runs 0 s 1 (set_ip s (if (k' =? length rows)%nat then o + 4 + size else o + 2)).
Proof.
  intros Hip [_ Ht (e & st & Hs & _)] [_ Hb Hr] Hc.
  assert (at_instr s Co_IF_COND Op_GOTO (o + 2)) as Hat by (eapply holds_at; [|exact Hip|done]; lia).
  destruct (k' =? length rows)%nat; cbn [negb] in Hc.
  - apply runs_step. intros f _. rewrite (step_skip f s _ _ _ e st Hs Ht Hat) by (by rewrite Hc).
    rewrite Hip, wrap_small by lia. by replace (o + 3 + size + 1) with (o + 4 + size) by lia.
  - eapply (runs_exec 0 s _ Co_IF_COND Op_GOTO (o + 2) e st Hs Ht Hat); [by rewrite Hc|].
    intros f i _ Hof. unfold exec_op. rewrite Hof. cbn [exec_control].
    rewrite M_bind_eq. unfold gets, id. rewrite M_bind_eq. unfold ProgramCode.size. rewrite wrap_small by lia.
    unfold throw_if. destruct (Z.ltb_spec (Z.of_nat (length (code (m_program s)))) (o + 2)); [lia|]. done.
Qed.

(** The next row or the end. *)
Lemma runs_next_row s k :
  (k < length rows)%nat -> m_ip s = o + 2 + size -> iterating s k -> loop_code s ->
  runs 0 s 2 (on_row (S k) (if (S k =? length rows)%nat then o + 4 + size else o + 2) s).
Proof.
  intros Hk Hip Hit Hl. pose proof (runs_next s k Hk Hip Hit Hl) as H1.
  pose proof (runs_back (on_row (S k) (o + 3 + size) s) (S k) (S k) eq_refl
    (on_row_iterating _ _ _ Hit _) (on_row_loop_code _ _ _ Hl) eq_refl) as H2.
  exact (runs_trans 0 0 _ 1 _ 1 _ H1 H2).
Qed.

(** ** The loop *)

Section Body.
Variables (I : nat -> ProgramInstance D -> Prop) (B : nat -> ProgramInstance D -> ProgramInstance D -> Prop).

(** The body, run on row [k] in a state with the loop invariant [I], comes to its end with
    the iterator and the code of the loop unchanged, and the invariant holds again on the
    next row. *)
Definition body_runs : Prop := forall k s,
  (k < length rows)%nat -> I k s -> m_ip s = o + 2 -> iterating s k -> loop_code s ->
  exists m n s', runs m s n s' /\ B k s s' /\ m_ip s' = o + 2 + size /\ iterating s' k /\ loop_code s' /\
    ((S k < length rows)%nat -> I (S k) (on_row (S k) (o + 2) s')).

Hypothesis Hbody : body_runs.

Lemma rows_are_run n : forall k s,
  (k + S n)%nat = length rows -> I k s -> m_ip s = o + 2 -> iterating s k -> loop_code s ->
  exists m c s', runs m s c s' /\ rows_run B k s s' /\ m_ip s' = o + 4 + size /\ m_cond s' = false /\
    iterating s' (length rows) /\ loop_code s'.
Proof.
  induction n as [|n IH]; intros k s Hk HI Hip Hit Hl.
  all: destruct (Hbody k s) as (m & c & s1 & Hr & HB & Hip1 & Hit1 & Hl1 & HI1); [lia|done..|].
  all: pose proof (runs_next_row s1 k ltac:(lia) Hip1 Hit1 Hl1) as Hn.
  - rewrite (proj2 (Nat.eqb_eq _ _)) in Hn by lia.
    exists (m + 0)%nat, (c + 2)%nat, (on_row (S k) (o + 4 + size) s1).
    split_and!; [by eapply runs_trans|apply rows_last; [lia|done]|done| | |by apply on_row_loop_code].
    + cbn. apply negb_false_iff, Nat.eqb_eq. lia.
    + replace (length rows) with (S k) by lia. by eapply on_row_iterating.
  - rewrite (proj2 (Nat.eqb_neq _ _)) in Hn by lia.
    destruct (IH (S k) (on_row (S k) (o + 2) s1)) as (m' & c' & s' & Hr' & HB' & Hrest); [lia| | | | |].
    + apply HI1. lia.
    + done.
    + by eapply on_row_iterating.
    + by apply on_row_loop_code.
    + exists (m + (0 + m'))%nat, (c + (2 + c'))%nat, s'. split; [|split; [|exact Hrest]].
      * eapply runs_trans; [exact Hr|]. by eapply runs_trans.
      * eapply rows_more; [lia|done|done].
Qed.
End Body.

(** ** Opening the iterator *)

(** The operation opens an iterator over the set. *)
Definition opens (s : ProgramInstance D) (op : OpCode) (a : Z) : Prop :=
  exists e st, m_stack s = e :: st /\
    match op with
    | Op_OPEN_ITER_LAST_RESULT => m_lastResult e = Some l
    | Op_OPEN_ITER_KEPT_RESULT => m_resultMap e !! a = Some (Some l)
    | Op_OPEN_ITER_TUPLESET => 0 <= a /\ tuplesets (m_program s) !! Z.to_nat a = Some (Some l)
    | _ => False
    end.

Lemma init_iterator s e st :
  m_stack s = e :: st -> m_heap s !! l = Some (ValueTupleSet.of_rows colnames rows) -> m_ip s = o ->
  o + 1 < 2 ^ 32 ->
  (_ ← initValueIteraror (Some l); _ ← inc_ip; mret None) s = (on_row 0 (o + 1) s, Ok (@None bool)).
Proof.
  intros Hs Hset Hip Hr. unfold initValueIteraror. rewrite M_bind_eq. rewrite M_bind_eq. unfold top. rewrite Hs.
  cbv beta iota. rewrite M_bind_eq. unfold set_of, ValueTupleSet.deref. rewrite Hset. cbn [mbind res_bind].
  cbv beta iota. rewrite M_bind_eq. unfold set_top. rewrite Hs. cbv beta iota. unfold modify. rewrite M_bind_eq.
  change (ValueTupleSet.begin l) with (ValueTupleSetFacts.row_iterator l colnames 0). rewrite row_end by lia.
  unfold inc_ip, modify, on_row. rewrite Hs. cbn. by rewrite Hip, wrap_small by lia.
Qed.

Lemma runs_open s op a :
  holds s o Co_ALWAYS op a -> m_ip s = o -> opens s op a ->
  m_heap s !! l = Some (ValueTupleSet.of_rows colnames rows) -> m_logTrace s = None -> o + 1 < 2 ^ 32 ->
  runs 0 s 1 (on_row 0 (o + 1) s).
Proof.
  intros Hop Hip (e & st & Hs & Hopen) Hset Ht Hr.
  eapply (runs_exec 0 s _ Co_ALWAYS op a e st Hs Ht); [by apply (holds_at s o)|done|].
  intros f i _ Hof. unfold exec_op. rewrite Hof.
  destruct op; try done; unfold exec_iterator.
  - rewrite M_bind_eq. unfold top. rewrite Hs. cbv beta iota. rewrite Hopen. by eapply init_iterator.
  - assert (keptResult a s = (s, Ok (Some l))) as Hk.
    { assert (@lookup Z ValueTupleSetR _ _ a (m_resultMap e) = Some (Some l)) as Ho' by exact Hopen.
      unfold keptResult. rewrite M_bind_eq. unfold top. by rewrite Hs, Ho'. }
    rewrite M_bind_eq, Hk. by eapply init_iterator.
  - destruct Hopen as [Ha Hopen]. assert (tupleSet a s = (s, Ok (Some l))) as Hk.
    { assert (@lookup nat ValueTupleSetR _ _ (Z.to_nat a) (tuplesets (m_program s)) = Some (Some l)) as Ho' by exact Hopen.
      unfold tupleSet. rewrite M_bind_eq. unfold gets, lift, id, checked_at. by rewrite Ho'. }
    rewrite M_bind_eq, Hk. by eapply init_iterator.
Qed.

(** Into the loop, or behind it if there is no row. *)
Lemma runs_enter s op a :
  holds s o Co_ALWAYS op a -> holds s (o + 1) Co_NOT_IF_COND Op_GOTO (o + 4 + size) -> loop_code s ->
  m_ip s = o -> opens s op a ->
  m_heap s !! l = Some (ValueTupleSet.of_rows colnames rows) -> m_logTrace s = None ->
  runs 0 s 2 (on_row 0 (if (0 =? length rows)%nat then o + 4 + size else o + 2) s).
Proof.
  intros Hop Hg [_ _ Hr] Hip Hopen Hset Ht.
  pose proof (runs_open s op a Hop Hip Hopen Hset Ht ltac:(lia)) as H1.
  refine (runs_trans 0 0 _ 1 _ 1 _ H1 _). destruct Hopen as (e & st & Hs & _).
  assert (exists e', m_stack (on_row 0 (o + 1) s) = e' :: st) as [e' Hs'] by (unfold on_row; rewrite Hs; by eexists).
  assert (m_program (on_row 0 (o + 1) s) = m_program s) as Hp by (unfold on_row; by rewrite Hs).
  assert (m_logTrace (on_row 0 (o + 1) s) = None) as Ht' by (unfold on_row; by rewrite Hs).
  assert (at_instr (on_row 0 (o + 1) s) Co_NOT_IF_COND Op_GOTO (o + 4 + size)) as Hat.
  { eapply (holds_at _ (o + 1)); [lia|done|]. unfold holds in *. by rewrite Hp. }
  destruct (0 =? length rows)%nat eqn:E.
  - eapply (runs_exec 0 _ _ _ _ _ e' st Hs' Ht' Hat); [cbn; by rewrite E|].
    intros f i _ Hof. unfold exec_op. rewrite Hof. cbn [exec_control].
    rewrite M_bind_eq. unfold gets, id. rewrite M_bind_eq. rewrite Hp. unfold ProgramCode.size.
    rewrite wrap_small by lia. unfold throw_if.
    destruct (Z.ltb_spec (Z.of_nat (length (code (m_program s)))) (o + 4 + size)); [lia|]. done.
  - apply runs_step. intros f _. rewrite (step_skip f _ _ _ _ e' st Hs' Ht' Hat) by (cbn; by rewrite E).
    cbn [m_ip on_row set_ip]. rewrite wrap_small by lia. by replace (o + 1 + 1) with (o + 2) by lia.
Qed.
End Loops.

(** ** Generated loops *)

Section Generated.
Context {D : Type} `{TransactionExecStatemachine D}.

Lemma senc_holds (s : ProgramInstance D) p x i ip :
  senc p x i -> code (m_program s) !! Z.to_nat ip = Some i ->
  exists a, sym_ok p x.2 a /\ holds s ip x.1.1 x.1.2 a.
Proof.
  destruct x as [[c op] sy]. intros (a & Ha & Hi & Hs & _) Hc. exists a. split; [done|]. split; [done|]. by exists i.
Qed.

(** The code of a generated loop in the machine. *)
Lemma generated_loop (s : ProgramInstance D) p o op sy body instrs pre post :
  Forall2 (senc p) (flatten o [Loop op sy body]) instrs ->
  code (m_program s) = pre ++ instrs ++ post -> Z.of_nat (length pre) = o ->
  Z.of_nat (length (code (m_program s))) < 2 ^ 32 ->
  loop_code o (Z.of_nat (sizes body)) s /\
  holds s (o + 1) Co_NOT_IF_COND Op_GOTO (o + 4 + Z.of_nat (sizes body)) /\
  exists a, sym_ok p sy a /\ holds s o Co_ALWAYS op a.
Proof.
  intros Henc Hcode Hpre Hlen. set (n := sizes body).
  assert (forall (j : nat) x, flatten o [Loop op sy body] !! j = Some x ->
    exists a, sym_ok p x.2 a /\ holds s (o + Z.of_nat j) x.1.1 x.1.2 a) as Hat.
  { intros j x Hx. destruct (Forall2_lookup_l _ _ _ _ _ Henc Hx) as (i & Hi & Hs).
    eapply senc_holds; [exact Hs|]. rewrite Hcode. replace (Z.to_nat (o + Z.of_nat j)) with (length pre + j)%nat by lia.
    etrans; [apply (lookup_app_r pre); lia|]. replace (length pre + j - length pre)%nat with j by lia.
    etrans; [apply lookup_app_l; by eapply lookup_lt_Some|done]. }
  pose proof (Forall2_length _ _ _ Henc) as Hl. rewrite length_flatten in Hl.
  unfold sizes in Hl. cbn [map list_sum foldr] in Hl. rewrite node_size_Loop in Hl. fold n in Hl.
  cbn [flatten] in Hat. rewrite app_nil_r, flatten1_Loop in Hat. fold n in Hat.
  assert (forall x, (flatten (o + 2) body ++ x) !! n = x !! O /\ (flatten (o + 2) body ++ x) !! S n = x !! 1%nat) as Hx.
  { intros x. pose proof (length_flatten body (o + 2)) as Hf. fold n in Hf.
    rewrite !lookup_app_r by lia. rewrite Hf. split; f_equal; lia. }
  split_and!.
  - split.
    + destruct (Hat (2 + n)%nat (Co_ALWAYS, Op_NEXT, SNum 0)) as (a & -> & Hh); [exact (proj1 (Hx [_; _]))|].
      replace (o + Z.of_nat (2 + n)) with (o + 2 + Z.of_nat n) in Hh by lia. exact Hh.
    + destruct (Hat (3 + n)%nat (Co_IF_COND, Op_GOTO, SNum (o + 2))) as (a & -> & Hh); [exact (proj2 (Hx [_; _]))|].
      replace (o + Z.of_nat (3 + n)) with (o + 3 + Z.of_nat n) in Hh by lia. exact Hh.
    + rewrite Hcode, !length_app in Hlen |- *. lia.
  - destruct (Hat 1%nat (Co_NOT_IF_COND, Op_GOTO, SNum (o + 4 + Z.of_nat n))) as (a & -> & Hh); [done|]. exact Hh.
  - destruct (Hat 0%nat (Co_ALWAYS, op, sy)) as (a & Hs & Hh); [done|]. exists a. split; [done|].
    by rewrite Z.add_0_r in Hh.
Qed.
End Generated.

(** C10. The loop that is generated for FOREACH, executed at its address on a set with the given
    rows: with no row the body is not executed and the machine is behind the loop.
    Otherwise the runs of the body follow one another, one for every row, from the first
    one to the last, each with the iterator on its row; the machine ends behind the loop
    with the condition flag cleared and the iterator at the end of the set.  The body may
    do anything, as long as it comes to its end with the iterator and the end of the loop
    as they were. *)
Theorem foreach_runs_body_per_row {D} `{TransactionExecStatemachine D} l colnames rows o op sy body
    (s : ProgramInstance D) p instrs pre post I B :
  ValueTupleSet.rows_ok colnames rows -> colnames <> [] ->
  Forall2 (senc p) (flatten o [Loop op sy body]) instrs ->
  code (m_program s) = pre ++ instrs ++ post -> Z.of_nat (length pre) = o ->
  Z.of_nat (length (code (m_program s))) < 2 ^ 32 ->
  m_ip s = o -> m_logTrace s = None -> m_heap s !! l = Some (ValueTupleSet.of_rows colnames rows) ->
  (forall a, sym_ok p sy a -> opens l s op a) ->
  (rows <> [] -> I 0%nat (on_row l colnames rows 0 (o + 2) s)) ->
  body_runs l colnames rows o (Z.of_nat (sizes body)) I B ->
  exists m n s', runs m s n s' /\
    m_ip s' = o + Z.of_nat (node_size (Loop op sy body)) /\ m_cond s' = false /\
    iterating l colnames rows s' (length rows) /\
    match rows with
    | [] => s' = on_row l colnames rows 0 (m_ip s') s
    | _ => rows_run l colnames rows o (Z.of_nat (sizes body)) B 0 (on_row l colnames rows 0 (o + 2) s) s'
    end.
Proof.
  intros Hrows Hcols Henc Hcode Hpre Hlen Hip Ht Hset Hopen HI Hbody.
  destruct (generated_loop s p o op sy body instrs pre post Henc Hcode Hpre Hlen) as (Hl & Hg & a & Ha & Hop).
  assert (0 <= o) as Ho by lia. specialize (Hopen a Ha). set (n := Z.of_nat (sizes body)) in *.
  assert (0 <= n) as Hn by lia.
  pose proof (runs_enter l colnames rows Hrows Hcols o n Ho Hn s op a Hop Hg Hl Hip Hopen Hset Ht) as Henter.
  assert (forall ip, iterating l colnames rows (on_row l colnames rows 0 ip s) 0) as Hit.
  { intros ip. destruct Hopen as (e & st & Hs & _). unfold on_row. rewrite Hs. split; [done|done|]. by eexists _, _. }
  rewrite node_size_Loop. replace (o + Z.of_nat (4 + sizes body)) with (o + 4 + n) by lia.
  destruct rows as [|r rows].
  - exists 0%nat, 2%nat, (on_row l colnames [] 0 (o + 4 + n) s). by split_and!; [exact Henter|done|done|apply Hit|].
  - destruct (rows_are_run l colnames (r :: rows) Hrows Hcols o n Ho Hn I B Hbody (length rows) 0
      (on_row l colnames (r :: rows) 0 (o + 2) s)) as (m & c & s' & H1 & H2 & H3 & H4 & H5 & _).
    + done.
    + by apply HI.
    + done.
    + apply Hit.
    + by apply on_row_loop_code.
    + exists (0 + m)%nat, (2 + c)%nat, s'. split; [by eapply runs_trans|]. done.
Qed.

Module LoopExample.

Definition colnames : list string := ["id"%string].
Definition rows : list (list Variant) := [[Int 1]; [Int 2]].

(** A loop over the last result whose body resets the constraints of results. *)
Definition tree : list node := [Ins Op_RESULT_SET_INIT (SNum 0)].

Definition enc (x : CondCode * OpCode * Z) : Z :=
  match instruction x.1.1 x.1.2 x.2 with Ok i => i | _ => 0 end.

Definition instrs : list Z :=
  map enc [(Co_ALWAYS, Op_OPEN_ITER_LAST_RESULT, 0); (Co_NOT_IF_COND, Op_GOTO, 5);
           (Co_ALWAYS, Op_RESULT_SET_INIT, 0); (Co_ALWAYS, Op_NEXT, 0); (Co_IF_COND, Op_GOTO, 2)].

Definition state : ProgramInstance TableDb :=
  mkProgramInstance (mkProgramImage (instrs ++ [enc (Co_ALWAYS, Op_RETURN, 0)]) [] [] [] [] [] [] [] [])
    [ValueTupleSet.of_rows colnames rows] None 0 (SubroutineFrame.mk [] []) false
    [set_lastResult (StackElement_make 0 None) (Some 0%nat)] [] DatabaseError_default None.

Definition inv (k : nat) (s : ProgramInstance TableDb) : Prop := holds s 2 Co_ALWAYS Op_RESULT_SET_INIT 0.

(** A run of the body has the iterator on its row. *)
Definition on_its_row (k : nat) (s s' : ProgramInstance TableDb) : Prop := iterating 0 colnames rows s k.

Lemma body_ok : body_runs 0 colnames rows 0 (Z.of_nat (sizes tree)) inv on_its_row.
Proof.
  intros k s Hk HI Hip [Hset Ht (e & st & Hs & Hv & Hi & He)] Hl.
  set (s' := set_ip (set_stack s (set_resultFlags e (ResultFlags_init false false) :: st)) 3).
  exists 0%nat, 1%nat, s'. split_and!.
  - eapply (runs_exec 0 s _ Co_ALWAYS Op_RESULT_SET_INIT 0 e st Hs Ht); [by apply (holds_at s 2)|done|].
    intros f i _ Hof. unfold exec_op. rewrite Hof. unfold exec_result. rewrite M_bind_eq. unfold top. rewrite Hs.
    cbv beta iota zeta. rewrite M_bind_eq. unfold set_top. rewrite Hs. cbv beta iota. rewrite M_bind_eq.
    unfold inc_ip, modify. cbn. by rewrite Hip.
  - split; [done|done|]. by eexists _, _.
  - done.
  - split; [done|done|]. by eexists _, _.
  - destruct Hl as [H1 H2 H3]. by split.
  - intros _. exact HI.
Qed.

End LoopExample.

Lemma foreach_runs_body_per_row_witness :
  exists m n s', runs m LoopExample.state n s' /\ m_ip s' = 5 /\ m_cond s' = false /\
    iterating 0 LoopExample.colnames LoopExample.rows s' 2 /\
    rows_run 0 LoopExample.colnames LoopExample.rows 0 1 LoopExample.on_its_row 0
      (on_row 0 LoopExample.colnames LoopExample.rows 0 2 LoopExample.state) s'.
Proof.
  destruct (foreach_runs_body_per_row 0 LoopExample.colnames LoopExample.rows 0 Op_OPEN_ITER_LAST_RESULT (SNum 0)
    LoopExample.tree LoopExample.state Program.make LoopExample.instrs [] [LoopExample.enc (Co_ALWAYS, Op_RETURN, 0)]
    LoopExample.inv LoopExample.on_its_row) as (m & n & s' & H1 & H2 & H3 & H4 & H5).
  - by repeat constructor.
  - done.
  - repeat (constructor; [eexists; by repeat split|]). constructor.
  - reflexivity.
  - reflexivity.
  - done.
  - reflexivity.
  - reflexivity.
  - reflexivity.
  - intros a _. by eexists _, _.
  - intros _. split; [done|]. eexists. split; reflexivity.
  - exact LoopExample.body_ok.
  - exists m, n, s'. done.
Defined.
