(* ===== verification/DatabaseLanguage.v ===== *)
(** * The language of a database

    Models include/database/databaseLanguage.hpp and libwolframe_database/databaseLanguage.cpp:
    the interface to the language of embedded statements that the parser of the transaction
    language uses, and its implementation for SQL. *)
From S2P Require Import Prelude ValueTupleSet TdlTables ParseUtils.

(** ** The interface *)

(** The virtual functions of [LanguageDescription]. *)
Record LanguageDescription := {
  eoln_commentopr : string;
  stm_argument_reference : Z -> string;
  isEmbeddedStatement : list ascii -> bool;
  parseEmbeddedStatement : list ascii -> res (string * list ascii);
  isCaseSensitive : bool
}.

(** The text between two positions. *)
Definition between (start si : list ascii) : list ascii := take (length start - length si) start.

(** The text after a comment operator that was found at the begin of [si], if it is there. *)
Fixpoint strip_prefix (op si : list ascii) : option (list ascii) :=
  match op, si with
  | [], _ => Some si
  | c :: op', d :: si' => if bool_decide (c = d) then strip_prefix op' si' else None
  | _ :: _, [] => None
  end.

Fixpoint skip_eoln (si : list ascii) : list ascii :=
  match si with
  | [] => []
  | c :: si' => if bool_decide (c = newline_char) then si else skip_eoln si'
  end.

(** The end of the line, if [si] is a comment. *)
Definition after_comment (op : string) (si : list ascii) : option (list ascii) :=
  match chars op with
  | [] => None
  | op => option_map skip_eoln (strip_prefix op si)
  end.

(** ** SQL *)

Module SQL.

(** [*si > 0 && *si <= 32], [a..z], [A..Z] and digits. *)
Definition is_blank (c : ascii) : bool := (0 <? ord c) && (ord c <=? 32).
Definition is_alpha_char (c : ascii) : bool :=
  ((97 <=? ord c) && (ord c <=? 122)) || ((65 <=? ord c) && (ord c <=? 90)).
Definition is_digit_char (c : ascii) : bool := (48 <=? ord c) && (ord c <=? 57).

Fixpoint span (p : ascii -> bool) (si : list ascii) : list ascii * list ascii :=
  match si with
  | [] => ([], [])
  | c :: si' => if p c then let '(a, b) := span p si' in (c :: a, b) else ([], si)
  end.

Definition statement_keywords : list string :=
  ["select"; "update"; "insert"; "delete"; "create"; "drop"]%string.

(** Whether a character may follow the keyword of a statement. *)
Definition is_operand (c : ascii) : bool :=
  is_quote c || is_alpha_char c || bool_decide (c = "_"%char) || bool_decide (c = "$"%char)
  || bool_decide (c = "*"%char) || is_digit_char c.

Definition sql_isEmbeddedStatement (si : list ascii) : bool :=
  let si := (span is_blank si).2 in
  let '(word, si) := span is_alpha_char si in
  match si with
  | c :: _ =>
      is_blank c && bool_decide (to_lower_copy (str word) ∈ statement_keywords) &&
      match (span is_blank si).2 with
      | d :: _ => is_operand d
      | [] => false
      end
  | [] => false
  end.

Definition optab : CharTable.t := CharTable.table ";:-,.=)(<>[]{}/&%*|+-#?!$" false.

(** The loop over the tokens up to a semicolon; comments are left out. *)
Fixpoint scan_statement (fuel : nat) (start si rt : list ascii) : res (string * list ascii) :=
  match fuel with
  | O => OutOfFuel
  | S fuel' =>
      '(ch, _, si1) ← parseNextToken_op si optab;
      if bool_decide (ch = nul) then Throw (RuntimeError "embedded statement not terminated")
      else if bool_decide (ch = ";"%char) then
        Ok (str (rt ++ between start (ch :: si1)), ch :: si1)
      else if bool_decide (ch = "-"%char) then
        match after_comment "--" (ch :: si1) with
        | Some ti => scan_statement fuel' ti ti (rt ++ between start (ch :: si1))
        | None => scan_statement fuel' start si1 rt
        end
      else scan_statement fuel' start si1 rt
  end.

(** The terminating semicolon is not swallowed. *)
Definition sql_parseEmbeddedStatement (si : list ascii) : res (string * list ascii) :=
  scan_statement (S (length si)) si si [].

(** A number in decimal digits; the index of an argument is positive. *)
Fixpoint decimal_loop (fuel : nat) (n : Z) (acc : list ascii) : list ascii :=
  match fuel with
  | O => acc
  | S fuel' =>
      let acc := ascii_of_nat (48 + Z.to_nat (n mod 10)) :: acc in
      if n / 10 =? 0 then acc else decimal_loop fuel' (n / 10) acc
  end.
Definition decimal (n : Z) : string := str (decimal_loop 20 n []).

Definition sql_argument_reference (index : Z) : string := "$" +:+ decimal index.

Definition keywords : list string :=
  [ "INTO"; "FROM"; "SELECT"; "UPDATE"; "DELETE"; "CREATE"; "INSERT"; "RENAME"; "REPLACE";
    "ORDER"; "GROUP"; "IN"; "BY"; "ON"; "OF"; "DESC"; "ASC"; "DISTINCT"; "DROP"; "INNER";
    "OUTER"; "NATURAL"; "INSTEAD"; "INTERSECT"; "IS"; "JOIN"; "LEFT"; "LIKE"; "LIMIT";
    "MATCH"; "NULL"; "SET"; "TABLE"; "TEMPORARY"; "UNION"; "UNIQUE"; "VALUES"; "VIEW";
    "AND"; "OR"; "NOT" ]%string.

Definition is_keyword (w : string) : bool := existsb (iequals w) keywords.

(** Identifiers, and the underscore. *)
Definition isAlpha_sql (c : ascii) : bool := is_alpha_char c || bool_decide (c = "_"%char).

(** The loop over the assignments for one identifier, which ends at [si]. *)
Fixpoint replace_identifier (cmd : list ascii) (tok : string) (si : nat)
    (arg : list (string * string)) (rt : list ascii) (start : nat) : res (list ascii * nat) :=
  match arg with
  | [] => Ok (rt, start)
  | (name, value) :: arg' =>
      if iequals tok name then
        let upto := (si - String.length tok)%nat in
        if (upto <? start)%nat then Throw (Undefined "range with its end before its start")
        else
          let pre := take (upto - start) (drop start cmd) in
          replace_identifier cmd tok si arg' (rt ++ pre ++ chars value) si
      else replace_identifier cmd tok si arg' rt start
  end.

(** The rest of a comment operator whose first character was read; a part of it that was
    found is skipped, too. *)
Fixpoint skip_comment (op si : list ascii) : list ascii :=
  match op, si with
  | [], _ => skip_eoln si
  | c :: op', d :: si' => if bool_decide (c = d) then skip_comment op' si' else si
  | _ :: _, [] => []
  end.

Fixpoint substitute_tokens (fuel : nat) (cmd si : list ascii) (arg : list (string * string))
    (rt : list ascii) (start : nat) : res (list ascii * nat) :=
  match fuel with
  | O => OutOfFuel
  | S fuel' =>
      '(ch, tok, si) ← parseNextToken_op si optab;
      if bool_decide (ch = nul) then Ok (rt, start)
      else if isAlpha_sql ch then
        '(rt, start) ← replace_identifier cmd tok (length cmd - length si) arg rt start;
        substitute_tokens fuel' cmd si arg rt start
      else
        let si := if bool_decide (ch = "-"%char) then skip_comment ["-"%char] si else si in
        substitute_tokens fuel' cmd si arg rt start
  end.

Definition sql_substituteTemplateArguments (cmd : string) (arg : list (string * string)) : res string :=
  if existsb (fun a => is_keyword a.1) arg
  then Throw (RuntimeError "tried to use SQL keyword as template argument")
  else
    let cs := chars cmd in
    '(rt, start) ← substitute_tokens (S (length cs)) cs cs arg [] 0;
    if (start =? 0)%nat then Ok cmd else Ok (str (rt ++ drop start cs)).

End SQL.

Definition LanguageDescriptionSQL : LanguageDescription := {|
  eoln_commentopr := "--";
  stm_argument_reference := SQL.sql_argument_reference;
  isEmbeddedStatement := SQL.sql_isEmbeddedStatement;
  parseEmbeddedStatement := SQL.sql_parseEmbeddedStatement;
  isCaseSensitive := false
|}.

Example sql_statement_1 :
  parseEmbeddedStatement LanguageDescriptionSQL (chars "SELECT a -- no ; here
 FROM t WHERE x = ';$1'; DO")
  = Ok ("SELECT a 
 FROM t WHERE x = ';$1'"%string, chars "; DO").
Proof. vm_compute. reflexivity. Qed.

Example sql_statement_2 :
  isEmbeddedStatement LanguageDescriptionSQL (chars " insert  INTO t") = true /\
  isEmbeddedStatement LanguageDescriptionSQL (chars "insertThing(1)") = false.
Proof. vm_compute. done. Qed.

Example sql_template_1 :
  SQL.sql_substituteTemplateArguments "SELECT a FROM T -- T
 WHERE T.x=1" [("T"%string, "tab"%string)] = Ok "SELECT a FROM tab -- T
 WHERE tab.x=1"%string.
Proof. vm_compute. reflexivity. Qed.
