(* ===== verification/BaseStatement.v ===== *)
(** * Statements with placeholders

    Models include/database/baseStatement.hpp, src/libwolframe_database/baseStatement.cpp and
    substitutingStatement.cpp with its header: a statement of the database with placeholders
    [$1], [$2], ... is divided into its parts, values are bound to the placeholders, and the
    native statement is put together.

    Theorem: a statement as the compiler of the transaction language writes it is executed
    with every placeholder replaced by the value that was bound to it. *)
From S2P Require Import Prelude Variant ParseUtils DatabaseLanguage.

(** ** State *)

Definition MaxNofParams : Z := 32.

Module BaseStatement.

(** An element with the index 0 is a text, the others are placeholders. *)
Definition Element : Type := Z * string.

(** The sets of indices are kept as the words of the [bitset]s. *)
Record t := mk {
  m_stmtStr : string;
  m_maxParam : Z;
  m_data : list Element;
  m_nativeStmt : string;
  m_usedIdx : Z;
  m_setIdx : Z
}.

Definition make : t := mk "" 0 [] "" 0 0.

(** The copy constructor leaves out the two sets. *)
Definition copy (s : t) : t := mk (m_stmtStr s) (m_maxParam s) (m_data s) (m_nativeStmt s) 0 0.

Definition clear (s : t) : t := mk "" 0 [] "" 0 0.

Definition set_data (s : t) (x : list Element) : t :=
  mk (m_stmtStr s) (m_maxParam s) x (m_nativeStmt s) (m_usedIdx s) (m_setIdx s).
Definition set_nativeStmt (s : t) (x : string) : t :=
  mk (m_stmtStr s) (m_maxParam s) (m_data s) x (m_usedIdx s) (m_setIdx s).
Definition set_used (s : t) (maxParam used : Z) : t :=
  mk (m_stmtStr s) maxParam (m_data s) (m_nativeStmt s) used (m_setIdx s).
Definition set_set (s : t) (x : Z) : t :=
  mk (m_stmtStr s) (m_maxParam s) (m_data s) (m_nativeStmt s) (m_usedIdx s) x.

(** [std::bitset::set]. *)
Definition bitset_set (bits idx : Z) : res Z :=
  if MaxNofParams <=? idx then Throw (OutOfRange "bitset::set") else Ok (Z.setbit bits idx).

(** ** Parsing *)

(** [isdigit] of a character that is not negative; others are no digits. *)
Definition is_digit (c : ascii) : bool := (48 <=? ord c) && (ord c <=? 57).
Definition is_alpha (c : ascii) : bool :=
  ((65 <=? ord c) && (ord c <=? 90)) || ((97 <=? ord c) && (ord c <=? 122)).

(** The characters up to the closing quote and what is behind it. *)
Fixpoint skip_string (eb : ascii) (si : list ascii) (chunk : list ascii) : option (list ascii * list ascii) :=
  match si with
  | [] => None
  | c :: si1 =>
      if bool_decide (c = eb) then Some (chunk ++ [c], si1)
      else if bool_decide (c = backslash) then
        match si1 with
        | [] => None
        | d :: si2 => skip_string eb si2 (chunk ++ [c; d])
        end
      else skip_string eb si1 (chunk ++ [c])
  end.

Fixpoint read_index (si : list ascii) (idx : Z) : Z * list ascii :=
  match si with
  | c :: si' => if is_digit c then read_index si' (u32 (u32 (idx * 10) + (ord c - 48))) else (idx, si)
  | [] => (idx, [])
  end.

Definition originalSQL (s : t) : string := m_stmtStr s.
Definition nativeSQL (s : t) : string := m_nativeStmt s.

Definition in_statement (s : t) (msg : string) : exn := RuntimeError (msg +:+ originalSQL s +:+ "'").

(** The message for an index that is 0 or missing. *)
Definition illegal_index (s : t) (si : list ascii) : exn :=
  match si with
  | [] => in_statement s "illegal parameter index (lonely $ at the end) in statement'"
  | c :: _ =>
      if is_alpha c
      then in_statement s "illegal parameter index (immediately followed by identifier) in statement '"
      else if bool_decide (c = "_"%char)
      then in_statement s "illegal parameter index (immediately followed by underscore) in statement '"
      else in_statement s "illegal parameter index seen statement '"
  end.

(** A chunk of text, if it has characters. *)
Definition push_chunk (s : t) (chunk : list ascii) : t :=
  match chunk with [] => s | _ => set_data s (m_data s ++ [(0, str chunk)]) end.

Definition dollar : ascii := "$"%char.

(** The loop over the characters; [chunk] has the characters from [chunkstart] on.  The
    character behind a placeholder is not looked at. *)
Fixpoint parse_loop (fuel : nat) (si chunk : list ascii) (s : t) : t * res unit :=
  match fuel with
  | O => (s, OutOfFuel)
  | S fuel' =>
      match si with
      | [] => (push_chunk s chunk, Ok tt)
      | c :: si1 =>
          if is_quote c then
            match skip_string c si1 (chunk ++ [c]) with
            | None => (s, Throw (in_statement s "string not terminated in statement '"))
            | Some (chunk, si2) => parse_loop fuel' si2 chunk s
            end
          else if bool_decide (c = dollar) then
            let s := push_chunk s chunk in
            let '(idx, si2) := read_index si1 0 in
            if idx =? 0 then (s, Throw (illegal_index s si2))
            else if MaxNofParams <? idx then
              (s, Throw (LogicError ("More than " +:+ SQL.decimal MaxNofParams +:+ " parameters are not supported!")))
            else
              match bitset_set (m_usedIdx s) idx with
              | Ok used =>
                  let s := set_used s idx used in
                  let s := set_data s (m_data s ++ [(idx, ""%string)]) in
                  match si2 with
                  | [] => (s, Ok tt)
                  | d :: si3 => parse_loop fuel' si3 [d] s
                  end
              | Throw e => (s, Throw e)
              | OutOfFuel => (s, OutOfFuel)
              end
          else parse_loop fuel' si1 (chunk ++ [c]) s
      end
  end.

Definition parse : M t unit := fun s =>
  let si := chars (m_stmtStr s) in parse_loop (S (length si)) si [] s.

Definition init (stmtStr : string) : M t unit :=
  _ ← modify (fun _ => mk stmtStr 0 [] "" 0 0); parse.

(** ** Binding *)

Definition bind (idx : Z) (value : Variant) : M t unit := fun s =>
  if (idx <? 1) || (m_maxParam s <? idx) then
    (s, Throw (RuntimeError ("index of bind parameter is out of range, " +:+ SQL.decimal idx
           +:+ " is required to be in the range of 1.." +:+ SQL.decimal (m_maxParam s)
           +:+ " in statement '" +:+ m_stmtStr s +:+ "'")))
  else if negb (Z.testbit (m_usedIdx s) idx) then
    (s, Throw (RuntimeError ("setting value for undefined index " +:+ SQL.decimal idx
           +:+ " in statement '" +:+ m_stmtStr s +:+ "'")))
  else if Z.testbit (m_setIdx s) idx then
    (s, Throw (RuntimeError ("setting value for already defined index " +:+ SQL.decimal idx
           +:+ " in statement '" +:+ m_stmtStr s +:+ "'")))
  else (set_set s (Z.setbit (m_setIdx s) idx), Ok tt).

(** ** Substitution *)

Section Substitute.
Context (replace : Z -> res string).

Fixpoint substitute_loop (check : bool) (data : list Element) (s : t) : t * res unit :=
  match data with
  | [] => (s, Ok tt)
  | (idx, text) :: data' =>
      if idx =? 0 then substitute_loop check data' (set_nativeStmt s (m_nativeStmt s +:+ text))
      else if check && negb (Z.testbit (m_setIdx s) idx) then
        (s, Throw (RuntimeError ("requested uninitialized data for index " +:+ SQL.decimal idx
               +:+ " in statement '" +:+ m_stmtStr s +:+ "'")))
      else
        match replace idx with
        | Ok v => substitute_loop check data' (set_nativeStmt s (m_nativeStmt s +:+ v))
        | Throw e => (s, Throw e)
        | OutOfFuel => (s, OutOfFuel)
        end
  end.

Definition substitute (check : bool) : M t unit := fun s =>
  substitute_loop check (m_data s) (set_nativeStmt s "").

End Substitute.
End BaseStatement.

Module SubstitutingStatement.
Import BaseStatement.

(** [convert] is defined by the classes for a database. *)
Section Convert.
Context (convert : Variant -> string).

Record t := mk {
  base : BaseStatement.t;
  m_bind : gmap Z string
}.

Definition make : t := mk BaseStatement.make ∅.
Definition copy (s : t) : t := mk (BaseStatement.copy (base s)) (m_bind s).

Definition on_base {A} (m : M BaseStatement.t A) : M t A := fun s =>
  let '(b, r) := m (base s) in (mk b (m_bind s), r).

(** [init] calls the [clear] of this class, which forgets the bound values. *)
Definition init (stmtStr : string) : M t unit :=
  _ ← modify (fun s => mk (base s) ∅); on_base (BaseStatement.init stmtStr).

Definition clear (s : t) : t := mk (BaseStatement.clear (base s)) ∅.

Definition bind (idx : Z) (value : Variant) : M t unit :=
  _ ← on_base (BaseStatement.bind idx value);
  modify (fun s => mk (base s) (<[idx := convert value]> (m_bind s))).

Definition replace (s : t) (idx : Z) : res string :=
  match m_bind s !! idx with
  | Some v => Ok v
  | None => Throw (RuntimeError ("parameter $" +:+ SQL.decimal idx +:+ " undefined"))
  end.

Definition substitute (check : bool) : M t unit := fun s =>
  on_base (BaseStatement.substitute (replace s) check) s.

(** The values are bound in order, from the index [i] on. *)
Fixpoint bind_all (i : Z) (values : list Variant) : M t unit :=
  match values with
  | [] => mret tt
  | v :: values' => _ ← bind i v; bind_all (i + 1) values'
  end.

(** The native statement of a statement with values. *)
Definition native (stmtStr : string) (values : list Variant) : M t string :=
  _ ← init stmtStr; _ ← bind_all 1 values; _ ← substitute true;
  gets (fun s => nativeSQL (base s)).

End Convert.
End SubstitutingStatement.

(** ** Statements as they are compiled *)

(** The parts of a statement: text without quotes and placeholders, quoted strings, and
    placeholders. *)
Inductive piece :=
| Text (cs : list ascii)
| Quoted (eb : ascii) (body : list ascii)
| Param (n : Z).

(** The statement of the parts, with the text [f n] for the placeholder [n]. *)
Definition render1 (f : Z -> list ascii) (p : piece) : list ascii :=
  match p with
  | Text cs => cs
  | Quoted eb body => eb :: escape eb body ++ [eb]
  | Param n => f n
  end.
Definition render (f : Z -> list ascii) (ps : list piece) : list ascii := concat (map (render1 f) ps).

Definition placeholder (n : Z) : list ascii := chars (SQL.sql_argument_reference n).
Definition written : list piece -> list ascii := render placeholder.

Definition plain (c : ascii) : bool := negb (is_quote c) && negb (bool_decide (c = BaseStatement.dollar)).

(** What may be behind a placeholder. *)
Definition separated (ps : list piece) : bool :=
  match ps with
  | [] => true
  | Text (c :: _) :: _ => negb (BaseStatement.is_digit c)
  | _ => false
  end.

Fixpoint wf (ps : list piece) : bool :=
  match ps with
  | [] => true
  | Text cs :: ps' => forallb plain cs && wf ps'
  | Quoted eb body :: ps' => is_quote eb && wf ps'
  | Param n :: ps' => (1 <=? n) && (n <? MaxNofParams) && separated ps' && wf ps'
  end.

Definition params (ps : list piece) : list Z :=
  concat (map (fun p => match p with Param n => [n] | _ => [] end) ps).

(** Elements of a parsed statement, rendered the same way. *)
Definition render_data (f : Z -> list ascii) (data : list BaseStatement.Element) : list ascii :=
  concat (map (fun e : BaseStatement.Element => if e.1 =? 0 then chars e.2 else f e.1) data).
Definition data_params (data : list BaseStatement.Element) : list Z := List.filter (fun n => negb (n =? 0)) (map fst data).

Module BaseStatementFacts.
Import BaseStatement.

Lemma skip_string_escape eb body : forall chunk rest,
  is_quote eb = true ->
  skip_string eb (escape eb body ++ eb :: rest) chunk = Some (chunk ++ escape eb body ++ [eb], rest).
Proof.
  intros chunk rest Heb. assert (eb <> backslash) as Hb.
  { unfold is_quote in Heb. apply orb_true_iff in Heb as [?%bool_decide_eq_true|?%bool_decide_eq_true]; by subst. }
  revert chunk. induction body as [|c body IH]; intros chunk; cbn [escape app].
  - cbn [skip_string]. by rewrite bool_decide_true.
  - destruct (bool_decide (c = eb) || bool_decide (c = backslash)) eqn:E; cbn [app skip_string].
    + rewrite bool_decide_false, bool_decide_true by (try done; congruence). rewrite IH, <- !app_assoc. done.
    + apply orb_false_iff in E as [E1 E2]. rewrite E1, E2, IH, <- !app_assoc. done.
Qed.

(** Reading the digits of an index that was printed. *)
Lemma read_index_decimal n rest :
  1 <= n < MaxNofParams -> match rest with [] => True | c :: _ => is_digit c = false end ->
  exists c cs, chars (SQL.decimal n) = c :: cs /\ read_index (chars (SQL.decimal n) ++ rest) 0 = (n, rest).
Proof.
  intros Hn Hrest. assert (forall idx, read_index rest idx = (idx, rest)) as Hend.
  { intros idx. destruct rest as [|c rest]; [done|]. cbn. by rewrite Hrest. }
  assert (n ∈ seqZ 1 31) as Hin by (apply elem_of_seqZ; change MaxNofParams with 32 in Hn; lia).
  cbn in Hin. repeat (apply elem_of_cons in Hin as [->|Hin];
    [eexists _, _; split; [reflexivity|cbn; apply Hend]|]). by apply not_elem_of_nil in Hin.
Qed.

(** ** Parsing *)

Lemma parse_text cs : forall fuel rest chunk s,
  forallb plain cs = true -> (length cs < fuel)%nat ->
  parse_loop fuel (cs ++ rest) chunk s = parse_loop (fuel - length cs) rest (chunk ++ cs) s.
Proof.
  induction cs as [|c cs IH]; intros fuel rest chunk s Hp Hf.
  - by rewrite app_nil_r, Nat.sub_0_r.
  - cbn in Hp. apply andb_true_iff in Hp as [Hc Hp]. apply andb_true_iff in Hc as [Hq Hd].
    apply negb_true_iff in Hq, Hd. destruct fuel as [|fuel]; [cbn in Hf; lia|]. cbn [app parse_loop].
    rewrite Hq, Hd, IH by (try done; cbn in Hf; lia). by rewrite <- app_assoc.
Qed.

Definition chunk_data (chunk : list ascii) : list Element :=
  match chunk with [] => [] | _ => [(0, str chunk)] end.

Lemma push_chunk_eq s chunk : push_chunk s chunk = set_data s (m_data s ++ chunk_data chunk).
Proof. destruct chunk; cbn; [rewrite app_nil_r; by destruct s|done]. Qed.

Lemma render_data_app f d d' : render_data f (d ++ d') = render_data f d ++ render_data f d'.
Proof. unfold render_data. by rewrite map_app, concat_app. Qed.

Lemma data_params_app d d' : data_params (d ++ d') = data_params d ++ data_params d'.
Proof. unfold data_params. by rewrite map_app, List.filter_app. Qed.

Lemma render_chunk f chunk : render_data f (chunk_data chunk) = chunk.
Proof.
  destruct chunk as [|c chunk]; [done|]. unfold chunk_data, render_data. cbn [map concat fst snd].
  rewrite app_nil_r. apply String.list_ascii_of_string_of_list_ascii.
Qed.

Lemma chunk_params chunk : data_params (chunk_data chunk) = [].
Proof. by destruct chunk. Qed.

Definition piece_size (ps : list piece) : nat := (length (written ps) + length ps)%nat.

(** What parsing the parts [ps] behind the text [chunk] does to a statement. *)
Record parsed (chunk : list ascii) (ps : list piece) (s s' : t) : Prop := {
  parsed_data : exists D, m_data s' = m_data s ++ D /\ data_params D = params ps /\
    forall f, render_data f D = chunk ++ render f ps;
  parsed_str : m_stmtStr s' = m_stmtStr s;
  parsed_set : m_setIdx s' = m_setIdx s;
  parsed_max : m_maxParam s' = default (m_maxParam s) (last (params ps));
  parsed_used : forall i, Z.testbit (m_usedIdx s') i = Z.testbit (m_usedIdx s) i || bool_decide (i ∈ params ps)
}.

(** A statement with a placeholder pushed behind a chunk. *)
Definition push_param (s : t) (chunk : list ascii) (n : Z) : t :=
  let s1 := set_used (push_chunk s chunk) n (Z.setbit (m_usedIdx s) n) in
  set_data s1 (m_data s1 ++ [(n, ""%string)]).

Lemma parsed_behind_param chunk n ps c ps' s s' :
  1 <= n -> parsed c ps (push_param s chunk n) s' ->
  params ps' = params ps -> (forall f, render f ps' = c ++ render f ps) ->
  parsed chunk (Param n :: ps') s s'.
Proof.
  intros Hn [(D & HD & Hp & Hr) H2 H3 H4 H5] Hps Hf.
  assert ((n =? 0) = false) as Hn0 by (apply Z.eqb_neq; lia).
  unfold push_param in *. rewrite push_chunk_eq in *. cbn in *.
  assert (params (Param n :: ps') = n :: params ps) as Hpar by (unfold params in *; cbn; by rewrite Hps).
  split; rewrite ?Hpar; try done.
  - exists (chunk_data chunk ++ (n, ""%string) :: D). split; [by rewrite HD, <- !app_assoc|]. split.
    + rewrite data_params_app, chunk_params. unfold data_params in *. cbn [map fst List.filter app]. by rewrite Hn0, Hp.
    + intros f. rewrite render_data_app, render_chunk. unfold render_data in *. cbn [map concat fst snd]. rewrite Hn0, Hr.
      unfold render in *. cbn. by rewrite Hf.
  - rewrite H4, last_cons. by destruct (last (params ps)).
  - intros i. rewrite H5. destruct (decide (i = n)) as [->|Hne].
    + rewrite Z.setbit_eq by lia. rewrite (bool_decide_true (n ∈ _ :: _)) by apply list_elem_of_here.
      by rewrite orb_true_r.
    + rewrite Z.setbit_neq by lia. f_equal. apply bool_decide_ext. rewrite elem_of_cons. naive_solver.
Qed.

Lemma parsed_text chunk cs ps s s' :
  parsed (chunk ++ cs) ps s s' -> forall p, params (p :: ps) = params ps -> (forall f, render1 f p = cs) ->
  parsed chunk (p :: ps) s s'.
Proof.
  intros [(D & HD & Hp & Hr) H2 H3 H4 H5] p Hpar Hf. split; rewrite ?Hpar; try done.
  exists D. split_and!; [done|done|]. intros f. rewrite Hr, <- app_assoc. unfold render. cbn. by rewrite Hf.
Qed.

Lemma written_cons p ps : written (p :: ps) = render1 placeholder p ++ written ps.
Proof. done. Qed.

Lemma parsed_nil chunk s : parsed chunk [] s (push_chunk s chunk).
Proof.
  rewrite push_chunk_eq. split; try done.
  - exists (chunk_data chunk). split_and!; [done|apply chunk_params|]. intros f. by rewrite render_chunk, app_nil_r.
  - intros i. cbn. by rewrite orb_false_r.
Qed.

(** A placeholder. *)
Lemma parse_param fuel n rest chunk s :
  1 <= n < MaxNofParams -> match rest with [] => True | c :: _ => is_digit c = false end ->
  parse_loop (S fuel) (placeholder n ++ rest) chunk s =
  match rest with
  | [] => (push_param s chunk n, Ok tt)
  | d :: rest' => parse_loop fuel rest' [d] (push_param s chunk n)
  end.
Proof.
  intros Hn Hrest. destruct (read_index_decimal n rest Hn Hrest) as (c & cs & _ & Hr).
  assert (placeholder n = dollar :: chars (SQL.decimal n)) as -> by done.
  cbn [app parse_loop]. change (is_quote dollar) with false. rewrite bool_decide_true by done. rewrite Hr.
  change MaxNofParams with 32 in *.
  rewrite (proj2 (Z.eqb_neq n 0)), (proj2 (Z.ltb_ge 32 n)) by lia. unfold bitset_set. change MaxNofParams with 32.
  rewrite (proj2 (Z.leb_gt 32 n)) by lia. unfold push_param. rewrite push_chunk_eq. by destruct rest.
Qed.

Lemma separated_rest ps : separated ps = true -> match written ps with [] => True | c :: _ => is_digit c = false end.
Proof.
  destruct ps as [|[[|c cs]|eb b|n] ps]; try done. cbn. by intros ?%negb_true_iff.
Qed.

Lemma parse_pieces N : forall ps fuel chunk s,
  (piece_size ps <= N)%nat -> wf ps = true -> (length (written ps) < fuel)%nat ->
  exists s', parse_loop fuel (written ps) chunk s = (s', Ok tt) /\ parsed chunk ps s s'.
Proof.
  induction N as [|N IH]; intros ps fuel chunk s HN Hwf Hf.
  all: destruct ps as [|[cs|eb body|n] ps]; try (unfold piece_size in HN; cbn in HN; lia).
  all: try (destruct fuel as [|fuel]; [lia|]; eexists; split; [reflexivity|apply parsed_nil]).
  all: unfold piece_size in HN; rewrite written_cons in *; cbn [render1 length] in *;
    rewrite !length_app in *; cbn [wf] in Hwf.
  - apply andb_true_iff in Hwf as [Hc Hwf].
    rewrite parse_text by (try done; lia).
    destruct (IH ps (fuel - length cs)%nat (chunk ++ cs) s) as (s' & H1 & H2); [unfold piece_size; lia|done|lia|].
    exists s'. split; [done|]. by eapply parsed_text.
  - apply andb_true_iff in Hwf as [Hq Hwf]. cbn [length] in *. rewrite length_app in *. cbn [length] in *.
    destruct fuel as [|fuel]; [lia|]. cbn [app parse_loop]. rewrite Hq, <- app_assoc. cbn [app].
    rewrite skip_string_escape by done.
    destruct (IH ps fuel ((chunk ++ [eb]) ++ escape eb body ++ [eb]) s) as (s' & H1 & H2); [unfold piece_size; lia|done|lia|].
    exists s'. split; [done|]. rewrite <- app_assoc in H2. by eapply parsed_text.
  - apply andb_true_iff in Hwf as [Hwf Hps]. apply andb_true_iff in Hwf as [Hn Hsep].
    apply andb_true_iff in Hn as [Hn1 Hn2]. apply Z.leb_le in Hn1. apply Z.ltb_lt in Hn2.
    destruct fuel as [|fuel]; [lia|]. rewrite parse_param by (try done; by apply separated_rest).
    assert (0 < length (placeholder n))%nat as Hlp by (change (placeholder n) with (dollar :: chars (SQL.decimal n)); cbn [length]; lia).
    destruct ps as [|[[|c cs]|eb body|m] ps]; try done.
    + eexists. split; [reflexivity|]. apply (parsed_behind_param _ _ [] []); try done.
      pose proof (parsed_nil [] (push_param s chunk n)) as Hp. exact Hp.
    + rewrite written_cons in *. cbn [render1 app length] in *. rewrite length_app in *. cbn [wf forallb] in Hps.
      apply andb_true_iff in Hps as [[Hc Hcs]%andb_true_iff Hps].
      destruct (IH (Text cs :: ps) fuel [c] (push_param s chunk n)) as (s' & H1 & H2).
      * unfold piece_size. rewrite written_cons. cbn [render1 length]. rewrite length_app. lia.
      * cbn [wf]. by rewrite Hcs, Hps.
      * rewrite written_cons. cbn [render1]. rewrite length_app. lia.
      * exists s'. split; [exact H1|]. by eapply (parsed_behind_param _ _ (Text cs :: ps) [c]).
Qed.

End BaseStatementFacts.

Lemma str_app a b : str (a ++ b) = (str a +:+ str b)%string.
Proof. induction a as [|c a IH]; [done|]. change (String c (str (a ++ b)) = String c (str a +:+ str b)). by rewrite IH. Qed.

Lemma append_empty s : (s +:+ "")%string = s.
Proof. induction s as [|c s IH]; [done|]. change (String c (s +:+ "") = String c s). by rewrite IH. Qed.

Lemma append_assoc_str a b c : ((a +:+ b) +:+ c = a +:+ (b +:+ c))%string.
Proof. induction a as [|x a IH]; [done|]. change (String x ((a +:+ b) +:+ c) = String x (a +:+ (b +:+ c))). by rewrite IH. Qed.

Module SubstitutingStatementFacts.
Import BaseStatement BaseStatementFacts SubstitutingStatement.

(** ** Substitution *)

Lemma substitute_render replace f data : forall s,
  (forall n, n ∈ data_params data -> Z.testbit (m_setIdx s) n = true /\ replace n = Ok (str (f n))) ->
  substitute_loop replace true data s = (set_nativeStmt s (m_nativeStmt s +:+ str (render_data f data))%string, Ok tt).
Proof.
  induction data as [|[n text] data IH]; intros s H; cbn [substitute_loop].
  - cbn. rewrite append_empty. by destruct s.
  - unfold render_data, data_params in *. cbn [map concat fst snd List.filter] in *. rewrite str_app.
    destruct (n =? 0) eqn:E; cbn [negb] in H.
    + rewrite IH by exact H. cbn. rewrite append_assoc_str. f_equal. f_equal.
      by rewrite String.string_of_list_ascii_of_string.
    + destruct (H n (list_elem_of_here _ _)) as [-> ->]. cbn [andb negb].
      rewrite IH; [cbn; by rewrite append_assoc_str|]. intros m Hm. apply H. by apply list_elem_of_further.
Qed.

(** ** Binding *)

Section Bind.
Context (convert : Variant -> string).

(** The statement with the values bound from the index [i] on. *)
Record bound (i : Z) (values : list Variant) (s s' : SubstitutingStatement.t) : Prop := {
  bound_data : m_data (base s') = m_data (base s);
  bound_set : forall n, Z.testbit (m_setIdx (base s')) n =
    Z.testbit (m_setIdx (base s)) n || ((i <=? n) && (n <? i + Z.of_nat (length values)));
  bound_value : forall n v, i <= n -> values !! Z.to_nat (n - i) = Some v -> m_bind s' !! n = Some (convert v);
  bound_other : forall n, n < i -> m_bind s' !! n = m_bind s !! n
}.

Lemma bind_all_bound values : forall i s,
  1 <= i -> i + Z.of_nat (length values) - 1 <= m_maxParam (base s) ->
  (forall n, 1 <= n <= m_maxParam (base s) -> Z.testbit (m_usedIdx (base s)) n = true) ->
  (forall n, i <= n -> Z.testbit (m_setIdx (base s)) n = false) ->
  exists s', bind_all convert i values s = (s', Ok tt) /\ bound i values s s'.
Proof.
  induction values as [|v values IH]; intros i s Hi Hmax Hused Hset.
  - exists s. split; [done|]. split; try done. intros n.
    replace (_ && _) with false; [by rewrite orb_false_r|]. cbn. symmetry. apply andb_false_iff.
    destruct (Z.leb_spec i n); [right; apply Z.ltb_ge; lia|by left].
  - cbn [length] in Hmax. cbn [bind_all]. rewrite M_bind_eq. unfold bind at 1. rewrite M_bind_eq. unfold on_base, BaseStatement.bind.
    rewrite (proj2 (Z.ltb_ge i 1)), (proj2 (Z.ltb_ge _ i)) by lia. cbn [orb]. rewrite Hused by lia. cbn [negb].
    rewrite Hset by lia. unfold modify. cbn [base m_bind].
    destruct (IH (i + 1) (SubstitutingStatement.mk (set_set (base s) (Z.setbit (m_setIdx (base s)) i))
      (<[i:=convert v]> (m_bind s)))) as (s' & H1 & [B1 B2 B3 B4]).
    + lia.
    + cbn. lia.
    + exact Hused.
    + intros n Hn. cbn. rewrite Z.setbit_neq by lia. apply Hset. lia.
    + exists s'. split; [exact H1|]. cbn in *. split.
      * exact B1.
      * intros n. rewrite B2. destruct (decide (n = i)) as [->|Hne].
        -- rewrite Z.setbit_eq by lia. rewrite (proj2 (Z.leb_le i i)), (proj2 (Z.ltb_lt i (i + Z.of_nat (length (v :: values))))) by (cbn [length]; lia).
           cbn. by rewrite orb_true_r.
        -- rewrite Z.setbit_neq by lia. f_equal. destruct (Z.leb_spec i n), (Z.leb_spec (i + 1) n); try lia; try done.
           cbn [andb length]. f_equal. lia.
      * intros n x Hn Hx. destruct (decide (n = i)) as [->|Hne].
        -- rewrite B4 by lia. rewrite Z.sub_diag in Hx. injection Hx as <-. apply lookup_insert_eq.
        -- apply B3; [lia|]. replace (Z.to_nat (n - i)) with (S (Z.to_nat (n - (i + 1)))) in Hx by lia. exact Hx.
      * intros n Hn. rewrite B4 by lia. apply lookup_insert_ne. lia.
Qed.

Lemma last_seqZ n : default 0 (last (seqZ 1 (Z.of_nat n))) = Z.of_nat n.
Proof. destruct n as [|n]; [done|]. rewrite seqZ_S, last_snoc. unfold default, from_option, id. lia. Qed.

(** The text for the placeholder [n] of the values. *)
Definition value_of (values : list Variant) (n : Z) : list ascii :=
  chars (from_option convert ""%string (values !! Z.to_nat (n - 1))).

(** After [init] with a written statement the object depends on the statement only. *)
Lemma init_parsed ps s :
  wf ps = true -> exists b, init (str (written ps)) s = (SubstitutingStatement.mk b ∅, Ok tt) /\
    parsed [] ps (BaseStatement.mk (str (written ps)) 0 [] "" 0 0) b.
Proof.
  intros Hwf. unfold init. rewrite M_bind_eq. unfold modify, on_base, BaseStatement.init. cbn [base m_bind].
  rewrite M_bind_eq. unfold BaseStatement.parse, modify. cbn [m_stmtStr].
  rewrite String.list_ascii_of_string_of_list_ascii.
  destruct (parse_pieces (piece_size ps) ps (S (length (written ps))) []
    (BaseStatement.mk (str (written ps)) 0 [] "" 0 0)) as (b & H1 & H2); [lia|done|lia|].
  exists b. split; [|exact H2]. by rewrite H1.
Qed.

(** C21. A statement as the compiler of the transaction language writes it, executed with the
    values for its placeholders on a statement object in any state: the native statement is
    the text with every placeholder replaced by the converted value that was bound to it;
    quoted strings are left alone and nothing of an earlier statement is left. *)
Theorem native_statement ps values s :
  wf ps = true -> params ps = seqZ 1 (Z.of_nat (length values)) ->
  (native convert (str (written ps)) values s).2 = Ok (str (render (value_of values) ps)).
Proof.
  intros Hwf Hpar. unfold native. rewrite M_bind_eq.
  destruct (init_parsed ps s Hwf) as (b & -> & [(D & HD & Hp & Hr) _ Hset Hmax Hused]). cbn in HD, Hset, Hmax, Hused.
  rewrite Hpar, last_seqZ in Hmax. rewrite M_bind_eq.
  destruct (bind_all_bound values 1 (SubstitutingStatement.mk b ∅)) as (s2 & -> & [B1 B2 B3 _]); cbn [base].
  - lia.
  - lia.
  - intros n Hn. rewrite Hused, Hpar, Z.bits_0. apply bool_decide_eq_true_2, elem_of_seqZ. lia.
  - intros n _. by rewrite Hset, Z.bits_0.
  - rewrite M_bind_eq. unfold substitute, on_base, BaseStatement.substitute.
    cbn in B1. rewrite B1, HD, (substitute_render _ (value_of values)).
    + cbn. by rewrite Hr.
    + intros n Hn. rewrite Hp, Hpar in Hn. apply elem_of_seqZ in Hn. cbn [set_nativeStmt m_setIdx]. split.
      * rewrite B2. apply orb_true_iff. right. apply andb_true_iff. split; lia.
      * unfold replace, value_of. destruct (lookup_lt_is_Some_2 values (Z.to_nat (n - 1))) as [v Hv]; [lia|].
        rewrite (B3 n v) by (done || lia). rewrite Hv. cbn. by rewrite String.string_of_list_ascii_of_string.
Qed.
End Bind.

(** [SELECT a FROM t WHERE a = $1 AND b = 'x$2' AND c > $2], with two numbers. *)
Definition example_pieces : list piece :=
  [ Text (chars "SELECT a FROM t WHERE a = "); Param 1; Text (chars " AND b = ");
    Quoted "'"%char (chars "x$2"); Text (chars " AND c > "); Param 2 ].

Definition example_convert (v : Variant) : string := match v with Int z => SQL.decimal z | _ => "NULL" end.

Lemma native_statement_witness :
  (native example_convert (str (written example_pieces)) [Int 7; Int 12] SubstitutingStatement.make).2 =
    Ok "SELECT a FROM t WHERE a = 7 AND b = 'x$2' AND c > 12"%string.
Proof. apply (native_statement example_convert example_pieces [Int 7; Int 12]); reflexivity. Defined.
End SubstitutingStatementFacts.

(** ** Where the code and its comments disagree *)
Module BaseStatementDivergences.
Import BaseStatement SubstitutingStatement SubstitutingStatementFacts.

(** [m_maxParam], the maximum index by its comment, is the index of the last placeholder. *)
Lemma maximum_is_last_index :
  (native example_convert "a = $2 and b = $1" [Int 7; Int 12] SubstitutingStatement.make).2 =
    Throw (RuntimeError "index of bind parameter is out of range, 2 is required to be in the range of 1..1 in statement 'a = $2 and b = $1'").
Proof. reflexivity. Qed.

(** The character behind a placeholder is skipped: a placeholder there is taken as text, and a
    quote there does not begin a string. *)
Lemma adjacent_placeholder_is_text :
  (native example_convert "$1$2" [Int 7] SubstitutingStatement.make).2 = Ok "7$2"%string /\
  (native example_convert "$1'$2'" [Int 7; Int 12] SubstitutingStatement.make).2 = Ok "7'12'"%string.
Proof. split; reflexivity. Qed.

(** The limit of 32 parameters does not refuse the index 32, which the sets do not have. *)
Lemma parameter_32_is_out_of_range :
  (BaseStatement.init "$32" BaseStatement.make).2 = Throw (OutOfRange "bitset::set") /\
  (BaseStatement.init "$33" BaseStatement.make).2 = Throw (LogicError "More than 32 parameters are not supported!").
Proof. split; reflexivity. Qed.

(** A large index wraps around. *)
Lemma parameter_index_wraps :
  (native example_convert "a = $4294967297" [Int 7] SubstitutingStatement.make).2 = Ok "a = 7"%string.
Proof. reflexivity. Qed.

(** A copy of a statement has no placeholder that can be bound. *)
Lemma copied_statement_refuses_values (s : BaseStatement.t) idx v :
  exists msg, (BaseStatement.bind idx v (BaseStatement.copy s)).2 = Throw (RuntimeError msg).
Proof.
  unfold BaseStatement.bind. destruct ((idx <? 1) || _); [by eexists|].
  cbn. rewrite Z.testbit_0_l. by eexists.
Qed.

End BaseStatementDivergences.
