(* ===== verification/TdlParse.v ===== *)
(** * Parsing the transaction language

    Models the parser of src/modules/cmdbind/tdl/tdl/: parseUtils.hpp and parseUtils.cpp,
    elementReference.cpp, embeddedStatement.cpp, subroutineCallStatement.cpp,
    auditElementReference.cpp, auditCallStatement.cpp, preprocElementReference.cpp,
    preprocCallStatement.cpp, preprocBlock.cpp and commandDefinition.cpp.  A parser takes the
    text that is left and returns what it has parsed and the text behind it. *)
From S2P Require Import Prelude Variant ValueTupleSet ProgramImage TdlTables SelectorPath ParseUtils TdlProgram Tdl2vm TdlCommand DatabaseLanguage.

(** ** Characters and tokens *)

Definition isAlpha (ch : ascii) : bool :=
  ((65 <=? ord ch) && (ord ch <=? 90)) || ((97 <=? ord ch) && (ord ch <=? 122)) || (ord ch =? 95).
Definition isDigit (ch : ascii) : bool := (48 <=? ord ch) && (ord ch <=? 57).
Definition isAlphaNumeric (ch : ascii) : bool := isDigit ch || isAlpha ch.

Definition g_tdl_optab : CharTable.t := CharTable.table ";:-,.=)(<>[]{}/&%*|+-#?!$" false.

Definition isIdentifier (s : string) : bool :=
  match chars s with
  | [] => false
  | c :: cs => isAlpha c && forallb isAlphaNumeric cs
  end.

(** The part of a selector behind its last slash. *)
Fixpoint last_element (si lastElemStart : list ascii) : list ascii :=
  match si with
  | [] => lastElemStart
  | c :: si' => if bool_decide (c = "/"%char) then last_element si' si' else last_element si' lastElemStart
  end.

Definition extractImplicitNameFromSelector (selector : string) : string :=
  if bool_decide (selector = "."%string) then ""%string
  else str (last_element (chars selector) (chars selector)).

Definition errorTokenString (ch : ascii) (tok : string) : string :=
  if g_tdl_optab ch then str [ch]
  else if is_quote ch then "string " +:+ str [ch] +:+ tok +:+ str [ch]
  else if bool_decide (ch = nul) then "end of file"
  else tok.

Definition fail {A} (msg : string) : res A := Throw (RuntimeError msg).

(** A table of keywords with fewer than a hundred entries. *)
Definition keyword_table (arg : list string) : IdentifierTable.t :=
  match IdentifierTable.make false arg with
  | Ok it => it
  | _ => IdentifierTable.mk false [] arg
  end.

(** The next character without reading it: the null character behind the text. *)
Definition peek (si : list ascii) : ascii := match si with [] => nul | c :: _ => c end.

Section Parser.
Context (langdescr : LanguageDescription).

(** Comments of the database language are skipped. *)
Fixpoint goto_loop (fuel : nat) (si : list ascii) : res (ascii * list ascii) :=
  match fuel with
  | O => OutOfFuel
  | S fuel' =>
      let '(ch, si) := ParseUtils.gotoNextToken si in
      match after_comment (eoln_commentopr langdescr) si with
      | Some ti => goto_loop fuel' ti
      | None => Ok (ch, si)
      end
  end.

Definition gotoNextToken (si : list ascii) : res (ascii * list ascii) := goto_loop (S (length si)) si.

Definition parseNextToken (si : list ascii) : res (ascii * string * list ascii) :=
  '(ch, si) ← gotoNextToken si;
  if bool_decide (ch = nul) then Ok (nul, ""%string, si) else parseNextToken_op si g_tdl_optab.

(** The text is left where it was if the keyword is not found. *)
Definition parseKeyword (keyword : string) (si : list ascii) : res (bool * list ascii) :=
  '(ch, tok, rest) ← parseNextToken si;
  if isAlpha ch && iequals tok keyword then Ok (true, rest) else Ok (false, si).

(** ** Names and lists *)

Fixpoint into_loop (fuel : nat) (si : list ascii) (rt : list string) : res (list string * list ascii) :=
  match fuel with
  | O => OutOfFuel
  | S fuel' =>
      '(ch, output, si) ← parseNextToken si;
      if bool_decide (ch = nul)
      then fail "unexpected end of description. result tag path expected after INTO"
      else
        let output := if bool_decide (ch = "."%char) && bool_decide (output = ""%string)
                      then "."%string else output in
        if bool_decide (output = ""%string) then fail "identifier or '.' expected after INTO"
        else
          let rt := if bool_decide (last rt = Some "."%string) then removelast rt else rt in
          let rt := rt ++ [output] in
          '(ch, si) ← gotoNextToken si;
          if bool_decide (ch = "."%char)
          then fail "unexpected dot '.' in INPUT PATH only single dot allowed"
          else if bool_decide (ch = "/"%char) then into_loop fuel' (tl si) rt
          else Ok (rt, si)
  end.

Definition parse_INTO_path (si : list ascii) : res (list string * list ascii) :=
  into_loop (S (length si)) si [].

(** The exceptions for misplaced commas are created, but not thrown: commas may be missing. *)
Fixpoint arguments_loop (fuel : nat) (eb : ascii) (si : list ascii) (rt : list string)
    : res (list string * list ascii) :=
  match fuel with
  | O => OutOfFuel
  | S fuel' =>
      '(ch, tok, si) ← parseNextToken si;
      if bool_decide (ch = nul) then fail "unexpected end of argument list"
      else if bool_decide (ch = eb) then Ok (rt, si)
      else if negb (isAlpha ch)
      then fail ("argument is not an identifier: '" +:+ errorTokenString ch tok +:+ "'")
      else
        let rt := rt ++ [tok] in
        '(ch, _, si) ← parseNextToken si;
        if bool_decide (ch = eb) then Ok (rt, si) else arguments_loop fuel' eb si rt
  end.

Definition parseArguments (sb eb : ascii) (si : list ascii) : res (list string * list ascii) :=
  '(ch, si) ← gotoNextToken si;
  if bool_decide (ch = sb) then arguments_loop (S (length si)) eb (tl si) [] else Ok ([], si).

Definition parseTemplateArguments := parseArguments "<" ">".
Definition parseCallArguments := parseArguments "(" ")".

(** The message for a keyword that occurs twice is the keyword behind it in the table. *)
Definition checkUniqOccurrence (id : Z) (mask : Z) (idtab : IdentifierTable.t) : res Z :=
  let idshft := u32 (Z.shiftl 1 (id + 1)) in
  if negb (Z.land mask idshft =? 0) then
    s ← IdentifierTable.idstring idtab id; fail (s +:+ " specified twice in a command")
  else Ok (Z.lor mask idshft).

Definition g_function_optab : CharTable.t := CharTable.table ",)(" false.
Definition g_function_idtab : CharTable.t := CharTable.table "a..zA..Z0..9_." false.

Definition parseFunctionName (si : list ascii) : res (string * list ascii) :=
  '(ch, si) ← gotoNextToken si;
  if bool_decide (ch = nul) then fail "unexpected end of transaction (function name expected)"
  else if negb (isAlphaNumeric ch) then fail "unexpected token (function name expected)"
  else '(_, rt, si) ← ParseUtils.parseNextToken si g_function_optab g_function_idtab; Ok (rt, si).

Definition parseResourceName := parseFunctionName.

Definition g_path_optab : CharTable.t := CharTable.table ";,)(" false.
Definition g_path_idtab : CharTable.t := CharTable.table ";,)(" true.

Definition parseSelectorPath (si : list ascii) : res (string * list ascii) :=
  '(_, si) ← gotoNextToken si;
  '(ch, rt, si) ← ParseUtils.parseNextToken si g_path_optab g_path_idtab;
  if bool_decide (ch = nul) then fail "unexpected end of file (selector path expression expected)"
  else if is_quote ch then fail "unexpected string token (selector path expression expected)"
  else Ok (rt, si).

Definition parseFilename (si : list ascii) : res (string * list ascii) :=
  '(_, si) ← gotoNextToken si;
  '(ch, rt, si) ← ParseUtils.parseNextToken si emptyCharTable anyCharTable;
  if bool_decide (ch = nul) then fail "unexpected end of file (filename expected)" else Ok (rt, si).

Definition parseSubroutineName (si : list ascii) : res (string * list ascii) :=
  '(rt, si) ← parseFunctionName si;
  if isIdentifier rt then Ok (rt, si)
  else fail "identifier expected for transaction function or subroutine name".

Definition parseResultName := parseSubroutineName.

(** [name =]: whether there is an assignment, and the name; a dot has no name. *)
Definition parseNameAssignment (si : list ascii) : res (bool * string * list ascii) :=
  '(ch, si1) ← gotoNextToken si;
  if isAlphaNumeric ch || bool_decide (ch = "."%char) then
    '(_, tok, si2) ← parseNextToken si1;
    '(ch, si2) ← gotoNextToken si2;
    if bool_decide (ch = "="%char) then
      '(_, si3) ← gotoNextToken (tl si2);
      Ok (true, if bool_decide (tok = "."%string) then ""%string else tok, si3)
    else Ok (false, ""%string, si)
  else Ok (false, ""%string, si1).

(** ** References *)

(** [boost::algorithm::trim_copy]: blanks of the classic locale. *)
Definition is_space (c : ascii) : bool := (ord c =? 32) || ((9 <=? ord c) && (ord c <=? 13)).
Fixpoint trim_left (cs : list ascii) : list ascii :=
  match cs with
  | c :: cs' => if is_space c then trim_left cs' else cs
  | [] => []
  end.
Definition trim (cs : list ascii) : list ascii := rev (trim_left (rev (trim_left cs))).

(** The tokens up to a bracket or the end. *)
Fixpoint to_bracket (fuel : nat) (sb eb : ascii) (si : list ascii) : res (ascii * list ascii) :=
  match fuel with
  | O => OutOfFuel
  | S fuel' =>
      '(ch, _, si) ← parseNextToken si;
      if bool_decide (ch = nul) || bool_decide (ch = sb) || bool_decide (ch = eb) then Ok (ch, si)
      else to_bracket fuel' sb eb si
  end.

(** [boost::lexical_cast<std::size_t>] of digits. *)
Fixpoint digits_value (cs : list ascii) (v : Z) : Z :=
  match cs with
  | [] => v
  | c :: cs' => digits_value cs' (10 * v + (ord c - 48))
  end.
Definition lexical_cast_size_t (cs : list ascii) : res Z :=
  let v := digits_value cs 0 in if v <? 2 ^ 64 then Ok v else Throw BadCast.

Definition expected_reference {A} : res A :=
  fail "expected open bracket '(' or alphanumeric result reference".

(** The namespace of a reference, [name.]. *)
Definition parse_namespace (si : list ascii) : string * list ascii :=
  if isAlpha (peek si) then
    let '(word, rest) := SQL.span isAlphaNumeric si in
    if bool_decide (peek rest = "."%char) then (str word, tl rest) else (""%string, si)
  else (""%string, si).

Definition parseEmbeddedReference (si : list ascii) : res (ElementReference.t * list ascii) :=
  let '(ch, si) := ParseUtils.gotoNextToken si in
  if bool_decide (ch = "("%char) || bool_decide (ch = "{"%char) then
    let eb := if bool_decide (ch = "("%char) then ")"%char else "}"%char in
    let argstart := tl si in
    '(ch', rest) ← to_bracket (S (length argstart)) ch eb argstart;
    if bool_decide (ch' = eb) then
      let text := take (length argstart - length rest - 1) argstart in
      Ok (ElementReference.of_selector ElementReference.SelectorPath (str (trim text)), rest)
    else fail ("missing close bracket for expression" +:+
                 (if bool_decide (eb = ")"%char) then "')'" else "']'"))
  else if bool_decide (ch = "#"%char) then
    Ok (ElementReference.of_type ElementReference.LoopCounter, tl si)
  else if isAlphaNumeric ch then
    let '(namspace, si) := parse_namespace si in
    let ch := peek si in
    if isDigit ch then
      let '(digits, rest) := SQL.span isDigit si in
      if isAlphaNumeric (peek rest)
      then fail "operator or space expected after numeric reference"
      else
        i ← lexical_cast_size_t digits;
        Ok (ElementReference.of_index ElementReference.IndexSetElement namspace i, rest)
    else if isAlpha ch then
      let '(name, rest) := SQL.span isAlphaNumeric si in
      Ok (ElementReference.of_name ElementReference.NamedSetElement namspace (str name), rest)
    else expected_reference
  else expected_reference.

Definition parsePlainReference (si : list ascii) : res (ElementReference.t * list ascii) :=
  '(ch, si) ← gotoNextToken si;
  if is_quote ch || isDigit ch then
    '(_, tok, si) ← parseNextToken si;
    Ok (ElementReference.of_selector ElementReference.Constant tok, si)
  else if bool_decide (ch = "$"%char) then parseEmbeddedReference (tl si)
  else
    '(tok, si) ← parseSelectorPath si;
    Ok (ElementReference.of_selector ElementReference.SelectorPath tok, si).

(** ** Embedded statements *)

(** The loop over the tokens of a statement: references are replaced by those of the
    database language.  [ci] is behind the token that begins with [ch]. *)
Fixpoint statement_loop (fuel : nat) (start : list ascii) (ch : ascii) (ci : list ascii)
    (stmstring : string) (params : list ElementReference.t) : res EmbeddedStatement :=
  match fuel with
  | O => OutOfFuel
  | S fuel' =>
      match ci with
      | [] => Ok (mkEmbeddedStatement (stmstring +:+ str (between start ci)) params)
      | c :: _ =>
          if bool_decide (ch = nul)
          then Ok (mkEmbeddedStatement (stmstring +:+ str (between start ci)) params)
          else if bool_decide (ch = "$"%char)
                  && (bool_decide (c = "("%char) || isAlphaNumeric c || bool_decide (c = "#"%char)) then
            '(ref, ci') ← parseEmbeddedReference ci;
            let stmstring := stmstring +:+ str (take (length start - length ci - 1) start) in
            let params := params ++ [ref] in
            let stmstring := stmstring +:+ stm_argument_reference langdescr (Z.of_nat (length params)) in
            '(ch, _, ci'') ← parseNextToken ci';
            statement_loop fuel' ci' ch ci'' stmstring params
          else
            '(ch, _, ci) ← parseNextToken ci;
            statement_loop fuel' start ch ci stmstring params
      end
  end.

Definition EmbeddedStatement_parse (si : list ascii) : res (EmbeddedStatement * list ascii) :=
  '(dbstm, si) ← parseEmbeddedStatement langdescr si;
  let cs := chars dbstm in
  '(ch, _, ci) ← parseNextToken cs;
  stm ← statement_loop (S (length cs)) cs ch ci "" []; Ok (stm, si).

(** ** Lists of parameters *)

Section ParamList.
Context {A : Type} (parse : list ascii -> res (A * list ascii)).

(** The loop over the parameters up to the closing bracket, which is left. *)
Fixpoint params_loop (fuel : nat) (ci : list ascii) (params : list A) : res (list A * list ascii) :=
  match fuel with
  | O => OutOfFuel
  | S fuel' =>
      '(p, ci) ← parse ci;
      let params := params ++ [p] in
      let '(ch, ci) := ParseUtils.gotoNextToken ci in
      if bool_decide (ch = ","%char) then
        let '(ch, ci) := ParseUtils.gotoNextToken (tl ci) in
        if bool_decide (ch = ")"%char)
        then fail "unexpected token ')' immediately after comma ',' in parameter list"
        else params_loop fuel' ci params
      else if bool_decide (ch = ")"%char) then Ok (params, ci)
      else fail "unexpected token (comma or close bracket excepted as separator in parameter list)"
  end.

(** The text behind the opening bracket. *)
Definition parse_params (ci : list ascii) : res (list A * list ascii) :=
  let '(ch, ci) := ParseUtils.gotoNextToken ci in
  if bool_decide (ch = nul) then fail "unexpected end of transaction description. Parameter list expected"
  else if bool_decide (ch = ")"%char) then Ok ([], tl ci)
  else '(params, ci) ← params_loop (S (length ci)) ci []; Ok (params, tl ci).

End ParamList.

(** ** Subroutine calls *)

Definition g_subroutine_optab : CharTable.t := CharTable.table ",)(" false.
Definition g_subroutine_idtab : CharTable.t := CharTable.table "a..zA..Z0..9_" false.

Definition SubroutineCallStatement_parse (ci : list ascii) : res (SubroutineCallStatement * list ascii) :=
  let '(ch, ci) := ParseUtils.gotoNextToken ci in
  if bool_decide (ch = nul) then fail "unexpected end of transaction description. Subroutine call expected"
  else if negb (isAlphaNumeric ch) then fail "unexpected token (subroutine name expected)"
  else
    '(_, name, ci) ← ParseUtils.parseNextToken ci g_subroutine_optab g_subroutine_idtab;
    let '(ch, ci) := ParseUtils.gotoNextToken ci in
    '(templateparams, ci) ←
      (if bool_decide (ch = "<"%char) then parseTemplateArguments ci else Ok ([], ci));
    let '(ch, ci) := ParseUtils.gotoNextToken ci in
    if negb (bool_decide (ch = "("%char)) then fail "'(' expected after subroutine name"
    else
      '(params, ci) ← parse_params parsePlainReference (tl ci);
      Ok (mkSubroutineCallStatement name templateparams params, ci).

(** ** Calls of audit functions *)

Definition AuditElementReference_parse (si : list ascii) : res (AuditElementReference * list ascii) :=
  '(nameDefined, name, si) ← parseNameAssignment si;
  '(elem, si) ← parsePlainReference si;
  let name :=
    if (nameDefined : bool) then name
    else match ElementReference.type elem with
         | ElementReference.SelectorPath => extractImplicitNameFromSelector (ElementReference.selector elem)
         | ElementReference.NamedSetElement => ElementReference.name elem
         | _ => name
         end in
  Ok (mkAuditElementReference elem name, si).

Definition AuditCallStatement_parse (ci : list ascii) : res (AuditCallStatement * list ascii) :=
  '(name, ci) ← parseFunctionName ci;
  '(ch, ci) ← gotoNextToken ci;
  if negb (bool_decide (ch = "("%char)) then fail "'(' expected after function name"
  else '(params, ci) ← parse_params AuditElementReference_parse (tl ci);
       Ok (mkAuditCallStatement name params, ci).

(** ** Commands *)

Definition g_commanddef_idtab : IdentifierTable.t :=
  keyword_table ["ON"; "END"; "FOREACH"; "INTO"; "DO"]%string.

(** [NONEMPTY] and [UNIQUE] in any order, and more than once. *)
Fixpoint qualifiers (fuel : nat) (si : list ascii) (nonempty unique : bool)
    : res (bool * bool * list ascii) :=
  match fuel with
  | O => OutOfFuel
  | S fuel' =>
      '(found, si) ← parseKeyword "NONEMPTY" si;
      if (found : bool) then qualifiers fuel' si true unique
      else
        '(found, si) ← parseKeyword "UNIQUE" si;
        if (found : bool) then qualifiers fuel' si nonempty true else Ok (nonempty, unique, si)
  end.

(** [ON ERROR class HINT message;] any number of times. *)
Fixpoint hints_loop (fuel : nat) (embedded : bool) (si : list ascii) (hints : list ErrorHint)
    : res (list ErrorHint * list ascii) :=
  match fuel with
  | O => OutOfFuel
  | S fuel' =>
      '(found, si) ← parseKeyword "ON" si;
      if negb found then Ok (hints, si)
      else if negb embedded
      then fail "hints only allowed after commands with embedded database statements"
      else
        '(found, si) ← parseKeyword "ERROR" si;
        if negb found then fail "keyword (ERROR) expected after ON (database error hint)"
        else
          '(ch, errorclass, si) ← parseNextToken si;
          if negb (is_quote ch) && negb (isAlphaNumeric ch)
          then fail "error class expected after ON ERROR"
          else
            '(found, si) ← parseKeyword "HINT" si;
            if negb found then fail "keyword HINT expected after ON ERROR <errorclass>"
            else
              '(ch, message, si) ← parseNextToken si;
              if negb (is_quote ch) then fail "hint message string expected after ON ERROR <errorclass> HINT"
              else
                '(ch, si) ← gotoNextToken si;
                if negb (bool_decide (ch = ";"%char))
                then fail "';' expected after ON ERROR <class> HINT <message> declaration"
                else hints_loop fuel' embedded (tl si) (hints ++ [mkErrorHint errorclass message])
  end.

(** Assignments to the members of a command. *)
Definition set_cmd_selector (c : CommandDefinition) x :=
  mkCommandDefinition x (cmd_statement c) (cmd_call c) (cmd_resultpath c) (cmd_nonempty c) (cmd_unique c)
    (cmd_embedded c) (cmd_hints c).
Definition set_cmd_resultpath (c : CommandDefinition) x :=
  mkCommandDefinition (cmd_selector c) (cmd_statement c) (cmd_call c) x (cmd_nonempty c) (cmd_unique c)
    (cmd_embedded c) (cmd_hints c).
Definition set_cmd_hints (c : CommandDefinition) x :=
  mkCommandDefinition (cmd_selector c) (cmd_statement c) (cmd_call c) (cmd_resultpath c) (cmd_nonempty c)
    (cmd_unique c) (cmd_embedded c) x.

(** [DO] with the statement or the call. *)
Definition parse_DO (rt : CommandDefinition) (si : list ascii) : res (CommandDefinition * list ascii) :=
  '(nonempty, unique, si) ← qualifiers (S (length si)) si (cmd_nonempty rt) (cmd_unique rt);
  '(ch, si) ← gotoNextToken si;
  if bool_decide (ch = nul) then fail "unexpected end of transaction description after DO"
  else if isEmbeddedStatement langdescr si then
    '(stm, si) ← EmbeddedStatement_parse si;
    Ok (mkCommandDefinition (cmd_selector rt) stm (cmd_call rt) (cmd_resultpath rt) nonempty unique true
          (cmd_hints rt), si)
  else
    '(call, si) ← SubroutineCallStatement_parse si;
    Ok (mkCommandDefinition (cmd_selector rt) (cmd_statement rt) call (cmd_resultpath rt) nonempty unique
          false (cmd_hints rt), si).

Fixpoint command_loop (fuel : nat) (si : list ascii) (mask : Z) (rt : CommandDefinition)
    : res (CommandDefinition * list ascii) :=
  match fuel with
  | O => OutOfFuel
  | S fuel' =>
      '(ch, si) ← gotoNextToken si;
      if bool_decide (ch = nul) then fail "unexpected end of source in command definition"
      else
        '(id, si) ← parseNextIdentifier si g_commanddef_idtab;
        if id =? 1 then fail "command not terminated with semicolon ';' before specifying error hints with ON"
        else if id =? 2 then fail "command not terminated with semicolon ';' before closing the block with END"
        else if id =? 3 then
          mask ← checkUniqOccurrence id mask g_commanddef_idtab;
          '(selector, si) ← parseSelectorPath si;
          command_loop fuel' si mask (set_cmd_selector rt selector)
        else if id =? 4 then
          mask ← checkUniqOccurrence id mask g_commanddef_idtab;
          '(path, si) ← parse_INTO_path si;
          command_loop fuel' si mask (set_cmd_resultpath rt path)
        else if id =? 5 then
          mask ← checkUniqOccurrence id mask g_commanddef_idtab;
          '(rt, si) ← parse_DO rt si;
          command_loop fuel' si mask rt
        else
          '(ch, tok, si) ← parseNextToken si;
          if bool_decide (ch = ";"%char) then
            if negb (mask =? 0) then
              '(hints, si) ← hints_loop (S (length si)) (cmd_embedded rt) si (cmd_hints rt);
              Ok (set_cmd_hints rt hints, si)
            else fail "superfluous semicolon ';' (empty statement)"
          else fail ("keyword (" +:+ IdentifierTable.tostring g_commanddef_idtab
                       +:+ ") or semicolon ';' expected instead of " +:+ errorTokenString ch tok)
  end.

Definition CommandDefinition_parse (si : list ascii) : res (CommandDefinition * list ascii) :=
  command_loop (S (length si)) si 0 CommandDefinition_empty.

End Parser.

Example parse_command_1 :
  CommandDefinition_parse LanguageDescriptionSQL
    (chars "FOREACH person DO NONEMPTY SELECT id FROM t WHERE a=$1 AND b=$(./name) AND c=$x.y; ON ERROR dup HINT 'exists'; END")
  = Ok (mkCommandDefinition "person"
          (mkEmbeddedStatement "SELECT id FROM t WHERE a=$1 AND b=$2 AND c=$3"
             [ElementReference.of_index ElementReference.IndexSetElement "" 1;
              ElementReference.of_selector ElementReference.SelectorPath "./name";
              ElementReference.of_name ElementReference.NamedSetElement "x" "y"])
          SubroutineCallStatement_empty [] true false true [mkErrorHint "dup" "exists"], chars " END").
Proof. vm_compute. reflexivity. Qed.
