(* ===== verification/TdlLoad.v ===== *)
(** * Loading transaction programs

    Models src/modules/cmdbind/tdl/loadTransactionProgram.cpp: blocks of instructions,
    subroutines, templates, audit functions, transactions and whole files; the preprocessing
    steps of tdl/preprocElementReference.cpp, tdl/preprocCallStatement.cpp,
    tdl/preprocBlock.cpp and tdlTransactionPreprocStep.hpp; and utils/sourceLineInfo.cpp. *)
From S2P Require Import Prelude InstructionSet Variant ValueTupleSet ProgramImage TdlTables SelectorPath ParseUtils TdlProgram Tdl2vm TdlCommand DatabaseLanguage TdlParse.

(** ** Positions in the source *)

Definition incrementLine (p : FileLineInfo) : FileLineInfo :=
  mkFileLineInfo (m_filename p) (u32 (m_line p + 1)) 1.
Definition incrementColumn (p : FileLineInfo) : FileLineInfo :=
  mkFileLineInfo (m_filename p) (m_line p) (u32 (m_column p + 1)).

Fixpoint count_text (text : list ascii) (p : FileLineInfo) : FileLineInfo :=
  match text with
  | [] => p
  | c :: text' =>
      count_text text'
        (if bool_decide (c = newline_char) then incrementLine p
         else if bool_decide (c = return_char) then p else incrementColumn p)
  end.

(** [pos] must not be before [lastpos]. *)
Definition update (p : FileLineInfo) (lastpos pos : list ascii) : res FileLineInfo :=
  if (length lastpos <? length pos)%nat then Throw (Undefined "position before the last one")
  else Ok (count_text (between lastpos pos) p).

(** [in file 'name' at line l column c]. *)
Definition logtext (p : FileLineInfo) : string :=
  match m_filename p with
  | None => ""
  | Some f => "in file '" +:+ f +:+ "' at line " +:+ SQL.decimal (m_line p) +:+ " column "
                +:+ SQL.decimal (m_column p)
  end.

(** ** Preprocessing *)

Module Preproc.

Inductive Type_ := SelectorPath_ | LoopCounter | Constant.

Record ElementRef := mkElementRef {
  ref_type : Type_;
  ref_name : string;
  ref_value : string
}.

Record CallStatement := mkCallStatement {
  pcall_name : string;
  pcall_params : list ElementRef
}.

Record Step := mkStep {
  step_selector : string;
  step_resultpath : list string;
  step_statement : CallStatement
}.

Definition Step_empty : Step := mkStep "" [] (mkCallStatement "" []).

(** [TdlTransactionPreprocStep]: names and constants are positions in a buffer of strings. *)
Record Argument := mkArgument {
  parg_type : Type_;
  parg_name : nat;
  parg_value : nat
}.

Record TransactionStep := mkTransactionStep {
  m_selectors : list SelectorPath.t;
  m_function : string;
  m_arguments : list Argument;
  m_strings : list ascii;
  m_resultpath : list string
}.

Definition make_step (selector : SelectorPath.t) (function : string) (resultpath : list string) : TransactionStep :=
  mkTransactionStep [selector] function [] [nul] resultpath.

(** The position 0 stands for the empty string. *)
Definition getStringIdx (strings : list ascii) (value : string) : list ascii * nat :=
  match chars value with
  | [] => (strings, O)
  | cs => (strings ++ cs ++ [nul], length strings)
  end.

Definition add_argument (s : TransactionStep) (a : Argument) (strings : list ascii)
    (selectors : list SelectorPath.t) : TransactionStep :=
  mkTransactionStep selectors (m_function s) (m_arguments s ++ [a]) strings (m_resultpath s).

(** The order in which the two strings are entered is not specified in the code; here the
    name is entered first. *)
Definition add_arg_constant (s : TransactionStep) (name value : string) : TransactionStep :=
  let '(strings, n) := getStringIdx (m_strings s) name in
  let '(strings, v) := getStringIdx strings value in
  add_argument s (mkArgument Constant n v) strings (m_selectors s).

Definition add_arg_loopcounter (s : TransactionStep) (name : string) : TransactionStep :=
  let '(strings, n) := getStringIdx (m_strings s) name in
  add_argument s (mkArgument LoopCounter n 0) strings (m_selectors s).

Definition add_arg_selector (s : TransactionStep) (name : string) (value : SelectorPath.t) : TransactionStep :=
  let '(strings, n) := getStringIdx (m_strings s) name in
  add_argument s (mkArgument SelectorPath_ n (length (m_selectors s))) strings (m_selectors s ++ [value]).

(** The text at a position of the buffer, up to the null character. *)
Fixpoint c_string (cs : list ascii) : list ascii :=
  match cs with
  | [] => []
  | c :: cs' => if bool_decide (c = nul) then [] else c :: c_string cs'
  end.

Definition array_bounds {A} : res A := Throw (LogicError "array bounds read").
Definition illegal_access {A} : res A := Throw (LogicError "illegal access").

Definition arg_type (s : TransactionStep) (i : nat) : res Type_ :=
  match m_arguments s !! i with Some a => Ok (parg_type a) | None => array_bounds end.

(** A null pointer if the argument has no name. *)
Definition arg_name (s : TransactionStep) (i : nat) : res (option string) :=
  match m_arguments s !! i with
  | Some a => Ok (match parg_name a with
                  | O => None
                  | n => Some (str (c_string (drop n (m_strings s))))
                  end)
  | None => array_bounds
  end.

Definition arg_constant (s : TransactionStep) (i : nat) : res string :=
  match m_arguments s !! i with
  | Some a => match parg_type a with
              | Constant => Ok (str (c_string (drop (parg_value a) (m_strings s))))
              | _ => illegal_access
              end
  | None => array_bounds
  end.

Definition arg_selector (s : TransactionStep) (i : nat) : res SelectorPath.t :=
  match m_arguments s !! i with
  | Some a => match parg_type a with
              | SelectorPath_ => match m_selectors s !! parg_value a with
                                 | Some p => Ok p
                                 | None => Throw (OutOfRange "vector::at")
                                 end
              | _ => illegal_access
              end
  | None => array_bounds
  end.

Section Parser.
Context (langdescr : LanguageDescription).

Definition ElementRef_parse (si : list ascii) : res (ElementRef * list ascii) :=
  '(nameDefined, name, si) ← parseNameAssignment langdescr si;
  '(elem, si) ← parsePlainReference langdescr si;
  let sel := ElementReference.selector elem in
  match ElementReference.type elem with
  | ElementReference.SelectorPath =>
      Ok (mkElementRef SelectorPath_ (if (nameDefined : bool) then name else extractImplicitNameFromSelector sel) sel, si)
  | ElementReference.LoopCounter => Ok (mkElementRef LoopCounter name "", si)
  | ElementReference.Constant => Ok (mkElementRef Constant name sel, si)
  | _ => fail "illegal element reference in preprocessing statement"
  end.

Definition CallStatement_parse (ci : list ascii) : res (CallStatement * list ascii) :=
  '(name, ci) ← parseFunctionName langdescr ci;
  '(ch, ci) ← TdlParse.gotoNextToken langdescr ci;
  if negb (bool_decide (ch = "("%char)) then fail "'(' expected after function name"
  else '(params, ci) ← parse_params ElementRef_parse (tl ci); Ok (mkCallStatement name params, ci).

Definition idtab : IdentifierTable.t := keyword_table ["ENDPROC"; "FOREACH"; "INTO"; "DO"]%string.

Fixpoint block_loop (fuel : nat) (si : list ascii) (mask : Z) (step : Step) (steps : list Step)
    : res (list Step * list ascii) :=
  match fuel with
  | O => OutOfFuel
  | S fuel' =>
      '(ch, si) ← TdlParse.gotoNextToken langdescr si;
      if bool_decide (ch = nul) then fail "preprocessing block not terminated with 'ENDPROC'"
      else
        '(id, si) ← parseNextIdentifier si idtab;
        if id =? 1 then
          if negb (mask =? 0) then fail "preprocessing command not terminated with ';'" else Ok (steps, si)
        else if id =? 2 then
          mask ← checkUniqOccurrence id mask idtab;
          '(selector, si) ← parseSelectorPath langdescr si;
          block_loop fuel' si mask (mkStep selector (step_resultpath step) (step_statement step)) steps
        else if id =? 3 then
          mask ← checkUniqOccurrence id mask idtab;
          '(path, si) ← parse_INTO_path langdescr si;
          block_loop fuel' si mask (mkStep (step_selector step) path (step_statement step)) steps
        else if id =? 4 then
          mask ← checkUniqOccurrence id mask idtab;
          '(stm, si) ← CallStatement_parse si;
          block_loop fuel' si mask (mkStep (step_selector step) (step_resultpath step) stm) steps
        else
          '(ch, tok, si) ← TdlParse.parseNextToken langdescr si;
          if bool_decide (ch = ";"%char) then
            if negb (mask =? 0) then block_loop fuel' si 0 Step_empty (steps ++ [step])
            else block_loop fuel' si mask step steps
          else fail ("keyword (" +:+ IdentifierTable.tostring idtab +:+ ") expected instead of "
                       +:+ errorTokenString ch tok)
  end.

Definition PreProcBlock_parse (si : list ascii) : res (list Step * list ascii) :=
  block_loop (S (length si)) si 0 Step_empty [].

End Parser.

(** The paths enter their tags into the table of the program. *)
Fixpoint build_args (params : list ElementRef) (s : TransactionStep) (tab : TagTable.t)
    : res (TransactionStep * TagTable.t) :=
  match params with
  | [] => Ok (s, tab)
  | p :: params' =>
      match ref_type p with
      | SelectorPath_ =>
          '(path, tab) ← SelectorPath.make (ref_value p) tab;
          build_args params' (add_arg_selector s (ref_name p) path) tab
      | LoopCounter => build_args params' (add_arg_loopcounter s (ref_name p)) tab
      | Constant => build_args params' (add_arg_constant s (ref_name p) (ref_value p)) tab
      end
  end.

Fixpoint build (steps : list Step) (tab : TagTable.t) : res (list TransactionStep * TagTable.t) :=
  match steps with
  | [] => Ok ([], tab)
  | ri :: re =>
      '(path, tab) ← SelectorPath.make (step_selector ri) tab;
      '(s, tab) ← build_args (pcall_params (step_statement ri))
                    (make_step path (pcall_name (step_statement ri)) (step_resultpath ri)) tab;
      '(rest, tab) ← build re tab; Ok (s :: rest, tab)
  end.

End Preproc.

(** ** Blocks of instructions *)

Definition g_prgblock_idtab : IdentifierTable.t :=
  keyword_table ["END"; "FOREACH"; "INTO"; "DO"; "ON"; "KEEP"; "PRINT"]%string.

(** [posinfo.update( posinfo_si, si); posinfo_si = si;] *)
Definition advance (posinfo : FileLineInfo) (posinfo_si si : list ascii) : res (FileLineInfo * list ascii) :=
  p ← update posinfo posinfo_si si; Ok (p, si).

Section Loader.
Context (langdescr : LanguageDescription).

(** The end of [PRINT]. *)
Definition print_end (si : list ascii) : res (list ascii) :=
  '(ch, _, si) ← TdlParse.parseNextToken langdescr si;
  if bool_decide (ch = ";"%char) then Ok si else fail "expected ';' terminating PRINT instruction".

(** [PRINT value \[INTO path\];] *)
Definition parse_print (prg : Tdl2vm.t) (si : list ascii) : res (Tdl2vm.t * list ascii) :=
  '(elem, si) ← parsePlainReference langdescr si;
  '(found, si) ← parseKeyword langdescr "INTO" si;
  '(pt, si) ← (if (found : bool) then parse_INTO_path langdescr si else Ok ([], si));
  prg ← print_value elem pt prg;
  si ← print_end si; Ok (prg, si).

(** [KEEP AS name;] without [AS] nothing is done. *)
Definition parse_keep (prg : Tdl2vm.t) (si : list ascii) : res (Tdl2vm.t * list ascii) :=
  '(found, si) ← parseKeyword langdescr "AS" si;
  if (found : bool) then
    '(resultname, si) ← parseResultName langdescr si;
    '(ch, si) ← TdlParse.gotoNextToken langdescr si;
    if negb (bool_decide (ch = ";"%char)) then fail "semicolon ';' expected after KEEP AS <identifier>"
    else prg ← Tdl2vm.result_KEEP resultname prg; Ok (prg, tl si)
  else Ok (prg, si).

(** A command that begins at [si]. *)
Definition parse_command (prg : Tdl2vm.t) (si : list ascii) : res (Tdl2vm.t * list ascii) :=
  '(cmd, si) ← CommandDefinition_parse langdescr si;
  prg ← programAddCommandDefinition cmd prg; Ok (prg, si).

Fixpoint parsePrgBlock (fuel : nat) (prg : Tdl2vm.t) (si : list ascii) (posinfo : FileLineInfo)
    (posinfo_si : list ascii) : res (Tdl2vm.t * list ascii * FileLineInfo) :=
  match fuel with
  | O => OutOfFuel
  | S fuel' =>
      '(ch, si) ← TdlParse.gotoNextToken langdescr si;
      if bool_decide (ch = nul) then fail "unexpected end of file (missing END of block)"
      else
        let start := si in
        '(id, si) ← parseNextIdentifier si g_prgblock_idtab;
        if id =? 1 then
          '(posinfo, _) ← advance posinfo posinfo_si si;
          Ok (Tdl2vm.setCurrentSourceReference posinfo prg, si, posinfo)
        else if (id =? 2) || (id =? 4) then
          '(posinfo, posinfo_si) ← advance posinfo posinfo_si start;
          '(prg, si) ← parse_command (Tdl2vm.setCurrentSourceReference posinfo prg) start;
          parsePrgBlock fuel' prg si posinfo posinfo_si
        else if id =? 3 then
          '(resultpath, si) ← parse_INTO_path langdescr si;
          '(found, si) ← parseKeyword langdescr "PRINT" si;
          if (found : bool) then
            '(elem, si) ← parsePlainReference langdescr si;
            prg ← print_value elem resultpath prg;
            si ← print_end si;
            parsePrgBlock fuel' prg si posinfo posinfo_si
          else
            '(found, si) ← parseKeyword langdescr "BEGIN" si;
            if (found : bool) then
              '(posinfo, posinfo_si) ← advance posinfo posinfo_si si;
              prg ← when (hasIntoBlock resultpath) (Tdl2vm.begin_INTO_block resultpath) prg;
              '(prg, si, posinfo) ← parsePrgBlock fuel' prg si posinfo posinfo_si;
              prg ← when (hasIntoBlock resultpath) Tdl2vm.end_INTO_block prg;
              parsePrgBlock fuel' prg si posinfo si
            else
              '(posinfo, posinfo_si) ← advance posinfo posinfo_si start;
              '(prg, si) ← parse_command (Tdl2vm.setCurrentSourceReference posinfo prg) start;
              parsePrgBlock fuel' prg si posinfo posinfo_si
        else if id =? 5 then fail "unexpected keyword ON (for error hint), only valid after database command"
        else if id =? 6 then
          '(posinfo, posinfo_si) ← advance posinfo posinfo_si si;
          '(prg, si) ← parse_keep (Tdl2vm.setCurrentSourceReference posinfo prg) si;
          parsePrgBlock fuel' prg si posinfo posinfo_si
        else if id =? 7 then
          '(posinfo, posinfo_si) ← advance posinfo posinfo_si si;
          '(prg, si) ← parse_print (Tdl2vm.setCurrentSourceReference posinfo prg) si;
          parsePrgBlock fuel' prg si posinfo posinfo_si
        else
          '(ch, tok, si) ← TdlParse.parseNextToken langdescr si;
          if bool_decide (ch = ";"%char) then fail "unexpected semicolon without statement"
          else fail ("unexpected token in TDL program block. keyword ("
                       +:+ IdentifierTable.tostring g_prgblock_idtab +:+ ") expected instead of "
                       +:+ errorTokenString ch tok)
  end.

(** A block at [si]; every instruction and every block has a character. *)
Definition parse_block (prg : Tdl2vm.t) (si : list ascii) (posinfo : FileLineInfo) :=
  parsePrgBlock (S (length si)) prg si posinfo si.

(** ** Databases *)

Fixpoint database_loop (fuel : nat) (si : list ascii) (rt : list string) : res (list string * list ascii) :=
  match fuel with
  | O => OutOfFuel
  | S fuel' =>
      '(ch, dbName, si) ← TdlParse.parseNextToken langdescr si;
      if bool_decide (ch = nul) then fail "unexpected end of file in DATABASE declaration"
      else if isAlpha ch then
        let rt := rt ++ [dbName] in
        '(ch, si) ← TdlParse.gotoNextToken langdescr si;
        if bool_decide (ch = ","%char) then database_loop fuel' (tl si) rt else Ok (rt, si)
      else fail "unexpected token in DATABASE declaration"
  end.

Definition parseDatabaseList (si : list ascii) : res (list string * list ascii) :=
  database_loop (S (length si)) si [].

Context (databaseID databaseClassName : string).

Definition checkDatabaseList (si : list ascii) : res (bool * list ascii) :=
  '(dblist, si) ← parseDatabaseList si;
  Ok (existsb (fun d => iequals d databaseID || iequals d databaseClassName) dblist, si).

(** ** Subroutines *)

Definition g_subroutine_keywords : IdentifierTable.t := keyword_table ["DATABASE"; "BEGIN"]%string.

(** The scanner of the error message does not know comments. *)
Definition unexpected_token {A} (idtab : IdentifierTable.t) (what : string) (si : list ascii) : res A :=
  '(ch, tok, _) ← parseNextToken_id si;
  fail ("unexpected token in TDL " +:+ what +:+ ". keyword (" +:+ IdentifierTable.tostring idtab
          +:+ ") expected instead of " +:+ errorTokenString ch tok).

Fixpoint subroutine_loop (fuel : nat) (prg : Tdl2vm.t) (si : list ascii) (posinfo : FileLineInfo)
    (posinfo_si : list ascii) (mask : Z) (isValidDatabase : bool)
    : res (bool * Tdl2vm.t * list ascii * FileLineInfo) :=
  match fuel with
  | O => OutOfFuel
  | S fuel' =>
      '(ch, si) ← TdlParse.gotoNextToken langdescr si;
      if bool_decide (ch = nul) then fail "unexpected end of file in subroutine declaration"
      else
        '(id, si) ← parseNextIdentifier si g_subroutine_keywords;
        if id =? 1 then
          mask ← checkUniqOccurrence id mask g_subroutine_keywords;
          '(valid, si) ← checkDatabaseList si;
          subroutine_loop fuel' prg si posinfo posinfo_si mask valid
        else if id =? 2 then
          '(posinfo, _) ← advance posinfo posinfo_si si;
          _ ← checkUniqOccurrence id mask g_subroutine_keywords;
          '(prg, si, posinfo) ← parse_block (Tdl2vm.setCurrentSourceReference posinfo prg) si posinfo;
          Ok (isValidDatabase, prg, si, posinfo)
        else unexpected_token g_subroutine_keywords "subroutine header" si
  end.

Definition parseSubroutineBody (prg : Tdl2vm.t) (si : list ascii) (posinfo : FileLineInfo) :=
  subroutine_loop (S (length si)) prg si posinfo si 0 true.

(** ** Audit functions *)

Inductive AuditLevel := Informal | Critical.

Record AuditCallDef := mkAuditCallDef {
  audit_level : AuditLevel;
  audit_function : string;
  audit_program : Program.t
}.

Definition parseAuditCallDef (subroutineMap : StdMap.t Subroutine.t) (si : list ascii) (posinfo : FileLineInfo)
    : res (AuditCallDef * list ascii * FileLineInfo) :=
  prg ← Tdl2vm.make subroutineMap false;
  '(critical, si) ← parseKeyword langdescr "CRITICAL" si;
  let auditlevel := if (critical : bool) then Critical else Informal in
  let si_prev := si in
  '(auditfunction, si) ← parseFunctionName langdescr si;
  '(ch, si) ← TdlParse.gotoNextToken langdescr si;
  '(prg, si, posinfo) ←
    (if bool_decide (ch = "("%char) then
       '(auditstm, si) ← AuditCallStatement_parse langdescr si_prev;
       prg ← each print_audit_param (auditcall_params auditstm) prg;
       '(posinfo, _) ← advance posinfo si_prev si;
       Ok (prg, si, posinfo)
     else
       '(found, si) ← parseKeyword langdescr "WITH" si;
       if negb found
       then fail "WITH or open bracket expected after AUDIT <function> or AUDIT CRITICAL <function>"
       else
         '(found, si) ← parseKeyword langdescr "BEGIN" si;
         if negb found
         then fail "BEGIN expected after AUDIT <function> WITH or AUDIT CRITICAL <function> WITH"
         else
           '(posinfo, _) ← advance posinfo si_prev si;
           parse_block prg si posinfo);
  program ← Tdl2vm.createProgram false prg;
  Ok (mkAuditCallDef auditlevel auditfunction program, si, posinfo).

(** ** Transactions *)

Record Authorization := mkAuthorization { auth_function : string; auth_resource : string }.

Record TdlTransactionFunction := mkTdlTransactionFunction {
  tf_name : string;
  tf_resultfilter : string;
  tf_authorizations : list Authorization;
  tf_preproc : list Preproc.TransactionStep;
  tf_audit : list (AuditLevel * string);
  tf_program : Program.t
}.

Definition g_transaction_idtab : IdentifierTable.t :=
  keyword_table ["TRANSACTION"; "SUBROUTINE"; "TEMPLATE"; "INCLUDE"; "DATABASE"; "AUTHORIZE"; "RESULT";
                 "PREPROC"; "BEGIN"; "AUDIT"]%string.

(** What the loop over the declarations of a transaction has read. *)
Record TransactionDef := mkTransactionDef {
  td_prg : Tdl2vm.t;
  td_valid : bool;
  td_mask : Z;
  td_resultfilter : string;
  td_authorizations : list Authorization;
  td_preproc : list Preproc.Step;
  td_auditcalls : list AuditCallDef
}.

(** [AUTHORIZE ( function \[, resource\])]; without a resource it is not registered. *)
Definition parse_authorize (si : list ascii) (auths : list Authorization) : res (list Authorization * list ascii) :=
  '(ch, si) ← TdlParse.gotoNextToken langdescr si;
  if negb (bool_decide (ch = "("%char)) then fail "Open bracket '(' expected after AUTHORIZE function call"
  else
    '(authfunction, si) ← parseFunctionName langdescr (tl si);
    '(ch, si) ← TdlParse.gotoNextToken langdescr si;
    '(auths, si) ←
      (if bool_decide (ch = ","%char) then
         '(authresource, si) ← parseResourceName langdescr (tl si);
         Ok (auths ++ [mkAuthorization authfunction authresource], si)
       else Ok (auths, si));
    '(ch, si) ← TdlParse.gotoNextToken langdescr si;
    if negb (bool_decide (ch = ")"%char)) then fail "Close bracket ')' expected after AUTHORIZE function defintion"
    else Ok (auths, tl si).

(** The declarations of a transaction up to the next definition. *)
Fixpoint transaction_loop (fuel : nat) (subroutineMap : StdMap.t Subroutine.t) (td : TransactionDef)
    (si : list ascii) (posinfo : FileLineInfo) (posinfo_si : list ascii)
    : res (TransactionDef * list ascii * FileLineInfo * list ascii) :=
  match fuel with
  | O => OutOfFuel
  | S fuel' =>
      '(ch, si) ← TdlParse.gotoNextToken langdescr si;
      if bool_decide (ch = nul) then Ok (td, si, posinfo, posinfo_si)
      else
        let si_prev := si in
        let '(mkTransactionDef prg valid mask resultfilter auths preproc audits) := td in
        '(id, si) ← parseNextIdentifier si g_transaction_idtab;
        if (1 <=? id) && (id <=? 4) then Ok (td, si_prev, posinfo, posinfo_si)
        else if id =? 5 then
          mask ← checkUniqOccurrence id mask g_transaction_idtab;
          '(valid, si) ← checkDatabaseList si;
          transaction_loop fuel' subroutineMap
            (mkTransactionDef prg valid mask resultfilter auths preproc audits) si posinfo posinfo_si
        else if id =? 6 then
          '(auths, si) ← parse_authorize si auths;
          transaction_loop fuel' subroutineMap
            (mkTransactionDef prg valid mask resultfilter auths preproc audits) si posinfo posinfo_si
        else if id =? 7 then
          mask ← checkUniqOccurrence id mask g_transaction_idtab;
          '(found, si) ← parseKeyword langdescr "FILTER" si;
          if negb found then fail "FILTER expected after RESULT"
          else
            '(resultfilter, si) ← parseFunctionName langdescr si;
            transaction_loop fuel' subroutineMap
              (mkTransactionDef prg valid mask resultfilter auths preproc audits) si posinfo posinfo_si
        else if id =? 8 then
          mask ← checkUniqOccurrence id mask g_transaction_idtab;
          '(preproc, si) ← Preproc.PreProcBlock_parse langdescr si;
          transaction_loop fuel' subroutineMap
            (mkTransactionDef prg valid mask resultfilter auths preproc audits) si posinfo posinfo_si
        else if id =? 9 then
          mask ← checkUniqOccurrence id mask g_transaction_idtab;
          '(posinfo, _) ← advance posinfo posinfo_si si;
          '(prg, si, posinfo) ← parse_block prg si posinfo;
          transaction_loop fuel' subroutineMap
            (mkTransactionDef prg valid mask resultfilter auths preproc audits) si posinfo si
        else if id =? 10 then
          '(posinfo, _) ← advance posinfo posinfo_si si;
          '(def, si, posinfo) ← parseAuditCallDef subroutineMap si posinfo;
          transaction_loop fuel' subroutineMap
            (mkTransactionDef prg valid mask resultfilter auths preproc (audits ++ [def])) si posinfo si
        else unexpected_token g_transaction_idtab "subroutine header" si
  end.

(** The program of a transaction: its block, the audit functions, and the tags of the
    preprocessing. *)
Definition build_transaction (name : string) (td : TransactionDef) : res TdlTransactionFunction :=
  prg ← each (fun def => Tdl2vm.add_auditcall (audit_program def)) (td_auditcalls td) (td_prg td);
  program ← Tdl2vm.createProgram true prg;
  let ps := Program.pathset program in
  '(preproc, tagtab) ← Preproc.build (td_preproc td) (SelectorPathSet.m_tagtab ps);
  let program := Program.set_pathset program (SelectorPathSet.mk tagtab (SelectorPathSet.m_pathar ps)) in
  Ok (mkTdlTransactionFunction name (td_resultfilter td) (td_authorizations td) preproc
        (map (fun def => (audit_level def, audit_function def)) (td_auditcalls td)) program).

(** Nothing is built if the transaction is not for the database. *)
Definition parseTransactionBody (subroutineMap : StdMap.t Subroutine.t) (name : string) (si : list ascii)
    (posinfo : FileLineInfo) : res (option TdlTransactionFunction * list ascii * FileLineInfo) :=
  prg ← Tdl2vm.make subroutineMap false;
  '(td, si1, posinfo, posinfo_si) ←
    transaction_loop (S (length si)) subroutineMap (mkTransactionDef prg true 0 "" [] [] []) si posinfo si;
  tf ← (if td_valid td then tf ← build_transaction name td; Ok (Some tf) else Ok None);
  '(posinfo, _) ← advance posinfo posinfo_si si1;
  Ok (tf, si1, posinfo).

(** ** Files *)

(** The subroutines and the transactions that are loaded. *)
Record Loaded := mkLoaded {
  subroutineMap : StdMap.t Subroutine.t;
  transactionFunctionList : list (string * TdlTransactionFunction)
}.

(** [SubroutineMap::insert] refuses a name that is defined. *)
Definition insert_subroutine (l : Loaded) (name : string) (sr : Subroutine.t) : res Loaded :=
  match StdMap.find (to_upper_copy name) (subroutineMap l) with
  | Some _ => Throw (RuntimeError ("duplicate definition of '" +:+ to_upper_copy name +:+ "'"))
  | None => Ok (mkLoaded (StdMap.set (to_upper_copy name) sr (subroutineMap l)) (transactionFunctionList l))
  end.

Definition g_toplevel_idtab : IdentifierTable.t :=
  keyword_table ["DATABASE"; "TRANSACTION"; "SUBROUTINE"; "TEMPLATE"; "INCLUDE"]%string.

(** [SUBROUTINE name ( params ) ... BEGIN ... END] behind the keyword. *)
Definition parse_subroutine (templateArguments : list string) (l : Loaded) (si : list ascii)
    (posinfo : FileLineInfo) (posinfo_si : list ascii) : res (Loaded * list ascii * FileLineInfo) :=
  '(name, si) ← parseSubroutineName langdescr si;
  '(callArguments, si) ← parseCallArguments langdescr si;
  '(posinfo, _) ← advance posinfo posinfo_si si;
  prg ← Tdl2vm.make (subroutineMap l) true;
  '(valid, prg, si, posinfo) ← parseSubroutineBody prg si posinfo;
  if (valid : bool) then
    program ← Tdl2vm.createProgram true prg;
    l ← insert_subroutine l name (Subroutine.mk name templateArguments callArguments program);
    Ok (l, si, posinfo)
  else Ok (l, si, posinfo).

Definition parse_transaction (l : Loaded) (si : list ascii) (posinfo : FileLineInfo) (posinfo_si : list ascii)
    : res (Loaded * list ascii * FileLineInfo) :=
  '(name, si) ← parseSubroutineName langdescr si;
  '(posinfo, _) ← advance posinfo posinfo_si si;
  '(tf, si, posinfo) ← parseTransactionBody (subroutineMap l) name si posinfo;
  Ok (match tf with
      | Some tf => mkLoaded (subroutineMap l) (transactionFunctionList l ++ [(name, tf)])
      | None => l
      end, si, posinfo).

Definition parse_template (l : Loaded) (si : list ascii) (posinfo : FileLineInfo) (posinfo_si : list ascii)
    : res (Loaded * list ascii * FileLineInfo) :=
  '(_, si) ← TdlParse.gotoNextToken langdescr si;
  '(templateArguments, si) ← parseTemplateArguments langdescr si;
  '(found, si) ← parseKeyword langdescr "SUBROUTINE" si;
  if negb found then fail "SUBROUTINE declaration expected after TEMPLATE declaration"
  else parse_subroutine templateArguments l si posinfo posinfo_si.

(** Files are read outside of the model: the text of a file included by another one, with
    its name in messages. *)
Context (readInclude : string -> string -> res string) (fileTitle : string -> string).

(** The loop over the definitions of a file.  The position of the message of an exception
    is left out.  An included file is loaded with the rest of the fuel; nothing stops a file
    that includes itself. *)
Fixpoint load_loop (fuel : nat) (filename : string) (l : Loaded) (si : list ascii) (posinfo : FileLineInfo)
    (posinfo_si : list ascii) : res Loaded :=
  match fuel with
  | O => OutOfFuel
  | S fuel' =>
      '(ch, si) ← TdlParse.gotoNextToken langdescr si;
      if bool_decide (ch = nul) then Ok l
      else
        let start := si in
        '(id, si) ← parseNextIdentifier si g_toplevel_idtab;
        if id =? 1 then
          fail "unexpected top level DATABASE definition (the top level database definition must be unique and is only allowed as the first declaration in the TDL source"
        else if id =? 2 then
          '(posinfo, posinfo_si) ← advance posinfo posinfo_si start;
          '(l, si, posinfo) ← parse_transaction l si posinfo posinfo_si;
          load_loop fuel' filename l si posinfo si
        else if id =? 3 then
          '(posinfo, posinfo_si) ← advance posinfo posinfo_si start;
          '(l, si, posinfo) ← parse_subroutine [] l si posinfo posinfo_si;
          load_loop fuel' filename l si posinfo si
        else if id =? 4 then
          '(posinfo, posinfo_si) ← advance posinfo posinfo_si start;
          '(l, si, posinfo) ← parse_template l si posinfo posinfo_si;
          load_loop fuel' filename l si posinfo si
        else if id =? 5 then
          '(incfile, si) ← parseFilename langdescr si;
          src ← readInclude filename incfile;
          let text := chars src in
          l ← (
            '(found, text1) ← parseKeyword langdescr "DATABASE" text;
            '(_, text1) ← (if (found : bool) then checkDatabaseList text1 else Ok (true, text1));
            load_loop fuel' incfile l text1 (mkFileLineInfo (Some (fileTitle incfile)) 1 1) text);
          load_loop fuel' filename l si posinfo posinfo_si
        else unexpected_token g_toplevel_idtab "file" si
  end.

(** The declaration of the databases of a file is checked, but not regarded. *)
Definition load (fuel : nat) (filename : string) (source : string) (l : Loaded) : res Loaded :=
  let text := chars source in
  '(found, text1) ← parseKeyword langdescr "DATABASE" text;
  '(_, text1) ← (if (found : bool) then checkDatabaseList text1 else Ok (true, text1));
  load_loop fuel filename l text1 (mkFileLineInfo (Some (fileTitle filename)) 1 1) text.

End Loader.
