(* ===== verification/TdlParseFacts.v ===== *)
(** * The parsers of the transaction language end

    A parser leaves a suffix of its text, and the iteration budget of its loops, one more
    than the length of the text, is enough. *)
From S2P Require Import Prelude Variant ValueTupleSet ProgramImage TdlTables SelectorPath ParseUtils TdlProgram Tdl2vm TdlCommand DatabaseLanguage TdlParse.

(** ** Specification *)

(** A result that leaves a suffix of the text, and is not for lack of fuel. *)
Definition good {A} (si0 : list ascii) (r : res (A * list ascii)) : Prop :=
  match r with
  | Ok (_, si) => si `suffix_of` si0
  | Throw _ => True
  | OutOfFuel => False
  end.

Lemma good_bind {A B} si0 si (m : res (A * list ascii)) (f : A * list ascii -> res (B * list ascii)) :
  good si m -> si `suffix_of` si0 ->
  (forall x si', m = Ok (x, si') -> si' `suffix_of` si -> good si0 (f (x, si'))) -> good si0 (m ≫= f).
Proof. intros Hm Hs Hf. destruct m as [[x si']| |]; cbn in *; [by apply Hf|done|done]. Qed.

Lemma good_bind0 {A B} si0 (m : res A) (f : A -> res (B * list ascii)) :
  m <> OutOfFuel -> (forall x, m = Ok x -> good si0 (f x)) -> good si0 (m ≫= f).
Proof. intros Hm Hf. destruct m; cbn; [by apply Hf|done|done]. Qed.

Lemma good_suffix {A} si si0 (r : res (A * list ascii)) : good si r -> si `suffix_of` si0 -> good si0 r.
Proof. destruct r as [[x s]| |]; cbn; [|done|done]. intros. by etrans. Qed.

Lemma suffix_tl {A} (l k : list A) : l `suffix_of` k -> tl l `suffix_of` k.
Proof. destruct l as [|x l]; [done|]. intros [pre ->]. exists (pre ++ [x]). by rewrite <- app_assoc. Qed.

Lemma skip_suffix_of si : skip si `suffix_of` si.
Proof. destruct (skip_suffix si) as [pre Hp]. by exists pre. Qed.

Lemma goto_suffix si ch si' : ParseUtils.gotoNextToken si = (ch, si') -> si' `suffix_of` si.
Proof. intros [= _ <-]. apply skip_suffix_of. Qed.

Lemma goto_peek si ch si' : ParseUtils.gotoNextToken si = (ch, si') -> ch <> nul -> exists rest, si' = ch :: rest.
Proof. unfold ParseUtils.gotoNextToken. destruct (skip si) as [|c rest]; intros [= <- <-]; [done|]. by exists rest. Qed.

Lemma span_suffix p si : (SQL.span p si).2 `suffix_of` si.
Proof.
  induction si as [|c si IH]; cbn; [done|]. destruct (p c); [|done]. destruct (SQL.span p si). cbn in *.
  by apply suffix_cons_r.
Qed.

Lemma suffix_len {A} (l k : list A) : l `suffix_of` k -> (length l <= length k)%nat.
Proof. apply suffix_length. Qed.

Create HintDb parse discriminated.
#[export] Hint Constants Opaque : parse.
#[export] Hint Resolve suffix_tl skip_suffix_of span_suffix : parse.

(** ** The scanner *)

Lemma read_string_good eb itr tok : good itr (read_string eb itr tok).
Proof.
  revert tok. induction itr as [itr IH] using (induction_ltof1 _ length).
  destruct itr as [|c itr]; intros tok; cbn; [done|]. case_bool_decide; [by apply suffix_cons_r|].
  case_bool_decide.
  - destruct itr as [|d itr]; [done|]. case_bool_decide; [done|].
    eapply good_suffix; [apply IH; unfold ltof; cbn; lia|]. by do 2 apply suffix_cons_r.
  - case_bool_decide; [done|]. eapply good_suffix; [apply IH; unfold ltof; cbn; lia|]. by apply suffix_cons_r.
Qed.

Lemma span_alpha_suffix t itr : (span_alpha t itr).2 `suffix_of` itr.
Proof. exists (span_alpha t itr).1. by rewrite span_alpha_app. Qed.

Lemma scanner_good itr ops alphas : good itr (ParseUtils.parseNextToken itr ops alphas).
Proof.
  unfold ParseUtils.parseNextToken. pose proof (skip_suffix_of itr) as Hs.
  destruct (skip itr) as [|c itr1]; [by apply suffix_nil|].
  assert (itr1 `suffix_of` itr) as H1 by (by apply (suffix_tl (c :: itr1))).
  destruct (is_quote c).
  { eapply good_bind; [apply read_string_good|exact H1|]. intros tok rest _ Hr. cbn. by etrans. }
  destruct (ops c); [done|]. destruct (alphas c); [|done].
  pose proof (span_alpha_suffix alphas (c :: itr1)) as Ha. destruct (span_alpha _ _). cbn in *. by etrans.
Qed.

Lemma parseNextIdentifier_good si idtab : good si (parseNextIdentifier si idtab).
Proof.
  unfold parseNextIdentifier. destruct (ParseUtils.gotoNextToken si) as [ch si1] eqn:E.
  apply goto_suffix in E. destruct (identifierCharTable ch); [|done].
  eapply good_bind; [apply scanner_good|exact E|]. intros [ch' tok] rest _ Hr. cbn.
  destruct (negb _); cbn; [by etrans|done].
Qed.

(** A keyword has a character. *)
Lemma parseNextIdentifier_shorter si idtab id si' :
  parseNextIdentifier si idtab = Ok (id, si') -> id <> 0 -> (length si' < length si)%nat.
Proof.
  unfold parseNextIdentifier. destruct (ParseUtils.gotoNextToken si) as [ch si1] eqn:E.
  pose proof (suffix_len _ _ (goto_suffix _ _ _ E)) as Hle.
  destruct (identifierCharTable ch) eqn:Ei; [|by intros [= <- _]].
  assert (ch <> nul) as Hch by (intros ->; vm_compute in Ei; done).
  destruct (parseNextToken_id si1) as [[[ch' tok] rest]| |] eqn:Et; cbn; try done.
  intros H Hid. destruct (negb _); injection H as <- <-; [|done].
  enough (length rest < length si1)%nat by lia.
  eapply parseNextToken_shorter; [exact Et|]. intros ->.
  destruct (goto_peek _ _ _ E Hch) as [rest1 ->]. unfold parseNextToken_id, parseNextToken_op, ParseUtils.parseNextToken in Et.
  assert (32 < ord ch) as Ho.
  { rewrite identifierCharTable_spec in Ei. destruct (Z.leb_spec (ord ch) 32); [|done]. lia. }
  rewrite skip_cons in Et by done. destruct (is_quote ch) eqn:Eq.
  { destruct (read_string _ _ _) as [[? ?]| |]; cbn in Et; try done. by injection Et. }
  destruct (emptyCharTable ch); [by injection Et|]. rewrite Ei in Et.
  destruct (span_alpha _ _); by injection Et.
Qed.

(** ** Tokens of the language *)

Lemma strip_prefix_suffix op si ti : strip_prefix op si = Some ti -> ti `suffix_of` si.
Proof.
  revert si. induction op as [|c op IH]; intros [|d si]; cbn; try done; try by intros [= <-].
  case_bool_decide; [|done]. intros Hp%IH. by apply suffix_cons_r.
Qed.

Lemma skip_eoln_suffix si : skip_eoln si `suffix_of` si.
Proof. induction si as [|c si IH]; cbn; [done|]. case_bool_decide; [done|]. by apply suffix_cons_r. Qed.

(** A comment has at least the operator. *)
Lemma after_comment_suffix op si ti :
  after_comment op si = Some ti -> ti `suffix_of` si /\ (length ti < length si)%nat.
Proof.
  unfold after_comment. destruct (chars op) as [|c o]; [done|]. cbn.
  destruct si as [|d si]; [done|]. case_bool_decide; [|done]. destruct (strip_prefix o si) as [ui|] eqn:E; [|done].
  intros [= <-]. apply strip_prefix_suffix in E. pose proof (skip_eoln_suffix ui) as H1.
  pose proof (suffix_len _ _ E). pose proof (suffix_len _ _ H1). cbn. split; [|lia].
  apply suffix_cons_r. by etrans.
Qed.

Section Parser.
Context (langdescr : LanguageDescription).

Abbreviation gotoNextToken := (TdlParse.gotoNextToken langdescr).
Abbreviation parseNextToken := (TdlParse.parseNextToken langdescr).

Lemma goto_loop_good fuel si : (length si < fuel)%nat -> good si (goto_loop langdescr fuel si).
Proof.
  revert si. induction fuel as [|fuel IH]; intros si Hf; [lia|]. cbn [goto_loop].
  destruct (ParseUtils.gotoNextToken si) as [ch si1] eqn:E. apply goto_suffix in E.
  pose proof (suffix_len _ _ E) as Hl.
  destruct (after_comment _ si1) as [ti|] eqn:Ea; [|done]. apply after_comment_suffix in Ea as [Hs Hlt].
  eapply good_suffix; [apply IH; lia|]. by etrans.
Qed.

Lemma gotoNextToken_good si : good si (gotoNextToken si).
Proof. apply goto_loop_good. lia. Qed.

Lemma gotoNextToken_peek si ch si' :
  gotoNextToken si = Ok (ch, si') -> ch <> nul -> 32 < ord ch /\ exists rest, si' = ch :: rest.
Proof.
  unfold TdlParse.gotoNextToken. generalize (S (length si)). intros fuel. revert si.
  induction fuel as [|fuel IH]; intros si; [done|]. cbn [goto_loop].
  destruct (ParseUtils.gotoNextToken si) as [ch1 si1] eqn:E.
  destruct (after_comment _ si1) as [ti|]; [apply IH|]. intros [= <- <-] Hne.
  destruct (goto_peek _ _ _ E Hne) as [rest ->]. split; [|by exists rest].
  unfold ParseUtils.gotoNextToken in E. injection E as _ E. clear -E.
  induction si as [|c si IH]; cbn in E; [done|]. destruct (Z.leb_spec (ord c) 32); [auto|]. by injection E as -> _.
Qed.

Lemma parseNextToken_good si : good si (parseNextToken si).
Proof.
  unfold TdlParse.parseNextToken. eapply good_bind; [apply gotoNextToken_good|done|].
  intros ch si1 _ Hs. cbn. case_bool_decide; [done|]. eapply good_suffix; [apply scanner_good|done].
Qed.

(** A token has a character. *)
Lemma token_shorter si ch tok si' :
  parseNextToken si = Ok (ch, tok, si') -> ch <> nul -> (length si' < length si)%nat.
Proof.
  unfold TdlParse.parseNextToken. pose proof (gotoNextToken_good si) as Hg.
  destruct (gotoNextToken si) as [[ch1 si1]| |]; cbn in *; try done. case_bool_decide; [by intros [= <- _ _]|].
  intros H1 Hne. apply suffix_len in Hg. apply parseNextToken_shorter in H1; [lia|done].
Qed.

(** The text behind a character that was found is shorter. *)
Lemma goto_tl_shorter si ch si' : gotoNextToken si = Ok (ch, si') -> ch <> nul -> (length (tl si') < length si)%nat.
Proof.
  intros H Hne. pose proof (gotoNextToken_good si) as Hg. rewrite H in Hg. apply suffix_len in Hg.
  destruct (gotoNextToken_peek _ _ _ H Hne) as [_ [rest ->]]. cbn in *. lia.
Qed.

Lemma keyword_shorter keyword si si' :
  parseKeyword langdescr keyword si = Ok (true, si') -> (length si' < length si)%nat.
Proof.
  unfold parseKeyword. destruct (parseNextToken si) as [[[ch tok] rest]| |] eqn:E; cbn; try done.
  destruct (isAlpha ch) eqn:Ea; cbn; [|done]. destruct (iequals _ _); [|done]. intros [= <-].
  eapply token_shorter; [exact E|]. by intros ->.
Qed.

End Parser.

(** ** Automation: a parser step by step *)

Ltac suffixes :=
  solve [ repeat match goal with
                 | |- ?l `suffix_of` ?l => reflexivity
                 | |- tl ?l `suffix_of` _ => apply suffix_tl
                 | H : ?l `suffix_of` _ |- ?l `suffix_of` _ => (etransitivity; [exact H|]); clear H
                 end ].

Ltac good_fact :=
  lazymatch goal with
  | |- good _ (TdlParse.gotoNextToken _ _) => apply gotoNextToken_good
  | |- good _ (TdlParse.parseNextToken _ _) => apply parseNextToken_good
  | |- good _ (ParseUtils.parseNextToken _ _ _) => apply scanner_good
  | |- good _ (parseNextToken_op _ _) => apply scanner_good
  | |- good _ (parseNextIdentifier _ _) => apply parseNextIdentifier_good
  | |- _ => solve [auto with parse]
  end.

Ltac good_step :=
  cbv beta iota;
  lazymatch goal with
  | |- good _ (Throw _) => exact I
  | |- good _ (fail _) => exact I
  | |- good _ (Ok _) => unfold good; suffixes
  | |- good _ (if ?b then _ else _) => destruct b eqn:?
  | |- good _ (match ?x with pair _ _ => _ end) =>
      let E := fresh "E" in destruct x as [? ?] eqn:E;
      first [apply goto_suffix in E | idtac]
  | |- good _ (let x := ?v in _) => cbv zeta
  | |- good _ (mbind _ _) =>
      first [ eapply good_bind; [good_fact|suffixes|];
              let x := fresh "x" in let s := fresh "s" in
              intros x s ? ?;
              repeat match type of x with prod _ _ => let y := fresh "y" in destruct x as [x y] end
            | apply good_bind0; [solve [auto with parse]|intros ? ?] ]
  | |- good _ _ => eapply good_suffix; [good_fact|suffixes]
  end.
Ltac parse_good := repeat good_step.

(** What is left is shorter: by the facts on what was found. *)
Ltac found :=
  repeat match goal with
         | E : bool_decide (?c = ?d) = true |- _ => apply bool_decide_eq_true in E; first [subst c | subst d]
         | E : bool_decide (_ = _) = false |- _ => apply bool_decide_eq_false in E
         | E : (_ =? _) = true |- _ => apply Z.eqb_eq in E; subst
         | E : negb _ = false |- _ => apply negb_false_iff in E
         | E : negb _ = true |- _ => apply negb_true_iff in E
         end.
Ltac shorter :=
  found;
  repeat match goal with
         | H : TdlParse.gotoNextToken _ _ = Ok (_, _) |- _ => apply goto_tl_shorter in H; [|done]
         | H : TdlParse.parseNextToken _ _ = Ok (_, _, _) |- _ => apply token_shorter in H; [|done]
         | H : parseKeyword _ _ _ = Ok (true, _) |- _ => apply keyword_shorter in H
         | H : parseNextIdentifier _ _ = Ok (_, _) |- _ => apply parseNextIdentifier_shorter in H; [|done]
         end;
  repeat match goal with H : _ `suffix_of` _ |- _ => apply suffix_len in H end; lia.

(** The rest of a loop. *)
Ltac next IH := eapply good_suffix; [apply IH; shorter|suffixes].
Ltac good_loop IH := repeat first [good_step | next IH].

Section Parsers.
Context (langdescr : LanguageDescription).

Lemma parseKeyword_good keyword si : good si (parseKeyword langdescr keyword si).
Proof. unfold parseKeyword. parse_good. Qed.

Lemma parseFunctionName_good si : good si (parseFunctionName langdescr si).
Proof. unfold parseFunctionName. parse_good. Qed.

Lemma parseSelectorPath_good si : good si (parseSelectorPath langdescr si).
Proof. unfold parseSelectorPath. parse_good. Qed.

Lemma parseFilename_good si : good si (parseFilename langdescr si).
Proof. unfold parseFilename. parse_good. Qed.

#[local] Hint Resolve parseKeyword_good parseFunctionName_good parseSelectorPath_good : parse.

Lemma parseSubroutineName_good si : good si (parseSubroutineName langdescr si).
Proof. unfold parseSubroutineName. parse_good. Qed.

Lemma parseNameAssignment_good si : good si (parseNameAssignment langdescr si).
Proof. unfold parseNameAssignment. parse_good. Qed.

#[local] Hint Resolve parseSubroutineName_good parseNameAssignment_good : parse.

(** ** Loops *)

Lemma into_loop_good fuel : forall si rt, (length si < fuel)%nat -> good si (into_loop langdescr fuel si rt).
Proof. induction fuel as [|fuel IH]; intros si rt Hf; [lia|]. cbn [into_loop]. good_loop IH. Qed.

Lemma parse_INTO_path_good si : good si (parse_INTO_path langdescr si).
Proof. apply into_loop_good. lia. Qed.

Lemma arguments_loop_good fuel eb : forall si rt,
  (length si < fuel)%nat -> good si (arguments_loop langdescr fuel eb si rt).
Proof. induction fuel as [|fuel IH]; intros si rt Hf; [lia|]. cbn [arguments_loop]. good_loop IH. Qed.

Lemma parseArguments_good sb eb si : good si (parseArguments langdescr sb eb si).
Proof.
  unfold parseArguments. parse_good. eapply good_suffix; [apply arguments_loop_good|suffixes].
  pose proof (suffix_len _ _ (suffix_tl s s (reflexivity s))). lia.
Qed.

Lemma to_bracket_good fuel sb eb : forall si, (length si < fuel)%nat -> good si (to_bracket langdescr fuel sb eb si).
Proof.
  induction fuel as [|fuel IH]; intros si Hf; [lia|]. cbn [to_bracket]. parse_good.
  apply orb_false_iff in Heqb as [[Hb _]%orb_false_iff _]. next IH.
Qed.

#[local] Hint Resolve parse_INTO_path_good parseArguments_good : parse.

Lemma lexical_cast_total cs : lexical_cast_size_t cs <> OutOfFuel.
Proof. unfold lexical_cast_size_t. cbv zeta. by destruct (_ <? _). Qed.
#[local] Hint Resolve lexical_cast_total : parse.

(** ** References *)

Lemma span_pair p si a b : SQL.span p si = (a, b) -> b `suffix_of` si.
Proof. intros H. pose proof (span_suffix p si) as Hs. by rewrite H in Hs. Qed.

Lemma namespace_suffix si n s : parse_namespace si = (n, s) -> s `suffix_of` si.
Proof.
  unfold parse_namespace. destruct (isAlpha _); [|by intros [= _ <-]].
  destruct (SQL.span _ si) as [a b] eqn:E. apply span_pair in E.
  destruct (bool_decide _); intros [= _ <-]; [by apply suffix_tl|done].
Qed.

Lemma parseEmbeddedReference_good si : good si (parseEmbeddedReference langdescr si).
Proof.
  unfold parseEmbeddedReference.
  destruct (ParseUtils.gotoNextToken si) as [ch si1] eqn:E. apply goto_suffix in E. cbv zeta.
  destruct (_ || _).
  { eapply good_bind; [apply to_bracket_good; lia|suffixes|]. intros x s _ Hs. parse_good. }
  destruct (bool_decide _); [unfold good; suffixes|]. destruct (isAlphaNumeric ch); [|exact I].
  destruct (parse_namespace si1) as [n si2] eqn:En. apply namespace_suffix in En. cbv zeta.
  destruct (isDigit _).
  - destruct (SQL.span isDigit si2) as [digits rest] eqn:Es. apply span_pair in Es. parse_good.
  - destruct (isAlpha _); [|exact I]. destruct (SQL.span _ si2) as [name rest] eqn:Es. apply span_pair in Es. parse_good.
Qed.
#[local] Hint Resolve parseEmbeddedReference_good : parse.

Lemma parsePlainReference_good si : good si (parsePlainReference langdescr si).
Proof. unfold parsePlainReference. parse_good. Qed.
#[local] Hint Resolve parsePlainReference_good : parse.

Lemma AuditElementReference_good si : good si (AuditElementReference_parse langdescr si).
Proof. unfold AuditElementReference_parse. parse_good. Qed.

(** ** Lists of parameters *)

Lemma goto_plain_shorter si ch si' :
  ParseUtils.gotoNextToken si = (ch, si') -> ch <> nul -> (length (tl si') < length si)%nat.
Proof.
  intros E Hne. destruct (goto_peek _ _ _ E Hne) as [rest ->]. apply goto_suffix, suffix_len in E. cbn in *. lia.
Qed.

Lemma params_loop_good {A} (parse : list ascii -> res (A * list ascii)) fuel :
  (forall si, good si (parse si)) ->
  forall ci params, (length ci < fuel)%nat -> good ci (params_loop parse fuel ci params).
Proof.
  intros Hp. induction fuel as [|fuel IH]; intros ci params Hf; [lia|]. cbn [params_loop].
  eapply good_bind; [apply Hp|done|]. intros p s _ Hs. cbv beta iota zeta.
  destruct (ParseUtils.gotoNextToken s) as [ch s1] eqn:E. pose proof (goto_suffix _ _ _ E) as H1.
  destruct (bool_decide (ch = ","%char)) eqn:Ec; [|parse_good].
  apply bool_decide_eq_true in Ec. subst ch. pose proof (goto_plain_shorter _ _ _ E ltac:(done)) as Hl.
  destruct (ParseUtils.gotoNextToken (tl s1)) as [ch s2] eqn:E2. apply goto_suffix in E2.
  destruct (bool_decide _); [exact I|]. eapply good_suffix; [apply IH|suffixes].
  apply suffix_len in E2. apply suffix_len in Hs. lia.
Qed.

Lemma parse_params_good {A} (parse : list ascii -> res (A * list ascii)) si :
  (forall si, good si (parse si)) -> good si (parse_params parse si).
Proof.
  intros Hp. unfold parse_params. destruct (ParseUtils.gotoNextToken si) as [ch s] eqn:E. apply goto_suffix in E.
  destruct (bool_decide (ch = nul)); [exact I|]. destruct (bool_decide _); [unfold good; suffixes|].
  eapply good_bind; [apply params_loop_good; [done|lia]|exact E|]. intros x s1 _ H1. cbn. suffixes.
Qed.
#[local] Hint Resolve AuditElementReference_good parse_params_good : parse.

Lemma AuditCallStatement_good si : good si (AuditCallStatement_parse langdescr si).
Proof. unfold AuditCallStatement_parse. parse_good. Qed.

Lemma SubroutineCallStatement_good si : good si (SubroutineCallStatement_parse langdescr si).
Proof.
  unfold SubroutineCallStatement_parse. destruct (ParseUtils.gotoNextToken si) as [ch s] eqn:E. apply goto_suffix in E.
  destruct (bool_decide _); [exact I|]. destruct (negb _); [exact I|].
  eapply good_bind; [apply scanner_good|exact E|]. intros [c name] s1 _ H1. cbv beta iota.
  destruct (ParseUtils.gotoNextToken s1) as [ch2 s2] eqn:E2. apply goto_suffix in E2.
  eapply (good_bind _ s2); [destruct (bool_decide _); [apply parseArguments_good|parse_good]|suffixes|].
  intros tps s3 _ H3. parse_good.
Qed.
#[local] Hint Resolve SubroutineCallStatement_good : parse.

End Parsers.

(** ** Languages and statements *)

(** An operator is left behind by one character. *)
Lemma scanner_operator si ops alphas ch tok rest :
  ParseUtils.parseNextToken si ops alphas = Ok (ch, tok, rest) -> ch <> nul -> is_quote ch = false -> ops ch = true ->
  skip si = ch :: rest.
Proof.
  unfold ParseUtils.parseNextToken. destruct (skip si) as [|c r]; [by intros [= <- _ _]|].
  destruct (is_quote c) eqn:Eq.
  { destruct (read_string _ _ _) as [[t r']| |]; cbn; try done. intros [= <- _ _]. congruence. }
  destruct (ops c) eqn:Eo; [by intros [= <- _ <-]|]. destruct (alphas c); [|done].
  destruct (span_alpha _ _). intros [= <- _ _]. congruence.
Qed.

(** What the parser expects of the language of the database. *)
Class LanguageLaws (langdescr : LanguageDescription) : Prop :=
  statement_good : forall si, good si (parseEmbeddedStatement langdescr si).

#[export] Instance SQL_laws : LanguageLaws LanguageDescriptionSQL.
Proof.
  intros si. cbn [parseEmbeddedStatement LanguageDescriptionSQL]. unfold SQL.sql_parseEmbeddedStatement.
  enough (forall fuel start si rt, (length si < fuel)%nat -> good si (SQL.scan_statement fuel start si rt)) as H by (apply H; lia).
  clear si. intros fuel. induction fuel as [|fuel IH]; intros start si rt Hf; [lia|]. cbn [SQL.scan_statement].
  pose proof (scanner_good si SQL.optab identifierCharTable) as Hg. unfold parseNextToken_op.
  destruct (ParseUtils.parseNextToken si SQL.optab identifierCharTable) as [[[ch tok] si1]| |] eqn:E; cbn in Hg; try done.
  cbn [mbind res_bind]. destruct (bool_decide (ch = nul)) eqn:En; [done|]. apply bool_decide_eq_false in En.
  pose proof (parseNextToken_shorter _ _ _ _ _ _ E En) as Hl.
  assert (is_quote ch = false -> SQL.optab ch = true -> ch :: si1 `suffix_of` si) as Hop.
  { intros H1 H2. rewrite <- (scanner_operator _ _ _ _ _ _ E En H1 H2). apply skip_suffix_of. }
  destruct (bool_decide (ch = ";"%char)) eqn:E1.
  { apply bool_decide_eq_true in E1. subst ch. by apply Hop. }
  destruct (bool_decide (ch = "-"%char)) eqn:E2; [|eapply good_suffix; [apply IH; lia|done]].
  destruct (after_comment "--" (ch :: si1)) as [ti|] eqn:Ea; [|eapply good_suffix; [apply IH; lia|done]].
  apply bool_decide_eq_true in E2. subst ch. apply after_comment_suffix in Ea as [H1 H2].
  eapply good_suffix; [apply IH; cbn in H2; lia|]. etrans; [exact H1|by apply Hop].
Qed.

#[export] Hint Resolve parseKeyword_good parseFunctionName_good parseSelectorPath_good parseFilename_good
  parseSubroutineName_good parseNameAssignment_good parse_INTO_path_good parseArguments_good
  parseEmbeddedReference_good parsePlainReference_good AuditElementReference_good AuditCallStatement_good
  SubroutineCallStatement_good parse_params_good lexical_cast_total : parse.

Section Commands.
Context (langdescr : LanguageDescription) `{!LanguageLaws langdescr}.

(** A token, or the end of the text. *)
Lemma token_or_end si ch tok si' :
  TdlParse.parseNextToken langdescr si = Ok (ch, tok, si') -> si' = [] \/ (length si' < length si)%nat.
Proof.
  intros H. destruct (decide (ch = nul)) as [->|Hne]; [left|right; by eapply token_shorter].
  revert H. unfold TdlParse.parseNextToken.
  destruct (TdlParse.gotoNextToken langdescr si) as [[c s]| |] eqn:E; cbn [mbind res_bind]; try done.
  destruct (decide (c = nul)) as [->|Hc].
  - rewrite bool_decide_true by done. intros [= _ <-]. revert E. unfold TdlParse.gotoNextToken.
    generalize (S (length si)). intros fuel. revert si. induction fuel as [|fuel IH]; intros si; [done|].
    cbn [goto_loop]. destruct (ParseUtils.gotoNextToken si) as [c1 s1] eqn:E1.
    destruct (after_comment _ s1); [apply IH|]. intros [= -> ->]. unfold ParseUtils.gotoNextToken in E1.
    injection E1 as E1 E2. rewrite <- E2. clear IH E2. revert E1.
    induction si as [|d si IHs]; cbn; [done|]. destruct (Z.leb_spec (ord d) 32) as [|Hd]; [exact IHs|].
    intros ->. by vm_compute in Hd.
  - rewrite bool_decide_false by done. destruct (gotoNextToken_peek _ _ _ _ E Hc) as [Ho [rest ->]].
    unfold parseNextToken_op, ParseUtils.parseNextToken. rewrite skip_cons by done.
    destruct (is_quote c). { destruct (read_string _ _ _) as [[? ?]| |]; cbn; try done. intros [= Hn _ _]; congruence. }
    destruct (g_tdl_optab c); [intros [= Hn _ _]; congruence|]. destruct (identifierCharTable c); [|done].
    destruct (span_alpha _ _). intros [= Hn _ _]; congruence.
Qed.

Lemma good_total {A} si (r : res (A * list ascii)) : good si r -> r <> OutOfFuel.
Proof. by destruct r. Qed.

Lemma statement_loop_total fuel : forall start ch ci stm params,
  (length ci < fuel)%nat -> statement_loop langdescr fuel start ch ci stm params <> OutOfFuel.
Proof.
  induction fuel as [|fuel IH]; intros start ch ci stm params Hf; [lia|]. cbn [statement_loop].
  destruct ci as [|c ci0]; [done|]. set (ci := c :: ci0) in *. destruct (bool_decide (ch = nul)); [done|].
  assert (forall s (k : ascii * string * list ascii -> res EmbeddedStatement), s `suffix_of` ci ->
    (forall ch tok s', (length s' < fuel)%nat -> k (ch, tok, s') <> OutOfFuel) ->
    (TdlParse.parseNextToken langdescr s ≫= k) <> OutOfFuel) as Htok.
  { intros s k Hs Hk. pose proof (parseNextToken_good langdescr s) as Hg.
    destruct (TdlParse.parseNextToken langdescr s) as [[[ch' tok] s']| |] eqn:E; [|done|done]. cbn [mbind res_bind].
    apply Hk. apply suffix_len in Hs. destruct (token_or_end _ _ _ _ E) as [->|Hl]; cbn in *; lia. }
  destruct (_ && _).
  - pose proof (parseEmbeddedReference_good langdescr ci) as Hg.
    destruct (parseEmbeddedReference langdescr ci) as [[ref ci']| |]; [|done|done]. cbn [mbind res_bind].
    apply Htok; [done|]. intros ch' tok s' Hl. by apply IH.
  - apply Htok; [done|]. intros ch' tok s' Hl. by apply IH.
Qed.

Lemma EmbeddedStatement_good si : good si (EmbeddedStatement_parse langdescr si).
Proof using All.
  unfold EmbeddedStatement_parse. eapply good_bind; [apply statement_good|done|].
  intros dbstm s _ Hs. cbv beta iota zeta. pose proof (parseNextToken_good langdescr (chars dbstm)) as Hg.
  destruct (TdlParse.parseNextToken langdescr (chars dbstm)) as [[[ch tok] ci]| |]; [|done|done].
  cbn [mbind res_bind]. apply good_bind0; [|intros stm _; unfold good; suffixes].
  apply statement_loop_total. apply suffix_len in Hg. lia.
Qed.

Lemma idstring_total it id : IdentifierTable.idstring it id <> OutOfFuel.
Proof. unfold IdentifierTable.idstring. by destruct (_ !! _). Qed.

Lemma checkUniqOccurrence_total id mask it : checkUniqOccurrence id mask it <> OutOfFuel.
Proof.
  unfold checkUniqOccurrence. cbv zeta. destruct (negb _); [|done].
  pose proof (idstring_total it id). by destruct (IdentifierTable.idstring it id).
Qed.

#[local] Hint Resolve EmbeddedStatement_good checkUniqOccurrence_total : parse.

Lemma qualifiers_good fuel : forall si n u, (length si < fuel)%nat -> good si (qualifiers langdescr fuel si n u).
Proof. induction fuel as [|fuel IH]; intros si n u Hf; [lia|]. cbn [qualifiers]. good_loop IH. Qed.

Lemma hints_loop_good fuel : forall e si hints, (length si < fuel)%nat -> good si (hints_loop langdescr fuel e si hints).
Proof. induction fuel as [|fuel IH]; intros e si hints Hf; [lia|]. cbn [hints_loop]. good_loop IH. Qed.

Lemma parse_DO_good rt si : good si (parse_DO langdescr rt si).
Proof using All.
  unfold parse_DO. eapply good_bind; [apply qualifiers_good; lia|done|].
  intros [n u] s _ Hs. cbv beta iota. parse_good.
Qed.
#[local] Hint Resolve parse_DO_good : parse.

Lemma command_loop_good fuel : forall si mask rt,
  (length si < fuel)%nat -> good si (command_loop langdescr fuel si mask rt).
Proof using All.
  induction fuel as [|fuel IH]; intros si mask rt Hf; [lia|]. cbn [command_loop].
  repeat first [good_step | next IH].
  eapply good_bind; [apply hints_loop_good; lia|suffixes|]. intros hs rest _ Hs. cbn. suffixes.
Qed.

Lemma CommandDefinition_good si : good si (CommandDefinition_parse langdescr si).
Proof using All. apply command_loop_good. lia. Qed.

End Commands.

(** C22. Parsing a command ends: with a command, of which at least one character was read and
    behind which a suffix of the text is left, or with an exception. *)
Theorem command_parse_terminates (langdescr : LanguageDescription) (laws : LanguageLaws langdescr) si :
  (exists cmd pre rest, CommandDefinition_parse langdescr si = Ok (cmd, rest) /\ si = pre ++ rest) \/
  (exists e, CommandDefinition_parse langdescr si = Throw e).
Proof.
  pose proof (CommandDefinition_good langdescr si) as H.
  destruct (CommandDefinition_parse langdescr si) as [[cmd rest]|e|]; [left|right; by eexists|done].
  destruct H as [pre ->]. by exists cmd, pre, rest.
Qed.

Lemma command_parse_terminates_witness :
  exists cmd pre rest,
    CommandDefinition_parse LanguageDescriptionSQL (chars "DO SELECT a FROM b; END") = Ok (cmd, rest) /\
    chars "DO SELECT a FROM b; END" = pre ++ rest.
Proof.
  destruct (command_parse_terminates LanguageDescriptionSQL SQL_laws (chars "DO SELECT a FROM b; END"))
    as [H|[e H]]; [exact H|]. vm_compute in H. discriminate H.
Defined.
