(* ===== verification/TdlParseClean.v ===== *)
(** * Parsed commands are well formed

    Tokens have no null characters, and a command that is parsed from a text without null
    characters has the well-formedness that the translator's theorems ask for. *)
From S2P Require Import Prelude Variant ValueTupleSet ProgramImage TdlTables SelectorPath ParseUtils TdlProgram Tdl2vm TdlCommand TdlGenerated DatabaseLanguage TdlParse TdlParseFacts.

(** ** What a parser yields *)

Definition yields {A} (P : A -> Prop) (r : res (A * list ascii)) : Prop :=
  match r with Ok (x, _) => P x | _ => True end.

Lemma yields_bind {A B} (P : B -> Prop) (m : res (A * list ascii)) (f : A * list ascii -> res (B * list ascii)) :
  (forall x s, m = Ok (x, s) -> yields P (f (x, s))) -> yields P (m ≫= f).
Proof. destruct m as [[x s]| |]; cbn; auto. Qed.

Lemma yields_bind0 {A B} (P : B -> Prop) (m : res A) (f : A -> res (B * list ascii)) :
  (forall x, m = Ok x -> yields P (f x)) -> yields P (m ≫= f).
Proof. destruct m as [x| |]; cbn; auto. Qed.

Lemma yields_intro {A} (P : A -> Prop) x s : P x -> yields P (Ok (x, s)).
Proof. done. Qed.

Lemma yields_Ok {A} (P : A -> Prop) r x s : yields P r -> r = Ok (x, s) -> P x.
Proof. by intros H ->. Qed.

Definition clean (si : list ascii) : Prop := nul ∉ si.

Lemma clean_suffix si si' : si' `suffix_of` si -> clean si -> clean si'.
Proof. intros [pre ->]. unfold clean. rewrite not_elem_of_app. tauto. Qed.

Lemma clean_good {A} si (r : res (A * list ascii)) x s : good si r -> r = Ok (x, s) -> clean si -> clean s.
Proof. intros Hg ->. by apply clean_suffix. Qed.

Lemma chars_of_str cs : chars (str cs) = cs.
Proof. apply String.list_ascii_of_string_of_list_ascii. Qed.

(** ** Tokens *)

Lemma read_string_clean eb itr : forall tok tok' rest,
  clean tok -> read_string eb itr tok = Ok (tok', rest) -> clean tok'.
Proof.
  induction itr as [itr IH] using (induction_ltof1 _ length). intros tok tok' rest Ht.
  assert (forall c, c <> nul -> clean (tok ++ [c])) as Hc.
  { intros c Hne. unfold clean. rewrite not_elem_of_app, list_elem_of_singleton. split; [done|congruence]. }
  destruct itr as [|c itr]; cbn; [done|]. case_bool_decide; [by intros [= <- _]|]. case_bool_decide.
  - destruct itr as [|d itr]; [done|]. case_bool_decide; [done|]. apply IH; [unfold ltof; cbn; lia|by apply Hc].
  - case_bool_decide; [done|]. apply IH; [unfold ltof; cbn; lia|by apply Hc].
Qed.

Lemma span_alpha_clean t itr : clean (span_alpha t itr).1.
Proof.
  unfold clean. induction itr as [|c itr IH]; cbn; [apply not_elem_of_nil|].
  destruct (32 <? ord c) eqn:E; cbn; [|apply not_elem_of_nil]. destruct (t c); [|apply not_elem_of_nil].
  destruct (span_alpha t itr). cbn in *. apply not_elem_of_cons. split; [|done]. intros <-. by vm_compute in E.
Qed.

(** No token has a null character. *)
Lemma scanner_clean itr ops alphas ch tok rest :
  ParseUtils.parseNextToken itr ops alphas = Ok (ch, tok, rest) -> clean (chars tok).
Proof.
  unfold ParseUtils.parseNextToken. assert (clean (chars "")) as He by apply not_elem_of_nil.
  destruct (skip itr) as [|c itr1]; [by intros [= _ <- _]|]. destruct (is_quote c).
  { destruct (read_string c itr1 []) as [[t r]| |] eqn:E; cbn; try done. intros [= _ <- _]. rewrite chars_of_str.
    eapply read_string_clean; [|exact E]. apply not_elem_of_nil. }
  destruct (ops c); [by intros [= _ <- _]|]. destruct (alphas c); [|done].
  pose proof (span_alpha_clean alphas (c :: itr1)) as Hs. destruct (span_alpha _ _). intros [= _ <- _]. by rewrite chars_of_str.
Qed.

Lemma sub_clean n si : clean si -> clean (take n si).
Proof. unfold clean. rewrite <- (take_drop n si) at 1. rewrite not_elem_of_app. tauto. Qed.

Lemma trim_left_suffix cs : trim_left cs `suffix_of` cs.
Proof. induction cs as [|c cs IH]; cbn; [done|]. destruct (is_space c); [|done]. by apply suffix_cons_r. Qed.

Lemma clean_rev cs : clean (rev cs) <-> clean cs.
Proof. unfold clean. by rewrite !list_elem_of_In, <- in_rev. Qed.

Lemma trim_clean cs : clean cs -> clean (trim cs).
Proof.
  intros H. unfold trim. apply clean_rev. eapply clean_suffix; [apply trim_left_suffix|]. apply clean_rev.
  eapply clean_suffix; [apply trim_left_suffix|done].
Qed.

Section Parsers.
Context (langdescr : LanguageDescription).

Lemma token_clean si ch tok rest : TdlParse.parseNextToken langdescr si = Ok (ch, tok, rest) -> clean (chars tok).
Proof.
  unfold TdlParse.parseNextToken. destruct (TdlParse.gotoNextToken langdescr si) as [[c s]| |]; cbn; try done.
  case_bool_decide; [intros [= _ <- _]; apply not_elem_of_nil|]. apply scanner_clean.
Qed.

Ltac yields_step :=
  cbv beta iota;
  lazymatch goal with
  | |- yields _ (Throw _) => exact I
  | |- yields _ (fail _) => exact I
  | |- yields _ expected_reference => exact I
  | |- yields _ (if ?b then _ else _) => destruct b eqn:?
  | |- yields _ (match ?x with pair _ _ => _ end) => let E := fresh "E" in destruct x as [? ?] eqn:E
  | |- yields _ (let x := ?v in _) => cbv zeta
  | |- yields _ (mbind _ _) =>
      first [ apply yields_bind; let x := fresh "x" in let s := fresh "s" in intros x s ?;
              repeat match type of x with prod _ _ => let y := fresh "y" in destruct x as [x y] end
            | apply yields_bind0; intros ? ? ]
  | |- yields _ (Ok _) => unfold yields
  end.

Lemma parseSelectorPath_clean si : yields (fun s => clean (chars s)) (parseSelectorPath langdescr si).
Proof. unfold parseSelectorPath. repeat yields_step. by eapply scanner_clean. Qed.

Definition good_element (e : ElementReference.t) : Prop := ok_element e = true.

Lemma good_element_clean e : clean (chars (ElementReference.selector e)) -> good_element e.
Proof. intros H. unfold good_element, ok_element. by apply bool_decide_eq_true. Qed.

Lemma span_clean p si a b : SQL.span p si = (a, b) -> clean si -> clean a.
Proof.
  intros H Hc. assert (a ++ b = si) as <-.
  { revert a b H. clear Hc. induction si as [|c si IH]; intros a b; cbn; [by intros [= <- <-]|].
    destruct (p c); [|by intros [= <- <-]]. destruct (SQL.span p si) as [a' b']. intros [= <- <-]. cbn. by rewrite IH. }
  unfold clean in *. rewrite not_elem_of_app in Hc. tauto.
Qed.

Lemma namespace_clean si n s : parse_namespace si = (n, s) -> clean si -> clean (chars n).
Proof.
  unfold parse_namespace. intros H Hc. assert (clean (chars "")) as He by apply not_elem_of_nil.
  destruct (isAlpha _); [|by injection H as <- _]. destruct (SQL.span _ si) as [a b] eqn:E.
  destruct (bool_decide _); injection H as <- _; [|done]. rewrite chars_of_str. by eapply span_clean.
Qed.

Lemma parseEmbeddedReference_clean si : clean si -> yields good_element (parseEmbeddedReference langdescr si).
Proof.
  intros Hc. unfold parseEmbeddedReference. destruct (ParseUtils.gotoNextToken si) as [ch si1] eqn:E.
  assert (clean si1) as Hc1 by (eapply clean_suffix; [by eapply goto_suffix|done]).
  repeat yields_step; apply good_element_clean; cbn;
    try (apply not_elem_of_nil); try (eapply namespace_clean; [eassumption|done]).
  rewrite chars_of_str. apply trim_clean, sub_clean. eapply clean_suffix; [by apply suffix_tl|done].
Qed.

Lemma parsePlainReference_clean si : clean si -> yields good_element (parsePlainReference langdescr si).
Proof.
  intros Hc. unfold parsePlainReference. apply yields_bind. intros ch s E.
  assert (clean s) as Hs by (eapply clean_good; [apply gotoNextToken_good|exact E|done]). cbv beta iota.
  destruct (_ || _).
  { repeat yields_step. apply good_element_clean. by eapply token_clean. }
  destruct (bool_decide _).
  { apply parseEmbeddedReference_clean. eapply clean_suffix; [by apply suffix_tl|done]. }
  apply yields_bind. intros tok s1 E1. apply good_element_clean. cbn.
  apply (yields_Ok (fun s => clean (chars s)) _ _ _ (parseSelectorPath_clean s) E1).
Qed.

Lemma params_loop_clean {A} (P : A -> Prop) (parse : list ascii -> res (A * list ascii)) fuel :
  (forall si, good si (parse si)) -> (forall si, clean si -> yields P (parse si)) ->
  forall ci params, clean ci -> Forall P params -> yields (Forall P) (params_loop parse fuel ci params).
Proof.
  intros Hg Hp. induction fuel as [|fuel IH]; intros ci params Hc Hps; [done|]. cbn [params_loop].
  apply yields_bind. intros p s E. assert (clean s) as Hs by (by eapply clean_good).
  assert (Forall P (params ++ [p])) as Hps' by (apply Forall_app; split; [done|]; constructor; [exact (yields_Ok P _ _ _ (Hp ci Hc) E)|done]).
  cbv beta iota zeta. destruct (ParseUtils.gotoNextToken s) as [ch s1] eqn:E1.
  destruct (bool_decide _); [|by destruct (bool_decide _)].
  destruct (ParseUtils.gotoNextToken (tl s1)) as [ch2 s2] eqn:E2. destruct (bool_decide _); [done|]. apply IH; [|done].
  eapply clean_suffix; [by eapply goto_suffix|]. eapply clean_suffix; [apply suffix_tl; by eapply goto_suffix|done].
Qed.

Lemma SubroutineCallStatement_clean si :
  clean si -> yields (fun c => Forall good_element (call_params c)) (SubroutineCallStatement_parse langdescr si).
Proof.
  intros Hc. unfold SubroutineCallStatement_parse. destruct (ParseUtils.gotoNextToken si) as [ch s] eqn:E.
  assert (clean s) as Hs by (eapply clean_suffix; [by eapply goto_suffix|done]).
  destruct (bool_decide _); [done|]. destruct (negb _); [done|]. apply yields_bind. intros [c name] s1 E1.
  assert (clean s1) as Hs1 by (eapply clean_good; [apply scanner_good|exact E1|done]). cbv beta iota.
  destruct (ParseUtils.gotoNextToken s1) as [ch2 s2] eqn:E2.
  assert (clean s2) as Hs2 by (eapply clean_suffix; [by eapply goto_suffix|done]).
  apply yields_bind. intros tps s3 E3.
  assert (clean s3) as Hs3.
  { destruct (bool_decide (ch2 = "<"%char)); [|by injection E3 as _ <-]. eapply clean_good; [apply parseArguments_good|exact E3|done]. }
  cbv beta iota. destruct (ParseUtils.gotoNextToken s3) as [ch4 s4] eqn:E4.
  assert (clean (tl s4)) as Hs4 by (eapply clean_suffix; [apply suffix_tl; by eapply goto_suffix|done]).
  destruct (negb _); [done|]. apply yields_bind. intros params s5 E5. cbn.
  unfold parse_params in E5. destruct (ParseUtils.gotoNextToken (tl s4)) as [ch6 s6] eqn:E6.
  destruct (bool_decide (ch6 = nul)); [done|]. destruct (bool_decide (ch6 = ")"%char)); [by injection E5 as <- _|].
  destruct (params_loop _ _ _ _) as [[ps s7]| |] eqn:E7; cbn in E5; try done. injection E5 as <- _.
  apply (yields_Ok _ _ _ _ (params_loop_clean good_element _ _ (parsePlainReference_good langdescr) parsePlainReference_clean _ [] ltac:(eapply clean_suffix; [by eapply goto_suffix|done]) ltac:(done)) E7).
Qed.

End Parsers.

(** ** Commands *)

(** The text of a statement comes from the text that is parsed. *)
Class CleanStatements (langdescr : LanguageDescription) : Prop :=
  statement_clean : forall si, clean si -> yields (fun stm => clean (chars stm)) (parseEmbeddedStatement langdescr si).

Lemma between_clean start si : clean start -> clean (between start si).
Proof. apply sub_clean. Qed.

#[export] Instance SQL_clean : CleanStatements LanguageDescriptionSQL.
Proof.
  intros si Hc. cbn [parseEmbeddedStatement LanguageDescriptionSQL]. unfold SQL.sql_parseEmbeddedStatement.
  enough (forall fuel start si rt, clean start -> clean si -> clean rt ->
    yields (fun stm => clean (chars stm)) (SQL.scan_statement fuel start si rt)) as H
    by (apply H; [done|done|apply not_elem_of_nil]).
  clear. intros fuel. induction fuel as [|fuel IH]; intros start si rt H1 H2 H3; [done|]. cbn [SQL.scan_statement].
  apply yields_bind. intros [ch tok] si1 E.
  assert (clean si1) as Hs1 by (eapply clean_good; [apply scanner_good|exact E|done]). cbv beta iota.
  assert (forall x, clean (rt ++ between start x)) as Ha.
  { intros x. pose proof (between_clean start x H1). unfold clean in *. rewrite not_elem_of_app. tauto. }
  destruct (bool_decide (ch = nul)) eqn:En; [done|]. destruct (bool_decide (ch = ";"%char)); [apply yields_intro; cbv beta; by rewrite chars_of_str|].
  destruct (bool_decide (ch = "-"%char)); [|by apply IH].
  destruct (after_comment _ _) as [ti|] eqn:Ea; [|by apply IH]. apply after_comment_suffix in Ea as [Hs _].
  apply bool_decide_eq_false in En.
  assert (clean ti) as Ht.
  { eapply clean_suffix; [exact Hs|]. apply not_elem_of_cons. split; [congruence|done]. }
  by apply IH.
Qed.

Section Commands.
Context (langdescr : LanguageDescription) `{!LanguageLaws langdescr} `{!CleanStatements langdescr}.

Lemma statement_loop_clean fuel : forall start ch ci stm params r,
  clean ci -> Forall good_element params -> statement_loop langdescr fuel start ch ci stm params = Ok r ->
  Forall good_element (stm_params r).
Proof.
  induction fuel as [|fuel IH]; intros start ch ci stm params r Hc Hp; [done|]. cbn [statement_loop].
  destruct ci as [|c ci0]; [by intros [= <-]|]. set (ci := c :: ci0) in *.
  destruct (bool_decide (ch = nul)); [by intros [= <-]|].
  assert (forall s, clean s -> forall ch' tok s', TdlParse.parseNextToken langdescr s = Ok (ch', tok, s') -> clean s') as Ht.
  { intros s Hs ch' tok s' E. eapply clean_good; [apply parseNextToken_good|exact E|done]. }
  destruct (_ && _).
  - destruct (parseEmbeddedReference langdescr ci) as [[ref ci']| |] eqn:E; cbn [mbind res_bind]; try done.
    assert (clean ci') as Hc' by (eapply clean_good; [apply parseEmbeddedReference_good|exact E|done]).
    destruct (TdlParse.parseNextToken langdescr ci') as [[[ch' tok] ci'']| |] eqn:E2; cbn [mbind res_bind]; try done.
    apply IH; [by eapply Ht|]. apply Forall_app. split; [done|]. constructor; [|done].
    by apply (yields_Ok _ _ _ _ (parseEmbeddedReference_clean langdescr ci Hc) E).
  - destruct (TdlParse.parseNextToken langdescr ci) as [[[ch' tok] ci'']| |] eqn:E2; cbn [mbind res_bind]; try done.
    apply IH; [by eapply Ht|done].
Qed.

Lemma EmbeddedStatement_clean si :
  clean si -> yields (fun s => Forall good_element (stm_params s)) (EmbeddedStatement_parse langdescr si).
Proof using All.
  intros Hc. unfold EmbeddedStatement_parse. apply yields_bind. intros dbstm s E. cbv beta iota zeta.
  pose proof (yields_Ok _ _ _ _ (statement_clean si Hc) E) as Hd. cbv beta in Hd.
  destruct (TdlParse.parseNextToken langdescr (chars dbstm)) as [[[ch tok] ci]| |] eqn:E1; cbn [mbind res_bind]; try done.
  destruct (statement_loop _ _ _ _ _ _ _) as [stm| |] eqn:E2; cbn; try done.
  eapply statement_loop_clean; [|constructor|exact E2].
  eapply clean_good; [apply parseNextToken_good|exact E1|done].
Qed.

Lemma ok_command_Forall cmd :
  ok_command cmd = true <-> clean (chars (cmd_selector cmd)) /\
    Forall good_element (stm_params (cmd_statement cmd)) /\ Forall good_element (call_params (cmd_call cmd)).
Proof.
  unfold ok_command. rewrite !andb_true_iff, bool_decide_eq_true, !forallb_forall, !Forall_forall.
  unfold clean, good_element. split; [intros [[H1 H2] H3]|intros (H1 & H2 & H3)]; (split_and!; [done| |]);
    intros x Hx; first [by apply H2, list_elem_of_In | by apply H3, list_elem_of_In].
Qed.

Lemma command_loop_clean fuel : forall si mask rt,
  clean si -> ok_command rt = true -> yields (fun c => ok_command c = true) (command_loop langdescr fuel si mask rt).
Proof using All.
  induction fuel as [|fuel IH]; intros si mask rt Hc Hrt; [done|]. cbn [command_loop].
  pose proof (proj1 (ok_command_Forall rt) Hrt) as (R1 & R2 & R3).
  apply yields_bind. intros ch s E. assert (clean s) as Hs by (eapply clean_good; [apply gotoNextToken_good|exact E|done]).
  cbv beta iota. destruct (bool_decide (ch = nul)); [done|]. apply yields_bind. intros id s1 E1.
  assert (clean s1) as Hs1 by (eapply clean_good; [apply parseNextIdentifier_good|exact E1|done]). cbv beta iota.
  destruct (id =? 1); [done|]. destruct (id =? 2); [done|]. destruct (id =? 3).
  { apply yields_bind0. intros m _. apply yields_bind. intros sel s2 E2. cbv beta iota. apply IH.
    - eapply clean_good; [apply parseSelectorPath_good|exact E2|done].
    - apply ok_command_Forall. split_and!; [|done|done].
      by apply (yields_Ok _ _ _ _ (parseSelectorPath_clean langdescr s1) E2). }
  destruct (id =? 4).
  { apply yields_bind0. intros m _. apply yields_bind. intros path s2 E2. cbv beta iota. apply IH; [|done].
    eapply clean_good; [apply parse_INTO_path_good|exact E2|done]. }
  destruct (id =? 5).
  { apply yields_bind0. intros m _. apply yields_bind. intros rt' s2 E2. cbv beta iota.
    assert (clean s2) as Hs2 by (eapply clean_good; [by apply parse_DO_good|exact E2|done]).
    apply IH; [done|]. unfold parse_DO in E2.
    destruct (qualifiers _ _ _ _ _) as [[[n u] s3]| |] eqn:E3; cbn [mbind res_bind] in E2; try done.
    assert (clean s3) as Hs3 by (eapply (clean_good s1); [|exact E3|exact Hs1]; apply qualifiers_good; lia).
    destruct (TdlParse.gotoNextToken langdescr s3) as [[c s4]| |] eqn:E4; cbn [mbind res_bind] in E2; try done.
    assert (clean s4) as Hs4 by (eapply clean_good; [apply gotoNextToken_good|exact E4|done]).
    destruct (bool_decide (c = nul)); [done|]. destruct (isEmbeddedStatement langdescr s4).
    - destruct (EmbeddedStatement_parse langdescr s4) as [[stm s5]| |] eqn:E5; cbn [mbind res_bind] in E2; try done.
      injection E2 as <- <-. apply ok_command_Forall. split_and!; [done| |done].
      apply (yields_Ok _ _ _ _ (EmbeddedStatement_clean s4 Hs4) E5).
    - destruct (SubroutineCallStatement_parse langdescr s4) as [[call s5]| |] eqn:E5; cbn [mbind res_bind] in E2; try done.
      injection E2 as <- <-. apply ok_command_Forall. split_and!; [done|done|].
      apply (yields_Ok _ _ _ _ (SubroutineCallStatement_clean langdescr s4 Hs4) E5). }
  apply yields_bind. intros [c tok] s2 _. cbv beta iota. destruct (bool_decide _); [|done].
  destruct (negb _); [|done]. apply yields_bind. intros hints s3 _. exact Hrt.
Qed.

Lemma command_clean si cmd rest :
  clean si -> CommandDefinition_parse langdescr si = Ok (cmd, rest) -> ok_command cmd = true.
Proof using All.
  intros Hc E. apply (yields_Ok _ _ _ _ (command_loop_clean _ si 0 CommandDefinition_empty Hc eq_refl) E).
Qed.

End Commands.
