(* ===== verification/TdlLoadFacts.v ===== *)
(** * Accepted program blocks

    Every block of instructions that the loader accepts is translated to structured code:
    the stack of the translator is balanced, all jumps stay inside of the block, and every
    argument refers to an entry of the tables of the program. *)
From S2P Require Import Prelude InstructionSet Variant ValueTupleSet ProgramImage TdlTables SelectorPath ParseUtils TdlProgram Tdl2vm TdlCommand TdlStruct TdlCorrect TdlStatement TdlGenerated TdlLink DatabaseLanguage TdlParse TdlLoad TdlParseFacts TdlParseClean.
Import Tdl2vm.

(** ** The table of the called subroutines *)

(** The table only grows, by subroutines with addresses. *)
Definition called_grow (tr tr' : t) : Prop :=
  exists more, m_calledSubroutines tr' = m_calledSubroutines tr ++ more /\
    Forall (fun cs => 0 <= called_address cs) more.

Definition grows (op : t -> res t) : Prop := forall tr tr', op tr = Ok tr' -> called_grow tr tr'.

Lemma called_grow_refl tr tr' : m_calledSubroutines tr' = m_calledSubroutines tr -> called_grow tr tr'.
Proof. intros H. exists []. by rewrite app_nil_r. Qed.

Lemma called_grow_trans tr1 tr2 tr3 : called_grow tr1 tr2 -> called_grow tr2 tr3 -> called_grow tr1 tr3.
Proof.
  intros (m1 & H1 & F1) (m2 & H2 & F2). exists (m1 ++ m2). rewrite H2, H1, <- app_assoc. split; [done|].
  by apply Forall_app.
Qed.

Lemma grows_bind op1 op2 : grows op1 -> grows op2 -> grows (fun tr => op1 tr ≫= op2).
Proof.
  intros H1 H2 tr tr' H. destruct (op1 tr) as [tr1| |] eqn:E; cbn in H; try done.
  eapply called_grow_trans; [by apply H1|by apply H2].
Qed.

Lemma grows_when c op : grows op -> grows (when c op).
Proof. intros H tr tr' Ht. destruct c; [by apply H|]. injection Ht as <-. by apply called_grow_refl. Qed.

Lemma grows_each {A} (f : A -> t -> res t) l : (forall a, grows (f a)) -> grows (each f l).
Proof.
  intros H. induction l as [|a l IH]; [intros tr tr' [= <-]; by apply called_grow_refl|].
  apply (grows_bind (f a) (each f l)); [apply H|exact IH].
Qed.

Lemma emit_called l tr tr' : emit l tr = Ok tr' -> m_calledSubroutines tr' = m_calledSubroutines tr.
Proof. unfold emit. destruct (app_code _ _); cbn; try done. by intros [= <-]. Qed.

(** An operation case by case: all but the subroutine calls keep the table. *)
Ltac ok_cases :=
  repeat (cbn [mbind res_bind] in *;
    match goal with
    | H : Ok _ = Ok _ |- _ => injection H; clear H; intros; subst
    | H : Throw _ = Ok _ |- _ => discriminate H
    | H : OutOfFuel = Ok _ |- _ => discriminate H
    | H : emit _ _ = Ok _ |- _ => apply emit_called in H
    | H : mbind _ ?m = Ok _ |- _ => destruct m eqn:?; try discriminate H
    | H : (if ?b then _ else _) = Ok _ |- _ => destruct b eqn:?; try discriminate H
    | H : (match ?x with _ => _ end) = Ok _ |- _ => destruct x eqn:?; try discriminate H
    end).
Lemma pop_hint_called tr : m_calledSubroutines (pop_hint tr) = m_calledSubroutines tr.
Proof. unfold pop_hint. destruct (m_stateStack tr); [done|]. by destruct (decide _). Qed.

Ltac keeps := intros tr tr' H; apply called_grow_refl; ok_cases; cbn in *; rewrite ?pop_hint_called in *; cbn in *; congruence.

Lemma grows_emit l : grows (emit l).
Proof. intros tr tr' H. by apply called_grow_refl, (emit_called _ _ _ H). Qed.

Lemma grows_begin_FOREACH selector : grows (begin_FOREACH selector).
Proof. unfold begin_FOREACH, open_iterator, add_path. keeps. Qed.

Lemma grows_end_FOREACH : grows end_FOREACH.
Proof. unfold end_FOREACH. keeps. Qed.

Lemma grows_begin_DO_statement stm : grows (begin_DO_statement stm).
Proof. unfold begin_DO_statement. keeps. Qed.

Lemma grows_statement_HINT c m : grows (statement_HINT c m).
Proof. unfold statement_HINT. keeps. Qed.

Lemma grows_end_DO_statement : grows end_DO_statement.
Proof. unfold end_DO_statement. keeps. Qed.

Lemma grows_open_tag op n : grows (open_tag op n).
Proof. unfold open_tag. keeps. Qed.

Lemma grows_ret (f : t -> t) : (forall tr, m_calledSubroutines (f tr) = m_calledSubroutines tr) -> grows (fun tr => Ok (f tr)).
Proof. intros H tr tr' [= <-]. by apply called_grow_refl. Qed.

Lemma grows_close_tags n : grows (close_tags n).
Proof.
  induction n as [|n IH]; [by apply (grows_ret id)|]. apply (grows_bind (emit _) (close_tags n)); [apply grows_emit|done].
Qed.

Lemma grows_open_tags path : grows (open_tags path).
Proof.
  induction path as [|p path IH]; [by apply (grows_ret id)|].
  apply (grows_bind (open_tag _ p) (open_tags path)); [apply grows_open_tag|done].
Qed.

Lemma grows_open_array path : grows (open_array path).
Proof.
  induction path as [|p path IH]; [done|]. destruct path as [|q path]; [apply grows_open_tag|].
  apply (grows_bind (open_tag _ p) (open_array (q :: path))); [apply grows_open_tag|done].
Qed.

(** The operation reads the stack first. *)
Lemma grows_top {A} (f : t -> res A) (op : A -> t -> res t) :
  (forall v, grows (op v)) -> grows (fun tr => v ← f tr; op v tr).
Proof. intros H tr tr' Ht. destruct (f tr) as [v| |]; cbn in Ht; try done. by eapply H. Qed.

Lemma grows_begin_INTO_block path : grows (begin_INTO_block path).
Proof. apply (grows_bind (open_tags path)); [apply grows_open_tags|by apply grows_ret]. Qed.

Lemma grows_end_INTO_block : grows end_INTO_block.
Proof.
  apply (grows_top (fun tr => top_value tr OpenIntoBlock _)). intros v.
  apply (grows_bind (close_tags (Z.to_nat v))); [apply grows_close_tags|by apply grows_ret].
Qed.

Lemma grows_begin_loop_INTO_block path : grows (begin_loop_INTO_block path).
Proof. apply (grows_bind (open_array path)); [apply grows_open_array|by apply grows_ret]. Qed.

Lemma grows_end_loop_INTO_block : grows end_loop_INTO_block.
Proof.
  apply (grows_top (fun tr => top_value tr OpenIntoBlockArray _)). intros v.
  destruct (Z.to_nat v) as [|n]; [by apply grows_ret|].
  apply (grows_bind (emit _)); [apply grows_emit|].
  apply (grows_bind (close_tags n)); [apply grows_close_tags|by apply grows_ret].
Qed.

#[local] Arguments pop_hint : simpl never.

Lemma grows_push_param cs pi : grows (push_param cs pi).
Proof.
  unfold push_param, push_ARGUMENT_PATH, push_ARGUMENT_LOOPCNT, push_ARGUMENT_CONST, push_ARGUMENT_TUPLESET_idx,
    push_ARGUMENT_TUPLESET_nam, push_ARGUMENT_ITER_idx, push_ARGUMENT_ITER_nam, count_param, add_path,
    get_column, add_constant.
  destruct (ElementReference.type pi); try destruct (is_iterated _ _); keeps.
Qed.

Lemma grows_output_statement_result b : grows (output_statement_result b).
Proof. intros tr tr'. rewrite output_statement_result_emit. apply grows_emit. Qed.

(** The address of a subroutine is the size of the segment before its code is added. *)
Lemma grows_add_called n mn ps sr : grows (add_called n mn ps sr).
Proof.
  intros tr tr' H. unfold add_called in H. ok_cases; eexists [_]; (split; [done|]); constructor; try done; cbn;
    apply wrap_range; lia.
Qed.

Lemma grows_begin_DO_subroutine n ps sel : grows (begin_DO_subroutine n ps sel).
Proof.
  intros tr tr'. unfold begin_DO_subroutine. destruct (StdMap.find _ _) as [sr|]; [|done].
  set (mn := mangledSubroutineName _ _ _). set (idx := find_called _ _). intros H.
  match type of H with mbind _ ?m = _ => destruct m as [tr1| |] eqn:E; cbn [mbind res_bind] in H; try done end.
  eapply (called_grow_trans _ tr1).
  - destruct (_ =? _)%nat; [by eapply grows_add_called|]. injection E as <-. by apply called_grow_refl.
  - clear E. apply called_grow_refl. ok_cases. cbn in *. congruence.
Qed.

Lemma grows_end_DO_subroutine : grows end_DO_subroutine.
Proof. unfold end_DO_subroutine. keeps. Qed.

Lemma grows_print_result cmd : grows (print_result cmd).
Proof.
  assert (forall path, grows (fun tr => tr ← begin_INTO_block path tr; tr ← output_statement_result false tr; end_INTO_block tr)) as Hb.
  { intros path. apply (grows_bind (begin_INTO_block path)); [apply grows_begin_INTO_block|].
    apply (grows_bind (output_statement_result false)); [apply grows_output_statement_result|apply grows_end_INTO_block]. }
  unfold print_result. destruct (cmd_resultpath cmd) as [|p path]; [by apply (grows_ret id)|].
  destruct (negb _); [apply Hb|]. destruct (_ || _); [|apply Hb].
  apply (grows_bind (begin_loop_INTO_block _)); [apply grows_begin_loop_INTO_block|].
  apply (grows_bind (output_statement_result true)); [apply grows_output_statement_result|apply grows_end_loop_INTO_block].
Qed.

Create HintDb grows discriminated.
#[local] Hint Resolve grows_emit grows_begin_FOREACH grows_end_FOREACH grows_begin_DO_statement grows_statement_HINT
  grows_end_DO_statement grows_begin_INTO_block grows_end_INTO_block grows_begin_loop_INTO_block grows_end_loop_INTO_block
  grows_push_param grows_begin_DO_subroutine grows_end_DO_subroutine grows_print_result grows_when : grows.

Lemma grows_add_embedded cmd : grows (add_embedded cmd).
Proof.
  unfold add_embedded.
  apply (grows_bind (when _ _)); [auto with grows|]. apply (grows_bind (begin_DO_statement _)); [auto with grows|].
  apply (grows_bind (each _ _)); [apply grows_each; auto with grows|].
  apply (grows_bind (each _ _)); [apply grows_each; auto with grows|].
  apply (grows_bind end_DO_statement); [auto with grows|]. apply (grows_bind (when _ _)); auto with grows.
Qed.

Lemma grows_add_call cmd : grows (add_call cmd).
Proof.
  unfold add_call. apply (grows_bind (when _ _)); [apply grows_when; destruct (negb _); auto with grows|].
  apply (grows_bind (when _ _)); [auto with grows|].
  apply (grows_bind (when _ begin_loop_element)); [unfold begin_loop_element; apply grows_when; keeps|].
  intros tr tr' H. destruct (SelectorPath.normalize _) as [sel| |]; cbn [mbind res_bind] in H; try done. revert tr tr' H.
  apply (grows_bind (begin_DO_subroutine _ _ _)); [auto with grows|].
  apply (grows_bind (each _ _)); [apply grows_each; auto with grows|].
  apply (grows_bind end_DO_subroutine); [auto with grows|].
  apply (grows_bind (when _ end_loop_element)); [unfold end_loop_element; apply grows_when; keeps|].
  apply (grows_bind (when _ _)); [auto with grows|]. apply grows_when. destruct (negb _); auto with grows.
Qed.

Lemma grows_programAddCommandDefinition cmd : grows (programAddCommandDefinition cmd).
Proof.
  unfold programAddCommandDefinition.
  apply (grows_bind init_resultset); [apply grows_emit|]. apply (grows_bind (when _ _)); [apply grows_when, grows_emit|].
  apply (grows_bind (when _ _)); [apply grows_when, grows_emit|].
  destruct (cmd_embedded cmd); [apply grows_add_embedded|apply grows_add_call].
Qed.

(** ** Generated code *)

(** The instructions [ns] are added to the main program; nothing else changes but for the
    tables, the counter of the commands and the called subroutines. *)
Record generates (tr tr' : t) (ns : list node) : Prop := {
  gen_stack : m_stateStack tr' = m_stateStack tr;
  gen_nodes : Forall ok_node ns;
  gen_size : code_len tr' = (code_len tr + sizes ns)%nat;
  gen_extends : ProgramFacts.extends (m_main_program tr) (m_main_program tr');
  gen_rest : same_rest false tr tr';
  gen_code : ok tr -> small tr' ->
    pgrows (m_main_program tr) (m_main_program tr') (flatten (Z.of_nat (code_len tr)) ns)
}.

Lemma generates_trans tr1 tr2 tr3 ns1 ns2 :
  generates tr1 tr2 ns1 -> generates tr2 tr3 ns2 -> generates tr1 tr3 (ns1 ++ ns2).
Proof.
  intros [S1 N1 L1 E1 R1 G1] [S2 N2 L2 E2 R2 G2].
  split; [congruence|by apply Forall_app|rewrite sizes_app; lia|by eapply ProgramFacts.extends_trans
         |by eapply same_rest_trans|].
  intros Hok Hs. specialize (G1 Hok (ProgramFacts.small_extends _ _ E2 Hs)). rewrite flatten_app.
  eapply pgrows_trans; [exact G1|]. specialize (G2 (g_ok _ _ _ G1) Hs). by rewrite L1, Nat2Z.inj_add in G2.
Qed.

Lemma same_rest_weaken strict tr tr' : same_rest strict tr tr' -> same_rest false tr tr'.
Proof. intros [H1 H2 H3 _]. by split. Qed.

(** What an accepted part of a block does. *)
Definition translates (tr tr' : t) : Prop :=
  called_grow tr tr' /\
  (called_ok tr -> Z.of_nat (length (m_calledSubroutines tr')) < 2 ^ 31 -> exists ns, generates tr tr' ns).

Lemma called_ok_grow tr tr' : called_grow tr tr' -> called_ok tr -> called_ok tr'.
Proof. intros (more & H & F) Hok. unfold called_ok. rewrite H. by apply Forall_app. Qed.

Lemma called_length_grow tr tr' : called_grow tr tr' ->
  (length (m_calledSubroutines tr) <= length (m_calledSubroutines tr'))%nat.
Proof. intros (more & -> & _). rewrite length_app. lia. Qed.

Lemma translates_trans tr1 tr2 tr3 : translates tr1 tr2 -> translates tr2 tr3 -> translates tr1 tr3.
Proof.
  intros [C1 H1] [C2 H2]. split; [by eapply called_grow_trans|]. intros Hok Hlen.
  pose proof (called_length_grow _ _ C2).
  destruct H1 as [ns1 G1]; [done|lia|]. destruct H2 as [ns2 G2]; [by eapply called_ok_grow|done|].
  exists (ns1 ++ ns2). by eapply generates_trans.
Qed.

Lemma outcome_generates strict tr tr' o :
  @outcome strict tr tr' (m_stateStack tr) o -> (forall ns, o = Some ns -> Forall ok_node ns) ->
  exists ns, generates tr tr' ns.
Proof.
  intros (ns & -> & [L S R K E] & G) Hn. exists ns. split; try done; [by apply Hn|by eapply same_rest_weaken].
Qed.

Lemma print_value_translates elem path tr tr' :
  ok_element elem = true -> print_value elem path tr = Ok tr' -> translates tr tr'.
Proof.
  intros Hok H. pose proof (print_value_spec elem path tr Hok _ H) as O. split.
  - destruct O as (ns & _ & S & _). destruct (rest_strict _ _ _ (step_rest _ _ _ _ S) eq_refl) as [Hc _].
    by apply called_grow_refl.
  - intros _ _. eapply outcome_generates; [exact O|]. intros ns. unfold print_value_nodes.
    destruct (value_ins _ _ _) as [l|] eqn:E; [|done]. cbn. intros [= <-]. apply value_ok in E.
    destruct (hasIntoBlock path); [by apply block_ok|done].
Qed.

Lemma print_audit_param_translates pi tr tr' :
  ok_element (audit_ref pi) = true -> print_audit_param pi tr = Ok tr' -> translates tr tr'.
Proof.
  intros Hok H. pose proof (print_audit_param_spec pi tr Hok _ H) as O. split.
  - destruct O as (ns & _ & S & _). destruct (rest_strict _ _ _ (step_rest _ _ _ _ S) eq_refl) as [Hc _].
    by apply called_grow_refl.
  - intros _ _. eapply outcome_generates; [exact O|]. intros ns. unfold print_audit_param_nodes.
    destruct (value_ins _ _ _) as [l|] eqn:E; [|done]. cbn. intros [= <-]. apply value_ok in E.
    destruct (_ || _); [done|by apply (block_ok [audit_name pi])].
Qed.

(** The number of the called subroutines before a command is that of the ones after it at most. *)
Lemma command_translates cmd tr tr' :
  ok_command cmd = true -> programAddCommandDefinition cmd tr = Ok tr' -> translates tr tr'.
Proof.
  intros Hok H. pose proof (grows_programAddCommandDefinition cmd _ _ H) as C. split; [done|]. intros Hc Hlen.
  pose proof (called_length_grow _ _ C).
  assert (called_fits tr) as Hf by (split; [done|lia]).
  eapply outcome_generates; [exact (command_spec cmd tr Hok Hf _ H)|]. intros ns. apply command_nodes_ok.
Qed.

Lemma setCurrentSourceReference_translates pos tr : translates tr (setCurrentSourceReference pos tr).
Proof.
  split; [by apply called_grow_refl|]. intros _ _. exists []. split; try done.
  intros Hok _. split; [done| |exists []; by rewrite app_nil_r]. destruct Hok. by split.
Qed.

(** [KEEP] enters the name of the result. *)
Lemma result_KEEP_translates name tr tr' : result_KEEP name tr = Ok tr' -> translates tr tr'.
Proof.
  unfold result_KEEP. destruct (NameTable.get _ _) as [[tab idx]| |] eqn:Eg; cbn [mbind res_bind]; try done.
  intros H. apply name_enters in Eg as [Hp Hn]. set (main1 := Program.set_resultnametab _ _) in H.
  assert (ProgramFacts.extends (m_main_program tr) main1) as He by (by split).
  pose proof (@emit_step true _ _ _ H) as S.
  split; [apply called_grow_refl; by apply (rest_strict _ _ _ (step_rest _ _ _ _ S))|]. intros _ _.
  exists [Ins Op_KEEP_RESULT (SResult name)]. split.
  - exact (step_stack _ _ _ _ S).
  - by repeat constructor.
  - rewrite (step_len _ _ _ _ S). done.
  - eapply ProgramFacts.extends_trans; [exact He|apply S].
  - destruct (step_rest _ _ _ _ S) as [R1 R2 R3 _]. by split.
  - intros Hok Hs. pose proof (step_small _ _ _ _ S Hs) as Hs1.
    destruct Hn as [Hn1 Hn2]; [apply Hok|apply Hs1|].
    apply (pgrows_trans _ main1 _ []).
    + apply ok_grown; try apply Hok; done.
    + apply (emit_grows _ _ _ _ H).
      * apply (ok_grown (m_main_program tr)); try apply Hok; done.
      * constructor; [|done]. split_and!; try done. by eapply name_entry_pos.
Qed.

(** A block inside of the tags of a path. *)
Lemma INTO_block_translates path tr tr1 tr2 tr' :
  begin_INTO_block path tr = Ok tr1 -> translates tr1 tr2 -> end_INTO_block tr2 = Ok tr' -> translates tr tr'.
Proof.
  intros Hb [C T] He. split.
  - eapply called_grow_trans; [by eapply grows_begin_INTO_block|].
    eapply called_grow_trans; [exact C|by eapply grows_end_INTO_block].
  - intros Hok Hlen.
    pose proof (called_ok_grow _ _ (grows_begin_INTO_block _ _ _ Hb) Hok) as Hok1.
    pose proof (called_length_grow _ _ (grows_end_INTO_block _ _ He)).
    destruct (T Hok1) as [ns [S N L E R G]]; [lia|].
    assert (@ospec false (begin_INTO_block path) tr (mkState OpenIntoBlock (Z.of_nat (length path)) 0 :: m_stateStack tr)
      (Some (inss (open_ins path)))) as Hb'.
    { apply ospec_inss. unfold open_ins. rewrite <- tags_ins. apply begin_INTO_block_spec. }
    destruct (Hb' _ Hb) as (? & [= <-] & S1 & G1).
    rewrite (step_stack _ _ _ _ S1) in S.
    assert (@ospec false end_INTO_block tr2 (m_stateStack tr) (Some (inss (close_ins (length path))))) as He'.
    { apply ospec_inss. rewrite <- closes_ins. by apply end_INTO_block_spec. }
    destruct (He' _ He) as (? & [= <-] & S2 & G2).
    exists (block path ns). split.
    + exact (step_stack _ _ _ _ S2).
    + by apply block_ok.
    + unfold block. rewrite !sizes_app, (step_len _ _ _ _ S2), L, (step_len _ _ _ _ S1). lia.
    + eapply ProgramFacts.extends_trans; [apply S1|]. eapply ProgramFacts.extends_trans; [exact E|apply S2].
    + eapply same_rest_trans; [apply S1|]. eapply same_rest_trans; [exact R|apply S2].
    + intros Hp Hs. pose proof (step_small _ _ _ _ S2 Hs) as Hs2.
      pose proof (ProgramFacts.small_extends _ _ E Hs2) as Hs1.
      specialize (G1 Hp Hs1). specialize (G (g_ok _ _ _ G1) Hs2). specialize (G2 (g_ok _ _ _ G) Hs).
      unfold block. rewrite !flatten_app. eapply pgrows_trans; [exact G1|].
      rewrite (step_len _ _ _ _ S1), Nat2Z.inj_add in G. eapply pgrows_trans; [exact G|].
      by rewrite L, (step_len _ _ _ _ S1), !Nat2Z.inj_add in G2.
Qed.

Lemma translates_refl tr : translates tr tr.
Proof.
  split; [by apply called_grow_refl|]. intros _ _. exists [].
  split; [done|done|cbn; lia|apply ProgramFacts.extends_refl|done|]. intros Hok _. by apply pgrows_refl.
Qed.

Lemma when_block_translates path tr tr1 tr2 tr' :
  when (hasIntoBlock path) (begin_INTO_block path) tr = Ok tr1 -> translates tr1 tr2 ->
  when (hasIntoBlock path) end_INTO_block tr2 = Ok tr' -> translates tr tr'.
Proof.
  unfold when. destruct (hasIntoBlock path); [by apply INTO_block_translates|]. by intros [= ->] T [= ->].
Qed.

(** ** Blocks *)

Section Blocks.
Context (langdescr : LanguageDescription) {laws : LanguageLaws langdescr} {cleans : CleanStatements langdescr}.

Lemma good_suffix_of {A} si (r : res (A * list ascii)) x s : good si r -> r = Ok (x, s) -> s `suffix_of` si.
Proof. by intros H ->. Qed.

(** What is true of an accepted part of a block. *)
Definition accepted (prg : Tdl2vm.t) (si : list ascii) (prg' : Tdl2vm.t) (si' : list ascii) : Prop :=
  translates prg prg' /\ si' `suffix_of` si.

Lemma accepted_trans p1 s1 p2 s2 p3 s3 : accepted p1 s1 p2 s2 -> accepted p2 s2 p3 s3 -> accepted p1 s1 p3 s3.
Proof. intros [T1 S1] [T2 S2]. split; [by eapply translates_trans|by etrans]. Qed.

Lemma parse_command_accepted prg si prg' si' :
  clean si -> parse_command langdescr prg si = Ok (prg', si') -> accepted prg si prg' si'.
Proof using All.
  intros Hc. unfold parse_command. destruct (CommandDefinition_parse _ _) as [[cmd s]| |] eqn:E; cbn [mbind res_bind]; try done.
  destruct (programAddCommandDefinition cmd prg) as [p| |] eqn:Ep; cbn [mbind res_bind]; try done. intros [= <- <-].
  split; [|by eapply good_suffix_of; [apply CommandDefinition_good|exact E]].
  eapply command_translates; [by eapply command_clean|exact Ep].
Qed.

(** The next step of a sequence of operations that succeeds. *)
Ltac step_ok H x E := 
  match type of H with mbind _ ?m = Ok _ =>
    destruct m as [x| |] eqn:E; cbn [mbind res_bind] in H; try discriminate H end.

Lemma print_end_suffix si si' : print_end langdescr si = Ok si' -> si' `suffix_of` si.
Proof.
  unfold print_end. intros H. step_ok H r E. destruct r as [[ch tok] s]. destruct (bool_decide _); [|done].
  injection H as <-. eapply good_suffix_of; [apply TdlParseFacts.parseNextToken_good|exact E].
Qed.

(** The end of [PRINT], with and without [INTO]. *)
Lemma print_accepted prg si elem path prg' s1 s2 :
  clean si -> parsePlainReference langdescr si = Ok (elem, s1) -> s2 `suffix_of` s1 ->
  print_value elem path prg = Ok prg' -> forall s3, print_end langdescr s2 = Ok s3 -> accepted prg si prg' s3.
Proof.
  intros Hc E1 H12 Ep s3 E3. split.
  - eapply print_value_translates; [|exact Ep].
    exact (yields_Ok _ _ _ _ (parsePlainReference_clean langdescr si Hc) E1).
  - etrans; [by apply print_end_suffix|]. etrans; [exact H12|].
    by eapply good_suffix_of; [apply parsePlainReference_good|].
Qed.

Lemma parse_print_accepted prg si prg' si' :
  clean si -> parse_print langdescr prg si = Ok (prg', si') -> accepted prg si prg' si'.
Proof.
  unfold parse_print. intros Hc H. step_ok H r1 E1. destruct r1 as [elem s1].
  step_ok H r2 E2. destruct r2 as [found s2]. step_ok H r3 E3. destruct r3 as [pt s3].
  step_ok H prg1 E4. step_ok H s4 E5. injection H as <- <-.
  eapply (print_accepted _ _ _ _ _ s1 s3); try eassumption.
  assert (s2 `suffix_of` s1) as H12 by (by eapply good_suffix_of; [apply parseKeyword_good|]).
  destruct found; [|by injection E3 as _ <-]. etrans; [|exact H12].
  by eapply good_suffix_of; [apply parse_INTO_path_good|].
Qed.

Lemma parse_keep_accepted prg si prg' si' :
  parse_keep langdescr prg si = Ok (prg', si') -> accepted prg si prg' si'.
Proof.
  unfold parse_keep. intros H. step_ok H r1 E1. destruct r1 as [found s1].
  assert (s1 `suffix_of` si) as H1 by (by eapply good_suffix_of; [apply parseKeyword_good|]).
  destruct found; [|injection H as <- <-; split; [apply translates_refl|done]].
  step_ok H r2 E2. destruct r2 as [nm s2]. step_ok H r3 E3. destruct r3 as [ch s3].
  destruct (negb _); [done|]. step_ok H prg1 E4. injection H as <- <-. split; [by eapply result_KEEP_translates|].
  etrans; [|exact H1]. etrans; [|by eapply good_suffix_of; [apply parseSubroutineName_good|exact E2]].
  apply suffix_tl. by eapply good_suffix_of; [apply TdlParseFacts.gotoNextToken_good|].
Qed.

Lemma accepted_at prg si prg' s1 si' : s1 `suffix_of` si -> accepted prg s1 prg' si' -> accepted prg si prg' si'.
Proof. intros H [T S]. split; [done|by etrans]. Qed.

Lemma accepted_marked pos prg si prg' si' :
  accepted (setCurrentSourceReference pos prg) si prg' si' -> accepted prg si prg' si'.
Proof. intros [T S]. split; [|done]. eapply translates_trans; [apply setCurrentSourceReference_translates|exact T]. Qed.

(** A part of a block at a later position, followed by the rest of the block. *)
Lemma accepted_next prg si s1 prg1 s2 prg' si' :
  s1 `suffix_of` si -> accepted prg s1 prg1 s2 -> accepted prg1 s2 prg' si' -> accepted prg si prg' si'.
Proof. intros H A1 A2. eapply accepted_at; [exact H|]. by eapply accepted_trans. Qed.

Lemma parsePrgBlock_accepted fuel : forall prg si posinfo posinfo_si prg' si' posinfo',
  clean si -> parsePrgBlock langdescr fuel prg si posinfo posinfo_si = Ok (prg', si', posinfo') ->
  accepted prg si prg' si'.
Proof using All.
  induction fuel as [|fuel IH]; [done|]. intros prg si pos psi prg' si' pos' Hc H. cbn [parsePrgBlock] in H.
  step_ok H r1 E1. destruct r1 as [ch s0].
  assert (s0 `suffix_of` si) as H0 by (by eapply good_suffix_of; [apply TdlParseFacts.gotoNextToken_good|exact E1]).
  pose proof (clean_suffix _ _ H0 Hc) as Hc0.
  destruct (bool_decide _); [done|]. step_ok H r2 E2. destruct r2 as [id s1]. cbv zeta in H.
  assert (s1 `suffix_of` si) as H1.
  { etrans; [|exact H0]. by eapply good_suffix_of; [apply parseNextIdentifier_good|exact E2]. }
  pose proof (clean_suffix _ _ H1 Hc) as Hc1.
  assert (forall p s prg1 s2 pos psi, s `suffix_of` si -> accepted p s prg1 s2 ->
    parsePrgBlock langdescr fuel prg1 s2 pos psi = Ok (prg', si', pos') -> accepted p si prg' si') as Hnext.
  { intros p s prg1 s2 pos0 psi0 Hs A Hr. eapply accepted_next; [exact Hs|exact A|]. eapply IH; [|exact Hr].
    eapply clean_suffix; [|exact Hc]. destruct A as [_ A]. by etrans. }
  assert (forall posinfo_si, ('(posinfo, posinfo_si) ← advance pos posinfo_si s0;
    '(prg0, si) ← parse_command langdescr (setCurrentSourceReference posinfo prg) s0;
    parsePrgBlock langdescr fuel prg0 si posinfo posinfo_si) = Ok (prg', si', pos') -> accepted prg si prg' si') as Hcmd.
  { intros ps Hr. step_ok Hr r3 E3. destruct r3 as [p1 ps1]. step_ok Hr r4 E4. destruct r4 as [prg1 s2].
    apply accepted_marked with p1. eapply Hnext; [exact H0|by apply parse_command_accepted|exact Hr]. }
  destruct (id =? 1); [|destruct ((id =? 2) || (id =? 4)); [|destruct (id =? 3); [|destruct (id =? 5); [done|
    destruct (id =? 6); [|destruct (id =? 7)]]]]].
  - step_ok H r3 E3. destruct r3 as [p1 ps1]. injection H as <- <- <-.
    split; [apply setCurrentSourceReference_translates|done].
  - by eapply Hcmd.
  - step_ok H r3 E3. destruct r3 as [path s2].
    assert (s2 `suffix_of` si) as H2.
    { etrans; [|exact H1]. by eapply good_suffix_of; [apply parse_INTO_path_good|exact E3]. }
    step_ok H r4 E4. destruct r4 as [found s3].
    assert (s3 `suffix_of` si) as H3.
    { etrans; [|exact H2]. by eapply good_suffix_of; [apply parseKeyword_good|exact E4]. }
    destruct found.
    + step_ok H r5 E5. destruct r5 as [elem s4]. step_ok H prg1 E6. step_ok H s5 E7.
      eapply Hnext; [exact H3| |exact H].
      eapply (print_accepted _ _ _ _ _ s4 s4); try eassumption; [by eapply clean_suffix|done].
    + step_ok H r5 E5. destruct r5 as [found s4].
      assert (s4 `suffix_of` si) as H4.
      { etrans; [|exact H3]. by eapply good_suffix_of; [apply parseKeyword_good|exact E5]. }
      destruct found; [|by eapply Hcmd].
      step_ok H r6 E6. destruct r6 as [p1 ps1]. step_ok H prg1 E7. step_ok H r8 E8. destruct r8 as [[prg2 s5] p2].
      step_ok H prg3 E9.
      apply IH in E8 as [T8 S8]; [|by eapply clean_suffix].
      eapply Hnext; [exact H4| |exact H]. split; [|exact S8]. by eapply when_block_translates.
  - step_ok H r3 E3. destruct r3 as [p1 ps1]. step_ok H r4 E4. destruct r4 as [prg1 s2].
    apply accepted_marked with p1. eapply Hnext; [exact H1|by apply parse_keep_accepted|exact H].
  - step_ok H r3 E3. destruct r3 as [p1 ps1]. step_ok H r4 E4. destruct r4 as [prg1 s2].
    apply accepted_marked with p1. eapply Hnext; [exact H1|by apply parse_print_accepted|exact H].
  - step_ok H r3 E3. destruct r3 as [[c tok] s2]. by destruct (bool_decide _).
Qed.

Lemma parse_block_accepted prg si posinfo prg' si' posinfo' :
  clean si -> parse_block langdescr prg si posinfo = Ok (prg', si', posinfo') -> accepted prg si prg' si'.
Proof using All. apply parsePrgBlock_accepted. Qed.

(** The structured code of an accepted block. *)
Lemma parse_block_generates prg si posinfo prg' si' posinfo' :
  clean si -> called_ok prg -> Z.of_nat (length (m_calledSubroutines prg')) < 2 ^ 31 ->
  parse_block langdescr prg si posinfo = Ok (prg', si', posinfo') -> exists ns, generates prg prg' ns.
Proof using All. intros Hc Hok Hlen H. apply parse_block_accepted in H as [[_ T] _]; [|done]. by apply T. Qed.

End Blocks.

(** ** Blocks and programs *)


Definition example_block : list ascii :=
  chars "FOREACH /a/b DO INSERT INTO t (x) VALUES ($(id)); INTO r PRINT 'ok'; END".

Definition run_block (si : list ascii) : res (Tdl2vm.t * list ascii * FileLineInfo) :=
  tr ← Tdl2vm.make [] false;
  parse_block LanguageDescriptionSQL tr si (mkFileLineInfo None 1 1).

Lemma clean_decide si : forallb (fun c => negb (bool_decide (c = nul))) si = true -> clean si.
Proof.
  unfold clean. rewrite forallb_forall. intros H Hin. apply list_elem_of_In, H in Hin.
  by rewrite bool_decide_true in Hin.
Qed.



