(* ===== verification/TdlDivergences.v ===== *)
(** * Where the compiler differs from what it means to do

    Theorems about behaviour of the transaction language compiler that its documentation,
    its messages or its names say otherwise: each one evaluates or derives what the code
    does. *)
From S2P Require Import Prelude InstructionSet Variant ValueTupleSet ProgramImage TdlTables SelectorPath ParseUtils TdlProgram Tdl2vm TdlCommand TdlStruct TdlCorrect TdlStatement TdlGenerated TdlLink TdlCalls DatabaseLanguage TdlParse TdlLoad.
Import Tdl2vm.
Local Open Scope string_scope.

(** The qualifier NONEMPTY is compiled to the constraint of UNIQUE. *)
Lemma nonempty_compiled_as_unique e target sel stm call path unique embedded hints :
  command_nodes e target (mkCommandDefinition sel stm call path true unique embedded hints) =
  option_map (fun ns => match ns with
                        | i :: ns' => i :: Ins Op_RESULT_CONSTRAINT_UNIQUE (SNum 0) :: ns'
                        | [] => []
                        end)
    (command_nodes e target (mkCommandDefinition sel stm call path false unique embedded hints)).
Proof.
  unfold command_nodes. destruct embedded; cbn [cmd_embedded cmd_nonempty cmd_unique constraint_ins].
  - change (embedded_nodes e (mkCommandDefinition sel stm call path true unique true hints)) with
      (embedded_nodes e (mkCommandDefinition sel stm call path false unique true hints)).
    by destruct (embedded_nodes _ _), unique.
  - change (calling_nodes e target (mkCommandDefinition sel stm call path true unique false hints)) with
      (calling_nodes e target (mkCommandDefinition sel stm call path false unique false hints)).
    by destruct (calling_nodes _ _ _), unique.
Qed.

(** A statement without parameters that has error hints is refused: only a parameter takes
    the hints from the stack of open constructs. *)
Lemma hints_need_a_parameter cmd tr :
  ok_command cmd = true -> called_fits tr -> cmd_embedded cmd = true -> cmd_hints cmd <> [] ->
  stm_params (cmd_statement cmd) = [] -> forall tr', programAddCommandDefinition cmd tr <> Ok tr'.
Proof.
  intros Hok Hf Hem Hh Hp tr' H. destruct (command_spec cmd tr Hok Hf _ H) as (ns & Hns & _).
  unfold command_nodes in Hns. rewrite Hem in Hns. unfold embedded_nodes, iterated, statement_nodes, command_arguments in Hns.
  rewrite Hem, Hp in Hns. cbn [map concat] in Hns.
  assert (statement_arguments (env_of tr) (negb (bool_decide (cmd_hints cmd = []))) [] = None) as Hnone.
  { by rewrite bool_decide_false. }
  destruct (cmd_hints cmd) as [|h hs]; [done|]. cbn in Hns.
  repeat case_match; done.
Qed.

(** Arguments that are not separated by a comma are accepted, and every second one of them
    is lost. *)
Lemma arguments_without_commas :
  parseCallArguments LanguageDescriptionSQL (chars "(a b c)") = Ok (["a"; "c"], []).
Proof. vm_compute. reflexivity. Qed.

(** The message for a part that is given twice names the wrong keyword. *)
Lemma duplicate_named_wrong :
  CommandDefinition_parse LanguageDescriptionSQL (chars "INTO a INTO b DO SELECT a;") =
  Throw (RuntimeError "DO specified twice in a command").
Proof. vm_compute. reflexivity. Qed.

(** A parameter of a template in quotes leaves broken quotes. *)
Lemma quoted_parameter_breaks_text :
  Subroutine.substituteTemplateArguments "SELECT 'tab' FROM tab" ["tab"] ["T1"] =
  Ok "SELECT 't'T1' FROM T1".
Proof. vm_compute. reflexivity. Qed.

(** Subroutines substitute parameters in comments, the substitution of the database language
    does not. *)
Lemma comments_are_substituted :
  Subroutine.substituteTemplateArguments "SELECT * FROM tab -- tab" ["tab"] ["T1"] = Ok "SELECT * FROM T1 -- T1" /\
  SQL.sql_substituteTemplateArguments "SELECT * FROM tab -- tab" [("tab", "T1")] = Ok "SELECT * FROM T1 -- tab".
Proof. split; vm_compute; reflexivity. Qed.

(** An authorization without a resource is accepted and forgotten. *)
Lemma authorization_forgotten :
  parse_authorize LanguageDescriptionSQL (chars "(login)") [] = Ok ([], []) /\
  parse_authorize LanguageDescriptionSQL (chars "(login,res)") [] = Ok ([mkAuthorization "login" "res"], []).
Proof. split; vm_compute; reflexivity. Qed.

(** [KEEP] without [AS] is accepted and keeps nothing. *)
Lemma keep_without_name prg :
  parse_keep LanguageDescriptionSQL prg (chars " foo;") = Ok (prg, chars " foo;").
Proof. vm_compute. reflexivity. Qed.

(** A path that begins with a blank is refused: its text is compared with the one of the
    path that was read. *)
Lemma path_with_leading_blank :
  SelectorPath.make " a" (TagTable.make false) =
  Throw (RuntimeError "illegal selection path string ' a' (reduced to 'a')").
Proof. vm_compute. reflexivity. Qed.

(** ** Subroutines called by audit functions *)

Definition audit_sub (name stm : string) : Subroutine.t :=
  Subroutine.mk name [] [] (Program.set_statements example_program [stm]).

Definition audit_map : StdMap.t Subroutine.t :=
  StdMap.set "G" (audit_sub "g" "y") (StdMap.set "F" (audit_sub "f" "x") []).

Definition block_of (text : string) : res t :=
  tr ← Tdl2vm.make audit_map false;
  '(tr, _, _) ← parse_block LanguageDescriptionSQL tr (chars text) (mkFileLineInfo None 1 1);
  Ok tr.

(** A transaction whose block calls [f] and whose audit function calls [g]. *)
Definition audited_program : res Program.t :=
  a ← block_of "DO g(); END";
  audit ← createProgram false a;
  m ← block_of "DO f(); END";
  m ← add_auditcall audit m;
  createProgram true m.

