(* ===== verification/InputStructure.v ===== *)
(** * The input of transaction functions

    Models src/modules/cmdbind/tdl/vm/inputStructure.hpp and inputStructure.cpp (the tree of
    the input with its nodes in one array, how it is built from the elements of a document,
    the selection of nodes) and [selectNodes] of vm/selectorPath.cpp.  The printing of the
    structure for the log is not modelled.

    Nodes refer to each other by their positions in the array; 0 stands for no node, because
    the root is no child and no sibling.  The conversion of a value to an integer is a
    parameter. *)
From S2P Require Import Prelude Variant ValueTupleSet TdlTables SelectorPath Transaction.

(** ** Nodes *)

Record InputNode := mkInputNode {
  m_parent : Z;
  m_tag : Z;
  m_tagstr : Z;
  m_arrayindex : Z;
  m_next : Z;
  m_value : Z;
  m_firstchild : Z;
  m_lastchild : Z
}.

#[export] Instance InputNode_eq_dec : EqDecision InputNode.
Proof. solve_decision. Defined.

(** A node as the allocator hands it out: memory filled with zeros. *)
Definition zero_node : InputNode := mkInputNode 0 0 0 0 0 0 0 0.

Definition set_parent (n : InputNode) (x : Z) : InputNode :=
  mkInputNode x (m_tag n) (m_tagstr n) (m_arrayindex n) (m_next n) (m_value n) (m_firstchild n) (m_lastchild n).
Definition set_tags (n : InputNode) (tag tagstr : Z) : InputNode :=
  mkInputNode (m_parent n) tag tagstr (m_arrayindex n) (m_next n) (m_value n) (m_firstchild n) (m_lastchild n).
Definition set_arrayindex (n : InputNode) (x : Z) : InputNode :=
  mkInputNode (m_parent n) (m_tag n) (m_tagstr n) x (m_next n) (m_value n) (m_firstchild n) (m_lastchild n).
Definition set_next (n : InputNode) (x : Z) : InputNode :=
  mkInputNode (m_parent n) (m_tag n) (m_tagstr n) (m_arrayindex n) x (m_value n) (m_firstchild n) (m_lastchild n).
Definition set_value (n : InputNode) (x : Z) : InputNode :=
  mkInputNode (m_parent n) (m_tag n) (m_tagstr n) (m_arrayindex n) (m_next n) x (m_firstchild n) (m_lastchild n).
Definition set_children (n : InputNode) (first last : Z) : InputNode :=
  mkInputNode (m_parent n) (m_tag n) (m_tagstr n) (m_arrayindex n) (m_next n) (m_value n) first last.

(** ** The array of nodes *)

Module NodeMem.

(** [TypedArrayDoublingAllocator::operator[]]; the limit itself is not refused.  A negative
    index is a large one. *)
Definition get (mem : list InputNode) (idx : Z) : res InputNode :=
  if (idx <? 0) || (Z.of_nat (length mem) <? idx) then Throw (LogicError "Array bounds access")
  else match mem !! Z.to_nat idx with
       | Some n => Ok n
       | None => Throw (Undefined "node behind the end of the array")
       end.

Definition upd (mem : list InputNode) (idx : Z) (f : InputNode -> InputNode) : res (list InputNode) :=
  n ← get mem idx; Ok (<[Z.to_nat idx := f n]> mem).

(** [alloc( 1)]. *)
Definition alloc (mem : list InputNode) : list InputNode * Z :=
  (mem ++ [zero_node], i32 (Z.of_nat (length mem))).

End NodeMem.

Section Loops.
Context {A B : Type}.

(** The results of [f] for the elements of a list, one behind the other. *)
Fixpoint res_flat_map (f : A -> res (list B)) (l : list A) : res (list B) :=
  match l with
  | [] => Ok []
  | x :: l' => ys ← f x; zs ← res_flat_map f l'; Ok (ys ++ zs)
  end.
End Loops.

Module InputStructure.

Record t := mk {
  m_nodemem : list InputNode;
  m_content : list Variant;
  m_tagmap : TagTable.t;
  m_privatetagmap : TagTable.t;
  m_visitor : Z;
  m_done : bool
}.

Definition make (tagmap : TagTable.t) : t :=
  mk [set_arrayindex (set_parent zero_node (-1)) (-1)] [Null] tagmap
    (TagTable.make (TagTable.m_case_sensitive tagmap)) 0 false.

Definition set_mem (st : t) (x : list InputNode) : t :=
  mk x (m_content st) (m_tagmap st) (m_privatetagmap st) (m_visitor st) (m_done st).
Definition set_content (st : t) (x : list Variant) : t :=
  mk (m_nodemem st) x (m_tagmap st) (m_privatetagmap st) (m_visitor st) (m_done st).
Definition set_privatetagmap (st : t) (x : TagTable.t) : t :=
  mk (m_nodemem st) (m_content st) (m_tagmap st) x (m_visitor st) (m_done st).
Definition set_visitor (st : t) (x : Z) : t :=
  mk (m_nodemem st) (m_content st) (m_tagmap st) (m_privatetagmap st) x (m_done st).
Definition set_done (st : t) : t :=
  mk (m_nodemem st) (m_content st) (m_tagmap st) (m_privatetagmap st) (m_visitor st) true.

Definition case_sensitive (st : t) : bool := TagTable.m_case_sensitive (m_tagmap st).
Definition rootindex : Z := 0.

Definition node (st : t) (nv : Z) : res InputNode := NodeMem.get (m_nodemem st) nv.
Definition update (st : t) (nv : Z) (f : InputNode -> InputNode) : res t :=
  mem ← NodeMem.upd (m_nodemem st) nv f; Ok (set_mem st mem).

Definition tagname (st : t) (nd : InputNode) : res (option string) :=
  TagTable.getstr (m_privatetagmap st) (m_tagstr nd).

(** The names of the nodes above and of the node itself, the root apart; a null name is left out. *)
Fixpoint nodepath_loop (fuel : nat) (st : t) (ni : Z) (rt : string) : res string :=
  if ni =? 0 then Ok rt
  else match fuel with
       | O => OutOfFuel
       | S fuel' =>
           nd ← node st ni;
           tn ← tagname st nd;
           nodepath_loop fuel' st (m_parent nd)
             (match tn with Some tn => "/" +:+ tn +:+ rt | None => rt end)
       end%string.

Definition nodepath (st : t) (nv : Z) : res string := nodepath_loop (length (m_nodemem st)) st nv "".

Definition fail_at {A} (st : t) (nv : Z) (before behind : string) : res A :=
  p ← nodepath st nv; Throw (RuntimeError (before +:+ p +:+ behind)).

(** The positions from [ci] on along the siblings. *)
Fixpoint siblings_from (fuel : nat) (st : t) (ci : Z) : res (list Z) :=
  match fuel with
  | O => OutOfFuel
  | S fuel' =>
      cd ← node st ci;
      if m_next cd =? 0 then Ok [ci]
      else rest ← siblings_from fuel' st (m_next cd); Ok (ci :: rest)
  end.

Definition siblings (st : t) (ci : Z) : res (list Z) := siblings_from (length (m_nodemem st)) st ci.

(** ** Creating nodes *)

Definition createChildNode (st : t) (nv : Z) : res (t * Z) :=
  let '(mem, idx) := NodeMem.alloc (m_nodemem st) in
  let st := set_mem st mem in
  nd ← node st nv;
  st ← (if m_lastchild nd =? 0 then update st nv (fun nd => set_children nd idx idx)
        else
          st ← update st (m_lastchild nd) (fun lc => set_next lc idx);
          update st nv (fun nd => set_children nd (m_firstchild nd) idx));
  st ← update st idx (fun chld => set_parent (set_arrayindex chld (-1)) nv);
  Ok (st, idx).

Definition createSiblingNode (st : t) (nv : Z) : res (t * Z) :=
  if nv =? 0 then Throw (RuntimeError "try to create sibling node of root")
  else nd ← node st nv; createChildNode st (m_parent nd).

Definition not_balanced_open : exn := RuntimeError "tags not balanced in input (open tag after final close)".

(** The tag of a node: the one of the selectors, if they name it. *)
Definition put_tag (st : t) (rt : Z) (tag : string) : res t :=
  let '(private, tgs) := TagTable.get (m_privatetagmap st) tag in
  let tg := TagTable.find (m_tagmap st) tag in
  update (set_privatetagmap st private) rt
    (fun nd => set_tags nd (if tg =? 0 then TagTable.unused else tg) tgs).

Definition openTag_name (st : t) (nv : Z) (tag : string) : res (t * Z) :=
  if m_done st then Throw not_balanced_open
  else
    '(st, rt) ← createChildNode st nv;
    st ← put_tag st rt tag;
    Ok (st, rt).

Section Convert.
Context (toint : Variant -> res Z).

Definition openTag_at (st : t) (nv : Z) (tag : Variant) : res (t * Z) :=
  if m_done st then Throw not_balanced_open
  else
    '(st, rt) ← createChildNode st nv;
    match tag with
    | Str tagstr => st ← put_tag st rt tagstr; Ok (st, rt)
    | _ =>
        i ← match toint tag with
            | Throw (RuntimeError _) => fail_at st nv "array index cannot be converted to integer at '" "'"
            | r => r
            end;
        let i := i32 i in
        st ← update st rt (fun nd => set_arrayindex nd i);
        if i <? 0 then fail_at st nv "array index is negative at '" "'"
        else Ok (st, rt)
    end.
End Convert.

(** Whether the children are the elements of an array: all without names, with increasing
    indices. *)
Fixpoint array_children (st : t) (cs : list Z) (arrayindex : Z) : res bool :=
  match cs with
  | [] => Ok true
  | ci :: cs' =>
      cd ← node st ci;
      if negb (m_tagstr cd =? 0) then Ok false
      else if m_arrayindex cd <=? arrayindex then Ok false
      else array_children st cs' (m_arrayindex cd)
  end.

Definition isArrayNode (st : t) (nv : Z) : res bool :=
  nd ← node st nv;
  if m_firstchild nd =? 0 then Ok false
  else cs ← siblings st (m_firstchild nd); array_children st cs (-1).

(** The elements of an array get the tag and the parent of their father. *)
Fixpoint inherit (st : t) (nd : InputNode) (cs : list Z) : res t :=
  match cs with
  | [] => Ok st
  | ci :: cs' =>
      st ← update st ci (fun cd => set_parent (set_tags cd (m_tag nd) (m_tagstr nd)) (m_parent nd));
      inherit st nd cs'
  end.

(** Removes the last child [nv] of a node with the children [cs]. *)
Fixpoint unlink (st : t) (parent nv : Z) (cs : list Z) : res t :=
  match cs with
  | [] => Throw (LogicError "internal: corrupt tree")
  | ni :: cs' =>
      cd ← node st ni;
      if m_next cd =? nv then
        st ← update st ni (fun cd => set_next cd 0);
        update st parent (fun pn => set_children pn (m_firstchild pn) ni)
      else if m_next cd =? 0 then Throw (LogicError "internal: corrupt tree")
      else unlink st parent nv cs'
  end.

Definition close_array (st : t) (nv : Z) (nd : InputNode) : res t :=
  pn ← node st (m_parent nd);
  if m_firstchild nd =? 0 then
    if m_lastchild pn =? m_firstchild pn then update st (m_parent nd) (fun pn => set_children pn 0 0)
    else cs ← siblings st (m_firstchild pn); unlink st (m_parent nd) nv cs
  else
    cs ← siblings st (m_firstchild nd);
    st ← inherit st nd cs;
    fc ← node st (m_firstchild nd);
    st ← update st nv (fun _ => fc);
    if m_lastchild nd =? m_firstchild nd then Ok st
    else update st (m_parent nd) (fun pn => set_children pn (m_firstchild pn) (m_lastchild nd)).

Definition closeTag_at (st : t) (nv : Z) : res (t * Z) :=
  nd ← node st nv;
  if m_parent nd <? 0 then
    if m_done st then Throw (RuntimeError "tags not balanced in input (close tag)")
    else Ok (set_done st, nv)
  else
    pn ← node st (m_parent nd);
    if negb (nv =? m_lastchild pn) then Throw (LogicError "internal: illegal call of closeTag")
    else
      b ← isArrayNode st nv;
      st ← (if b : bool then close_array st nv nd else Ok st);
      Ok (st, m_parent nd).

Definition pushValue_at (st : t) (nv : Z) (val : Variant) : res t :=
  if m_done st then Throw (RuntimeError "tags not balanced in input (value after final close)")
  else
    nd ← node st nv;
    if negb (m_value nd =? 0) then fail_at st nv "multiple values assigned to one node in the data tree at '" "'"
    else
      st ← update st nv (fun nd => set_value nd (i32 (Z.of_nat (length (m_content st)))));
      Ok (set_content st (m_content st ++ [val])).

(** ** Creating nodes at the place of the structure's own visitor *)

Definition openTag (toint : Variant -> res Z) (st : t) (tag : Variant) : res t :=
  '(st, nv) ← openTag_at toint st (m_visitor st) tag; Ok (set_visitor st nv).
Definition closeTag (st : t) : res t :=
  '(st, nv) ← closeTag_at st (m_visitor st); Ok (set_visitor st nv).
Definition pushValue (st : t) (val : Variant) : res t := pushValue_at st (m_visitor st) val.

(** ** Going to a node by its name *)

(** The only one of the nodes [cs] with the name, or 0; [ambiguous] is the exception. *)
Fixpoint unique_tag (st : t) (ambiguous : res Z) (tgs : Z) (cs : list Z) (rt : Z) : res Z :=
  match cs with
  | [] => Ok rt
  | ci :: cs' =>
      cd ← node st ci;
      if m_tagstr cd =? tgs then
        if negb (rt =? 0) then ambiguous else unique_tag st ambiguous tgs cs' ci
      else unique_tag st ambiguous tgs cs' rt
  end.

Definition not_unique (st : t) (nv : Z) (tag : string) : res Z :=
  fail_at st nv ("cannot make unique selection of node with name '" +:+ tag +:+ "' in structure at '")
    "' (it exists more than once)".

Definition visitTag (st : t) (nv : Z) (tag : string) : res Z :=
  nd ← node st nv;
  if m_firstchild nd =? 0 then
    fail_at st nv ("node with name '" +:+ tag +:+ "' does not exist in structure at '") "' (node is empty)"
  else
    let tgs := TagTable.find (m_privatetagmap st) tag in
    if tgs =? 0 then
      fail_at st nv ("node with name '" +:+ tag +:+ "' does not exist in structure (at all) at '") "'"
    else
      cs ← siblings st (m_firstchild nd);
      rt ← unique_tag st (not_unique st nv tag) tgs cs 0;
      if rt =? 0 then
        fail_at st nv ("node with name '" +:+ tag +:+ "' does not exist in structure at '") "' (no node name matched)"
      else Ok rt.

Definition visitOrOpenUniqTag (st : t) (nv : Z) (tag : string) : res (t * Z) :=
  nd ← node st nv;
  if m_firstchild nd =? 0 then openTag_name st nv tag
  else
    let '(private, tgs) := TagTable.get (m_privatetagmap st) tag in
    let st := set_privatetagmap st private in
    if tgs =? 0 then openTag_name st nv tag
    else
      cs ← siblings st (m_firstchild nd);
      rt ← unique_tag st (not_unique st nv tag) tgs cs 0;
      if rt =? 0 then openTag_name st nv tag else Ok (st, rt).

(** ** Selecting nodes *)

Definition matches (tag : Z) (cd : InputNode) : bool := (tag =? 0) || (m_tag cd =? tag).

Definition next (st : t) (nd : InputNode) (tag : Z) : res (list Z) :=
  if m_firstchild nd =? 0 then Ok []
  else
    cs ← siblings st (m_firstchild nd);
    res_flat_map (fun ci => cd ← node st ci; Ok (if matches tag cd then [ci] else [])) cs.

Fixpoint find_from (fuel : nat) (st : t) (nd : InputNode) (tag : Z) : res (list Z) :=
  match fuel with
  | O => OutOfFuel
  | S fuel' =>
      if m_firstchild nd =? 0 then Ok []
      else
        cs ← siblings st (m_firstchild nd);
        res_flat_map (fun ci =>
          cd ← node st ci;
          below ← (if m_firstchild cd =? 0 then Ok [] else find_from fuel' st cd tag);
          Ok ((if matches tag cd then [ci] else []) ++ below)) cs
  end.

Definition find (st : t) (nd : InputNode) (tag : Z) : res (list Z) :=
  find_from (S (length (m_nodemem st))) st nd tag.

Definition up (nd : InputNode) : res (list Z) :=
  if negb (m_parent nd =? -1) then Ok [m_parent nd]
  else Throw (RuntimeError "selecting /.. from root").

(** [None] for the null pointer. *)
Definition contentvalue (st : t) (nd : InputNode) : res (option Variant) :=
  if m_value nd =? 0 then Ok None
  else match m_content st !! Z.to_nat (m_value nd) with
       | Some v => Ok (Some v)
       | None => Throw (OutOfRange "vector::at")
       end.

Definition isequalTag (st : t) (t1 t2 : string) : bool :=
  if case_sensitive st then iequals t1 t2 else bool_decide (t1 = t2).

End InputStructure.

(** ** Paths *)

Module SelectNodes.
Import InputStructure.

Definition select_element (st : t) (e : SelectorPath.Element) (ni : Z) : res (list Z) :=
  match SelectorPath.m_type e with
  | SelectorPath.Find => nd ← node st ni; find st nd (SelectorPath.m_tag e)
  | SelectorPath.Current => Ok [ni]
  | SelectorPath.Root => Ok [rootindex]
  | SelectorPath.Next => nd ← node st ni; next st nd (SelectorPath.m_tag e)
  | SelectorPath.Up => nd ← node st ni; up nd
  end.

Fixpoint select_from (st : t) (path : SelectorPath.t) (ar : list Z) : res (list Z) :=
  match path with
  | [] => Ok ar
  | e :: path' => ar ← res_flat_map (select_element st e) ar; select_from st path' ar
  end.

(** Elements [Current] at the start are skipped. *)
Fixpoint skip_current (path : SelectorPath.t) : SelectorPath.t :=
  match path with
  | e :: path' =>
      if bool_decide (SelectorPath.m_type e = SelectorPath.Current) then skip_current path' else path
  | [] => []
  end.

Definition selectNodes (path : SelectorPath.t) (st : t) (nv : Z) : res (list Z) :=
  select_from st (skip_current path) [nv].

End SelectNodes.

(** ** Filling the structure: [TdlTransactionFunctionClosure::InputStructure::print] *)

Module ClosureInput.
Import VmTransactionInputFilter.

Record t := mk {
  m_structure : InputStructure.t;
  m_lasttype : ElementType
}.

Definition make (tagmap : TagTable.t) : t := mk (InputStructure.make tagmap) CloseTag.

Section Print.
Context (toint : Variant -> res Z).

Definition print (s : t) (type : ElementType) (element : Variant) : res t :=
  st ← match type with
       | OpenTag | Attribute => InputStructure.openTag toint (m_structure s) element
       | CloseTag => InputStructure.closeTag (m_structure s)
       | Value =>
           st ← InputStructure.pushValue (m_structure s) element;
           if bool_decide (m_lasttype s = Attribute) then InputStructure.closeTag st else Ok st
       end;
  Ok (mk st type).

(** The elements of a document. *)
Fixpoint print_all (s : t) (es : list (ElementType * Variant)) : res t :=
  match es with
  | [] => Ok s
  | (type, element) :: es' => s ← print s type element; print_all s es'
  end.
End Print.
End ClosureInput.
