(* ===== verification/InputLayout.v ===== *)
(** * Documents in the input structure

    The tree of an input without arrays as a specification: what the nodes of the array are
    after the elements of a document were printed into an empty structure (the layout), and
    what paths select in the document.

    Theorems: a printed document is represented by the structure, and the selection of nodes
    is the selection in the document. *)
From S2P Require Import Prelude Variant ValueTupleSet TdlTables SelectorPath Transaction InputStructure.

(** ** Documents *)

(** An attribute or an element with its value and what it contains. *)
Inductive tree :=
| Attr (name : string) (value : Variant)
| Elem (name : string) (value : option Variant) (content : list tree).

Definition name_of (t : tree) : string := match t with Attr n _ | Elem n _ _ => n end.
Definition value_of (t : tree) : option Variant := match t with Attr _ v => Some v | Elem _ v _ => v end.
Definition children (t : tree) : list tree := match t with Attr _ _ => [] | Elem _ _ cs => cs end.

Section TreeInd.
Variable P : tree -> Prop.
Hypothesis HAttr : forall n v, P (Attr n v).
Hypothesis HElem : forall n v cs, Forall P cs -> P (Elem n v cs).

(** Induction with the hypothesis for all children. *)
Fixpoint tree_rose_ind (t : tree) : P t :=
  match t with
  | Attr n v => HAttr n v
  | Elem n v cs =>
      HElem n v cs ((fix go (l : list tree) : Forall P l :=
        match l with
        | [] => @List.Forall_nil _ P
        | c :: l' => @List.Forall_cons _ P c l' (tree_rose_ind c) (go l')
        end) cs)
  end.
End TreeInd.

(** The elements of a document as a filter delivers them. *)
Fixpoint events (t : tree) : list (VmTransactionInputFilter.ElementType * Variant) :=
  match t with
  | Attr n v => [(VmTransactionInputFilter.Attribute, Str n); (VmTransactionInputFilter.Value, v)]
  | Elem n v cs =>
      (VmTransactionInputFilter.OpenTag, Str n) ::
      match v with Some v => [(VmTransactionInputFilter.Value, v)] | None => [] end ++
      concat (map events cs) ++ [(VmTransactionInputFilter.CloseTag, Null)]
  end.

Definition forest_events (ts : list tree) : list (VmTransactionInputFilter.ElementType * Variant) :=
  concat (map events ts).

Fixpoint size (t : tree) : nat :=
  match t with
  | Attr _ _ => 1
  | Elem _ _ cs => S (list_sum (map size cs))
  end.
Definition sizes (ts : list tree) : nat := list_sum (map size ts).

(** The memory for the names and whether they are strings of the C library. *)
Fixpoint text (t : tree) : nat :=
  match t with
  | Attr n _ => S (String.length n)
  | Elem n _ cs => (S (String.length n) + list_sum (map text cs))%nat
  end.
Definition texts (ts : list tree) : nat := list_sum (map text ts).

Fixpoint clean (t : tree) : bool :=
  match t with
  | Attr n _ => bool_decide (TagTable.nul ∉ SelectorPath.chars n)
  | Elem n _ cs => bool_decide (TagTable.nul ∉ SelectorPath.chars n) && forallb clean cs
  end.

(** ** Layout *)

(** What a node holds: the numbers of its tags are left to the tables. *)
Record desc := mkDesc {
  d_parent : Z;
  d_name : option string;
  d_index : Z;
  d_next : nat;
  d_value : option Variant;
  d_first : nat;
  d_last : nat
}.

Definition d_set_next (d : desc) (x : nat) : desc :=
  mkDesc (d_parent d) (d_name d) (d_index d) x (d_value d) (d_first d) (d_last d).
Definition d_set_children (d : desc) (first last : nat) : desc :=
  mkDesc (d_parent d) (d_name d) (d_index d) (d_next d) (d_value d) first last.
Definition d_set_name (d : desc) (n : string) : desc :=
  mkDesc (d_parent d) (Some n) (d_index d) (d_next d) (d_value d) (d_first d) (d_last d).
Definition d_set_value (d : desc) (v : Variant) : desc :=
  mkDesc (d_parent d) (d_name d) (d_index d) (d_next d) (Some v) (d_first d) (d_last d).

(** The position of the last of the trees at [base]; 0 if there is none. *)
Fixpoint last_start (base : nat) (ts : list tree) : nat :=
  match ts with
  | [] => 0
  | [_] => base
  | t :: ts' => last_start (base + size t) ts'
  end.

Definition first_start (base : nat) (ts : list tree) : nat := match ts with [] => 0 | _ => base end.

(** Nodes in document order, from the position [base] on, in a node at [p]; [nx] is the next
    sibling. *)
Fixpoint layout (p base nx : nat) (t : tree) : list desc :=
  mkDesc (Z.of_nat p) (Some (name_of t)) (-1) nx (value_of t) (first_start (S base) (children t))
    (last_start (S base) (children t)) ::
  match t with
  | Attr _ _ => []
  | Elem _ _ cs =>
      (fix go (b : nat) (cs : list tree) : list desc :=
         match cs with
         | [] => []
         | c :: cs' => layout base b (match cs' with [] => 0 | _ => b + size c end) c ++ go (b + size c) cs'
         end)%nat (S base) cs
  end.

Fixpoint layouts (p b : nat) (cs : list tree) : list desc :=
  match cs with
  | [] => []
  | c :: cs' => layout p b (match cs' with [] => 0 | _ => b + size c end)%nat c ++ layouts p (b + size c) cs'
  end.

Definition root_desc (ts : list tree) : desc := mkDesc (-1) None (-1) 0 None (first_start 1 ts) (last_start 1 ts).

(** The nodes of a document. *)
Definition document (ts : list tree) : list desc := root_desc ts :: layouts 0 1 ts.

(** ** Lists of trees in a layout *)

Lemma layout_eq p base nx t :
  layout p base nx t =
  mkDesc (Z.of_nat p) (Some (name_of t)) (-1) nx (value_of t) (first_start (S base) (children t))
    (last_start (S base) (children t)) :: layouts base (S base) (children t).
Proof.
  destruct t as [n v|n v cs]; [done|]. cbn [layout children name_of value_of]. f_equal. generalize (S base).
  induction cs as [|c cs IH]; intros b; [done|]. cbn [layouts]. by rewrite IH.
Qed.

Lemma size_eq t : size t = S (sizes (children t)).
Proof. by destruct t. Qed.

Lemma sizes_cons t ts : sizes (t :: ts) = (size t + sizes ts)%nat.
Proof. done. Qed.

Lemma forest_sizes_app ts ts' : sizes (ts ++ ts') = (sizes ts + sizes ts')%nat.
Proof. unfold sizes. by rewrite map_app, list_sum_app. Qed.

Lemma layout_length t : forall p base nx, length (layout p base nx t) = size t.
Proof.
  induction t as [n v|n v cs IH] using tree_rose_ind; intros p base nx; [done|]. rewrite layout_eq. cbn [length size children].
  f_equal. generalize (S base). induction IH as [|c cs Hc _ IHcs]; intros b; [done|].
  cbn [layouts map list_sum]. rewrite length_app, Hc, IHcs. done.
Qed.

Lemma layouts_length p cs : forall b, length (layouts p b cs) = sizes cs.
Proof. induction cs as [|c cs IH]; intros b; [done|]. cbn [layouts]. rewrite length_app, layout_length, IH. done. Qed.

Lemma tree_size_pos t : (0 < size t)%nat.
Proof. rewrite size_eq. lia. Qed.

Lemma last_start_bounds ts : forall b, ts <> [] -> (b <= last_start b ts < b + sizes ts)%nat.
Proof.
  induction ts as [|t ts IH]; intros b Hne; [done|]. pose proof (tree_size_pos t). rewrite sizes_cons. destruct ts as [|t' ts].
  - cbn. lia.
  - change (last_start b (t :: t' :: ts)) with (last_start (b + size t) (t' :: ts)).
    specialize (IH (b + size t)%nat ltac:(done)). lia.
Qed.

(** The positions of the trees at [b]. *)
Fixpoint starts (b : nat) (ts : list tree) : list nat :=
  match ts with [] => [] | t :: ts' => b :: starts (b + size t) ts' end.

Lemma layouts_cons p b c cs :
  layouts p b (c :: cs) = layout p b (match cs with [] => 0 | _ => b + size c end)%nat c ++ layouts p (b + size c) cs.
Proof. done. Qed.

Lemma sizes_length ts : (length ts <= sizes ts)%nat.
Proof. induction ts as [|t ts IH]; [done|]. rewrite sizes_cons. pose proof (tree_size_pos t). cbn. lia. Qed.

(** One more tree: the one before gets its position. *)
Lemma layouts_snoc p c xs : forall b, xs <> [] ->
  layouts p b (xs ++ [c]) =
  alter (fun d => d_set_next d (b + sizes xs)) (last_start b xs - b)%nat (layouts p b xs) ++ layout p (b + sizes xs) 0 c.
Proof.
  induction xs as [|x xs IH]; intros b Hne; [done|]. destruct xs as [|y xs].
  - cbn [app layouts last_start]. rewrite !app_nil_r, Nat.sub_diag. replace (sizes [x]) with (size x) by (unfold sizes; cbn; lia).
    rewrite !(layout_eq p b). done.
  - cbn [app]. change (layouts p b (x :: y :: xs ++ [c])) with (layout p b (b + size x) x ++ layouts p (b + size x) ((y :: xs) ++ [c])).
    rewrite IH by done. change (last_start b (x :: y :: xs)) with (last_start (b + size x) (y :: xs)).
    change (layouts p b (x :: y :: xs)) with (layout p b (b + size x) x ++ layouts p (b + size x) (y :: xs)).
    pose proof (last_start_bounds (y :: xs) (b + size x) ltac:(done)).
    rewrite (sizes_cons x), Nat.add_assoc, app_assoc. f_equal.
    rewrite alter_app_r_alt by (rewrite layout_length; lia). rewrite layout_length. f_equal. f_equal. lia.
Qed.

(** The node at [b - 1] with the children [cs] behind it. *)
Definition parent_desc (parent : Z) (name : option string) (value : option Variant) (b : nat) (cs : list tree) : desc :=
  mkDesc parent name (-1) 0 value (first_start b cs) (last_start b cs).

Lemma last_start_snoc xs c : forall b, last_start b (xs ++ [c]) = (b + sizes xs)%nat.
Proof.
  induction xs as [|x xs IH]; intros b; [cbn; lia|]. destruct xs as [|y xs]; [cbn; lia|].
  cbn [app]. change (last_start b (x :: y :: xs ++ [c])) with (last_start (b + size x) ((y :: xs) ++ [c])).
  rewrite IH, (sizes_cons x). lia.
Qed.

Lemma first_start_snoc xs c b : first_start b (xs ++ [c]) = b.
Proof. by destruct xs. Qed.

(** ** The structure of a layout *)

Section Represents.
Context (tagmap : TagTable.t).

(** The number of a name of the document: the one of the selectors or that for unused names. *)
Definition tag_of (name : string) : Z :=
  let f := TagTable.find tagmap name in if f =? 0 then TagTable.unused else f.

Definition named (private : TagTable.t) (i : Z) (name : string) : Prop :=
  exists nam, TagTable.key private nam = TagTable.key private name /\
    TagTableFacts.tag_at (TagTable.m_strings private) i nam.

Record ok_node (private : TagTable.t) (content : list Variant) (d : desc) (nd : InputNode) : Prop := {
  ok_parent : m_parent nd = d_parent d;
  ok_name : match d_name d with
            | None => m_tag nd = 0 /\ m_tagstr nd = 0
            | Some n => m_tag nd = tag_of n /\ named private (m_tagstr nd) n
            end;
  ok_arrayindex : m_arrayindex nd = d_index d;
  ok_next : m_next nd = Z.of_nat (d_next d);
  ok_value : match d_value d with
             | None => m_value nd = 0
             | Some v => 0 < m_value nd /\ content !! Z.to_nat (m_value nd) = Some v
             end;
  ok_first : m_firstchild nd = Z.of_nat (d_first d);
  ok_last : m_lastchild nd = Z.of_nat (d_last d)
}.

(** The structure has the nodes [D]. *)
Record represents (st : InputStructure.t) (D : list desc) : Prop := {
  rep_nodes : Forall2 (ok_node (InputStructure.m_privatetagmap st) (InputStructure.m_content st))
                D (InputStructure.m_nodemem st);
  rep_tagmap : InputStructure.m_tagmap st = tagmap;
  rep_private : TagTableFacts.ok (InputStructure.m_privatetagmap st);
  rep_content : (1 <= length (InputStructure.m_content st))%nat;
  rep_open : InputStructure.m_done st = false;
  rep_case : TagTable.m_case_sensitive (InputStructure.m_privatetagmap st) = TagTable.m_case_sensitive tagmap
}.

Lemma rep_lookup st D i d :
  represents st D -> D !! i = Some d ->
  exists nd, InputStructure.node st (Z.of_nat i) = Ok nd /\
    ok_node (InputStructure.m_privatetagmap st) (InputStructure.m_content st) d nd.
Proof.
  intros [H _ _ _ _ _] Hi. destruct (Forall2_lookup_l _ _ _ _ _ H Hi) as (nd & Hnd & Hok).
  exists nd. split; [|done]. unfold InputStructure.node, NodeMem.get.
  apply lookup_lt_Some in Hnd as Hlt.
  destruct (Z.ltb_spec (Z.of_nat i) 0); [lia|]. destruct (Z.ltb_spec (Z.of_nat (length (InputStructure.m_nodemem st))) (Z.of_nat i)); [lia|].
  cbn [orb]. by rewrite Nat2Z.id, Hnd.
Qed.

Lemma rep_length st D : represents st D -> length (InputStructure.m_nodemem st) = length D.
Proof. intros [H _ _ _ _ _]. symmetry. by eapply Forall2_length. Qed.

(** A change of one node. *)
Lemma rep_update st D i d d' f :
  represents st D -> D !! i = Some d ->
  (forall nd, ok_node (InputStructure.m_privatetagmap st) (InputStructure.m_content st) d nd ->
              ok_node (InputStructure.m_privatetagmap st) (InputStructure.m_content st) d' (f nd)) ->
  exists mem, InputStructure.update st (Z.of_nat i) f = Ok (InputStructure.set_mem st mem) /\
    represents (InputStructure.set_mem st mem) (<[i := d']> D).
Proof.
  intros Hrep Hi Hf. destruct (rep_lookup _ _ _ _ Hrep Hi) as (nd & Hnd & Hok).
  unfold InputStructure.update, NodeMem.upd. unfold InputStructure.node in Hnd. rewrite Hnd. cbn.
  eexists. split; [reflexivity|]. destruct Hrep as [H1 H2 H3 H4 H5 H6]. split; cbn; try done.
  rewrite Nat2Z.id. apply Forall2_insert; [done|]. by apply Hf.
Qed.

(** ** Adding a node *)

Definition add_child (p : nat) (D : list desc) : list desc :=
  let n := length D in
  let add (d : desc) := if (d_last d =? 0)%nat then d_set_children d n n else d_set_children d (d_first d) n in
  match D !! p with
  | None => D
  | Some d =>
      <[p := add d]> (match D !! d_last d with
                      | Some l => if (d_last d =? 0)%nat then D else <[d_last d := d_set_next l n]> D
                      | None => D
                      end)
  end.

Definition new_desc (p : nat) : desc := mkDesc (Z.of_nat p) None (-1) 0 None 0 0.

Lemma ok_node_set_children private content d nd f l f' l' :
  f' = Z.of_nat f -> l' = Z.of_nat l -> ok_node private content d nd ->
  ok_node private content (d_set_children d f l) (set_children nd f' l').
Proof. intros -> -> [? ? ? ? ? ? ?]. by split. Qed.

Lemma ok_node_set_next private content d nd x x' :
  x' = Z.of_nat x -> ok_node private content d nd -> ok_node private content (d_set_next d x) (set_next nd x').
Proof. intros -> [? ? ? ? ? ? ?]. by split. Qed.

Lemma ok_node_zero private content : ok_node private content (mkDesc 0 None 0 0 None 0 0) zero_node.
Proof. by split. Qed.

Lemma ok_node_placed private content d nd p :
  ok_node private content d nd ->
  ok_node private content (mkDesc (Z.of_nat p) (d_name d) (-1) (d_next d) (d_value d) (d_first d) (d_last d))
    (set_parent (set_arrayindex nd (-1)) (Z.of_nat p)).
Proof. intros [? ? ? ? ? ? ?]. by split. Qed.

(** The last child of a node is a node. *)
Definition last_ok (D : list desc) (p : nat) : Prop :=
  exists d, D !! p = Some d /\ (d_last d < length D)%nat /\ (d_last d <> p \/ d_last d = 0%nat).

Lemma add_child_length p D : length (add_child p D) = length D.
Proof.
  unfold add_child. destruct (D !! p) as [d|]; [|done]. rewrite length_insert.
  destruct (D !! d_last d); [|done]. destruct (_ =? _)%nat; [done|]. by rewrite length_insert.
Qed.

Lemma insert_app_left {A} (l k : list A) i x : (i < length l)%nat -> <[i := x]> (l ++ k) = <[i := x]> l ++ k.
Proof. intros H. by rewrite insert_app_l. Qed.

Lemma create_child st D p :
  represents st D -> last_ok D p -> Z.of_nat (length D) < 2 ^ 31 ->
  exists mem, InputStructure.createChildNode st (Z.of_nat p) = Ok (InputStructure.set_mem st mem, Z.of_nat (length D)) /\
    represents (InputStructure.set_mem st mem) (add_child p D ++ [new_desc p]).
Proof.
  intros Hrep (d & Hd & Hlast & Hne) Hlen. pose proof (rep_length _ _ Hrep) as Hmem.
  unfold InputStructure.createChildNode, NodeMem.alloc. rewrite Hmem, i32_small by lia.
  set (st1 := InputStructure.set_mem st _).
  assert (represents st1 (D ++ [mkDesc 0 None 0 0 None 0 0])) as Hrep1.
  { destruct Hrep as [H1 H2 H3 H4 H5 H6]. split; try done. apply Forall2_app; [done|]. constructor; [|constructor].
    apply ok_node_zero. }
  assert (p < length D)%nat as Hp by by eapply lookup_lt_Some.
  assert ((D ++ [mkDesc 0 None 0 0 None 0 0]) !! p = Some d) as Hd1 by by rewrite lookup_app_l.
  destruct (rep_lookup _ _ _ _ Hrep1 Hd1) as (nd & Hnd & Hok). cbn [mbind res_bind]. rewrite Hnd. cbn [mbind res_bind].
  rewrite (ok_last _ _ _ _ Hok).
  assert (exists mem, (if Z.of_nat (d_last d) =? 0
            then InputStructure.update st1 (Z.of_nat p) (fun nd => set_children nd (Z.of_nat (length D)) (Z.of_nat (length D)))
            else st0 ← InputStructure.update st1 (Z.of_nat (d_last d)) (fun lc => set_next lc (Z.of_nat (length D)));
                 InputStructure.update st0 (Z.of_nat p) (fun nd => set_children nd (m_firstchild nd) (Z.of_nat (length D))))
          = Ok (InputStructure.set_mem st mem) /\
          represents (InputStructure.set_mem st mem) (add_child p D ++ [mkDesc 0 None 0 0 None 0 0])) as (mem & -> & Hrep2).
  { unfold add_child. rewrite Hd. destruct (lookup_lt_is_Some_2 D (d_last d) Hlast) as [l Hl]. rewrite Hl.
    destruct (Nat.eqb_spec (d_last d) 0) as [E|E].
    - rewrite E. cbn [Z.eqb Z.of_nat]. destruct (rep_update _ _ _ _ (d_set_children d (length D) (length D)) _ Hrep1 Hd1
        (fun nd H => ok_node_set_children _ _ d nd _ _ _ _ eq_refl eq_refl H)) as (mem & H1 & H2).
      rewrite H1. exists mem. split; [done|]. rewrite <- insert_app_left by done. exact H2.
    - rewrite (proj2 (Z.eqb_neq _ _)) by lia. destruct Hne as [Hne|Hne]; [|done].
      assert ((D ++ [mkDesc 0 None 0 0 None 0 0]) !! d_last d = Some l) as Hl1 by by rewrite lookup_app_l.
      destruct (rep_update _ _ _ _ (d_set_next l (length D)) _ Hrep1 Hl1
        (fun nd H => ok_node_set_next _ _ l nd _ _ eq_refl H)) as (mem & H1 & H2).
      rewrite H1. cbn [mbind res_bind].
      assert ((<[d_last d:=d_set_next l (length D)]> (D ++ [mkDesc 0 None 0 0 None 0 0])) !! p = Some d) as Hd2
        by by rewrite list_lookup_insert_ne.
      destruct (rep_update _ _ _ _ (d_set_children d (d_first d) (length D))
        (fun nd => set_children nd (m_firstchild nd) (Z.of_nat (length D))) H2 Hd2) as (mem2 & H3 & H4).
      { intros nd0 H. apply ok_node_set_children; [apply H|done|done]. }
      rewrite H3. exists mem2. split; [done|]. rewrite <- insert_app_left by (by rewrite length_insert).
      rewrite <- insert_app_left by done. exact H4. }
  cbn [mbind res_bind].
  assert ((add_child p D ++ [mkDesc 0 None 0 0 None 0 0]) !! length D = Some (mkDesc 0 None 0 0 None 0 0)) as Hn.
  { rewrite lookup_app_r by (rewrite add_child_length; lia). rewrite add_child_length. by rewrite Nat.sub_diag. }
  destruct (rep_update _ _ _ _ (new_desc p) (fun chld => set_parent (set_arrayindex chld (-1)) (Z.of_nat p)) Hrep2 Hn) as (mem2 & H3 & H4).
  { intros nd0 H. apply (ok_node_placed _ _ _ _ p H). }
  rewrite H3. exists mem2. split; [done|].
  replace (add_child p D ++ [new_desc p]) with (<[length D := new_desc p]> (add_child p D ++ [mkDesc 0 None 0 0 None 0 0])); [exact H4|].
  rewrite insert_app_r_alt by (rewrite add_child_length; lia). rewrite add_child_length. by rewrite Nat.sub_diag.
Qed.

(** ** Names and values *)

Lemma named_grows private private' i n :
  TagTable.m_case_sensitive private' = TagTable.m_case_sensitive private ->
  TagTable.m_strings private `prefix_of` TagTable.m_strings private' ->
  named private i n -> named private' i n.
Proof.
  intros Hc [more Hm] (nam & Hk & Ht). exists nam. unfold TagTable.key in *. rewrite Hc. split; [done|].
  rewrite Hm. by apply TagTableFacts.tag_at_app.
Qed.

Lemma ok_node_grows private private' content content' d nd :
  TagTable.m_case_sensitive private' = TagTable.m_case_sensitive private ->
  TagTable.m_strings private `prefix_of` TagTable.m_strings private' -> content `prefix_of` content' ->
  ok_node private content d nd -> ok_node private' content' d nd.
Proof.
  intros Hc Hs [more ->] [H1 H2 H3 H4 H5 H6 H7]. split; try done.
  - destruct (d_name d); [|done]. destruct H2 as [H2 H2']. split; [done|]. by eapply named_grows.
  - destruct (d_value d); [|done]. destruct H5 as [H5 H5']. split; [done|]. by rewrite lookup_app_l_Some with (x := v).
Qed.

(** The space that the names take. *)
Definition used (st : InputStructure.t) : nat := length (TagTable.m_strings (InputStructure.m_privatetagmap st)).

Lemma chars_length n : length (String.list_ascii_of_string n) = String.length n.
Proof. induction n as [|c n IH]; [done|]. cbn. by rewrite IH. Qed.

Lemma get_used tab n :
  (length (TagTable.m_strings (TagTable.get tab n).1) <= length (TagTable.m_strings tab) + S (String.length n))%nat.
Proof.
  unfold TagTable.get. destruct (StdMap.find _ _); cbn; [lia|]. rewrite !length_app. cbn.
  rewrite chars_length. lia.
Qed.

(** What an operation leaves alone but for the nodes. *)
Record same_rest (st st' : InputStructure.t) (names values : nat) : Prop := {
  same_used : (used st' <= used st + names)%nat;
  same_content : (length (InputStructure.m_content st') <= length (InputStructure.m_content st) + values)%nat;
  same_visitor : InputStructure.m_visitor st' = InputStructure.m_visitor st
}.

Lemma put_tag_spec st D i d n :
  represents st D -> D !! i = Some d -> TagTable.nul ∉ SelectorPath.chars n ->
  Z.of_nat (used st + S (String.length n)) < 2 ^ 31 ->
  exists st', InputStructure.put_tag st (Z.of_nat i) n = Ok st' /\
    represents st' (<[i := d_set_name d n]> D) /\ same_rest st st' (S (String.length n)) 0.
Proof.
  intros Hrep Hi Hnul Hroom. unfold InputStructure.put_tag.
  pose proof (get_used (InputStructure.m_privatetagmap st) n) as Hg. unfold used in Hroom.
  destruct (TagTableFacts.get_tag_spec (InputStructure.m_privatetagmap st) n) as (nam & Hok & Hc & Hk & Ht);
    [apply Hrep|done|unfold TagTableFacts.fits; lia|].
  pose proof (TagTableFacts.get_grows (InputStructure.m_privatetagmap st) n) as Hgrow.
  destruct (TagTable.get (InputStructure.m_privatetagmap st) n) as [private tgs] eqn:Eg. cbn [fst snd] in *.
  set (st1 := InputStructure.set_privatetagmap st private).
  assert (represents st1 D) as Hrep1.
  { destruct Hrep as [H1 H2 H3 H4 H5 H6]. split; try done; [|cbn; by rewrite Hc]. eapply Forall2_impl; [exact H1|]. intros d0 nd0 H.
    eapply ok_node_grows; [exact Hc|exact Hgrow| |exact H]. done. }
  destruct (rep_update _ _ _ _ (d_set_name d n)
    (fun nd => set_tags nd (if TagTable.find (InputStructure.m_tagmap st) n =? 0 then TagTable.unused
                            else TagTable.find (InputStructure.m_tagmap st) n) tgs) Hrep1 Hi) as (mem & H1 & H2).
  { intros nd [? ? ? ? ? ? ?]. split; try done. cbn. rewrite (rep_tagmap _ _ Hrep). split; [done|].
    exists nam. split; [|done]. unfold TagTable.key in *. by rewrite Hc. }
  rewrite H1. eexists. split; [reflexivity|]. split; [exact H2|]. split; cbn; [|lia|done]. unfold used. cbn. lia.
Qed.

Lemma set_nodes_rest st mem : same_rest st (InputStructure.set_mem st mem) 0 0.
Proof. split; cbn; try done; try lia. unfold used. cbn. lia. Qed.

Lemma same_nodes_trans st st1 st2 n1 n2 v1 v2 :
  same_rest st st1 n1 v1 -> same_rest st1 st2 n2 v2 -> same_rest st st2 (n1 + n2) (v1 + v2).
Proof. intros [? ? ?] [? ? ?]. split; [lia|lia|congruence]. Qed.

Lemma node_opened toint st D p n :
  represents st D -> last_ok D p -> Z.of_nat (length D) < 2 ^ 31 -> TagTable.nul ∉ SelectorPath.chars n ->
  Z.of_nat (used st + S (String.length n)) < 2 ^ 31 ->
  exists st', InputStructure.openTag_at toint st (Z.of_nat p) (Str n) = Ok (st', Z.of_nat (length D)) /\
    represents st' (add_child p D ++ [d_set_name (new_desc p) n]) /\ same_rest st st' (S (String.length n)) 0.
Proof.
  intros Hrep Hlast Hlen Hnul Hroom. unfold InputStructure.openTag_at. rewrite (rep_open _ _ Hrep).
  destruct (create_child _ _ _ Hrep Hlast Hlen) as (mem & -> & Hrep1). cbn [mbind res_bind].
  assert ((add_child p D ++ [new_desc p]) !! length D = Some (new_desc p)) as Hn.
  { rewrite lookup_app_r by (rewrite add_child_length; lia). rewrite add_child_length. by rewrite Nat.sub_diag. }
  destruct (put_tag_spec _ _ _ _ n Hrep1 Hn Hnul Hroom) as (st' & -> & Hrep2 & Hs).
  exists st'. split; [done|]. split.
  - rewrite insert_app_r_alt in Hrep2 by (rewrite add_child_length; lia).
    rewrite add_child_length, Nat.sub_diag in Hrep2. exact Hrep2.
  - eapply (same_nodes_trans st (InputStructure.set_mem st mem) st' 0 _ 0 0); [apply set_nodes_rest|exact Hs].
Qed.

Lemma push_value_spec st D i d v :
  represents st D -> D !! i = Some d -> d_value d = None ->
  Z.of_nat (length (InputStructure.m_content st)) < 2 ^ 31 ->
  exists st', InputStructure.pushValue_at st (Z.of_nat i) v = Ok st' /\
    represents st' (<[i := d_set_value d v]> D) /\ same_rest st st' 0 1.
Proof.
  intros Hrep Hi Hv Hroom. unfold InputStructure.pushValue_at. rewrite (rep_open _ _ Hrep).
  destruct (rep_lookup _ _ _ _ Hrep Hi) as (nd & Hnd & Hok). rewrite Hnd. cbn [mbind res_bind].
  pose proof (ok_value _ _ _ _ Hok) as Hval. rewrite Hv in Hval. rewrite Hval. cbn [Z.eqb negb].
  set (st1 := InputStructure.set_content st (InputStructure.m_content st ++ [v])).
  assert (represents st1 D) as Hrep1.
  { destruct Hrep as [H1 H2 H3 H4 H5 H6]. split; try done; [|cbn; rewrite length_app; cbn; lia].
    eapply Forall2_impl; [exact H1|]. intros d0 nd0 H.
    eapply ok_node_grows; [reflexivity|reflexivity| |exact H]. by eexists. }
  pose proof (rep_content _ _ Hrep) as Hc.
  destruct (rep_update _ _ _ _ (d_set_value d v)
    (fun nd => set_value nd (i32 (Z.of_nat (length (InputStructure.m_content st))))) Hrep1 Hi) as (mem & H1 & H2).
  { intros nd0 [? ? ? ? ? ? ?]. split; try done. cbn. rewrite i32_small by lia. split; [lia|].
    rewrite Nat2Z.id. by rewrite lookup_app_r, Nat.sub_diag by lia. }
  unfold InputStructure.update in H1 |- *. cbn in H1.
  destruct (NodeMem.upd (InputStructure.m_nodemem st) (Z.of_nat i)
    (fun nd => set_value nd (i32 (Z.of_nat (length (InputStructure.m_content st)))))) as [mem0| |]; try done.
  cbn in H1 |- *. injection H1 as Hm. rewrite Hm.
  eexists. split; [reflexivity|]. split; [exact H2|]. split; cbn; [unfold used; cbn; lia|rewrite length_app; cbn; lia|done].
Qed.

(** ** Adding a child behind those that are there *)

Lemma last_ok_parent A parent name value xs :
  let idx := length A in
  last_ok (A ++ parent_desc parent name value (S idx) xs :: layouts idx (S idx) xs) idx.
Proof.
  intros idx. eexists. split; [by rewrite list_lookup_middle|]. cbn [parent_desc d_last]. rewrite length_app. cbn [length].
  rewrite layouts_length. destruct xs as [|x xs]; [cbn; lia|].
  pose proof (last_start_bounds (x :: xs) (S idx) ltac:(done)). lia.
Qed.

Lemma insert_middle {A} (l k : list A) x y : <[length l := y]> (l ++ x :: k) = l ++ y :: k.
Proof. by rewrite insert_app_r_alt, Nat.sub_diag by lia. Qed.

Lemma alter_insert {A} (f : A -> A) (l : list A) i x : l !! i = Some x -> <[i := f x]> l = alter f i l.
Proof.
  revert i. induction l as [|y l IH]; intros [|i] H; cbn in *; try done; [by injection H as ->|]. f_equal. by apply IH.
Qed.

Lemma add_child_layouts A parent name value xs c :
  let idx := length A in
  add_child idx (A ++ parent_desc parent name value (S idx) xs :: layouts idx (S idx) xs) ++
    layout idx (S idx + sizes xs) 0 c =
  A ++ parent_desc parent name value (S idx) (xs ++ [c]) :: layouts idx (S idx) (xs ++ [c]).
Proof.
  intros idx. subst idx. unfold add_child. rewrite list_lookup_middle by done.
  assert (length (A ++ parent_desc parent name value (S (length A)) xs :: layouts (length A) (S (length A)) xs) = (S (length A) + sizes xs)%nat) as Hlen.
  { rewrite length_app. cbn [length]. rewrite layouts_length. lia. }
  rewrite Hlen. unfold parent_desc, d_set_children. cbn [d_parent d_name d_index d_next d_value d_first d_last].
  rewrite first_start_snoc, last_start_snoc. destruct xs as [|x xs].
  - cbn [last_start first_start layouts app]. rewrite Nat.eqb_refl.
    destruct (_ !! 0%nat); rewrite insert_middle, <- app_assoc; cbn; rewrite !app_nil_r; do 3 f_equal; lia.
  - pose proof (last_start_bounds (x :: xs) (S (length A)) ltac:(done)) as Hb.
    rewrite (proj2 (Nat.eqb_neq (last_start (S (length A)) (x :: xs)) 0)) by lia.
    rewrite layouts_snoc by done. rewrite lookup_app_r by (lia).
    replace (last_start (S (length A)) (x :: xs) - length A)%nat with (S (last_start (S (length A)) (x :: xs) - S (length A))) by (lia).
    rewrite lookup_cons.
    destruct (lookup_lt_is_Some_2 (layouts (length A) (S (length A)) (x :: xs)) (last_start (S (length A)) (x :: xs) - S (length A))) as [l Hl];
      [rewrite layouts_length; lia|]. rewrite Hl.
    rewrite insert_app_r_alt by (lia).
    replace (last_start (S (length A)) (x :: xs) - length A)%nat with (S (last_start (S (length A)) (x :: xs) - S (length A))) by (lia).
    match goal with |- context [<[S ?n := ?x]> (?d :: ?k)] => change (<[S n := x]> (d :: k)) with (d :: <[n := x]> k) end.
    rewrite (alter_insert (fun d => d_set_next d (S (length A) + sizes (x :: xs))) _ _ _ Hl).
    rewrite insert_middle, <- app_assoc. done.
Qed.

(** ** Reading the nodes of a layout *)

Lemma siblings_layouts st p cs : forall A B fuel,
  represents st (A ++ layouts p (length A) cs ++ B) -> cs <> [] -> (length cs <= fuel)%nat ->
  InputStructure.siblings_from fuel st (Z.of_nat (length A)) = Ok (map Z.of_nat (starts (length A) cs)).
Proof.
  induction cs as [|c cs IH]; intros A B fuel Hrep Hne Hf; [done|]. destruct fuel as [|fuel]; [cbn in Hf; lia|].
  rewrite layouts_cons in Hrep. pose proof (tree_size_pos c) as Hc.
  assert ((A ++ (layout p (length A) (match cs with [] => 0 | _ => length A + size c end) c ++
    layouts p (length A + size c) cs) ++ B) !! length A = Some (mkDesc (Z.of_nat p) (Some (name_of c)) (-1)
      (match cs with [] => 0 | _ => length A + size c end) (value_of c) (first_start (S (length A)) (children c))
      (last_start (S (length A)) (children c)))) as Hl.
  { rewrite layout_eq. cbn [app]. by rewrite list_lookup_middle. }
  destruct (rep_lookup _ _ _ _ Hrep Hl) as (nd & Hnd & Hok). cbn [InputStructure.siblings_from]. rewrite Hnd. cbn [mbind res_bind].
  rewrite (ok_next _ _ _ _ Hok). cbn [d_next]. destruct cs as [|c' cs]; [done|].
  rewrite (proj2 (Z.eqb_neq _ _)) by lia.
  specialize (IH (A ++ layout p (length A) (length A + size c) c) B fuel).
  rewrite length_app, layout_length in IH. rewrite IH; [done| |done|cbn in Hf |- *; lia].
  rewrite <- app_assoc, (app_assoc (layout _ _ _ _)). exact Hrep.
Qed.

(** ** Closing an element *)

Lemma close_spec st A B p nx t pd :
  let idx := length A in
  represents st (A ++ layout p idx nx t ++ B) ->
  (A ++ layout p idx nx t ++ B) !! p = Some pd -> d_last pd = idx ->
  InputStructure.closeTag_at st (Z.of_nat idx) = Ok (st, Z.of_nat p).
Proof.
  intros idx Hrep Hp Hlast. pose proof (rep_length _ _ Hrep) as Hlen. rewrite layout_eq in *.
  assert ((A ++ (mkDesc (Z.of_nat p) (Some (name_of t)) (-1) nx (value_of t) (first_start (S idx) (children t))
     (last_start (S idx) (children t)) :: layouts idx (S idx) (children t)) ++ B) !! idx =
     Some (mkDesc (Z.of_nat p) (Some (name_of t)) (-1) nx (value_of t) (first_start (S idx) (children t))
       (last_start (S idx) (children t)))) as Hl by (cbn [app]; by rewrite list_lookup_middle).
  destruct (rep_lookup _ _ _ _ Hrep Hl) as (nd & Hnd & Hok). unfold InputStructure.closeTag_at. rewrite Hnd. cbn [mbind res_bind].
  rewrite (ok_parent _ _ _ _ Hok). cbn [d_parent]. rewrite (proj2 (Z.ltb_ge _ _)) by lia.
  destruct (rep_lookup _ _ _ _ Hrep Hp) as (pn & Hpn & Hokp). rewrite Hpn. cbn [mbind res_bind].
  rewrite (ok_last _ _ _ _ Hokp), Hlast, Z.eqb_refl. cbn [negb].
  unfold InputStructure.isArrayNode. rewrite Hnd. cbn [mbind res_bind]. rewrite (ok_first _ _ _ _ Hok). cbn [d_first].
  destruct (children t) as [|c cs] eqn:Ec; [done|]. cbn [first_start]. rewrite (proj2 (Z.eqb_neq _ _)) by lia.
  unfold InputStructure.siblings. set (d0 := mkDesc _ _ _ _ _ _ _) in *.
  assert (represents st ((A ++ [d0]) ++ layouts idx (length (A ++ [d0])) (c :: cs) ++ B)) as Hrep2.
  { rewrite length_app, Nat.add_1_r, <- app_assoc. exact Hrep. }
  assert (length (A ++ [d0]) = S idx) as HS by (rewrite length_app; cbn; lia).
  pose proof (siblings_layouts st idx (c :: cs) (A ++ [d0]) B (length (InputStructure.m_nodemem st)) Hrep2 ltac:(done)) as Hs.
  rewrite HS in Hs. rewrite Hs.
  - cbn [mbind res_bind starts map InputStructure.array_children].
    assert (((A ++ [d0]) ++ layouts idx (length (A ++ [d0])) (c :: cs) ++ B) !! S idx =
      Some (mkDesc (Z.of_nat idx) (Some (name_of c)) (-1) (match cs with [] => 0 | _ => S idx + size c end) (value_of c)
        (first_start (S (S idx)) (children c)) (last_start (S (S idx)) (children c)))) as Hc.
    { rewrite HS, layouts_cons, layout_eq. cbn [app]. rewrite list_lookup_middle by done. done. }
    destruct (rep_lookup _ _ _ _ Hrep2 Hc) as (cd & Hcd & Hokc). rewrite Hcd. cbn [mbind res_bind].
    destruct (ok_name _ _ _ _ Hokc) as [_ (nam & _ & Hpos & _)]. rewrite (proj2 (Z.eqb_neq (m_tagstr cd) 0)) by lia. done.
  - rewrite (rep_length _ _ Hrep2), !length_app, layouts_length. pose proof (sizes_length (c :: cs)). lia.
Qed.

(** ** Printing a document *)

Section Print.
Context (toint : Variant -> res Z).
Abbreviation print_all := (ClosureInput.print_all toint).
Abbreviation structure := ClosureInput.m_structure.

Lemma print_all_app es es' s :
  print_all s (es ++ es') = match print_all s es with Ok s' => print_all s' es' | Throw e => Throw e | OutOfFuel => OutOfFuel end.
Proof.
  revert s. induction es as [|[type v] es IH]; intros s; [done|]. cbn [app ClosureInput.print_all].
  destruct (ClosureInput.print toint s type v); cbn; [apply IH|done|done].
Qed.

(** A state with the nodes [D] at the place of the node [p]. *)
Record at_node (s : ClosureInput.t) (D : list desc) (p : nat) : Prop := {
  at_rep : represents (structure s) D;
  at_visitor : InputStructure.m_visitor (structure s) = Z.of_nat p
}.

(** The room that is left for nodes, names and values. *)
Definition room (s : ClosureInput.t) (D : list desc) (nodes names : nat) : Prop :=
  Z.of_nat (length D + nodes) <= 2 ^ 31 /\ Z.of_nat (used (structure s) + names) < 2 ^ 31 /\
  Z.of_nat (length (InputStructure.m_content (structure s)) + nodes) <= 2 ^ 31.

Definition spent (s s' : ClosureInput.t) (nodes names : nat) : Prop :=
  (used (structure s') <= used (structure s) + names)%nat /\
  (length (InputStructure.m_content (structure s')) <= length (InputStructure.m_content (structure s)) + nodes)%nat.

Definition prints (t : tree) : Prop := forall s D p,
  at_node s D p -> last_ok D p -> clean t = true -> room s D (size t) (text t) ->
  exists s', print_all s (events t) = Ok s' /\
    at_node s' (add_child p D ++ layout p (length D) 0 t) p /\ spent s s' (size t) (text t).

Lemma rep_visitor st D x : represents st D -> represents (InputStructure.set_visitor st x) D.
Proof. intros [? ? ? ? ? ?]. by split. Qed.

Lemma print_open s D p n type :
  type = VmTransactionInputFilter.OpenTag \/ type = VmTransactionInputFilter.Attribute ->
  at_node s D p -> last_ok D p -> TagTable.nul ∉ SelectorPath.chars n -> room s D 1 (S (String.length n)) ->
  exists s', ClosureInput.print toint s type (Str n) = Ok s' /\
    at_node s' (add_child p D ++ [parent_desc (Z.of_nat p) (Some n) None (S (length D)) []]) (length D) /\
    spent s s' 0 (S (String.length n)) /\ ClosureInput.m_lasttype s' = type.
Proof.
  intros Htype [Hrep Hv] Hlast Hnul (Hr1 & Hr2 & Hr3).
  destruct (node_opened toint _ _ _ n Hrep Hlast ltac:(lia) Hnul Hr2) as (st' & Ho & Hrep' & [Hu Hc Hvis]).
  assert (ClosureInput.print toint s type (Str n) =
    Ok (ClosureInput.mk (InputStructure.set_visitor st' (Z.of_nat (length D))) type)) as ->.
  { unfold ClosureInput.print, InputStructure.openTag. rewrite Hv, Ho. by destruct Htype as [-> | ->]. }
  eexists. split; [reflexivity|]. split; [|split; [|done]].
  - split; [|done]. by apply rep_visitor.
  - split; cbn; [exact Hu|lia].
Qed.

Lemma print_leaf s A d p v :
  p = length A -> at_node s (A ++ [d]) p -> d_value d = None ->
  Z.of_nat (length (InputStructure.m_content (structure s)) + 1) <= 2 ^ 31 ->
  ClosureInput.m_lasttype s <> VmTransactionInputFilter.Attribute ->
  exists s', ClosureInput.print toint s VmTransactionInputFilter.Value v = Ok s' /\
    at_node s' (A ++ [d_set_value d v]) p /\ spent s s' 1 0.
Proof.
  intros -> [Hrep Hv] Hval Hroom Htype.
  assert ((A ++ [d]) !! length A = Some d) as Hl by by rewrite list_lookup_middle.
  destruct (push_value_spec _ _ _ _ v Hrep Hl Hval ltac:(lia)) as (st' & Hp & Hrep' & [Hu Hc Hvis]).
  rewrite insert_middle in Hrep'. unfold ClosureInput.print, InputStructure.pushValue. rewrite Hv, Hp. cbn [mbind res_bind].
  rewrite bool_decide_false by done. eexists. split; [reflexivity|]. split; [|split; cbn; lia].
  split; [done|]. cbn. congruence.
Qed.

Lemma add_child_last D p :
  last_ok D p -> exists pd, add_child p D !! p = Some pd /\ d_last pd = length D.
Proof.
  intros (d & Hd & Hlast & _). unfold add_child. rewrite Hd. eexists. split.
  - apply list_lookup_insert_eq. apply lookup_lt_Some in Hd. destruct (D !! d_last d); [|done].
    destruct (_ =? _)%nat; [done|]. by rewrite length_insert.
  - by destruct (_ =? _)%nat.
Qed.

Lemma print_close s D p t :
  last_ok D p -> at_node s (add_child p D ++ layout p (length D) 0 t) (length D) ->
  forall st', st' = structure s -> InputStructure.closeTag st' = Ok (InputStructure.set_visitor st' (Z.of_nat p)).
Proof.
  intros Hlast [Hrep Hv] st' ->. unfold InputStructure.closeTag. rewrite Hv.
  destruct (add_child_last _ _ Hlast) as (pd & Hpd & Hpl).
  pose proof (close_spec (structure s) (add_child p D) [] p 0 t pd) as Hclose. cbn zeta in Hclose.
  rewrite add_child_length, app_nil_r in Hclose. rewrite Hclose; try done.
  by rewrite lookup_app_l_Some with (x := pd).
Qed.

Lemma print_attr n v : prints (Attr n v).
Proof.
  intros s D p Hat Hlast Hclean (Hr1 & Hr2 & Hr3). cbn in Hclean, Hr1, Hr2, Hr3. apply bool_decide_eq_true in Hclean.
  destruct (print_open s D p n VmTransactionInputFilter.Attribute) as (s1 & H1 & Hat1 & (Hu & Hc) & Htype); try done;
    [by right|].
  cbn [events ClosureInput.print_all]. rewrite H1. cbn [mbind res_bind].
  unfold ClosureInput.print, InputStructure.pushValue. destruct Hat1 as [Hrep1 Hv1]. rewrite Hv1.
  assert ((add_child p D ++ [parent_desc (Z.of_nat p) (Some n) None (S (length D)) []]) !! length D =
    Some (parent_desc (Z.of_nat p) (Some n) None (S (length D)) [])) as Hl.
  { rewrite <- (add_child_length p D). by rewrite list_lookup_middle. }
  destruct (push_value_spec _ _ _ _ v Hrep1 Hl eq_refl ltac:(lia)) as (st2 & -> & Hrep2 & [Hu2 Hc2 Hvis2]).
  cbn [mbind res_bind]. rewrite Htype, bool_decide_true by done.
  assert (represents st2 (add_child p D ++ layout p (length D) 0 (Attr n v))) as Hrep3.
  { rewrite <- (add_child_length p D) in Hrep2 at 1. rewrite insert_middle in Hrep2. exact Hrep2. }
  rewrite (print_close (ClosureInput.mk st2 VmTransactionInputFilter.Value) D p (Attr n v) Hlast); [|split; [done|cbn; congruence]|done].
  cbn [mbind res_bind]. eexists. split; [reflexivity|]. split; [|split; cbn; unfold used in *; cbn in *; lia].
  split; [by apply rep_visitor|done].
Qed.

(** Printing the trees [cs] into the node behind [A], that has the children [done] already. *)
Lemma print_forest cs : Forall prints cs -> forall s A parent name value xs,
  let idx := length A in
  let D ys := A ++ parent_desc parent name value (S idx) ys :: layouts idx (S idx) ys in
  at_node s (D xs) idx -> forallb clean cs = true -> room s (D xs) (sizes cs) (texts cs) ->
  exists s', print_all s (forest_events cs) = Ok s' /\ at_node s' (D (xs ++ cs)) idx /\ spent s s' (sizes cs) (texts cs).
Proof.
  induction 1 as [|c cs Hc _ IH]; intros s A parent name value xs idx D Hat Hclean Hroom.
  { exists s. split; [done|]. rewrite app_nil_r. split; [done|]. split; cbn; lia. }
  cbn [forallb] in Hclean. apply andb_true_iff in Hclean as [Hcl Hclean].
  destruct Hroom as (Hr1 & Hr2 & Hr3). rewrite sizes_cons in Hr1, Hr3. change (texts (c :: cs)) with (text c + texts cs)%nat in *.
  destruct (Hc s (D xs) idx) as (s1 & H1 & Hat1 & (Hu1 & Hc1)); [done|apply last_ok_parent|done|split_and!; lia|].
  assert (length (D xs) = (S idx + sizes xs)%nat) as Hlen.
  { unfold D. rewrite length_app. cbn [length]. rewrite layouts_length. lia. }
  rewrite Hlen in Hat1. unfold D in Hat1 at 1.
  pose proof (add_child_layouts A parent name value xs c) as Hadd. cbn zeta in Hadd. fold idx in Hadd.
  rewrite Hadd in Hat1.
  destruct (IH s1 A parent name value (xs ++ [c])) as (s2 & H2 & Hat2 & (Hu2 & Hc2)).
  - exact Hat1.
  - done.
  - split_and!; [|lia|lia]. rewrite length_app. cbn [length]. rewrite layouts_length, forest_sizes_app.
    rewrite Hlen in Hr1. unfold idx in Hr1. unfold sizes at 2. cbn. lia.
  - unfold forest_events. cbn [map concat]. rewrite print_all_app, H1.
    exists s2. split; [exact H2|]. rewrite <- app_assoc in Hat2. split; [exact Hat2|]. rewrite sizes_cons. split; lia.
Qed.

Lemma print_elem n v cs : Forall prints cs -> prints (Elem n v cs).
Proof.
  intros Hcs s D p Hat Hlast Hclean (Hr1 & Hr2 & Hr3). cbn [clean] in Hclean. apply andb_true_iff in Hclean as [Hn Hclean].
  apply bool_decide_eq_true in Hn. cbn [size text] in Hr1, Hr2, Hr3. fold (sizes cs) (texts cs) in *.
  destruct (print_open s D p n VmTransactionInputFilter.OpenTag) as (s1 & H1 & Hat1 & (Hu1 & Hc1) & Htype); try done;
    [by left|split_and!; lia|].
  assert (exists s2, print_all s1 (match v with Some v => [(VmTransactionInputFilter.Value, v)] | None => [] end) = Ok s2 /\
    at_node s2 (add_child p D ++ [parent_desc (Z.of_nat p) (Some n) v (S (length D)) []]) (length D) /\ spent s1 s2 1 0)
    as (s2 & H2 & Hat2 & (Hu2 & Hc2)).
  { destruct v as [v|]; [|exists s1; split; [done|]; split; [done|]; split; lia].
    destruct (print_leaf s1 _ _ (length D) v (eq_sym (add_child_length p D)) Hat1 eq_refl) as (s2 & H2 & Hat2 & Hs2).
    - lia.
    - by rewrite Htype.
    - exists s2. cbn [ClosureInput.print_all]. rewrite H2. done. }
  destruct (print_forest cs Hcs s2 (add_child p D) (Z.of_nat p) (Some n) v []) as (s3 & H3 & Hat3 & (Hu3 & Hc3)).
  - cbn [layouts]. rewrite add_child_length. exact Hat2.
  - done.
  - split_and!; [|lia|lia]. rewrite length_app, add_child_length. cbn. lia.
  - cbn zeta in Hat3. cbn [app] in Hat3. rewrite add_child_length in Hat3.
    assert (at_node s3 (add_child p D ++ layout p (length D) 0 (Elem n v cs)) (length D)) as Hat4 by (rewrite layout_eq; exact Hat3).
    cbn [events ClosureInput.print_all]. rewrite H1. cbn [mbind res_bind]. rewrite print_all_app, H2, print_all_app.
    unfold forest_events in H3. rewrite H3. cbn [ClosureInput.print_all]. unfold ClosureInput.print.
    rewrite (print_close s3 D p _ Hlast Hat4 _ eq_refl). cbn [mbind res_bind].
    eexists. split; [reflexivity|]. split; [split; [by apply rep_visitor, Hat4|done]|].
    split; cbn [structure ClosureInput.m_structure]; cbn [InputStructure.set_visitor InputStructure.m_content]; unfold used in *; cbn [InputStructure.set_visitor InputStructure.m_privatetagmap size text]; fold (sizes cs) (texts cs); lia.
Qed.

Lemma print_tree t : prints t.
Proof. induction t using tree_rose_ind; [apply print_attr|by apply print_elem]. Qed.

(** The elements of a document printed into an empty structure. *)
Lemma print_document ts :
  forallb clean ts = true -> Z.of_nat (sizes ts) < 2 ^ 31 -> Z.of_nat (texts ts) < 2 ^ 31 - 2 ->
  exists s, print_all (ClosureInput.make tagmap) (forest_events ts) = Ok s /\
    represents (structure s) (document ts) /\ InputStructure.m_visitor (structure s) = 0.
Proof.
  intros Hclean Hsize Htext.
  destruct (print_forest ts) with (s := ClosureInput.make tagmap) (A := @nil desc) (parent := -1) (name := @None string)
    (value := @None Variant) (xs := @nil tree) as (s & H1 & [Hrep Hv] & _).
  - apply Forall_forall. intros t _. apply print_tree.
  - split; [|done]. split; [|done|apply TagTableFacts.ok_make_tags|cbn; lia|done|done]. constructor; [|constructor]. by split.
  - done.
  - split_and!; cbn; unfold used; cbn; lia.
  - exists s. done.
Qed.

End Print.
End Represents.
