(* ===== verification/InputSelect.v ===== *)
(** * Selecting nodes of a document

    What a path selects in a document, as a function on the document itself, and the theorem
    that the selection over the nodes of the input structure (vm/selectorPath.cpp and
    vm/inputStructure.cpp) gives the positions of exactly these nodes, in this order. *)
From S2P Require Import Prelude Variant ValueTupleSet TdlTables SelectorPath Transaction InputStructure InputLayout.

(** ** Places in a document: the indices of the children on the way from the root *)

Abbreviation place := (list nat).

Fixpoint forest_at (ts : list tree) (x : place) : option (list tree) :=
  match x with
  | [] => Some ts
  | i :: x' => match ts !! i with Some t => forest_at (children t) x' | None => None end
  end.

Fixpoint tree_at (ts : list tree) (x : place) : option tree :=
  match x with
  | [] => None
  | i :: x' => match ts !! i with
               | Some t => match x' with [] => Some t | _ => tree_at (children t) x' end
               | None => None
               end
  end.

Definition value_at (ts : list tree) (x : place) : option Variant := tree_at ts x ≫= value_of.

(** The position of a place in the layout; [p] is the position of the node with the children
    [ts]. *)
Fixpoint pos_from (p : nat) (ts : list tree) (x : place) : nat :=
  match x with
  | [] => p
  | i :: x' => match ts !! i with
               | Some t => pos_from (S p + sizes (take i ts)) (children t) x'
               | None => p
               end
  end.
Definition pos (ts : list tree) (x : place) : nat := pos_from 0 ts x.

(** ** Selection in a document *)

Section Select.
Context (tagmap : TagTable.t).

(** A name fits a tag of a path: the tag of all names, or one that is the same in the sense
    of the table (up to case, if the table is not case sensitive). *)
Definition name_test (tag : Z) (name : string) : bool :=
  (tag =? 0) ||
  match TagTable.getstr tagmap tag with
  | Ok (Some nam) => bool_decide (TagTable.key tagmap nam = TagTable.key tagmap name)
  | _ => false
  end.

(** The children from the index [i] on. *)
Fixpoint select_children (tag : Z) (x : place) (i : nat) (ts : list tree) : list place :=
  match ts with
  | [] => []
  | t :: ts' => (if name_test tag (name_of t) then [x ++ [i]] else []) ++ select_children tag x (S i) ts'
  end.

(** Everything below a node in document order. *)
Fixpoint select_below (tag : Z) (x : place) (t : tree) : list place :=
  match t with
  | Attr _ _ => []
  | Elem _ _ cs =>
      (fix go (i : nat) (cs : list tree) : list place :=
         match cs with
         | [] => []
         | c :: cs' => ((if name_test tag (name_of c) then [x ++ [i]] else []) ++ select_below tag (x ++ [i]) c) ++ go (S i) cs'
         end) 0%nat cs
  end.

Fixpoint select_forest (tag : Z) (x : place) (i : nat) (cs : list tree) : list place :=
  match cs with
  | [] => []
  | c :: cs' => ((if name_test tag (name_of c) then [x ++ [i]] else []) ++ select_below tag (x ++ [i]) c) ++ select_forest tag x (S i) cs'
  end.

(** [None] for the parent of the root. *)
Definition select_step (ts : list tree) (e : SelectorPath.Element) (x : place) : option (list place) :=
  match SelectorPath.m_type e with
  | SelectorPath.Find => cs ← forest_at ts x; Some (select_forest (SelectorPath.m_tag e) x 0 cs)
  | SelectorPath.Current => Some [x]
  | SelectorPath.Root => Some [[]]
  | SelectorPath.Next => cs ← forest_at ts x; Some (select_children (SelectorPath.m_tag e) x 0 cs)
  | SelectorPath.Up => match x with [] => None | _ => Some [removelast x] end
  end.

Fixpoint select_steps (ts : list tree) (e : SelectorPath.Element) (xs : list place) : option (list place) :=
  match xs with
  | [] => Some []
  | x :: xs' => ys ← select_step ts e x; zs ← select_steps ts e xs'; Some (ys ++ zs)
  end.

Fixpoint select_path (ts : list tree) (path : SelectorPath.t) (xs : list place) : option (list place) :=
  match path with
  | [] => Some xs
  | e :: path' => ys ← select_steps ts e xs; select_path ts path' ys
  end.

Definition select (ts : list tree) (path : SelectorPath.t) (x : place) : option (list place) :=
  select_path ts path [x].

(** The tags of a path are those of names in the table. *)
Definition registered (path : SelectorPath.t) : Prop :=
  Forall (fun e => SelectorPath.m_tag e = 0 \/
    (2 <= SelectorPath.m_tag e /\ exists nam, TagTable.find tagmap nam = SelectorPath.m_tag e)) path.

(** ** Names *)

Lemma find_entry nam i :
  TagTableFacts.ok tagmap -> TagTable.find tagmap nam = i -> i <> 0 ->
  exists nam', TagTable.key tagmap nam' = TagTable.key tagmap nam /\ TagTable.getstr tagmap i = Ok (Some nam').
Proof.
  intros Hok Hf Hi. unfold TagTable.find in Hf. destruct (StdMap.find _ _) as [j|] eqn:E; [|lia]. subst j.
  destruct (TagTableFacts.ok_names _ Hok _ _ E) as (nam' & Hk & Ht). exists nam'. split; [done|].
  by apply TagTableFacts.tag_at_getstr.
Qed.

Lemma find_key nam nam' : TagTable.key tagmap nam = TagTable.key tagmap nam' -> TagTable.find tagmap nam = TagTable.find tagmap nam'.
Proof. unfold TagTable.find. by intros ->. Qed.

Lemma name_test_matches tag name :
  TagTableFacts.ok tagmap -> tag = 0 \/ (2 <= tag /\ exists nam, TagTable.find tagmap nam = tag) ->
  (tag =? 0) || (tag_of tagmap name =? tag) = name_test tag name.
Proof.
  intros Hok [->|(Htag & nam & Hf)]; [done|]. unfold name_test. rewrite (proj2 (Z.eqb_neq tag 0)) by lia. cbn [orb].
  destruct (find_entry nam tag Hok Hf ltac:(lia)) as (nam' & Hk & ->).
  unfold tag_of. apply eq_bool_prop_intro. rewrite bool_decide_spec.
  destruct (Z.eqb_spec (TagTable.find tagmap name) 0) as [E|E].
  - change TagTable.unused with 1. rewrite (proj2 (Z.eqb_neq 1 tag)) by lia. split; [done|]. intros H.
    rewrite Hk in H. rewrite <- (find_key _ _ H) in E. lia.
  - destruct (Z.eqb_spec (TagTable.find tagmap name) tag) as [E2|E2]; split; try done.
    + intros _. destruct (find_entry name tag Hok E2 ltac:(lia)) as (nam2 & Hk2 & Hg2).
      destruct (find_entry nam tag Hok Hf ltac:(lia)) as (nam3 & Hk3 & Hg3). congruence.
    + intros H. rewrite Hk in H. rewrite <- (find_key _ _ H) in E2. lia.
Qed.

(** ** Places and positions *)

Lemma forest_at_snoc ts x i :
  forest_at ts (x ++ [i]) = cs ← forest_at ts x; t ← cs !! i; Some (children t).
Proof.
  revert ts. induction x as [|j x IH]; intros ts; cbn [app forest_at].
  - cbn. by destruct (ts !! i).
  - destruct (ts !! j); [apply IH|done].
Qed.

Lemma pos_from_snoc x i : forall p ts cs t,
  forest_at ts x = Some cs -> cs !! i = Some t ->
  pos_from p ts (x ++ [i]) = (S (pos_from p ts x) + sizes (take i cs))%nat.
Proof.
  induction x as [|j x IH]; intros p ts cs t Hx Hi; cbn [app pos_from forest_at] in *.
  - injection Hx as <-. rewrite Hi. done.
  - destruct (ts !! j); [|done]. by eapply IH.
Qed.

Lemma tree_at_snoc x i : forall ts cs,
  forest_at ts x = Some cs -> tree_at ts (x ++ [i]) = cs !! i.
Proof.
  induction x as [|j x IH]; intros ts cs Hx; cbn [app tree_at forest_at] in *.
  - injection Hx as <-. by destruct (ts !! i).
  - destruct (ts !! j) as [t|]; [|done]. destruct (x ++ [i]) eqn:E; [by destruct x|]. by apply IH.
Qed.

(** A list of trees around one of them. *)
Lemma layouts_split p i t : forall b cs, cs !! i = Some t ->
  exists L R, layouts p b cs = L ++ layout p (b + sizes (take i cs))
      (if (S i <? length cs)%nat then b + sizes (take (S i) cs) else 0)%nat t ++ R /\ length L = sizes (take i cs).
Proof.
  induction i as [|i IH]; intros b [|c cs] Hi; try done; rewrite layouts_cons.
  - injection Hi as ->. exists [], (layouts p (b + size t) cs). split; [|done]. cbn [take app].
    replace (b + sizes [])%nat with b by (unfold sizes; cbn; lia). do 2 f_equal.
    destruct (Nat.ltb_spec 1 (length (t :: cs))) as [H|H]; destruct cs; cbn [length] in H; try lia; [].
    unfold sizes. cbn. lia.
  - destruct (IH (b + size c)%nat cs Hi) as (L & R & HL & Hlen).
    exists (layout p b (match cs with [] => 0 | _ => b + size c end)%nat c ++ L), R. rewrite HL. split.
    + rewrite <- app_assoc. change (take (S i) (c :: cs)) with (c :: take i cs).
      change (take (S (S i)) (c :: cs)) with (c :: take (S i) cs). rewrite !sizes_cons, !Nat.add_assoc. done.
    + rewrite length_app, layout_length, Hlen. cbn [take]. by rewrite sizes_cons.
Qed.
Lemma select_below_eq tag x t : select_below tag x t = select_forest tag x 0 (children t).
Proof.
  destruct t as [n v|n v cs]; [done|]. cbn [select_below children]. generalize 0%nat.
  induction cs as [|c cs IH]; intros i; [done|]. cbn [select_forest]. by rewrite IH.
Qed.

(** Where the node of a place is in the layout of the document. *)
Record located (ts : list tree) (x : place) (cs : list tree) (A : list desc) (d : desc) (B : list desc) : Prop := {
  loc_split : document ts = A ++ d :: layouts (pos ts x) (S (pos ts x)) cs ++ B;
  loc_length : length A = pos ts x;
  loc_first : d_first d = first_start (S (pos ts x)) cs;
  loc_parent : d_parent d = match x with [] => -1 | _ => Z.of_nat (pos ts (removelast x)) end;
  loc_value : d_value d = value_at ts x;
  loc_name : d_name d = option_map name_of (tree_at ts x)
}.

Lemma place_located ts x : forall cs, forest_at ts x = Some cs -> exists A d B, located ts x cs A d B.
Proof.
  induction x as [|i x IH] using rev_ind; intros cs Hx.
  - injection Hx as <-. exists [], (root_desc ts), []. split; try done. by rewrite app_nil_r.
  - rewrite forest_at_snoc in Hx. destruct (forest_at ts x) as [cs0|] eqn:E; [|done]. cbn in Hx.
    destruct (cs0 !! i) as [t|] eqn:Ei; [|done]. cbn in Hx. injection Hx as <-.
    destruct (IH cs0 eq_refl) as (A & d & B & [H1 H2 H3 H4 H5 H6]).
    assert (pos ts (x ++ [i]) = (S (pos ts x) + sizes (take i cs0))%nat) as Hpos by by apply (pos_from_snoc _ _ _ _ cs0 t).
    destruct (layouts_split (pos ts x) i t (S (pos ts x)) cs0 Ei) as (L & R & HL & Hlen).
    rewrite layout_eq, <- Hpos in HL.
    exists (A ++ d :: L). eexists. exists (R ++ B). split.
    + rewrite H1, HL. repeat (cbn [app]; rewrite <- ?app_assoc). reflexivity.
    + rewrite length_app. cbn [length]. rewrite H2, Hlen, Hpos. lia.
    + done.
    + cbn [d_parent]. rewrite removelast_last. by destruct x.
    + cbn [d_value]. unfold value_at. by rewrite (tree_at_snoc _ _ _ cs0 E), Ei.
    + cbn [d_name]. by rewrite (tree_at_snoc _ _ _ cs0 E), Ei.
Qed.

Lemma value_at_root ts : value_at ts [] = None.
Proof. done. Qed.

(** The positions of the children. *)
Lemma child_positions ts x cs A d B :
  located ts x cs A d B -> forest_at ts x = Some cs ->
  forall k t, cs !! k = Some t -> starts (S (pos ts x)) cs !! k = Some (pos ts (x ++ [k])).
Proof.
  intros _ Hx k t Hk. assert (pos ts (x ++ [k]) = (S (pos ts x) + sizes (take k cs))%nat) as -> by by apply (pos_from_snoc _ _ _ _ cs t).
  clear Hx. revert k Hk. generalize (S (pos ts x)). induction cs as [|c cs IH]; intros b [|k] Hk; try done; cbn [starts lookup list_lookup].
  - unfold sizes. cbn. f_equal. lia.
  - rewrite (IH _ _ Hk). cbn [take]. rewrite sizes_cons. f_equal. lia.
Qed.

(** ** The selection over the nodes *)

Section Selection.
Context (st : InputStructure.t) (ts : list tree).
Context (Hrep : represents tagmap st (document ts)) (Hok : TagTableFacts.ok tagmap).

Lemma node_at x cs :
  forest_at ts x = Some cs -> exists A d B nd, located ts x cs A d B /\
    InputStructure.node st (Z.of_nat (pos ts x)) = Ok nd /\
    ok_node tagmap (InputStructure.m_privatetagmap st) (InputStructure.m_content st) d nd.
Proof using Hrep.
  intros Hx. destruct (place_located ts x cs Hx) as (A & d & B & Hloc). exists A, d, B.
  assert (document ts !! pos ts x = Some d) as Hl.
  { rewrite (loc_split _ _ _ _ _ _ Hloc), <- (loc_length _ _ _ _ _ _ Hloc). by rewrite list_lookup_middle. }
  destruct (rep_lookup _ _ _ _ _ Hrep Hl) as (nd & H1 & H2). by exists nd.
Qed.

Lemma siblings_at x cs A d B :
  located ts x cs A d B -> cs <> [] ->
  InputStructure.siblings st (Z.of_nat (S (pos ts x))) = Ok (map Z.of_nat (starts (S (pos ts x)) cs)).
Proof using Hrep.
  intros [H1 H2 _ _ _ _] Hne. unfold InputStructure.siblings.
  assert (S (pos ts x) = length (A ++ [d])) as Hl by (rewrite length_app; cbn; lia).
  rewrite Hl. apply (siblings_layouts tagmap st (pos ts x) cs (A ++ [d]) B).
  - rewrite <- Hl, <- app_assoc. cbn [app]. rewrite <- H1. exact Hrep.
  - done.
  - rewrite (rep_length _ _ _ Hrep), H1, length_app. cbn [length]. rewrite length_app, layouts_length.
    pose proof (sizes_length cs). lia.
Qed.

Abbreviation positions xs := (map (fun x => Z.of_nat (pos ts x)) xs).

Lemma test_node x i t tag nd d :
  tag = 0 \/ (2 <= tag /\ exists nam, TagTable.find tagmap nam = tag) ->
  tree_at ts (x ++ [i]) = Some t -> d_name d = option_map name_of (tree_at ts (x ++ [i])) ->
  ok_node tagmap (InputStructure.m_privatetagmap st) (InputStructure.m_content st) d nd ->
  InputStructure.matches tag nd = name_test tag (name_of t).
Proof using Hok.
  intros Htag Ht Hn [_ H _ _ _ _ _]. rewrite Hn, Ht in H. cbn in H. destruct H as [H _].
  unfold InputStructure.matches. rewrite H. by apply name_test_matches.
Qed.

(** The loop of [next] over the children from the index [i] on. *)
Lemma next_loop tag x cs0 : forall cs i,
  tag = 0 \/ (2 <= tag /\ exists nam, TagTable.find tagmap nam = tag) ->
  forest_at ts x = Some cs0 -> drop i cs0 = cs ->
  res_flat_map (fun ci => cd ← InputStructure.node st ci; Ok (if InputStructure.matches tag cd then [ci] else []))
    (map Z.of_nat (starts (S (pos ts x) + sizes (take i cs0)) cs)) = Ok (positions (select_children tag x i cs)).
Proof using Hrep Hok.
  induction cs as [|c cs IH]; intros i Htag Hx Hd; [done|].
  assert (cs0 !! i = Some c) as Hi.
  { rewrite <- (Nat.add_0_r i), <- lookup_drop, Hd. done. }
  assert (pos ts (x ++ [i]) = (S (pos ts x) + sizes (take i cs0))%nat) as Hpos by by apply (pos_from_snoc _ _ _ _ cs0 c).
  assert (forest_at ts (x ++ [i]) = Some (children c)) as Hf by (rewrite forest_at_snoc, Hx; cbn; by rewrite Hi).
  cbn [starts map res_flat_map]. rewrite <- Hpos. destruct (node_at _ _ Hf) as (A & d & B & nd & Hloc & Hnd & Hokn).
  rewrite Hnd. cbn [mbind res_bind]. rewrite (test_node x i c tag nd d Htag); [|by rewrite (tree_at_snoc _ _ _ cs0 Hx)|apply Hloc|done].
  replace (pos ts (x ++ [i]) + size c)%nat with (S (pos ts x) + sizes (take (S i) cs0))%nat.
  2:{ rewrite Hpos, (take_S_r _ _ _ Hi), forest_sizes_app.
      replace (sizes [c]) with (size c) by (unfold sizes; cbn; lia). lia. }
  rewrite (IH (S i) Htag Hx).
  - cbn [mbind res_bind select_children]. rewrite map_app. by destruct (name_test tag (name_of c)).
  - by rewrite (drop_S _ _ _ Hi) in Hd; injection Hd.
Qed.

Lemma next_spec tag x cs nd :
  tag = 0 \/ (2 <= tag /\ exists nam, TagTable.find tagmap nam = tag) ->
  forest_at ts x = Some cs -> InputStructure.node st (Z.of_nat (pos ts x)) = Ok nd ->
  InputStructure.next st nd tag = Ok (positions (select_children tag x 0 cs)).
Proof using Hrep Hok.
  intros Htag Hx Hnd. destruct (node_at _ _ Hx) as (A & d & B & nd' & Hloc & Hnd' & Hokn).
  rewrite Hnd in Hnd'. injection Hnd' as <-. unfold InputStructure.next. rewrite (ok_first _ _ _ _ _ Hokn), (loc_first _ _ _ _ _ _ Hloc).
  destruct cs as [|c cs]; [done|]. cbn [first_start]. rewrite (proj2 (Z.eqb_neq _ _)) by lia.
  rewrite (siblings_at _ _ _ _ _ Hloc) by done. cbn [mbind res_bind].
  pose proof (next_loop tag x (c :: cs) (c :: cs) 0 Htag Hx eq_refl) as H. cbn [take] in H.
  change (sizes []) with 0%nat in H. rewrite Nat.add_0_r in H. exact H.
Qed.

(** One child in the loop of [find]. *)
Lemma find_loop fuel tag x cs0 :
  tag = 0 \/ (2 <= tag /\ exists nam, TagTable.find tagmap nam = tag) ->
  (forall x' cs' nd', forest_at ts x' = Some cs' -> InputStructure.node st (Z.of_nat (pos ts x')) = Ok nd' ->
     (sizes cs' < fuel)%nat -> InputStructure.find_from fuel st nd' tag = Ok (positions (select_forest tag x' 0 cs'))) ->
  forest_at ts x = Some cs0 -> forall cs i, drop i cs0 = cs -> (sizes cs <= fuel)%nat ->
  res_flat_map (fun ci =>
      cd ← InputStructure.node st ci;
      below ← (if m_firstchild cd =? 0 then Ok [] else InputStructure.find_from fuel st cd tag);
      Ok ((if InputStructure.matches tag cd then [ci] else []) ++ below))
    (map Z.of_nat (starts (S (pos ts x) + sizes (take i cs0)) cs)) = Ok (positions (select_forest tag x i cs)).
Proof using Hrep Hok.
  intros Htag IHf Hx. induction cs as [|c cs IH]; intros i Hd Hfuel; [done|].
  assert (cs0 !! i = Some c) as Hi by (rewrite <- (Nat.add_0_r i), <- lookup_drop, Hd; done).
  assert (pos ts (x ++ [i]) = (S (pos ts x) + sizes (take i cs0))%nat) as Hpos by by apply (pos_from_snoc _ _ _ _ cs0 c).
  assert (forest_at ts (x ++ [i]) = Some (children c)) as Hf by (rewrite forest_at_snoc, Hx; cbn; by rewrite Hi).
  rewrite sizes_cons in Hfuel. pose proof (size_eq c) as Hsz.
  cbn [starts map res_flat_map]. rewrite <- Hpos. destruct (node_at _ _ Hf) as (A & d & B & nd & Hloc & Hnd & Hokn).
  rewrite Hnd. cbn [mbind res_bind]. rewrite (test_node x i c tag nd d Htag); [|by rewrite (tree_at_snoc _ _ _ cs0 Hx)|apply Hloc|done].
  assert ((if m_firstchild nd =? 0 then Ok [] else InputStructure.find_from fuel st nd tag) =
    Ok (positions (select_below tag (x ++ [i]) c))) as ->.
  { rewrite select_below_eq. destruct (Z.eqb_spec (m_firstchild nd) 0) as [E|E]; [|apply (IHf _ _ _ Hf Hnd); lia].
    rewrite (ok_first _ _ _ _ _ Hokn), (loc_first _ _ _ _ _ _ Hloc) in E. by destruct (children c). }
  replace (pos ts (x ++ [i]) + size c)%nat with (S (pos ts x) + sizes (take (S i) cs0))%nat.
  2:{ rewrite Hpos, (take_S_r _ _ _ Hi), forest_sizes_app. replace (sizes [c]) with (size c) by (unfold sizes; cbn; lia). lia. }
  cbn [mbind res_bind]. rewrite (IH (S i)).
  - cbn [mbind res_bind select_forest]. rewrite !map_app. by destruct (name_test tag (name_of c)).
  - by rewrite (drop_S _ _ _ Hi) in Hd; injection Hd.
  - lia.
Qed.

Lemma find_spec tag :
  tag = 0 \/ (2 <= tag /\ exists nam, TagTable.find tagmap nam = tag) ->
  forall fuel x cs nd, forest_at ts x = Some cs -> InputStructure.node st (Z.of_nat (pos ts x)) = Ok nd ->
  (sizes cs < fuel)%nat -> InputStructure.find_from fuel st nd tag = Ok (positions (select_forest tag x 0 cs)).
Proof using Hrep Hok.
  intros Htag. induction fuel as [|fuel IH]; intros x cs nd Hx Hnd Hfuel; [lia|].
  destruct (node_at _ _ Hx) as (A & d & B & nd' & Hloc & Hnd' & Hokn).
  rewrite Hnd in Hnd'. injection Hnd' as <-. cbn [InputStructure.find_from].
  rewrite (ok_first _ _ _ _ _ Hokn), (loc_first _ _ _ _ _ _ Hloc).
  destruct cs as [|c cs]; [done|]. cbn [first_start]. rewrite (proj2 (Z.eqb_neq _ _)) by lia.
  rewrite (siblings_at _ _ _ _ _ Hloc) by done. cbn [mbind res_bind].
  pose proof (find_loop fuel tag x (c :: cs) Htag IH Hx (c :: cs) 0 eq_refl ltac:(lia)) as H. cbn [take] in H.
  change (sizes []) with 0%nat in H. rewrite Nat.add_0_r in H. exact H.
Qed.

Lemma forest_at_size x : forall us cs, forest_at us x = Some cs -> (sizes cs <= sizes us)%nat.
Proof using.
  induction x as [|i x IH]; intros us cs Hx; [injection Hx as <-; lia|]. cbn in Hx.
  destruct (us !! i) as [t|] eqn:E; [|done]. specialize (IH _ _ Hx). apply take_drop_middle in E. rewrite <- E, forest_sizes_app, sizes_cons.
  pose proof (size_eq t). lia.
Qed.

Lemma step_spec e x :
  SelectorPath.m_tag e = 0 \/ (2 <= SelectorPath.m_tag e /\ exists nam, TagTable.find tagmap nam = SelectorPath.m_tag e) ->
  is_Some (forest_at ts x) ->
  SelectNodes.select_element st e (Z.of_nat (pos ts x)) =
  match select_step ts e x with
  | Some ys => Ok (positions ys)
  | None => Throw (RuntimeError "selecting /.. from root")
  end.
Proof using Hrep Hok.
  intros Htag [cs Hx]. destruct (node_at _ _ Hx) as (A & d & B & nd & Hloc & Hnd & Hokn).
  unfold SelectNodes.select_element, select_step. destruct (SelectorPath.m_type e); try done; rewrite ?Hnd, ?Hx; cbn [mbind res_bind option_bind].
  - by apply next_spec.
  - unfold InputStructure.find. apply find_spec; try done.
    rewrite (rep_length _ _ _ Hrep). unfold document. cbn [length]. rewrite layouts_length.
    pose proof (forest_at_size _ _ _ Hx). lia.
  - unfold InputStructure.up. rewrite (ok_parent _ _ _ _ _ Hokn), (loc_parent _ _ _ _ _ _ Hloc).
    destruct x as [|i x]; [done|]. rewrite (proj2 (Z.eqb_neq _ _)) by lia. done.
Qed.

(** Places stay places. *)
Lemma select_children_valid tag x cs0 cs : forall i,
  forest_at ts x = Some cs0 -> drop i cs0 = cs -> Forall (fun y => is_Some (forest_at ts y)) (select_children tag x i cs).
Proof using.
  induction cs as [|c cs IH]; intros i Hx Hd; cbn [select_children]; [constructor|].
  assert (cs0 !! i = Some c) as Hi by (rewrite <- (Nat.add_0_r i), <- lookup_drop, Hd; done).
  apply Forall_app. split.
  - destruct (name_test _ _); constructor; [|constructor]. rewrite forest_at_snoc, Hx. cbn. by rewrite Hi.
  - apply IH; [done|]. by rewrite (drop_S _ _ _ Hi) in Hd; injection Hd.
Qed.

Lemma select_forest_valid tag n : forall x cs0 cs i,
  (sizes cs < n)%nat -> forest_at ts x = Some cs0 -> drop i cs0 = cs ->
  Forall (fun y => is_Some (forest_at ts y)) (select_forest tag x i cs).
Proof using.
  induction n as [|n IHn]; intros x cs0 cs i Hn Hx Hd; [lia|]. revert i Hd Hn.
  induction cs as [|c cs IH]; intros i Hd Hn; cbn [select_forest]; [constructor|].
  assert (cs0 !! i = Some c) as Hi by (rewrite <- (Nat.add_0_r i), <- lookup_drop, Hd; done).
  assert (forest_at ts (x ++ [i]) = Some (children c)) as Hf by (rewrite forest_at_snoc, Hx; cbn; by rewrite Hi).
  rewrite sizes_cons in Hn. pose proof (size_eq c).
  apply Forall_app. split; [apply Forall_app; split|].
  - destruct (name_test _ _); constructor; [|constructor]. by rewrite Hf.
  - rewrite select_below_eq. by apply (IHn _ (children c)); [lia| |].
  - apply IH; [|lia]. by rewrite (drop_S _ _ _ Hi) in Hd; injection Hd.
Qed.

Lemma forest_at_parent x : is_Some (forest_at ts x) -> is_Some (forest_at ts (removelast x)).
Proof using.
  destruct x as [|i x _] using rev_ind; [done|]. rewrite removelast_last, forest_at_snoc.
  by destruct (forest_at ts x).
Qed.

Lemma step_valid e x ys :
  is_Some (forest_at ts x) -> select_step ts e x = Some ys -> Forall (fun y => is_Some (forest_at ts y)) ys.
Proof using.
  intros Hx. pose proof (forest_at_parent x Hx) as Hp. destruct Hx as [cs Hx]. unfold select_step. rewrite ?Hx. cbn.
  destruct (SelectorPath.m_type e); [intros [= <-]..|]; try (repeat constructor; by rewrite ?Hx).
  - by eapply select_children_valid.
  - apply (select_forest_valid _ (S (sizes cs)) x cs); [lia|done|done].
  - destruct x; [done|]. intros [= <-]. by repeat constructor.
Qed.

Lemma steps_spec e xs :
  SelectorPath.m_tag e = 0 \/ (2 <= SelectorPath.m_tag e /\ exists nam, TagTable.find tagmap nam = SelectorPath.m_tag e) ->
  Forall (fun x => is_Some (forest_at ts x)) xs ->
  res_flat_map (SelectNodes.select_element st e) (positions xs) =
  match select_steps ts e xs with
  | Some ys => Ok (positions ys)
  | None => Throw (RuntimeError "selecting /.. from root")
  end /\
  (forall ys, select_steps ts e xs = Some ys -> Forall (fun y => is_Some (forest_at ts y)) ys).
Proof using Hrep Hok.
  intros Htag. induction 1 as [|x xs Hx _ [IH1 IH2]]; [split; [done|intros ys [= <-]; constructor]|].
  cbn [map res_flat_map select_steps]. rewrite step_spec by done.
  destruct (select_step ts e x) as [ys|] eqn:E; cbn [mbind res_bind option_bind]; [|split; done].
  rewrite IH1. destruct (select_steps ts e xs) as [zs|]; cbn; [|split; done].
  split; [by rewrite map_app|]. intros ? [= <-]. apply Forall_app. split; [by eapply step_valid|by apply IH2].
Qed.

Lemma path_spec path : forall xs,
  registered path -> Forall (fun x => is_Some (forest_at ts x)) xs ->
  SelectNodes.select_from st path (positions xs) =
  match select_path ts path xs with
  | Some ys => Ok (positions ys)
  | None => Throw (RuntimeError "selecting /.. from root")
  end.
Proof using Hrep Hok.
  induction path as [|e path IH]; intros xs Hreg Hxs; [done|]. apply Forall_cons in Hreg as [He Hreg].
  cbn [SelectNodes.select_from select_path]. destruct (steps_spec e xs He Hxs) as [-> Hv].
  destruct (select_steps ts e xs) as [ys|]; [|done]. cbn [mbind res_bind option_bind]. apply IH; [done|]. by apply Hv.
Qed.

Lemma skip_current_select path : forall xs, select_path ts (SelectNodes.skip_current path) xs = select_path ts path xs.
Proof using.
  induction path as [|e path IH]; intros xs; [done|]. cbn [SelectNodes.skip_current].
  case_bool_decide as E; [|done]. rewrite IH. cbn [select_path].
  replace (select_steps ts e xs) with (Some xs); [done|]. induction xs as [|x xs IHxs]; [done|].
  cbn [select_steps]. rewrite <- IHxs. unfold select_step. by rewrite E.
Qed.

Lemma skip_current_registered path : registered path -> registered (SelectNodes.skip_current path).
Proof using.
  induction 1 as [|e path He Hp IH]; [constructor|]. cbn. case_bool_decide; [done|]. by constructor.
Qed.

Lemma select_nodes_spec path x :
  registered path -> is_Some (forest_at ts x) ->
  SelectNodes.selectNodes path st (Z.of_nat (pos ts x)) =
  match select ts path x with
  | Some ys => Ok (positions ys)
  | None => Throw (RuntimeError "selecting /.. from root")
  end.
Proof using Hrep Hok.
  intros Hreg Hx. unfold SelectNodes.selectNodes, select. rewrite <- skip_current_select.
  apply (path_spec _ [x]); [by apply skip_current_registered|by repeat constructor].
Qed.

Lemma select_valid path x ys :
  is_Some (forest_at ts x) -> registered path -> select ts path x = Some ys ->
  Forall (fun y => is_Some (forest_at ts y)) ys.
Proof using Hrep Hok.
  intros Hx Hreg. unfold select. assert (Forall (fun y => is_Some (forest_at ts y)) [x]) as Hxs by by repeat constructor.
  revert Hxs. generalize [x]. clear x Hx. induction path as [|e path IH]; intros xs Hxs; cbn [select_path]; [by intros [= <-]|].
  apply Forall_cons in Hreg as [He Hreg]. destruct (steps_spec e xs He Hxs) as [_ Hv].
  destruct (select_steps ts e xs) as [zs|]; [|done]. cbn [option_bind mbind]. intros H. eapply IH; [done| |exact H]. by apply Hv.
Qed.

Lemma content_spec x nd :
  is_Some (forest_at ts x) -> InputStructure.node st (Z.of_nat (pos ts x)) = Ok nd ->
  InputStructure.contentvalue st nd = Ok (value_at ts x).
Proof using Hrep.
  intros [cs Hx] Hnd. destruct (node_at _ _ Hx) as (A & d & B & nd' & Hloc & Hnd' & Hokn).
  rewrite Hnd in Hnd'. injection Hnd' as <-. pose proof (ok_value _ _ _ _ _ Hokn) as Hv.
  rewrite (loc_value _ _ _ _ _ _ Hloc) in Hv. unfold InputStructure.contentvalue.
  destruct (value_at ts x) as [v|]; [|by rewrite Hv]. destruct Hv as [Hpos Hv].
  rewrite (proj2 (Z.eqb_neq _ _)) by lia. by rewrite Hv.
Qed.

End Selection.
End Select.

(** ** The tags of a path that was made with a table *)

(** The tags of a table are positions behind the two that are used for no name. *)
Definition tags_ok (tab : TagTable.t) : Prop :=
  TagTableFacts.ok tab /\ forall k i, StdMap.find k (TagTable.m_map tab) = Some i -> 2 <= i.

Lemma tags_ok_make b : tags_ok (TagTable.make b).
Proof. split; [apply TagTableFacts.ok_make_tags|done]. Qed.

(** Entering a name keeps the tags of the others. *)
Lemma get_keeps tab n nam i :
  TagTable.find tab nam = i -> 2 <= i -> TagTable.find (TagTable.get tab n).1 nam = i.
Proof.
  unfold TagTable.find, TagTable.get. intros Hf Hi.
  destruct (StdMap.find (TagTable.key tab n) (TagTable.m_map tab)) as [j|] eqn:E; [done|].
  cbn [fst]. unfold TagTable.key at 1. cbn [TagTable.m_case_sensitive TagTable.m_map].
  change (if TagTable.m_case_sensitive tab then nam else to_lower_copy nam) with (TagTable.key tab nam).
  destruct (decide (TagTable.key tab nam = TagTable.key tab n)) as [Hk|Hk].
  - rewrite Hk, E in Hf. lia.
  - by rewrite StdMap.find_set_ne by done.
Qed.

Lemma get_registers tab n :
  tags_ok tab -> TagTable.nul ∉ SelectorPath.chars n -> TagTableFacts.fits (TagTable.get tab n).1 ->
  tags_ok (TagTable.get tab n).1 /\ 2 <= (TagTable.get tab n).2 /\
  TagTable.find (TagTable.get tab n).1 n = (TagTable.get tab n).2.
Proof.
  intros [Hok Hmin] Hnul Hfit. destruct (TagTableFacts.get_tag_spec tab n Hok Hnul Hfit) as (_ & Hok' & _ & _ & _).
  unfold TagTable.get, TagTableFacts.fits in *.
  destruct (StdMap.find (TagTable.key tab n) (TagTable.m_map tab)) as [j|] eqn:E; cbn [fst snd] in *.
  - split; [by split|]. split; [by eapply Hmin|]. unfold TagTable.find. by rewrite E.
  - cbn in Hfit. rewrite length_app in Hfit. pose proof (TagTableFacts.ok_start _ Hok).
    rewrite i32_small in * by lia. split; [split; [done|]|split; [lia|]].
    + cbn. intros k i. destruct (decide (k = TagTable.key tab n)) as [->|Hk].
      * rewrite StdMap.find_set_eq. intros [= <-]. lia.
      * rewrite StdMap.find_set_ne by done. apply Hmin.
    + unfold TagTable.find, TagTable.key at 1. cbn. change (if TagTable.m_case_sensitive tab then n else to_lower_copy n) with (TagTable.key tab n).
      by rewrite StdMap.find_set_eq.
Qed.

Lemma registered_grows tab n path : registered tab path -> registered (TagTable.get tab n).1 path.
Proof.
  intros H. eapply Forall_impl; [exact H|]. intros e [He|(He & nam & Hn)]; [by left|]. right. split; [done|].
  exists nam. by apply get_keeps.
Qed.

Section MakePath.
Import SelectorPath.

Lemma tag_element_registers selector type tagnam tm e tm' path :
  tags_ok tm -> TagTable.nul ∉ tagnam -> registered tm path ->
  tag_element selector type tagnam tm = Ok (e, tm') -> TagTableFacts.fits tm' ->
  tags_ok tm' /\ registered tm' (match e with Some e => path ++ [e] | None => path end).
Proof.
  intros Hok Hnul Hreg. unfold tag_element. destruct tagnam as [|c tagnam]; [done|].
  repeat case_bool_decide; try done; try (intros [= <- <-] _; split; [done|];
    first [exact Hreg | apply Forall_app; split; [done|]; constructor; [by left|constructor]]).
  set (nam := str (c :: tagnam)). assert (TagTable.nul ∉ chars nam) as Hn.
  { unfold nam. by rewrite String.list_ascii_of_string_of_list_ascii. }
  pose proof (get_registers tm nam Hok Hn) as Hg. pose proof (registered_grows tm nam path Hreg) as Hr.
  destruct (TagTable.get tm nam) as [t1 tag]. cbn [fst snd] in *. intros [= <- <-] Hf.
  destruct (Hg Hf) as (Ho & Hmin & Hfind). split; [done|]. apply Forall_app. split; [done|].
  constructor; [|constructor]. right. split; [done|]. by exists nam.
Qed.

Lemma parse_loop_registers fuel selector : forall ii path tm path' tm',
  tags_ok tm -> TagTable.nul ∉ ii -> registered tm path ->
  parse_loop fuel selector ii path tm = Ok (path', tm') -> TagTableFacts.fits tm' ->
  tags_ok tm' /\ registered tm' path'.
Proof.
  induction fuel as [|fuel IH]; intros ii path tm path' tm' Hok Hnul Hp; cbn;
    destruct (read_separator ii) as [[type ii']|] eqn:Er; try done; try by intros [= <- <-].
  destruct (SelectorPathFacts.read_separator_suffix _ _ _ Er) as (pre & ->).
  pose proof (SelectorPathFacts.span_tag_app ii') as Hsp. destruct (span_tag ii') as [tagnam ii2]. cbn in Hsp.
  rewrite <- Hsp, !elem_of_app in Hnul.
  destruct (tag_element selector type tagnam tm) as [[e t1]| |] eqn:E; cbn; try done.
  intros Hl Hf. assert (TagTable.nul ∉ tagnam) as Hnt by naive_solver.
  destruct (tag_element_registers _ _ _ _ _ _ _ Hok Hnt Hp E) as (Ho & Hr).
  { eapply SelectorPathFacts.fits_prefix; [by eapply SelectorPathFacts.parse_loop_grows|done]. }
  eapply IH; [done| |exact Hr|exact Hl|done]. naive_solver.
Qed.

(** A path that is made with a table selects by names of the table. *)
Lemma make_registers selector tm path tm' :
  tags_ok tm -> TagTable.nul ∉ chars selector ->
  SelectorPath.make selector tm = Ok (path, tm') -> TagTableFacts.fits tm' -> tags_ok tm' /\ registered tm' path.
Proof.
  intros Hok Hnul. unfold SelectorPath.make. destruct (SelectorPathFacts.skip_blanks_suffix (chars selector)) as [pre Hpre].
  destruct (skip_blanks (chars selector)) as [|c ii] eqn:Es.
  { intros [= <- <-] _. split; [done|constructor]. }
  destruct (parse_loop _ _ _ _ _) as [[p t1]| |] eqn:E; cbn; try done.
  destruct (tostring p t1); cbn; try done. destruct (_ || _); [|done]. intros [= <- <-] Hf.
  eapply parse_loop_registers; [exact Hok| | |exact E|exact Hf].
  - rewrite Hpre, elem_of_app in Hnul. intros Hx; apply Hnul; by right.
  - constructor; [by left|constructor].
Qed.
End MakePath.

(** ** Documents and paths together *)


Definition example_document : list tree :=
  [Elem "doc" None
     [Elem "person" None [Attr "id" (Int 1); Elem "name" (Some (Str "Ada")) []];
      Elem "Person" None [Attr "ID" (Int 2); Elem "name" (Some (Str "Bob")) []; Elem "person" None [Attr "id" (Int 3)]]]]%string.

Definition example_path : SelectorPath.t * TagTable.t :=
  match SelectorPath.make "//person/id" (TagTable.make false) with Ok r => r | _ => ([], TagTable.make false) end.

