(* ===== verification/InputFilters.v ===== *)
(** * Reading from and writing to the input of transaction functions

    Models the classes [InputFilter] and [OutputFilter] of
    src/modules/cmdbind/tdl/vm/inputStructure.cpp: the filter that gives nodes of the input as
    parameters to a function, element by element, and the filter that writes the result of a
    function below a node of the input.  The structure is shared: the operations get it as an
    argument, and the writing filter returns it changed. *)
From S2P Require Import Prelude Variant ValueTupleSet TdlTables SelectorPath Transaction InputStructure.

(** The element types of filters, and an element. *)
Abbreviation ElementType := VmTransactionInputFilter.ElementType.
Abbreviation element := (ElementType * Variant)%type.
Abbreviation OpenTag := VmTransactionInputFilter.OpenTag.
Abbreviation CloseTag := VmTransactionInputFilter.CloseTag.
Abbreviation Attribute := VmTransactionInputFilter.Attribute.
Abbreviation Value := VmTransactionInputFilter.Value.

#[export] Existing Instance VmTransactionInputFilter.ElementType_eq_dec.

(** A parameter: its name and its node. *)
Definition NodeAssignment : Type := string * Z.

Module InputFilter.

(** A node on the way from the parameter to the node that is read; nodes are never null. *)
Record StackElement := mkStackElement {
  el_node : Z;
  childrenvisited : bool;
  valuevisited : bool;
  visitnext : bool;
  closetagcnt : Z
}.

(** The structure pointer is null at the end.  [m_nodes] are the parameters from the iterator
    on, the stack has its last element first, [m_buf] is what is left of the buffer. *)
Record t := mk {
  m_ended : bool;
  m_nodes : list NodeAssignment;
  m_stack : list StackElement;
  m_buf : list element;
  m_indices : bool;
  m_error : option string
}.

(** [createInputFilter]; the flag [SerializeWithIndices] is not set. *)
Definition make (nodes : list NodeAssignment) : t := mk false nodes [] [] false None.

Definition set_stack (f : t) (x : list StackElement) : t :=
  mk (m_ended f) (m_nodes f) x (m_buf f) (m_indices f) (m_error f).
Definition set_nodes (f : t) (x : list NodeAssignment) : t :=
  mk (m_ended f) x (m_stack f) (m_buf f) (m_indices f) (m_error f).
Definition push_buf (f : t) (x : list element) : t :=
  mk (m_ended f) (m_nodes f) (m_stack f) (m_buf f ++ x) (m_indices f) (m_error f).

Definition open_element (n : Z) (visitnext : bool) (closetagcnt : Z) : StackElement :=
  mkStackElement n false false visitnext closetagcnt.
Definition set_count (e : StackElement) (x : Z) : StackElement :=
  mkStackElement (el_node e) (childrenvisited e) (valuevisited e) (visitnext e) x.

Definition close : element := (CloseTag, Null).

Section Structure.
Context (st : InputStructure.t).

(** An element made from a null pointer measures its length. *)
Definition tag_of_node (nd : InputNode) : res Variant :=
  n ← InputStructure.tagname st nd;
  match n with
  | Some n => Ok (Str n)
  | None => Throw (Undefined "null pointer")
  end.

(** Nodes with a negative index are skipped. *)
Fixpoint skip_null (ns : list NodeAssignment) : list NodeAssignment :=
  match ns with
  | (nam, n) :: ns' => if n <? 0 then skip_null ns' else ns
  | [] => []
  end.

(** ** Going from a node [e] to its neighbour: the element, what is buffered, the new count *)

Definition to_neighbour (indices : bool) (e : StackElement) (tnod snod : InputNode) : res (list element * Z) :=
  if indices then
    if 0 <=? m_arrayindex snod then
      if (m_arrayindex tnod <? m_arrayindex snod) && (m_tag snod =? m_tag tnod) && (m_tagstr snod =? m_tagstr tnod)
      then Ok ([(OpenTag, Int (m_arrayindex snod))], closetagcnt e)
      else
        tag ← tag_of_node snod;
        if m_arrayindex tnod =? -1
        then Ok ([(OpenTag, tag); (OpenTag, Int (m_arrayindex snod))], closetagcnt e + 1)
        else Ok ([close; (OpenTag, tag); (OpenTag, Int (m_arrayindex snod))], closetagcnt e)
    else
      tag ← tag_of_node snod;
      if 0 <=? m_arrayindex tnod then Ok ([close; (OpenTag, tag)], closetagcnt e - 1)
      else Ok ([(OpenTag, tag)], closetagcnt e)
  else tag ← tag_of_node snod; Ok ([(OpenTag, tag)], closetagcnt e).

(** ** The node on the top [e] of the stack: the next element, or [None] behind its end *)

(** [if (!childrenvisited && node->m_firstchild)]: the first child is opened. *)
Definition open_child (f : t) (e : StackElement) (rest : list StackElement) (nd : InputNode) : res (t * element) :=
  let e := mkStackElement (el_node e) true (valuevisited e) (visitnext e) (closetagcnt e) in
  cnod ← InputStructure.node st (m_firstchild nd);
  tag ← tag_of_node cnod;
  if 0 <=? m_arrayindex cnod
  then Ok (push_buf (set_stack f (open_element (m_firstchild nd) true 2 :: e :: rest)) [(OpenTag, Int (m_arrayindex cnod))],
           (OpenTag, tag))
  else Ok (set_stack f (open_element (m_firstchild nd) true 1 :: e :: rest), (OpenTag, tag)).

(** [if (node->m_next && visitnext)]: the neighbour takes the place of the node. *)
Definition open_next (f : t) (e : StackElement) (rest : list StackElement) (nd : InputNode) : res (t * element) :=
  snod ← InputStructure.node st (m_next nd);
  '(buf, cnt) ← to_neighbour (m_indices f) e nd snod;
  Ok (push_buf (set_stack f (mkStackElement (m_next nd) false false (visitnext e) cnt :: rest)) buf, close).

(** The tags that are closed behind a node. *)
Definition close_tags (cnt : Z) : list element := replicate (Z.to_nat cnt) close.

Definition visit (f : t) (e : StackElement) (rest : list StackElement) : res (t * option element) :=
  nd ← InputStructure.node st (el_node e);
  if negb (childrenvisited e) && negb (m_firstchild nd =? 0) then
    '(f, x) ← open_child f e rest nd; Ok (f, Some x)
  else
    let behind (e : StackElement) : res (t * option element) :=
      if negb (m_next nd =? 0) && visitnext e then '(f, x) ← open_next f e rest nd; Ok (f, Some x)
      else Ok (push_buf (set_stack f rest) (close_tags (closetagcnt e)), None) in
    if negb (valuevisited e) then
      let e := mkStackElement (el_node e) (childrenvisited e) true (visitnext e) (closetagcnt e) in
      v ← InputStructure.contentvalue st nd;
      match v with
      | Some v => Ok (set_stack f (e :: rest), Some (Value, v))
      | None => behind e
      end
    else behind e.

(** ** [getNext]; [None] for false *)

Fixpoint next_loop (fuel : nat) (f : t) : res (t * option element) :=
  match fuel with
  | O => OutOfFuel
  | S fuel' =>
      match m_buf f with
      | x :: buf => Ok (mk (m_ended f) (m_nodes f) (m_stack f) buf (m_indices f) (m_error f), Some x)
      | [] =>
          match m_stack f with
          | e :: rest =>
              '(f, x) ← visit f e rest;
              match x with Some x => Ok (f, Some x) | None => next_loop fuel' f end
          | [] =>
              if m_ended f then
                Ok (mk true (m_nodes f) [] [] (m_indices f) (Some "internal: illegal call of input filter"%string), None)
              else
                match skip_null (m_nodes f) with
                | [] => Ok (mk true [] [] [] (m_indices f) (m_error f), Some close)
                | (nam, n) :: nodes =>
                    _ ← InputStructure.node st n;
                    let f := set_nodes f nodes in
                    if bool_decide (nam = ""%string) then
                      '(f, x) ← visit f (open_element n false 0) [];
                      match x with Some x => Ok (f, Some x) | None => next_loop fuel' f end
                    else Ok (set_stack f [open_element n false 1], Some (OpenTag, Str nam))
                end
          end
      end
  end.

(** Every round that does not return takes an element from the stack or a parameter. *)
Definition getNext (f : t) : res (t * option element) :=
  next_loop (S (length (m_stack f) + length (m_nodes f))) f.

End Structure.
End InputFilter.

Module OutputFilter.

Record t := mk {
  m_visitor : Z;
  m_lasttype : ElementType;
  m_taglevel : Z;
  m_sourcetags : gset Z
}.

Definition make (nv : Z) (sourcetags : gset Z) : t := mk nv Value 0 sourcetags.

Definition forbidden : exn := RuntimeError "forbidden assignment ot result to tag that already exists in input".

Section Convert.
Context (toint : Variant -> res Z).

(** The tag of a new node at the level of the result must not be one of the input. *)
Definition check_tag (f : t) (st : InputStructure.t) (level : Z) (nv : Z) : res unit :=
  if m_taglevel f =? level then
    nd ← InputStructure.node st nv;
    if bool_decide (m_tagstr nd ∈ m_sourcetags f) then Throw forbidden else Ok tt
  else Ok tt.

Definition print (f : t) (st : InputStructure.t) (type : ElementType) (element : Variant) : res (t * InputStructure.t) :=
  match type with
  | VmTransactionInputFilter.OpenTag =>
      '(st, nv) ← InputStructure.openTag_at toint st (m_visitor f) element;
      let f := mk nv type (i32 (m_taglevel f + 1)) (m_sourcetags f) in
      _ ← check_tag f st 1 nv;
      Ok (f, st)
  | VmTransactionInputFilter.CloseTag =>
      '(st, nv) ← InputStructure.closeTag_at st (m_visitor f);
      Ok (mk nv type (i32 (m_taglevel f - 1)) (m_sourcetags f), st)
  | VmTransactionInputFilter.Attribute =>
      '(st, nv) ← InputStructure.openTag_at toint st (m_visitor f) element;
      let f := mk nv type (m_taglevel f) (m_sourcetags f) in
      _ ← check_tag f st 0 nv;
      Ok (f, st)
  | VmTransactionInputFilter.Value =>
      st ← InputStructure.pushValue_at st (m_visitor f) element;
      '(st, nv) ← (if bool_decide (m_lasttype f = Attribute) then InputStructure.closeTag_at st (m_visitor f)
                   else Ok (st, m_visitor f));
      Ok (mk nv type (m_taglevel f) (m_sourcetags f), st)
  end.

End Convert.
End OutputFilter.
