(* ===== verification/TdlPreproc.v ===== *)
(** * Preprocessing the input of a transaction function

    Models the execution of preprocessing steps of
    src/modules/cmdbind/tdl/tdlTransactionPreprocStep.cpp ([call] with [expectArg] and
    [mapResult]).  The functions that are called are loaded from modules: they are
    parameters, with the input they get and the elements of their result. *)
From S2P Require Import Prelude Variant ValueTupleSet TdlTables SelectorPath Transaction InputStructure InputFilters ParseUtils DatabaseLanguage TdlParse TdlLoad.

(** ** The functions of the provider *)

(** What a function can read from: parameters in the input structure, or a part of the output
    of a transaction. *)
Inductive FunctionInput :=
| StructureInput (f : InputFilter.t) (st : InputStructure.t)
| OutputInput (f : VmTransactionInputFilter.t).

(** A call that needs more input, with the error of its input filter; or the elements of the
    result up to where [getNext] returns false, with the error of the result then. *)
Inductive FunctionCall :=
| Incomplete (err : option string)
| Completed (elements : list element) (err : option string).

(** A form function gets the flag [CaseInsensitiveCompare]. *)
Definition FormFunction : Type := bool -> FunctionInput -> res FunctionCall.
Definition NormalizeFunction : Type := Variant -> res Variant.

Record Provider := mkProvider {
  formFunction : string -> option FormFunction;
  normalizeFunction : string -> option NormalizeFunction
}.

Definition error_or {A} (err : option string) (msg : string) : res A :=
  Throw (RuntimeError (default msg err)).

Module PreprocCall.
Import Preproc.

Section Call.
Context (provider : Provider) (toint : Variant -> res Z).

(** ** Reading the argument of a normalization function *)

Definition expectArg (st : InputStructure.t) (f : InputFilter.t) (et : ElementType) (errmsg : string)
    : res (InputFilter.t * Variant) :=
  '(f, x) ← InputFilter.getNext st f;
  match x with
  | Some (it, iv) => if bool_decide (it = et) then Ok (f, iv) else Throw (RuntimeError errmsg)
  | None => error_or (InputFilter.m_error f) "unexpected end of input"
  end.

Definition atomic_expected : string :=
  "atomic value (pure or with single tag) expected as input of normalization function (got structure instead)".

(** [None] for a null value, with which the function is not executed. *)
Definition read_argument (st : InputStructure.t) (f : InputFilter.t) : res (option Variant) :=
  '(f, x) ← InputFilter.getNext st f;
  '(f, ev) ← match x with
             | Some (VmTransactionInputFilter.OpenTag, _) =>
                 '(f, ev) ← expectArg st f Value atomic_expected;
                 '(f, _) ← expectArg st f CloseTag atomic_expected; Ok (f, Some ev)
             | Some (VmTransactionInputFilter.Attribute, _) =>
                 '(f, ev) ← expectArg st f Value atomic_expected; Ok (f, Some ev)
             | Some (VmTransactionInputFilter.Value, ev) => Ok (f, Some ev)
             | Some (VmTransactionInputFilter.CloseTag, _) => Ok (f, None)
             | None => Ok (f, Some Null)
             end;
  match ev with
  | Some ev => _ ← expectArg st f CloseTag atomic_expected; Ok (Some ev)
  | None => Ok None
  end.

(** ** Writing the result of a form function *)

Fixpoint mapResult (es : list element) (err : option string) (taglevel : Z) (o : OutputFilter.t) (st : InputStructure.t)
    : res InputStructure.t :=
  match es with
  | [] => error_or err "unexpected end of message in result"
  | (et, ev) :: es' =>
      let taglevel := match et with
                      | VmTransactionInputFilter.OpenTag => taglevel + 1
                      | VmTransactionInputFilter.CloseTag => taglevel - 1
                      | _ => taglevel
                      end in
      if bool_decide (et = CloseTag) && (taglevel <? 0) then Ok st
      else '(o, st) ← OutputFilter.print toint o st et ev; mapResult es' err taglevel o st
  end.

(** ** The parts of a call *)

Section Step.
Context (step : TransactionStep).

Definition selector : res SelectorPath.t :=
  match m_selectors step !! 0%nat with
  | Some p => Ok p
  | None => Throw (OutOfRange "vector::at")
  end.

(** [1A]: the names on the way to the result exist, the last one is opened if it does not. *)
Fixpoint visit_path (st : InputStructure.t) (nv : Z) (path : list string) : res Z :=
  match path with
  | [] => Ok nv
  | n :: path' => nv ← InputStructure.visitTag st nv n; visit_path st nv path'
  end.

Definition result_node (st : InputStructure.t) (ni : Z) : res (InputStructure.t * Z) :=
  match last (m_resultpath step) with
  | None => Ok (st, ni)
  | Some n =>
      nv ← visit_path st ni (removelast (m_resultpath step));
      if bool_decide (n = "."%string) then Ok (st, nv) else InputStructure.visitOrOpenUniqTag st nv n
  end.

(** [1B]: the tags of the children of the result node are added to the map. *)
Definition source_tags (st : InputStructure.t) (nv : Z) (tags : gset Z) : res (gset Z) :=
  rn ← InputStructure.node st nv;
  if m_firstchild rn =? 0 then Ok tags
  else
    cs ← InputStructure.siblings st (m_firstchild rn);
    ts ← res_flat_map (fun ci => cd ← InputStructure.node st ci; Ok [m_tagstr cd]) cs;
    Ok (list_to_set ts ∪ tags).

Definition argument_name (a : Argument) : string := str (c_string (drop (parg_name a) (m_strings step))).

(** [2]: the nodes of the parameters; 0 for a parameter without a node, which is not assigned. *)
Fixpoint parameters (st : InputStructure.t) (ni : Z) (args : list Argument) (parameter : list Z) (assign : list NodeAssignment)
    (aidx : nat) : res (list NodeAssignment) :=
  match args with
  | [] => Ok assign
  | a :: args' =>
      match parg_type a with
      | SelectorPath_ =>
          path ← match m_selectors step !! parg_value a with
                 | Some p => Ok p
                 | None => Throw (OutOfRange "vector::at")
                 end;
          ns ← SelectNodes.selectNodes path st ni;
          let parameter := parameter ++ ns in
          if (length parameter =? aidx + 1)%nat then
            match last parameter with
            | Some n => parameters st ni args' parameter (assign ++ [(argument_name a, n)]) (S aidx)
            | None => Throw (Undefined "back of an empty vector")
            end
          else if (length parameter <? aidx + 1)%nat then parameters st ni args' (parameter ++ [0]) assign (S aidx)
          else Throw (RuntimeError ("referenced parameter '" +:+ argument_name a +:+ "' is not unique")%string)
      | LoopCounter =>
          Throw (RuntimeError "not implemented yet: Loop counter as parameter of TDL preprocessing step")
      | Constant => Throw (RuntimeError "not implemented yet: Constant as parameter of TDL preprocessing step")
      end
  end.

(** [3]: a form function hides a normalization function of the same name. *)
Definition call_function (st : InputStructure.t) (resultnode : Z) (tags : gset Z) (assign : list NodeAssignment)
    : res InputStructure.t :=
  let argfilter := InputFilter.make assign in
  match formFunction provider (m_function step), normalizeFunction provider (m_function step) with
  | None, Some nf =>
      ev ← read_argument st argfilter;
      match ev with
      | Some ev =>
          v ← nf ev;
          if bool_decide (m_resultpath step = []) then Ok st else InputStructure.pushValue_at st resultnode v
      | None => Ok st
      end
  | Some ff, _ =>
      c ← ff (negb (InputStructure.case_sensitive st)) (StructureInput argfilter st);
      match c with
      | Incomplete None => Throw (LogicError "internal: incomplete input")
      | Incomplete (Some err) => Throw (RuntimeError err)
      | Completed es err =>
          if bool_decide (m_resultpath step = []) then Ok st
          else mapResult es err 0 (OutputFilter.make resultnode tags) st
      end
  | None, None => Throw (RuntimeError "function not defined")
  end.

(** The loop over the selected nodes; a node that is selected again is skipped. *)
Fixpoint call_nodes (nodes : list Z) (seen tags : gset Z) (st : InputStructure.t) : res InputStructure.t :=
  match nodes with
  | [] => Ok st
  | ni :: nodes' =>
      if bool_decide (ni ∈ seen) then call_nodes nodes' seen tags st
      else
        '(st, resultnode) ← result_node st ni;
        tags ← source_tags st resultnode tags;
        assign ← parameters st ni (m_arguments step) [] [] 0;
        st ← call_function st resultnode tags assign;
        call_nodes nodes' ({[ni]} ∪ seen) tags st
  end.

Definition call (st : InputStructure.t) : res InputStructure.t :=
  match
    (path ← selector;
     nodes ← SelectNodes.selectNodes path st InputStructure.rootindex;
     call_nodes nodes ∅ ∅ st)
  with
  | Throw (RuntimeError msg) =>
      Throw (RuntimeError ("failed to call TDL preprocessing function '" +:+ m_function step +:+ "': " +:+ msg))
  | r => r
  end%string.
End Step.

(** [finalize]: all steps, one after the other. *)
Fixpoint finalize (steps : list TransactionStep) (st : InputStructure.t) : res InputStructure.t :=
  match steps with
  | [] => Ok st
  | s :: steps' => st ← call s st; finalize steps' st
  end.

End Call.
End PreprocCall.
