(* ===== verification/InputRead.v ===== *)
(** * What functions read from the input

    The filter [InputFilter] (vm/inputStructure.cpp) on the nodes of a document: the elements
    that a function gets for parameters, as a function on the document itself, and the theorem
    that the filter gives exactly these elements. *)
From S2P Require Import Prelude Variant ValueTupleSet TdlTables SelectorPath Transaction InputStructure InputLayout InputSelect InputFilters TdlPreproc.
Import InputFilter.

(** ** The elements of a part of a document *)

Definition value_elements (v : option Variant) : list element := match v with Some v => [(Value, v)] | None => [] end.

(** A node as a tag: what it contains comes before its value, attributes are tags. *)
Fixpoint opened (t : tree) : list element :=
  match t with
  | Attr n v => (OpenTag, Str n) :: value_elements (Some v) ++ [close]
  | Elem n v cs => (OpenTag, Str n) :: (concat (map opened cs) ++ value_elements v) ++ [close]
  end.

Definition content (cs : list tree) (v : option Variant) : list element := concat (map opened cs) ++ value_elements v.

Lemma opened_eq t : opened t = (OpenTag, Str (name_of t)) :: content (children t) (value_of t) ++ [close].
Proof. by destruct t. Qed.

(** A parameter, with the place of its node; a parameter without a name has no tag of its own. *)
Definition parameter_elements (ts : list tree) (param : string * place) : list element :=
  let c := content (default [] (forest_at ts param.2)) (value_at ts param.2) in
  if bool_decide (param.1 = ""%string) then c else (OpenTag, Str param.1) :: c ++ [close].

Definition input_elements (ts : list tree) (params : list (string * place)) : list element :=
  concat (map (parameter_elements ts) params) ++ [close].

(** ** Steps of the filter *)

Section Steps.
Context (st : InputStructure.t).

(** [n] elements; less at the end. *)
Fixpoint read (n : nat) (f : t) : res (t * list element) :=
  match n with
  | O => Ok (f, [])
  | S n' =>
      '(f, x) ← getNext st f;
      match x with
      | Some x => '(f, es) ← read n' f; Ok (f, x :: es)
      | None => Ok (f, [])
      end
  end.

Lemma next_loop_more n m f r : next_loop st n f = Ok r -> (n <= m)%nat -> next_loop st m f = Ok r.
Proof.
  revert m f. induction n as [|n IH]; intros m f Hn Hm; [done|]. destruct m as [|m]; [lia|]. cbn in Hn |- *.
  destruct (m_buf f); [|done]. destruct (m_stack f) as [|e rest].
  - destruct (m_ended f); [done|]. destruct (skip_null (m_nodes f)) as [|[nam i] ns]; [done|].
    destruct (InputStructure.node st i); cbn in Hn |- *; [|done..]. case_bool_decide; [|done].
    destruct (visit _ _ _ _) as [[f' [x|]]| |]; cbn in Hn |- *; try done. apply IH; [done|lia].
  - destruct (visit _ _ _ _) as [[f' [x|]]| |]; cbn in Hn |- *; try done. apply IH; [done|lia].
Qed.

(** The filter goes on without an element. *)
Definition passes (f f' : t) : Prop := forall r, getNext st f' = Ok r -> getNext st f = Ok r.

Inductive emits : t -> list element -> t -> Prop :=
| emits_nil f : emits f [] f
| emits_pass f f1 es f2 : passes f f1 -> emits f1 es f2 -> emits f es f2
| emits_next f x f1 es f2 : getNext st f = Ok (f1, Some x) -> emits f1 es f2 -> emits f (x :: es) f2.

Lemma emits_app f es f1 es' f2 : emits f es f1 -> emits f1 es' f2 -> emits f (es ++ es') f2.
Proof. induction 1; intros; cbn; [done|by eapply emits_pass; eauto|by eapply emits_next; eauto]. Qed.

Lemma emits_end f f' : emits f [] f' -> passes f f'.
Proof. intros He. remember [] as es. induction He as [f|f f1 es f2 Hp _ IH|]; [by intros r|intros r Hr; by apply Hp, IH|done]. Qed.

Lemma emits_first f x es f' : emits f (x :: es) f' -> exists f1, getNext st f = Ok (f1, Some x) /\ emits f1 es f'.
Proof.
  intros He. remember (x :: es) as xs. induction He as [f|f f1 xs f2 Hp _ IH|f y f1 ys f2 Hy He _]; [done| |].
  - destruct (IH Heqxs) as (g & Hg & He). exists g. split; [by apply Hp|done].
  - injection Heqxs as -> ->. by exists f1.
Qed.

Lemma emits_read es : forall f f', emits f es f' -> exists f1, read (length es) f = Ok (f1, es) /\ passes f1 f'.
Proof.
  induction es as [|x es IH]; intros f f' He.
  - exists f. split; [done|by apply emits_end].
  - destruct (emits_first _ _ _ _ He) as (f1 & Hf1 & He1). destruct (IH _ _ He1) as (f2 & Hf2 & Hp).
    exists f2. split; [|done]. cbn [read length]. rewrite Hf1. cbn [mbind res_bind]. by rewrite Hf2.
Qed.

(** The filter in a state without errors, not at its end. *)
Definition at_ (ns : list NodeAssignment) (stack : list StackElement) (buf : list element) : t :=
  mk false ns stack buf false None.

Lemma next_buffered ns stack x buf : getNext st (at_ ns stack (x :: buf)) = Ok (at_ ns stack buf, Some x).
Proof. reflexivity. Qed.

Lemma next_visited ns e rest f x : visit st (at_ ns (e :: rest) []) e rest = Ok (f, Some x) ->
  getNext st (at_ ns (e :: rest) []) = Ok (f, Some x).
Proof. intros Hv. unfold getNext. cbn [next_loop at_ m_buf m_stack]. fold (at_ ns (e :: rest) []). by rewrite Hv. Qed.

Lemma passes_visited ns e rest buf : visit st (at_ ns (e :: rest) []) e rest = Ok (at_ ns rest buf, None) ->
  passes (at_ ns (e :: rest) []) (at_ ns rest buf).
Proof.
  intros Hv r Hr. unfold getNext in *. cbn [at_ m_stack m_nodes length] in *. cbn [Nat.add].
  cbn [next_loop at_ m_buf m_stack]. fold (at_ ns (e :: rest) []). rewrite Hv. exact Hr.
Qed.

End Steps.

(** ** Reading a represented tree *)

Section Read.
Context (tagmap : TagTable.t) (st : InputStructure.t) (D : list desc) (Hrep : represents tagmap st D).

(** Elements that are the same but for the spelling of names of tags: a name has the spelling
    with which it was used first. *)
Definition same_name (n n' : string) : Prop := TagTable.key tagmap n = TagTable.key tagmap n'.
Definition same_element (x y : element) : Prop :=
  x.1 = y.1 /\ match x.1, x.2, y.2 with
               | VmTransactionInputFilter.OpenTag, Str n, Str n' => same_name n n'
               | _, v, v' => v = v'
               end.

Lemma same_refl x : same_element x x.
Proof. destruct x as [[] []]; by split. Qed.

(** The filter gives these elements, up to the spelling of names. *)
Definition gives (f : t) (spec : list element) (f' : t) : Prop :=
  exists es, Forall2 same_element spec es /\ emits st f es f'.

Lemma gives_nil f : gives f [] f.
Proof. exists []. split; constructor. Qed.

Lemma gives_app f es f1 es' f2 : gives f es f1 -> gives f1 es' f2 -> gives f (es ++ es') f2.
Proof.
  intros (xs & Hx & Hf) (ys & Hy & Hf1). exists (xs ++ ys). split; [by apply Forall2_app|]. by eapply emits_app.
Qed.

Lemma gives_next f y x f1 es f2 : getNext st f = Ok (f1, Some x) -> same_element y x -> gives f1 es f2 ->
  gives f (y :: es) f2.
Proof. intros Hx Hs (ys & Hy & Hf1). exists (x :: ys). split; [by constructor|]. by eapply emits_next. Qed.

Lemma gives_pass f f1 es f2 : passes st f f1 -> gives f1 es f2 -> gives f es f2.
Proof. intros Hp (ys & Hy & Hf1). exists ys. split; [done|]. by eapply emits_pass. Qed.

Lemma gives_closed ns stack k : gives (at_ ns stack (replicate k close)) (replicate k close) (at_ ns stack []).
Proof.
  induction k as [|k IH]; [apply gives_nil|]. cbn [replicate].
  eapply gives_next; [apply next_buffered|apply same_refl|exact IH].
Qed.

(** A node of the tree. *)
Lemma node_described p d : D !! p = Some d -> exists nd,
  InputStructure.node st (Z.of_nat p) = Ok nd /\ m_next nd = Z.of_nat (d_next d) /\ m_firstchild nd = Z.of_nat (d_first d) /\
  m_arrayindex nd = d_index d /\
  InputStructure.contentvalue st nd = Ok (d_value d) /\
  (forall n, d_name d = Some n -> exists n', tag_of_node st nd = Ok (Str n') /\ same_name n n').
Proof using Hrep.
  intros Hd. destruct (rep_lookup _ _ _ _ _ Hrep Hd) as (nd & Hnd & Hok). exists nd. split; [done|].
  destruct Hok as [_ Hname Hidx Hnext Hval Hfirst _]. split_and!; [done..| |].
  - unfold InputStructure.contentvalue. destruct (d_value d) as [v|]; [|by rewrite Hval].
    destruct Hval as [Hpos Hv]. rewrite (proj2 (Z.eqb_neq _ _)) by lia. by rewrite Hv.
  - intros n Hn. rewrite Hn in Hname. destruct Hname as [_ (n' & Hk & Ht)]. exists n'. split.
    + unfold tag_of_node, InputStructure.tagname. by rewrite (TagTableFacts.tag_at_getstr _ _ _ Ht).
    + unfold same_name, TagTable.key in *. by rewrite (rep_case _ _ _ Hrep) in Hk.
Qed.

(** The element of the stack for the node at [p]. *)
Definition el (p : nat) (cv vv vn : bool) (cnt : Z) : StackElement := mkStackElement (Z.of_nat p) cv vv vn cnt.

(** What the node contains and its value were given. *)
Definition read_up (d : desc) (cv vv : bool) : Prop := (cv = true \/ d_first d = 0%nat) /\ (vv = true \/ d_value d = None).

Lemma gives_value p d cv vn cnt ns rest : D !! p = Some d -> cv = true \/ d_first d = 0%nat ->
  exists vv, read_up d cv vv /\
    gives (at_ ns (el p cv false vn cnt :: rest) []) (value_elements (d_value d)) (at_ ns (el p cv vv vn cnt :: rest) []).
Proof using Hrep.
  intros Hd Hcv. destruct (node_described p d Hd) as (nd & Hnd & _ & Hfirst & _ & Hval & _).
  destruct (d_value d) as [v|] eqn:Ev; cbn [value_elements].
  - exists true. split; [split; by auto|]. eapply gives_next; [apply next_visited|apply same_refl|apply gives_nil].
    unfold visit, el. cbn [el_node]. rewrite Hnd. cbn [mbind res_bind childrenvisited valuevisited]. rewrite Hfirst.
    replace (negb cv && negb (Z.of_nat (d_first d) =? 0)) with false by (destruct Hcv as [->| ->]; [done|by destruct cv]).
    cbn [negb]. rewrite Hval. reflexivity.
  - exists false. split; [split; by auto|apply gives_nil].
Qed.

(** The node of an element that was read is left: its tags are closed, or its neighbour is
    opened. *)
Lemma visit_read p d cv vv vn cnt ns rest : D !! p = Some d -> read_up d cv vv ->
  exists nd vv', InputStructure.node st (Z.of_nat p) = Ok nd /\ m_next nd = Z.of_nat (d_next d) /\
    let f := at_ ns (el p cv vv vn cnt :: rest) [] in
    visit st f (el p cv vv vn cnt) rest =
      if negb (m_next nd =? 0) && vn then '(f, x) ← open_next st f (el p cv vv' vn cnt) rest nd; Ok (f, Some x)
      else Ok (at_ ns rest (close_tags cnt), None).
Proof using Hrep.
  intros Hd [Hcv Hvv]. destruct (node_described p d Hd) as (nd & Hnd & Hnext & Hfirst & _ & Hval & _).
  exists nd, true. split; [done|]. split; [done|]. unfold visit, el. cbn [el_node]. rewrite Hnd.
  cbn [mbind res_bind childrenvisited valuevisited visitnext closetagcnt]. rewrite Hfirst.
  replace (negb cv && negb (Z.of_nat (d_first d) =? 0)) with false by (destruct Hcv as [->| ->]; [done|by destruct cv]).
  destruct vv; cbn [negb]; [done|]. destruct Hvv as [|Hvv]; [done|]. by rewrite Hval, Hvv.
Qed.

Lemma gives_left p d cv vv vn k ns rest : D !! p = Some d -> read_up d cv vv -> vn = false \/ d_next d = 0%nat ->
  gives (at_ ns (el p cv vv vn (Z.of_nat k) :: rest) []) (replicate k close) (at_ ns rest []).
Proof using Hrep.
  intros Hd Hr Hvn. destruct (visit_read p d cv vv vn (Z.of_nat k) ns rest Hd Hr) as (nd & vv' & _ & Hnext & Hv).
  eapply gives_pass; [eapply passes_visited|apply gives_closed]. rewrite Hv, Hnext.
  replace (negb (Z.of_nat (d_next d) =? 0) && vn) with false by (destruct Hvn as [->| ->]; [by rewrite andb_false_r|done]).
  unfold close_tags. by rewrite Nat2Z.id.
Qed.

Lemma gives_neighbour p d cv vv cnt ns rest d' n : D !! p = Some d -> read_up d cv vv -> d_next d <> 0%nat ->
  D !! d_next d = Some d' -> d_name d' = Some n ->
  gives (at_ ns (el p cv vv true cnt :: rest) []) [close; (OpenTag, Str n)]
    (at_ ns (el (d_next d) false false true cnt :: rest) []).
Proof using Hrep.
  intros Hd Hr Hn0 Hd' Hn. destruct (visit_read p d cv vv true cnt ns rest Hd Hr) as (nd & vv' & _ & Hnext & Hv).
  destruct (node_described _ _ Hd') as (nd' & Hnd' & _ & _ & _ & _ & Hname).
  destruct (Hname n Hn) as (n' & Htag & Hsame).
  eapply (gives_next _ _ close); [apply next_visited| |].
  - rewrite Hv, Hnext. rewrite (proj2 (Z.eqb_neq _ _)) by lia. cbn [negb andb]. unfold open_next. rewrite Hnext, Hnd'.
    cbn [mbind res_bind]. unfold to_neighbour. cbn [at_ m_indices]. rewrite Htag. cbn. reflexivity.
  - by split.
  - eapply gives_next; [apply next_buffered|by split|apply gives_nil].
Qed.

(** The first child, which is not in an array, is opened. *)
Lemma gives_child p d vn cnt ns rest d' n : D !! p = Some d -> d_first d <> 0%nat ->
  D !! d_first d = Some d' -> d_name d' = Some n -> d_index d' = -1 ->
  gives (at_ ns (el p false false vn cnt :: rest) []) [(OpenTag, Str n)]
    (at_ ns (el (d_first d) false false true 1 :: el p true false vn cnt :: rest) []).
Proof using Hrep.
  intros Hd Hf0 Hd' Hn Hi. destruct (node_described _ _ Hd) as (nd & Hnd & _ & Hfirst & _ & _ & _).
  destruct (node_described _ _ Hd') as (nd' & Hnd' & _ & _ & Hidx & _ & Hname). destruct (Hname n Hn) as (n' & Htag & Hsame).
  eapply gives_next; [apply next_visited| |apply gives_nil].
  - unfold visit, el. cbn [el_node]. rewrite Hnd. cbn [mbind res_bind childrenvisited]. rewrite Hfirst.
    rewrite (proj2 (Z.eqb_neq _ _)) by lia. cbn [negb andb]. unfold open_child. rewrite Hfirst, Hnd'. cbn [mbind res_bind].
    rewrite Htag. cbn [mbind res_bind]. rewrite Hidx, Hi. cbn. reflexivity.
  - by split.
Qed.

(** ** Trees *)

(** What a node at [p] with the value [v] contains is given completely. *)
Definition content_given (p : nat) (cs : list tree) (d : desc) : Prop := forall vn cnt ns rest,
  exists cv vv, read_up d cv vv /\
    gives (at_ ns (el p false false vn cnt :: rest) []) (content cs (d_value d)) (at_ ns (el p cv vv vn cnt :: rest) []).

Definition tree_given (t : tree) : Prop := forall A B p nx,
  D = A ++ layout p (length A) nx t ++ B ->
  content_given (length A) (children t) (mkDesc (Z.of_nat p) (Some (name_of t)) (-1) nx (value_of t)
    (first_start (S (length A)) (children t)) (last_start (S (length A)) (children t))).

(** A tree from its node on to the end of its neighbours. *)
Lemma forest_given cs : forall c A B p ns rest, Forall tree_given (c :: cs) ->
  D = A ++ layouts p (length A) (c :: cs) ++ B ->
  gives (at_ ns (el (length A) false false true 1 :: rest) [])
    (content (children c) (value_of c) ++ [close] ++ concat (map opened cs)) (at_ ns rest []).
Proof using Hrep.
  induction cs as [|c' cs IH]; intros c A B p ns rest Hall HD; apply Forall_cons in Hall as [Hc Hall];
    rewrite layouts_cons in HD.
  - rewrite app_nil_r in HD. destruct (Hc _ _ _ _ HD true 1 ns rest) as (cv & vv & Hr & Hg).
    eapply gives_app; [exact Hg|]. eapply (gives_left _ _ _ _ _ 1); [|exact Hr|by right].
    rewrite HD, layout_eq. cbn [app]. by rewrite list_lookup_middle.
  - rewrite <- app_assoc in HD. destruct (Hc _ _ _ _ HD true 1 ns rest) as (cv & vv & Hr & Hg).
    eapply gives_app; [exact Hg|]. cbn [map concat]. rewrite opened_eq.
    set (A' := A ++ layout p (length A) (length A + size c) c).
    assert (length A' = (length A + size c)%nat) as HA' by (unfold A'; by rewrite length_app, layout_length).
    assert (D = A' ++ layouts p (length A') (c' :: cs) ++ B) as HD' by (by rewrite HD, HA'; unfold A'; rewrite <- app_assoc).
    specialize (IH c' A' B p ns rest Hall HD'). cbn [app] in IH |- *. rewrite <- app_assoc. cbn [app].
    eapply (gives_app _ [close; (OpenTag, Str (name_of c'))]); [|exact IH].
    rewrite HA'. eapply gives_neighbour with (d := mkDesc _ _ _ (length A + size c) _ _ _); [|exact Hr| | |].
    + rewrite HD, layout_eq. cbn [app]. by rewrite list_lookup_middle.
    + pose proof (tree_size_pos c). cbn [d_next]. lia.
    + cbn [d_next]. rewrite <- HA', HD', layouts_cons, layout_eq. cbn [app]. by rewrite list_lookup_middle.
    + done.
Qed.

Lemma node_given A d B cs : Forall tree_given cs ->
  D = A ++ d :: layouts (length A) (S (length A)) cs ++ B -> d_first d = first_start (S (length A)) cs ->
  content_given (length A) cs d.
Proof using Hrep.
  intros Hall HD Hfirst vn cnt ns rest.
  assert (D !! length A = Some d) as Hd by (by rewrite HD, list_lookup_middle).
  destruct cs as [|c cs].
  { destruct (gives_value (length A) d false vn cnt ns rest Hd (or_intror Hfirst)) as (vv & Hr & Hg). by exists false, vv. }
  destruct (gives_value (length A) d true vn cnt ns rest Hd (or_introl eq_refl)) as (vv & Hr & Hg).
  exists true, vv. split; [exact Hr|]. unfold content. eapply gives_app; [|exact Hg]. cbn [map concat]. rewrite opened_eq.
  assert (D = (A ++ [d]) ++ layouts (length A) (length (A ++ [d])) (c :: cs) ++ B) as HD'.
  { rewrite length_app, <- app_assoc. cbn [length app]. by rewrite Nat.add_1_r. }
  cbn [first_start] in Hfirst. cbn [app].
  eapply (gives_app _ [_]); [eapply gives_child; [exact Hd|by rewrite Hfirst| | |]|].
  - rewrite Hfirst, HD', layouts_cons, layout_eq. cbn [app].
    replace (S (length A)) with (length (A ++ [d])) by (rewrite length_app; cbn; lia). by rewrite list_lookup_middle.
  - done.
  - done.
  - rewrite Hfirst. replace (S (length A)) with (length (A ++ [d])) by (rewrite length_app; cbn; lia).
    rewrite <- app_assoc. cbn [app]. by eapply forest_given.
Qed.

Lemma trees_given t : tree_given t.
Proof using Hrep.
  induction t as [n v|n v cs Hall] using tree_rose_ind; intros A B p nx HD; rewrite layout_eq in HD; cbn [app children] in HD.
  - by eapply (node_given A _ B []).
  - by eapply (node_given A _ B cs).
Qed.

End Read.

(** ** Parameters *)

(** The filter behind the last element: it must not be asked for more. *)
Definition at_end : t := mk true [] [] [] false None.

Lemma end_refused st : getNext st at_end = Ok (mk true [] [] [] false (Some "internal: illegal call of input filter"%string), None).
Proof. reflexivity. Qed.

(** The nodes of parameters. *)
Definition parameter_nodes (ts : list tree) (params : list (string * place)) : list NodeAssignment :=
  map (fun p => (p.1, Z.of_nat (pos ts p.2))) params.

Section Parameters.
Context (tagmap : TagTable.t) (st : InputStructure.t) (ts : list tree) (Hrep : represents tagmap st (document ts)).

Lemma place_given x cs : forest_at ts x = Some cs ->
  exists d, document ts !! pos ts x = Some d /\ d_value d = value_at ts x /\ content_given tagmap st (pos ts x) cs d.
Proof using Hrep.
  intros Hx. destruct (place_located ts x cs Hx) as (A & d & B & [H1 H2 H3 H4 H5 H6]). exists d.
  split; [by rewrite H1, <- H2, list_lookup_middle|]. split; [done|]. rewrite <- H2.
  apply (node_given tagmap st (document ts) Hrep A d B cs); [|by rewrite H2|by rewrite H2].
  apply Forall_forall. intros t _. by apply trees_given.
Qed.

Lemma parameter_given nam x ns : is_Some (forest_at ts x) ->
  gives tagmap st (at_ ((nam, Z.of_nat (pos ts x)) :: ns) [] []) (parameter_elements ts (nam, x)) (at_ ns [] []).
Proof using Hrep.
  intros [cs Hx]. destruct (place_given x cs Hx) as (d & Hd & Hv & Hg).
  destruct (node_described tagmap st _ Hrep _ d Hd) as (nd & Hnd & _).
  unfold parameter_elements. cbn [fst snd]. rewrite Hx, <- Hv. cbn [default]. case_bool_decide as Hnam.
  - destruct (Hg false 0 ns []) as (cv & vv & Hr & Hg1). rewrite <- (app_nil_r (content _ _)).
    eapply gives_pass; [|eapply gives_app; [exact Hg1|by eapply (gives_left _ _ _ Hrep _ _ _ _ _ 0); [exact Hd|exact Hr|left]]].
    intros r Hnext. unfold getNext, at_ in Hnext |- *. cbn [m_stack m_nodes length Nat.add next_loop m_buf m_ended skip_null] in Hnext |- *.
    rewrite (proj2 (Z.ltb_ge _ _)) by lia. rewrite Hnd. cbn [mbind res_bind]. rewrite bool_decide_true by done.
    exact Hnext.
  - destruct (Hg false 1 ns []) as (cv & vv & Hr & Hg1).
    eapply gives_next; [|apply same_refl|eapply gives_app; [exact Hg1|by eapply (gives_left _ _ _ Hrep _ _ _ _ _ 1); [exact Hd|exact Hr|left]]].
    unfold getNext, at_. cbn [m_stack m_nodes length Nat.add next_loop m_buf m_ended skip_null].
    rewrite (proj2 (Z.ltb_ge _ _)) by lia. rewrite Hnd. cbn [mbind res_bind]. by rewrite bool_decide_false.
Qed.

Lemma input_given params : Forall (fun p => is_Some (forest_at ts p.2)) params ->
  gives tagmap st (make (parameter_nodes ts params)) (input_elements ts params) at_end.
Proof using Hrep.
  intros Hall. unfold input_elements. change (make ?ns) with (at_ ns [] []). induction Hall as [|[nam x] params Hx _ IH].
  - eapply gives_next; [reflexivity|apply same_refl|apply gives_nil].
  - cbn [map concat]. rewrite <- app_assoc. eapply gives_app; [by apply parameter_given|exact IH].
Qed.

End Parameters.

(** ** The argument of a normalization function *)

(** One value, alone or in one tag; nothing stands for a null value. *)
Definition argument_of (es : list element) : res (option Variant) :=
  match es with
  | (VmTransactionInputFilter.CloseTag, _) :: _ => Ok None
  | (VmTransactionInputFilter.Value, v) :: (VmTransactionInputFilter.CloseTag, _) :: _ => Ok (Some v)
  | (VmTransactionInputFilter.OpenTag, _) :: (VmTransactionInputFilter.Value, v) ::
      (VmTransactionInputFilter.CloseTag, _) :: (VmTransactionInputFilter.CloseTag, _) :: _ => Ok (Some v)
  | _ => Throw (RuntimeError PreprocCall.atomic_expected)
  end.

(** Opened tags against closed ones. *)
Definition level (x : element) : Z :=
  match x.1 with VmTransactionInputFilter.OpenTag => 1 | VmTransactionInputFilter.CloseTag => -1 | _ => 0 end.
Fixpoint levels (es : list element) : Z := match es with [] => 0 | x :: es' => level x + levels es' end.

(** The elements of an input: its tags are closed, and then the input. *)
Record complete (es : list element) : Prop := {
  complete_closed : levels es = -1;
  complete_last : option_map fst (last es) = Some CloseTag;
  complete_tags : Forall (fun x => x.1 <> Attribute) es
}.

Lemma levels_app es es' : levels (es ++ es') = levels es + levels es'.
Proof. induction es as [|x es IH]; cbn; [done|]. rewrite IH. lia. Qed.

Definition balanced (es : list element) : Prop := levels es = 0 /\ Forall (fun x => x.1 <> Attribute) es.

Lemma balanced_app es es' : balanced es -> balanced es' -> balanced (es ++ es').
Proof. intros [H1 H2] [H3 H4]. split; [rewrite levels_app; lia|by apply Forall_app]. Qed.

Lemma balanced_value v : balanced (value_elements v).
Proof. destruct v; split; cbn; try done; repeat constructor; done. Qed.

Lemma balanced_tag n es : balanced es -> balanced ((OpenTag, n) :: es ++ [close]).
Proof.
  intros [H1 H2]. split; [cbn; rewrite levels_app, H1; done|]. constructor; [done|]. apply Forall_app. split; [done|by repeat constructor].
Qed.

Lemma balanced_concat {A} (f : A -> list element) l : Forall (fun x => balanced (f x)) l -> balanced (concat (map f l)).
Proof. induction 1; cbn; [by split|by apply balanced_app]. Qed.

Lemma opened_balanced t : balanced (opened t).
Proof.
  induction t as [n v|n v cs Hall] using tree_rose_ind; cbn [opened]; apply balanced_tag; [apply balanced_value|].
  apply balanced_app; [by apply balanced_concat|apply balanced_value].
Qed.

Lemma input_complete ts params : complete (input_elements ts params).
Proof.
  assert (balanced (concat (map (parameter_elements ts) params))) as [H1 H2].
  { apply balanced_concat. apply Forall_forall. intros [nam x] _. unfold parameter_elements. cbn [fst snd].
    assert (forall cs v, balanced (content cs v)) as Hc.
    { intros cs v. apply balanced_app; [|apply balanced_value]. apply balanced_concat, Forall_forall. intros. apply opened_balanced. }
    case_bool_decide; [apply Hc|by apply balanced_tag]. }
  split; unfold input_elements.
  - by rewrite levels_app, H1.
  - by rewrite last_snoc.
  - apply Forall_app. split; [done|by repeat constructor].
Qed.

Section Argument.
Context (tagmap : TagTable.t).
Abbreviation same := (same_element tagmap).

Lemma same_complete es es' : Forall2 same es es' -> complete es -> complete es'.
Proof.
  intros Hs [H1 H2 H3].
  assert (levels es' = levels es /\ option_map fst (last es') = option_map fst (last es)) as [E1 E2].
  { clear -Hs. induction Hs as [|x y es es' [Hx _] Hs [IH1 IH2]]; [done|]. cbn [levels]. unfold level. rewrite Hx, IH1. split; [done|].
    destruct Hs; cbn in IH2 |- *; [by rewrite Hx|exact IH2]. }
  split; [by rewrite E1|by rewrite E2|]. clear -Hs H3. induction Hs as [|x y es es' [Hx _] _ IH]; [constructor|].
  apply Forall_cons in H3 as [H3 H4]. constructor; [by rewrite <- Hx|by apply IH].
Qed.

Lemma same_argument es es' : Forall2 same es es' -> argument_of es' = argument_of es.
Proof.
  unfold same_element.
  intros [|[[] v] [ty v'] xs xs' [Hx Hv] Hs]; [done|..]; cbn in Hx, Hv; subst; try done.
  - destruct Hs as [|[[] w] [ty w'] ys ys' [Hy Hw] Hs]; [done|..]; cbn in Hy, Hw; subst; try done.
    destruct Hs as [|[[] z] [ty z'] zs zs' [Hz _] Hs]; [done|..]; cbn in Hz; subst; try done.
    destruct Hs as [|[[] z2] [ty z2'] us us' [Hu _] Hs]; [done|..]; cbn in Hu; by subst.
  - destruct Hs as [|[[] w] [ty w'] ys ys' [Hy _] Hs]; [done|..]; cbn in Hy; by subst.
Qed.
End Argument.

Lemma expect_next st f et f1 x : getNext st f = Ok (f1, Some x) ->
  PreprocCall.expectArg st f et PreprocCall.atomic_expected =
    (if bool_decide (x.1 = et) then Ok (f1, x.2) else Throw (RuntimeError PreprocCall.atomic_expected)).
Proof. intros Hx. unfold PreprocCall.expectArg. rewrite Hx. by destruct x. Qed.

Lemma argument_read st f es f' : emits st f es f' -> complete es -> PreprocCall.read_argument st f = argument_of es.
Proof.
  intros He [Hlev Hlast Htags]. destruct es as [|[ty v] es]; [done|]. apply emits_first in He as (f1 & H1 & He).
  apply Forall_cons in Htags as [Hty Htags]. unfold PreprocCall.read_argument. rewrite H1. cbn [mbind res_bind].
  destruct ty; cbn in Hty; [|done| |done]; cbn [mbind res_bind].
  - destruct es as [|[ty w] es]; [done|]. apply emits_first in He as (f2 & H2 & He). rewrite (expect_next _ _ _ _ _ H2). cbn [fst snd].
    destruct ty; try done. rewrite bool_decide_true by done. cbn [mbind res_bind].
    destruct es as [|[ty z] es]; [done|]. apply emits_first in He as (f3 & H3 & He). rewrite (expect_next _ _ _ _ _ H3). cbn [fst snd].
    destruct ty; try done. rewrite bool_decide_true by done. cbn [mbind res_bind].
    destruct es as [|[ty z2] es]; [done|]. apply emits_first in He as (f4 & H4 & He). rewrite (expect_next _ _ _ _ _ H4). cbn [fst snd].
    by destruct ty.
  - destruct es as [|[ty z] es]; [done|]. apply emits_first in He as (f3 & H3 & He). rewrite (expect_next _ _ _ _ _ H3). cbn [fst snd].
    by destruct ty.
Qed.


(** A parameter with contents, whose names are spelled in two ways, and one with a value only. *)
Definition read_document : list tree :=
  [Elem "doc" None [Elem "person" (Some (Str "x")) [Attr "id" (Int 7)]; Elem "Person" (Some (Str "y")) []]]%string.


(** ** Arrays *)

(** An array of two values, read without indices: the first of them is opened with its index
    all the same, and the second one is given as a part of the first. *)
Lemma second_array_element_in_first :
  exists s, ClosureInput.print_all (fun v => match v with Int i => Ok i | _ => Throw BadCast end)
      (ClosureInput.make (TagTable.make false))
      [(OpenTag, Str "x"); (OpenTag, Int 0); (Value, Str "a"); close; (OpenTag, Int 1); (Value, Str "b"); close; close]%string = Ok s /\
    exists f, read (ClosureInput.m_structure s) 9 (make [("arg"%string, 0)]) =
      Ok (f, [(OpenTag, Str "arg");
              (OpenTag, Str "x"); (OpenTag, Int 0); (Value, Str "a"); close;
                (OpenTag, Str "x"); (Value, Str "b"); close; close]%string).
Proof. eexists. split; [vm_compute; reflexivity|]. eexists. vm_compute. reflexivity. Qed.
