(* ===== verification/TdlInput.v ===== *)
(** * The input of a program of the transaction language

    Models src/modules/cmdbind/tdl/tdlTransactionInput.cpp: before a program is executed, its
    references to paths are replaced by constants and tables with the values of the selected
    nodes of the input.  The rewriter follows the jumps of the program from its start with a
    stack of the places that are still to be visited. *)
From S2P Require Import Prelude InstructionSet Variant ValueTupleSet ProgramImage TdlTables SelectorPath TdlProgram Transaction InputStructure.

Section Lists.
Context {A B : Type}.

Fixpoint res_map (f : A -> res B) (l : list A) : res (list B) :=
  match l with
  | [] => Ok []
  | x :: l' => y ← f x; ys ← res_map f l'; Ok (y :: ys)
  end.
End Lists.

Module ProgramRewriter.

(** An element of the stack, and the state: the program, the heap of tables, the targets of
    conditional jumps that were visited and the stack, its last element first. *)
Record StackElem := mkStackElem {
  ip : Z;
  selected : list Z
}.

Record t := mk {
  prg : ProgramImage;
  heap : ValueTupleSet.store;
  visited : gset Z;
  stack : list StackElem
}.

Definition set_stack (s : t) (x : list StackElem) : t := mk (prg s) (heap s) (visited s) x.
Definition set_code (s : t) (x : ProgramCode.t) : t :=
  mk (ProgramImage.set_code (prg s) x) (heap s) (visited s) (stack s).
Definition visit (s : t) (ai : Z) : t := mk (prg s) (heap s) ({[ai]} ∪ visited s) (stack s).

Definition push_constant (s : t) (v : Variant) : t :=
  mk (ProgramImage.push_constant (prg s) v) (heap s) (visited s) (stack s).

(** [prg.tuplesets.push_back( tupleset)] with a new table. *)
Definition push_tupleset (s : t) (ts : ValueTupleSet.t) : t :=
  let p := prg s in
  mk (mkProgramImage (code p) (constants p) (colnames p) (tagnames p) (resultnames p) (statements p)
        (errorhints p) (signatures p) (tuplesets p ++ [Some (length (heap s))]))
     (heap s ++ [ts]) (visited s) (stack s).

(** [*prg.code.at( ip)]: an iterator without a check. *)
Definition fetch (c : ProgramCode.t) (ip : Z) : res Z :=
  match c !! Z.to_nat ip with
  | Some i => Ok i
  | None => Throw (Undefined "instruction behind the end of the code")
  end.

(** [if (++stack.back().ip >= prg.code.size()) stack.pop_back();] *)
Definition advance (c : ProgramCode.t) (st : list StackElem) : list StackElem :=
  match st with
  | [] => []
  | e :: st' =>
      let ip' := u32 (ip e + 1) in
      if ProgramCode.size c <=? ip' then st' else mkStackElem ip' (selected e) :: st'
  end.

Definition is_op (oc : Z) (op : OpCode) : bool := oc =? OpCode_val op.

Section Rewrite.
Context (pathset : SelectorPathSet.t) (input : InputStructure.t).

Definition tagtab : TagTable.t := SelectorPathSet.m_tagtab pathset.

(** ** Values of nodes *)

Definition node_value (ni : Z) : res Variant :=
  nd ← InputStructure.node input ni;
  v ← InputStructure.contentvalue input nd;
  Ok (default Null v).

(** The value of a path in a loop: the selected node has to be the same. *)
Definition loop_value (ti : SelectorPath.t) (ni : Z) : res Variant :=
  ar ← SelectNodes.selectNodes ti input ni;
  match ar with
  | [] => Ok Null
  | first :: rest =>
      if forallb (Z.eqb first) rest then node_value first
      else s ← SelectorPath.tostring ti tagtab;
           Throw (RuntimeError ("ambiguus value reference in loop: '" +:+ s +:+ "'"))
  end.

(** The value of a path outside of a loop. *)
Definition single_value (path : SelectorPath.t) (sel : list Z) : res Variant :=
  match sel with
  | [] => Ok Null
  | [ni] => node_value ni
  | _ => s ← SelectorPath.tostring path tagtab;
         Throw (RuntimeError ("ambiguus single value reference: '" +:+ s +:+ "'"))
  end.

(** ** Loops over paths *)

(** The column of a path.  A path without a name at its end is dereferenced as null pointer. *)
Definition column_name (ti : SelectorPath.t) : res string :=
  n ← SelectorPath.lastElementName ti tagtab;
  match n with
  | Some n => Ok n
  | None => Throw (Undefined "null pointer")
  end.

Fixpoint push_rows (ts : ValueTupleSet.t) (rows : list (list Variant)) : res ValueTupleSet.t :=
  match rows with
  | [] => Ok ts
  | r :: rows' => ts ← ValueTupleSet.push ts r; push_rows ts rows'
  end.

(** The table of a loop over the nodes [sel] that refers to the paths [pathtuple]. *)
Definition loop_table (pathtuple : list SelectorPath.t) (sel : list Z) : res ValueTupleSet.t :=
  match pathtuple with
  | [] => push_rows (ValueTupleSet.make [""%string]) (map (fun _ => [Null]) sel)
  | _ =>
      colnames ← res_map column_name pathtuple;
      rows ← res_map (fun ni => res_map (fun ti => loop_value ti ni) pathtuple) sel;
      push_rows (ValueTupleSet.make colnames) rows
  end.

(** The operations that replace a path by a column of the iterator or by a constant. *)
Definition iterator_op (oc : Z) : res OpCode :=
  if is_op oc Op_SUB_ARG_PATH then Ok Op_SUB_ARG_ITR_IDX
  else if is_op oc Op_OUTPUT_PATH then Ok Op_OUTPUT_ITR_IDX
  else if is_op oc Op_DBSTM_BIND_PATH then Ok Op_DBSTM_BIND_ITR_IDX
  else if is_op oc Op_OPEN_ITER_PATH
  then Throw (RuntimeError "internal: cannot rewrite program with nested path expression loops")
  else Throw (RuntimeError "internal: unknown instruction with path argument").

Definition constant_op (oc : Z) : res OpCode :=
  if is_op oc Op_SUB_ARG_PATH then Ok Op_SUB_ARG_CONST
  else if is_op oc Op_OUTPUT_PATH then Ok Op_OUTPUT_CONST
  else if is_op oc Op_DBSTM_BIND_PATH then Ok Op_DBSTM_BIND_CONST
  else Throw (RuntimeError "internal: unknown instruction with path argument").

(** The loop over the scope of an iterator, up to the next [NEXT]: the code [c] is what is
    left; the paths that were referred to are collected. *)
Fixpoint rewrite_scope (pathtuple : list SelectorPath.t) (c : list Z) : res (list Z * list SelectorPath.t) :=
  match c with
  | [] => Ok ([], pathtuple)
  | instr :: c' =>
      let oc := opCode instr in
      if is_op oc Op_NEXT then Ok (c, pathtuple)
      else
        at_ ← argumentType oc;
        if bool_decide (at_ = At_Path) then
          path ← SelectorPathSet.getPath pathset (argumentIndex instr);
          let pathtuple := pathtuple ++ [path] in
          op ← iterator_op oc;
          instr' ← instruction_raw (condCode instr) (OpCode_val op) (Z.of_nat (length pathtuple));
          '(c', pathtuple) ← rewrite_scope pathtuple c';
          Ok (instr' :: c', pathtuple)
        else
          '(c', pathtuple) ← rewrite_scope pathtuple c';
          Ok (instr :: c', pathtuple)
  end.

Definition replace_open (s : t) (ip : Z) (sel : list Z) (instr : Z) : res t :=
  let c := code (prg s) in
  instr' ← instruction_raw (condCode instr) (OpCode_val Op_OPEN_ITER_TUPLESET) (Z.of_nat (length (tuplesets (prg s))));
  c ← ProgramCode.assign c ip instr';
  path ← SelectorPathSet.getPath pathset (argumentIndex instr);
  sel ← res_flat_map (SelectNodes.selectNodes path input) sel;
  '(scope, pathtuple) ← rewrite_scope [] (drop (Z.to_nat ip) c);
  let c := take (Z.to_nat ip) c ++ scope in
  ts ← loop_table pathtuple sel;
  Ok (push_tupleset (set_code s c) ts).

(** ** Single instructions *)

Definition replace_single (s : t) (ip : Z) (sel : list Z) (instr : Z) : res t :=
  path ← SelectorPathSet.getPath pathset (argumentIndex instr);
  sel ← res_flat_map (SelectNodes.selectNodes path input) sel;
  let constArgumentIndex := Z.of_nat (length (constants (prg s))) in
  v ← single_value path sel;
  let s := push_constant s v in
  op ← constant_op (opCode instr);
  instr' ← instruction_raw (condCode instr) (OpCode_val op) constArgumentIndex;
  c ← ProgramCode.assign (code (prg s)) ip instr';
  Ok (set_code s c).

(** ** The loop over the stack *)

Definition always (instr : Z) : bool := condCode instr =? CondCode_val Co_ALWAYS.

(** One instruction at the top [e] of the stack; [st] is the rest. *)
Definition step (s : t) (e : StackElem) (st : list StackElem) : res t :=
  let c := code (prg s) in
  instr ← fetch c (ip e);
  let oc := opCode instr in
  if is_op oc Op_EXIT || is_op oc Op_RETURN then
    Ok (set_stack s (if always instr then st else advance c (e :: st)))
  else if is_op oc Op_GOTO then
    let ai := argumentIndex instr in
    if always instr then Ok (set_stack s (mkStackElem ai (selected e) :: st))
    else if bool_decide (ai ∈ visited s) then Ok (set_stack s (advance c (e :: st)))
    else Ok (set_stack (visit s ai) (mkStackElem ai (selected e) :: advance c (e :: st)))
  else
    at_ ← argumentType oc;
    s ← (if bool_decide (at_ = At_Path) then
           if is_op oc Op_OPEN_ITER_PATH then replace_open s (ip e) (selected e) instr
           else replace_single s (ip e) (selected e) instr
         else Ok s);
    Ok (set_stack s (advance (code (prg s)) (e :: st))).

Fixpoint loop (fuel : nat) (s : t) : res t :=
  match stack s with
  | [] => Ok s
  | e :: st =>
      match fuel with
      | O => OutOfFuel
      | S fuel' => s ← step s e st; loop fuel' s
      end
  end.

Definition rewriteInputPathReferences (fuel : nat) (p : ProgramImage) (h : ValueTupleSet.store)
    : res (ProgramImage * ValueTupleSet.store) :=
  if ProgramCode.size (code p) =? 0 then Ok (p, h)
  else
    s ← loop fuel (mk p h ∅ [mkStackElem 0 [InputStructure.rootindex]]);
    Ok (prg s, heap s).

End Rewrite.
End ProgramRewriter.

(** The constructor of [TdlTransactionInput]. *)
Definition TdlTransactionInput (fuel : nat) (p : Program.t) (input : InputStructure.t) (h : ValueTupleSet.store)
    : res (ProgramImage * ValueTupleSet.store) :=
  ProgramRewriter.rewriteInputPathReferences (Program.pathset p) input fuel (Program.image p) h.
