(* ===== verification/TdlFunction.v ===== *)
(** * Calling a transaction function

    Models src/modules/cmdbind/tdl/tdlTransactionFunction.cpp (the closure of a transaction
    function: authorization, reading of the input, preprocessing, the transaction with its
    audit functions, the filter of the result) and include/filter/redirectFilterClosure.hpp,
    with which the input is read.

    The provider is a parameter: the functions loaded from modules (authorization, audit,
    form and normalization functions) and the allocation of a state machine of the database;
    what the execution context does with it ([checkAuthorization] of
    src/libwolframe/execContext.cpp) is modelled.  Logging is not modelled. *)
From S2P Require Import Prelude InstructionSet Variant ValueTupleSet ExecStatemachine ProgramImage ProgramInstance TdlTables SelectorPath TdlProgram Transaction InputStructure InputFilters ParseUtils DatabaseLanguage TdlParse TdlLoad TdlPreproc TdlInput.

(** ** Filters as input of a function *)

Inductive FilterState := Start | Open | EndOfMessage | Error.

(** A filter that may run out of data and be continued later. *)
Class TypedInputFilter (F : Type) := {
  if_getNext : F -> F * option element;
  if_state : F -> FilterState;
  if_getError : F -> option string
}.

(** ** [RedirectFilterClosure], with [ClosureInput] as output, whose [print] never returns false *)

Module RedirectFilterClosure.

Record t := mk {
  m_state : Z;
  m_taglevel : Z;
  m_elem : element
}.

Definition init : t := mk 0 0 (Value, Null).

Section Call.
Context {F : Type} `{TypedInputFilter F} (toint : Variant -> res Z) (do_print_final_close : bool).

(** What the closure works on. *)
Record S_ := mkS {
  rd : t;
  input : F;
  output : ClosureInput.t
}.

Definition at_final_close (r : t) : t := mk (if do_print_final_close then 2 else 3) (m_taglevel r) (m_elem r).

Definition print : M S_ unit := fun s =>
  match ClosureInput.print toint (output s) (m_elem (rd s)).1 (m_elem (rd s)).2 with
  | Ok o => (mkS (rd s) (input s) o, Ok tt)
  | Throw e => (s, Throw e)
  | OutOfFuel => (s, OutOfFuel)
  end.

Definition set_state (x : Z) : M S_ unit :=
  modify (fun s => mkS (mk x (m_taglevel (rd s)) (m_elem (rd s))) (input s) (output s)).

(** State 0: the next element; [Some b] when [call] returns, [None] to go on. *)
Definition fetch : M S_ (option bool) := fun s =>
  let '(f, x) := if_getNext (input s) in
  match x with
  | None =>
      let s := mkS (rd s) f (output s) in
      match if_state f with
      | Start | Open => (mkS (at_final_close (rd s)) f (output s), Ok None)
      | EndOfMessage => (s, Ok (Some false))
      | Error => (s, match if_getError f with
                     | Some msg => Throw (RuntimeError msg)
                     | None => Throw (Undefined "null pointer")
                     end)
      end
  | Some (et, ev) =>
      let level := match et with
                   | VmTransactionInputFilter.OpenTag => i32 (m_taglevel (rd s) + 1)
                   | VmTransactionInputFilter.CloseTag => i32 (m_taglevel (rd s) - 1)
                   | _ => m_taglevel (rd s)
                   end in
      let r := mk 1 level (et, ev) in
      if bool_decide (et = CloseTag) && (level <? 0)
      then (mkS (at_final_close r) f (output s), Ok None)
      else (mkS r f (output s), Ok None)
  end.

Fixpoint call (fuel : nat) : M S_ bool :=
  match fuel with
  | O => fun s => (s, OutOfFuel)
  | S fuel' =>
      s ← gets id;
      let st := m_state (rd s) in
      if st =? 0 then r ← fetch; match r with Some b => mret b | None => call fuel' end
      else if st =? 1 then _ ← print; _ ← set_state 0; call fuel'
      else if st =? 2 then _ ← print; _ ← set_state 3; mret true
      else mret true
  end.

End Call.
Arguments S_ : clear implicits.
End RedirectFilterClosure.

(** ** The text of an error of the database *)

Definition databaseError_throwtext (err : DatabaseError) (name : string) : string :=
  "error in transaction '" +:+ name +:+ "':"
    +:+ (if negb (bool_decide (errordetail err = "")) then " " +:+ removeCRLF (errordetail err)
         else if negb (bool_decide (errormsg err = "")) then " " +:+ removeCRLF (errormsg err)
         else "")
    +:+ (if negb (bool_decide (errorhint err = "")) then " " +:+ errorhint err else "").

(** ** The closure *)

(** The result of a call: the output of the transaction, or the elements a result filter
    gives, and the flag [PropagateNoCase]. *)
Record FunctionResult := mkFunctionResult {
  fr_elements : VmTransactionInputFilter.t + (list element * option string);
  fr_nocase : bool
}.

(** [VmTransactionOutput::isCaseSensitive]. *)
Definition isCaseSensitive : bool := false.

(** The execution context: what it gets from its provider. *)
Record ExecContext (D : Type) := mkExecContext {
  authorizationFunction : string -> option (string -> res bool);
  provider : Provider;
  auditFunction : string -> option FormFunction;
  transaction : string -> res (option D)
}.
Arguments mkExecContext {D}. Arguments authorizationFunction {D}. Arguments provider {D}. Arguments auditFunction {D}. Arguments transaction {D}.

(** [checkAuthorization]: [None] if it is allowed, else the error message, which is empty if
    the function of the provider denies it. *)
Definition checkAuthorization {D} (context : ExecContext D) (funcname resource : string) (allowIfNotExists : bool)
    : res (option string) :=
  if bool_decide (funcname = "") then Ok None
  else
    match authorizationFunction context funcname with
    | None =>
        if allowIfNotExists then Ok None
        else Ok (Some ("authorization function '" +:+ funcname +:+ "' is not defined"))
    | Some func =>
        match func resource with
        | Ok true => Ok None
        | Ok false => Ok (Some "")
        | Throw (RuntimeError what) => Ok (Some ("authorization function '" +:+ funcname +:+ "' failed: " +:+ what))
        | Throw e => Throw e
        | OutOfFuel => OutOfFuel
        end
    end.

Module TdlClosure.

(** [cl_db] is the state machine of the database as it was when it was closed. *)
Record t (F D : Type) := mk {
  m_state : Z;
  m_input : F;
  m_redirect : RedirectFilterClosure.t;
  m_inputstruct : ClosureInput.t;
  m_result : option FunctionResult;
  cl_db : option D
}.
Arguments mk {F D}. Arguments m_state {F D}. Arguments m_input {F D}. Arguments m_redirect {F D}.
Arguments m_inputstruct {F D}. Arguments m_result {F D}. Arguments cl_db {F D}.

Section Call.
Context {F : Type} `{TypedInputFilter F} {D : Type} `{TransactionExecStatemachine D} `{VariantToString}.
Context (toint : Variant -> res Z) (context : ExecContext D) (func : TdlTransactionFunction)
  (logTrace : option (Z -> res unit)).
Abbreviation MC := (M (t F D)).

(** [createClosure] and [init]. *)
Definition init (i : F) : t F D :=
  mk 1 i RedirectFilterClosure.init
    (ClosureInput.make (SelectorPathSet.m_tagtab (Program.pathset (tf_program func)))) None None.

Definition set_state (x : Z) : MC unit :=
  modify (fun s => mk x (m_input s) (m_redirect s) (m_inputstruct s) (m_result s) (cl_db s)).
Definition set_result (x : FunctionResult) : MC unit :=
  modify (fun s => mk (m_state s) (m_input s) (m_redirect s) (m_inputstruct s) (Some x) (cl_db s)).
Definition set_inputstruct (x : ClosureInput.t) : MC unit :=
  modify (fun s => mk (m_state s) (m_input s) (m_redirect s) x (m_result s) (cl_db s)).

(** ** Authorization *)

Fixpoint authorize (auths : list Authorization) : res unit :=
  match auths with
  | [] => Ok tt
  | z :: auths' =>
      denied ← checkAuthorization context (auth_function z) (auth_resource z) false;
      match denied with
      | Some errmsg =>
          Throw (RuntimeError ("execution of transaction function '" +:+ tf_name func
                   +:+ "' denied in this authorization context: " +:+ errmsg))
      | None => authorize auths'
      end
  end.

(** ** The transaction *)

(** One audit function, with the part [idx] of the output. *)
Definition audit_call (out : Output.t) (name : string) (idx : nat) : res unit :=
  parameter ← VmTransactionInputFilter.make out idx;
  f ← match auditFunction context name, formFunction (provider context) name with
      | Some f, _ => Ok f
      | None, Some f => Ok f
      | None, None => Throw (RuntimeError ("transaction audit function '" +:+ name
                        +:+ "' not found (must be defined as audit or form function)"))
      end;
  c ← f false (OutputInput parameter);
  match c with
  | Incomplete _ => Throw (RuntimeError ("failed to call audit function '" +:+ name +:+ "' (input not complete)"))
  | Completed _ _ => Ok tt
  end.

(** Only runtime errors are caught; the error of a function that is not critical is ignored. *)
Fixpoint audit (out : Output.t) (steps : list (AuditLevel * string)) (idx : nat) : M (Transaction D) unit :=
  match steps with
  | [] => mret tt
  | (level, name) :: steps' =>
      _ ← try_catch (lift (audit_call out name idx)) (fun e =>
            match e with
            | RuntimeError what =>
                match level with
                | Critical =>
                    _ ← rollback;
                    throw (RuntimeError ("critical audit function '" +:+ name
                             +:+ "' failed and so the transaction function '" +:+ tf_name func
                             +:+ "' (rollback): '" +:+ what))
                | Informal => mret tt
                end
            | _ => throw e
            end);
      audit out steps' (S idx)
  end.

(** The life of the transaction object, from [begin] to [commit]. *)
Definition run_transaction (fuel : nat) (p : ProgramImage) (heap : ValueTupleSet.store) : M (Transaction D) Output.t :=
  _ ← begin;
  out ← execute fuel logTrace p heap;
  match out with
  | None =>
      s ← gets id;
      throw (RuntimeError (databaseError_throwtext (tr_lastError s) (tf_name func)))
  | Some out =>
      _ ← audit out (tf_audit func) 1;
      _ ← commit;
      mret out
  end.

(** The transaction is executed on the new state machine [d]. *)
Definition with_transaction {A} (d : D) (m : M (Transaction D) A) : MC A := fun s =>
  let '(tr, r) := m (mkTransaction d DatabaseError_default) in
  (mk (m_state s) (m_input s) (m_redirect s) (m_inputstruct s) (m_result s) (Some (m_stm tr)), r).

(** ** The result *)

Definition build_result (out : Output.t) : res FunctionResult :=
  res ← VmTransactionInputFilter.make out 0;
  if bool_decide (tf_resultfilter func = "") then Ok (mkFunctionResult (inl res) (negb isCaseSensitive))
  else
    match formFunction (provider context) (tf_resultfilter func) with
    | None => Throw (RuntimeError ("transaction result filter function '" +:+ tf_resultfilter func
                +:+ "' not found (must be defined as form function)"))
    | Some f =>
        c ← f false (OutputInput res);
        match c with
        | Incomplete _ => Throw (RuntimeError ("failed to call filter function '" +:+ tf_resultfilter func
                            +:+ "' with result of transaction (input not complete)"))
        | Completed es err => Ok (mkFunctionResult (inr (es, err)) (negb isCaseSensitive))
        end
    end.

(** ** [call] *)

(** State 3.  The fuel is for the rewriter of paths and the virtual machine.  The input
    structure is changed by the preprocessing only if all steps succeed; in the code it is
    changed in place. *)
Definition execute_function (fuel : nat) : MC bool :=
  s ← gets id;
  let si := m_inputstruct s in
  st ← lift (PreprocCall.finalize (provider context) toint (tf_preproc func) (ClosureInput.m_structure si));
  _ ← set_inputstruct (ClosureInput.mk st (ClosureInput.m_lasttype si));
  '(p, heap) ← lift (TdlTransactionInput fuel (tf_program func) st []);
  trsr ← lift (transaction context (tf_name func));
  match trsr with
  | None => throw (RuntimeError "failed to allocate transaction object")
  | Some d =>
      out ← with_transaction d (run_transaction fuel p heap);
      r ← lift (build_result out);
      _ ← set_result r;
      _ ← set_state 4;
      mret true
  end.

(** State 2: reading the input; false if there is not enough of it yet. *)
Definition read_input (fuel : nat) : MC bool := fun s =>
  let '(r, b) := RedirectFilterClosure.call toint false fuel
                   (RedirectFilterClosure.mkS (m_redirect s) (m_input s) (m_inputstruct s)) in
  (mk (m_state s) (RedirectFilterClosure.input r) (RedirectFilterClosure.rd r)
     (RedirectFilterClosure.output r) (m_result s) (cl_db s), b).

Definition from_input (fuel : nat) : MC bool :=
  b ← read_input fuel;
  if negb b then mret false
  else _ ← set_state 3; execute_function fuel.

Definition call (fuel : nat) : MC bool :=
  s ← gets id;
  if m_state s =? 0 then throw (RuntimeError "input not initialized")
  else if m_state s =? 1 then
    _ ← lift (authorize (tf_authorizations func));
    _ ← set_state 2; from_input fuel
  else if m_state s =? 2 then from_input fuel
  else if m_state s =? 3 then execute_function fuel
  else mret true.

End Call.
End TdlClosure.
