(* ===== verification/TdlFunctionFacts.v ===== *)
(** * The transaction of a transaction function

    The calls of a transaction function on the database: a state machine that records the
    start and the end of transactions and its commands shows that every call runs at most one
    transaction, that it is authorized, and how it ends. *)
From S2P Require Import Prelude InstructionSet Variant ValueTupleSet ExecStatemachine TableDb ProgramImage ProgramInstance VmDatabase TdlTables SelectorPath TdlProgram Tdl2vm Transaction InputStructure InputFilters ParseUtils DatabaseLanguage TdlParse TdlLoad TdlPreproc TdlInput TdlFunction.
Import TdlClosure.

(** ** A database that records what is done *)

Inductive Event := EBegin (ok : bool) | ECommand | ECommit (ok : bool) | ERollback (ok : bool).

Record Logged (D : Type) := mkLogged { lg_db : D; lg_log : list Event }.
Arguments mkLogged {D}. Arguments lg_db {D}. Arguments lg_log {D}.

Section Log.
Context {D : Type} `{TransactionExecStatemachine D}.

Definition is_ok (r : res bool) : bool := match r with Ok b => b | _ => false end.

Definition logged {A} (ev : res A -> list Event) (m : M D A) : M (Logged D) A := fun x =>
  let '(d, r) := m (lg_db x) in (mkLogged d (lg_log x ++ ev r), r).
Definition command {A} (m : M D A) : M (Logged D) A := logged (fun _ => [ECommand]) m.

#[export] Instance logged_db : TransactionExecStatemachine (Logged D) := {|
  stm_databaseID x := stm_databaseID (lg_db x);
  stm_begin := logged (fun r => [EBegin (is_ok r)]) stm_begin;
  stm_commit := logged (fun r => [ECommit (is_ok r)]) stm_commit;
  stm_rollback := logged (fun r => [ERollback (is_ok r)]) stm_rollback;
  stm_start stm := command (stm_start stm);
  stm_bind i v := command (stm_bind i v);
  stm_execute := command stm_execute;
  stm_nofColumns := command stm_nofColumns;
  stm_columnName i := command (stm_columnName i);
  stm_get i := command (stm_get i);
  stm_next := command stm_next;
  stm_hasResult := command stm_hasResult;
  stm_getLastError := logged (fun _ => []) stm_getLastError
|}.

(** A transaction that was begun, with commands only. *)
Definition running (l : list Event) : Prop := exists b n, l = EBegin b :: replicate n ECommand.

Lemma running_command l : running l -> running (l ++ [ECommand]).
Proof. intros (b & n & ->). exists b, (n + 1)%nat. cbn. by rewrite replicate_add. Qed.

Lemma commands_run : commands_keep (fun x : Logged D => running (lg_log x)).
Proof.
  assert (forall A (m : M D A), db_keeps (fun x : Logged D => running (lg_log x)) (command m)) as Hc.
  { intros A m x Hx. unfold command, logged. destruct (m (lg_db x)). by apply running_command. }
  split; intros; try apply Hc. intros x Hx. cbn. unfold logged. destruct (stm_getLastError (lg_db x)). cbn.
  by rewrite app_nil_r.
Qed.

(** A transaction that was rolled back. *)
Definition rolled_back (l : list Event) : Prop := exists l0 b, running l0 /\ l = l0 ++ [ERollback b].

Definition not_runtime {A} (r : res A) : Prop :=
  match r with Ok _ => False | Throw (RuntimeError _) => False | _ => True end.

Definition failed {A} (r : res A) : Prop := match r with Ok _ => False | _ => True end.

(** ** The operations of a transaction *)

Context `{VariantToString}.
Abbreviation tr_log t := (lg_log (m_stm t)).

Lemma checked_call_log (m : M D bool) ev t :
  exists d, let '(t', r) := checked_call (logged ev m) t in
    tr_log t' = tr_log t ++ ev (m d).2 /\ (failed r -> is_ok (m d).2 = false).
Proof.
  exists (lg_db (m_stm t)). unfold checked_call, tr_call, zoom. rewrite M_bind_eq. unfold logged at 1.
  destruct (m (lg_db (m_stm t))) as [d r]. destruct r as [[|]|e|]; cbn; try done.
  rewrite M_bind_eq. unfold logged. cbn. destruct (stm_getLastError d) as [d2 [[e|]|e|]]; cbn; by rewrite app_nil_r.
Qed.

Lemma begin_log t : tr_log t = [] ->
  exists b, let '(t', r) := begin t in tr_log t' = [EBegin b] /\ (failed r -> b = false).
Proof.
  intros Ht. destruct (checked_call_log (stm_begin (D := D)) (fun r => [EBegin (is_ok r)]) t) as [d Hd]. change (checked_call _ t) with (begin t) in Hd. exists (is_ok (stm_begin d).2).
   destruct (begin t) as [t' r]. by rewrite Ht in Hd.
Qed.

Lemma commit_log t :
  exists b, let '(t', r) := commit t in tr_log t' = tr_log t ++ [ECommit b] /\ (failed r -> b = false).
Proof. destruct (checked_call_log (stm_commit (D := D)) (fun r => [ECommit (is_ok r)]) t) as [d Hd]. change (checked_call _ t) with (commit t) in Hd. by exists (is_ok (stm_commit d).2). Qed.

Lemma rollback_log t : running (tr_log t) -> let '(t', r) := rollback t in rolled_back (tr_log t').
Proof.
  intros Ht. destruct (checked_call_log (stm_rollback (D := D)) (fun r => [ERollback (is_ok r)]) t) as [d Hd]. change (checked_call _ t) with (rollback t) in Hd. 
  destruct (rollback t) as [t' r]. destruct Hd as [-> _]. by eexists _, _.
Qed.

Lemma abort_rollback t : running (tr_log t) -> rolled_back (tr_log (tr_call stm_rollback t).1).
Proof.
  intros Ht. unfold tr_call, zoom. cbn. unfold logged. destruct (stm_rollback _) as [d r]. cbn. by eexists _, _.
Qed.

Lemma abort_log (m : M (Transaction (Logged D)) (option Output.t)) t : running (tr_log t) ->
  (forall t, match m t with (t', Ok (Some _)) => False | (t', _) => t' = t end) ->
  let '(t', r) := (_ ← tr_call stm_rollback; m) t in
  match r with Ok (Some _) => False | _ => rolled_back (tr_log t') end.
Proof.
  intros Ht Hm. pose proof (abort_rollback t Ht) as Hr. rewrite M_bind_eq.
  destruct (tr_call stm_rollback t) as [t3 [b|e|]]; [|done..]. specialize (Hm t3).
  destruct (m t3) as [t4 [[o|]|e|]]; by subst.
Qed.

(** The program of a transaction leaves it running if it ends with an output; otherwise it is
    rolled back, unless something undefined was done. *)
Lemma execute_log fuel logTrace p heap t : running (tr_log t) ->
  let '(t', r) := execute fuel logTrace p heap t in
  match r with
  | Ok (Some _) => running (tr_log t')
  | Ok None | Throw (RuntimeError _) => rolled_back (tr_log t')
  | _ => running (tr_log t') \/ rolled_back (tr_log t')
  end.
Proof.
  intros Ht. unfold execute.
  pose proof (keeps_execute (fun x : Logged D => running (lg_log x)) commands_run fuel
    (ProgramInstance_make p heap (Some (m_stm t)) logTrace)) as Hk.
  destruct (ProgramInstance.execute _ _) as [s r]. destruct Hk as (x & Hx & Hrun); [by exists (m_stm t)|].
  cbn in Hx. rewrite Hx. set (t1 := set_stm t x). assert (running (tr_log t1)) as H1 by done.
  assert (forall err, running (tr_log (set_tr_error t1 err))) as Herr by done.
  assert (forall (m : M (Transaction (Logged D)) (option Output.t)) t2,
    (let '(t', r) := m t2 in match r with Ok (Some _) => False | _ => rolled_back (tr_log t') end) ->
    let '(t', r) := m t2 in
    match r with
    | Ok (Some _) => running (tr_log t')
    | Ok None | Throw (RuntimeError _) => rolled_back (tr_log t')
    | _ => running (tr_log t') \/ rolled_back (tr_log t')
    end) as Hend.
  { intros m t2 Hm. destruct (m t2) as [t' [[o|]|[]|]]; auto; done. }
  destruct r as [[|]|e|]; [done| | |by left].
  - apply Hend, abort_log; done.
  - destruct e; try (by left); apply Hend, abort_log; done.
Qed.

(** ** The transaction of a function *)

Context {F : Type} `{TypedInputFilter F}.
Context (toint : Variant -> res Z) (context : ExecContext D) (func : TdlTransactionFunction)
  (logTrace : option (Z -> res unit)).

(** The execution context with state machines that record. *)
Definition logged_context : ExecContext (Logged D) :=
  mkExecContext (authorizationFunction context) (provider context) (auditFunction context)
    (fun name => d ← transaction context name; Ok (option_map (fun d => mkLogged d []) d)).

(** The audit functions that are critical accept the output, each its part of it. *)
Definition accepted (out : Output.t) (idx : nat) (steps : list (AuditLevel * string)) : Prop :=
  forall k name, steps !! k = Some (Critical, name) -> audit_call logged_context out name (idx + k) = Ok tt.

Lemma audit_log out steps : forall idx t, running (tr_log t) ->
  let '(t', r) := audit logged_context func out steps idx t in
  match r with
  | Ok _ => t' = t /\ accepted out idx steps
  | Throw (RuntimeError _) => rolled_back (tr_log t')
  | _ => running (tr_log t') \/ rolled_back (tr_log t')
  end.
Proof.
  induction steps as [|[level name] steps IH]; intros idx t Ht; cbn [audit]; [split; [done|]; intros k n Hk; by rewrite lookup_nil in Hk|].
  rewrite M_bind_eq. unfold try_catch, lift at 1. destruct (audit_call logged_context out name idx) as [[]|e|] eqn:E.
  - specialize (IH (S idx) t Ht). destruct (audit _ _ _ _ _ _) as [t' [[]|[]|]]; auto. destruct IH as [-> Hacc]. split; [done|].
    intros [|k] n Hk; cbn in Hk; [injection Hk as -> ->; by rewrite Nat.add_0_r|]. rewrite Nat.add_succ_r. by apply (Hacc k n).
  - destruct e as [w| | | | | |]; try (by left).
    destruct level; cbn [mret M_ret].
    + specialize (IH (S idx) t Ht). destruct (audit _ _ _ _ _ _) as [t' [[]|[]|]]; auto. destruct IH as [-> Hacc]. split; [done|].
      intros [|k] n Hk; cbn in Hk; [done|]. rewrite Nat.add_succ_r. by apply (Hacc k n).
    + rewrite M_bind_eq. pose proof (rollback_log t Ht) as Hr. destruct (rollback t) as [t' [[]|[]|]]; auto.
  - by left.
Qed.

(** How a transaction ends: what the database was asked to do, and the result of the call.
    [l] is a begin that may have failed without an error, with the commands behind it. *)
Inductive outcome : list Event -> res bool -> Prop :=
| committed l ok out :
    running l -> accepted out 1 (tf_audit func) ->
    outcome (l ++ [ECommit ok]) (_ ← build_result logged_context func out; Ok true)
| commit_failed l out r :
    running l -> accepted out 1 (tf_audit func) -> failed r -> outcome (l ++ [ECommit false]) r
| aborted l ok r : running l -> failed r -> outcome (l ++ [ERollback ok]) r
| not_begun r : failed r -> outcome [EBegin false] r
| left_open l r : running l -> not_runtime r -> outcome l r.

(** The same failure as a result of another type. *)
Definition fails_as {A B} (r : res A) (r' : res B) : Prop :=
  match r with Ok _ => False | Throw e => r' = Throw e | OutOfFuel => r' = OutOfFuel end.

Lemma fails_failed {A B} (r : res A) (r' : res B) : fails_as r r' -> failed r'.
Proof. destruct r; cbn; [done|by intros ->..]. Qed.

Lemma fails_outcome {A} l (r : res A) r' :
  fails_as r r' ->
  match r with
  | Throw (RuntimeError _) => rolled_back l
  | _ => running l \/ rolled_back l
  end -> outcome l r'.
Proof.
  intros Hf Hl. pose proof (fails_failed _ _ Hf) as Hfail.
  assert (rolled_back l -> outcome l r') as Hr by (intros (l0 & b & Hl0 & ->); by apply aborted).
  assert (running l -> not_runtime r' -> outcome l r') as Ho by (intros; by apply left_open).
  destruct r as [a|[]|]; cbn in Hf; subst; try done; auto; destruct Hl as [Hl|Hl]; auto; by apply Ho.
Qed.

Lemma run_transaction_log fuel p heap d :
  let '(t, r) := run_transaction logged_context func logTrace fuel p heap (mkTransaction (mkLogged d []) DatabaseError_default) in
  match r with
  | Ok out => exists l ok, running l /\ tr_log t = l ++ [ECommit ok] /\ accepted out 1 (tf_audit func)
  | _ => forall r' : res bool, fails_as r r' -> outcome (tr_log t) r'
  end.
Proof using Type.
  unfold run_transaction. set (t0 := mkTransaction (mkLogged d []) DatabaseError_default).
  destruct (begin_log t0 eq_refl) as [b Hb]. rewrite M_bind_eq. destruct (begin t0) as [t1 r1]. destruct Hb as [Hl Hb].
  assert (running (tr_log t1)) as Ht1 by (rewrite Hl; by exists b, 0%nat).
  destruct r1 as [[]|e|]; [|intros r' Hf; rewrite Hl, (Hb I); by apply not_begun, (fails_failed _ _ Hf)..].
  rewrite M_bind_eq. pose proof (execute_log fuel logTrace p heap t1 Ht1) as He.
  destruct (execute fuel logTrace p heap t1) as [t2 [[out|]|e|]].
  - rewrite M_bind_eq. pose proof (audit_log out (tf_audit func) 1 t2 He) as Ha.
    destruct (audit _ _ _ _ _ _) as [t3 [[]|e|]].
    + destruct Ha as [-> Hacc]. rewrite M_bind_eq. destruct (commit_log t2) as [c Hc].
      destruct (commit t2) as [t4 [[]|e|]]; destruct Hc as [Hlog Hc].
      * exists (tr_log t2), c. split_and!; done.
      * intros r' Hf. rewrite Hlog, (Hc I). eapply commit_failed; [done|exact Hacc|]. exact (fails_failed _ _ Hf).
      * intros r' Hf. rewrite Hlog, (Hc I). eapply commit_failed; [done|exact Hacc|]. exact (fails_failed _ _ Hf).
    + intros r' Hf. eapply fails_outcome; [exact Hf|]. destruct e; exact Ha.
    + intros r' Hf. eapply fails_outcome; [exact Hf|]. exact Ha.
  - cbn. intros r' ->. destruct He as (l & c & Hr & ->). by apply aborted.
  - intros r' Hf. eapply fails_outcome; [exact Hf|]. destruct e; exact He.
  - intros r' Hf. eapply fails_outcome; [exact Hf|]. exact He.
Qed.

(** ** The closure *)

Abbreviation closure := (TdlClosure.t F (Logged D)).
Abbreviation call_ := (call toint logged_context func logTrace).

Definition authorized : Prop :=
  Forall (fun z => checkAuthorization context (auth_function z) (auth_resource z) false = Ok None) (tf_authorizations func).

Lemma authorize_Ok : authorize logged_context func (tf_authorizations func) = Ok tt -> authorized.
Proof using Type.
  unfold authorized. induction (tf_authorizations func) as [|z zs IH]; [constructor|]. cbn.
  change (checkAuthorization logged_context) with (checkAuthorization context).
  destruct (checkAuthorization _ _ _ _) as [[err|]|e|] eqn:E; cbn; try done. intros Hz. constructor; [done|]. by apply IH.
Qed.

(** The transaction run by a call that leaves the closure in [s'], with the result of the call. *)
Definition ran (s' : closure) (r : res bool) : Prop := exists x, cl_db s' = Some x /\ outcome (lg_log x) r.

Lemma fails_as_res {A} (r : res A) : failed r -> fails_as r (match r with Ok _ => Ok true | Throw e => Throw e | OutOfFuel => OutOfFuel end).
Proof. by destruct r. Qed.

(** State 3 of the closure: the state is kept if it fails. *)
Lemma execute_function_log fuel (s : closure) :
  let '(s', r) := execute_function toint logged_context func logTrace fuel s in
  (cl_db s' = cl_db s /\ failed r \/ ran s' r) /\
  (failed r -> TdlClosure.m_state s' = TdlClosure.m_state s) /\ (~ failed r -> TdlClosure.m_state s' = 4).
Proof using Type.
  unfold execute_function. rewrite M_bind_eq. cbn [gets]. rewrite M_bind_eq. unfold lift at 1.
  destruct (PreprocCall.finalize _ _ _ _) as [st|e|]; [|by (split; [left|split])..].
  rewrite M_bind_eq. cbn [set_inputstruct modify]. rewrite M_bind_eq. unfold lift at 1.
  destruct (TdlTransactionInput _ _ _ _) as [[p heap]|e|]; [|by (split; [left|split])..].
  rewrite M_bind_eq. unfold lift at 1. cbn [TdlFunction.transaction logged_context].
  destruct (TdlFunction.transaction context (tf_name func)) as [[d|]|e|]; cbn [option_map mbind res_bind]; [|by (split; [left|split])..].
  rewrite M_bind_eq. unfold with_transaction. pose proof (run_transaction_log fuel p heap d) as Hr.
  destruct (run_transaction _ _ _ _ _ _ _) as [t [out|e|]].
  - destruct Hr as (l & ok & Hl & Hlog & Hacc). pose proof (committed l ok out Hl Hacc) as Hout. rewrite <- Hlog in Hout.
    rewrite M_bind_eq. unfold lift. destruct (build_result logged_context func out) as [fr|e|]; cbn in Hout |- *;
      (split; [right; by exists (m_stm t)|by split]).
  - split; [right|by split]. exists (m_stm t). split; [done|by apply Hr].
  - split; [right|by split]. exists (m_stm t). split; [done|by apply Hr].
Qed.

Lemma read_input_log fuel (s : closure) :
  let '(s', r) := read_input toint fuel s in cl_db s' = cl_db s /\ TdlClosure.m_state s' = TdlClosure.m_state s.
Proof. unfold read_input. by destruct (RedirectFilterClosure.call _ _ _ _). Qed.

(** The state of a closure: it is authorized once it reads its input. *)
Definition valid (s : closure) : Prop :=
  1 <= TdlClosure.m_state s <= 4 /\ (2 <= TdlClosure.m_state s -> authorized).

(** A call that runs no transaction: it fails, waits for input or is repeated after the end. *)
Definition idle (s s' : closure) (r : res bool) : Prop :=
  cl_db s' = cl_db s /\
  match r with
  | Ok true => s' = s /\ TdlClosure.m_state s = 4
  | Ok false => TdlClosure.m_state s' = 2
  | _ => True
  end.

Definition stepped (s s' : closure) (r : res bool) : Prop := valid s' /\ (idle s s' r \/ authorized /\ ran s' r).

Lemma execute_function_step fuel (s0 s : closure) : cl_db s = cl_db s0 -> TdlClosure.m_state s = 3 -> authorized ->
  let '(s', r) := execute_function toint logged_context func logTrace fuel s in stepped s0 s' r.
Proof using Type.
  intros Hdb Hs Ha. pose proof (execute_function_log fuel s) as He.
  destruct (execute_function _ _ _ _ _ _) as [s' r]. destruct He as (Hrun & Hf & Ho). split.
  - split; [|done]. destruct r; [rewrite Ho by auto|rewrite Hf by done..]; lia.
  - destruct Hrun as [[Hd Hfail]|Hran]; [left|by right]. split; [by rewrite Hd|by destruct r].
Qed.

Lemma from_input_step fuel (s0 s : closure) : cl_db s = cl_db s0 -> TdlClosure.m_state s = 2 -> authorized ->
  let '(s', r) := from_input toint logged_context func logTrace fuel s in stepped s0 s' r.
Proof using Type.
  intros Hdb Hs Ha. unfold from_input. rewrite M_bind_eq. pose proof (read_input_log fuel s) as Hr.
  destruct (read_input _ _ _) as [s1 [[|]|e|]]; destruct Hr as [Hdb1 Hs1]; cbn [negb].
  - rewrite M_bind_eq. cbn [TdlClosure.set_state modify].
    by apply execute_function_step; cbn; [rewrite Hdb1| |].
  - split; [|left]; split; cbn; [lia|done|by rewrite Hdb1|lia].
  - split; [|left]; split; cbn; [lia|done|by rewrite Hdb1|done].
  - split; [|left]; split; cbn; [lia|done|by rewrite Hdb1|done].
Qed.

Lemma call_step fuel (s : closure) : valid s -> let '(s', r) := call_ fuel s in stepped s s' r.
Proof using Type.
  intros [Hs Ha]. unfold call. rewrite M_bind_eq. cbn [gets id].
  destruct (Z.eqb_spec (TdlClosure.m_state s) 0); [lia|]. destruct (Z.eqb_spec (TdlClosure.m_state s) 1) as [H1'|].
  { rewrite M_bind_eq. unfold lift at 1. destruct (authorize _ _ _) as [[]|e|] eqn:E; [|by (split; [|left])..].
    rewrite M_bind_eq. cbn [TdlClosure.set_state modify]. by apply from_input_step; [..|apply authorize_Ok]. }
  destruct (Z.eqb_spec (TdlClosure.m_state s) 2); [apply from_input_step; [done..|apply Ha; lia]|].
  destruct (Z.eqb_spec (TdlClosure.m_state s) 3); [apply execute_function_step; [done..|apply Ha; lia]|].
  split; [done|left]. split; [done|]. split; [done|lia].
Qed.

(** The closures a client can have: created on an input, called, and called again after more
    data was given to the input. *)
Inductive reached : closure -> Prop :=
| reached_init i : reached (TdlClosure.init func i)
| reached_feed s i : reached s ->
    reached (TdlClosure.mk (TdlClosure.m_state s) i (m_redirect s) (m_inputstruct s) (m_result s) (cl_db s))
| reached_call s fuel : reached s -> reached (call_ fuel s).1.

Lemma reached_valid s : reached s -> valid s.
Proof using Type.
  induction 1 as [i|s i _ IH|s fuel _ IH]; [split; cbn; lia|exact IH|].
  pose proof (call_step fuel s IH) as Hc. destruct (call_ fuel s). apply Hc.
Qed.


End Log.

(** ** A transaction from its source to its commit *)

Module FunctionDemo.

Definition source : string :=
  "AUTHORIZE(may, person)
   BEGIN
     DO INSERT INTO person (id) VALUES ($(/person/id));
     PRINT 'done' INTO state;
   END
   AUDIT CRITICAL logger WITH BEGIN
     INTO entry BEGIN PRINT /person/id INTO id; END
   END".

Definition loaded : res (option TdlTransactionFunction) :=
  '(tf, _, _) ← parseTransactionBody LanguageDescriptionSQL "pg" "postgres" [] "addPerson" (chars source)
                  (mkFileLineInfo None 1 1);
  Ok tf.

Definition addPerson : TdlTransactionFunction :=
  match loaded with
  | Ok (Some f) => f
  | _ => mkTdlTransactionFunction "" "" [] [] [] Program.make
  end.

(** An input that is a list of elements; the flag says that it is the end of the input. *)
Definition Feed : Type := bool * list element.

#[local] Instance Feed_filter : TypedInputFilter Feed := {|
  if_getNext (f : Feed) := match f.2 with [] => (f, None) | e :: l => ((f.1, l), Some e) end;
  if_state (f : Feed) := if f.1 then Open else EndOfMessage;
  if_getError _ := None
|}.

(** A context in which access to persons is allowed and [logger] accepts everything. *)
Definition context : ExecContext TableDb :=
  mkExecContext (fun _ => Some (fun resource => Ok (bool_decide (resource = "person"%string)))) (mkProvider (fun _ => None) (fun _ => None))
    (fun name => if bool_decide (name = "logger"%string) then Some (fun _ _ => Ok (Completed [] None)) else None)
    (fun _ => Ok (Some (db_init (fun stm _ => Some ([], []))))).

Abbreviation call := (TdlClosure.call (fun _ => Ok 0) (logged_context context) addPerson None 100).

(** The first call sees the begin of the document only. *)
Definition started : TdlClosure.t Feed (Logged TableDb) :=
  (call (TdlClosure.init addPerson (false, [(OpenTag, Str "person"); (Attribute, Str "id")]))).1.

Definition continued : TdlClosure.t Feed (Logged TableDb) :=
  TdlClosure.mk (TdlClosure.m_state started) (true, [(Value, Int 7); (CloseTag, Null); (CloseTag, Null)])
    (m_redirect started) (m_inputstruct started) (m_result started) (cl_db started).

End FunctionDemo.
#[local] Existing Instance FunctionDemo.Feed_filter.

