(* ===== verification/TdlInputFacts.v ===== *)
(** * Resolving the paths of a program

    What the rewriter of tdlTransactionInput.cpp makes of a program: every instruction it can
    reach refers to no path any more, and what replaces a path has the values of the nodes it
    selects. *)
From S2P Require Import Prelude InstructionSet Variant ValueTupleSet ProgramImage TdlTables SelectorPath TdlProgram Transaction InputStructure InputLayout InputSelect TdlInput.
Import ProgramRewriter.

(** ** Instructions *)

Definition path_instr (x : Z) : Prop := argumentType (opCode x) = Ok At_Path.

(** Where the rewriter goes on. *)
Inductive control := Stop | Goto (a : Z) | GotoIf (a : Z) | Straight.

Definition control_of (x : Z) : control :=
  let oc := opCode x in
  if is_op oc Op_EXIT || is_op oc Op_RETURN then if always x then Stop else Straight
  else if is_op oc Op_GOTO then if always x then Goto (argumentIndex x) else GotoIf (argumentIndex x)
  else Straight.

Lemma condCode_range x : 0 <= condCode x < 4.
Proof. destruct (fields_read x) as (-> & _). apply Z.mod_pos_bound. lia. Qed.

Lemma argumentIndex_nat x : Z.of_nat (Z.to_nat (argumentIndex x)) = argumentIndex x.
Proof. apply Z2Nat.id. destruct (fields_read x) as (_ & _ & ->). apply Z.mod_pos_bound. lia. Qed.

Lemma raw_op c op a x :
  0 <= c < 4 -> 0 <= a -> instruction_raw c (OpCode_val op) a = Ok x ->
  opCode x = OpCode_val op /\ condCode x = c /\ argumentIndex x = a.
Proof.
  intros Hc Ha H. pose proof (OpCode_val_range op).
  destruct (instruction_raw_decode c (OpCode_val op) a x) as (? & ? & ? & _); try done. lia.
Qed.

Definition is_control (op : OpCode) : bool :=
  bool_decide (op = Op_EXIT) || bool_decide (op = Op_RETURN) || bool_decide (op = Op_GOTO).

Lemma is_op_val op op' : is_op (OpCode_val op) op' = bool_decide (op = op').
Proof. unfold is_op. destruct op, op'; reflexivity. Qed.

Lemma is_op_eq oc op : is_op oc op = true -> oc = OpCode_val op.
Proof. apply Z.eqb_eq. Qed.

(** The operations that replace others are no jumps, and they have no path. *)
Lemma replaced_plain c op a x at_ :
  0 <= c < 4 -> 0 <= a -> instruction_raw c (OpCode_val op) a = Ok x ->
  is_control op = false -> argumentType (OpCode_val op) = Ok at_ -> at_ <> At_Path ->
  control_of x = Straight /\ ~ path_instr x.
Proof.
  intros Hc Ha H Hop Hat Hne. destruct (raw_op _ _ _ _ Hc Ha H) as (Ho & _ & _). split.
  - unfold control_of. rewrite Ho, !is_op_val. unfold is_control in Hop.
    apply orb_false_iff in Hop as [Hop ->]. apply orb_false_iff in Hop as [-> ->]. done.
  - unfold path_instr. rewrite Ho, Hat. congruence.
Qed.

Lemma path_straight x : path_instr x -> control_of x = Straight.
Proof.
  unfold path_instr, control_of. intros H.
  assert (forall op at_, argumentType (OpCode_val op) = Ok at_ -> at_ <> At_Path -> is_op (opCode x) op = false) as Hop.
  { intros op at_ Hat Hne. destruct (is_op (opCode x) op) eqn:E; [|done]. apply is_op_eq in E. rewrite E in H. congruence. }
  rewrite (Hop Op_EXIT At_None), (Hop Op_RETURN At_None), (Hop Op_GOTO At_Address) by done. done.
Qed.

Lemma iterator_op_cases oc op : iterator_op oc = Ok op ->
  op = Op_SUB_ARG_ITR_IDX \/ op = Op_OUTPUT_ITR_IDX \/ op = Op_DBSTM_BIND_ITR_IDX.
Proof. unfold iterator_op. repeat case_match; try done; intros [= <-]; auto. Qed.

Lemma constant_op_cases oc op : constant_op oc = Ok op ->
  op = Op_SUB_ARG_CONST \/ op = Op_OUTPUT_CONST \/ op = Op_DBSTM_BIND_CONST.
Proof. unfold constant_op. repeat case_match; try done; intros [= <-]; auto. Qed.

Lemma constant_plain c oc op a x :
  0 <= c < 4 -> 0 <= a -> constant_op oc = Ok op -> instruction_raw c (OpCode_val op) a = Ok x ->
  control_of x = Straight /\ ~ path_instr x.
Proof.
  intros Hc Ha Hop H. destruct (constant_op_cases _ _ Hop) as [->|[->| ->]];
    eapply (replaced_plain _ _ _ _ At_Constant); done.
Qed.

Lemma column_plain c oc op a x :
  0 <= c < 4 -> 0 <= a -> iterator_op oc = Ok op -> instruction_raw c (OpCode_val op) a = Ok x ->
  control_of x = Straight /\ ~ path_instr x.
Proof.
  intros Hc Ha Hop H. destruct (iterator_op_cases _ _ Hop) as [->|[->| ->]];
    eapply (replaced_plain _ _ _ _ At_IteratorColumnIdx); done.
Qed.

Lemma open_plain c a x :
  0 <= c < 4 -> 0 <= a -> instruction_raw c (OpCode_val Op_OPEN_ITER_TUPLESET) a = Ok x ->
  control_of x = Straight /\ ~ path_instr x.
Proof. intros. eapply (replaced_plain _ _ _ _ At_TupleSet); done. Qed.

(** ** What replaces a path *)

Section Resolved.
Context (pathset : SelectorPathSet.t) (input : InputStructure.t) (p0 : ProgramImage) (h0 : ValueTupleSet.store).

Definition path_of_instr (x : Z) (q : SelectorPath.t) : Prop := SelectorPathSet.getPath pathset (argumentIndex x) = Ok q.
Definition selects (q : SelectorPath.t) (ns : list Z) : Prop :=
  SelectNodes.selectNodes q input InputStructure.rootindex = Ok ns.

(** Behind [i0] up to [i] there is no end of a loop. *)
Definition in_scope (i0 i : nat) : Prop :=
  (i0 < i)%nat /\ forall m z, (i0 <= m <= i)%nat -> code p0 !! m = Some z -> is_op (opCode z) Op_NEXT = false.

(** The loop that is opened at [i0] iterates over the table with the [rows] for the nodes
    [ns]. *)
Record loop_over (p : ProgramImage) (h : ValueTupleSet.store) (i0 : nat) (ns : list Z) (rows : list (list Variant)) : Prop := {
  lo_open : exists x0 x q k l cols, code p0 !! i0 = Some x0 /\ opCode x0 = OpCode_val Op_OPEN_ITER_PATH /\
    path_of_instr x0 q /\ selects q ns /\ code p !! i0 = Some x /\
    instruction_raw (condCode x0) (OpCode_val Op_OPEN_ITER_TUPLESET) (Z.of_nat k) = Ok x /\
    tuplesets p !! k = Some (Some l) /\ h !! l = Some (ValueTupleSet.of_rows cols rows) /\
    ValueTupleSet.rows_ok cols rows;
  lo_rows : length rows = length ns
}.

(** The instruction [x] at [i] in the place of [x0]. *)
Inductive resolved (p : ProgramImage) (h : ValueTupleSet.store) (i : nat) (x0 x : Z) : Prop :=
| resolved_same : x = x0 -> resolved p h i x0 x
| resolved_constant q ns v k op :
    path_of_instr x0 q -> selects q ns -> single_value pathset input q ns = Ok v ->
    constant_op (opCode x0) = Ok op -> constants p !! k = Some v ->
    instruction_raw (condCode x0) (OpCode_val op) (Z.of_nat k) = Ok x -> resolved p h i x0 x
| resolved_open ns rows :
    loop_over p h i ns rows -> ~ path_instr x -> control_of x = Straight -> path_instr x0 -> resolved p h i x0 x
| resolved_column i0 ns rows q j op :
    loop_over p h i0 ns rows -> in_scope i0 i -> path_of_instr x0 q ->
    Forall2 (fun n r => exists v, loop_value pathset input q n = Ok v /\ r !! j = Some v) ns rows ->
    iterator_op (opCode x0) = Ok op ->
    instruction_raw (condCode x0) (OpCode_val op) (Z.of_nat (S j)) = Ok x -> path_instr x0 -> resolved p h i x0 x.

(** Later states of the rewriter. *)
Record grows (p : ProgramImage) (h : ValueTupleSet.store) (p' : ProgramImage) (h' : ValueTupleSet.store) : Prop := {
  gr_constants : constants p `prefix_of` constants p';
  gr_tuplesets : tuplesets p `prefix_of` tuplesets p';
  gr_heap : h `prefix_of` h';
  gr_length : length (code p') = length (code p);
  gr_code : forall i x, code p !! i = Some x -> ~ path_instr x -> code p' !! i = Some x
}.

Lemma grows_refl p h : grows p h p h.
Proof. by split. Qed.

Lemma grows_trans p h p1 h1 p2 h2 : grows p h p1 h1 -> grows p1 h1 p2 h2 -> grows p h p2 h2.
Proof. intros [? ? ? ? ?] [? ? ? ? ?]. split; try (by etrans). eauto. Qed.

Lemma prefix_get {A} (l l' : list A) i x : l `prefix_of` l' -> l !! i = Some x -> l' !! i = Some x.
Proof. intros [k ->] H. by apply lookup_app_l_Some. Qed.

Lemma loop_over_grows p h p' h' i0 ns rows :
  grows p h p' h' -> loop_over p h i0 ns rows -> loop_over p' h' i0 ns rows.
Proof.
  intros [G1 G2 G3 G4 G5] [(x0 & x & q & k & l & cols & H1 & H2 & H3 & H4 & H5 & H6 & H7 & H8 & H9) Hr].
  split; [|done]. exists x0, x, q, k, l, cols. split_and!; try done; try (by eapply prefix_get).
  apply G5; [done|]. eapply open_plain; [apply condCode_range| |exact H6]. lia.
Qed.

Lemma resolved_grows p h p' h' i x0 x :
  grows p h p' h' -> resolved p h i x0 x -> resolved p' h' i x0 x.
Proof.
  intros G [?|q ns v k op H1 H2 H3 H4 H5 H6|ns rows H1 H2 H3 H4|i0 ns rows q j op H1 H2 H3 H4 H5 H6 H7].
  - by apply resolved_same.
  - eapply resolved_constant; try done. eapply prefix_get; [apply G|done].
  - eapply resolved_open; try done. by eapply loop_over_grows.
  - eapply resolved_column; try done. by eapply loop_over_grows.
Qed.

Lemma constant_op_path x op : constant_op (opCode x) = Ok op -> path_instr x.
Proof.
  unfold path_instr, constant_op. intros H.
  destruct (is_op (opCode x) Op_SUB_ARG_PATH) eqn:E1; [apply is_op_eq in E1; by rewrite E1|].
  destruct (is_op (opCode x) Op_OUTPUT_PATH) eqn:E2; [apply is_op_eq in E2; by rewrite E2|].
  destruct (is_op (opCode x) Op_DBSTM_BIND_PATH) eqn:E3; [apply is_op_eq in E3; by rewrite E3|]. done.
Qed.

(** Only references to paths are replaced. *)
Lemma resolved_path p h i x0 x : resolved p h i x0 x -> x = x0 \/ path_instr x0.
Proof. intros []; try (by right); [by left|]. right. by eapply constant_op_path. Qed.

(** A replaced instruction has no path and does not change where the rewriter goes. *)
Lemma resolved_control p h i x0 x :
  resolved p h i x0 x -> control_of x = control_of x0 /\ (path_instr x -> x = x0).
Proof.
  intros [->|q ns v k op H1 H2 H3 H4 H5 H6|ns rows H1 H2 H3 H4|i0 ns rows q j op H1 H2 H3 H4 H5 H6 H7]; [done|..].
  - destruct (constant_plain _ _ _ _ _ (condCode_range x0) (Nat2Z.is_nonneg _) H4 H6) as [Hs Hp]. split; [|done].
    rewrite Hs. symmetry. apply path_straight. by eapply constant_op_path.
  - split; [|done]. rewrite H3. symmetry. by apply path_straight.
  - destruct (column_plain _ _ _ _ _ (condCode_range x0) (Nat2Z.is_nonneg _) H5 H6) as [Hs Hp]. split; [|done].
    rewrite Hs. symmetry. by apply path_straight.
Qed.
(** ** Tables of loops *)

Lemma res_map_Ok {A B} (f : A -> res B) l ys : res_map f l = Ok ys -> Forall2 (fun x y => f x = Ok y) l ys.
Proof.
  revert ys. induction l as [|x l IH]; intros ys; cbn; [intros [= <-]; constructor|].
  destruct (f x) eqn:E; cbn; try done. destruct (res_map f l); cbn; try done. intros [= <-]. constructor; [done|]. by apply IH.
Qed.

Lemma push_rows_Ok cols rows : forall done_ ts,
  push_rows (ValueTupleSet.of_rows cols done_) rows = Ok ts -> ValueTupleSet.rows_ok cols done_ ->
  ts = ValueTupleSet.of_rows cols (done_ ++ rows) /\ ValueTupleSet.rows_ok cols (done_ ++ rows).
Proof.
  induction rows as [|r rows IH]; intros done_ ts; cbn [push_rows].
  - intros [= <-] H. by rewrite app_nil_r.
  - destruct (decide (length r = length cols)) as [Hl|Hl].
    + rewrite ValueTupleSetFacts.push_of_rows by done. cbn [mbind res_bind]. intros H Hok.
      destruct (IH _ _ H) as [-> ?]; [apply Forall_app; split; [done|]; by constructor|]. by rewrite <- app_assoc in *.
    + unfold ValueTupleSet.push. cbn. by rewrite (proj2 (Nat.eqb_neq _ _)).
Qed.

Lemma loop_table_Ok pathtuple sel ts :
  loop_table pathset input pathtuple sel = Ok ts ->
  exists cols rows, ts = ValueTupleSet.of_rows cols rows /\ ValueTupleSet.rows_ok cols rows /\ length rows = length sel /\
    forall j q, pathtuple !! j = Some q ->
      Forall2 (fun n r => exists v, loop_value pathset input q n = Ok v /\ r !! j = Some v) sel rows.
Proof.
  unfold loop_table. destruct pathtuple as [|q0 pathtuple].
  - intros H. apply (push_rows_Ok [""%string] _ []) in H as [-> Hok]; [|constructor].
    eexists _, _. split; [reflexivity|]. split; [done|]. cbn [app]. rewrite length_map. split; [done|].
    intros j q H. by rewrite lookup_nil in H.
  - destruct (res_map (column_name pathset) (q0 :: pathtuple)) as [cols| |]; cbn [mbind res_bind]; try done.
    destruct (res_map _ sel) as [rows| |] eqn:Er; cbn [mbind res_bind]; try done. intros H.
    apply (push_rows_Ok cols _ []) in H as [-> Hok]; [|constructor]. cbn [app] in *.
    apply res_map_Ok in Er. exists cols, rows. split; [done|]. split; [done|]. split; [symmetry; by eapply Forall2_length|].
    intros j q Hj. eapply Forall2_impl; [exact Er|]. intros n r Hr. apply res_map_Ok in Hr.
    destruct (Forall2_lookup_l _ _ _ _ _ Hr Hj) as (v & Hv & Hlv). by exists v.
Qed.

(** ** The scope of a loop *)

(** What becomes of the instruction [x] at [m] of the code [c] behind an iterator. *)
Definition scope_instr (c : list Z) (pathtuple : list SelectorPath.t) (m : nat) (x x' : Z) : Prop :=
  (x' = x) \/
  (path_instr x /\ (forall k y, (k <= m)%nat -> c !! k = Some y -> is_op (opCode y) Op_NEXT = false) /\
   exists q j op, path_of_instr x q /\ iterator_op (opCode x) = Ok op /\ pathtuple !! j = Some q /\
     instruction_raw (condCode x) (OpCode_val op) (Z.of_nat (S j)) = Ok x').

Lemma rewrite_scope_Ok c : forall pt c' pt',
  rewrite_scope pathset pt c = Ok (c', pt') ->
  length c' = length c /\ pt `prefix_of` pt' /\
  forall m x, c !! m = Some x -> exists x', c' !! m = Some x' /\ scope_instr c pt' m x x'.
Proof.
  induction c as [|y c IH]; intros pt c' pt'; cbn [rewrite_scope]; [intros [= <- <-]; split_and!; try done|].
  destruct (is_op (opCode y) Op_NEXT) eqn:En.
  { intros [= <- <-]. split_and!; try done. intros m x Hm. exists x. split; [done|by left]. }
  assert (forall m (c1 : list Z) (pt1 : list SelectorPath.t),
    (forall x, c !! m = Some x -> exists x', c1 !! m = Some x' /\ scope_instr c pt1 m x x') ->
    forall x, c !! m = Some x -> exists x', c1 !! m = Some x' /\ scope_instr (y :: c) pt1 (S m) x x') as Hshift.
  { intros m c1 pt1 H x Hx. destruct (H x Hx) as (x' & H1 & H2). exists x'. split; [done|].
    destruct H2 as [->|(H2 & H3 & H4)]; [by left|right]. split_and!; try done.
    intros [|k] z Hk Hz; [by injection Hz as <-|]. eapply H3; [|done]. lia. }
  destruct (argumentType (opCode y)) as [at_| |] eqn:Ea; cbn [mbind res_bind]; try done. case_bool_decide as Hp.
  - subst at_. destruct (SelectorPathSet.getPath pathset (argumentIndex y)) as [q| |] eqn:Eq; cbn [mbind res_bind]; try done.
    destruct (iterator_op (opCode y)) as [op| |] eqn:Eop; cbn [mbind res_bind]; try done.
    destruct (instruction_raw _ _ _) as [y'| |] eqn:Ey; cbn [mbind res_bind]; try done.
    destruct (rewrite_scope pathset (pt ++ [q]) c) as [[c1 pt1]| |] eqn:Er; cbn [mbind res_bind]; try done.
    intros [= <- <-]. destruct (IH _ _ _ Er) as (Hl & Hpre & Hall). split_and!; [by cbn; f_equal|etrans; [by exists [q]|done]|].
    intros [|m] x Hx.
    + injection Hx as <-. exists y'. split; [done|]. right. split_and!; [done| |].
      * intros [|k] z Hk Hz; [by injection Hz as <-|lia].
      * exists q, (length pt), op. split_and!; try done; [|].
        -- eapply prefix_get; [done|]. by rewrite list_lookup_middle.
        -- rewrite <- Ey. rewrite length_app. cbn. do 2 f_equal. lia.
    + exact (Hshift m c1 pt1 (Hall m) x Hx).
  - destruct (rewrite_scope pathset pt c) as [[c1 pt1]| |] eqn:Er; cbn [mbind res_bind]; try done.
    intros [= <- <-]. destruct (IH _ _ _ Er) as (Hl & Hpre & Hall). split_and!; [by cbn; f_equal|done|].
    intros [|m] x Hx.
    + injection Hx as <-. exists y. split; [done|by left].
    + exact (Hshift m c1 pt1 (Hall m) x Hx).
Qed.

(** ** A state of the rewriter *)

Record kept (p : ProgramImage) (h : ValueTupleSet.store) : Prop := {
  kp_length : length (code p) = length (code p0);
  kp_constants : constants p0 `prefix_of` constants p;
  kp_tuplesets : tuplesets p0 `prefix_of` tuplesets p;
  kp_heap : h0 `prefix_of` h;
  kp_code : forall i x0, code p0 !! i = Some x0 -> exists x, code p !! i = Some x /\ resolved p h i x0 x
}.

Lemma kept_start : kept p0 h0.
Proof. split; try done. intros i x0 H. exists x0. split; [done|by apply resolved_same]. Qed.

(** The instruction of the program at the place of one of the state. *)
Lemma kept_origin p h i x : kept p h -> code p !! i = Some x -> exists x0, code p0 !! i = Some x0 /\ resolved p h i x0 x.
Proof.
  intros K Hx. destruct (lookup_lt_is_Some_2 (code p0) i) as [x0 Hx0].
  { rewrite <- (kp_length _ _ K). by eapply lookup_lt_Some. }
  destruct (kp_code _ _ K _ _ Hx0) as (y & Hy & Hr). exists x0. split; [done|]. congruence.
Qed.

Lemma kept_path p h i x : kept p h -> code p !! i = Some x -> path_instr x -> code p0 !! i = Some x.
Proof.
  intros K Hx Hp. destruct (kept_origin _ _ _ _ K Hx) as (x0 & H0 & Hr).
  by rewrite (proj2 (resolved_control _ _ _ _ _ Hr) Hp).
Qed.

Lemma kept_next p h i x z :
  kept p h -> code p !! i = Some x -> is_op (opCode x) Op_NEXT = false -> code p0 !! i = Some z ->
  is_op (opCode z) Op_NEXT = false.
Proof.
  intros K Hx Hn Hz. destruct (kept_origin _ _ _ _ K Hx) as (x0 & H0 & Hr). rewrite Hz in H0. injection H0 as <-.
  destruct (resolved_path _ _ _ _ _ Hr) as [->|Hp]; [done|].
  destruct (is_op (opCode z) Op_NEXT) eqn:E; [|done]. apply is_op_eq in E. unfold path_instr in Hp. by rewrite E in Hp.
Qed.

(** A step that replaces some of the instructions. *)
Lemma kept_step p h p' h' :
  kept p h -> constants p `prefix_of` constants p' -> tuplesets p `prefix_of` tuplesets p' -> h `prefix_of` h' ->
  length (code p') = length (code p) ->
  (forall i x, code p !! i = Some x -> exists x', code p' !! i = Some x' /\
     (x' = x \/ (path_instr x /\ resolved p' h' i x x'))) ->
  grows p h p' h' /\ kept p' h'.
Proof.
  intros K Hc Ht Hh Hl Hall.
  assert (grows p h p' h') as G.
  { split; try done. intros i x Hx Hn. destruct (Hall _ _ Hx) as (x' & Hx' & [->|[]]); done. }
  split; [done|]. split.
  - rewrite Hl. apply K.
  - etrans; [apply K|done].
  - etrans; [apply K|done].
  - etrans; [apply K|done].
  - intros i x0 H0. destruct (kp_code _ _ K _ _ H0) as (x & Hx & Hr).
    destruct (Hall _ _ Hx) as (x' & Hx' & [E|[Hp Hr']]); exists x'; (split; [done|]).
    + subst x'. by eapply resolved_grows.
    + by rewrite (proj2 (resolved_control _ _ _ _ _ Hr) Hp) in Hr'.
Qed.

Lemma select_root q ns : res_flat_map (SelectNodes.selectNodes q input) [InputStructure.rootindex] = Ok ns -> selects q ns.
Proof.
  unfold selects. cbn [res_flat_map]. destruct (SelectNodes.selectNodes q input _) as [l| |]; cbn; try done.
  by rewrite app_nil_r.
Qed.

(** What a replacement does to the state. *)
Record replaced (s s' : t) (ip : Z) : Prop := {
  rp_grows : grows (prg s) (heap s) (prg s') (heap s');
  rp_kept : kept (prg s') (heap s');
  rp_visited : visited s' = visited s;
  rp_here : exists x, code (prg s') !! Z.to_nat ip = Some x /\ ~ path_instr x
}.

Lemma replace_single_Ok s ip instr s' :
  kept (prg s) (heap s) -> code (prg s) !! Z.to_nat ip = Some instr -> path_instr instr ->
  replace_single pathset input s ip [InputStructure.rootindex] instr = Ok s' -> replaced s s' ip.
Proof.
  intros K Hi Hp. unfold replace_single.
  destruct (SelectorPathSet.getPath pathset _) as [q| |] eqn:Eq; cbn [mbind res_bind]; try done.
  destruct (res_flat_map _ _) as [ns| |] eqn:Es; cbn [mbind res_bind]; try done. apply select_root in Es.
  destruct (single_value pathset input q ns) as [v| |] eqn:Ev; cbn [mbind res_bind]; try done.
  destruct (constant_op (opCode instr)) as [op| |] eqn:Eop; cbn [mbind res_bind]; try done.
  destruct (instruction_raw _ _ _) as [x'| |] eqn:Ex; cbn [mbind res_bind]; try done.
  unfold ProgramCode.assign. destruct (_ <=? ip); cbn [mbind res_bind]; try done. intros [= <-].
  destruct (constant_plain _ _ _ _ _ (condCode_range instr) (Nat2Z.is_nonneg _) Eop Ex) as [_ Hn].
  assert (Z.to_nat ip < length (code (prg s)))%nat as Hlt by (by eapply lookup_lt_Some).
  destruct (kept_step (prg s) (heap s) (ProgramImage.set_code (ProgramImage.push_constant (prg s) v)
    (<[Z.to_nat ip := x']> (code (prg s)))) (heap s)) as [G K']; try done; cbn.
  - by apply prefix_app_r.
  - apply length_insert.
  - intros i x Hx. destruct (decide (i = Z.to_nat ip)) as [->|Hne].
    + exists x'. split; [by apply list_lookup_insert_eq|]. right.
      rewrite Hx in Hi. injection Hi as ->. split; [done|].
      eapply resolved_constant; [exact Eq|exact Es|exact Ev|exact Eop| |exact Ex]. cbn. by apply list_lookup_middle.
    + exists x. split; [|by left]. etrans; [apply list_lookup_insert_ne; congruence|done].
  - split; [exact G|exact K'|done|]. exists x'. split; [by apply list_lookup_insert_eq|done].
Qed.

(** The code behind an iterator with its scope rewritten, place by place. *)
Lemma scope_places (c c' : list Z) pt n :
  length c' = length (drop n c) ->
  (forall m x, drop n c !! m = Some x -> exists x', c' !! m = Some x' /\ scope_instr (drop n c) pt m x x') ->
  length (take n c ++ c') = length c /\
  forall i x, c !! i = Some x -> exists x', (take n c ++ c') !! i = Some x' /\
    (x' = x \/ (n <= i)%nat /\ scope_instr (drop n c) pt (i - n) x x').
Proof.
  intros Hl Hall. split.
  { rewrite length_app, Hl, <- length_app. by rewrite take_drop. }
  intros i x Hx. assert (i < length c)%nat as Hlt by (by eapply lookup_lt_Some).
  destruct (decide (i < n)%nat) as [Hin|Hin].
  - exists x. split; [|by left]. rewrite lookup_app_l by (rewrite length_take; lia). by rewrite lookup_take_lt.
  - destruct (Hall (i - n)%nat x) as (x' & Hx' & Hs).
    { rewrite lookup_drop. rewrite <- Hx. f_equal. lia. }
    exists x'. rewrite lookup_app_r by (rewrite length_take; lia).
    rewrite length_take. replace (i - n `min` length c)%nat with (i - n)%nat by lia. split; [done|]. right. split; [lia|done].
Qed.

Section Open.
Context (s : t) (ip : Z) (instr instr' : Z) (q : SelectorPath.t) (ns : list Z) (ts : ValueTupleSet.t)
  (pt : list SelectorPath.t) (scope : list Z).
Context (K : kept (prg s) (heap s)) (Hi : code (prg s) !! Z.to_nat ip = Some instr) (Hp : path_instr instr)
  (Hop : opCode instr = OpCode_val Op_OPEN_ITER_PATH) (Hq : path_of_instr instr q) (Hns : selects q ns)
  (Hi' : instruction_raw (condCode instr) (OpCode_val Op_OPEN_ITER_TUPLESET) (Z.of_nat (length (tuplesets (prg s)))) = Ok instr').
Let c1 : list Z := <[Z.to_nat ip := instr']> (code (prg s)).
Context (Hscope : rewrite_scope pathset [] (drop (Z.to_nat ip) c1) = Ok (scope, pt))
  (Hts : loop_table pathset input pt ns = Ok ts).
Let s' : t := push_tupleset (set_code s (take (Z.to_nat ip) c1 ++ scope)) ts.

Lemma open_here : c1 !! Z.to_nat ip = Some instr' /\ control_of instr' = Straight /\ ~ path_instr instr'.
Proof using Hi Hi'.
  split; [apply list_lookup_insert_eq; by eapply lookup_lt_Some|].
  by destruct (open_plain _ _ _ (condCode_range instr) (Nat2Z.is_nonneg _) Hi').
Qed.

Lemma open_places : length (take (Z.to_nat ip) c1 ++ scope) = length (code (prg s)) /\
  forall i x, c1 !! i = Some x -> exists x', code (prg s') !! i = Some x' /\
    (x' = x \/ (Z.to_nat ip <= i)%nat /\ scope_instr (drop (Z.to_nat ip) c1) pt (i - Z.to_nat ip) x x').
Proof using Hscope.
  destruct (rewrite_scope_Ok _ _ _ _ Hscope) as (Hl & _ & Hall).
  destruct (scope_places c1 scope pt (Z.to_nat ip) Hl Hall) as (Hlen & Hpl). split; [|exact Hpl].
  rewrite Hlen. apply length_insert.
Qed.

Lemma open_new : code (prg s') !! Z.to_nat ip = Some instr'.
Proof using Hi Hi' Hscope.
  destruct open_here as (H1 & _ & Hn). destruct open_places as [_ Hpl].
  destruct (Hpl _ _ H1) as (x' & Hx' & [->|(_ & [->|(Hpi & _)])]); done.
Qed.

(** The table of the loop, and the values of its columns. *)
Lemma open_loop : exists rows, loop_over (prg s') (heap s') (Z.to_nat ip) ns rows /\
  forall j q, pt !! j = Some q ->
    Forall2 (fun n r => exists v, loop_value pathset input q n = Ok v /\ r !! j = Some v) ns rows.
Proof using All.
  destruct (loop_table_Ok _ _ _ Hts) as (cols & rows & Ets & Hok & Hlen & Hcol). exists rows. split; [|done].
  split; [|done]. exists instr, instr', q, (length (tuplesets (prg s))), (length (heap s)), cols.
  split_and!; try done.
  - by eapply kept_path.
  - apply open_new.
  - cbn. by apply list_lookup_middle.
  - rewrite <- Ets. cbn. by apply list_lookup_middle.
Qed.

Lemma open_scope i : (Z.to_nat ip < i)%nat ->
  (forall k y, (k <= i - Z.to_nat ip)%nat -> drop (Z.to_nat ip) c1 !! k = Some y -> is_op (opCode y) Op_NEXT = false) ->
  in_scope (Z.to_nat ip) i.
Proof using K Hi Hop Hp.
  intros Hlt Hall. split; [done|]. intros m z Hm Hz. destruct (decide (m = Z.to_nat ip)) as [->|Hne].
  - pose proof (kept_path _ _ _ _ K Hi Hp) as H0. rewrite Hz in H0. injection H0 as ->. rewrite Hop. done.
  - destruct (kp_code _ _ K _ _ Hz) as (y & Hy & _). eapply kept_next; [exact K|exact Hy| |exact Hz].
    apply (Hall (m - Z.to_nat ip)%nat); [lia|]. rewrite lookup_drop.
    replace (Z.to_nat ip + (m - Z.to_nat ip))%nat with m by lia. etrans; [apply list_lookup_insert_ne; congruence|done].
Qed.

Lemma open_replaced : replaced s s' ip.
Proof using All.
  destruct open_places as [Hlen Hpl]. destruct open_here as (H1 & Hst & Hn). destruct open_loop as (rows & Hlo & Hcols).
  destruct (kept_step (prg s) (heap s) (prg s') (heap s')) as [G K']; try done; cbn.
  - by apply prefix_app_r.
  - by apply prefix_app_r.
  - intros i x Hx. destruct (decide (i = Z.to_nat ip)) as [->|Hne].
    + exists instr'. split; [apply open_new|]. right. rewrite Hx in Hi. injection Hi as ->. split; [done|].
      by eapply resolved_open.
    + destruct (Hpl i x) as (x' & Hx' & Hc).
      { etrans; [apply list_lookup_insert_ne; congruence|done]. }
      exists x'. split; [done|]. destruct Hc as [->|(Hge & [->|(Hpi & Hnx & q' & j & op & Hq' & Hop' & Hj & Hx2)])]; [by left..|].
      right. split; [done|]. eapply resolved_column; try done; [|by apply Hcols]. apply open_scope; [lia|done].
  - split; [exact G|exact K'|done|]. exists instr'. split; [apply open_new|done].
Qed.
End Open.

Lemma replace_open_Ok s ip instr s' :
  kept (prg s) (heap s) -> code (prg s) !! Z.to_nat ip = Some instr -> path_instr instr ->
  opCode instr = OpCode_val Op_OPEN_ITER_PATH ->
  replace_open pathset input s ip [InputStructure.rootindex] instr = Ok s' -> replaced s s' ip.
Proof.
  intros K Hi Hp Hop. unfold replace_open.
  destruct (instruction_raw _ _ _) as [x'| |] eqn:Ex; cbn [mbind res_bind]; try done.
  unfold ProgramCode.assign. destruct (_ <=? ip); cbn [mbind res_bind]; try done.
  destruct (SelectorPathSet.getPath pathset _) as [q| |] eqn:Eq; cbn [mbind res_bind]; try done.
  destruct (res_flat_map _ _) as [ns| |] eqn:Es; cbn [mbind res_bind]; try done. apply select_root in Es.
  destruct (rewrite_scope _ _ _) as [[scope pt]| |] eqn:Er; cbn [mbind res_bind]; try done.
  destruct (loop_table _ _ _ _) as [ts| |] eqn:Et; cbn [mbind res_bind]; try done. intros [= <-].
  by eapply open_replaced.
Qed.

(** ** The walk over the program *)

Definition after (i : nat) : list nat := if decide (S i < length (code p0))%nat then [S i] else [].

(** The targets of conditional jumps that were visited and the places that are still to be
    visited, after the first of these. *)
Definition walk_step (V : gset Z) (i : nat) (x0 : Z) (l : list nat) : gset Z * list nat :=
  match control_of x0 with
  | Stop => (V, l)
  | Goto a => (V, Z.to_nat a :: l)
  | GotoIf a => if decide (a ∈ V) then (V, after i ++ l) else ({[a]} ∪ V, Z.to_nat a :: after i ++ l)
  | Straight => (V, after i ++ l)
  end.

Definition elem (i : nat) : StackElem := mkStackElem (Z.of_nat i) [InputStructure.rootindex].

Lemma elem_index x : elem (Z.to_nat (argumentIndex x)) = mkStackElem (argumentIndex x) [InputStructure.rootindex].
Proof. unfold elem. by rewrite argumentIndex_nat. Qed.

Definition at_walk (s : t) (V : gset Z) (l : list nat) : Prop := visited s = V /\ stack s = map elem l.

Context (Hsize : Z.of_nat (length (code p0)) < 2 ^ 32).

Lemma advance_after c i l : length c = length (code p0) -> (i < length c)%nat ->
  advance c (elem i :: map elem l) = map elem (after i ++ l).
Proof using p0 Hsize.
  intros Hl Hi. unfold advance, ProgramCode.size, after. cbn [elem ip selected]. rewrite !wrap_small by lia. rewrite Hl.
  destruct (decide _) as [Hd|Hd].
  - rewrite (proj2 (Z.leb_gt _ _)) by lia. cbn. unfold elem at 2. do 2 f_equal. lia.
  - rewrite (proj2 (Z.leb_le _ _)) by lia. done.
Qed.

(** One instruction of the rewriter is a step of the walk. *)
Lemma step_Ok s i l s' :
  kept (prg s) (heap s) -> step pathset input s (elem i) (map elem l) = Ok s' ->
  exists x0, code p0 !! i = Some x0 /\ grows (prg s) (heap s) (prg s') (heap s') /\ kept (prg s') (heap s') /\
    (exists x, code (prg s') !! i = Some x /\ ~ path_instr x) /\
    at_walk s' (walk_step (visited s) i x0 l).1 (walk_step (visited s) i x0 l).2.
Proof using p0 Hsize.
  intros K. unfold step, fetch. cbn [elem ip selected]. rewrite Nat2Z.id.
  destruct (code (prg s) !! i) as [x|] eqn:Hx; cbn [mbind res_bind]; [|done].
  pose proof (lookup_lt_Some _ _ _ Hx) as Hlt.
  destruct (kept_origin _ _ _ _ K Hx) as (x0 & H0 & Hr). destruct (resolved_control _ _ _ _ _ Hr) as [Hc _].
  intros H. exists x0. split; [done|]. revert H. unfold walk_step. rewrite <- Hc.
  assert (forall c st, length c = length (code p0) -> (i < length c)%nat ->
    advance c (mkStackElem (Z.of_nat i) [InputStructure.rootindex] :: map elem st) = map elem (after i ++ st)) as Hadv
    by (intros; by apply advance_after).
  unfold control_of.
  assert (forall op at_, is_op (opCode x) op = true -> argumentType (OpCode_val op) = Ok at_ -> at_ <> At_Path -> ~ path_instr x) as Hnp.
  { intros op at_ E Ha Hn Hp. apply is_op_eq in E. unfold path_instr in Hp. rewrite E in Hp. congruence. }
  assert (forall V st, ~ path_instr x -> visited (set_stack (mk (prg s) (heap s) V []) st) = V ->
    grows (prg s) (heap s) (prg s) (heap s) /\ kept (prg s) (heap s) /\
    (exists y, code (prg s) !! i = Some y /\ ~ path_instr y)) as Hsame.
  { intros V st Hn _. split_and!; [apply grows_refl|done|by exists x]. }
  destruct (is_op (opCode x) Op_EXIT || is_op (opCode x) Op_RETURN) eqn:E1.
  { assert (~ path_instr x) as Hn by (apply orb_true_iff in E1 as [E1|E1]; by eapply Hnp).
    destruct (Hsame ∅ [] Hn eq_refl) as (? & ? & ?). destruct (always x); intros [= <-]; split_and!; try done; cbn.
    split; [done|]. cbn. apply Hadv; [by destruct K|done]. }
  destruct (is_op (opCode x) Op_GOTO) eqn:E2.
  { assert (~ path_instr x) as Hn by (by eapply Hnp).
    destruct (Hsame ∅ [] Hn eq_refl) as (? & ? & ?). destruct (always x).
    - intros [= <-]; split_and!; try done; cbn. split; [done|]. cbn. by rewrite elem_index.
    - case_bool_decide as Hv; intros [= <-]; split_and!; try done; cbn.
      + rewrite decide_True by done. split; [done|]. cbn. apply Hadv; [by destruct K|done].
      + rewrite decide_False by done. split; [done|]. cbn. rewrite elem_index. f_equal.
        apply Hadv; [by destruct K|done]. }
  destruct (argumentType (opCode x)) as [at_| |] eqn:Ea; cbn [mbind res_bind]; try done.
  case_bool_decide as Hp; cbn [mbind res_bind].
  2: { intros [= <-]. assert (~ path_instr x) as Hn by (unfold path_instr; congruence).
       destruct (Hsame ∅ [] Hn eq_refl) as (? & ? & ?). split_and!; try done.
       split; [done|]. cbn. apply Hadv; [by destruct K|done]. }
  subst at_.
  destruct (if is_op (opCode x) Op_OPEN_ITER_PATH then _ else _) as [s1| |] eqn:E3; cbn [mbind res_bind]; try done.
  intros [= <-].
  assert (replaced s s1 (Z.of_nat i)) as [G K' Hv Hh].
  { destruct (is_op (opCode x) Op_OPEN_ITER_PATH) eqn:Eo.
    - eapply replace_open_Ok; [done|by rewrite Nat2Z.id|done|by apply is_op_eq|done].
    - eapply replace_single_Ok; [done|by rewrite Nat2Z.id|done|done]. }
  rewrite Nat2Z.id in Hh. split_and!; try done. split; [done|]. cbn. apply Hadv; [by destruct K'|].
  by rewrite (gr_length _ _ _ _ G).
Qed.

(** ** All places that can be reached are visited *)

Definition succs (i : nat) (x0 : Z) : list nat :=
  match control_of x0 with
  | Stop => []
  | Goto a => [Z.to_nat a]
  | GotoIf a => Z.to_nat a :: after i
  | Straight => after i
  end.

Inductive reachable : nat -> Prop :=
| reach_start : reachable 0
| reach_next i x0 j : reachable i -> code p0 !! i = Some x0 -> j ∈ succs i x0 -> reachable j.

(** The places [D] were visited, the places [l] are to be visited. *)
Record covers (D : nat -> Prop) (V : gset Z) (l : list nat) : Prop := {
  cv_start : D 0%nat \/ 0%nat ∈ l;
  cv_targets : forall a, a ∈ V -> D (Z.to_nat a) \/ Z.to_nat a ∈ l;
  cv_next : forall i x0 j, D i -> code p0 !! i = Some x0 -> j ∈ succs i x0 -> D j \/ j ∈ l
}.

Lemma walk_step_spec V i x0 l :
  let '(V', l') := walk_step V i x0 l in
  (forall j, j ∈ l -> j ∈ l') /\ (forall a, a ∈ V -> a ∈ V') /\
  (forall j, j ∈ succs i x0 -> (exists a, a ∈ V /\ j = Z.to_nat a) \/ j ∈ l') /\
  (forall a, a ∈ V' -> a ∈ V \/ Z.to_nat a ∈ l').
Proof.
  unfold walk_step, succs. destruct (control_of x0) as [|a|a|]; [| |destruct (decide (a ∈ V))|];
    (split_and!; intros j; rewrite ?elem_of_cons, ?elem_of_app, ?elem_of_nil, ?elem_of_union, ?elem_of_singleton; try tauto).
  - intros [->|H]; [left; by exists a|tauto].
  - intros [->|H]; tauto.
Qed.

Lemma covers_step D V i l x0 :
  covers D V (i :: l) -> code p0 !! i = Some x0 ->
  covers (fun j => j = i \/ D j) (walk_step V i x0 l).1 (walk_step V i x0 l).2.
Proof.
  intros [C1 C2 C3] H0. setoid_rewrite elem_of_cons in C1. setoid_rewrite elem_of_cons in C2. setoid_rewrite elem_of_cons in C3.
  pose proof (walk_step_spec V i x0 l) as Hw. destruct (walk_step V i x0 l) as [V' l']. cbn [fst snd].
  destruct Hw as (Hl & HV & Hs & Hnew).
  assert (forall j, (D j \/ j = i \/ j ∈ l) -> (j = i \/ D j) \/ j ∈ l') as Hall by naive_solver.
  split.
  - apply Hall. naive_solver.
  - intros a Ha. assert (a ∈ V \/ Z.to_nat a ∈ l') as [Hv|Hv] by auto.
    + apply Hall. by apply C2.
    + by right.
  - intros k y j [->|Hk] Hy Hj.
    + rewrite H0 in Hy. injection Hy as <-. destruct (Hs _ Hj) as [(a & Ha & ->)|?]; [|by right]. apply Hall. by apply C2.
    + apply Hall. by eapply C3.
Qed.

Lemma covers_reachable D V : covers D V [] -> forall i, reachable i -> D i.
Proof.
  intros [C1 _ C3] i. induction 1 as [|i x0 j _ IH H0 Hj].
  - destruct C1 as [?|H]; [done|by apply not_elem_of_nil in H].
  - destruct (C3 _ _ _ IH H0 Hj) as [?|H]; [done|by apply not_elem_of_nil in H].
Qed.

Lemma loop_Ok fuel : forall s s' l D,
  kept (prg s) (heap s) -> stack s = map elem l -> covers D (visited s) l ->
  (forall i, D i -> exists x, code (prg s) !! i = Some x /\ ~ path_instr x) ->
  loop pathset input fuel s = Ok s' ->
  kept (prg s') (heap s') /\ forall i, reachable i -> exists x, code (prg s') !! i = Some x /\ ~ path_instr x.
Proof using Hsize.
  induction fuel as [|fuel IH]; intros s s' l D K Hst HD Hcl; cbn [loop]; rewrite Hst; destruct l as [|i l]; cbn [map]; try done.
  1, 2: intros [= <-]; split; [done|]; intros i Hi; apply Hcl; by eapply covers_reachable.
  destruct (step pathset input s (elem i) (map elem l)) as [s1| |] eqn:E; cbn [mbind res_bind]; try done. intros H.
  destruct (step_Ok _ _ _ _ K E) as (x0 & H0 & G & K1 & Hi & Hv & Hst1).
  eapply (IH s1 s' _ (fun j => j = i \/ D j)); [exact K1|exact Hst1| | |exact H].
  - rewrite Hv. by apply covers_step.
  - intros j [->|Hj]; [done|]. destruct (Hcl _ Hj) as (x & Hx & Hn). exists x. split; [|done]. by apply (gr_code _ _ _ _ G).
Qed.

Lemma rewritten fuel p' h' :
  rewriteInputPathReferences pathset input fuel p0 h0 = Ok (p', h') ->
  kept p' h' /\ forall i x, reachable i -> code p' !! i = Some x -> ~ path_instr x.
Proof using Hsize.
  unfold rewriteInputPathReferences, ProgramCode.size. rewrite wrap_small by lia. destruct (_ =? 0) eqn:E.
  - intros [= <- <-]. split; [apply kept_start|]. intros i x _ Hx. apply lookup_lt_Some in Hx. apply Z.eqb_eq in E. lia.
  - destruct (loop _ _ _ _) as [s| |] eqn:El; cbn [mbind res_bind]; try done. intros [= <- <-].
    destruct (loop_Ok fuel _ s [0%nat] (fun _ => False) (kept_start : kept (prg (mk p0 h0 ∅ [elem 0])) (heap (mk p0 h0 ∅ [elem 0])))
      eq_refl) as [K Hr]; try done.
    + split; [right; apply list_elem_of_here|intros a Ha; by apply elem_of_empty in Ha|done].
    + split; [done|]. intros i x Hi Hx. destruct (Hr _ Hi) as (y & Hy & Hn). congruence.
Qed.

End Resolved.
