(* ===== verification/TdlInputTerm.v ===== *)
(** * The rewriter comes to an end

    The rewriter of tdlTransactionInput.cpp follows unconditional jumps without remembering
    them.  If these do not lead round in a circle, it ends: over the nodes of a document, with
    the paths of a program, every reference is replaced or an exception is thrown.  The last
    theorems of the resolution of paths are here. *)
From stdpp Require Import fin_sets.
From S2P Require Import Prelude InstructionSet Variant ValueTupleSet ProgramImage TdlTables SelectorPath TdlProgram Transaction InputStructure InputLayout InputSelect TdlInput TdlInputFacts DatabaseLanguage ParseUtils TdlParse TdlLoad Tdl2vm TdlCommand TdlCalls TdlLoadFacts TdlDivergences.

Import ProgramRewriter.

(** ** Computations that end *)

Definition settles {A} (r : res A) : Prop := r <> OutOfFuel.

Lemma settles_Ok {A} (x : A) : settles (Ok x).
Proof. done. Qed.

Lemma settles_Throw {A} e : settles (@Throw A e).
Proof. done. Qed.

Lemma settles_bind {A B} (r : res A) (f : A -> res B) :
  settles r -> (forall x, r = Ok x -> settles (f x)) -> settles (r ≫= f).
Proof. unfold settles. destruct r; cbn; auto. Qed.

Lemma settles_map {A B} (f : A -> res B) l : (forall x, x ∈ l -> settles (f x)) -> settles (res_map f l).
Proof.
  induction l as [|x l IH]; intros H; cbn; [done|]. apply settles_bind; [apply H, list_elem_of_here|]. intros y _.
  apply settles_bind; [|done]. apply IH. intros z Hz. by apply H, list_elem_of_further.
Qed.

Create HintDb settle.
#[export] Hint Resolve settles_Ok settles_Throw : settle.

Ltac settle := repeat first
  [ solve [eauto 2 with settle] | apply settles_bind; [|intros ? ?] | case_match ].

Lemma settles_table {A} (ar : list A) i : settles (table_read ar i).
Proof. unfold table_read. settle. Qed.

Lemma settles_instruction c o a : settles (instruction_raw c o a).
Proof. unfold instruction_raw. settle. Qed.

Lemma settles_getPath ps i : settles (SelectorPathSet.getPath ps i).
Proof. unfold SelectorPathSet.getPath. settle. Qed.

Lemma settles_getstr tab tg : settles (TagTable.getstr tab tg).
Proof. unfold TagTable.getstr. settle. Qed.
#[export] Hint Resolve settles_table settles_instruction settles_getPath settles_getstr : settle.

Lemma settles_tagstr tm tag : settles (SelectorPath.tagstr tm tag).
Proof. unfold SelectorPath.tagstr. settle. Qed.
#[export] Hint Resolve settles_tagstr : settle.

Lemma settles_tostring path tm : settles (SelectorPath.tostring path tm).
Proof.
  unfold SelectorPath.tostring. generalize true, SelectorPath.Next.
  induction path as [|e path IH]; intros first prev; cbn; [done|].
  apply settles_bind; [unfold SelectorPath.print_element; settle|intros ? _]. apply settles_bind; [apply IH|done].
Qed.

Lemma settles_push v r : settles (ValueTupleSet.push v r).
Proof. unfold ValueTupleSet.push. settle. Qed.

Lemma settles_node st ni : settles (InputStructure.node st ni).
Proof. unfold InputStructure.node, NodeMem.get. settle. Qed.

Lemma settles_contentvalue st nd : settles (InputStructure.contentvalue st nd).
Proof. unfold InputStructure.contentvalue. settle. Qed.

Lemma settles_assign c ip x : settles (ProgramCode.assign c ip x).
Proof. unfold ProgramCode.assign. settle. Qed.

Lemma settles_iterator_op oc : settles (iterator_op oc).
Proof. unfold iterator_op. settle. Qed.

Lemma settles_constant_op oc : settles (constant_op oc).
Proof. unfold constant_op. settle. Qed.
#[export] Hint Resolve settles_tostring settles_push settles_node settles_contentvalue settles_assign settles_iterator_op settles_constant_op : settle.

Lemma settles_push_rows rows : forall ts, settles (push_rows ts rows).
Proof. induction rows as [|r rows IH]; intros ts; cbn; [done|]. settle. Qed.

Lemma settles_column_name ps q : settles (column_name ps q).
Proof. unfold column_name, SelectorPath.lastElementName. settle. Qed.

Lemma settles_rewrite_scope ps c : forall pt, settles (rewrite_scope ps pt c).
Proof.
  induction c as [|y c IH]; intros pt; cbn; [done|]. case_match; [done|]. apply settles_bind; [apply settles_table|intros ? _].
  case_bool_decide; settle.
Qed.
#[export] Hint Resolve settles_push_rows settles_column_name settles_rewrite_scope : settle.

(** ** The nodes of a document *)

Section Document.
Context (pathset : SelectorPathSet.t) (input : InputStructure.t) (ts : list tree).
Context (Hrep : represents (SelectorPathSet.m_tagtab pathset) input (document ts))
  (Hok : TagTableFacts.ok (SelectorPathSet.m_tagtab pathset))
  (Hreg : Forall (registered (SelectorPathSet.m_tagtab pathset)) (SelectorPathSet.m_pathar pathset)).

Definition node_of (n : Z) : Prop := exists x, is_Some (forest_at ts x) /\ n = Z.of_nat (pos ts x).

Lemma getPath_registered i q :
  SelectorPathSet.getPath pathset i = Ok q -> registered (SelectorPathSet.m_tagtab pathset) q.
Proof using Hreg.
  unfold SelectorPathSet.getPath. repeat case_match; try done. intros [= <-].
  by eapply Forall_lookup_1.
Qed.

Lemma selectNodes_settles q n :
  registered (SelectorPathSet.m_tagtab pathset) q -> node_of n ->
  settles (SelectNodes.selectNodes q input n) /\
  forall ns, SelectNodes.selectNodes q input n = Ok ns -> Forall node_of ns.
Proof using Hrep Hok.
  intros Hq (x & Hx & ->). rewrite (select_nodes_spec _ _ _ Hrep Hok q x Hq Hx).
  destruct (select _ ts q x) as [ys|] eqn:E; [|done]. split; [done|]. intros ns [= <-].
  pose proof (select_valid _ _ _ Hrep Hok q x ys Hx Hq E) as Hv. apply Forall_map. eapply Forall_impl; [exact Hv|].
  intros y Hy. by exists y.
Qed.

Lemma root_node : node_of InputStructure.rootindex.
Proof using Type. exists []. by split; [eexists|]. Qed.

(** The nodes that the path of an instruction selects from the root. *)
Lemma select_settles i q :
  SelectorPathSet.getPath pathset i = Ok q ->
  settles (res_flat_map (SelectNodes.selectNodes q input) [InputStructure.rootindex]) /\
  forall ns, res_flat_map (SelectNodes.selectNodes q input) [InputStructure.rootindex] = Ok ns -> Forall node_of ns.
Proof using All.
  intros Hq. destruct (selectNodes_settles q _ (getPath_registered _ _ Hq) root_node) as [H1 H2].
  split; [cbn; settle|]. intros ns H. apply H2. by apply select_root.
Qed.

Lemma node_value_settles n : settles (node_value input n).
Proof using Type. unfold node_value. settle. Qed.

Lemma loop_value_settles q n :
  registered (SelectorPathSet.m_tagtab pathset) q -> node_of n -> settles (loop_value pathset input q n).
Proof using Hrep Hok.
  intros Hq Hn. unfold loop_value. apply settles_bind; [by apply selectNodes_settles|]. intros ns _.
  pose proof node_value_settles. settle.
Qed.

Lemma single_value_settles q ns : settles (single_value pathset input q ns).
Proof using Type. unfold single_value. pose proof node_value_settles. settle. Qed.

Lemma rewrite_scope_registered c : forall pt c' pt',
  Forall (registered (SelectorPathSet.m_tagtab pathset)) pt -> rewrite_scope pathset pt c = Ok (c', pt') ->
  Forall (registered (SelectorPathSet.m_tagtab pathset)) pt'.
Proof using Hreg.
  induction c as [|y c IH]; intros pt c' pt' Hpt; cbn [rewrite_scope]; [by intros [= <- <-]|].
  case_match; [by intros [= <- <-]|]. destruct (argumentType _) as [at_| |]; cbn [mbind res_bind]; try done. case_bool_decide.
  - destruct (SelectorPathSet.getPath pathset _) as [q| |] eqn:Eq; cbn [mbind res_bind]; try done.
    destruct (iterator_op _); cbn [mbind res_bind]; try done. destruct (instruction_raw _ _ _); cbn [mbind res_bind]; try done.
    destruct (rewrite_scope pathset (pt ++ [q]) c) as [[c1 pt1]| |] eqn:E; cbn [mbind res_bind]; try done. intros [= <- <-].
    eapply IH; [|exact E]. apply Forall_app. split; [done|]. constructor; [by eapply getPath_registered|constructor].
  - destruct (rewrite_scope pathset pt c) as [[c1 pt1]| |] eqn:E; cbn [mbind res_bind]; try done. intros [= <- <-].
    by eapply IH.
Qed.

Lemma loop_table_settles pt ns :
  Forall (registered (SelectorPathSet.m_tagtab pathset)) pt -> Forall node_of ns -> settles (loop_table pathset input pt ns).
Proof using Hrep Hok.
  intros Hpt Hns. unfold loop_table. destruct pt as [|q pt]; [apply settles_push_rows|].
  apply settles_bind; [apply settles_map; intros; apply settles_column_name|]. intros cols _.
  apply settles_bind; [|intros; apply settles_push_rows]. apply settles_map. intros n Hn. apply settles_map. intros q' Hq'.
  apply loop_value_settles; [exact (proj1 (Forall_forall _ _) Hpt _ Hq')|exact (proj1 (Forall_forall _ _) Hns _ Hn)].
Qed.

Lemma replace_open_settles s ip instr : settles (replace_open pathset input s ip [InputStructure.rootindex] instr).
Proof using All.
  unfold replace_open. apply settles_bind; [apply settles_instruction|intros x _].
  apply settles_bind; [apply settles_assign|intros c _]. apply settles_bind; [apply settles_getPath|intros q Hq].
  destruct (select_settles _ _ Hq) as [H1 H2]. apply settles_bind; [exact H1|intros ns Hns].
  apply settles_bind; [apply settles_rewrite_scope|]. intros [scope pt] Hs. apply settles_bind; [|done].
  apply loop_table_settles; [|by apply H2]. eapply rewrite_scope_registered; [constructor|exact Hs].
Qed.

Lemma replace_single_settles s ip instr : settles (replace_single pathset input s ip [InputStructure.rootindex] instr).
Proof using All.
  unfold replace_single. apply settles_bind; [apply settles_getPath|intros q Hq].
  destruct (select_settles _ _ Hq) as [H1 _]. apply settles_bind; [exact H1|intros ns _].
  apply settles_bind; [apply single_value_settles|intros v _]. settle.
Qed.

Lemma step_settles s i l : settles (step pathset input s (elem i) l).
Proof using All.
  unfold step. apply settles_bind; [unfold fetch; settle|intros x _]. cbn [elem ip selected].
  pose proof replace_open_settles. pose proof replace_single_settles. settle.
Qed.

End Document.

(** ** The measure of the walk *)

Section Walk.
Context (p0 : ProgramImage).

(** The places the rewriter goes on with, the targets of conditional jumps apart. *)
Definition flow (i : nat) (x0 : Z) : list nat :=
  match control_of x0 with
  | Stop => []
  | Goto a => [Z.to_nat a]
  | GotoIf _ | Straight => after p0 i
  end.

(** The unconditional flow of the program leads to places of lower rank. *)
Definition ranked (rank : nat -> nat) : Prop :=
  forall i x0 j, code p0 !! i = Some x0 -> j ∈ flow i x0 -> (rank j < rank i)%nat.

Definition target (x0 : Z) : list Z := match control_of x0 with GotoIf a => [a] | _ => [] end.
Definition targets : gset Z := list_to_set (flat_map target (code p0)).

Lemma ranked_decide rank :
  forallb (fun i => match code p0 !! i with
                    | Some x0 => forallb (fun j => (rank j <? rank i)%nat) (flow i x0)
                    | None => true
                    end) (seq 0 (length (code p0))) = true -> ranked rank.
Proof.
  intros H i x0 j H0 Hj. rewrite forallb_forall in H. specialize (H i). rewrite H0 in H.
  assert (In i (seq 0 (length (code p0)))) as Hi by (apply in_seq; split; [lia|by eapply lookup_lt_Some]).
  specialize (H Hi). rewrite forallb_forall in H. apply list_elem_of_In, H, Nat.ltb_lt in Hj. done.
Qed.

Context (rank : nat -> nat).

Definition highest : nat := max_list_with rank (map Z.to_nat (elements targets)).
Definition measure (V : gset Z) (l : list nat) : nat :=
  (base.size (targets ∖ V) * (highest + 2) + sum_list_with (fun i => S (rank i)) l)%nat.
Definition fuel_bound : nat := measure ∅ [0%nat].

Lemma target_in i x0 a : code p0 !! i = Some x0 -> control_of x0 = GotoIf a -> a ∈ targets.
Proof.
  intros H0 Hc. unfold targets. apply elem_of_list_to_set. apply list_elem_of_In, in_flat_map. exists x0.
  split; [apply list_elem_of_In; by eapply list_elem_of_lookup_2|]. unfold target. rewrite Hc. by left.
Qed.

Lemma target_rank a : a ∈ targets -> (rank (Z.to_nat a) <= highest)%nat.
Proof.
  intros Ha. unfold highest. assert (a ∈ elements targets) as He by by apply elem_of_elements. revert He.
  generalize (elements targets). intros l. induction l as [|b l IH]; cbn; [intros H; by apply not_elem_of_nil in H|].
  rewrite elem_of_cons. intros [->|H]; [lia|]. specialize (IH H). lia.
Qed.

Lemma flow_rank i x0 : ranked rank -> code p0 !! i = Some x0 ->
  (sum_list_with (fun i => S (rank i)) (flow i x0) < S (rank i))%nat.
Proof.
  intros Hr H0. pose proof (fun j => Hr i x0 j H0) as H.
  assert (flow i x0 = [] \/ exists j, flow i x0 = [j]) as [E|[j E]].
  { unfold flow, after. repeat case_match; eauto. }
  - rewrite E. cbn. lia.
  - rewrite E in *. specialize (H j (list_elem_of_here _ _)). cbn. lia.
Qed.

Lemma walk_step_measure V i x0 l :
  ranked rank -> code p0 !! i = Some x0 ->
  (measure (walk_step p0 V i x0 l).1 (walk_step p0 V i x0 l).2 < measure V (i :: l))%nat.
Proof.
  intros Hr H0. pose proof (flow_rank i x0 Hr H0) as Hf. unfold measure. revert Hf. unfold walk_step, flow.
  destruct (control_of x0) as [|a|a|] eqn:Ec; cbn [fst snd sum_list_with]; try (rewrite ?sum_list_with_app; cbn; lia).
  destruct (decide (a ∈ V)) as [Ha|Ha]; cbn [fst snd sum_list_with]; rewrite sum_list_with_app; [cbn; lia|].
  pose proof (target_in _ _ _ H0 Ec) as Hin. pose proof (target_rank a Hin).
  assert (targets ∖ V = {[a]} ∪ (targets ∖ ({[a]} ∪ V))) as ->.
  { apply set_eq. intros b. rewrite elem_of_union, !elem_of_difference, elem_of_union, elem_of_singleton.
    destruct (decide (b = a)) as [->|]; naive_solver. }
  pose proof (size_union (C := gset Z) {[a]} (targets ∖ ({[a]} ∪ V)) ltac:(set_solver)) as Hu. rewrite size_singleton in Hu. rewrite Hu. nia.
Qed.
End Walk.

(** ** The rewriter ends *)

Section Ends.
Context (pathset : SelectorPathSet.t) (input : InputStructure.t) (ts : list tree).
Context (Hrep : represents (SelectorPathSet.m_tagtab pathset) input (document ts))
  (Hok : TagTableFacts.ok (SelectorPathSet.m_tagtab pathset))
  (Hreg : Forall (registered (SelectorPathSet.m_tagtab pathset)) (SelectorPathSet.m_pathar pathset)).
Context (p0 : ProgramImage) (h0 : ValueTupleSet.store) (rank : nat -> nat).
Context (Hsize : Z.of_nat (length (code p0)) < 2 ^ 32) (Hrank : ranked p0 rank).

Lemma loop_settles fuel : forall s l,
  (measure p0 rank (visited s) l <= fuel)%nat -> kept pathset input p0 h0 (prg s) (heap s) -> stack s = map elem l ->
  settles (loop pathset input fuel s) /\ forall more, loop pathset input (fuel + more) s = loop pathset input fuel s.
Proof using All.
  induction fuel as [|fuel IH]; intros s l Hm K Hst.
  - destruct l as [|i l]; [|unfold measure in Hm; cbn in Hm; lia]. split; [by cbn; rewrite Hst|].
    intros more. cbn. rewrite Hst. by destruct more; cbn; rewrite Hst.
  - cbn [loop Nat.add]. rewrite Hst. destruct l as [|i l]; cbn [map]; [done|].
    pose proof (step_settles pathset input ts Hrep Hok Hreg s i (map elem l)) as Hs.
    destruct (step pathset input s (elem i) (map elem l)) as [s1| |] eqn:E; cbn [mbind res_bind]; try done.
    destruct (step_Ok _ _ _ _ Hsize _ _ _ _ K E) as (x0 & H0 & _ & K1 & _ & Hv & Hst1).
    apply (IH s1 (walk_step p0 (visited s) i x0 l).2); [|done|done]. rewrite Hv.
    pose proof (walk_step_measure p0 rank (visited s) i x0 l Hrank H0). lia.
Qed.

Lemma rewriting_ends :
  exists r, settles r /\
    forall fuel, (fuel_bound p0 rank <= fuel)%nat -> rewriteInputPathReferences pathset input fuel p0 h0 = r.
Proof using All.
  exists (rewriteInputPathReferences pathset input (fuel_bound p0 rank) p0 h0).
  unfold rewriteInputPathReferences. destruct (_ =? 0); [by split|].
  set (s0 := mk p0 h0 ∅ [mkStackElem 0 [InputStructure.rootindex]]).
  destruct (loop_settles (fuel_bound p0 rank) s0 [0%nat]) as [Hs Hmore]; [done|apply kept_start|done|]. split.
  - by apply settles_bind.
  - intros fuel Hf. replace fuel with (fuel_bound p0 rank + (fuel - fuel_bound p0 rank))%nat by lia. by rewrite Hmore.
Qed.

(** ** What replaces a path, in terms of the document *)

Definition place_value (x : place) : Variant := default Null (value_at ts x).

(** The value of a path outside of a loop, and for the node of a loop: one node is selected or
    none. *)
Definition single_place (q : SelectorPath.t) : option Variant :=
  xs ← select (SelectorPathSet.m_tagtab pathset) ts q [];
  match xs with [] => Some Null | [x] => Some (place_value x) | _ => None end.

Definition loop_place (q : SelectorPath.t) (x : place) : option Variant :=
  ys ← select (SelectorPathSet.m_tagtab pathset) ts q x;
  match ys with
  | [] => Some Null
  | y :: ys => if decide (Forall (fun y' => pos ts y' = pos ts y) ys) then Some (place_value y) else None
  end.

Lemma node_value_place x v : is_Some (forest_at ts x) -> node_value input (Z.of_nat (pos ts x)) = Ok v -> v = place_value x.
Proof using Hrep.
  unfold node_value. intros Hx. destruct (InputStructure.node _ _) as [nd| |] eqn:E; cbn [mbind res_bind]; try done.
  rewrite (content_spec _ _ _ Hrep x nd Hx E). cbn. by intros [= <-].
Qed.

Lemma selects_places q ns : registered (SelectorPathSet.m_tagtab pathset) q -> selects input q ns ->
  exists xs, select (SelectorPathSet.m_tagtab pathset) ts q [] = Some xs /\ ns = map (fun x => Z.of_nat (pos ts x)) xs /\
    Forall (fun x => is_Some (forest_at ts x)) xs.
Proof using Hrep Hok.
  unfold selects. intros Hq. assert (is_Some (forest_at ts [])) as Hx by by eexists.
  pose proof (select_nodes_spec _ _ _ Hrep Hok q [] Hq Hx) as Hs.
  change (Z.of_nat (pos ts [])) with InputStructure.rootindex in Hs. rewrite Hs.
  destruct (select _ ts q []) as [xs|] eqn:E; [|done]. intros [= <-]. exists xs. split; [done|]. split; [done|].
  exact (select_valid _ _ _ Hrep Hok q [] xs Hx Hq E).
Qed.

Lemma single_place_value q ns v : registered (SelectorPathSet.m_tagtab pathset) q -> selects input q ns ->
  single_value pathset input q ns = Ok v -> single_place q = Some v.
Proof using Hrep Hok.
  intros Hq Hs. destruct (selects_places q ns Hq Hs) as (xs & Hxs & -> & Hv). unfold single_place. rewrite Hxs. cbn [mbind option_bind].
  unfold single_value. destruct xs as [|x [|y xs]]; cbn [map]; [by intros [= <-]| |].
  - intros H. apply Forall_cons in Hv as [Hx _]. by rewrite (node_value_place x v Hx H).
  - destruct (SelectorPath.tostring _ _); done.
Qed.

Lemma loop_place_value q x v : registered (SelectorPathSet.m_tagtab pathset) q -> is_Some (forest_at ts x) ->
  loop_value pathset input q (Z.of_nat (pos ts x)) = Ok v -> loop_place q x = Some v.
Proof using Hrep Hok.
  intros Hq Hx. unfold loop_value, loop_place. rewrite (select_nodes_spec _ _ _ Hrep Hok q x Hq Hx).
  destruct (select _ ts q x) as [ys|] eqn:E; cbn [mbind res_bind option_bind]; [|done].
  pose proof (select_valid _ _ _ Hrep Hok q x ys Hx Hq E) as Hv.
  destruct ys as [|y ys]; cbn [map]; [by intros [= <-]|]. apply Forall_cons in Hv as [Hy _].
  destruct (forallb _ _) eqn:Ef.
  - intros H. rewrite decide_True; [by rewrite (node_value_place y v Hy H)|]. rewrite forallb_forall in Ef.
    apply Forall_forall. intros z Hz. apply list_elem_of_In in Hz.
    pose proof (Ef _ (in_map (fun x => Z.of_nat (pos ts x)) ys z Hz)) as He. apply Z.eqb_eq in He. symmetry. by apply Nat2Z.inj.
  - destruct (SelectorPath.tostring _ _); done.
Qed.

(** The loop opened at [i0] iterates over a table with a row for every one of the places. *)
Definition loop_places (p : ProgramImage) (h : ValueTupleSet.store) (i0 : nat) (xs : list place) (rows : list (list Variant)) : Prop :=
  exists x0 x q k l cols, code p0 !! i0 = Some x0 /\ opCode x0 = OpCode_val Op_OPEN_ITER_PATH /\
    SelectorPathSet.getPath pathset (argumentIndex x0) = Ok q /\
    select (SelectorPathSet.m_tagtab pathset) ts q [] = Some xs /\ code p !! i0 = Some x /\
    instruction_raw (condCode x0) (OpCode_val Op_OPEN_ITER_TUPLESET) (Z.of_nat k) = Ok x /\
    tuplesets p !! k = Some (Some l) /\ h !! l = Some (ValueTupleSet.of_rows cols rows) /\
    ValueTupleSet.rows_ok cols rows /\ length rows = length xs.

(** What becomes of the reference to a path [x0] at [i]: a constant, a loop over a table, or
    a column of the table of the loop around it. *)
Inductive answered (p : ProgramImage) (h : ValueTupleSet.store) (i : nat) (x0 x : Z) : Prop :=
| answered_constant q v k op :
    SelectorPathSet.getPath pathset (argumentIndex x0) = Ok q -> single_place q = Some v ->
    constant_op (opCode x0) = Ok op -> constants p !! k = Some v ->
    instruction_raw (condCode x0) (OpCode_val op) (Z.of_nat k) = Ok x -> answered p h i x0 x
| answered_open xs rows : loop_places p h i xs rows -> answered p h i x0 x
| answered_column i0 xs rows q j op :
    loop_places p h i0 xs rows -> in_scope p0 i0 i -> SelectorPathSet.getPath pathset (argumentIndex x0) = Ok q ->
    Forall2 (fun y r => exists v, loop_place q y = Some v /\ r !! j = Some v) xs rows ->
    iterator_op (opCode x0) = Ok op ->
    instruction_raw (condCode x0) (OpCode_val op) (Z.of_nat (S j)) = Ok x -> answered p h i x0 x.

Lemma loop_over_places p h i0 ns rows : loop_over pathset input p0 p h i0 ns rows ->
  exists xs, ns = map (fun x => Z.of_nat (pos ts x)) xs /\ Forall (fun x => is_Some (forest_at ts x)) xs /\ loop_places p h i0 xs rows.
Proof using Hrep Hok Hreg.
  intros [(x0 & x & q & k & l & cols & H1 & H2 & H3 & H4 & H5 & H6 & H7 & H8 & H9) Hr].
  destruct (selects_places q ns (getPath_registered _ Hreg _ _ H3) H4) as (xs & Hxs & -> & Hv).
  exists xs. split; [done|]. split; [done|]. exists x0, x, q, k, l, cols. rewrite length_map in Hr. by split_and!.
Qed.

Lemma resolved_answered p h i x0 x :
  resolved pathset input p0 p h i x0 x -> path_instr x0 -> ~ path_instr x -> answered p h i x0 x.
Proof using Hrep Hok Hreg.
  intros [->|q ns v k op H1 H2 H3 H4 H5 H6|ns rows H1 H2 H3 H4|i0 ns rows q j op H1 H2 H3 H4 H5 H6 H7] Hp Hn; [done|..].
  - pose proof (getPath_registered _ Hreg _ _ H1) as Hq. eapply answered_constant; try done. by eapply single_place_value.
  - destruct (loop_over_places _ _ _ _ _ H1) as (xs & _ & _ & Hl). by eapply answered_open.
  - pose proof (getPath_registered _ Hreg _ _ H3) as Hq.
    destruct (loop_over_places _ _ _ _ _ H1) as (xs & -> & Hv & Hl). eapply answered_column; try done.
    clear - H4 Hv Hq Hrep Hok. revert rows H4. induction Hv as [|y xs Hy _ IH]; intros rows H; inversion H; subst; constructor; auto.
    destruct H2 as (v & Hlv & Hj). exists v. split; [|done]. by apply loop_place_value.
Qed.

(** The result of the rewriter, if no exception is thrown. *)
Definition answers (p : ProgramImage) (h : ValueTupleSet.store) : Prop :=
  constants p0 `prefix_of` constants p /\ tuplesets p0 `prefix_of` tuplesets p /\ h0 `prefix_of` h /\
  length (code p) = length (code p0) /\
  (forall i x, code p0 !! i = Some x -> ~ path_instr x -> code p !! i = Some x) /\
  (forall i x0, reachable p0 i -> code p0 !! i = Some x0 -> path_instr x0 ->
     exists x, code p !! i = Some x /\ ~ path_instr x /\ answered p h i x0 x).

Lemma kept_answers fuel p h : rewriteInputPathReferences pathset input fuel p0 h0 = Ok (p, h) -> answers p h.
Proof using Hrep Hok Hreg Hsize.
  intros H. destruct (rewritten _ _ _ _ Hsize _ _ _ H) as [K Hr]. split_and!; try apply K.
  - intros i x Hx Hn. destruct (kp_code _ _ _ _ _ _ K _ _ Hx) as (y & Hy & Hres).
    by destruct (resolved_path _ _ _ _ _ _ _ _ Hres) as [->|].
  - intros i x0 Hi H0 Hp. destruct (kp_code _ _ _ _ _ _ K _ _ H0) as (x & Hx & Hres).
    pose proof (Hr _ _ Hi Hx) as Hn. exists x. split; [done|]. split; [done|]. by apply resolved_answered.
Qed.

End Ends.


(** ** Deciding the conditions on the paths of a program *)

Definition tags_okb (tab : TagTable.t) : bool :=
  (2 <=? length (TagTable.m_strings tab))%nat &&
  forallb (fun e => let d := drop (Z.to_nat e.2) (TagTable.m_strings tab) in let nam := TagTable.c_str d in
    (0 <? e.2) && bool_decide (TagTable.key tab (str nam) = e.1) && bool_decide (d !! length nam = Some TagTable.nul))
    (TagTable.m_map tab).

Definition registeredb (tab : TagTable.t) (q : SelectorPath.t) : bool :=
  forallb (fun e => (SelectorPath.m_tag e =? 0) ||
    ((2 <=? SelectorPath.m_tag e) && existsb (fun kv => TagTable.find tab kv.1 =? SelectorPath.m_tag e) (TagTable.m_map tab))) q.

Lemma c_str_split d : (TagTable.nul ∉ TagTable.c_str d) /\ d = TagTable.c_str d ++ drop (length (TagTable.c_str d)) d.
Proof.
  induction d as [|c d [IH1 IH2]]; cbn; [split; [apply not_elem_of_nil|done]|].
  case_bool_decide; cbn; [split; [apply not_elem_of_nil|done]|]. split; [|by f_equal].
  rewrite not_elem_of_cons. split; [congruence|done].
Qed.

Lemma find_entry_in {A} k (m : StdMap.t A) v : StdMap.find k m = Some v -> In (k, v) m.
Proof.
  induction m as [|[k' v'] m IH]; cbn; [done|]. case_bool_decide; [intros [= <-]; left; by subst|]. intros Hf. right. by apply IH.
Qed.

Lemma tags_ok_decide tab : tags_okb tab = true -> TagTableFacts.ok tab.
Proof.
  intros [H1 H2]%andb_true_iff. split; [by apply Nat.leb_le|]. intros k i Hf. rewrite forallb_forall in H2.
  apply find_entry_in in Hf. specialize (H2 _ Hf). cbn [fst snd] in H2.
  set (d := drop (Z.to_nat i) (TagTable.m_strings tab)) in *. destruct (c_str_split d) as [Hn Hd].
  apply andb_true_iff in H2 as [[H2 H3]%andb_true_iff H4]. apply bool_decide_eq_true in H3, H4.
  exists (str (TagTable.c_str d)). split; [done|]. split; [lia|].
  unfold SelectorPath.chars. rewrite String.list_ascii_of_string_of_list_ascii. split; [done|].
  rewrite (drop_S _ _ _ H4) in Hd. by eexists.
Qed.

Lemma registered_decide tab q : registeredb tab q = true -> registered tab q.
Proof.
  unfold registeredb. rewrite forallb_forall. intros H. apply Forall_forall. intros e He. apply list_elem_of_In, H in He.
  apply orb_true_iff in He as [He|[He1 He2]%andb_true_iff]; [left; lia|right]. split; [lia|].
  apply existsb_exists in He2 as ([nam v] & _ & Hk). exists nam. by apply Z.eqb_eq.
Qed.

Lemma registered_set_decide tab qs : forallb (registeredb tab) qs = true -> Forall (registered tab) qs.
Proof.
  rewrite forallb_forall. intros H. apply Forall_forall. intros q Hq. by apply registered_decide, H, list_elem_of_In.
Qed.

(** The program of a block, and a document for it. *)
Definition resolve_example : Program.t :=
  match ('(prg, _, _) ← run_block (chars "PRINT /doc/title; FOREACH //person DO INSERT INTO t (x) VALUES ($(id)); END");
         Tdl2vm.createProgram true prg) with
  | Ok p => p
  | _ => Program.make
  end.

Definition resolve_document : list tree :=
  [Elem "doc" None
     [Elem "title" (Some (Str "list")) [];
      Elem "person" None [Attr "id" (Int 7); Elem "person" None []]]]%string.


(** ** A reference behind a call *)

(** A transaction that calls [f] and then prints the title. *)
Definition calling_example : Program.t :=
  match (tr ← block_of "DO f(); PRINT /doc/title; END"; Tdl2vm.createProgram true tr) with
  | Ok p => p
  | _ => Program.make
  end.

(** The call of a subroutine is an unconditional jump: the rewriter goes on in the subroutine
    and leaves at its return.  The reference to a path behind the call stays. *)
Lemma path_behind_call_unresolved :
  exists s p' h', ClosureInput.print_all (fun _ => Ok 0) (ClosureInput.make (SelectorPathSet.m_tagtab (Program.pathset calling_example)))
      (forest_events resolve_document) = Ok s /\
    TdlTransactionInput 100 calling_example (ClosureInput.m_structure s) [] = Ok (p', h') /\
    exists i x, code p' !! i = Some x /\ opCode x = OpCode_val Op_OUTPUT_PATH.
Proof.
  eexists _, _, _. split; [vm_compute; reflexivity|]. split; [vm_compute; reflexivity|].
  exists 8%nat, 268435457. split; reflexivity.
Qed.
