(* ===== verification/Decimal.v ===== *)
(** * Decimal digits and numerals

    Vocabulary shared by the modules on numbers: digit lists and their values, digit
    characters, and the value a decimal numeral denotes. *)
From S2P Require Import Prelude.

(** ** Digit lists *)

(** The value of digits, the least significant first. *)
Fixpoint dec (ds : list Z) : Z :=
  match ds with [] => 0 | d :: ds' => d + 10 * dec ds' end.

Definition digits_ok (ds : list Z) : Prop := Forall (fun d => 0 <= d <= 9) ds.

(** The value of digits, the most significant first. *)
Definition digits_val (ds : list Z) : Z := dec (rev ds).

Lemma digits_val_snoc ds d : digits_val (ds ++ [d]) = digits_val ds * 10 + d.
Proof. unfold digits_val. rewrite rev_app_distr. cbn [rev app dec]. lia. Qed.

(** A concrete list of digits. *)
Ltac concrete_digits := unfold digits_ok; cbn; repeat first [apply Forall_nil; exact I | apply Forall_cons; split; [lia|]].

(** ** Lemmas *)

Lemma dec_bounds ds : digits_ok ds -> 0 <= dec ds < 10 ^ Z.of_nat (length ds).
Proof.
  induction 1 as [|d ds Hd _ IH]; cbn [dec length]; [lia|].
  rewrite Nat2Z.inj_succ, Z.pow_succ_r by lia. lia.
Qed.

Lemma dec_app ds es : dec (ds ++ es) = dec ds + 10 ^ Z.of_nat (length ds) * dec es.
Proof.
  induction ds as [|d ds IH]; cbn [dec app length]; [lia|].
  rewrite IH, Nat2Z.inj_succ, Z.pow_succ_r by lia. lia.
Qed.

(** ** Numerals *)

(** The digit characters, and the value a decimal string denotes. *)
Definition digit_char (d : Z) : ascii := ascii_of_nat (Z.to_nat (d + 48)).
Fixpoint of_digits (ds : list Z) : string :=
  match ds with [] => EmptyString | d :: ds' => String (digit_char d) (of_digits ds') end.

Fixpoint read_digits (v : Z) (s : string) : option Z :=
  match s with
  | EmptyString => Some v
  | String c s' =>
      let d := Z.of_nat (nat_of_ascii c) - 48 in
      if (0 <=? d) && (d <=? 9) then read_digits (v * 10 + d) s' else None
  end.

(** The value of a decimal numeral, "-" only in front of a number that is not zero, and
    no leading zeros. *)
Definition numeral_value (s : string) : option Z :=
  match s with
  | String "-" (String c _ as s') =>
      if (c =? "0")%char then None else Z.opp <$> read_digits 0 s'
  | String "0" EmptyString => Some 0
  | String c _ => if (c =? "0")%char then None else read_digits 0 s
  | EmptyString => None
  end.

Lemma nat_of_digit_char d : 0 <= d <= 9 -> Z.of_nat (nat_of_ascii (digit_char d)) = d + 48.
Proof. intros Hd. unfold digit_char. rewrite nat_ascii_embedding; lia. Qed.

Lemma read_digits_of ds : forall v,
  digits_ok ds -> read_digits v (of_digits ds) = Some (v * 10 ^ Z.of_nat (length ds) + dec (rev ds)).
Proof.
  induction ds as [|d ds IH]; intros v Hd; cbn [of_digits read_digits length rev]; [f_equal; cbn; lia|].
  apply Forall_cons in Hd as [Hd1 Hd]. rewrite nat_of_digit_char by done.
  replace (d + 48 - 48) with d by lia. destruct (Z.leb_spec 0 d), (Z.leb_spec d 9); try lia.
  cbn [andb]. rewrite IH, dec_app, length_rev, Nat2Z.inj_succ, Z.pow_succ_r by (auto; lia).
  cbn [dec]. f_equal. lia.
Qed.

Lemma numeral_value_pos c s :
  (c =? "0")%char = false -> (c =? "-")%char = false -> numeral_value (String c s) = read_digits 0 (String c s).
Proof.
  intros H0 Hm. destruct c as [[] [] [] [] [] [] [] []]; try discriminate H0; try discriminate Hm; reflexivity.
Qed.

Lemma numeral_value_neg c s :
  (c =? "0")%char = false ->
  numeral_value (String "-" (String c s)) = Z.opp <$> read_digits 0 (String c s).
Proof. intros H0. unfold numeral_value. rewrite H0. done. Qed.

(** ** Comparison *)

(** The result of a three-way comparison. *)
Definition sgn_compare (a b : Z) : Z :=
  match a ?= b with Lt => -1 | Eq => 0 | Gt => 1 end.

Lemma sgn_lt a b : a < b -> sgn_compare a b = -1.
Proof. unfold sgn_compare. intros H. apply Z.compare_lt_iff in H. by rewrite H. Qed.
Lemma sgn_gt a b : b < a -> sgn_compare a b = 1.
Proof. unfold sgn_compare. intros H. apply Z.compare_gt_iff in H. by rewrite H. Qed.

Lemma sgn_compare_flip a b : sgn_compare a b = - sgn_compare b a.
Proof. unfold sgn_compare. rewrite (Z.compare_antisym b a). by destruct (b ?= a). Qed.
