(* ===== verification/DateTime.v ===== *)
(** * Date and time

    Models include/types/datetime.hpp and src/libwolframe/types/datetime.cpp: dates with a
    time down to seconds, milliseconds or microseconds, their checks, their packing into a
    timestamp of 64 bits, their reading and printing in three formats and their comparison.
    The conversions from and to the dates of MSDN are in double precision and not modelled.

    Theorems: timestamps and all formats give back the date and time, and the comparison is
    that of the timestamps of what both values have in common. *)
From S2P Require Import Prelude Decimal.

Module DateTime.

(** [SubType]: YYYYMMDD, YYYYMMDDhhmmss, YYYYMMDDhhmmss_lll and YYYYMMDDhhmmss_lllccc. *)
Definition YYYYMMDD : Z := 0.
Definition YYYYMMDDhhmmss : Z := 1.
Definition YYYYMMDDhhmmss_lll : Z := 2.
Definition YYYYMMDDhhmmss_lllccc : Z := 3.

Record t := mk {
  m_year : Z;
  m_month : Z;
  m_day : Z;
  m_hour : Z;
  m_minute : Z;
  m_second : Z;
  m_millisecond : Z;
  m_microsecond : Z;
  m_subtype : Z
}.

#[export] Instance t_eq_dec : EqDecision t.
Proof. solve_decision. Defined.

(** ** Checks and constructors *)

Definition range_error : exn := RuntimeError "value out of range".

Definition check_range (val from to : Z) : res unit :=
  if (val <? from) || (to <? val) then Throw range_error else Ok tt.
Definition check_maximum (val maximum : Z) : res unit :=
  if maximum <? val then Throw range_error else Ok tt.

Definition check (YY MM DD hh mm ss ll cc : Z) : res unit :=
  _ ← check_range YY 1000 2400;
  _ ← check_range MM 1 12;
  _ ← check_range DD 1 31;
  _ ← check_maximum hh 23;
  _ ← check_maximum mm 59;
  _ ← check_maximum ss 63;
  _ ← check_maximum ll 999;
  check_maximum cc 999.

(** The constructors for the four granularities; the arguments are unsigned shorts. *)
Definition make_lllccc (YY MM DD hh mm ss ll cc : Z) : res t :=
  _ ← check YY MM DD hh mm ss ll cc;
  Ok (mk YY (u8 MM) (u8 DD) (u8 hh) (u8 mm) (u8 ss) ll cc YYYYMMDDhhmmss_lllccc).
Definition make_lll (YY MM DD hh mm ss ll : Z) : res t :=
  _ ← check YY MM DD hh mm ss ll 0;
  Ok (mk YY (u8 MM) (u8 DD) (u8 hh) (u8 mm) (u8 ss) ll 0 YYYYMMDDhhmmss_lll).
Definition make_ss (YY MM DD hh mm ss : Z) : res t :=
  _ ← check YY MM DD hh mm ss 0 0;
  Ok (mk YY (u8 MM) (u8 DD) (u8 hh) (u8 mm) (u8 ss) 0 0 YYYYMMDDhhmmss).
Definition make_date (YY MM DD : Z) : res t :=
  _ ← check YY MM DD 0 0 0 0 0;
  Ok (mk YY (u8 MM) (u8 DD) 0 0 0 0 0 YYYYMMDD).

(** ** Timestamps *)

Definition setBits (dest val bitidx bitrange : Z) : Z := Z.lor dest (u64 (Z.shiftl val (63 - bitidx - bitrange))).
Definition getBits (from bitidx bitrange : Z) : Z :=
  Z.land (u32 (Z.shiftr from (63 - bitidx - bitrange))) (Z.shiftl 1 bitrange - 1).

Definition timestamp (d : t) : Z :=
  let rt := setBits 0 (m_year d) 0 13 in
  let rt := setBits rt (m_month d) 13 4 in
  let rt := setBits rt (m_day d) 17 5 in
  let rt := setBits rt (m_hour d) 22 5 in
  let rt := setBits rt (m_minute d) 27 6 in
  let rt := setBits rt (m_second d) 33 6 in
  let rt := setBits rt (m_millisecond d) 39 10 in
  let rt := setBits rt (m_microsecond d) 49 10 in
  setBits rt (m_subtype d) 59 3.

Definition init_timestamp (ts : Z) : t :=
  mk (u16 (getBits ts 0 13)) (u8 (getBits ts 13 4)) (u8 (getBits ts 17 5)) (u8 (getBits ts 22 5))
    (u8 (getBits ts 27 6)) (u8 (getBits ts 33 6)) (u16 (getBits ts 39 10)) (u16 (getBits ts 49 10)) (getBits ts 59 3).

(** ** Reading *)

Definition ord (c : ascii) : Z := Z.of_nat (nat_of_ascii c).
Definition is_digit (c : ascii) : bool := (48 <=? ord c) && (ord c <=? 57).

(** A character that is no digit is a separator, which stands behind so many digits. *)
Definition separator (n : nat) (c : ascii) : bool :=
  ((n =? 8)%nat && bool_decide (c = "T"%char)) ||
  (((n =? 4)%nat || (n =? 6)%nat) && bool_decide (c = "-"%char)) ||
  (((n =? 10)%nat || (n =? 12)%nat) && bool_decide (c = ":"%char)) ||
  ((n =? 14)%nat && bool_decide (c = ","%char)) ||
  ((n =? 8)%nat && bool_decide (c = " "%char)).

Definition format_error : exn := RuntimeError "illegal datetime format".

(** The digits of a string. *)
Fixpoint collect (buf str : list ascii) : res (list ascii) :=
  match str with
  | [] => Ok buf
  | c :: str' =>
      if is_digit c then collect (buf ++ [c]) str'
      else if separator (length buf) c then collect buf str'
      else Throw format_error
  end.

(** [atoi] on digits. *)
Definition atoi (s : list ascii) : Z := fold_left (fun v c => v * 10 + (ord c - 48)) s 0.

Definition getSubstringAsInt (from : list ascii) (idx range : nat) : Z := atoi (take range (drop idx from)).

(** A field of the string, converted and checked. *)
Definition field (w : Z) (buf : list ascii) (idx range : nat) (from to : Z) : res Z :=
  let val := wrap w (getSubstringAsInt buf idx range) in
  _ ← check_range val from to; Ok val.

Definition init_chars (str : list ascii) : res t :=
  buf ← collect [] str;
  sub ← match length buf with
        | 20%nat => Ok YYYYMMDDhhmmss_lllccc
        | 17%nat => Ok YYYYMMDDhhmmss_lll
        | 14%nat => Ok YYYYMMDDhhmmss
        | 8%nat => Ok YYYYMMDD
        | _ => Throw (RuntimeError "illegal datetime format (size)")
        end;
  year ← field 16 buf 0 4 1000 2400;
  month ← field 8 buf 4 2 1 12;
  day ← field 8 buf 6 2 1 31;
  if sub =? YYYYMMDD then Ok (mk year month day 0 0 0 0 0 sub)
  else
    hour ← field 8 buf 8 2 0 23;
    minute ← field 8 buf 10 2 0 59;
    second ← field 8 buf 12 2 0 63;
    if sub =? YYYYMMDDhhmmss then Ok (mk year month day hour minute second 0 0 sub)
    else
      millisecond ← field 16 buf 14 3 0 999;
      if sub =? YYYYMMDDhhmmss_lll then Ok (mk year month day hour minute second millisecond 0 sub)
      else
        microsecond ← field 16 buf 17 3 0 999;
        Ok (mk year month day hour minute second millisecond microsecond sub).

Definition init (str : string) : res t := init_chars (String.list_ascii_of_string str).

(** ** Printing *)

Inductive StringFormat := YYYYMMDDhhmmssxxxxxx | ISOdateTime | ExtendedISOdateTime.

(** The digits from the end of the buffer on; zeros in front of them. *)
Fixpoint value_digits (nofDigits : nat) (value : Z) (buf : list Z) : list Z :=
  match nofDigits with
  | O => buf
  | S n =>
      let buf := value mod 10 :: buf in
      let value := value / 10 in
      if value =? 0 then replicate n 0 ++ buf else value_digits n value buf
  end.

Definition appendValue (dest : list ascii) (value : Z) (nofDigits : nat) : list ascii :=
  dest ++ map digit_char (value_digits nofDigits value []).

Definition tostring_chars (sf : StringFormat) (d : t) : list ascii :=
  match sf with
  | ExtendedISOdateTime =>
      let rt := appendValue [] (m_year d) 4 in
      let rt := appendValue (rt ++ ["-"%char]) (m_month d) 2 in
      let rt := appendValue (rt ++ ["-"%char]) (m_day d) 2 in
      if m_subtype d =? YYYYMMDD then rt
      else
        let rt := appendValue (rt ++ [" "%char]) (m_hour d) 2 in
        let rt := appendValue (rt ++ [":"%char]) (m_minute d) 2 in
        let rt := appendValue (rt ++ [":"%char]) (m_second d) 2 in
        if m_subtype d =? YYYYMMDDhhmmss then rt
        else
          let rt := appendValue (rt ++ [","%char]) (m_millisecond d) 3 in
          if m_subtype d =? YYYYMMDDhhmmss_lll then rt else appendValue rt (m_microsecond d) 3
  | _ =>
      let iso (c : ascii) : list ascii := match sf with ISOdateTime => [c] | _ => [] end in
      let rt := appendValue [] (m_year d) 4 in
      let rt := appendValue rt (m_month d) 2 in
      let rt := appendValue rt (m_day d) 2 in
      if m_subtype d =? YYYYMMDD then rt
      else
        let rt := appendValue (rt ++ iso "T"%char) (m_hour d) 2 in
        let rt := appendValue rt (m_minute d) 2 in
        let rt := appendValue rt (m_second d) 2 in
        if m_subtype d =? YYYYMMDDhhmmss then rt
        else
          let rt := appendValue (rt ++ iso ","%char) (m_millisecond d) 3 in
          if m_subtype d =? YYYYMMDDhhmmss_lll then rt else appendValue rt (m_microsecond d) 3
  end.

Definition tostring (sf : StringFormat) (d : t) : string := String.string_of_list_ascii (tostring_chars sf d).

(** ** Comparison and access *)

Definition compareValue (aa bb : Z) : Z := if aa =? bb then 0 else if aa <? bb then -1 else 1.

(** [if (0!=(rt=compareValue( aa, bb))) return rt;] *)
Definition compare_then (aa bb : Z) (rest : Z) : Z :=
  let rt := compareValue aa bb in if rt =? 0 then rest else rt.

Definition compare (d o : t) : Z :=
  let cmpsubtype := if m_subtype o <? m_subtype d then m_subtype o else m_subtype d in
  compare_then (m_year d) (m_year o) (compare_then (m_month d) (m_month o) (compare_then (m_day d) (m_day o) (
  if cmpsubtype =? YYYYMMDD then 0 else
  compare_then (m_hour d) (m_hour o) (compare_then (m_minute d) (m_minute o) (compare_then (m_second d) (m_second o) (
  if cmpsubtype =? YYYYMMDDhhmmss then 0 else
  compare_then (m_millisecond d) (m_millisecond o) (
  if cmpsubtype =? YYYYMMDDhhmmss_lll then 0 else
  compare_then (m_microsecond d) (m_microsecond o) 0))))))).

Definition eqb (d o : t) : bool := compare d o =? 0.
Definition ltb (d o : t) : bool := compare d o <? 0.

Definition usecond (d : t) : Z := u32 (m_second d * 1000 + m_microsecond d).

End DateTime.

(** ** Facts *)

Module DateTimeFacts.
Import DateTime.

(** The dates and times that the constructors make: all fields in range, and zero below the
    granularity. *)
Record valid (d : t) : Prop := {
  v_year : 1000 <= m_year d <= 2400;
  v_month : 1 <= m_month d <= 12;
  v_day : 1 <= m_day d <= 31;
  v_hour : 0 <= m_hour d <= 23;
  v_minute : 0 <= m_minute d <= 59;
  v_second : 0 <= m_second d <= 63;
  v_millisecond : 0 <= m_millisecond d <= 999;
  v_microsecond : 0 <= m_microsecond d <= 999;
  v_subtype : 0 <= m_subtype d <= 3;
  v_time : m_subtype d < 1 -> m_hour d = 0 /\ m_minute d = 0 /\ m_second d = 0;
  v_lll : m_subtype d < 2 -> m_millisecond d = 0;
  v_ccc : m_subtype d < 3 -> m_microsecond d = 0
}.

(** ** Timestamps *)

Definition packed (d : t) : Z :=
  ((((((((m_year d * 2 ^ 4 + m_month d) * 2 ^ 5 + m_day d) * 2 ^ 5 + m_hour d) * 2 ^ 6 + m_minute d) * 2 ^ 6
    + m_second d) * 2 ^ 10 + m_millisecond d) * 2 ^ 10 + m_microsecond d) * 2 ^ 3 + m_subtype d) * 2.

Lemma setBits_add dest q val bitidx bitrange :
  let s := 63 - bitidx - bitrange in
  dest = q * 2 ^ (bitrange + s) -> 0 <= s -> 0 <= bitrange -> 0 <= val < 2 ^ bitrange -> 0 <= bitidx ->
  setBits dest val bitidx bitrange = (q * 2 ^ bitrange + val) * 2 ^ s.
Proof.
  intros s -> Hs Hr Hval Hi. unfold setBits. fold s. rewrite Z.shiftl_mul_pow2 by done.
  assert (0 <= val * 2 ^ s < 2 ^ (bitrange + s)) as Hb.
  { rewrite Z.pow_add_r by done. split; [lia|]. apply Z.mul_lt_mono_pos_r; lia. }
  assert (2 ^ (bitrange + s) <= 2 ^ 64) as Hle by (apply Z.pow_le_mono_r; lia).
  rewrite wrap_small by lia. rewrite Z.lor_comm, lor_high_low by (try lia; apply Hb).
  rewrite Z.pow_add_r by done. ring.
Qed.

Lemma timestamp_packed d : valid d -> timestamp d = packed d.
Proof.
  intros [? ? ? ? ? ? ? ? ? _ _ _]. unfold timestamp.
  rewrite (setBits_add 0 0 (m_year d) 0 13) by (cbn; lia).
  rewrite (setBits_add _ _ (m_month d) 13 4 eq_refl) by (cbn; lia).
  rewrite (setBits_add _ _ (m_day d) 17 5 eq_refl) by (cbn; lia).
  rewrite (setBits_add _ _ (m_hour d) 22 5 eq_refl) by (cbn; lia).
  rewrite (setBits_add _ _ (m_minute d) 27 6 eq_refl) by (cbn; lia).
  rewrite (setBits_add _ _ (m_second d) 33 6 eq_refl) by (cbn; lia).
  rewrite (setBits_add _ _ (m_millisecond d) 39 10 eq_refl) by (cbn; lia).
  rewrite (setBits_add _ _ (m_microsecond d) 49 10 eq_refl) by (cbn; lia).
  rewrite (setBits_add _ _ (m_subtype d) 59 3 eq_refl) by (cbn; lia).
  reflexivity.
Qed.

Lemma getBits_read q v low bitidx bitrange :
  let s := 63 - bitidx - bitrange in
  0 <= s -> 0 <= bitrange <= 32 -> 0 <= v < 2 ^ bitrange -> 0 <= low < 2 ^ s ->
  getBits ((q * 2 ^ bitrange + v) * 2 ^ s + low) bitidx bitrange = v.
Proof.
  intros s Hs Hr Hv Hlow. unfold getBits. fold s. rewrite Z.shiftr_div_pow2 by done.
  rewrite Z.div_add_l, (Z.div_small low), Z.add_0_r by lia.
  replace (Z.shiftl 1 bitrange - 1) with (Z.ones bitrange) by (rewrite Z.ones_equiv, Z.shiftl_1_l; lia).
  rewrite Z.land_ones by lia. unfold wrap.
  rewrite Z.mod_mod_divide by (exists (2 ^ (32 - bitrange)); rewrite <- Z.pow_add_r by lia; f_equal; lia).
  rewrite Z.add_comm, Z.mod_add by (apply Z.pow_nonzero; lia). by apply Z.mod_small.
Qed.

(** A field of a word, from what is above it. *)
Lemma getBits_between w q v bitidx bitrange :
  let s := 63 - bitidx - bitrange in
  0 <= s -> 0 <= bitrange <= 32 -> 0 <= v < 2 ^ bitrange ->
  (q * 2 ^ bitrange + v) * 2 ^ s <= w < (q * 2 ^ bitrange + v + 1) * 2 ^ s -> getBits w bitidx bitrange = v.
Proof.
  intros s Hs Hr Hv Hw. replace w with ((q * 2 ^ bitrange + v) * 2 ^ s + (w - (q * 2 ^ bitrange + v) * 2 ^ s)) by lia.
  apply getBits_read; unfold s in *; lia.
Qed.

Lemma timestamp_roundtrip d : valid d -> init_timestamp (timestamp d) = d /\ 0 <= timestamp d < 2 ^ 63.
Proof.
  intros Hd. rewrite (timestamp_packed d Hd). pose proof Hd as [? ? ? ? ? ? ? ? ? _ _ _].
  destruct d as [yy mo dd hh mi ss ll cc sub]. unfold init_timestamp, packed.
  cbn [m_year m_month m_day m_hour m_minute m_second m_millisecond m_microsecond m_subtype] in *.
  split; [|lia].
  set (w2 := (yy * 2 ^ 4 + mo) * 2 ^ 5 + dd). set (w4 := (w2 * 2 ^ 5 + hh) * 2 ^ 6 + mi).
  set (w6 := (w4 * 2 ^ 6 + ss) * 2 ^ 10 + ll). set (w := ((w6 * 2 ^ 10 + cc) * 2 ^ 3 + sub) * 2).
  rewrite (getBits_between w 0 yy) by (unfold w, w6, w4, w2; cbn; lia).
  rewrite (getBits_between w yy mo) by (unfold w, w6, w4, w2; cbn; lia).
  rewrite (getBits_between w (yy * 2 ^ 4 + mo) dd) by (unfold w, w6, w4, w2; cbn; lia).
  rewrite (getBits_between w w2 hh) by (unfold w, w6, w4; cbn; lia).
  rewrite (getBits_between w (w2 * 2 ^ 5 + hh) mi) by (unfold w, w6, w4; cbn; lia).
  rewrite (getBits_between w w4 ss) by (unfold w, w6; cbn; lia).
  rewrite (getBits_between w (w4 * 2 ^ 6 + ss) ll) by (unfold w, w6; cbn; lia).
  rewrite (getBits_between w w6 cc) by (unfold w; cbn; lia).
  rewrite (getBits_between w (w6 * 2 ^ 10 + cc) sub) by (unfold w; cbn; lia).
  rewrite !wrap_small by lia. reflexivity.
Qed.

(** ** Reading what was printed *)

Lemma value_digits_spec n : forall value buf, 0 <= value -> exists ds,
  value_digits n value buf = ds ++ buf /\ length ds = n /\ digits_ok ds /\ digits_val ds = value mod 10 ^ Z.of_nat n.
Proof.
  induction n as [|n IH]; intros value buf Hv; cbn [value_digits].
  - exists []. split_and!; [done|done|constructor|]. cbn. by rewrite Z.mod_1_r.
  - pose proof (Z.pow_pos_nonneg 10 (Z.of_nat n) ltac:(lia) ltac:(lia)) as Hpow.
    pose proof (Z.mod_pos_bound value 10 ltac:(lia)) as Hm. pose proof (Z.div_mod value 10 ltac:(lia)) as Hd.
    assert (forall ds, digits_val ds = (value / 10) mod 10 ^ Z.of_nat n ->
      digits_val (ds ++ [value mod 10]) = value mod 10 ^ Z.of_nat (S n)) as Hval.
    { intros ds Hds. rewrite digits_val_snoc, Hds, Nat2Z.inj_succ, Z.pow_succ_r by lia.
      rewrite Z.rem_mul_r by lia. lia. }
    destruct (Z.eqb_spec (value / 10) 0) as [E|E].
    + exists (replicate n 0 ++ [value mod 10]). rewrite <- app_assoc. split_and!; [done| | |].
      * rewrite length_app, length_replicate. cbn. lia.
      * apply Forall_app. split; [apply Forall_replicate; lia|repeat constructor; lia].
      * apply Hval. rewrite E, Z.mod_0_l by lia. unfold digits_val. clear. induction n as [|n IH]; [done|].
        change (replicate (S n) 0) with ([0] ++ replicate n 0). rewrite rev_app_distr, dec_app, IH. cbn [rev app dec]. lia.
    + destruct (IH (value / 10) (value mod 10 :: buf) ltac:(apply Z.div_pos; lia)) as (ds & -> & Hlen & Hok & Hds).
      exists (ds ++ [value mod 10]). rewrite <- app_assoc. split_and!; [done| | |by apply Hval].
      * rewrite length_app, Hlen. cbn. lia.
      * apply Forall_app. split; [done|repeat constructor; lia].
Qed.

(** The text of a value with a fixed number of digits. *)
Definition fixed (n : nat) (v : Z) : list ascii := map digit_char (value_digits n v []).

Lemma append_fixed dest v n : appendValue dest v n = dest ++ fixed n v.
Proof. done. Qed.

Lemma atoi_digits ds : forall v, digits_ok ds ->
  fold_left (fun v c => v * 10 + (ord c - 48)) (map digit_char ds) v = v * 10 ^ Z.of_nat (length ds) + digits_val ds.
Proof.
  induction ds as [|d ds IH] using rev_ind; intros v Hd; [cbn; lia|].
  apply Forall_app in Hd as [Hds Hd]. apply Forall_cons in Hd as [Hd _]. rewrite map_app, fold_left_app, IH by done. cbn [map fold_left].
  unfold ord. rewrite nat_of_digit_char, digits_val_snoc, length_app by done. cbn [length].
  rewrite Nat2Z.inj_add, Z.pow_add_r by lia. lia.
Qed.

Lemma fixed_spec n v : 0 <= v < 10 ^ Z.of_nat n ->
  length (fixed n v) = n /\ Forall (fun c => is_digit c = true) (fixed n v) /\ atoi (fixed n v) = v.
Proof.
  intros Hv. unfold fixed. destruct (value_digits_spec n v [] ltac:(lia)) as (ds & -> & Hlen & Hok & Hds). rewrite app_nil_r.
  rewrite length_map. split; [done|]. split.
  - apply Forall_map. eapply Forall_impl; [exact Hok|]. intros d Hd. unfold is_digit, ord. cbn beta. rewrite nat_of_digit_char by done.
    cbn beta in Hd. apply andb_true_iff. rewrite !Z.leb_le. lia.
  - unfold atoi. rewrite atoi_digits, Hds by done. rewrite Z.mod_small by done. lia.
Qed.

Lemma collect_fixed n v buf rest : 0 <= v < 10 ^ Z.of_nat n ->
  collect buf (fixed n v ++ rest) = collect (buf ++ fixed n v) rest.
Proof.
  intros Hv. destruct (fixed_spec n v Hv) as (_ & Hd & _). revert buf. induction Hd as [|c cs Hc _ IH]; intros buf; [by rewrite app_nil_r|].
  cbn [app collect]. rewrite Hc, IH. by rewrite <- app_assoc.
Qed.

Lemma collect_separator buf n c rest : length buf = n -> separator n c = true -> is_digit c = false ->
  collect buf (c :: rest) = collect buf rest.
Proof. intros Hn Hs Hd. cbn [collect]. by rewrite Hd, Hn, Hs. Qed.

Lemma substring_fixed A n v B : 0 <= v < 10 ^ Z.of_nat n -> getSubstringAsInt (A ++ fixed n v ++ B) (length A) n = v.
Proof.
  intros Hv. destruct (fixed_spec n v Hv) as (Hlen & _ & Ha). unfold getSubstringAsInt.
  rewrite drop_app_length, take_app_length' by done. exact Ha.
Qed.

Lemma field_fixed w A n v B from to : 0 <= w -> 0 <= from -> from <= v <= to -> to < 10 ^ Z.of_nat n -> to < 2 ^ w ->
  field w (A ++ fixed n v ++ B) (length A) n from to = Ok v.
Proof.
  intros Hw Hf Hv Hn Ht. unfold field. rewrite substring_fixed, wrap_small by lia. unfold check_range.
  destruct (Z.ltb_spec v from), (Z.ltb_spec to v); try lia. done.
Qed.

(** The digits of a date and time down to its granularity. *)
Definition digits_of (d : t) : list ascii :=
  fixed 4 (m_year d) ++ fixed 2 (m_month d) ++ fixed 2 (m_day d) ++
  (if m_subtype d =? 0 then []
   else fixed 2 (m_hour d) ++ fixed 2 (m_minute d) ++ fixed 2 (m_second d) ++
     (if m_subtype d =? 1 then []
      else fixed 3 (m_millisecond d) ++ (if m_subtype d =? 2 then [] else fixed 3 (m_microsecond d)))).

Lemma fixed_length n v : 0 <= v < 10 ^ Z.of_nat n -> length (fixed n v) = n.
Proof. intros Hv. apply (fixed_spec n v Hv). Qed.

Ltac fields := cbn; lia.
Ltac read_text := repeat first
  [ rewrite collect_fixed by fields
  | erewrite collect_separator; [|rewrite ?length_app, ?fixed_length by fields; reflexivity|reflexivity|reflexivity]
  | match goal with |- context [collect ?b (fixed ?n ?v)] =>
      rewrite <- (app_nil_r (fixed n v)) at 1; rewrite collect_fixed by fields
    end ].

Lemma collect_printed sf d : valid d -> collect [] (tostring_chars sf d) = Ok (digits_of d).
Proof.
  intros [? ? ? ? ? ? ? ? ? _ _ _]. unfold tostring_chars, digits_of, YYYYMMDD, YYYYMMDDhhmmss, YYYYMMDDhhmmss_lll. rewrite !append_fixed.
  destruct (Z.eqb_spec (m_subtype d) 0); [|destruct (Z.eqb_spec (m_subtype d) 1); [|destruct (Z.eqb_spec (m_subtype d) 2)]];
    destruct sf; rewrite <- ?app_assoc; cbn [app]; rewrite ?app_nil_r; read_text; cbn [collect]; rewrite <- ?app_assoc; reflexivity.
Qed.

Lemma field_at w buf idx A n v B from to :
  buf = A ++ fixed n v ++ B -> length A = idx -> 0 <= w -> 0 <= from -> from <= v <= to -> to < 10 ^ Z.of_nat n -> to < 2 ^ w ->
  field w buf idx n from to = Ok v.
Proof. intros -> <-. apply field_fixed. Qed.

Lemma digits_length d : valid d -> length (digits_of d) =
  if m_subtype d =? 0 then 8%nat else if m_subtype d =? 1 then 14%nat else if m_subtype d =? 2 then 17%nat else 20%nat.
Proof.
  intros [? ? ? ? ? ? ? ? ? _ _ _]. unfold digits_of.
  destruct (m_subtype d =? 0); [|destruct (m_subtype d =? 1); [|destruct (m_subtype d =? 2)]];
    rewrite ?length_app, ?fixed_length by fields; reflexivity.
Qed.

(** The field behind the text [A]. *)
Ltac read_field idx A :=
  erewrite (field_at _ _ idx A);
    [cbn [mbind res_bind]|rewrite <- ?app_assoc; cbn [app]; reflexivity
    |rewrite ?length_app; cbn [length]; lia|fields..].

Lemma text_read d str : valid d -> collect [] str = Ok (digits_of d) -> init_chars str = Ok d.
Proof.
  intros Hd Hc. unfold init_chars. rewrite Hc. cbn [mbind res_bind]. rewrite digits_length by done.
  rewrite <- (app_nil_r (digits_of d)). unfold digits_of, YYYYMMDD, YYYYMMDDhhmmss, YYYYMMDDhhmmss_lll, YYYYMMDDhhmmss_lllccc.
  pose proof Hd as [? ? ? ? ? ? ? ? ? Ht Hl Hcc]. destruct d as [yy mo dd hh mi ss ll cc sub].
  cbn [m_year m_month m_day m_hour m_minute m_second m_millisecond m_microsecond m_subtype] in *.
  set (Y := fixed 4 yy). set (Mo := fixed 2 mo). set (D := fixed 2 dd). set (H := fixed 2 hh). set (Mi := fixed 2 mi). set (S := fixed 2 ss). set (L := fixed 3 ll).
  assert (length Y = 4 /\ length Mo = 2 /\ length D = 2 /\ length H = 2 /\ length Mi = 2 /\ length S = 2 /\ length L = 3)%nat
    as (? & ? & ? & ? & ? & ? & ?) by (split_and!; apply fixed_length; fields).
  destruct (Z.eqb_spec sub 0) as [->|]; [|destruct (Z.eqb_spec sub 1) as [->|]; [|destruct (Z.eqb_spec sub 2) as [->|]]];
    cbn [mbind res_bind]; read_field 0%nat (@nil ascii); read_field 4%nat Y; read_field 6%nat (Y ++ Mo); cbn [Z.eqb].
  - destruct (Ht ltac:(lia)) as (-> & -> & ->). rewrite (Hl ltac:(lia)), (Hcc ltac:(lia)). reflexivity.
  - read_field 8%nat (Y ++ Mo ++ D). read_field 10%nat (Y ++ Mo ++ D ++ H). read_field 12%nat (Y ++ Mo ++ D ++ H ++ Mi). 
    cbn [Z.eqb Pos.eqb]. rewrite (Hl ltac:(lia)), (Hcc ltac:(lia)). reflexivity.
  - read_field 8%nat (Y ++ Mo ++ D). read_field 10%nat (Y ++ Mo ++ D ++ H). read_field 12%nat (Y ++ Mo ++ D ++ H ++ Mi). cbn [Z.eqb Pos.eqb].
    read_field 14%nat (Y ++ Mo ++ D ++ H ++ Mi ++ S). rewrite (Hcc ltac:(lia)). reflexivity.
  - read_field 8%nat (Y ++ Mo ++ D). read_field 10%nat (Y ++ Mo ++ D ++ H). read_field 12%nat (Y ++ Mo ++ D ++ H ++ Mi). cbn [Z.eqb Pos.eqb].
    read_field 14%nat (Y ++ Mo ++ D ++ H ++ Mi ++ S). read_field 17%nat (Y ++ Mo ++ D ++ H ++ Mi ++ S ++ L).
    by replace sub with 3 by lia.
Qed.

(** ** What is made is valid *)

Lemma check_range_Ok val from to u : check_range val from to = Ok u -> from <= val <= to.
Proof. unfold check_range. by destruct (Z.ltb_spec val from), (Z.ltb_spec to val). Qed.

Lemma check_maximum_Ok val maximum u : check_maximum val maximum = Ok u -> val <= maximum.
Proof. unfold check_maximum. by destruct (Z.ltb_spec maximum val). Qed.

Lemma field_Ok w buf idx n from to v : field w buf idx n from to = Ok v -> from <= v <= to.
Proof.
  unfold field. set (x := wrap w _). destruct (check_range x from to) as [u| |] eqn:E; cbn; try done.
  intros [= <-]. by eapply check_range_Ok.
Qed.

Lemma text_valid str d : init_chars str = Ok d -> valid d.
Proof.
  unfold init_chars. destruct (collect [] str) as [buf| |]; cbn [mbind res_bind]; [|done..].
  intros H. apply res_bind_Ok in H as (sub & Esub & H). revert H.
  assert (0 <= sub <= 3) as Hsub.
  { clear -Esub. revert Esub. generalize (length buf) as n. intros n Esub.
    unfold YYYYMMDD, YYYYMMDDhhmmss, YYYYMMDDhhmmss_lll, YYYYMMDDhhmmss_lllccc in Esub.
    do 21 (destruct n as [|n]; [first [done|cbn in Esub; injection Esub as <-; cbn; lia]|]). done. }
  unfold YYYYMMDD, YYYYMMDDhhmmss, YYYYMMDDhhmmss_lll.
  repeat match goal with
  | |- (field ?w ?b ?i ?n ?f ?t ≫= _) = _ -> _ =>
      let E := fresh "E" in destruct (field w b i n f t) as [?v| |] eqn:E; cbn [mbind res_bind]; [apply field_Ok in E|done..]
  | |- (if (?a =? ?b) then _ else _) = _ -> _ => destruct (Z.eqb_spec a b)
  end; intros [= <-]; split; cbn; lia.
Qed.

Lemma check_Ok YY MM DD hh mm ss ll cc u : check YY MM DD hh mm ss ll cc = Ok u ->
  1000 <= YY <= 2400 /\ 1 <= MM <= 12 /\ 1 <= DD <= 31 /\ hh <= 23 /\ mm <= 59 /\ ss <= 63 /\ ll <= 999 /\ cc <= 999.
Proof.
  unfold check. intros H. repeat (apply res_bind_Ok in H as ([] & ?%check_range_Ok & H) || apply res_bind_Ok in H as ([] & ?%check_maximum_Ok & H)).
  apply check_maximum_Ok in H. lia.
Qed.

Lemma make_valid YY MM DD hh mm ss ll cc d :
  0 <= hh -> 0 <= mm -> 0 <= ss -> 0 <= ll -> 0 <= cc ->
  make_lllccc YY MM DD hh mm ss ll cc = Ok d \/ make_lll YY MM DD hh mm ss ll = Ok d \/
  make_ss YY MM DD hh mm ss = Ok d \/ make_date YY MM DD = Ok d -> valid d.
Proof.
  intros ? ? ? ? ? [H|[H|[H|H]]]; apply res_bind_Ok in H as (u & Hc%check_Ok & [= <-]); rewrite ?wrap_small by lia;
    unfold YYYYMMDD, YYYYMMDDhhmmss, YYYYMMDDhhmmss_lll, YYYYMMDDhhmmss_lllccc; split; cbn; lia.
Qed.

(** ** Comparison *)

(** A date and time down to a coarser granularity. *)
Definition truncate (k : Z) (d : t) : t :=
  mk (m_year d) (m_month d) (m_day d) (if k <? 1 then 0 else m_hour d) (if k <? 1 then 0 else m_minute d)
    (if k <? 1 then 0 else m_second d) (if k <? 2 then 0 else m_millisecond d) (if k <? 3 then 0 else m_microsecond d) k.

Lemma truncate_valid k d : valid d -> 0 <= k <= 3 -> valid (truncate k d).
Proof. intros [? ? ? ? ? ? ? ? ? _ _ _] Hk. split; unfold truncate; cbn; zcases; lia. Qed.

Lemma truncate_self d : valid d -> truncate (m_subtype d) d = d.
Proof.
  intros [_ _ _ _ _ _ _ _ _ Ht Hl Hc]. destruct d as [yy mo dd hh mi ss ll cc sub]. unfold truncate. cbn in *.
  zcases; try done; rewrite ?Hl, ?Hc by lia; try done; by destruct Ht as (-> & -> & ->).
Qed.

Lemma compare_then_spec a b rest p q m : 0 <= p < m -> 0 <= q < m -> rest = sgn_compare p q ->
  compare_then a b rest = sgn_compare (a * m + p) (b * m + q).
Proof.
  intros Hp Hq ->. unfold compare_then, compareValue. destruct (Z.eqb_spec a b) as [->|Hab].
  - cbn [Z.eqb]. unfold sgn_compare. by rewrite Z.add_compare_mono_l.
  - destruct (Z.ltb_spec a b); cbn [Z.eqb]; symmetry; [apply sgn_lt|apply sgn_gt]; nia.
Qed.
(** The bits below the year, the month and so on. *)
Lemma compare_packed k d o : 0 <= k <= 3 -> valid d -> valid o ->
  compare_then (m_year d) (m_year o) (compare_then (m_month d) (m_month o) (compare_then (m_day d) (m_day o) (
  if k =? YYYYMMDD then 0 else
  compare_then (m_hour d) (m_hour o) (compare_then (m_minute d) (m_minute o) (compare_then (m_second d) (m_second o) (
  if k =? YYYYMMDDhhmmss then 0 else
  compare_then (m_millisecond d) (m_millisecond o) (
  if k =? YYYYMMDDhhmmss_lll then 0 else
  compare_then (m_microsecond d) (m_microsecond o) 0))))))) = sgn_compare (packed (truncate k d)) (packed (truncate k o)).
Proof.
  intros Hk Hd Ho. pose proof (truncate_valid k d Hd Hk) as [? ? ? ? ? ? ? ? ? _ _ _].
  pose proof (truncate_valid k o Ho Hk) as [? ? ? ? ? ? ? ? ? _ _ _]. 
  set (d' := truncate k d) in *. set (o' := truncate k o) in *.
  assert (forall x y, x = y -> 0 = sgn_compare x y) as Hsame by (intros x y ->; unfold sgn_compare; by rewrite Z.compare_refl).
  set (us e := m_microsecond e * 2 ^ 4 + k * 2). set (ms e := m_millisecond e * 2 ^ 14 + us e).
  set (se e := m_second e * 2 ^ 24 + ms e). set (mi e := m_minute e * 2 ^ 30 + se e). set (ho e := m_hour e * 2 ^ 36 + mi e).
  set (da e := m_day e * 2 ^ 41 + ho e). set (mo e := m_month e * 2 ^ 46 + da e).
  assert (forall e, m_subtype (truncate k e) = k -> packed (truncate k e) = m_year (truncate k e) * 2 ^ 50 + mo (truncate k e)) as Hp.
  { intros e He. unfold packed. rewrite He. unfold mo, da, ho, mi, se, ms, us. lia. }
  change (packed d') with (packed (truncate k d)). change (packed o') with (packed (truncate k o)).
  rewrite (Hp d), (Hp o) by done. fold d' o'.
  apply (compare_then_spec _ _ _ (mo d') (mo o')); [unfold mo, da, ho, mi, se, ms, us; lia..|].
  apply (compare_then_spec _ _ _ (da d') (da o')); [unfold da, ho, mi, se, ms, us; lia..|].
  apply (compare_then_spec _ _ _ (ho d') (ho o')); [unfold ho, mi, se, ms, us; lia..|].
  assert (forall rest : Z, rest = sgn_compare (ms d') (ms o') -> k <> 0 ->
    compare_then (m_hour d) (m_hour o) (compare_then (m_minute d) (m_minute o) (compare_then (m_second d) (m_second o) rest)) =
    sgn_compare (ho d') (ho o')) as Htime.
  { intros rest Hrest H0. assert (m_hour d = m_hour d' /\ m_minute d = m_minute d' /\ m_second d = m_second d') as (-> & -> & ->)
      by (unfold d', truncate; cbn; zcases; try lia; done).
    assert (m_hour o = m_hour o' /\ m_minute o = m_minute o' /\ m_second o = m_second o') as (-> & -> & ->)
      by (unfold o', truncate; cbn; zcases; try lia; done).
    apply (compare_then_spec _ _ _ (mi d') (mi o')); [unfold mi, se, ms, us; lia..|].
    apply (compare_then_spec _ _ _ (se d') (se o')); [unfold se, ms, us; lia..|].
    by apply (compare_then_spec _ _ _ (ms d') (ms o')); [unfold ms, us; lia..|]. }
  unfold YYYYMMDD, YYYYMMDDhhmmss, YYYYMMDDhhmmss_lll.
  destruct (Z.eqb_spec k 0) as [E0|E0]; [apply Hsame; unfold ho, mi, se, ms, us, d', o'; by rewrite E0|].
  apply Htime; [|done]. destruct (Z.eqb_spec k 1) as [E1|E1]; [apply Hsame; unfold ms, us, d', o'; by rewrite E1|].
  assert (m_millisecond d = m_millisecond d') as -> by (unfold d', truncate; cbn; zcases; [lia|done]).
  assert (m_millisecond o = m_millisecond o') as -> by (unfold o', truncate; cbn; zcases; [lia|done]).
  apply (compare_then_spec _ _ _ (us d') (us o')); [unfold us; lia..|].
  destruct (Z.eqb_spec k 2) as [E2|E2]; [apply Hsame; unfold us, d', o'; by rewrite E2|].
  assert (k = 3) as E3 by lia.
  assert (m_microsecond d = m_microsecond d') as -> by (unfold d'; by rewrite E3).
  assert (m_microsecond o = m_microsecond o') as -> by (unfold o'; by rewrite E3).
  apply (compare_then_spec _ _ _ (k * 2) (k * 2)); [lia..|]. by apply Hsame.
Qed.

(** C32. Dates and times have three representations besides their fields, and each gives them
    back: the timestamp, a number of 63 bits, and the text in every format, down to their
    granularity.  What is made by the constructors from values or read from a text is in range,
    so this holds for it. *)
Theorem datetime_roundtrip d :
  (exists s, init s = Ok d) \/ valid d ->
  valid d /\ init_timestamp (timestamp d) = d /\ 0 <= timestamp d < 2 ^ 63 /\
  forall sf, init (tostring sf d) = Ok d.
Proof.
  intros Hd. assert (valid d) as Hv by (destruct Hd as [[s Hs]|Hv]; [by eapply text_valid|done]).
  destruct (timestamp_roundtrip d Hv) as [H1 H2]. split; [done|]. split; [done|]. split; [done|].
  intros sf. unfold init, tostring. rewrite String.list_ascii_of_string_of_list_ascii.
  apply text_read; [done|by apply collect_printed].
Qed.

Lemma datetime_roundtrip_witness :
  exists d, init "2015-03-09 23:59:60,123" = Ok d /\
    tostring ISOdateTime d = "20150309T235960,123"%string /\ init (tostring ISOdateTime d) = Ok d /\
    init_timestamp (timestamp d) = d.
Proof.
  eexists. split; [reflexivity|]. split; [reflexivity|].
  edestruct datetime_roundtrip as (_ & H1 & _ & H2); [left; by exists "2015-03-09 23:59:60,123"%string|].
  split; [apply (H2 ISOdateTime)|exact H1].
Defined.

(** C33. The comparison of two dates and times is that of the timestamps of what both have in
    common, the values truncated to the coarser granularity; for the same granularity it is
    that of their timestamps. *)
Theorem comparison_of_timestamps d o :
  valid d -> valid o ->
  let k := Z.min (m_subtype d) (m_subtype o) in
  compare d o = sgn_compare (timestamp (truncate k d)) (timestamp (truncate k o)) /\
  (m_subtype d = m_subtype o -> compare d o = sgn_compare (timestamp d) (timestamp o)).
Proof.
  intros Hd Ho k. assert (0 <= k <= 3) as Hk by (pose proof (v_subtype _ Hd); pose proof (v_subtype _ Ho); lia).
  assert (compare d o = sgn_compare (timestamp (truncate k d)) (timestamp (truncate k o))) as Hc.
  { rewrite !timestamp_packed by (by apply truncate_valid). unfold compare.
    replace (if m_subtype o <? m_subtype d then m_subtype o else m_subtype d) with k by (unfold k; zcases; lia).
    by apply compare_packed. }
  split; [exact Hc|]. intros Heq. rewrite Hc. unfold k. rewrite <- Heq, Z.min_id. rewrite truncate_self by done.
  rewrite Heq. by rewrite truncate_self.
Qed.

(** Two times of one day. *)
Definition morning : t := mk 2015 3 9 8 0 0 0 0 YYYYMMDDhhmmss.
Definition evening : t := mk 2015 3 9 20 0 0 0 0 YYYYMMDDhhmmss.
Definition day : t := mk 2015 3 9 0 0 0 0 0 YYYYMMDD.

Lemma comparison_of_timestamps_witness : compare morning evening = -1.
Proof.
  destruct (comparison_of_timestamps morning evening) as [_ H].
  - unfold morning, YYYYMMDDhhmmss; split; cbn; lia.
  - unfold evening, YYYYMMDDhhmmss; split; cbn; lia.
  - rewrite H by reflexivity. reflexivity.
Defined.

(** The equality is not transitive: a date is equal to all times of its day. *)
Lemma equality_not_transitive : eqb morning day = true /\ eqb day evening = true /\ eqb morning evening = false.
Proof. split_and!; reflexivity. Qed.

(** [usecond] adds microseconds to thousandths of seconds, without the milliseconds. *)
Lemma usecond_mixes_units : usecond (mk 2015 3 9 8 0 2 500 7 YYYYMMDDhhmmss_lllccc) = 2007.
Proof. reflexivity. Qed.

(** Separators may be repeated. *)
Lemma separators_repeated : init "2015---03-09" = Ok day.
Proof. reflexivity. Qed.

(** The calendar is not regarded. *)
Lemma no_calendar : exists d, init "20150231" = Ok d /\ m_day d = 31.
Proof. eexists. split; reflexivity. Qed.

End DateTimeFacts.
