(* ===== verification/AddressRestriction.v ===== *)
(** * Restrictions on network addresses

    Models include/types/addressRestriction.hpp and
    src/libwolframe/types/addressRestriction.cpp: lists of allowed and denied addresses and
    networks, the masks of networks and the decision whether an address is allowed.  The
    addresses are those of boost::asio: their operations are an interface.  The printing of
    the restrictions is not modelled.

    Theorems: which masks are accepted, that a network is compared by its prefix, and the
    decision on lists whose networks are at the end. *)
From S2P Require Import Prelude Decimal.

(** ** Addresses *)

(** The bytes of an address of version 6, and its scope. *)
Record v6 := mkV6 { v6_bytes : list Z; v6_scope : Z }.

#[export] Instance v6_eq_dec : EqDecision v6.
Proof. solve_decision. Defined.

(** boost::asio::ip::address, and boost::lexical_cast to an unsigned integer. *)
Class IPAddresses (A : Type) := {
  from_string : string -> res A;
  is_v6 : A -> bool;
  to_v4 : A -> res Z;
  to_v6 : A -> res v6;
  is_multicast : A -> bool;
  address_v4 : Z -> A;
  same_address : A -> A -> bool;
  lexical_cast_unsigned : string -> res Z
}.

(** What is documented of them: a conversion to the other version fails. *)
Class IPAddressesLaws (A : Type) `{IPAddresses A} := {
  to_v4_spec a : if is_v6 a then to_v4 a = Throw BadCast else exists n, to_v4 a = Ok n /\ 0 <= n < 2 ^ 32;
  to_v6_spec a : if is_v6 a
                 then exists x, to_v6 a = Ok x /\ length (v6_bytes x) = 16%nat /\ Forall (fun b => 0 <= b < 2 ^ 8) (v6_bytes x)
                 else to_v6 a = Throw BadCast;
  same_v4 a b : is_v6 a = false -> is_v6 b = false -> (same_address a b = true <-> to_v4 a = to_v4 b);
  same_version a b : same_address a b = true -> is_v6 a = is_v6 b;
  address_v4_spec n : 0 <= n < 2 ^ 32 -> is_v6 (address_v4 n) = false /\ to_v4 (address_v4 n) = Ok n
}.

Module AddressRestriction.

Section Addresses.
Context {A : Type} `{IPAddresses A}.

Record Element := mkElement { ip : A; netMask : Z }.

Record t := mk { m_allowedar : list Element; m_deniedar : list Element }.

Definition init : t := mk [] [].

(** ** Reading of addresses and masks *)

(** [strchr]: what is before and behind the character in a string of the C library. *)
Fixpoint strchr (s : list ascii) (c : ascii) : option (list ascii * list ascii) :=
  match s with
  | [] => None
  | x :: s' =>
      if bool_decide (x = c) then Some ([], s')
      else if bool_decide (x = "000"%char) then None
      else match strchr s' c with Some (a, b) => Some (x :: a, b) | None => None end
  end.

(** The characters before the end of a string of the C library. *)
Fixpoint c_str (s : list ascii) : list ascii :=
  match s with
  | [] => []
  | x :: s' => if bool_decide (x = "000"%char) then [] else x :: c_str s'
  end.

Definition text (s : list ascii) : string := String.string_of_list_ascii s.

(** At most 33 rounds. *)
Fixpoint mask_loop (fuel : nat) (netmask mm cnt : Z) : Z * Z :=
  match fuel with
  | O => (mm, cnt)
  | S fuel' =>
      if (cnt <=? 32) && negb (u32 (netmask + mm + 1) =? 0)
      then mask_loop fuel' netmask (u32 (u32 (Z.shiftl mm 1) + 1)) (cnt + 1)
      else (mm, cnt)
  end.

Definition invalid_mask {B} : res B := Throw (RuntimeError "invalid IPv4 network mask").

Definition mask_bits (netmask : Z) : res Z :=
  if netmask =? 0 then invalid_mask
  else
    let '(mm, cnt) := mask_loop 34 netmask 0 0 in
    if negb (u32 (netmask + mm + 1) =? 0) then invalid_mask else Ok (u8 (u32 (32 - cnt))).

Definition parseNetworkMask (isIPv6 : bool) (pp : list ascii) : res Z :=
  match strchr pp "."%char with
  | Some _ =>
      if isIPv6 then Throw (RuntimeError "IPv6 cannot have an IPv4 network mask")
      else
        maskadr ← from_string (text (c_str pp));
        if is_v6 maskadr then invalid_mask
        else netmask ← to_v4 maskadr; mask_bits netmask
  | None =>
      shift ← match lexical_cast_unsigned (text (c_str pp)) with
              | Throw BadCast => Throw (RuntimeError "not a valid IP network address mask (number of bits)")
              | r => r
              end;
      if (isIPv6 : bool) then
        if 128 <? shift then Throw (RuntimeError "number of bits in IPv6 network mask out of range") else Ok (u8 shift)
      else
        if 32 <? shift then Throw (RuntimeError "number of bits in IPv4 network mask out of range") else Ok (u8 shift)
  end.

Definition parseAddress (adr : string) : res Element :=
  let s := String.list_ascii_of_string adr in
  rt ← match strchr s "/"%char with
       | Some (before, behind) =>
           a ← from_string (text before);
           m ← parseNetworkMask (is_v6 a) behind;
           Ok (mkElement a m)
       | None => a ← from_string adr; Ok (mkElement a 0)
       end;
  if is_multicast (ip rt) then Throw (RuntimeError "multicast address not allowed") else Ok rt.

Definition defineAddressAllowed (r : t) (adr : string) : res t :=
  e ← parseAddress adr; Ok (mk (m_allowedar r ++ [e]) (m_deniedar r)).
Definition defineAddressDenied (r : t) (adr : string) : res t :=
  e ← parseAddress adr; Ok (mk (m_allowedar r) (m_deniedar r ++ [e])).
Definition defineAllowedAll (r : t) : t := mk (m_allowedar r ++ [mkElement (address_v4 0) 0]) (m_deniedar r).
Definition defineDeniedAll (r : t) : t := mk (m_allowedar r) (m_deniedar r ++ [mkElement (address_v4 0) 0]).

(** ** Matching *)

(** The mask of a byte, and what is left of the prefix. *)
Definition byte_mask (routing_prefix : Z) : Z * Z :=
  if 8 <=? routing_prefix then (255, routing_prefix - 8)
  else if routing_prefix =? 0 then (0, 0)
  else (u8 (Z.shiftl 255 (8 - routing_prefix)), 0).

Fixpoint match_bytes (net addr : list Z) (routing_prefix : Z) : bool :=
  match net, addr with
  | n :: net', a :: addr' =>
      let '(byte_netmask, routing_prefix) := byte_mask routing_prefix in
      if negb (Z.land n byte_netmask =? Z.land a byte_netmask) then false
      else if byte_netmask =? 0 then true
      else match_bytes net' addr' routing_prefix
  | _, _ => true
  end.

Definition match_ipv6 (netAddr : v6) (mask : Z) (addr : v6) : res bool :=
  if mask =? 0 then Ok (bool_decide (netAddr = addr))
  else if 128 <? mask then Throw (RuntimeError "illegal net mask")
  else Ok (match_bytes (v6_bytes netAddr) (v6_bytes addr) mask).

(** A shift by a negative number is undefined. *)
Definition match_ipv4 (netAddr mask addr : Z) : res bool :=
  if 32 <? mask then Throw (Undefined "negative shift")
  else
    let netMaskAddr := u32 (Z.shiftl 0xFFFFffff (32 - mask)) in
    Ok (Z.land netAddr netMaskAddr =? Z.land addr netMaskAddr).

Fixpoint matches (ar : list Element) (addr : A) : res bool :=
  match ar with
  | [] => Ok false
  | e :: ar' =>
      if negb (netMask e =? 0) then
        if is_v6 (ip e) then
          n ← to_v6 (ip e); a ← to_v6 addr; match_ipv6 n (netMask e) a
        else
          n ← to_v4 (ip e); a ← to_v4 addr; match_ipv4 n (netMask e) a
      else if same_address (ip e) addr then Ok true
      else
        n ← to_v4 (ip e);
        if n =? 0 then Ok true else matches ar' addr
  end.

Definition isAllowed (r : t) (addr : A) : res bool :=
  allowed ← matches (m_allowedar r) addr;
  if (allowed : bool) then
    denied ← matches (m_deniedar r) addr;
    Ok (negb denied)
  else Ok false.

End Addresses.
Arguments Element : clear implicits.
Arguments t : clear implicits.
End AddressRestriction.

(** ** Facts *)

Module AddressFacts.
Import AddressRestriction.

(** A mask of a word keeps the bits from [k] on. *)
Lemma land_prefix w k x : 0 <= k <= w -> 0 <= x < 2 ^ w ->
  Z.land x (wrap w (Z.shiftl (2 ^ w - 1) k)) = x / 2 ^ k * 2 ^ k.
Proof.
  intros Hk Hx. rewrite <- Z.shiftr_div_pow2, <- Z.shiftl_mul_pow2 by lia.
  replace (2 ^ w - 1) with (Z.ones w) by (rewrite Z.ones_equiv; lia).
  apply Z.bits_inj'. intros i Hi. rewrite Z.land_spec, testbit_wrap by lia.
  rewrite !Z.shiftl_spec by lia. destruct (Z.lt_ge_cases i k).
  - rewrite !(Z.testbit_neg_r _ (i - k)) by lia. by rewrite !andb_false_r.
  - rewrite Z.shiftr_spec by lia. replace (i - k + k) with i by lia.
    destruct (Z.ltb_spec i w).
    + rewrite Z.ones_spec_low by lia. by rewrite andb_true_r.
    + rewrite andb_false_r. rewrite <- (Z.mod_small x (2 ^ w)) by lia. by rewrite Z.mod_pow2_bits_high by lia.
Qed.

Lemma land_prefix_eqb w k x y : 0 <= k <= w -> 0 <= x < 2 ^ w -> 0 <= y < 2 ^ w ->
  (Z.land x (wrap w (Z.shiftl (2 ^ w - 1) k)) =? Z.land y (wrap w (Z.shiftl (2 ^ w - 1) k))) = (x / 2 ^ k =? y / 2 ^ k).
Proof.
  intros Hk Hx Hy. rewrite !land_prefix by done. pose proof (Z.pow_pos_nonneg 2 k ltac:(lia) ltac:(lia)).
  destruct (Z.eqb_spec (x / 2 ^ k) (y / 2 ^ k)) as [->|Hne]; [by rewrite Z.eqb_refl|].
  apply Z.eqb_neq. intros Heq. apply Hne. by apply Z.mul_reg_r in Heq; [|lia].
Qed.

(** The number of an address, its first byte the highest. *)
Fixpoint number (bs : list Z) : Z :=
  match bs with [] => 0 | b :: bs' => b * 2 ^ (8 * Z.of_nat (length bs')) + number bs' end.

Definition bytes_ok (bs : list Z) : Prop := Forall (fun b => 0 <= b < 2 ^ 8) bs.

Lemma number_bounds bs : bytes_ok bs -> 0 <= number bs < 2 ^ (8 * Z.of_nat (length bs)).
Proof.
  induction 1 as [|b bs Hb _ IH]; cbn [number length]; [done|]. rewrite Nat2Z.inj_succ.
  replace (8 * Z.succ (Z.of_nat (length bs))) with (8 + 8 * Z.of_nat (length bs)) by lia. rewrite Z.pow_add_r by lia. nia.
Qed.

Lemma prefix_div hi lo n k : 0 <= k <= n -> (hi * 2 ^ n + lo) / 2 ^ k = hi * 2 ^ (n - k) + lo / 2 ^ k.
Proof.
  intros Hk. replace (2 ^ n) with (2 ^ (n - k) * 2 ^ k) by (rewrite <- Z.pow_add_r by lia; f_equal; lia).
  rewrite Z.mul_assoc, Z.div_add_l by (apply Z.pow_nonzero; lia). done.
Qed.

Lemma prefix_eqb h h' l l' m : 0 <= m -> 0 <= l < 2 ^ m -> 0 <= l' < 2 ^ m ->
  (h * 2 ^ m + l =? h' * 2 ^ m + l') = (h =? h') && (l =? l').
Proof.
  intros Hm Hl Hl'. destruct (Z.eqb_spec h h') as [->|Hne]; cbn [andb].
  - destruct (Z.eqb_spec l l') as [->|Hne]; [apply Z.eqb_refl|apply Z.eqb_neq; lia].
  - apply Z.eqb_neq. nia.
Qed.

(** Networks are compared by the prefix of their numbers. *)
Lemma match_bytes_prefix net : forall addr rp, length addr = length net -> bytes_ok net -> bytes_ok addr ->
  0 <= rp <= 8 * Z.of_nat (length net) ->
  match_bytes net addr rp =
    (number net / 2 ^ (8 * Z.of_nat (length net) - rp) =? number addr / 2 ^ (8 * Z.of_nat (length net) - rp)).
Proof.
  induction net as [|n net IH]; intros [|a addr] rp Hlen Hn Ha Hrp; try done.
  apply Forall_cons in Hn as [Hn Hns]. apply Forall_cons in Ha as [Ha Has]. injection Hlen as Hlen.
  cbn [match_bytes number length]. rewrite Hlen. cbn [length] in Hrp. set (l := Z.of_nat (length net)) in *.
  replace (8 * Z.of_nat (S (length net))) with (8 * l + 8) in * by lia.
  pose proof (number_bounds net Hns) as Bn. pose proof (number_bounds addr Has) as Ba. rewrite Hlen in Ba. fold l in Bn, Ba.
  unfold byte_mask. destruct (Z.leb_spec 8 rp).
  - replace (8 * l + 8 - rp) with (8 * l - (rp - 8)) by lia. rewrite !prefix_div by lia.
    replace (8 * l - (8 * l - (rp - 8))) with (rp - 8) by lia.
    assert (forall x, 0 <= x < 2 ^ (8 * l) -> 0 <= x / 2 ^ (8 * l - (rp - 8)) < 2 ^ (rp - 8)) as Hdiv.
    { intros x Hx. split; [apply Z.div_pos; [lia|apply Z.pow_pos_nonneg; lia]|].
      apply Z.div_lt_upper_bound; [apply Z.pow_pos_nonneg; lia|]. rewrite <- Z.pow_add_r by lia.
      replace (8 * l - (rp - 8) + (rp - 8)) with (8 * l) by lia. lia. }
    rewrite prefix_eqb by (try apply Hdiv; lia).
    change 255 with (Z.ones 8). rewrite !Z.land_ones, !Z.mod_small by lia. destruct (n =? a); cbn [negb andb]; [|done].
    cbn [Z.eqb]. rewrite IH by (try done; lia). fold l. done.
  - destruct (Z.eqb_spec rp 0) as [->|H0].
    + rewrite !Z.land_0_r. cbn [Z.eqb negb]. symmetry. apply Z.eqb_eq.
      assert (forall h v, 0 <= h < 2 ^ 8 -> 0 <= v < 2 ^ (8 * l) -> (h * 2 ^ (8 * l) + v) / 2 ^ (8 * l + 8 - 0) = 0) as Hz.
      { intros h v Hh Hv. apply Z.div_small. rewrite Z.sub_0_r, Z.pow_add_r by lia. nia. }
      by rewrite !Hz.
    + assert (forall h v, 0 <= v < 2 ^ (8 * l) -> (h * 2 ^ (8 * l) + v) / 2 ^ (8 * l + 8 - rp) = h / 2 ^ (8 - rp)) as Hz.
      { intros h v Hv. replace (8 * l + 8 - rp) with (8 * l + (8 - rp)) by lia. rewrite Z.pow_add_r by lia.
        rewrite <- Z.div_div by (try apply Z.pow_nonzero; try apply Z.pow_pos_nonneg; lia).
        rewrite Z.div_add_l, (Z.div_small v), Z.add_0_r by (try apply Z.pow_nonzero; lia). done. }
      rewrite !Hz by done. change 255 with (2 ^ 8 - 1). rewrite land_prefix_eqb by lia.
      destruct (n / 2 ^ (8 - rp) =? a / 2 ^ (8 - rp)); cbn [negb]; [|done].
      assert (forall n a, match_bytes n a 0 = true) as Hend.
      { intros [|x xs] [|y ys]; try done. cbn. by rewrite !Z.land_0_r. }
      rewrite Hend. by destruct (_ =? 0).
Qed.

(** ** Masks *)

Lemma mask_loop_spec netmask fuel : forall c, 0 <= netmask < 2 ^ 32 -> netmask <> 0 ->
  0 <= c <= 33 -> (34 <= Z.of_nat fuel + c) ->
  (forall j, 0 <= j < c -> j < 32 -> netmask <> 2 ^ 32 - 2 ^ j) ->
  let '(mm, cnt) := mask_loop fuel netmask (2 ^ Z.min c 32 - 1) c in
  (0 <= cnt < 32 /\ netmask = 2 ^ 32 - 2 ^ cnt /\ u32 (netmask + mm + 1) = 0) \/
  (u32 (netmask + mm + 1) <> 0 /\ forall j, 0 <= j < 32 -> netmask <> 2 ^ 32 - 2 ^ j).
Proof.
  induction fuel as [|fuel IH]; intros c Hn Hnz Hc Hf Hall; [lia|]. cbn [mask_loop].
  replace (netmask + (2 ^ Z.min c 32 - 1) + 1) with (netmask + 2 ^ Z.min c 32) by lia.
  assert (0 < 2 ^ Z.min c 32 <= 2 ^ 32) as Hp by (split; [apply Z.pow_pos_nonneg; lia|apply Z.pow_le_mono_r; lia]).
  destruct (Z.eqb_spec (u32 (netmask + 2 ^ Z.min c 32)) 0) as [E|E]; cbn [negb]; rewrite ?andb_false_r, ?andb_true_r.
  - left. replace (netmask + (2 ^ Z.min c 32 - 1) + 1) with (netmask + 2 ^ Z.min c 32) by lia. split_and!; [lia| | |done].
    + destruct (Z.lt_ge_cases c 32); [done|]. exfalso. rewrite Z.min_r in E by lia. unfold wrap in E.
      rewrite <- (Z.mul_1_l (2 ^ 32)) in E at 1. rewrite Z.mod_add, Z.mod_small in E by lia. lia.
    + unfold wrap in E. apply Z.mod_divide in E as [q Hq]; [|lia]. assert (q = 1) by nia.
      destruct (Z.lt_ge_cases c 32); [rewrite Z.min_l in Hq by lia; lia|rewrite Z.min_r in Hq by lia; lia].
  - assert (c < 32 -> netmask <> 2 ^ 32 - 2 ^ c) as Hnext.
    { intros Hlt Heq. apply E. rewrite Z.min_l, Heq by lia. replace (2 ^ 32 - 2 ^ c + 2 ^ c) with (2 ^ 32) by lia. reflexivity. }
    destruct (Z.leb_spec c 32).
    + replace (u32 (u32 (Z.shiftl (2 ^ Z.min c 32 - 1) 1) + 1)) with (2 ^ Z.min (c + 1) 32 - 1).
      * apply IH; [done|done|lia|lia|]. intros j Hj Hj32. destruct (Z.eq_dec j c) as [->|]; [by apply Hnext|apply Hall; lia].
      * rewrite Z.shiftl_mul_pow2 by lia. rewrite wrap_wrap_add by lia. destruct (Z.lt_ge_cases c 32).
        -- rewrite !Z.min_l, Z.pow_add_r by lia. rewrite Z.min_l in Hp by lia. rewrite wrap_small; [lia|].
           assert (2 ^ c <= 2 ^ 31) by (apply Z.pow_le_mono_r; lia). lia.
        -- replace c with 32 by lia. reflexivity.
    + right. replace (netmask + (2 ^ Z.min c 32 - 1) + 1) with (netmask + 2 ^ Z.min c 32) by lia.
      split; [done|]. intros j Hj. apply Hall; lia.
Qed.

(** A mask is accepted if it has ones in front of zeros; it stands for the number of its ones. *)
Lemma mask_bits_spec netmask : 0 <= netmask < 2 ^ 32 ->
  (exists n, 1 <= n <= 32 /\ netmask = 2 ^ 32 - 2 ^ (32 - n) /\ mask_bits netmask = Ok n) \/
  (mask_bits netmask = invalid_mask /\ forall n, 1 <= n <= 32 -> netmask <> 2 ^ 32 - 2 ^ (32 - n)).
Proof.
  intros Hn. unfold mask_bits. destruct (Z.eqb_spec netmask 0) as [->|H0].
  - right. split; [done|]. intros n Hr Heq.
    assert (2 ^ (32 - n) < 2 ^ 32) by (apply Z.pow_lt_mono_r; lia). lia.
  - pose proof (mask_loop_spec netmask 34 0 Hn H0 ltac:(lia) ltac:(lia) ltac:(lia)) as Hl.
    change (2 ^ Z.min 0 32 - 1) with 0 in Hl. destruct (mask_loop 34 netmask 0 0) as [mm cnt].
    destruct Hl as [(Hc & Hm & ->)|[Hne Hno]].
    + left. exists (32 - cnt). cbn [Z.eqb negb]. split; [lia|]. split; [rewrite Hm at 1; do 2 f_equal; lia|].
      rewrite (wrap_small 32), (wrap_small 8) by lia. done.
    + right. rewrite (proj2 (Z.eqb_neq _ _) Hne). split; [done|]. intros n Hr. apply Hno. lia.
Qed.

(** ** Decisions *)

Section Decisions.
Context {A : Type} {I : IPAddresses A} {L : IPAddressesLaws A}.
Abbreviation element := (Element A).

(** An element of version 4 with what it stands for: the network of its prefix, its address,
    or all addresses. *)
Definition contains (e : element) (a : Z) : Prop := exists n, to_v4 (ip e) = Ok n /\
  if netMask e =? 0 then n = a \/ n = 0 else n / 2 ^ (32 - netMask e) = a / 2 ^ (32 - netMask e).

(** Elements of version 4 of which at most the last one has a mask. *)
Definition mask_at_end (ar : list element) : Prop :=
  Forall (fun e => is_v6 (ip e) = false /\ 0 <= netMask e <= 32) ar /\
  Forall (fun e => netMask e = 0) (removelast ar).

Lemma to_v4_Ok a : is_v6 a = false -> exists n, to_v4 a = Ok n /\ 0 <= n < 2 ^ 32.
Proof using L. intros Ha. pose proof (to_v4_spec a) as Hs. by rewrite Ha in Hs. Qed.

Lemma matches_v4 ar addr a : mask_at_end ar -> is_v6 addr = false -> to_v4 addr = Ok a ->
  exists b, matches ar addr = Ok b /\ (b = true <-> Exists (fun e => contains e a) ar).
Proof using L.
  intros [Hall Hend] Hv4 Ha. destruct (to_v4_Ok addr Hv4) as (a' & Ha' & Hr). rewrite Ha in Ha'. injection Ha' as <-.
  induction Hall as [|e ar [He Hm] Hall IH]; cbn [matches].
  { exists false. split; [done|]. by rewrite Exists_nil. }
  destruct (to_v4_Ok _ He) as (n & Hn & Hnr). rewrite He, Hn.
  assert (contains e a <-> if netMask e =? 0 then n = a \/ n = 0 else n / 2 ^ (32 - netMask e) = a / 2 ^ (32 - netMask e)) as Hc.
  { unfold contains. split; [intros (n' & Hn' & Hx); rewrite Hn in Hn'; by injection Hn' as <-|intros Hx; by exists n]. }
  destruct (Z.eqb_spec (netMask e) 0) as [E|E]; cbn [negb mbind res_bind].
  - assert (Forall (fun e => netMask e = 0) (removelast ar)) as Hend'.
    { destruct ar; [constructor|]. by apply Forall_cons in Hend as [_ Hend]. }
    destruct (IH Hend') as (b & Hb & Hbe).
    assert (Exists (fun e => contains e a) (e :: ar) <-> (n = a \/ n = 0) \/ Exists (fun e => contains e a) ar) as Hex
      by (by rewrite Exists_cons, Hc).
    destruct (same_address (ip e) addr) eqn:Es.
    + exists true. split; [done|]. apply same_v4 in Es; [|done..]. rewrite Hn, Ha in Es. injection Es as ->. split; [intros _; apply Hex; by left; left|done].
    + destruct (Z.eqb_spec n 0) as [->|Hn0]; [exists true; split; [done|split; [intros _; apply Hex; by left; right|done]]|].
      exists b. split; [done|]. rewrite Hbe, Hex. split; [by right|]. intros [[->|]|?]; [|done..].
      exfalso. apply not_true_iff_false in Es. apply Es. apply same_v4; [done..|]. by rewrite Hn, Ha.
  - destruct ar as [|e' ar]; [|apply Forall_cons in Hend as [Hend _]; done].
    rewrite Ha. cbn [mbind res_bind]. unfold match_ipv4. destruct (Z.ltb_spec 32 (netMask e)); [lia|].
    change 4294967295 with (2 ^ 32 - 1). rewrite land_prefix_eqb by lia. eexists. split; [reflexivity|].
    rewrite Z.eqb_eq, Exists_cons, Exists_nil, Hc. tauto.
Qed.

Lemma to_v6_Ok a x : is_v6 a = true -> to_v6 a = Ok x -> length (v6_bytes x) = 16%nat /\ bytes_ok (v6_bytes x).
Proof using L.
  intros Ha Hx. pose proof (to_v6_spec a) as Hs. rewrite Ha, Hx in Hs. destruct Hs as (y & [= <-] & Hs). exact Hs.
Qed.


End Decisions.

(** ** Concrete addresses *)

Inductive Address := V4 (n : Z) | V6 (x : v6).

#[export] Instance Address_eq_dec : EqDecision Address.
Proof. solve_decision. Defined.

(** Four numbers with points between them. *)
Fixpoint read_quad (octet number : Z) (n : nat) (s : list ascii) : res Address :=
  match s with
  | [] => if (n =? 3)%nat then Ok (V4 (number * 256 + octet)) else Throw (RuntimeError "invalid argument")
  | c :: s' =>
      let d := Z.of_nat (nat_of_ascii c) - 48 in
      if bool_decide (c = "."%char) then read_quad 0 (number * 256 + octet) (S n) s'
      else if (0 <=? d) && (d <=? 9) && (octet * 10 + d <? 256) then read_quad (octet * 10 + d) number n s'
      else Throw (RuntimeError "invalid argument")
  end.

Definition v4_of (a : Address) : res Z :=
  match a with V4 n => Ok (wrap 32 n) | V6 _ => Throw BadCast end.
Definition v6_of (a : Address) : res v6 :=
  match a with
  | V6 x => Ok (mkV6 (map (wrap 8) (take 16 (v6_bytes x ++ replicate 16 0))) (v6_scope x))
  | V4 _ => Throw BadCast
  end.

#[export] Instance Address_addresses : IPAddresses Address := {|
  from_string s := read_quad 0 0 0 (String.list_ascii_of_string s);
  is_v6 a := match a with V6 _ => true | V4 _ => false end;
  to_v4 := v4_of;
  to_v6 := v6_of;
  is_multicast _ := false;
  address_v4 n := V4 n;
  same_address a b := bool_decide (v4_of a = v4_of b) && bool_decide (v6_of a = v6_of b);
  lexical_cast_unsigned s := match s, read_digits 0 s with
                             | EmptyString, _ | _, None => Throw BadCast
                             | _, Some n => Ok n
                             end
|}.

#[export] Instance Address_laws : IPAddressesLaws Address.
Proof.
  split.
  - intros [n|x]; cbn; [|done]. exists (wrap 32 n). split; [done|]. by apply wrap_range.
  - intros [n|x]; [done|]. exists (mkV6 (map (wrap 8) (take 16 (v6_bytes x ++ replicate 16 0))) (v6_scope x)).
    split; [done|]. cbn [v6_bytes]. rewrite length_map, length_take, length_app, length_replicate.
    split; [lia|]. apply Forall_map, Forall_forall. intros b _. by apply wrap_range.
  - intros [n|x] [m|y] Ha Hb; try done. cbn [same_address to_v4 Address_addresses]. rewrite andb_true_iff, !bool_decide_eq_true.
    split; [by intros [E _]|intros E; by split].
  - intros [n|x] [m|y]; cbn [same_address is_v6 Address_addresses]; try done; rewrite andb_true_iff, !bool_decide_eq_true; by intros [].
  - intros n Hn. cbn. by rewrite wrap_small.
Qed.

(** Everything is allowed but a network; the mask is given as an address. *)
Definition example : res (AddressRestriction.t Address) :=
  defineAddressDenied (defineAllowedAll init) "192.168.0.0/255.255.0.0".


(** Only the first network of a list is looked at: an address of the second denied network is
    allowed. *)
Lemma second_network_ignored :
  (r ← defineAddressDenied (defineAllowedAll init) "10.0.0.0/8";
   r ← defineAddressDenied r "192.168.0.0/16";
   isAllowed r (V4 0xC0A80101)) = Ok true.
Proof. vm_compute. reflexivity. Qed.

(** The check throws if it comes from an address of one version to a network of version 4 or to
    a single address of version 6. *)
Lemma versions_not_mixed x n :
  (r ← defineAddressAllowed init "10.0.0.0/8"; isAllowed r (V6 x)) = Throw BadCast /\
  isAllowed (AddressRestriction.mk [mkElement (V6 x) 0] []) (V4 n) = Throw BadCast.
Proof.
  split; [reflexivity|]. unfold isAllowed, matches. cbn [m_allowedar netMask ip Z.eqb negb same_address Address_addresses].
  by rewrite bool_decide_false.
Qed.

End AddressFacts.
