(* ===== verification/BcdWord.v ===== *)
(** * Arithmetic on the words of packed decimal numbers

    Models the word operations of src/modules/datatype/bcdnumber/bcdArithmetic.cpp in
    their 64 bit variant: a word holds fifteen decimal digits in its low 60 bits, four
    bits each, and the uppermost four bits take up the carry.  The operations compute
    on all digits at once with the carries of the binary addition; the theorems relate
    them to the addition of decimal digits. *)
From S2P Require Import Prelude Decimal.

(** ** Definitions *)

Definition NumMask : Z := 0x0fffFFFFffffFFFF.
Definition NumHighShift : Z := 60.
Definition NumDigits : nat := 15.

(** The constants 0x0666666666666666ULL and 0x1111111111111110ULL. *)
Definition sixes : Z := 0x0666666666666666.
Definition carry_bits : Z := 0x1111111111111110.

Definition checkvalue (a : Z) : Z :=
  let t1 := u64 (a + sixes) in
  let t2 := Z.lxor t1 a in
  Z.land t2 carry_bits.

Definition add_bcd (a b : Z) : Z :=
  let t1 := u64 (a + sixes) in
  let t2 := u64 (t1 + b) in
  let t3 := Z.lxor t1 b in
  let t4 := Z.lxor t2 t3 in
  let t5 := Z.land (wnot 64 t4) carry_bits in
  let t6 := Z.lor (Z.shiftr t5 2) (Z.shiftr t5 3) in
  u64 (t2 - t6).

Definition tencomp (a : Z) : Z :=
  let t1 := u64 (0xffffFFFFffffFFFF - a) in
  let t2 := u64 (- i64 a) in
  let t3 := Z.lxor t1 1 in
  let t4 := Z.lxor t2 t3 in
  let t5 := Z.land (wnot 64 t4) carry_bits in
  let t6 := Z.lor (Z.shiftr t5 2) (Z.shiftr t5 3) in
  u64 (t2 - t6).

(** [getcarry( a)] returns the carry and the word without it. *)
Definition getcarry (a : Z) : Z * Z :=
  (Z.shiftr a NumHighShift, Z.land a NumMask).

Definition sub_bcd (a b : Z) : Z := add_bcd a (tencomp b).
Definition increment (a : Z) : Z := add_bcd a 1.
Definition decrement (a : Z) : Z := sub_bcd a 1.

(** ** Specification vocabulary *)

(** Digit lists, the least significant digit first; [enc] is the packed word of
    the digits. *)
Fixpoint enc (ds : list Z) : Z :=
  match ds with [] => 0 | d :: ds' => d + 16 * enc ds' end.

(** The lowest [n] digits of a word. *)
Fixpoint nibbles (n : nat) (w : Z) : list Z :=
  match n with O => [] | S n' => w mod 16 :: nibbles n' (w / 16) end.

(** A valid word: fifteen decimal digits and no carry. *)
Definition word_ok (w : Z) : Prop := 0 <= w < 2 ^ 60 /\ digits_ok (nibbles NumDigits w).

(** The value of a word. *)
Definition word_val (w : Z) : Z := dec (nibbles NumDigits w).

(** Addition of digits with a carry. *)
Fixpoint adc (c : Z) (da db : list Z) : list Z * Z :=
  match da, db with
  | a :: da', b :: db' =>
      let s := a + b + c in
      let '(dr, c') := adc (s / 10) da' db' in
      (s mod 10 :: dr, c')
  | _, _ => ([], c)
  end.

(** Six in each of the lowest [n] digits; the correction of [add_bcd]. *)
Fixpoint all6 (n : nat) : Z := match n with O => 0 | S n' => 6 + 16 * all6 n' end.
Fixpoint ones16 (n : nat) : Z := match n with O => 0 | S n' => 1 + 16 * ones16 n' end.

(** One in each digit whose addition gives no carry. *)
Fixpoint nocarry (c : Z) (da db : list Z) : Z :=
  match da, db with
  | a :: da', b :: db' =>
      let c' := (a + b + c) / 10 in (1 - c') + 16 * nocarry c' da' db'
  | _, _ => 0
  end.

(** ** Digit lists *)

Lemma enc_bounds ds : Forall (fun d => 0 <= d < 16) ds -> 0 <= enc ds < 16 ^ Z.of_nat (length ds).
Proof.
  induction 1 as [|d ds Hd _ IH]; cbn [enc length]; [lia|].
  rewrite Nat2Z.inj_succ, Z.pow_succ_r by lia. lia.
Qed.

Lemma digits_hex ds : digits_ok ds -> Forall (fun d => 0 <= d < 16) ds.
Proof. intros H. eapply Forall_impl; [exact H|]. cbn. lia. Qed.

Lemma enc_app ds es : enc (ds ++ es) = enc ds + 16 ^ Z.of_nat (length ds) * enc es.
Proof.
  induction ds as [|d ds IH]; cbn [enc app length]; [lia|].
  rewrite IH, Nat2Z.inj_succ, Z.pow_succ_r by lia. lia.
Qed.

Lemma length_nibbles n w : length (nibbles n w) = n.
Proof. revert w. induction n; intros w; cbn; auto. Qed.

Lemma nibbles_enc ds h :
  Forall (fun d => 0 <= d < 16) ds ->
  nibbles (length ds) (enc ds + 16 ^ Z.of_nat (length ds) * h) = ds.
Proof.
  induction 1 as [|d ds Hd _ IH]; [done|]. cbn [nibbles enc length].
  rewrite Nat2Z.inj_succ, Z.pow_succ_r by lia.
  replace (d + 16 * enc ds + 16 * 16 ^ Z.of_nat (length ds) * h)
    with (d + (enc ds + 16 ^ Z.of_nat (length ds) * h) * 16) by ring.
  rewrite Z.mod_add, Z.div_add, Z.mod_small, Z.div_small, Z.add_0_l, IH by lia. done.
Qed.

Lemma enc_nibbles n w : enc (nibbles n w) = w mod 16 ^ Z.of_nat n.
Proof.
  revert w. induction n as [|n IH]; intros w; cbn [enc nibbles]; [by rewrite Z.mod_1_r|].
  rewrite IH, Nat2Z.inj_succ, Z.pow_succ_r by lia.
  rewrite Z.rem_mul_r by lia. lia.
Qed.

Lemma nibbles_hex n w : Forall (fun d => 0 <= d < 16) (nibbles n w).
Proof.
  revert w. induction n; intros w; constructor; auto. apply Z.mod_pos_bound. lia.
Qed.

Lemma nibbles_mod n w : nibbles n (w mod 16 ^ Z.of_nat n) = nibbles n w.
Proof.
  rewrite <- enc_nibbles. replace (enc (nibbles n w)) with
    (enc (nibbles n w) + 16 ^ Z.of_nat (length (nibbles n w)) * 0) by lia.
  rewrite <- (length_nibbles n w) at 1. apply nibbles_enc, nibbles_hex.
Qed.

(** ** Addition of digits *)

Definition carry_ok (c : Z) : Prop := c = 0 \/ c = 1.

(** The carry of the addition of two digits. *)
Lemma digit_carry a b c :
  0 <= a <= 9 -> 0 <= b <= 9 -> carry_ok c -> carry_ok ((a + b + c) / 10).
Proof.
  unfold carry_ok. intros Ha Hb Hc. destruct (Z.lt_ge_cases (a + b + c) 10).
  - left. apply Z.div_small. lia.
  - right. symmetry. apply (Z.div_unique _ _ _ (a + b + c - 10)); lia.
Qed.

Lemma adc_spec da : forall c db,
  digits_ok da -> digits_ok db -> length da = length db -> carry_ok c ->
  digits_ok (adc c da db).1 /\ length (adc c da db).1 = length da /\ carry_ok (adc c da db).2 /\
  dec (adc c da db).1 + (adc c da db).2 * 10 ^ Z.of_nat (length da) = dec da + dec db + c /\
  enc da + enc db + all6 (length da) + c =
    enc (adc c da db).1 + (adc c da db).2 * 16 ^ Z.of_nat (length da) + 6 * nocarry c da db.
Proof.
  induction da as [|a da IH]; intros c db Ha Hb Hl Hc.
  - destruct db; [|done]. cbn. split_and!; auto; try constructor; lia.
  - destruct db as [|b db]; [done|]. cbn [length] in Hl. injection Hl as Hl.
    inversion Ha as [|? ? Ha0 Ha']; inversion Hb as [|? ? Hb0 Hb']; subst.
    pose proof (digit_carry a b c Ha0 Hb0 Hc) as Hc'.
    destruct (IH _ db Ha' Hb' Hl Hc') as (Hok & Hlen & Hco & Hdec & Henc).
    pose proof (Z.div_mod (a + b + c) 10 ltac:(lia)) as Hdm.
    pose proof (Z.mod_pos_bound (a + b + c) 10 ltac:(lia)) as Hmod.
    cbn [adc]. destruct (adc ((a + b + c) / 10) da db) as [dr c'] eqn:E.
    cbn [fst snd length dec enc all6 nocarry] in *.
    rewrite Nat2Z.inj_succ, !Z.pow_succ_r by lia.
    split_and!; [constructor; [lia|done]|lia|done|lia|lia].
Qed.

(** ** The carries of the binary addition *)

(** The carry into every bit of the sum [x + y + c]. *)
Definition carries (x y c : Z) : Z := Z.lxor (x + y + c) (Z.lxor x y).

Lemma nibble_range l l' :
  0 <= l < 16 -> 0 <= l' < 16 ->
  0 <= Z.lxor l l' < 16 /\ 0 <= Z.land l l' < 16 /\ 0 <= Z.lor l l' < 16.
Proof.
  intros Hl Hl'.
  assert (forall f : Z -> Z -> Z, forallb (fun p => (0 <=? f p.1 p.2) && (f p.1 p.2 <? 16))
    (list_prod (map Z.of_nat (seq 0 16)) (map Z.of_nat (seq 0 16))) = true ->
    0 <= f l l' < 16) as Hall.
  { intros f Hf. rewrite forallb_forall in Hf. specialize (Hf (l, l')).
    assert (forall k, 0 <= k < 16 -> In k (map Z.of_nat (seq 0 16))) as Hin.
    { intros k Hk. apply in_map_iff. exists (Z.to_nat k). split; [lia|]. apply in_seq. lia. }
    apply andb_prop in Hf; [cbn in Hf; lia|]. apply in_prod; auto. }
  split_and!; apply (Hall Z.lxor) || apply (Hall Z.land) || apply (Hall Z.lor); vm_compute; reflexivity.
Qed.

(** The lowest nibble and the rest. *)
Lemma carries_step l x l' y c :
  0 <= l < 16 -> 0 <= l' < 16 ->
  carries (l + 16 * x) (l' + 16 * y) c =
  Z.lxor ((l + l' + c) mod 16) (Z.lxor l l') + 16 * carries x y ((l + l' + c) / 16).
Proof.
  intros Hl Hl'. unfold carries. pose proof (nibble_range l l' Hl Hl') as (Hx & _ & _).
  pose proof (Z.mod_pos_bound (l + l' + c) 16 ltac:(lia)) as Hm.
  pose proof (nibble_range _ _ Hm Hx) as (Hx' & _ & _).
  replace (l + 16 * x + (l' + 16 * y) + c)
    with ((l + l' + c) mod 16 + (x + y + (l + l' + c) / 16) * 2 ^ 4)
    by (pose proof (Z.div_mod (l + l' + c) 16 ltac:(lia)); lia).
  replace (l + 16 * x) with (l + x * 2 ^ 4) by lia.
  replace (l' + 16 * y) with (l' + y * 2 ^ 4) by lia.
  rewrite !lxor_fields by (done || lia). lia.
Qed.

(** The carry into the lowest bit is the carry in. *)
Lemma carries_low x y c : carry_ok c -> carries x y c mod 2 = c.
Proof.
  intros Hc. rewrite Zmod_odd, <- Z.bit0_odd. unfold carries. rewrite !Z.lxor_spec, !Z.bit0_odd.
  rewrite !Z.odd_add. destruct Hc as [-> | ->]; by destruct (Z.odd x), (Z.odd y).
Qed.

Lemma ones16_range n : 0 <= ones16 n.
Proof. induction n; cbn [ones16]; lia. Qed.

(** Splitting off the lowest bit of a nibble mask. *)
Lemma land_ones16 u n :
  Z.land u (ones16 (S n)) = u mod 2 + Z.land u (16 * ones16 n).
Proof.
  cbn [ones16].
  assert (forall m, Z.land u (1 + 16 * m) = u mod 2 + Z.land u (16 * m)) as Hs; [|apply Hs].
  intros m. pose proof (Z.div_mod u 16 ltac:(lia)) as Hd.
  pose proof (Z.mod_pos_bound u 16 ltac:(lia)) as Hm.
  remember (u mod 16) as l eqn:El. remember (u / 16) as h eqn:Eh.
  replace u with (l + h * 2 ^ 4) by lia.
  replace (1 + 16 * m) with (1 + m * 2 ^ 4) by lia. replace (16 * m) with (0 + m * 2 ^ 4) by lia.
  pose proof (nibble_range l 1 ltac:(lia) ltac:(lia)) as (_ & H1 & _).
  rewrite !land_fields by (rewrite ?Z.land_0_r; lia).
  rewrite Z.land_0_r. change 1 with (Z.ones 1) at 1. rewrite Z.land_ones by lia.
  replace (l + h * 2 ^ 4) with (l + (h * 8) * 2) by lia. rewrite Z.mod_add by lia.
  change (2 ^ 1) with 2. lia.
Qed.

(** The nibbles whose addition gives no carry, read off the carries of the sum. *)
Lemma carries_nocarry da : forall c db ah bh,
  digits_ok da -> digits_ok db -> length da = length db -> carry_ok c ->
  Z.land (Z.lnot (carries (enc da + all6 (length da) + 16 ^ Z.of_nat (length da) * ah)
                          (enc db + 16 ^ Z.of_nat (length da) * bh) c))
         (16 * ones16 (length da)) = 16 * nocarry c da db.
Proof.
  induction da as [|a da IH]; intros c db ah bh Ha Hb Hl Hc.
  - cbn. by rewrite Z.land_0_r.
  - destruct db as [|b db]; [done|]. cbn [length] in Hl. injection Hl as Hl.
    inversion Ha as [|? ? Ha0 Ha']; inversion Hb as [|? ? Hb0 Hb']; subst.
    cbn [length enc all6 nocarry]. rewrite Nat2Z.inj_succ, Z.pow_succ_r by lia.
    set (N := 16 ^ Z.of_nat (length da)).
    replace (a + 16 * enc da + (6 + 16 * all6 (length da)) + 16 * N * ah)
      with ((a + 6) + 16 * (enc da + all6 (length da) + N * ah)) by lia.
    replace (b + 16 * enc db + 16 * N * bh) with (b + 16 * (enc db + N * bh)) by lia.
    rewrite carries_step by lia.
    pose proof (digit_carry a b c Ha0 Hb0 Hc) as Hok.
    assert ((a + 6 + b + c) / 16 = (a + b + c) / 10) as Hc'.
    { symmetry. apply (Z.div_unique _ _ _ (a + b + c - 10 * ((a + b + c) / 10) +
        6 * (1 - (a + b + c) / 10))).
      - pose proof (Z.mod_pos_bound (a + b + c) 10 ltac:(lia)).
        pose proof (Z.div_mod (a + b + c) 10 ltac:(lia)). unfold carry_ok in Hok. lia.
      - lia. }
    rewrite Hc'. set (c' := (a + b + c) / 10) in *.
    set (cv := carries (enc da + all6 (length da) + N * ah) (enc db + N * bh) c').
    pose proof (nibble_range (a + 6) b ltac:(lia) ltac:(lia)) as (Hx & _ & _).
    pose proof (nibble_range ((a + 6 + b + c) mod 16) _ (Z.mod_pos_bound _ 16 ltac:(lia)) Hx)
      as (Hx' & _ & _).
    set (lo := Z.lxor ((a + 6 + b + c) mod 16) (Z.lxor (a + 6) b)) in *.
    replace (Z.lnot (lo + 16 * cv)) with ((15 - lo) + Z.lnot cv * 2 ^ 4) by (unfold Z.lnot; lia).
    replace (16 * ones16 (S (length da))) with (0 + ones16 (S (length da)) * 2 ^ 4) by lia.
    rewrite land_fields by (rewrite ?Z.land_0_r; lia).
    rewrite Z.land_0_r, land_ones16. subst cv. rewrite IH by done.
    replace (Z.lnot _ mod 2) with (1 - c'); [lia|].
    set (cv := carries _ _ _). pose proof (carries_low _ _ c' Hok : cv mod 2 = c') as Hlow.
    unfold Z.lnot. replace (Z.pred (- cv)) with (1 - c' + (- 1 - cv / 2) * 2)
      by (pose proof (Z.div_mod cv 2 ltac:(lia)); lia).
    rewrite Z.mod_add, Z.mod_small by (unfold carry_ok in Hok; lia). done.
Qed.

(** The correction is six in every such nibble. *)
Lemma nocarry_sixes da : forall c db,
  digits_ok da -> digits_ok db -> length da = length db -> carry_ok c ->
  0 <= nocarry c da db /\
  Z.lor (4 * nocarry c da db) (2 * nocarry c da db) = 6 * nocarry c da db.
Proof.
  induction da as [|a da IH]; intros c db Ha Hb Hl Hc; [done|].
  destruct db as [|b db]; [done|]. cbn [length] in Hl. injection Hl as Hl.
  inversion Ha as [|? ? Ha0 Ha']; inversion Hb as [|? ? Hb0 Hb']; subst. cbn [nocarry].
  pose proof (digit_carry a b c Ha0 Hb0 Hc) as Hok.
  destruct (IH _ db Ha' Hb' Hl Hok) as [Hnn Hlor].
  set (c' := (a + b + c) / 10) in *. set (u := nocarry c' da db) in *.
  assert (1 - c' = 0 \/ 1 - c' = 1) as He by (unfold carry_ok in Hok; lia).
  split; [lia|].
  replace (4 * (1 - c' + 16 * u)) with (4 * (1 - c') + 4 * u * 2 ^ 4) by lia.
  replace (2 * (1 - c' + 16 * u)) with (2 * (1 - c') + 2 * u * 2 ^ 4) by lia.
  assert (Z.lor (4 * (1 - c')) (2 * (1 - c')) = 6 * (1 - c')) as Hlo by (destruct He as [-> | ->]; done).
  rewrite lor_fields by (rewrite ?Hlo; lia). rewrite Hlo, Hlor. lia.
Qed.

(** ** Words *)

(** The packed sum of fifteen digits, with whatever is above them. *)
Lemma add_bcd_enc da db ah bh :
  digits_ok da -> digits_ok db -> length da = NumDigits -> length db = NumDigits ->
  add_bcd (enc da + 2 ^ 60 * ah) (enc db + 2 ^ 60 * bh) =
  u64 (enc (adc 0 da db).1 + 2 ^ 60 * (ah + bh + (adc 0 da db).2)).
Proof.
  intros Ha Hb Hla Hlb. assert (length da = length db) as Hl by congruence.
  destruct (adc_spec da 0 db Ha Hb Hl (or_introl eq_refl)) as (_ & _ & _ & _ & Henc).
  destruct (nocarry_sixes da 0 db Ha Hb Hl (or_introl eq_refl)) as [Hnn Hlor].
  pose proof (carries_nocarry da 0 db ah bh Ha Hb Hl (or_introl eq_refl)) as Hcn.
  rewrite Hla in Henc, Hcn.
  change (16 ^ Z.of_nat NumDigits) with (2 ^ 60) in *. change (all6 NumDigits) with sixes in *.
  change (16 * ones16 NumDigits) with carry_bits in Hcn.
  unfold carries in Hcn. rewrite Z.add_0_r in Hcn, Henc.
  set (u := nocarry 0 da db) in *.
  unfold add_bcd.
  set (a := enc da + 2 ^ 60 * ah) in *. set (b := enc db + 2 ^ 60 * bh) in *.
  replace (enc da + sixes + 2 ^ 60 * ah) with (a + sixes) in Hcn by (subst a; lia).
  rewrite wrap_wrap_add by lia.
  rewrite <- (land_wrap_l 64 (wnot 64 _)) by (try (split; vm_compute; congruence); lia).
  assert (u64 (wnot 64 (Z.lxor (u64 (a + sixes + b)) (Z.lxor (u64 (a + sixes)) b))) =
          u64 (Z.lnot (Z.lxor (a + sixes + b) (Z.lxor (a + sixes) b)))) as ->.
  { unfold wnot, Z.lnot.
    replace (2 ^ 64 - 1 - Z.lxor (u64 (a + sixes + b)) (Z.lxor (u64 (a + sixes)) b))
      with (Z.lnot (Z.lxor (u64 (a + sixes + b)) (Z.lxor (u64 (a + sixes)) b)) + 1 * 2 ^ 64)
      by (unfold Z.lnot; lia).
    unfold wrap at 1. rewrite Z.mod_add by lia. fold (u64 (Z.lnot
      (Z.lxor (u64 (a + sixes + b)) (Z.lxor (u64 (a + sixes)) b)))).
    apply Z.bits_inj'. intros i Hi. rewrite !testbit_wrap by lia.
    destruct (Z.ltb_spec i 64); [|done]. cbn [andb]. fold (Z.lnot (Z.lxor (a + sixes + b) (Z.lxor (a + sixes) b))).
    rewrite !Z.lnot_spec, !Z.lxor_spec, !testbit_wrap by lia. destruct (Z.ltb_spec i 64); [done|lia]. }
  rewrite land_wrap_l by (try (split; vm_compute; congruence); lia). rewrite Hcn.
  replace (Z.shiftr (16 * u) 2) with (4 * u)
    by (rewrite Z.shiftr_div_pow2 by lia; change (2 ^ 2) with 4; apply (Z.div_unique _ _ _ 0); lia).
  replace (Z.shiftr (16 * u) 3) with (2 * u)
    by (rewrite Z.shiftr_div_pow2 by lia; change (2 ^ 3) with 8; apply (Z.div_unique _ _ _ 0); lia).
  rewrite Hlor, wrap_wrap_sub by lia. f_equal. subst a b. lia.
Qed.

(** Every number is its low digits and the rest. *)
Lemma split_word a : a = enc (nibbles NumDigits a) + 2 ^ 60 * (a / 2 ^ 60).
Proof.
  rewrite enc_nibbles. change (16 ^ Z.of_nat NumDigits) with (2 ^ 60).
  pose proof (Z.div_mod a (2 ^ 60) ltac:(lia)). lia.
Qed.

Lemma nibbles_word ds h :
  digits_ok ds -> length ds = NumDigits -> nibbles NumDigits (enc ds + 2 ^ 60 * h) = ds.
Proof.
  intros Hd Hl. pose proof (nibbles_enc ds h (digits_hex _ Hd)) as E. rewrite Hl in E.
  exact E.
Qed.

Lemma nibbles_u64 x : nibbles NumDigits (u64 x) = nibbles NumDigits x.
Proof.
  rewrite <- (nibbles_mod NumDigits x), <- (nibbles_mod NumDigits (u64 x)).
  change (16 ^ Z.of_nat NumDigits) with (2 ^ 60). f_equal. unfold wrap.
  change (2 ^ 64) with (2 ^ 60 * 2 ^ 4). rewrite Z.rem_mul_r by lia.
  rewrite (Z.mul_comm (2 ^ 60)), Z.mod_add, Z.mod_mod by lia. done.
Qed.

Lemma add_bcd_spec a b :
  digits_ok (nibbles NumDigits a) -> digits_ok (nibbles NumDigits b) ->
  nibbles NumDigits (add_bcd a b) = (adc 0 (nibbles NumDigits a) (nibbles NumDigits b)).1 /\
  add_bcd a b / 2 ^ 60 =
    (a / 2 ^ 60 + b / 2 ^ 60 + (adc 0 (nibbles NumDigits a) (nibbles NumDigits b)).2) mod 16.
Proof.
  intros Ha Hb. set (da := nibbles NumDigits a) in *. set (db := nibbles NumDigits b) in *.
  assert (length da = NumDigits /\ length db = NumDigits) as [Hla Hlb] by (split; apply length_nibbles).
  destruct (adc_spec da 0 db Ha Hb ltac:(congruence) (or_introl eq_refl)) as (Hr & Hlr & Hc & _ & _).
  assert (add_bcd a b = u64 (enc (adc 0 da db).1 +
            2 ^ 60 * (a / 2 ^ 60 + b / 2 ^ 60 + (adc 0 da db).2))) as ->.
  { rewrite (split_word a), (split_word b) at 1. by apply add_bcd_enc. }
  split.
  - rewrite nibbles_u64. apply nibbles_word; [done|congruence].
  - pose proof (enc_bounds _ (digits_hex _ Hr)) as Hb'. rewrite Hlr, Hla in Hb'.
    change (16 ^ Z.of_nat NumDigits) with (2 ^ 60) in Hb'.
    set (h := a / 2 ^ 60 + b / 2 ^ 60 + (adc 0 da db).2).
    unfold wrap. symmetry. apply (Z.div_unique _ _ _ (enc (adc 0 da db).1)); [lia|].
    change (2 ^ 64) with (2 ^ 60 * 16). rewrite Z.rem_mul_r by lia.
    rewrite (Z.mul_comm (2 ^ 60) h), Z.mod_add, Z.div_add, (Z.mod_small (enc _)), (Z.div_small (enc _)), Z.add_0_l by lia.
    lia.
Qed.

Lemma length_word w : length (nibbles NumDigits w) = NumDigits.
Proof. apply length_nibbles. Qed.

Lemma word_val_bounds w : digits_ok (nibbles NumDigits w) -> 0 <= word_val w < 10 ^ 15.
Proof. intros Hd. pose proof (dec_bounds _ Hd) as Hb. by rewrite length_word in Hb. Qed.

(** Addition on valid words: the sum and its carry. *)
Lemma add_bcd_val a b :
  digits_ok (nibbles NumDigits a) -> digits_ok (nibbles NumDigits b) ->
  digits_ok (nibbles NumDigits (add_bcd a b)) /\
  exists c, carry_ok c /\ word_val (add_bcd a b) + c * 10 ^ 15 = word_val a + word_val b /\
    add_bcd a b / 2 ^ 60 = (a / 2 ^ 60 + b / 2 ^ 60 + c) mod 16.
Proof.
  intros Ha Hb. destruct (add_bcd_spec a b Ha Hb) as [Hn Hh].
  destruct (adc_spec _ 0 _ Ha Hb ltac:(by rewrite !length_word) (or_introl eq_refl))
    as (Hr & _ & Hc & Hd & _).
  unfold word_val. rewrite Hn. split; [done|]. exists (adc 0 (nibbles NumDigits a) (nibbles NumDigits b)).2.
  rewrite length_word in Hd. change (10 ^ Z.of_nat NumDigits) with (10 ^ 15) in Hd.
  split_and!; [done|lia|done].
Qed.

(** The sum modulo 10^15, whatever is in the uppermost bits. *)
Lemma add_bcd_mod a b :
  digits_ok (nibbles NumDigits a) -> digits_ok (nibbles NumDigits b) ->
  digits_ok (nibbles NumDigits (add_bcd a b)) /\
  word_val (add_bcd a b) = (word_val a + word_val b) mod 10 ^ 15.
Proof.
  intros Ha Hb. destruct (add_bcd_val a b Ha Hb) as (Hr & c & Hc & Hv & _). split; [done|].
  pose proof (word_val_bounds _ Hr). apply (Z.mod_unique _ _ c); lia.
Qed.

(** ** The ten's complement *)

Lemma nines_enc ds :
  digits_ok ds -> digits_ok (map (Z.sub 9) ds) /\
  enc (map (Z.sub 9) ds) = 9 * ones16 (length ds) - enc ds /\
  dec (map (Z.sub 9) ds) = 10 ^ Z.of_nat (length ds) - 1 - dec ds.
Proof.
  induction 1 as [|d ds Hd _ (IH1 & IH2 & IH3)]; [repeat constructor|].
  cbn [map enc dec length ones16]. rewrite Nat2Z.inj_succ, Z.pow_succ_r by lia.
  split_and!; [constructor; [lia|done]|lia|lia].
Qed.

Lemma one_digits : digits_ok (nibbles NumDigits 1).
Proof.
  assert (nibbles NumDigits 1 = [1; 0; 0; 0; 0; 0; 0; 0; 0; 0; 0; 0; 0; 0; 0]) as -> by reflexivity.
  repeat (constructor; [lia|]). constructor.
Qed.

Lemma tencomp_add a :
  0 <= a < 2 ^ 64 ->
  tencomp a = add_bcd (2 ^ 64 - 1 - a - sixes) 1.
Proof.
  intros Ha. unfold tencomp, add_bcd. change 0xffffFFFFffffFFFF with (2 ^ 64 - 1).
  replace (2 ^ 64 - 1 - a - sixes + sixes) with (2 ^ 64 - 1 - a) by lia.
  rewrite (wrap_small 64 (2 ^ 64 - 1 - a)) by lia.
  assert (u64 (- i64 a) = u64 (2 ^ 64 - 1 - a + 1)) as ->; [|done].
  unfold wrap, swrap.
  replace (2 ^ 64 - 1 - a + 1) with (- a + 1 * 2 ^ 64) by lia. rewrite Z.mod_add by lia.
  replace (- ((a + 2 ^ (64 - 1)) mod 2 ^ 64 - 2 ^ (64 - 1)))
    with (- a + ((a + 2 ^ (64 - 1)) / 2 ^ 64) * 2 ^ 64)
    by (pose proof (Z.div_mod (a + 2 ^ (64 - 1)) (2 ^ 64) ltac:(lia)); lia).
  by rewrite Z.mod_add by lia.
Qed.

Lemma tencomp_mod a :
  0 <= a < 2 ^ 64 -> digits_ok (nibbles NumDigits a) ->
  digits_ok (nibbles NumDigits (tencomp a)) /\
  word_val (tencomp a) = (- word_val a) mod 10 ^ 15.
Proof.
  intros Hr Ha. rewrite tencomp_add by done.
  destruct (nines_enc _ Ha) as (Hok & He & Hd). rewrite length_word in He, Hd.
  set (da := nibbles NumDigits a) in *.
  assert (nibbles NumDigits (2 ^ 64 - 1 - a - sixes) = map (Z.sub 9) da) as Hx.
  { rewrite (split_word a) at 1. fold da.
    replace (2 ^ 64 - 1 - (enc da + 2 ^ 60 * (a / 2 ^ 60)) - sixes)
      with (enc (map (Z.sub 9) da) + 2 ^ 60 * (15 - a / 2 ^ 60)).
    - apply nibbles_word; [done|]. rewrite length_map. apply length_word.
    - rewrite He. change (9 * ones16 NumDigits) with (2 ^ 60 - 1 - sixes). lia. }
  assert (digits_ok (nibbles NumDigits (2 ^ 64 - 1 - a - sixes))) as Hxo by (by rewrite Hx).
  destruct (add_bcd_mod _ _ Hxo one_digits) as [Ho Hv]. split; [done|]. rewrite Hv.
  unfold word_val at 1. rewrite Hx, Hd. change (word_val 1) with 1.
  change (10 ^ Z.of_nat NumDigits) with (10 ^ 15). unfold word_val. fold da.
  replace (10 ^ 15 - 1 - dec da + 1) with (- dec da + 1 * 10 ^ 15) by lia.
  by rewrite Z.mod_add by lia.
Qed.

(** The digits of a word, checked. *)
Definition digits_okb (w : Z) : bool := forallb (fun d => d <=? 9) (nibbles NumDigits w).

Lemma digits_okb_spec w : digits_okb w = true -> digits_ok (nibbles NumDigits w).
Proof.
  unfold digits_okb. pose proof (nibbles_hex NumDigits w) as Hh.
  induction Hh as [|d ds Hd _ IH]; cbn; [constructor|].
  intros [H1 H2]%andb_prop. constructor; [lia|by apply IH].
Qed.

Lemma add_bcd_range a b : 0 <= add_bcd a b < 2 ^ 64.
Proof. apply (wrap_range 64). lia. Qed.

Lemma tencomp_range a : 0 <= tencomp a < 2 ^ 64.
Proof. apply (wrap_range 64). lia. Qed.

(** Subtraction modulo 10^15. *)
Lemma sub_bcd_mod a b :
  0 <= b < 2 ^ 64 -> digits_ok (nibbles NumDigits a) -> digits_ok (nibbles NumDigits b) ->
  digits_ok (nibbles NumDigits (sub_bcd a b)) /\
  word_val (sub_bcd a b) = (word_val a - word_val b) mod 10 ^ 15.
Proof.
  intros Hr Ha Hb. destruct (tencomp_mod b Hr Hb) as [Ht Hv].
  destruct (add_bcd_mod a _ Ha Ht) as [Ho Hs]. split; [done|].
  unfold sub_bcd. rewrite Hs, Hv, Z.add_mod_idemp_r by lia. f_equal. 
Qed.

(** ** Validity check *)

Lemma land_checkvalue a :
  0 <= a < 2 ^ 64 -> checkvalue a = Z.land (carries a sixes 0) carry_bits.
Proof.
  intros Ha. unfold checkvalue, carries. rewrite Z.add_0_r.
  apply Z.bits_inj'. intros i Hi. rewrite !Z.land_spec, !Z.lxor_spec, testbit_wrap by lia.
  assert (Z.testbit sixes i && Z.testbit carry_bits i = false) as Hd.
  { rewrite <- Z.land_spec. change (Z.land sixes carry_bits) with 0. apply Z.testbit_0_l. }
  assert ((i <? 64) = false -> Z.testbit carry_bits i = false) as Hh.
  { intros Hge. rewrite <- (wrap_small 64 carry_bits) by (split; vm_compute; congruence).
    by rewrite testbit_wrap, Hge. }
  destruct (Z.testbit (a + sixes) i), (Z.testbit a i), (Z.testbit sixes i),
    (Z.testbit carry_bits i), (i <? 64); cbn in *; try done; by rewrite Hh in *.
Qed.

Lemma carries_digits da : forall h,
  Forall (fun d => 0 <= d < 16) da ->
  Z.land (carries (enc da + 16 ^ Z.of_nat (length da) * h) (all6 (length da)) 0)
    (16 * ones16 (length da)) = 0 <-> digits_ok da.
Proof.
  induction da as [|a da IH]; intros h Hda.
  - cbn. rewrite Z.land_0_r. split; [constructor|done].
  - inversion Hda as [|? ? Ha Hda']; subst. cbn [length enc all6].
    rewrite Nat2Z.inj_succ, Z.pow_succ_r by lia. set (N := 16 ^ Z.of_nat (length da)) in *.
    replace (a + 16 * enc da + 16 * N * h) with (a + 16 * (enc da + N * h)) by lia.
    rewrite carries_step by lia. rewrite Z.add_0_r.
    pose proof (nibble_range a 6 ltac:(lia) ltac:(lia)) as (Hx & _ & _).
    pose proof (nibble_range ((a + 6) mod 16) _ (Z.mod_pos_bound _ 16 ltac:(lia)) Hx) as (Hx' & _ & _).
    replace (Z.lxor ((a + 6) mod 16) (Z.lxor a 6) + 16 * carries (enc da + N * h) (all6 (length da)) ((a + 6) / 16))
      with (Z.lxor ((a + 6) mod 16) (Z.lxor a 6) + carries (enc da + N * h) (all6 (length da)) ((a + 6) / 16) * 2 ^ 4) by lia.
    replace (16 * ones16 (S (length da))) with (0 + ones16 (S (length da)) * 2 ^ 4) by lia.
    rewrite land_fields by (rewrite ?Z.land_0_r; lia). rewrite Z.land_0_r, land_ones16.
    assert (carry_ok ((a + 6) / 16)) as Hok.
    { destruct (Z.lt_ge_cases a 10); [left; apply Z.div_small; lia|].
      right. symmetry. apply (Z.div_unique _ _ _ (a - 10)); lia. }
    rewrite (carries_low _ _ _ Hok).
    assert (0 <= Z.land (carries (enc da + N * h) (all6 (length da)) ((a + 6) / 16))
                        (16 * ones16 (length da))) as Hnn.
    { apply Z.land_nonneg. right. pose proof (ones16_range (length da)). lia. }
    destruct (Z.lt_ge_cases a 10) as [Hlt|Hge].
    + rewrite (Z.div_small (a + 6)) in * by lia. rewrite Z.add_0_l, Z.add_0_l.
      specialize (IH h Hda'). unfold digits_ok. rewrite Forall_cons. unfold digits_ok in IH.
      rewrite <- IH. split; [intros Hz; split; [lia|lia]|intros [_ ->]; done].
    + assert ((a + 6) / 16 = 1) as E1 by (symmetry; apply (Z.div_unique _ _ _ (a - 10)); lia).
      rewrite E1 in *. split; [lia|]. intros Hd. inversion Hd. lia.
Qed.

(** The check of a word looks at its fifteen digits only. *)
Lemma checkvalue_spec a :
  0 <= a < 2 ^ 64 -> checkvalue a = 0 <-> digits_ok (nibbles NumDigits a).
Proof.
  intros Ha. rewrite land_checkvalue by done. rewrite (split_word a) at 1.
  pose proof (carries_digits (nibbles NumDigits a) (a / 2 ^ 60) (nibbles_hex _ _)) as Hc.
  rewrite length_word in Hc. exact Hc.
Qed.

(** ** Properties *)

(** Addition of fifteen digits at once: on valid words [add_bcd] gives the decimal
    sum, with the carry in the uppermost four bits, where [getcarry] splits it off. *)
Theorem add_bcd_correct a b :
  word_ok a -> word_ok b ->
  let '(carry, r) := getcarry (add_bcd a b) in
  word_ok r /\ carry_ok carry /\ word_val r + carry * 10 ^ 15 = word_val a + word_val b.
Proof.
  intros [Hra Ha] [Hrb Hb]. destruct (add_bcd_val a b Ha Hb) as (Hr & c & Hc & Hv & Hh).
  rewrite (Z.div_small a), (Z.div_small b), !Z.add_0_l, (Z.mod_small c) in Hh
    by (unfold carry_ok in *; lia).
  unfold getcarry. rewrite Z.shiftr_div_pow2 by (vm_compute; congruence).
  change (2 ^ NumHighShift) with (2 ^ 60). rewrite Hh.
  change NumMask with (Z.ones 60). rewrite Z.land_ones by lia.
  assert (nibbles NumDigits (add_bcd a b mod 2 ^ 60) = nibbles NumDigits (add_bcd a b)) as Hn
    by exact (nibbles_mod NumDigits _).
  unfold word_ok, word_val. rewrite Hn.
  split_and!; try done; apply Z.mod_pos_bound; vm_compute; congruence.
Qed.

Lemma add_bcd_correct_witness :
  word_val 0x999 + word_val 0x2 = word_val 0x1001.
Proof.
  pose proof (add_bcd_correct 0x999 0x2) as Hc.
  assert (forall w, digits_okb w = true -> 0 <= w < 2 ^ 60 -> word_ok w) as Hok.
  { intros w Hw Hr. split; [done|]. by apply digits_okb_spec. }
  specialize (Hc (Hok 0x999 eq_refl ltac:(lia)) (Hok 0x2 eq_refl ltac:(lia))).
  change (getcarry (add_bcd 0x999 0x2)) with (0, 0x1001) in Hc. cbn iota beta in Hc.
  destruct Hc as (_ & _ & Hv). rewrite <- Hv. lia.
Defined.

(** The complement and the difference: [tencomp] is the ten's complement and
    [sub_bcd] the difference of the fifteen digits modulo 10^15, whatever is in the
    uppermost four bits of the minuend; the digits of the result are decimal. *)
Theorem sub_bcd_correct a b :
  0 <= b < 2 ^ 64 -> digits_ok (nibbles NumDigits a) -> digits_ok (nibbles NumDigits b) ->
  word_val (tencomp b) = (- word_val b) mod 10 ^ 15 /\
  word_val (sub_bcd a b) = (word_val a - word_val b) mod 10 ^ 15 /\
  digits_ok (nibbles NumDigits (sub_bcd a b)).
Proof.
  intros Hr Ha Hb. destruct (sub_bcd_mod a b Hr Ha Hb). destruct (tencomp_mod b Hr Hb). auto.
Qed.

Lemma sub_bcd_correct_witness : word_val (sub_bcd 0x1001 0x2) = 999.
Proof.
  destruct (sub_bcd_correct 0x1001 0x2) as (_ & Hv & _);
    [lia|by apply digits_okb_spec|by apply digits_okb_spec|]. rewrite Hv. reflexivity.
Defined.

(** C30. The validity check of a word: [checkvalue] is zero exactly for the words whose
    fifteen low digits are decimal. *)
Theorem checkvalue_correct a :
  0 <= a < 2 ^ 64 -> (checkvalue a = 0 <-> digits_ok (nibbles NumDigits a)).
Proof. apply checkvalue_spec. Qed.

Lemma checkvalue_correct_witness : ~ digits_ok (nibbles NumDigits 0x1A2).
Proof.
  intros Hd. apply (checkvalue_correct 0x1A2 ltac:(lia)) in Hd. vm_compute in Hd. discriminate.
Defined.
