(* ===== verification/BigBCD.v ===== *)
(** * Arbitrary size packed decimal numbers: data and operations

    Models the class BigBCD of src/modules/datatype/bcdnumber/bcdArithmetic.cpp, the
    digit arithmetic behind the datatypes "bcd" and "fxp": words of fifteen decimal
    digits (BcdWord), least significant word first.  The proofs are in BigBCDArith.

    An object is the array as allocated and the number of its words in use, because
    [normalize] drops leading zero words without shrinking the array.  Memory is
    unlimited: a request fails only where its size wraps around below zero. *)
From S2P Require Import Prelude Decimal Variant BcdWord.

Record BigBCD := mkBigBCD {
  m_size : nat;
  m_ar : list Z;
  m_sign : bool
}.

#[export] Instance BigBCD_eq_dec : EqDecision BigBCD.
Proof. solve_decision. Defined.

(** The default constructor. *)
Definition BigBCD_null : BigBCD := mkBigBCD 0 [] false.

(** [allocate( nn)]: zeroed words, positive sign. *)
Definition allocate (nn : nat) : BigBCD := mkBigBCD nn (replicate nn 0) false.

(** [copy( o)] takes over the words in use only. *)
Definition copy (o : BigBCD) : BigBCD := mkBigBCD (m_size o) (take (m_size o) (m_ar o)) (m_sign o).

Definition with_sign (s : bool) (x : BigBCD) : BigBCD := mkBigBCD (m_size x) (m_ar x) s.
Definition with_words (ws : list Z) (x : BigBCD) : BigBCD := mkBigBCD (m_size x) ws (m_sign x).

(** The word [m_ar[ ii]]. *)
Definition word_at (x : BigBCD) (ii : nat) : res Z :=
  match m_ar x !! ii with
  | Some w => Ok w
  | None => Throw (Undefined "array access out of bounds")
  end.

(** [(ii>=m_size)?0:m_ar[ii]]. *)
Definition operand (x : BigBCD) (ii : nat) : Z :=
  if (m_size x <=? ii)%nat then 0 else nth ii (m_ar x) 0.

(** The words in use. *)
Definition words (x : BigBCD) : list Z := take (m_size x) (m_ar x).

Definition isValid (x : BigBCD) : bool :=
  foldl (fun chkval w => Z.lor chkval (checkvalue w)) 0 (words x) =? 0.

(** The loop of [normalize]: the number of words up to the last one that is not zero. *)
Fixpoint top_word (ar : list Z) (ii : nat) : nat :=
  match ii with
  | O => O
  | S i => if nth i ar 0 =? 0 then top_word ar i else ii
  end.

Definition bad_calculation : exn := LogicError "bad bcd calculation".

Definition normalize (x : BigBCD) : res BigBCD :=
  _ ← check_that (isValid x) bad_calculation;
  let ii := top_word (m_ar x) (m_size x) in
  if (0 <? ii)%nat then Ok (mkBigBCD ii (m_ar x) (m_sign x))
  else Ok (mkBigBCD 0 (m_ar x) false).

(** ** The digits, the most significant first *)

(** [const_iterator]: word index and shift; the array is that of the number. *)
Record const_iterator := mk_iterator { m_idx : nat; m_shf : Z }.

#[export] Instance const_iterator_eq_dec : EqDecision const_iterator.
Proof. solve_decision. Defined.

Definition it_end : const_iterator := mk_iterator 0 (NumHighShift - 4).

Definition it_increment (it : const_iterator) : const_iterator :=
  if m_shf it =? 0 then mk_iterator (m_idx it - 1) (NumHighShift - 4)
  else mk_iterator (m_idx it) (m_shf it - 4).

Definition it_size (it : const_iterator) : nat :=
  if (m_idx it =? 0)%nat then 0%nat
  else ((m_idx it - 1) * NumDigits + Z.to_nat (m_shf it / 4) + 1)%nat.

(** [operator*]: the digit; at the end the array is the null pointer. *)
Definition it_digit (x : BigBCD) (it : const_iterator) : res Z :=
  match m_idx it with
  | O => Throw (Undefined "array access out of bounds")
  | S i =>
      w ← word_at x i;
      let rt := Z.land (Z.shiftr w (m_shf it)) 0xf in
      _ ← check_that (rt <=? 9) (RuntimeError "illegal bcd number");
      Ok rt
  end.

(** The loop of the constructor skips leading zero digits; [fuel] bounds the digits. *)
Fixpoint skip_zeros (fuel : nat) (x : BigBCD) (it : const_iterator) : res const_iterator :=
  match fuel with
  | O => OutOfFuel
  | S fuel' =>
      match m_idx it with
      | O => Ok it
      | S i =>
          w ← word_at x i;
          if Z.land (Z.shiftr w (m_shf it)) 0xf =? 0
          then skip_zeros fuel' x (it_increment it) else Ok it
      end
  end.

(** More iterations than the number has digits. *)
Definition digit_fuel (x : BigBCD) : nat := S (m_size x * NumDigits).

Definition it_begin (x : BigBCD) : res const_iterator :=
  skip_zeros (digit_fuel x) x (mk_iterator (m_size x) (NumHighShift - 4)).

Definition isNull (x : BigBCD) : res bool :=
  it ← it_begin x; Ok (bool_decide (it = it_end)).

Definition nof_digits (x : BigBCD) : res nat :=
  it ← it_begin x; Ok (it_size it).

(** [tostring] *)
Fixpoint tostring_loop (fuel : nat) (x : BigBCD) (it : const_iterator) : res string :=
  match fuel with
  | O => OutOfFuel
  | S fuel' =>
      if bool_decide (it = it_end) then Ok EmptyString
      else
        d ← it_digit x it;
        rt ← tostring_loop fuel' x (it_increment it);
        Ok (String (ascii_of_nat (Z.to_nat (d + 48))) rt)
  end.

Definition tostring (x : BigBCD) : res string :=
  it ← it_begin x;
  if bool_decide (it = it_end) then Ok "0"%string
  else
    rt ← tostring_loop (digit_fuel x) x it;
    Ok ((if m_sign x then "-" else "") +:+ rt)%string.

(** An operation of type int64_t; its overflow is undefined. *)
Definition int64_op (v : Z) : res Z :=
  if (- 2 ^ 63 <=? v) && (v <? 2 ^ 63) then Ok v
  else Throw (Undefined "signed integer overflow").

(** [toint]: the loop tests [cnt], which nothing increments. *)
Definition INTEGER_DIGITS : Z := 19.

Fixpoint toint_loop (fuel : nat) (x : BigBCD) (cnt : Z) (it : const_iterator) (rt : Z)
  : res (const_iterator * Z) :=
  match fuel with
  | O => OutOfFuel
  | S fuel' =>
      if (cnt <? INTEGER_DIGITS) && negb (bool_decide (it = it_end)) then
        d ← it_digit x it;
        m ← int64_op (rt * 10);
        rt' ← int64_op (m + d);
        toint_loop fuel' x cnt (it_increment it) rt'
      else Ok (it, rt)
  end.

Definition toint (x : BigBCD) : res Z :=
  it ← it_begin x;
  if bool_decide (it = it_end) then Ok 0
  else
    r ← toint_loop (digit_fuel x) x 0 it 0;
    rt ← (if m_sign x then int64_op (- r.2) else Ok r.2);
    _ ← check_that (bool_decide (r.1 = it_end))
          (RuntimeError "number out of range to convert it to an int");
    Ok rt.

(** ** Addition and subtraction of the digits *)

(** The words of the sum, with the carry out of the last one. *)
Fixpoint add_loop (this_ opr : BigBCD) (n ii : nat) (carry : Z) : list Z * Z :=
  match n with
  | O => ([], carry)
  | S n' =>
      let res := add_bcd (operand this_ ii) (operand opr ii) in
      let res := if carry =? 0 then res else increment res in
      let '(carry, res) := getcarry res in
      let '(ws, c) := add_loop this_ opr n' (S ii) carry in
      (res :: ws, c)
  end.

(** Without words in both operands [rt] is left as it is. *)
Definition digits_addition (rt this_ opr : BigBCD) : res BigBCD :=
  let nn := Nat.max (m_size opr) (m_size this_) in
  if (nn =? 0)%nat then Ok rt
  else
    let '(ws, carry) := add_loop this_ opr nn 0 0 in
    if negb (carry =? 0) then
      let rt := mkBigBCD (nn + 1) (ws ++ [carry]) (m_sign this_) in
      _ ← check_that (isValid rt) bad_calculation;
      Ok rt
    else normalize (mkBigBCD (nn + 1) (ws ++ [0]) (m_sign this_)).

Fixpoint sub_loop (this_ opr : BigBCD) (n ii : nat) (carry : bool) : list Z * bool :=
  match n with
  | O => ([], carry)
  | S n' =>
      let op1 := operand this_ ii in
      let op2 := operand opr ii in
      let res := add_bcd op1 (tencomp op2) in
      let '(res, carry) :=
        if carry : bool then (decrement res, op1 <=? op2) else (res, op1 <? op2) in
      let '(ws, c) := sub_loop this_ opr n' (S ii) carry in
      (res :: ws, c)
  end.

(** The complement taken after a borrow: every word but the lowest is incremented. *)
Definition complement (ws : list Z) : list Z :=
  imap (fun i w => Z.land (tencomp (if (0 <? i)%nat then increment w else w)) NumMask) ws.

Definition digits_subtraction (rt this_ opr : BigBCD) : res BigBCD :=
  let nn := Nat.max (m_size opr) (m_size this_) in
  if (nn =? 0)%nat then Ok rt
  else
    let '(ws, carry) := sub_loop this_ opr nn 0 false in
    normalize
      (if carry then mkBigBCD nn (complement ws) (negb (m_sign this_))
       else mkBigBCD nn (map (fun w => Z.land w NumMask) ws) (m_sign this_)).

(** ** Shifting and cutting digits *)

Definition put (ar : list Z) (i : nat) (w : Z) : res (list Z) :=
  if (i <? length ar)%nat then Ok (<[i := w]> ar)
  else Throw (Undefined "array access out of bounds").

(** The loop joining the parts of neighbouring words, [ii] being the next word to read
    and [hi] its high part that belongs to the lower word of the result. *)
Fixpoint up_loop (doshift upshift : Z) (w : Z) (ws : list Z) : list Z :=
  match ws with
  | [] => [Z.shiftr w upshift]
  | w' :: ws' =>
      Z.lor (Z.shiftr w upshift) (Z.land (u64 (Z.shiftl w' doshift)) NumMask)
        :: up_loop doshift upshift w' ws'
  end.

Fixpoint down_loop (doshift upshift : Z) (w : Z) (ws : list Z) : list Z :=
  match ws with
  | [] => [Z.shiftr w doshift]
  | w' :: ws' =>
      Z.lor (Z.shiftr w doshift) (Z.land (u64 (Z.shiftl w' upshift)) NumMask)
        :: down_loop doshift upshift w' ws'
  end.

(** Multiplication with 10^[nof_digits]. *)
Definition shift_up (this_ : BigBCD) (nof_digits : nat) : BigBCD :=
  let ofs := (nof_digits / NumDigits)%nat in
  let sfh := (nof_digits mod NumDigits)%nat in
  let size := (m_size this_ + ofs + 1)%nat in
  let ar :=
    if (sfh =? 0)%nat then replicate ofs 0 ++ words this_ ++ [0]
    else
      match words this_ with
      | [] => replicate (ofs + 1) 0
      | w :: ws =>
          let doshift := Z.of_nat sfh * 4 in
          let upshift := NumHighShift - Z.of_nat sfh * 4 in
          replicate ofs 0 ++
            Z.land (u64 (Z.shiftl w doshift)) NumMask :: up_loop doshift upshift w ws
      end in
  mkBigBCD size ar (m_sign this_).

(** Division by 10^[nof_digits].  The size of the result wraps around if more words
    than there are (and one) are shifted out; if all words are shifted out the code
    accesses the word behind the last one. *)
Definition shift_down (this_ : BigBCD) (nof_digits : nat) : res BigBCD :=
  let ofs := (nof_digits / NumDigits)%nat in
  let sfh := (nof_digits mod NumDigits)%nat in
  _ ← check_that (ofs <=? m_size this_ + 1)%nat BadAlloc;
  let rt := with_sign (m_sign this_) (allocate (m_size this_ + 1 - ofs)) in
  if (sfh =? 0)%nat then
    Ok (with_words (drop ofs (words this_) ++ drop (m_size this_ - ofs) (m_ar rt)) rt)
  else if (m_size this_ =? 0)%nat then Ok rt
  else
    let upshift := NumHighShift - Z.of_nat sfh * 4 in
    let doshift := Z.of_nat sfh * 4 in
    match drop ofs (words this_) with
    | [] =>
        w ← word_at this_ ofs;
        ar ← put (m_ar rt) 0 (Z.shiftr w doshift);
        Ok (with_words ar rt)
    | w :: ws => Ok (with_words (down_loop doshift upshift w ws ++ [0]) rt)
    end.

Definition digits_shift (this_ : BigBCD) (nof_digits : Z) : res BigBCD :=
  rt ← (if 0 <? nof_digits then Ok (shift_up this_ (Z.to_nat nof_digits))
        else if nof_digits <? 0 then shift_down this_ (Z.to_nat (- nof_digits))
        else Ok (copy this_));
  normalize rt.

(** The digits kept are counted in a char, the mask is an unsigned int. *)
Definition digits_cut (this_ : BigBCD) (nof_digits : Z) : res BigBCD :=
  let ofs := Z.to_nat (nof_digits / Z.of_nat NumDigits) in
  let sfh := u8 nof_digits mod Z.of_nat NumDigits in
  low ← mapM (word_at this_) (seq 0 ofs);
  let mask := u32 (Z.shiftr NumMask ((Z.of_nat NumDigits - sfh) * 4)) in
  w ← word_at this_ ofs;
  normalize (mkBigBCD (ofs + 1) (low ++ [Z.land w mask]) (m_sign this_)).

(** ** Multiplication *)

Definition digits_16_multiplication (rt this_ : BigBCD) : res BigBCD :=
  x2 ← digits_addition BigBCD_null this_ this_;
  x4 ← digits_addition BigBCD_null x2 x2;
  x8 ← digits_addition BigBCD_null x4 x4;
  digits_addition rt x8 x8.

(** The doubles are only computed if the factor needs them. *)
Definition doubled (b : bool) (x : BigBCD) : res BigBCD :=
  if b then digits_addition BigBCD_null x x else Ok BigBCD_null.

Definition digits_nibble_multiplication (rt this_ : BigBCD) (factor : Z) : res BigBCD :=
  x2 ← doubled (negb (Z.land factor 0xE =? 0)) this_;
  x4 ← doubled (negb (Z.land factor 0xC =? 0)) x2;
  x8 ← doubled (negb (Z.land factor 0x8 =? 0)) x4;
  match factor with
  | 0 => Ok rt
  | 1 => Ok (copy this_)
  | 2 => Ok (copy x2)
  | 3 => digits_addition rt x2 this_
  | 4 => Ok (copy x4)
  | 5 => digits_addition rt x4 this_
  | 6 => digits_addition rt x4 x2
  | 7 => x6 ← digits_addition BigBCD_null x4 x2; digits_addition rt x6 this_
  | 8 => Ok (copy x8)
  | 9 => digits_addition rt x8 this_
  | 10 => digits_addition rt x8 x2
  | 11 => x10 ← digits_addition BigBCD_null x8 x2; digits_addition rt x10 this_
  | 12 => digits_addition rt x8 x4
  | 13 => x12 ← digits_addition BigBCD_null x8 x4; digits_addition rt x12 this_
  | 14 => x12 ← digits_addition BigBCD_null x8 x4; digits_addition rt x12 x2
  | 15 => x12 ← digits_addition BigBCD_null x8 x4;
          x14 ← digits_addition BigBCD_null x12 x2;
          digits_addition rt x14 this_
  | _ => Throw (LogicError "multiplication nibble out of range")
  end.

(** The nibbles of the factor above the lowest: [part] is declared outside of the loop
    and keeps its value where the nibble is zero. *)
Fixpoint factor_loop (fuel : nat) (rt part fac : BigBCD) (factor : Z) : res BigBCD :=
  match fuel with
  | O => OutOfFuel
  | S fuel' =>
      if 0 <? factor then
        fac ← digits_16_multiplication BigBCD_null fac;
        part ← digits_nibble_multiplication part fac (Z.land factor 0x0f);
        rt ← digits_addition BigBCD_null part rt;
        factor_loop fuel' rt part fac (Z.shiftr factor 4)
      else Ok rt
  end.

(** A factor of 64 bits has sixteen nibbles. *)
Definition factor_fuel : nat := 16.

Definition digits_multiplication_factor (rt this_ : BigBCD) (factor : Z) : res BigBCD :=
  if factor =? 0 then Ok (allocate 0)
  else
    rt ← digits_nibble_multiplication rt this_ (Z.land factor 0x0f);
    factor_loop factor_fuel rt BigBCD_null (copy this_) (Z.shiftr factor 4).

Fixpoint product_loop (fuel : nat) (rt this_ opr : BigBCD) (it : const_iterator) : res BigBCD :=
  match fuel with
  | O => OutOfFuel
  | S fuel' =>
      if bool_decide (it = it_end) then Ok rt
      else
        sum ← digits_shift rt 1;
        d ← it_digit opr it;
        part ← digits_nibble_multiplication BigBCD_null this_ d;
        rt ← digits_addition rt sum part;
        product_loop fuel' rt this_ opr (it_increment it)
  end.

Definition digits_multiplication (rt this_ opr : BigBCD) : res BigBCD :=
  it ← it_begin opr;
  if bool_decide (it = it_end) then Ok rt
  else
    d ← it_digit opr it;
    rt ← digits_nibble_multiplication rt this_ d;
    product_loop (digit_fuel opr) rt this_ opr (it_increment it).

(** ** The operators *)

Definition add (this_ opr : BigBCD) : res BigBCD :=
  if Bool.eqb (m_sign this_) (m_sign opr) then digits_addition BigBCD_null this_ opr
  else digits_subtraction BigBCD_null this_ opr.

Definition sub (this_ opr : BigBCD) : res BigBCD :=
  if Bool.eqb (m_sign this_) (m_sign opr) then digits_subtraction BigBCD_null this_ opr
  else digits_addition BigBCD_null this_ opr.

Definition mul_factor (this_ : BigBCD) (opr : Z) : res BigBCD :=
  val ← digits_multiplication_factor BigBCD_null this_ opr; Ok (copy val).

Definition mul_int (this_ : BigBCD) (opr : Z) : res BigBCD :=
  let ng := opr <? 0 in
  opr ← (if ng then int64_op (- opr) else Ok opr);
  val ← digits_multiplication_factor BigBCD_null this_ (u64 opr);
  Ok (with_sign (xorb (m_sign val) ng) val).

Definition mul (this_ opr : BigBCD) : res BigBCD :=
  val ← digits_multiplication BigBCD_null this_ opr; Ok (copy val).

Definition neg (this_ : BigBCD) : res BigBCD :=
  let rt := copy this_ in normalize (with_sign (negb (m_sign rt)) rt).

Definition invert_sign (this_ : BigBCD) : res BigBCD :=
  normalize (with_sign (negb (m_sign this_)) this_).

Fixpoint compare_loop (fuel : nat) (x o : BigBCD) (ii oo : const_iterator) (smaller : Z) : res Z :=
  match fuel with
  | O => OutOfFuel
  | S fuel' =>
      if bool_decide (ii = it_end) then Ok 0
      else
        a ← it_digit x ii;
        b ← it_digit o oo;
        if b <? a then Ok smaller
        else if a <? b then Ok (- smaller)
        else compare_loop fuel' x o (it_increment ii) (it_increment oo) smaller
  end.

Definition compare (x o : BigBCD) : res Z :=
  if negb (Bool.eqb (m_sign x) (m_sign o)) then Ok (if m_sign x then -1 else 1)
  else
    let resOtherSmaller := if m_sign x then -1 else 1 in
    ii ← it_begin x;
    oo ← it_begin o;
    if (it_size oo <? it_size ii)%nat then Ok resOtherSmaller
    else if (it_size ii <? it_size oo)%nat then Ok (- resOtherSmaller)
    else compare_loop (digit_fuel x) x o ii oo resOtherSmaller.

(** [round]: the subtraction of the granularity is repeated until it gets negative. *)
Fixpoint round_loop (fuel : nat) (zt ct gran : BigBCD) : res BigBCD :=
  match fuel with
  | O => OutOfFuel
  | S fuel' =>
      zt ← digits_subtraction zt ct gran;
      if m_sign zt then Ok zt else round_loop fuel' zt (copy zt) gran
  end.

Definition round (fuel : nat) (x gran : BigBCD) : res BigBCD :=
  nn ← nof_digits gran;
  _ ← check_that (negb (m_sign gran || (nn =? 0)%nat))
        (RuntimeError "rounding granularity must be a positive number");
  ct ← digits_cut (copy x) (Z.of_nat nn);
  zt ← round_loop fuel BigBCD_null (with_sign false ct) gran;
  if m_sign x then add x zt else sub x zt.

(** ** Initialisation *)

(** The loop of [init( const BigNumber&)] over the digits; a digit behind the last one
    is read for a negative scale. *)
Fixpoint init_loop (n ii : nat) (nn nofDigits : nat) (digits : list Z)
    (ar : list Z) (bb : nat) (tt : Z) : res (list Z) :=
  match n with
  | O => Ok ar
  | S n' =>
      digit ← (if (nofDigits <? ii)%nat then Ok 0
               else
                 match digits !! ii with
                 | None => Throw (Undefined "array access out of bounds")
                 | Some digit =>
                     _ ← check_that (digit <=? 9) (RuntimeError "illegal bcd number"); Ok digit
                 end);
      w ← word_at (mkBigBCD 0 ar false) (bb - 1);
      ar ← put ar (bb - 1) (u64 (w + Z.shiftl digit tt));
      if tt =? 0 then
        _ ← check_that (negb ((bb - 1 =? 0)%nat && negb (ii + 1 =? nn)%nat))
              (RuntimeError "illegal state in bcd number constructor");
        init_loop n' (S ii) nn nofDigits digits ar (bb - 1) (NumHighShift - 4)
      else init_loop n' (S ii) nn nofDigits digits ar bb (tt - 4)
  end.

(** The digits, their number ([nofDigits]) and the number of digits to write ([nn]). *)
Definition init_digits (num : BigNumber) : list Z * nat * nat :=
  let size := length (bn_digits num) in
  let '(digits, nofDigits) := if (size =? 0)%nat then ([0], 1%nat) else (bn_digits num, size) in
  if 0 <? bn_scale num then
    if Z.of_nat nofDigits <? bn_scale num then ([0], 1%nat, 1%nat)
    else let nn := (nofDigits - Z.to_nat (bn_scale num))%nat in (digits, nn, nn)
  else (digits, nofDigits, (nofDigits + Z.to_nat (- bn_scale num))%nat).

Definition init_BigNumber (num : BigNumber) : res BigBCD :=
  let '(digits, nofDigits, nn) := init_digits num in
  let bb := ((nn + NumDigits - 1) / NumDigits)%nat in
  let tt := Z.of_nat ((nn + NumDigits - 1) mod NumDigits) * 4 in
  ar ← init_loop nn 0 nn nofDigits digits (replicate bb 0) bb tt;
  normalize (mkBigBCD bb ar (bn_sign num)).

(** The scaling of an estimate by a power of ten while its shift is below [lim]. *)
Fixpoint scale_down (fuel : nat) (lim step factor estimate estshift : Z) : res (Z * Z) :=
  match fuel with
  | O => OutOfFuel
  | S fuel' =>
      if estshift <? lim then scale_down fuel' lim step factor (estimate / factor) (estshift + step)
      else Ok (estimate, estshift)
  end.

Fixpoint estimate_loop (fuel : nat) (ar : list Z) (bb : nat) (tt estimate : Z) : res (list Z) :=
  match fuel with
  | O => OutOfFuel
  | S fuel' =>
      if 0 <? estimate then
        let dd := estimate mod 10 in
        w ← word_at (mkBigBCD 0 ar false) bb;
        ar ← put ar bb (Z.lor w (u64 (Z.shiftl dd tt)));
        if tt =? NumHighShift - 4 then estimate_loop fuel' ar (S bb) 0 (estimate / 10)
        else estimate_loop fuel' ar bb (tt + 4) (estimate / 10)
      else Ok ar
  end.

(** A number of 64 bits has at most twenty digits. *)
Definition estimate_fuel : nat := 21.

(** The scaling loops in front of the digit loop. *)
Definition scale_estimate (estimate estshift : Z) : res (Z * Z) :=
  let fuel := S (Z.to_nat (- estshift)) in
  x ← scale_down fuel (-6) 6 1000000 estimate estshift;
  x ← scale_down fuel (-3) 3 1000 x.1 x.2;
  x ← scale_down fuel (-1) 2 100 x.1 x.2;
  scale_down fuel 0 1 10 x.1 x.2.

Definition estimate_as_bcd (estimate estshift : Z) : res BigBCD :=
  let mm := Z.to_nat (if 0 <? estshift then 3 + Z.quot estshift 4 else 3 - Z.quot estshift 4) in
  _ ← check_that (estimate <? 2 ^ 64 - 1) (LogicError "division estimate out of range");
  '(estimate, estshift) ← scale_estimate estimate estshift;
  let estimate := if estimate =? 0 then 1 else estimate in
  let bb := Z.to_nat (estshift / Z.of_nat NumDigits) in
  let tt := 4 * (estshift mod Z.of_nat NumDigits) in
  ar ← estimate_loop estimate_fuel (replicate mm 0) bb tt estimate;
  normalize (mkBigBCD mm ar false).

Definition init_INTEGER (num : Z) : res BigBCD :=
  let ng := num <? 0 in
  num ← (if ng then int64_op (- num) else Ok num);
  th ← estimate_as_bcd (u64 num) 0;
  Ok (copy (with_sign (xorb (m_sign th) ng) th)).

Definition init_UINTEGER (num : Z) : res BigBCD :=
  th ← estimate_as_bcd (u64 num) 0; Ok (copy th).
