(* ===== verification/BigBCDArith.v ===== *)
(** * Arbitrary size packed decimal numbers: addition and subtraction

    Proofs about BigBCD: the value of a number, normalisation, addition, subtraction,
    shifting and the multiplications with a nibble and with a machine word. *)
From S2P Require Import Prelude Decimal Variant BcdWord BigBCD.

(** ** Specification vocabulary *)

(** A word holds [base] values. *)
Definition base : Z := 10 ^ 15.

Fixpoint words_val (ws : list Z) : Z :=
  match ws with [] => 0 | w :: ws' => word_val w + base * words_val ws' end.

(** A well formed number: the words in use are allocated and hold decimal digits. *)
Definition big_ok (x : BigBCD) : Prop :=
  (m_size x <= length (m_ar x))%nat /\ Forall word_ok (words x).

(** No leading zero word, and no negative zero. *)
Definition normal (x : BigBCD) : Prop :=
  match last (words x) with Some w => w <> 0 | None => m_sign x = false end.

(** The absolute value, and the value. *)
Definition mag (x : BigBCD) : Z := words_val (words x).
Definition signed (s : bool) (v : Z) : Z := if s then - v else v.
Definition num (x : BigBCD) : Z := signed (m_sign x) (mag x).

(** ** Words *)

Lemma zero_ok : word_ok 0.
Proof. split; [lia|]. by apply digits_okb_spec. Qed.

Lemma one_ok : word_ok 1.
Proof. split; [lia|]. by apply digits_okb_spec. Qed.

Lemma word_val_0 : word_val 0 = 0.
Proof. reflexivity. Qed.

Lemma carry_word_ok c : carry_ok c -> word_ok c /\ word_val c = c.
Proof. intros [->| ->]; split; auto using zero_ok, one_ok. Qed.

Lemma word_bounds w : word_ok w -> 0 <= word_val w < base.
Proof. intros [_ Hd]. by apply word_val_bounds. Qed.

Lemma words_val_nonneg ws : Forall word_ok ws -> 0 <= words_val ws.
Proof.
  induction 1 as [|w ws Hw _ IH]; cbn [words_val]; [lia|].
  pose proof (word_bounds w Hw). unfold base in *. lia.
Qed.

Lemma words_val_bound ws :
  Forall word_ok ws -> 0 <= words_val ws < base ^ Z.of_nat (length ws).
Proof.
  induction 1 as [|w ws Hw _ IH]; cbn [words_val length]; [lia|].
  pose proof (word_bounds w Hw). rewrite Nat2Z.inj_succ, Z.pow_succ_r by lia.
  unfold base in *. nia.
Qed.

Lemma words_val_app ws vs :
  words_val (ws ++ vs) = words_val ws + base ^ Z.of_nat (length ws) * words_val vs.
Proof.
  induction ws as [|w ws IH]; cbn [words_val app length]; [lia|].
  rewrite IH, Nat2Z.inj_succ, Z.pow_succ_r by lia. lia.
Qed.

Lemma words_val_zeros n : words_val (replicate n 0) = 0.
Proof. induction n as [|n IH]; [done|]. cbn [replicate words_val]. by rewrite IH, word_val_0. Qed.

Lemma zeros_ok n : Forall word_ok (replicate n 0).
Proof. apply Forall_replicate, zero_ok. Qed.

(** Packed words are ordered like their values. *)
Lemma digit_compare k a b x y :
  0 <= a < k -> 0 <= b < k ->
  (a + k * x ?= b + k * y) = match x ?= y with Eq => a ?= b | c => c end.
Proof.
  intros Ha Hb. destruct (Z.compare_spec x y) as [->|Hlt|Hlt].
  - destruct (Z.compare_spec a b) as [->|Hl|Hl];
      [apply Z.compare_eq_iff|apply Z.compare_lt_iff|apply Z.compare_gt_iff]; lia.
  - apply Z.compare_lt_iff. nia.
  - apply Z.compare_gt_iff. nia.
Qed.

Lemma enc_dec_compare da : forall db,
  digits_ok da -> digits_ok db -> length da = length db -> (enc da ?= enc db) = (dec da ?= dec db).
Proof.
  induction da as [|a da IH]; intros [|b db] Ha Hb Hl; try discriminate Hl; cbn [enc dec]; [done|].
  apply Forall_cons in Ha as [Ha1 Ha], Hb as [Hb1 Hb].
  rewrite !digit_compare by lia. rewrite IH by (auto; cbn in Hl; lia). done.
Qed.

Lemma word_enc w : 0 <= w < 2 ^ 60 -> enc (nibbles NumDigits w) = w.
Proof.
  intros Hw. rewrite enc_nibbles. change (16 ^ Z.of_nat NumDigits) with (2 ^ 60).
  by apply Z.mod_small.
Qed.

Lemma word_compare a b : word_ok a -> word_ok b -> (a ?= b) = (word_val a ?= word_val b).
Proof.
  intros [Ha Hda] [Hb Hdb]. unfold word_val. rewrite <- enc_dec_compare by (auto; by rewrite !length_word).
  by rewrite !word_enc.
Qed.

Lemma word_ltb a b : word_ok a -> word_ok b -> (a <? b) = (word_val a <? word_val b).
Proof. intros Ha Hb. unfold Z.ltb. by rewrite word_compare. Qed.

Lemma word_leb a b : word_ok a -> word_ok b -> (a <=? b) = (word_val a <=? word_val b).
Proof. intros Ha Hb. unfold Z.leb. by rewrite word_compare. Qed.

Lemma word_val_inj a b : word_ok a -> word_ok b -> word_val a = word_val b -> a = b.
Proof.
  intros Ha Hb E. apply Z.compare_eq_iff. rewrite word_compare by done. by apply Z.compare_eq_iff.
Qed.

Lemma mask_word w :
  digits_ok (nibbles NumDigits w) ->
  word_ok (Z.land w NumMask) /\ word_val (Z.land w NumMask) = word_val w.
Proof.
  intros Hd. change NumMask with (Z.ones 60). rewrite Z.land_ones by lia.
  assert (nibbles NumDigits (w mod 2 ^ 60) = nibbles NumDigits w) as Hn
    by exact (nibbles_mod NumDigits w).
  unfold word_ok, word_val. rewrite Hn. split_and!; try done; apply Z.mod_pos_bound; lia.
Qed.

(** ** Normalisation *)

Lemma isValid_ok x : Forall word_ok (words x) -> isValid x = true.
Proof.
  intros Hw. unfold isValid. apply Z.eqb_eq. induction Hw as [|w ws Hw _ IH]; [done|].
  cbn [foldl]. replace (checkvalue w) with 0; [done|].
  symmetry. apply checkvalue_spec; [destruct Hw; lia|apply Hw].
Qed.

Lemma top_word_le ar n : (top_word ar n <= n)%nat.
Proof. induction n as [|n IH]; cbn [top_word]; [lia|]. destruct (nth n ar 0 =? 0); lia. Qed.

Lemma take_S_nth {A} (d : A) n l : (n < length l)%nat -> take (S n) l = take n l ++ [nth n l d].
Proof.
  intros Hn. apply take_S_r. destruct (lookup_lt_is_Some_2 l n Hn) as [y Hy].
  rewrite Hy. f_equal. symmetry. by apply nth_lookup_Some.
Qed.

Lemma top_word_val ar : forall n,
  (n <= length ar)%nat -> words_val (take (top_word ar n) ar) = words_val (take n ar).
Proof.
  induction n as [|n IH]; intros Hn; cbn [top_word]; [done|].
  destruct (Z.eqb_spec (nth n ar 0) 0) as [E|]; [|done].
  rewrite (take_S_nth 0), words_val_app, IH by lia. cbn [words_val]. rewrite E, word_val_0. lia.
Qed.

Lemma top_word_last ar : forall n, (n <= length ar)%nat ->
  match last (take (top_word ar n) ar) with Some w => w <> 0 | None => top_word ar n = 0%nat end.
Proof.
  induction n as [|n IH]; intros Hn; cbn [top_word]; [done|].
  destruct (Z.eqb_spec (nth n ar 0) 0) as [E|E]; [apply IH; lia|].
  rewrite (take_S_nth 0), last_snoc by lia. done.
Qed.

Lemma big_ok_words x ws : words x = ws -> big_ok x -> Forall word_ok ws.
Proof. intros <- [_ H]. done. Qed.

Lemma mag_nonneg x : big_ok x -> 0 <= mag x.
Proof. intros [_ H]. by apply words_val_nonneg. Qed.

Lemma normalize_spec x :
  big_ok x ->
  exists y, normalize x = Ok y /\ big_ok y /\ normal y /\ mag y = mag x /\ num y = num x /\
    m_sign y = negb (mag x =? 0) && m_sign x.
Proof.
  intros [Hl Hw]. unfold normalize. rewrite isValid_ok by done. cbn [check_that mbind res_bind].
  pose proof (top_word_le (m_ar x) (m_size x)) as Ht.
  pose proof (top_word_val (m_ar x) (m_size x) Hl) as Hv.
  pose proof (top_word_last (m_ar x) (m_size x) Hl) as Hlast.
  set (t := top_word (m_ar x) (m_size x)) in *.
  assert (Forall word_ok (take t (m_ar x))) as Ht'.
  { unfold words in Hw. rewrite <- (take_drop t (take (m_size x) (m_ar x))) in Hw.
    apply Forall_app in Hw as [Hw _]. rewrite take_take, Nat.min_l in Hw by lia. done. }
  destruct (Nat.ltb_spec 0 t).
  - eexists; split; [reflexivity|]. unfold big_ok, normal, mag, num, mag, words; cbn.
    rewrite Hv. destruct (last (take t (m_ar x))) as [w|] eqn:E; [|lia].
    split_and!; auto; [lia|].
    destruct (Z.eqb_spec (words_val (take (m_size x) (m_ar x))) 0) as [E0|]; [|done].
    exfalso. apply last_Some in E as [ws E]. rewrite E in *. apply Forall_app in Ht' as [Hws Hw'].
    apply Forall_cons in Hw' as [Hw' _]. rewrite E0, words_val_app in Hv. cbn [words_val] in Hv.
    pose proof (words_val_nonneg ws Hws). pose proof (word_bounds w Hw').
    assert (0 < base ^ Z.of_nat (length ws)) by (apply Z.pow_pos_nonneg; unfold base; lia).
    apply Hlast, word_val_inj; auto using zero_ok. rewrite word_val_0. nia.
  - assert (t = 0%nat) as Ht0 by lia. rewrite Ht0 in Hv. cbn in Hv.
    eexists; split; [reflexivity|]. unfold big_ok, normal, mag, num, mag, words; cbn.
    rewrite <- Hv, take_0. split_and!; try done; [lia|by destruct (m_sign x)].
Qed.

(** ** Addition *)

(** The operands of the words [ii], ..., [ii + n - 1]. *)
Definition operands (x : BigBCD) (ii n : nat) : list Z := map (operand x) (seq ii n).

Lemma operand_ok x ii : big_ok x -> word_ok (operand x ii).
Proof.
  intros [Hl Hw]. unfold operand. destruct (Nat.leb_spec (m_size x) ii); [apply zero_ok|].
  eapply Forall_forall; [exact Hw|].
  apply (list_elem_of_lookup_2 _ ii). unfold words. rewrite lookup_take_lt by lia.
  destruct (lookup_lt_is_Some_2 (m_ar x) ii ltac:(lia)) as [w Hw']. rewrite Hw'. f_equal.
  symmetry. by apply nth_lookup_Some.
Qed.

Lemma operands_ok x ii n : big_ok x -> Forall word_ok (operands x ii n).
Proof. intros Hx. apply Forall_map, Forall_true. intros. by apply operand_ok. Qed.

Lemma operands_words x : big_ok x -> operands x 0 (m_size x) = words x.
Proof.
  intros [Hl _]. apply list_eq. intros i. unfold operands, words.
  rewrite list_lookup_fmap. destruct (Nat.lt_ge_cases i (m_size x)).
  - rewrite lookup_seq_lt, lookup_take_lt by lia. cbn. unfold operand.
    destruct (Nat.leb_spec (m_size x) i); [lia|].
    destruct (lookup_lt_is_Some_2 (m_ar x) i ltac:(lia)) as [w Hw']. rewrite Hw'. f_equal.
    by apply nth_lookup_Some.
  - rewrite lookup_seq_ge, lookup_take_ge by lia. done.
Qed.

Lemma operands_mag x n : big_ok x -> (m_size x <= n)%nat -> words_val (operands x 0 n) = mag x.
Proof.
  intros Hx Hn. replace n with (m_size x + (n - m_size x))%nat by lia.
  unfold operands. rewrite seq_app, map_app, words_val_app. fold (operands x 0 (m_size x)).
  rewrite operands_words by done. fold (mag x).
  replace (map (operand x) _) with (replicate (n - m_size x) 0); [rewrite words_val_zeros; lia|].
  apply replicate_as_elem_of. rewrite length_map, length_seq. split; [done|].
  intros w. rewrite list_elem_of_fmap. intros (i & -> & Hi). apply elem_of_seq in Hi.
  unfold operand. destruct (Nat.leb_spec (m_size x) i); [done|lia].
Qed.

(** One step of the addition. *)
Lemma add_step a b c :
  word_ok a -> word_ok b -> carry_ok c ->
  let res := add_bcd a b in
  let '(c', r) := getcarry (if c =? 0 then res else increment res) in
  word_ok r /\ carry_ok c' /\ word_val r + c' * base = word_val a + word_val b + c.
Proof.
  intros [Hra Ha] [Hrb Hb] Hc res.
  destruct (add_bcd_val a b Ha Hb) as (Hr & c1 & Hc1 & Hv & Hh). fold res in Hr, Hv, Hh.
  rewrite (Z.div_small a), (Z.div_small b), !Z.add_0_l, (Z.mod_small c1) in Hh
    by (unfold carry_ok in *; lia).
  pose proof (word_bounds a (conj Hra Ha)). pose proof (word_bounds b (conj Hrb Hb)).
  assert (exists w, (if c =? 0 then res else increment res) = w /\ digits_ok (nibbles NumDigits w) /\
    carry_ok (w / 2 ^ 60) /\ word_val w + (w / 2 ^ 60) * base = word_val a + word_val b + c)
    as (w & -> & Hd & Hcw & Hw).
  { eexists; split; [reflexivity|]. destruct Hc as [->| ->]; cbn [Z.eqb].
    - rewrite Hh. unfold base. split_and!; auto; lia.
    - destruct (add_bcd_val res 1 Hr one_digits) as (Hr2 & c2 & Hc2 & Hv2 & Hh2).
      unfold increment. change (word_val 1) with 1 in Hv2.
      change (1 / 2 ^ 60) with 0 in Hh2. rewrite Hh, Z.add_0_r in Hh2.
      pose proof (word_val_bounds _ Hr2).
      rewrite Z.mod_small in Hh2 by (unfold carry_ok in *; lia). rewrite Hh2.
      unfold carry_ok, base in *. split_and!; auto; lia. }
  unfold getcarry. rewrite Z.shiftr_div_pow2 by (vm_compute; congruence).
  change (2 ^ NumHighShift) with (2 ^ 60). destruct (mask_word w Hd) as [Hok Hval].
  rewrite Hval. auto.
Qed.

Lemma add_loop_spec x y : big_ok x -> big_ok y -> forall n ii c, carry_ok c ->
  let '(ws, c') := add_loop x y n ii c in
  length ws = n /\ Forall word_ok ws /\ carry_ok c' /\
  words_val ws + c' * base ^ Z.of_nat n =
    words_val (operands x ii n) + words_val (operands y ii n) + c.
Proof.
  intros Hx Hy. induction n as [|n IH]; intros ii c Hc; cbn [add_loop].
  { cbn. split_and!; auto. lia. }
  pose proof (add_step _ _ c (operand_ok x ii Hx) (operand_ok y ii Hy) Hc) as Hs. cbn zeta in Hs.
  destruct (getcarry _) as [c1 r]. destruct Hs as (Hr & Hc1 & Hv).
  specialize (IH (S ii) c1 Hc1). destruct (add_loop x y n (S ii) c1) as [ws c'].
  destruct IH as (Hl & Hws & Hc' & Hv'). split_and!; auto; [cbn; lia|].
  unfold operands in *. cbn [seq map words_val]. rewrite Nat2Z.inj_succ, Z.pow_succ_r by lia. lia.
Qed.

(** The sum of the magnitudes, with the sign of the first operand.  If both operands have
    no words the destination is not touched. *)
Lemma words_full n ws s : length ws = n -> words (mkBigBCD n ws s) = ws.
Proof. intros <-. unfold words. cbn. by rewrite firstn_all. Qed.

Lemma digits_addition_spec rt x y :
  big_ok x -> big_ok y -> (m_size x + m_size y > 0)%nat ->
  exists r, digits_addition rt x y = Ok r /\ big_ok r /\ normal r /\ mag r = mag x + mag y /\
    m_sign r = negb (mag r =? 0) && m_sign x.
Proof.
  intros Hx Hy Hsz. unfold digits_addition. set (nn := Nat.max (m_size y) (m_size x)).
  destruct (Nat.eqb_spec nn 0) as [|Hnn]; [lia|].
  pose proof (add_loop_spec x y Hx Hy nn 0 0 (or_introl eq_refl)) as Hl.
  destruct (add_loop x y nn 0 0) as [ws c]. destruct Hl as (Hl & Hws & Hc & Hv).
  rewrite !operands_mag, Z.add_0_r in Hv by (auto; lia).
  destruct (carry_word_ok c Hc) as [Hcw Hcv].
  assert (forall s, words (mkBigBCD (nn + 1) (ws ++ [c]) s) = ws ++ [c]) as Hfull.
  { intros s. apply words_full. rewrite length_app, Hl. done. }
  assert (Forall word_ok (ws ++ [c])) as Hall by (apply Forall_app; auto).
  assert (words_val (ws ++ [c]) = mag x + mag y) as Hval.
  { rewrite words_val_app. cbn [words_val]. rewrite Hcv, Hl. lia. }
  assert (big_ok (mkBigBCD (nn + 1) (ws ++ [c]) (m_sign x))) as Hok.
  { split; cbn [m_size m_ar]; [rewrite length_app, Hl; cbn; lia|]. by rewrite Hfull. }
  destruct Hc as [->| ->]; cbn [Z.eqb negb].
  - destruct (normalize_spec _ Hok) as (r & -> & Hr & Hn & Hm & _ & Hs).
    unfold mag in Hm at 2. rewrite Hfull, Hval in Hm.
    exists r. split; [done|]. split; [done|]. split; [done|]. split; [done|].
    rewrite Hs, Hm. unfold mag at 1. rewrite Hfull, Hval. done.
  - rewrite isValid_ok by (rewrite Hfull; done). cbn [check_that mbind res_bind].
    eexists; split; [reflexivity|]. unfold normal, mag at 1. rewrite !Hfull, last_snoc.
    split_and!; auto. cbn [m_sign]. unfold mag. rewrite Hfull, words_val_app. cbn [words_val].
    rewrite Hcv. pose proof (words_val_nonneg ws Hws).
    assert (0 < base ^ Z.of_nat (length ws)) by (apply Z.pow_pos_nonneg; unfold base; lia).
    destruct (Z.eqb_spec (words_val ws + base ^ Z.of_nat (length ws) * (1 + base * 0)) 0); [lia|done].
Qed.

(** ** Subtraction *)

(** A word before its uppermost bits are masked. *)
Definition raw_ok (w : Z) : Prop := 0 <= w < 2 ^ 64 /\ digits_ok (nibbles NumDigits w).

Definition borrow (c : bool) : Z := if c then 1 else 0.

Lemma mod_borrow v : - base <= v < base -> v mod base = v + base * borrow (v <? 0).
Proof.
  intros Hv. unfold borrow. destruct (Z.ltb_spec v 0); [|rewrite Z.mod_small; lia].
  rewrite <- (Z.mod_add v 1) by (unfold base; lia). rewrite Z.mod_small; lia.
Qed.

Lemma raw_of_word w : word_ok w -> raw_ok w.
Proof. intros [Hr Hd]. split; [lia|done]. Qed.

(** One step of the subtraction. *)
Lemma sub_step a b (c : bool) :
  word_ok a -> word_ok b ->
  let res := sub_bcd a b in
  let r := if c then decrement res else res in
  let c' := if c then a <=? b else a <? b in
  raw_ok r /\ word_val r = word_val a - word_val b - borrow c + base * borrow c' /\
  word_val r = (word_val a - word_val b - borrow c) mod base.
Proof.
  intros Ha Hb res r c'.
  pose proof (word_bounds a Ha). pose proof (word_bounds b Hb).
  destruct (sub_bcd_mod a b ltac:(destruct Hb; lia) (proj2 Ha) (proj2 Hb)) as [Hd Hv].
  fold res in Hd, Hv. change (10 ^ 15) with base in Hv.
  assert (raw_ok r /\ word_val r = (word_val a - word_val b - borrow c) mod base) as [Hr Hvr].
  { subst r. destruct c; cbn [borrow].
    - destruct (sub_bcd_mod res 1 ltac:(lia) Hd one_digits) as [Hd1 Hv1].
      change (10 ^ 15) with base in Hv1. change (word_val 1) with 1 in Hv1.
      split; [split; [apply add_bcd_range|done]|].
      unfold decrement. rewrite Hv1, Hv. apply Zminus_mod_idemp_l.
    - split; [split; [apply add_bcd_range|done]|]. by rewrite Hv, Z.sub_0_r. }
  split_and!; auto. rewrite Hvr, mod_borrow by (unfold borrow; destruct c; lia).
  do 3 f_equal. subst c'. destruct c; cbn [borrow].
  - rewrite (word_leb a b Ha Hb).
    destruct (Z.leb_spec (word_val a) (word_val b)), (Z.ltb_spec (word_val a - word_val b - 1) 0);
      first [done|exfalso; lia].
  - rewrite (word_ltb a b Ha Hb).
    destruct (Z.ltb_spec (word_val a) (word_val b)), (Z.ltb_spec (word_val a - word_val b - 0) 0);
      first [done|exfalso; lia].
Qed.

Lemma sub_loop_spec x y : big_ok x -> big_ok y -> forall n ii c,
  let '(ws, c') := sub_loop x y n ii c in
  length ws = n /\ Forall raw_ok ws /\
  words_val ws - base ^ Z.of_nat n * borrow c' =
    words_val (operands x ii n) - words_val (operands y ii n) - borrow c /\
  match ws with
  | [] => True
  | w :: _ => word_val w = (word_val (operand x ii) - word_val (operand y ii) - borrow c) mod base
  end.
Proof.
  intros Hx Hy. induction n as [|n IH]; intros ii c; cbn [sub_loop].
  { cbn. split_and!; auto. destruct c; lia. }
  pose proof (sub_step _ _ c (operand_ok x ii Hx) (operand_ok y ii Hy)) as Hs. cbn zeta in Hs.
  fold (sub_bcd (operand x ii) (operand y ii)).
  set (r := if c then _ else _) in Hs. set (c1 := if c then _ <=? _ else _) in Hs.
  replace (if c then _ else _) with (r, c1) by (subst r c1; by destruct c).
  destruct Hs as (Hr & Hv & Hm).
  specialize (IH (S ii) c1). destruct (sub_loop x y n (S ii) c1) as [ws c'].
  destruct IH as (Hl & Hws & Hv' & _). split_and!; auto; [cbn; lia|].
  unfold operands in *. cbn [seq map words_val]. rewrite Nat2Z.inj_succ, Z.pow_succ_r by lia. lia.
Qed.

Lemma mask_words ws :
  Forall raw_ok ws ->
  Forall word_ok (map (fun w => Z.land w NumMask) ws) /\
  words_val (map (fun w => Z.land w NumMask) ws) = words_val ws.
Proof.
  induction 1 as [|w ws [_ Hd] _ [IH1 IH2]]; [done|].
  destruct (mask_word w Hd) as [H1 H2]. cbn [map words_val]. rewrite H2, IH2. auto.
Qed.

(** The complement of a word, and of an incremented word. *)
Lemma complement_word w :
  raw_ok w ->
  word_ok (Z.land (tencomp w) NumMask) /\
  word_val (Z.land (tencomp w) NumMask) = (- word_val w) mod base.
Proof.
  intros [Hr Hd]. destruct (tencomp_mod w Hr Hd) as [Hd' Hv].
  destruct (mask_word _ Hd') as [H1 H2]. by rewrite H2, Hv.
Qed.

Lemma complement_next w :
  raw_ok w ->
  word_ok (Z.land (tencomp (increment w)) NumMask) /\
  word_val (Z.land (tencomp (increment w)) NumMask) = base - 1 - word_val w.
Proof.
  intros [Hr Hd]. destruct (add_bcd_mod w 1 Hd one_digits) as [Hd' Hv].
  change (10 ^ 15) with base in Hv. change (word_val 1) with 1 in Hv.
  destruct (complement_word (increment w)) as [H1 H2].
  { split; [apply add_bcd_range|done]. }
  split; [done|]. rewrite H2. unfold increment. rewrite Hv.
  pose proof (word_val_bounds w Hd). change (10 ^ 15) with base in *.
  replace (- ((word_val w + 1) mod base)) with (0 - ((word_val w + 1) mod base)) by lia.
  rewrite Zminus_mod_idemp_r. symmetry. apply (Z.mod_unique _ _ (-1)); lia.
Qed.

Lemma complement_tail ws :
  Forall raw_ok ws ->
  let cs := map (fun w => Z.land (tencomp (increment w)) NumMask) ws in
  Forall word_ok cs /\ words_val cs = base ^ Z.of_nat (length ws) - 1 - words_val ws.
Proof.
  intros Hws cs. induction Hws as [|w ws Hw _ IH]; [done|]. subst cs. cbn zeta in IH.
  destruct IH as [IH1 IH2]. destruct (complement_next w Hw) as [H1 H2].
  cbn [map words_val length]. rewrite IH2, H2, Nat2Z.inj_succ, Z.pow_succ_r by lia.
  split; [auto|lia].
Qed.

(** The complement is right unless the lowest word is zero: the carry out of it is lost. *)
Lemma complement_spec w ws :
  raw_ok w -> Forall raw_ok ws ->
  Forall word_ok (complement (w :: ws)) /\
  words_val (complement (w :: ws)) =
    base ^ Z.of_nat (S (length ws)) - words_val (w :: ws) - (if word_val w =? 0 then base else 0).
Proof.
  intros Hw Hws.
  assert (complement (w :: ws) = Z.land (tencomp w) NumMask ::
    map (fun w => Z.land (tencomp (increment w)) NumMask) ws) as ->.
  { unfold complement. cbn [imap]. f_equal. rewrite <- imap_const. apply imap_ext.
    intros i w' _. cbn [compose]. apply (f_equal (fun v => Z.land (tencomp v) NumMask)).
    destruct (Nat.ltb_spec 0 (S i)); [reflexivity|lia]. }
  destruct (complement_word w Hw) as [H1 H2]. destruct (complement_tail ws Hws) as [H3 H4].
  cbn [words_val]. rewrite H2, H4, Nat2Z.inj_succ, Z.pow_succ_r by lia.
  split; [auto|]. pose proof (word_val_bounds w (proj2 Hw)). change (10 ^ 15) with base in *.
  rewrite mod_borrow by lia. unfold borrow.
  destruct (Z.ltb_spec (- word_val w) 0), (Z.eqb_spec (word_val w) 0); lia.
Qed.

(** What a borrow out of the last word loses. *)
Definition lost_carry (x y : BigBCD) : Z :=
  if (mag x <? mag y) && (operand x 0 =? operand y 0) then base else 0.

Lemma digits_subtraction_spec rt x y :
  big_ok x -> big_ok y -> (m_size x + m_size y > 0)%nat ->
  exists r, digits_subtraction rt x y = Ok r /\ big_ok r /\ normal r /\
    mag r = Z.abs (mag x - mag y) - lost_carry x y /\
    m_sign r = negb (mag r =? 0) && xorb (m_sign x) (mag x <? mag y).
Proof.
  intros Hx Hy Hsz. unfold digits_subtraction. set (nn := Nat.max (m_size y) (m_size x)).
  destruct (Nat.eqb_spec nn 0) as [|Hnn]; [lia|].
  pose proof (sub_loop_spec x y Hx Hy nn 0 false) as Hl.
  destruct (sub_loop x y nn 0 false) as [ws c]. destruct Hl as (Hl & Hws & Hv & Hh).
  rewrite !operands_mag in Hv by (auto; lia). cbn [borrow] in Hv, Hh. rewrite Z.sub_0_r in Hv, Hh.
  destruct (mask_words ws Hws) as [Hmo Hmv]. pose proof (words_val_bound _ Hmo) as Hb.
  rewrite length_map, Hl, Hmv in Hb.
  assert ((mag x <? mag y) = c) as Hc.
  { destruct c; cbn [borrow] in Hv; destruct (Z.ltb_spec (mag x) (mag y)); lia. }
  assert (forall z, big_ok z -> words_val (words z) = Z.abs (mag x - mag y) - lost_carry x y ->
    m_sign z = xorb (m_sign x) c -> exists r, normalize z = Ok r /\ big_ok r /\ normal r /\
    mag r = Z.abs (mag x - mag y) - lost_carry x y /\
    m_sign r = negb (mag r =? 0) && xorb (m_sign x) (mag x <? mag y)) as Hfin.
  { intros z Hz Hval Hsg. destruct (normalize_spec z Hz) as (r & -> & ? & ? & Hm & _ & Hs).
    exists r. rewrite Hs, Hm, Hsg, Hc. unfold mag at 1 3. rewrite Hval. auto. }
  unfold lost_carry in *. rewrite Hc in Hfin |- *.
  destruct c; cbn [borrow andb xorb] in *.
  - destruct ws as [|w ws]; [cbn in Hl; lia|]. apply Forall_cons in Hws as [Hw Hws].
    destruct (complement_spec w ws Hw Hws) as [Hco Hcv].
    assert (length (complement (w :: ws)) = nn) as Hlc by (unfold complement; by rewrite length_imap).
    apply Hfin; [split; [cbn [m_size m_ar]; lia|by rewrite words_full]| |cbn; by destruct (m_sign x)].
    rewrite words_full, Hcv by done. cbn in Hl. rewrite Hl.
    replace (word_val w =? 0) with (operand x 0 =? operand y 0); [lia|].
    pose proof (operand_ok x 0 Hx). pose proof (operand_ok y 0 Hy).
    pose proof (word_bounds (operand x 0) ltac:(done)). pose proof (word_bounds (operand y 0) ltac:(done)).
    rewrite Hh, mod_borrow by lia. unfold borrow.
    destruct (Z.eqb_spec (operand x 0) (operand y 0)) as [->|Hne].
    + rewrite Z.sub_diag. done.
    + destruct (Z.ltb_spec (word_val (operand x 0) - word_val (operand y 0)) 0);
        symmetry; apply Z.eqb_neq; [lia|]. intros E. apply Hne, word_val_inj; auto. lia.
  - apply Hfin; [split; [cbn [m_size m_ar]; rewrite length_map; lia|]| |cbn; by destruct (m_sign x)];
      rewrite words_full by (by rewrite length_map); [done|]. rewrite Hmv. lia.
Qed.

(** ** Shifting *)

Lemma base_pow n : base ^ Z.of_nat n = 10 ^ Z.of_nat (n * NumDigits).
Proof. unfold base. rewrite <- Z.pow_mul_r by lia. f_equal. unfold NumDigits. lia. Qed.

Lemma enc_word ds :
  digits_ok ds -> length ds = NumDigits -> word_ok (enc ds) /\ word_val (enc ds) = dec ds.
Proof.
  intros Hd Hl. pose proof (nibbles_word ds 0 Hd Hl) as Hn. rewrite Z.mul_0_r, Z.add_0_r in Hn.
  pose proof (enc_bounds ds (digits_hex ds Hd)) as Hb. rewrite Hl in Hb.
  unfold word_ok, word_val. rewrite Hn. split; [split; [exact Hb|done]|done].
Qed.

(** The digits of a word split after [k] digits. *)
Lemma digits_split k ds :
  digits_ok ds -> (k <= length ds)%nat ->
  digits_ok (take k ds) /\ digits_ok (drop k ds) /\
  enc ds = enc (take k ds) + 16 ^ Z.of_nat k * enc (drop k ds) /\
  0 <= enc (take k ds) < 16 ^ Z.of_nat k /\
  dec (take k ds) = dec ds mod 10 ^ Z.of_nat k /\ dec (drop k ds) = dec ds / 10 ^ Z.of_nat k.
Proof.
  intros Hd Hk. pose proof Hd as Hd0. rewrite <- (take_drop k ds) in Hd0.
  apply Forall_app in Hd0 as [Ht Hdr].
  assert (length (take k ds) = k) as Hl by (rewrite length_take; lia).
  pose proof (enc_app (take k ds) (drop k ds)) as He. pose proof (dec_app (take k ds) (drop k ds)) as Hde.
  rewrite take_drop, Hl in He, Hde.
  pose proof (enc_bounds _ (digits_hex _ Ht)) as Hbe. pose proof (dec_bounds _ Ht) as Hbd.
  rewrite Hl in Hbe, Hbd. split_and!; auto; try lia.
  - apply (Z.mod_unique _ _ (dec (drop k ds))); lia.
  - apply (Z.div_unique _ _ _ (dec (take k ds))); lia.
Qed.

Lemma pow16 k : 16 ^ Z.of_nat k = 2 ^ (Z.of_nat k * 4).
Proof. change 16 with (2 ^ 4). rewrite <- Z.pow_mul_r by lia. f_equal. lia. Qed.

(** The high part of a word, moved down, and the low part, moved up. *)
Lemma high_part w k :
  word_ok w -> (k <= NumDigits)%nat ->
  Z.shiftr w (NumHighShift - Z.of_nat k * 4) = enc (drop (NumDigits - k) (nibbles NumDigits w)).
Proof.
  intros [Hr Hd] Hk.
  destruct (digits_split (NumDigits - k) _ Hd ltac:(rewrite length_word; lia))
    as (_ & _ & He & Hb & _).
  rewrite word_enc in He by done. rewrite Z.shiftr_div_pow2 by (unfold NumHighShift, NumDigits in *; lia).
  replace (NumHighShift - Z.of_nat k * 4) with (Z.of_nat (NumDigits - k) * 4)
    by (unfold NumHighShift, NumDigits in *; lia).
  rewrite <- pow16. rewrite He at 1. symmetry.
  apply (Z.div_unique _ _ _ (enc (take (NumDigits - k) (nibbles NumDigits w)))); lia.
Qed.

Lemma low_part w k :
  word_ok w -> (k <= NumDigits)%nat ->
  Z.land (u64 (Z.shiftl w (Z.of_nat k * 4))) NumMask =
  enc (take (NumDigits - k) (nibbles NumDigits w)) * 2 ^ (Z.of_nat k * 4).
Proof.
  intros [Hr Hd] Hk.
  destruct (digits_split (NumDigits - k) _ Hd ltac:(rewrite length_word; lia))
    as (_ & _ & He & Hb & _).
  rewrite word_enc in He by done. rewrite land_wrap_l by (unfold NumMask; lia).
  change NumMask with (Z.ones 60). rewrite Z.land_ones, Z.shiftl_mul_pow2 by lia.
  rewrite He at 1. rewrite <- pow16. symmetry.
  apply (Z.mod_unique _ _ (enc (drop (NumDigits - k) (nibbles NumDigits w)))).
  - left. rewrite pow16 in Hb |- *.
    replace (2 ^ 60) with (2 ^ (Z.of_nat (NumDigits - k) * 4) * 2 ^ (Z.of_nat k * 4)); [nia|].
    rewrite <- Z.pow_add_r by lia. f_equal. unfold NumDigits in *; lia.
  - replace (2 ^ 60) with (16 ^ Z.of_nat (NumDigits - k) * 16 ^ Z.of_nat k); [lia|].
    rewrite <- Z.pow_add_r by lia. change (2 ^ 60) with (16 ^ 15). f_equal.
    unfold NumDigits in *; lia.
Qed.

(** The word joined from the high part of one and the low part of the next. *)
Lemma joined_word w w' k :
  word_ok w -> word_ok w' -> (k <= NumDigits)%nat ->
  let r := Z.lor (Z.shiftr w (NumHighShift - Z.of_nat k * 4))
                 (Z.land (u64 (Z.shiftl w' (Z.of_nat k * 4))) NumMask) in
  word_ok r /\
  word_val r = word_val w / 10 ^ Z.of_nat (NumDigits - k) +
    10 ^ Z.of_nat k * (word_val w' mod 10 ^ Z.of_nat (NumDigits - k)).
Proof.
  intros Hw Hw' Hk r. subst r. rewrite high_part, low_part by done.
  destruct (digits_split (NumDigits - k) _ (proj2 Hw) ltac:(rewrite length_word; lia))
    as (_ & Hd & _ & _ & _ & Hq).
  destruct (digits_split (NumDigits - k) _ (proj2 Hw') ltac:(rewrite length_word; lia))
    as (Ht & _ & _ & _ & Hm & _).
  set (hi := drop _ _) in *. set (lo := take _ (nibbles _ w')) in *.
  assert (length hi = k) as Hlh by (unfold hi; rewrite length_drop, length_word; lia).
  assert (length lo = NumDigits - k)%nat as Hll by (unfold lo; rewrite length_take, length_word; lia).
  pose proof (enc_bounds hi (digits_hex _ Hd)) as Hb. rewrite Hlh, pow16 in Hb.
  rewrite lor_high_low by (auto; lia).
  replace (enc hi + enc lo * 2 ^ (Z.of_nat k * 4)) with (enc (hi ++ lo))
    by (rewrite enc_app, Hlh, pow16; lia).
  destruct (enc_word (hi ++ lo)) as [H1 H2];
    [apply Forall_app; auto|rewrite length_app; lia|].
  split; [done|]. rewrite H2, dec_app, Hlh. unfold word_val. lia.
Qed.

Lemma shiftr_word w k :
  word_ok w -> (k <= NumDigits)%nat ->
  let r := Z.shiftr w (NumHighShift - Z.of_nat k * 4) in
  word_ok r /\ word_val r = word_val w / 10 ^ Z.of_nat (NumDigits - k).
Proof.
  intros Hw Hk r. pose proof (joined_word w 0 k Hw zero_ok Hk) as Hj. cbn zeta in Hj.
  rewrite Z.shiftl_0_l in Hj. change (Z.land (u64 0) NumMask) with 0 in Hj.
  rewrite Z.lor_0_r, word_val_0, Zmod_0_l in Hj. fold r in Hj.
  destruct Hj as [H1 H2]. split; [done|lia].
Qed.

Lemma pow10_split k :
  (k <= NumDigits)%nat -> base = 10 ^ Z.of_nat (NumDigits - k) * 10 ^ Z.of_nat k.
Proof. intros Hk. rewrite <- Z.pow_add_r by lia. unfold base. f_equal. unfold NumDigits in *. lia. Qed.

Lemma up_loop_spec k ws : (k <= NumDigits)%nat -> forall w, word_ok w -> Forall word_ok ws ->
  let rs := up_loop (Z.of_nat k * 4) (NumHighShift - Z.of_nat k * 4) w ws in
  length rs = S (length ws) /\ Forall word_ok rs /\
  words_val rs = word_val w / 10 ^ Z.of_nat (NumDigits - k) + 10 ^ Z.of_nat k * words_val ws.
Proof.
  intros Hk. induction ws as [|w' ws IH]; intros w Hw Hws rs; subst rs; cbn [up_loop].
  - destruct (shiftr_word w k Hw Hk) as [H1 H2]. cbn [words_val]. rewrite H2.
    split_and!; auto. lia.
  - apply Forall_cons in Hws as [Hw' Hws]. destruct (joined_word w w' k Hw Hw' Hk) as [H1 H2].
    destruct (IH w' Hw' Hws) as (Hl & Hok & Hv). cbn [words_val length]. rewrite Hl, H2, Hv.
    split_and!; auto. pose proof (pow10_split k Hk) as Hb.
    assert (0 < 10 ^ Z.of_nat (NumDigits - k)) by lia.
    pose proof (Z.div_mod (word_val w') (10 ^ Z.of_nat (NumDigits - k)) ltac:(lia)) as E.
    set (P := 10 ^ Z.of_nat (NumDigits - k)) in *. set (Q := 10 ^ Z.of_nat k) in *.
    rewrite E at 3. rewrite Hb. ring.
Qed.

Lemma down_loop_up d u ws : forall w, down_loop d u w ws = up_loop u d w ws.
Proof. induction ws as [|w' ws IH]; intros w; cbn; [done|]. by rewrite IH. Qed.

Lemma big_ok_full n ws s : length ws = n -> Forall word_ok ws -> big_ok (mkBigBCD n ws s).
Proof. intros Hl Hws. split; [cbn; lia|]. by rewrite words_full. Qed.

Lemma mag_full n ws s : length ws = n -> mag (mkBigBCD n ws s) = words_val ws.
Proof. intros Hl. unfold mag. by rewrite words_full. Qed.

Lemma length_words x : big_ok x -> length (words x) = m_size x.
Proof. intros [Hl _]. unfold words. rewrite length_take. lia. Qed.

Lemma copy_spec x :
  big_ok x -> big_ok (copy x) /\ mag (copy x) = mag x /\ m_sign (copy x) = m_sign x /\
    words (copy x) = words x.
Proof.
  intros Hx. pose proof (length_words x Hx) as Hl. fold (words x) in *.
  unfold copy. fold (words x). rewrite mag_full, words_full by done.
  split_and!; auto. apply big_ok_full; [done|apply Hx].
Qed.

Lemma digits_divmod n :
  n = (n / NumDigits * NumDigits + n mod NumDigits)%nat /\ (n mod NumDigits < NumDigits)%nat.
Proof.
  assert (NumDigits <> 0%nat) by (unfold NumDigits; lia).
  pose proof (Nat.div_mod_eq n NumDigits). pose proof (Nat.mod_upper_bound n NumDigits). lia.
Qed.

Lemma shift_up_spec x n :
  big_ok x ->
  big_ok (shift_up x n) /\ mag (shift_up x n) = mag x * 10 ^ Z.of_nat n /\
  m_sign (shift_up x n) = m_sign x.
Proof.
  intros Hx. pose proof (length_words x Hx) as Hlw. pose proof (proj2 Hx) as Hwo.
  destruct (digits_divmod n) as [Hn Hk]. unfold shift_up.
  set (ofs := (n / NumDigits)%nat) in *. set (k := (n mod NumDigits)%nat) in *.
  assert (10 ^ Z.of_nat n = base ^ Z.of_nat ofs * 10 ^ Z.of_nat k) as Hpow.
  { rewrite base_pow, <- Z.pow_add_r by lia. f_equal. lia. }
  set (ar := if (k =? 0)%nat then _ else _).
  assert (length ar = (m_size x + ofs + 1)%nat /\ Forall word_ok ar /\
    words_val ar = mag x * 10 ^ Z.of_nat n) as (Hl & Hok & Hv).
  { subst ar. unfold mag. rewrite Hpow. destruct (Nat.eqb_spec k 0) as [E|E].
    - rewrite !words_val_app, length_replicate, words_val_zeros, E. cbn [words_val].
      rewrite word_val_0, !length_app, length_replicate, Hlw. split_and!; [cbn; lia| |lia].
      repeat (apply Forall_app; split); auto using zeros_ok, zero_ok.
    - destruct (words x) as [|w ws] eqn:Ew.
      + rewrite words_val_zeros, length_replicate. split_and!; [cbn in Hlw; lia|apply zeros_ok|].
        cbn [words_val]. lia.
      + apply Forall_cons in Hwo as [Hw Hws].
        destruct (up_loop_spec k ws ltac:(lia) w Hw Hws) as (Hl & Hrs & Hv).
        set (rs := up_loop _ _ _ _) in *.
        pose proof (joined_word 0 w k zero_ok Hw ltac:(lia)) as Hj. cbn zeta in Hj.
        rewrite Z.shiftr_0_l, Z.lor_0_l, word_val_0, Z.div_0_l in Hj by lia.
        destruct Hj as [H1 H2].
        rewrite !words_val_app, !length_app, !length_replicate, words_val_zeros. cbn [words_val length].
        rewrite H2, Hl, Hv. cbn in Hlw. split_and!; [lia| |].
        { apply Forall_app; auto using zeros_ok. }
        pose proof (Z.div_mod (word_val w) (10 ^ Z.of_nat (NumDigits - k)) ltac:(lia)) as E1.
        pose proof (pow10_split k ltac:(lia)) as Hb.
        set (P := 10 ^ Z.of_nat (NumDigits - k)) in *. set (Q := 10 ^ Z.of_nat k) in *.
        rewrite E1 at 3. rewrite Hb. ring. }
  rewrite mag_full by done. split_and!; auto. by apply big_ok_full.
Qed.

Lemma words_val_drop n ws :
  Forall word_ok ws -> words_val (drop n ws) = words_val ws / base ^ Z.of_nat n.
Proof.
  intros Hws. destruct (Nat.le_gt_cases n (length ws)).
  - rewrite <- (take_drop n ws) at 2. rewrite words_val_app, length_take, Nat.min_l by lia.
    rewrite <- (take_drop n ws) in Hws. apply Forall_app in Hws as [Ht _].
    pose proof (words_val_bound _ Ht) as Hb. rewrite length_take, Nat.min_l in Hb by lia.
    apply (Z.div_unique _ _ _ (words_val (take n ws))); lia.
  - rewrite drop_ge by lia. cbn [words_val]. symmetry. apply Z.div_small.
    pose proof (words_val_bound _ Hws). split; [lia|].
    apply Z.lt_le_trans with (base ^ Z.of_nat (length ws)); [lia|].
    apply Z.pow_le_mono_r; unfold base; lia.
Qed.

Lemma shift_down_spec x n :
  big_ok x -> (n < m_size x * NumDigits)%nat ->
  exists r, shift_down x n = Ok r /\ big_ok r /\ mag r = mag x / 10 ^ Z.of_nat n /\
    m_sign r = m_sign x.
Proof.
  intros Hx Hlt. pose proof (length_words x Hx) as Hlw. pose proof (proj2 Hx) as Hwo.
  destruct (digits_divmod n) as [Hn Hk]. unfold shift_down.
  set (ofs := (n / NumDigits)%nat) in *. set (k := (n mod NumDigits)%nat) in *.
  assert (ofs < m_size x)%nat as Hofs by nia.
  assert (10 ^ Z.of_nat n = base ^ Z.of_nat ofs * 10 ^ Z.of_nat k) as Hpow.
  { rewrite base_pow, <- Z.pow_add_r by lia. f_equal. lia. }
  rewrite Hpow, <- Z.div_div by (try apply Z.pow_pos_nonneg; unfold base; lia).
  unfold mag at 2. rewrite <- words_val_drop by done.
  assert (Forall word_ok (drop ofs (words x))) as Hdo by (by apply Forall_drop).
  assert (length (drop ofs (words x)) = m_size x - ofs)%nat as Hdl by (rewrite length_drop; lia).
  destruct (Nat.leb_spec ofs (m_size x + 1)); [|lia]. cbn [check_that mbind res_bind].
  assert (forall ws, length ws = (m_size x - ofs)%nat -> Forall word_ok ws ->
    words_val ws = words_val (drop ofs (words x)) / 10 ^ Z.of_nat k ->
    let r := mkBigBCD (m_size x + 1 - ofs) (ws ++ [0]) (m_sign x) in
    big_ok r /\ mag r = words_val (drop ofs (words x)) / 10 ^ Z.of_nat k /\ m_sign r = m_sign x) as Hfin.
  { intros ws Hl Hws Hv r. subst r.
    assert (length (ws ++ [0]) = (m_size x + 1 - ofs)%nat) by (rewrite length_app, Hl; cbn [length]; lia).
    rewrite mag_full, words_val_app by done. cbn [words_val]. rewrite word_val_0, Hv.
    split_and!; [|lia|done]. apply big_ok_full; [done|]. apply Forall_app; auto using zero_ok. }
  destruct (Nat.eqb_spec k 0) as [E|E].
  - eexists; split; [reflexivity|]. unfold with_words, with_sign, allocate. cbn [m_size m_sign m_ar].
    rewrite drop_replicate. replace (m_size x + 1 - ofs - (m_size x - ofs))%nat with 1%nat by lia.
    apply Hfin; auto. rewrite E, Z.div_1_r. done.
  - destruct (Nat.eqb_spec (m_size x) 0); [lia|].
    destruct (drop ofs (words x)) as [|w ws] eqn:Ew; [cbn [length] in Hdl; lia|].
    apply Forall_cons in Hdo as [Hw Hws].
    eexists; split; [reflexivity|]. unfold with_words, with_sign, allocate. cbn [m_size m_sign m_ar].
    pose proof (up_loop_spec (NumDigits - k) ws ltac:(lia) w Hw Hws) as Hs. cbn zeta in Hs.
    rewrite down_loop_up.
    replace (Z.of_nat (NumDigits - k) * 4) with (NumHighShift - Z.of_nat k * 4) in Hs
      by (unfold NumHighShift, NumDigits in *; lia).
    replace (NumHighShift - (NumHighShift - Z.of_nat k * 4)) with (Z.of_nat k * 4) in Hs by lia.
    replace (NumDigits - (NumDigits - k))%nat with k in Hs by lia.
    destruct Hs as (Hl & Hok & Hv). apply Hfin; [cbn [length] in Hdl; lia|done|].
    rewrite Hv. cbn [words_val]. rewrite (pow10_split k) by lia.
    rewrite <- (Z.div_add (word_val w)) by lia. f_equal. ring.
Qed.

Lemma digits_shift_spec x n :
  big_ok x -> - Z.of_nat (m_size x * NumDigits) < n \/ 0 <= n ->
  exists r, digits_shift x n = Ok r /\ big_ok r /\ normal r /\
    mag r = (if 0 <=? n then mag x * 10 ^ n else mag x / 10 ^ (- n)) /\
    m_sign r = negb (mag r =? 0) && m_sign x.
Proof.
  intros Hx Hn. unfold digits_shift.
  assert (exists r, (if 0 <? n then Ok (shift_up x (Z.to_nat n))
    else if n <? 0 then shift_down x (Z.to_nat (- n)) else Ok (copy x)) = Ok r /\
    big_ok r /\ mag r = (if 0 <=? n then mag x * 10 ^ n else mag x / 10 ^ (- n)) /\
    m_sign r = m_sign x) as (r & -> & Hr & Hm & Hs).
  { destruct (Z.ltb_spec 0 n); [|destruct (Z.ltb_spec n 0)].
    - eexists; split; [reflexivity|]. destruct (shift_up_spec x (Z.to_nat n) Hx) as (? & Hm & ?).
      rewrite Z2Nat.id in Hm by lia. destruct (Z.leb_spec 0 n); [auto|lia].
    - destruct (shift_down_spec x (Z.to_nat (- n)) Hx ltac:(lia)) as (r & ? & ? & Hm & ?).
      exists r. rewrite Z2Nat.id in Hm by lia. destruct (Z.leb_spec 0 n); [lia|auto].
    - eexists; split; [reflexivity|]. destruct (copy_spec x Hx) as (? & Hm & ? & _).
      replace n with 0 by lia. cbn [Z.leb]. rewrite Z.pow_0_r, Z.mul_1_r. auto. }
  cbn [mbind res_bind]. destruct (normalize_spec r Hr) as (r' & -> & ? & ? & Hm' & _ & Hs').
  exists r'. rewrite Hs', Hm', Hm, Hs. auto.
Qed.
