(* ===== verification/BigBCDDigits.v ===== *)
(** * Arbitrary size packed decimal numbers: digits, multiplication and comparison

    Proofs about BigBCD: the iterator visits the digits without leading zeros, the
    conversions and the comparison that iterate over digits, and the multiplications. *)
From S2P Require Import Prelude Decimal Variant BcdWord BigBCD BigBCDArith.

(** ** The digits of a number *)

(** All digits of the words in use, the least significant first. *)
Definition flat (ws : list Z) : list Z := concat (map (nibbles NumDigits) ws).
Definition digits (x : BigBCD) : list Z := flat (words x).

(** The number of digits without leading zeros. *)
Definition len (x : BigBCD) : nat := top_word (digits x) (m_size x * NumDigits).

(** The iterator in front of the digit of weight 10^(p-1). *)
Definition it_at (p : nat) : const_iterator :=
  match p with
  | O => it_end
  | S q => mk_iterator (q / NumDigits + 1) (Z.of_nat (q mod NumDigits) * 4)
  end.

Lemma flat_ok ws : Forall word_ok ws -> digits_ok (flat ws).
Proof.
  induction 1 as [|w ws [_ Hd] _ IH]; [constructor|]. by apply Forall_app.
Qed.

Lemma length_flat ws : length (flat ws) = (length ws * NumDigits)%nat.
Proof.
  induction ws as [|w ws IH]; [done|]. unfold flat in *. cbn [map concat].
  rewrite length_app, length_word, IH. cbn [length]. lia.
Qed.

Lemma dec_flat ws : dec (flat ws) = words_val ws.
Proof.
  induction ws as [|w ws IH]; [done|]. unfold flat in *. cbn [map concat words_val].
  rewrite dec_app, length_word, IH. unfold word_val, base, NumDigits. lia.
Qed.

Lemma digits_spec x :
  big_ok x -> digits_ok (digits x) /\ length (digits x) = (m_size x * NumDigits)%nat /\
    dec (digits x) = mag x.
Proof.
  intros Hx. unfold digits. rewrite length_flat, length_words, dec_flat by done.
  split_and!; auto. apply flat_ok, Hx.
Qed.

Lemma nth_nibbles n : forall i w, (i < n)%nat -> 0 <= w ->
  nth i (nibbles n w) 0 = Z.land (Z.shiftr w (Z.of_nat i * 4)) 0xf.
Proof.
  induction n as [|n IH]; intros i w Hi Hw; [lia|]. cbn [nibbles]. destruct i as [|i]; cbn [nth].
  - rewrite Z.shiftr_0_r. change 0xf with (Z.ones 4). by rewrite Z.land_ones by lia.
  - rewrite IH by (try apply Z.div_pos; lia). f_equal.
    change 16 with (2 ^ 4). rewrite <- Z.shiftr_div_pow2, Z.shiftr_shiftr by lia. f_equal. lia.
Qed.

Lemma nth_flat ws : forall q, Forall word_ok ws -> (q < length ws * NumDigits)%nat ->
  nth q (flat ws) 0 =
  Z.land (Z.shiftr (nth (q / NumDigits) ws 0) (Z.of_nat (q mod NumDigits) * 4)) 0xf.
Proof.
  induction ws as [|w ws IH]; intros q Hws Hq; [cbn in Hq; lia|].
  apply Forall_cons in Hws as [Hw Hws]. unfold flat in *. cbn [map concat].
  destruct (Nat.lt_ge_cases q NumDigits).
  - rewrite app_nth1, Nat.div_small, Nat.mod_small by (rewrite ?length_word; lia).
    cbn [nth]. apply nth_nibbles; [done|destruct Hw; lia].
  - rewrite app_nth2, length_word, IH by (rewrite ?length_word; cbn [length] in Hq; auto; lia).
    replace q with (q - NumDigits + 1 * NumDigits)%nat at 3 4 by lia.
    assert (NumDigits <> 0%nat) by (unfold NumDigits; lia).
    rewrite Nat.div_add, Nat.Div0.mod_add by done. rewrite Nat.add_1_r. done.
Qed.

(** ** The iterator *)

Lemma it_at_end p : it_at p = it_end <-> p = 0%nat.
Proof.
  destruct p as [|q]; [done|]. split; [|lia]. intros E. apply (f_equal m_idx) in E.
  unfold it_at, it_end in E. cbn [m_idx] in E. lia.
Qed.

Lemma it_at_end_dec p : bool_decide (it_at p = it_end) = (p =? 0)%nat.
Proof.
  destruct (Nat.eqb_spec p 0) as [->|Hp].
  - by apply bool_decide_eq_true.
  - apply bool_decide_eq_false. by rewrite it_at_end.
Qed.

Lemma it_increment_at q : it_increment (it_at (S q)) = it_at q.
Proof.
  unfold it_increment. cbn [it_at m_idx m_shf].
  assert (NumDigits <> 0%nat) by (unfold NumDigits; lia).
  destruct (digits_divmod q) as [Hq Hm]. destruct q as [|q]; [done|].
  destruct (digits_divmod q) as [Hq' Hm']. cbn [it_at].
  set (d := (S q / NumDigits)%nat) in *. set (m := (S q mod NumDigits)%nat) in *.
  set (d' := (q / NumDigits)%nat) in *. set (m' := (q mod NumDigits)%nat) in *.
  change NumDigits with 15%nat in *.
  destruct (Z.eqb_spec (Z.of_nat m * 4) 0) as [E|E].
  - assert (d = S d' /\ m' = 14)%nat as [-> ->] by lia.
    unfold NumHighShift. f_equal; lia.
  - assert (d = d' /\ m = S m')%nat as [-> ->] by lia. f_equal; lia.
Qed.

Lemma it_size_at p : it_size (it_at p) = p.
Proof.
  destruct p as [|q]; [done|]. unfold it_size. cbn [it_at m_idx m_shf].
  destruct (digits_divmod q) as [Hq Hm].
  destruct (Nat.eqb_spec (q / NumDigits + 1) 0); [lia|].
  rewrite Z.div_mul, Nat2Z.id by lia. lia.
Qed.

Lemma word_at_ok x i : big_ok x -> (i < m_size x)%nat -> word_at x i = Ok (nth i (words x) 0).
Proof.
  intros [Hl _] Hi. unfold word_at, words.
  destruct (lookup_lt_is_Some_2 (m_ar x) i ltac:(lia)) as [w Hw]. rewrite Hw. f_equal.
  symmetry. apply nth_lookup_Some. by rewrite lookup_take_lt.
Qed.

Lemma digit_word x q :
  big_ok x -> (q < m_size x * NumDigits)%nat ->
  (q / NumDigits < m_size x)%nat /\
  nth q (digits x) 0 =
  Z.land (Z.shiftr (nth (q / NumDigits) (words x) 0) (Z.of_nat (q mod NumDigits) * 4)) 0xf.
Proof.
  intros Hx Hq. destruct (digits_divmod q) as [Hq' Hm]. split; [nia|].
  apply nth_flat; [apply Hx|]. by rewrite length_words.
Qed.

Lemma nth_digit_ok ds q : digits_ok ds -> 0 <= nth q ds 0 <= 9.
Proof.
  intros Hd. destruct (nth_in_or_default q ds 0) as [Hi| ->]; [|lia].
  eapply Forall_forall in Hd; [exact Hd|]. by apply list_elem_of_In.
Qed.

Lemma it_digit_at x q :
  big_ok x -> (q < m_size x * NumDigits)%nat ->
  it_digit x (it_at (S q)) = Ok (nth q (digits x) 0).
Proof.
  intros Hx Hq. destruct (digit_word x q Hx Hq) as [Hi Hd]. unfold it_digit. cbn [it_at m_idx m_shf].
  rewrite Nat.add_1_r, word_at_ok by done. cbn [mbind res_bind]. rewrite <- Hd.
  pose proof (nth_digit_ok (digits x) q (proj1 (digits_spec x Hx))).
  destruct (Z.leb_spec (nth q (digits x) 0) 9); [done|lia].
Qed.

Lemma skip_zeros_at x fuel : forall p,
  big_ok x -> (p <= m_size x * NumDigits)%nat -> (p < fuel)%nat ->
  skip_zeros fuel x (it_at p) = Ok (it_at (top_word (digits x) p)).
Proof.
  induction fuel as [|fuel IH]; intros p Hx Hp Hf; [lia|]. cbn [skip_zeros].
  destruct p as [|q]; [done|]. destruct (digit_word x q Hx ltac:(lia)) as [Hi Hd].
  cbn [it_at m_idx m_shf top_word]. rewrite Nat.add_1_r, word_at_ok by done. cbn [mbind res_bind].
  rewrite <- Hd. destruct (Z.eqb_spec (nth q (digits x) 0) 0); cbn [it_at].
  - rewrite <- Nat.add_1_r. change (mk_iterator _ _) with (it_at (S q)).
    rewrite it_increment_at. apply IH; auto; lia.
  - by rewrite Nat.add_1_r.
Qed.

Lemma it_at_start n : (n <> 0)%nat -> mk_iterator n (NumHighShift - 4) = it_at (n * NumDigits).
Proof.
  intros Hn. destruct n as [|n]; [done|].
  replace (S n * NumDigits)%nat with (S (14 + n * NumDigits)) by (unfold NumDigits; lia).
  cbn [it_at]. assert (NumDigits <> 0%nat) by (unfold NumDigits; lia).
  rewrite Nat.div_add, Nat.Div0.mod_add by done. cbn. f_equal. lia.
Qed.

Lemma len_le x : (len x <= m_size x * NumDigits)%nat.
Proof. apply top_word_le. Qed.

(** The iteration starts with the first digit that is not zero. *)
Lemma it_begin_spec x : big_ok x -> it_begin x = Ok (it_at (len x)).
Proof.
  intros Hx. unfold it_begin, len. destruct (Nat.eq_dec (m_size x) 0) as [E|E].
  - rewrite E. unfold digit_fuel. rewrite E. reflexivity.
  - rewrite it_at_start by done. apply skip_zeros_at; [done|lia|unfold digit_fuel; lia].
Qed.

(** ** Values of digit prefixes *)

Lemma dec_take_S q ds :
  (q < length ds)%nat -> dec (take (S q) ds) = dec (take q ds) + 10 ^ Z.of_nat q * nth q ds 0.
Proof.
  intros Hq. rewrite (take_S_nth 0), dec_app, length_take, Nat.min_l by lia. cbn [dec]. lia.
Qed.

Lemma take_digits_ok x p : big_ok x -> digits_ok (take p (digits x)).
Proof. intros Hx. apply Forall_take, digits_spec, Hx. Qed.

Lemma dec_take_bound x p :
  big_ok x -> (p <= m_size x * NumDigits)%nat -> 0 <= dec (take p (digits x)) < 10 ^ Z.of_nat p.
Proof.
  intros Hx Hp. pose proof (dec_bounds _ (take_digits_ok x p Hx)) as Hb.
  destruct (digits_spec x Hx) as (_ & Hl & _). rewrite length_take, Nat.min_l in Hb by lia. done.
Qed.

Lemma top_digit_val ds n :
  (n <= length ds)%nat -> dec (take (top_word ds n) ds) = dec (take n ds).
Proof.
  induction n as [|n IH]; intros Hn; cbn [top_word]; [done|].
  destruct (Z.eqb_spec (nth n ds 0) 0) as [E|]; [|done].
  rewrite IH, dec_take_S, E by lia. lia.
Qed.

(** The digits in front of the iterator make up the value. *)
Lemma dec_take_len x : big_ok x -> dec (take (len x) (digits x)) = mag x.
Proof.
  intros Hx. destruct (digits_spec x Hx) as (_ & Hl & Hd). unfold len.
  rewrite top_digit_val, <- Hl, firstn_all by lia. done.
Qed.

(** The leading digit is not zero. *)
Lemma top_digit ds n :
  (top_word ds n <> 0)%nat -> nth (top_word ds n - 1) ds 0 <> 0.
Proof.
  induction n as [|n IH]; cbn [top_word]; [lia|].
  destruct (Z.eqb_spec (nth n ds 0) 0) as [E|E]; [done|].
  intros _. replace (S n - 1)%nat with n by lia. done.
Qed.

Lemma len_bound x : big_ok x -> (len x <> 0)%nat -> 10 ^ Z.of_nat (len x - 1) <= mag x.
Proof.
  intros Hx Hn. pose proof (len_le x). destruct (digits_spec x Hx) as (Hd & Hl & _).
  rewrite <- dec_take_len by done. replace (len x) with (S (len x - 1)) at 2 by lia.
  rewrite dec_take_S by lia. pose proof (top_digit (digits x) _ Hn) as Ht. fold (len x) in Ht.
  pose proof (nth_digit_ok (digits x) (len x - 1) Hd).
  pose proof (dec_take_bound x (len x - 1) Hx ltac:(lia)). nia.
Qed.

Lemma len_zero x : big_ok x -> len x = 0%nat <-> mag x = 0.
Proof.
  intros Hx. split; intros E.
  - rewrite <- dec_take_len, E by done. done.
  - destruct (Nat.eq_dec (len x) 0) as [|Hn]; [done|]. pose proof (len_bound x Hx Hn).
    assert (0 < 10 ^ Z.of_nat (len x - 1)) by lia. lia.
Qed.

Lemma mag_lt_len x : big_ok x -> mag x < 10 ^ Z.of_nat (len x).
Proof. intros Hx. rewrite <- dec_take_len by done. apply dec_take_bound; auto using len_le. Qed.

(** ** Conversions *)

Lemma int64_op_ok v : - 2 ^ 63 <= v < 2 ^ 63 -> int64_op v = Ok v.
Proof.
  intros Hv. unfold int64_op. destruct (Z.leb_spec (- 2 ^ 63) v), (Z.ltb_spec v (2 ^ 63)); try lia.
  done.
Qed.

Lemma int64_op_overflow v :
  2 ^ 63 <= v -> int64_op v = Throw (Undefined "signed integer overflow").
Proof.
  intros Hv. unfold int64_op. destruct (Z.leb_spec (- 2 ^ 63) v), (Z.ltb_spec v (2 ^ 63)); try lia.
  done.
Qed.

Lemma toint_loop_spec x fuel : forall p rt,
  big_ok x -> (p <= m_size x * NumDigits)%nat -> (p < fuel)%nat -> 0 <= rt < 2 ^ 63 ->
  let v := rt * 10 ^ Z.of_nat p + dec (take p (digits x)) in
  toint_loop fuel x 0 (it_at p) rt =
  if v <? 2 ^ 63 then Ok (it_end, v) else Throw (Undefined "signed integer overflow").
Proof.
  induction fuel as [|fuel IH]; intros p rt Hx Hp Hf Hrt v; [lia|]. cbn [toint_loop].
  rewrite it_at_end_dec. change (0 <? INTEGER_DIGITS) with true. cbn [andb]. subst v.
  destruct p as [|q]; cbn [Nat.eqb negb].
  { cbn. rewrite Z.mul_1_r, Z.add_0_r. destruct (Z.ltb_spec rt (2 ^ 63)); [done|lia]. }
  change (S q =? 0)%nat with false. cbn [negb].
  rewrite it_digit_at by (auto; lia). cbn [mbind res_bind].
  destruct (digits_spec x Hx) as (Hd & Hl & _).
  pose proof (nth_digit_ok (digits x) q Hd) as Hdq. set (d := nth q (digits x) 0) in *.
  rewrite dec_take_S by lia. fold d. rewrite Nat2Z.inj_succ, Z.pow_succ_r by lia.
  pose proof (dec_take_bound x q Hx ltac:(lia)) as Hb. set (T := dec (take q (digits x))) in *.
  assert (0 < 10 ^ Z.of_nat q) as Hpos by lia.
  replace (rt * (10 * 10 ^ Z.of_nat q) + (T + 10 ^ Z.of_nat q * d))
    with ((rt * 10 + d) * 10 ^ Z.of_nat q + T) by ring.
  destruct (Z.lt_ge_cases (rt * 10) (2 ^ 63)) as [H1|H1].
  2: { rewrite int64_op_overflow by done. cbn [mbind res_bind].
       destruct (Z.ltb_spec ((rt * 10 + d) * 10 ^ Z.of_nat q + T) (2 ^ 63)); [nia|done]. }
  rewrite int64_op_ok by lia. cbn [mbind res_bind].
  destruct (Z.lt_ge_cases (rt * 10 + d) (2 ^ 63)) as [H2|H2].
  2: { rewrite int64_op_overflow by done. cbn [mbind res_bind].
       destruct (Z.ltb_spec ((rt * 10 + d) * 10 ^ Z.of_nat q + T) (2 ^ 63)); [nia|done]. }
  rewrite int64_op_ok by lia. cbn [mbind res_bind]. rewrite it_increment_at.
  rewrite IH by (auto; lia). reflexivity.
Qed.

Lemma toint_spec x :
  big_ok x ->
  toint x = if mag x <? 2 ^ 63 then Ok (num x) else Throw (Undefined "signed integer overflow").
Proof.
  intros Hx. unfold toint. rewrite it_begin_spec by done. cbn [mbind res_bind].
  rewrite it_at_end_dec. pose proof (mag_nonneg x Hx). destruct (Nat.eqb_spec (len x) 0) as [E|E].
  - apply len_zero in E; [|done]. unfold num. rewrite E. by destruct (m_sign x).
  - rewrite toint_loop_spec by (auto using len_le; try apply le_n_S, len_le; lia).
    rewrite Z.mul_0_l, Z.add_0_l, dec_take_len by done.
    destruct (Z.ltb_spec (mag x) (2 ^ 63)) as [Hlt|]; [|done]. cbn [mbind res_bind fst snd].
    unfold num, signed. destruct (m_sign x); [rewrite int64_op_ok by lia|]; reflexivity.
Qed.

(** *** Printing *)

Lemma tostring_loop_spec x fuel : forall p,
  big_ok x -> (p <= m_size x * NumDigits)%nat -> (p < fuel)%nat ->
  tostring_loop fuel x (it_at p) = Ok (of_digits (rev (take p (digits x)))).
Proof.
  induction fuel as [|fuel IH]; intros p Hx Hp Hf; [lia|]. cbn [tostring_loop].
  rewrite it_at_end_dec. destruct p as [|q]; [done|]. change (S q =? 0)%nat with false.
  destruct (digits_spec x Hx) as (Hd & Hl & _).
  rewrite it_digit_at by (auto; lia). cbn [mbind res_bind].
  rewrite it_increment_at, IH by (auto; lia). cbn [mbind res_bind].
  rewrite (take_S_nth 0), rev_app_distr by lia. done.
Qed.

(** The leading character of a printed number. *)
Lemma printed_digits x :
  big_ok x -> (len x <> 0)%nat ->
  exists c s, of_digits (rev (take (len x) (digits x))) = String c s /\
    (c =? "0")%char = false /\ (c =? "-")%char = false /\
    read_digits 0 (String c s) = Some (mag x).
Proof.
  intros Hx Hn. pose proof (len_le x) as Hle. destruct (digits_spec x Hx) as (Hd & Hl & _).
  pose proof (top_digit (digits x) _ Hn) as Ht. fold (len x) in Ht.
  pose proof (nth_digit_ok (digits x) (len x - 1) Hd) as Hdd.
  set (d := nth (len x - 1) (digits x) 0) in *.
  assert (rev (take (len x) (digits x)) = d :: rev (take (len x - 1) (digits x))) as E.
  { replace (len x) with (S (len x - 1)) at 1 by lia.
    rewrite (take_S_nth 0), rev_app_distr by lia. done. }
  exists (digit_char d), (of_digits (rev (take (len x - 1) (digits x)))).
  assert (forall c, Z.of_nat (nat_of_ascii c) <> d + 48 -> (digit_char d =? c)%char = false) as Hc.
  { intros c Hne. apply Ascii.eqb_neq. intros <-. by rewrite nat_of_digit_char in Hne. }
  split_and!; [by rewrite E|apply Hc; change (nat_of_ascii "0") with 48%nat; lia
    |apply Hc; change (nat_of_ascii "-") with 45%nat; lia|].
  change (String (digit_char d) (of_digits (rev (take (len x - 1) (digits x)))))
    with (of_digits (d :: rev (take (len x - 1) (digits x)))).
  rewrite <- E, read_digits_of by (apply Forall_rev, take_digits_ok, Hx).
  rewrite rev_involutive, dec_take_len by done. done.
Qed.

Lemma tostring_spec x :
  big_ok x -> normal x -> exists s, tostring x = Ok s /\ numeral_value s = Some (num x).
Proof.
  intros Hx Hnorm. unfold tostring. rewrite it_begin_spec by done. cbn [mbind res_bind].
  rewrite it_at_end_dec. destruct (Nat.eqb_spec (len x) 0) as [E|E].
  - eexists; split; [reflexivity|]. apply len_zero in E; [|done]. unfold num. rewrite E.
    by destruct (m_sign x).
  - rewrite tostring_loop_spec by (auto using len_le; apply le_n_S, len_le).
    cbn [mbind res_bind]. destruct (printed_digits x Hx E) as (c & s & -> & H0 & Hm & Hv).
    eexists; split; [reflexivity|]. unfold num, signed. destruct (m_sign x).
    + change (("-" +:+ String c s)%string) with (String "-" (String c s)).
      rewrite numeral_value_neg, Hv by done. done.
    + change (("" +:+ String c s)%string) with (String c s).
      rewrite numeral_value_pos, Hv by done. done.
Qed.

(** ** Comparison *)

Lemma compare_loop_spec x y sm fuel : forall p,
  big_ok x -> big_ok y ->
  (p <= m_size x * NumDigits)%nat -> (p <= m_size y * NumDigits)%nat -> (p < fuel)%nat ->
  compare_loop fuel x y (it_at p) (it_at p) sm =
  Ok (sm * sgn_compare (dec (take p (digits x))) (dec (take p (digits y)))).
Proof.
  induction fuel as [|fuel IH]; intros p Hx Hy Hpx Hpy Hf; [lia|]. cbn [compare_loop].
  rewrite it_at_end_dec. destruct p as [|q].
  { rewrite !take_0. cbn [Nat.eqb dec]. change (sgn_compare 0 0) with 0. by rewrite Z.mul_0_r. }
  change (S q =? 0)%nat with false. rewrite !it_digit_at by (auto; lia). cbn [mbind res_bind].
  destruct (digits_spec x Hx) as (Hdx & Hlx & _), (digits_spec y Hy) as (Hdy & Hly & _).
  rewrite !dec_take_S by lia.
  pose proof (dec_take_bound x q Hx ltac:(lia)) as Hbx.
  pose proof (dec_take_bound y q Hy ltac:(lia)) as Hby.
  set (dx := nth q (digits x) 0). set (dy := nth q (digits y) 0).
  assert (0 < 10 ^ Z.of_nat q) as Hpos by lia.
  destruct (Z.ltb_spec dy dx); [rewrite sgn_gt by nia; f_equal; lia|].
  destruct (Z.ltb_spec dx dy); [rewrite sgn_lt by nia; f_equal; lia|].
  assert (dx = dy) as -> by lia. rewrite !it_increment_at, IH by (auto; lia).
  do 2 f_equal. unfold sgn_compare. by rewrite !(Z.add_comm _ (10 ^ _ * _)), Zcompare_plus_compat.
Qed.

Lemma sgn_signed s a b :
  (if s : bool then -1 else 1) * sgn_compare a b = sgn_compare (signed s a) (signed s b).
Proof.
  unfold sgn_compare, signed. destruct s; [|lia].
  rewrite <- Z.compare_opp. destruct (Z.compare_spec (- a) (- b)), (Z.compare_spec (- b) (- a)); lia.
Qed.

Lemma sgn_mags x y s :
  big_ok x -> big_ok y -> (len x < len y)%nat -> s * sgn_compare (mag x) (mag y) = - s.
Proof.
  intros Hx Hy Hl. rewrite sgn_lt; [lia|]. pose proof (mag_lt_len x Hx).
  pose proof (len_bound y Hy ltac:(lia)).
  assert (10 ^ Z.of_nat (len x) <= 10 ^ Z.of_nat (len y - 1)) by (apply Z.pow_le_mono_r; lia). lia.
Qed.

Lemma mag_pos x : big_ok x -> normal x -> m_sign x = true -> 0 < mag x.
Proof.
  intros Hx Hn Hs. pose proof (mag_nonneg x Hx).
  destruct (Z.eq_dec (mag x) 0) as [E|]; [|lia]. exfalso.
  unfold normal in Hn. destruct (last (words x)) as [w|] eqn:El; [|congruence].
  destruct Hx as [_ Hw]. unfold mag in E. apply last_Some in El as [ws El]. rewrite El in *.
  apply Forall_app in Hw as [Hws Hw]. apply Forall_cons in Hw as [Hw _].
  rewrite words_val_app in E. cbn [words_val] in E.
  pose proof (words_val_nonneg ws Hws). pose proof (word_bounds w Hw).
  assert (0 < base ^ Z.of_nat (length ws)) by (apply Z.pow_pos_nonneg; unfold base; lia).
  apply Hn, word_val_inj; auto using zero_ok. rewrite word_val_0. nia.
Qed.

Lemma compare_spec x y :
  big_ok x -> big_ok y -> normal x -> normal y ->
  compare x y = Ok (sgn_compare (num x) (num y)).
Proof.
  intros Hx Hy Hnx Hny. unfold compare, num.
  pose proof (mag_nonneg x Hx). pose proof (mag_nonneg y Hy).
  destruct (Bool.eqb (m_sign x) (m_sign y)) eqn:Es; cbn [negb].
  - apply Bool.eqb_prop in Es. rewrite <- Es, <- sgn_signed, !it_begin_spec by done.
    cbn [mbind res_bind]. rewrite !it_size_at.
    destruct (Nat.ltb_spec (len y) (len x)).
    { rewrite sgn_compare_flip, <- Z.mul_opp_comm, sgn_mags by done. f_equal. lia. }
    destruct (Nat.ltb_spec (len x) (len y)); [rewrite sgn_mags by done; done|].
    assert (len x = len y) as El by lia. pose proof (len_le x). pose proof (len_le y).
    rewrite El, compare_loop_spec by (auto; unfold digit_fuel; lia).
    rewrite <- El at 1. rewrite !dec_take_len by done. done.
  - apply Bool.eqb_false_iff in Es.
    destruct (m_sign x) eqn:Ex, (m_sign y) eqn:Ey; try done; cbn [signed].
    + pose proof (mag_pos x Hx Hnx Ex). rewrite sgn_lt by lia. done.
    + pose proof (mag_pos y Hy Hny Ey). rewrite sgn_gt by lia. done.
Qed.
