(* ===== verification/BigBCDMul.v ===== *)
(** * Arbitrary size packed decimal numbers: multiplication

    Proofs about the multiplications of BigBCD and the properties of its arithmetic. *)
From S2P Require Import Prelude Decimal Variant BcdWord BigBCD BigBCDArith BigBCDDigits.

Ltac rep_split := split; [|split; [|split]].

(** [r] is the normalised number of magnitude [v], with the sign [s] unless it is zero. *)
Definition rep (r : BigBCD) (s : bool) (v : Z) : Prop :=
  big_ok r /\ normal r /\ mag r = v /\ m_sign r = negb (v =? 0) && s.

Lemma rep_null s : rep BigBCD_null s 0.
Proof. split_and!; done. Qed.

Lemma rep_self x : big_ok x -> normal x -> rep x (m_sign x) (mag x).
Proof.
  intros Hx Hn. rep_split; auto. destruct (m_sign x) eqn:E; [|by rewrite andb_false_r].
  pose proof (mag_pos x Hx Hn E). destruct (Z.eqb_spec (mag x) 0); [lia|done].
Qed.

Lemma rep_num x s v : rep x s v -> num x = signed s v.
Proof.
  intros (_ & _ & Hm & Hs). unfold num. rewrite Hm, Hs.
  destruct (Z.eqb_spec v 0) as [->|]; [by destruct s|done].
Qed.

(** The numbers without digits are those without words. *)
Lemma normal_zero x : big_ok x -> normal x -> mag x = 0 -> m_size x = 0%nat /\ m_sign x = false.
Proof.
  intros Hx Hn E.
  assert (m_sign x = false) as Hs.
  { destruct (m_sign x) eqn:Es; [|done]. pose proof (mag_pos x Hx Hn Es). lia. }
  split; [|done]. unfold normal in Hn. rewrite <- (length_words x Hx).
  destruct (last (words x)) as [w|] eqn:El; [|by apply last_None in El as ->].
  exfalso. destruct Hx as [_ Hw]. unfold mag in E. apply last_Some in El as [ws El]. rewrite El in *.
  apply Forall_app in Hw as [Hws Hw]. apply Forall_cons in Hw as [Hw _].
  rewrite words_val_app in E. cbn [words_val] in E.
  pose proof (words_val_nonneg ws Hws). pose proof (word_bounds w Hw).
  assert (0 < base ^ Z.of_nat (length ws)) by (apply Z.pow_pos_nonneg; unfold base; lia).
  apply Hn, word_val_inj; auto using zero_ok. rewrite word_val_0. nia.
Qed.

Lemma rep_zero_size x s : rep x s 0 -> m_size x = 0%nat.
Proof. intros (Hx & Hn & Hm & _). by apply normal_zero. Qed.

Lemma rep_zero_sign x s s' : rep x s 0 -> rep x s' 0.
Proof. intros (? & ? & ? & Hs). rep_split; auto. Qed.

Lemma rep_nonneg x s v : rep x s v -> 0 <= v.
Proof. intros (Hx & _ & <- & _). by apply mag_nonneg. Qed.

Lemma size_pos x : mag x <> 0 -> (0 < m_size x)%nat.
Proof. intros H. unfold mag, words in H. destruct (m_size x); [|lia]. by rewrite take_0 in H. Qed.

(** Addition of magnitudes where the destination holds zero if both operands do. *)
Lemma rep_add rt x y s s' a b :
  rep x s a -> rep y s' b -> (a = 0 -> b = 0 -> rep rt s 0) ->
  exists r, digits_addition rt x y = Ok r /\ rep r (negb (a =? 0) && s) (a + b).
Proof.
  intros Hx Hy Hrt. pose proof (rep_nonneg _ _ _ Hx). pose proof (rep_nonneg _ _ _ Hy).
  destruct (Z.eq_dec (a + b) 0) as [E|E].
  - assert (a = 0) as -> by lia. assert (b = 0) as -> by lia. exists rt.
    unfold digits_addition. rewrite (rep_zero_size x s), (rep_zero_size y s') by done. split; [done|].
    eapply rep_zero_sign, Hrt; done.
  - destruct Hx as (Hx & Hnx & Hmx & Hsx), Hy as (Hy & Hny & Hmy & Hsy).
    assert (m_size x + m_size y > 0)%nat.
    { destruct (Z.eq_dec (mag x) 0); [pose proof (size_pos y)|pose proof (size_pos x)]; lia. }
    destruct (digits_addition_spec rt x y Hx Hy ltac:(done)) as (r & -> & Hr & Hnr & Hmr & Hsr).
    exists r. split; [done|]. rep_split; [done|done|lia|]. rewrite Hsr, Hsx, Hmr, Hmx, Hmy. done.
Qed.

(** The case of two multiples of the same number. *)
Lemma rep_add_multiple rt x y s v a b :
  rep x s (a * v) -> rep y s (b * v) -> 0 < a -> (v = 0 -> rep rt s 0) ->
  exists r, digits_addition rt x y = Ok r /\ rep r s ((a + b) * v).
Proof.
  intros Hx Hy Ha Hrt.
  destruct (rep_add rt x y s s (a * v) (b * v) Hx Hy) as (r & Hr & Hrep).
  { intros E _. apply Hrt. nia. }
  exists r. split; [done|]. rewrite Z.mul_add_distr_r.
  destruct Hrep as (? & ? & ? & Hs). rep_split; auto. rewrite Hs.
  destruct (Z.eqb_spec (a * v) 0) as [E|E]; [|done].
  assert (v = 0) as -> by nia. rewrite !Z.mul_0_r. done.
Qed.

Lemma rep_copy x s v : rep x s v -> rep (copy x) s v.
Proof.
  intros (Hx & Hn & Hm & Hs). destruct (copy_spec x Hx) as (? & Hm' & Hs' & Hw).
  rep_split; [done| |lia|by rewrite Hs']. unfold normal in *. by rewrite Hw, Hs'.
Qed.

(** ** Multiplication with a nibble *)

Lemma doubled_spec b x s v k :
  rep x s (k * v) -> 0 < k ->
  exists r, doubled b x = Ok r /\ (b = true -> rep r s (2 * k * v)).
Proof.
  intros Hx Hk. destruct b; [|by exists BigBCD_null].
  destruct (rep_add_multiple BigBCD_null x x s v k k Hx Hx Hk) as (r & Hr & Hrep); [intros; apply rep_null|].
  exists r. split; [done|]. intros _. by replace (2 * k) with (k + k) by lia.
Qed.

Ltac rep_sum Ha Hb :=
  match type of Ha with rep ?x ?s (?a * ?v) =>
  match type of Hb with rep ?y _ (?b * _) =>
  match goal with |- context [digits_addition ?rt x y] =>
    let r := fresh "r" in let H1 := fresh "Hsum" in let H2 := fresh "Hrep" in
    destruct (rep_add_multiple rt x y s v a b Ha Hb ltac:(lia))
      as (r & H1 & H2); [first [assumption|intros; apply rep_null]|];
    rewrite H1; cbn [mbind res_bind]
  end end end.

Ltac eval_masks :=
  repeat match goal with |- context [negb (Z.land ?a ?b =? 0)] =>
    let v := eval vm_compute in (negb (Z.land a b =? 0)) in change (negb (Z.land a b =? 0)) with v
  end; cbn iota.

Ltac rep_done := eexists; split; [reflexivity|]; first [assumption|apply rep_copy; assumption].

Lemma nibble_spec rt x s v f :
  rep x s v -> 0 < f < 16 -> (v = 0 -> rep rt s 0) ->
  exists r, digits_nibble_multiplication rt x f = Ok r /\ rep r s (f * v).
Proof.
  intros Hx Hf Hrt. assert (rep x s (1 * v)) as H1 by (by rewrite Z.mul_1_l).
  assert (exists r2, digits_addition BigBCD_null x x = Ok r2 /\ rep r2 s (2 * v)) as (r2 & E2 & H2).
  { apply (rep_add_multiple _ _ _ _ _ 1 1 H1 H1); [lia|intros; apply rep_null]. }
  assert (exists r4, digits_addition BigBCD_null r2 r2 = Ok r4 /\ rep r4 s (4 * v)) as (r4 & E4 & H4).
  { apply (rep_add_multiple _ _ _ _ _ 2 2 H2 H2); [lia|intros; apply rep_null]. }
  assert (exists r8, digits_addition BigBCD_null r4 r4 = Ok r8 /\ rep r8 s (8 * v)) as (r8 & E8 & H8).
  { apply (rep_add_multiple _ _ _ _ _ 4 4 H4 H4); [lia|intros; apply rep_null]. }
  assert (f = 1 \/ f = 2 \/ f = 3 \/ f = 4 \/ f = 5 \/ f = 6 \/ f = 7 \/ f = 8 \/ f = 9 \/ f = 10 \/
          f = 11 \/ f = 12 \/ f = 13 \/ f = 14 \/ f = 15) as Hc by lia.
  unfold digits_nibble_multiplication, doubled.
  repeat destruct Hc as [->|Hc]; try subst f; eval_masks;
    rewrite ?E2; cbn [mbind res_bind]; rewrite ?E4; cbn [mbind res_bind];
    rewrite ?E8; cbn [mbind res_bind].
  - rep_done.
  - rep_done.
  - rep_sum H2 H1. rep_done.
  - rep_done.
  - rep_sum H4 H1. rep_done.
  - rep_sum H4 H2. rep_done.
  - rep_sum H4 H2. rep_sum Hrep H1. rep_done.
  - rep_done.
  - rep_sum H8 H1. rep_done.
  - rep_sum H8 H2. rep_done.
  - rep_sum H8 H2. rep_sum Hrep H1. rep_done.
  - rep_sum H8 H4. rep_done.
  - rep_sum H8 H4. rep_sum Hrep H1. rep_done.
  - rep_sum H8 H4. rep_sum Hrep H2. rep_done.
  - rep_sum H8 H4. rep_sum Hrep H2. rep_sum Hrep0 H1. rep_done.
Qed.

Lemma nibble_zero rt x : digits_nibble_multiplication rt x 0 = Ok rt.
Proof. reflexivity. Qed.

(** ** Multiplication with a number *)

Lemma product_loop_spec x opr s v : rep x s v -> big_ok opr -> forall fuel p rt D,
  (p <= m_size opr * NumDigits)%nat -> (p < fuel)%nat -> 0 < D -> rep rt s (D * v) ->
  exists r, product_loop fuel rt x opr (it_at p) = Ok r /\
    rep r s ((D * 10 ^ Z.of_nat p + dec (take p (digits opr))) * v).
Proof.
  intros Hx Ho. induction fuel as [|fuel IH]; intros p rt D Hp Hf HD Hrt; [lia|]. cbn [product_loop].
  rewrite it_at_end_dec. destruct p as [|q].
  { exists rt. split; [done|]. rewrite take_0. cbn [dec]. change (Z.of_nat 0) with 0.
    rewrite Z.pow_0_r. by replace (D * 1 + 0) with D by lia. }
  change (S q =? 0)%nat with false.
  destruct (digits_spec opr Ho) as (Hd & Hl & _).
  pose proof (nth_digit_ok (digits opr) q Hd) as Hdq.
  destruct (Hrt) as (Hokr & Hnrt & Hmrt & Hsrt).
  destruct (digits_shift_spec rt 1 Hokr ltac:(lia)) as (sum & -> & Hsum & Hnsum & Hmsum & Hssum).
  cbn [mbind res_bind]. change (0 <=? 1) with true in Hmsum. cbn iota in Hmsum.
  rewrite Z.pow_1_r, Hmrt in Hmsum.
  assert (rep sum s (10 * D * v)) as Hrsum.
  { rep_split; [done|done|lia|]. rewrite Hssum, Hmsum, Hsrt.
    destruct (Z.eqb_spec (D * v) 0), (Z.eqb_spec (D * v * 10) 0), (Z.eqb_spec (10 * D * v) 0); lia || done. }
  rewrite it_digit_at by (auto; lia). cbn [mbind res_bind].
  set (d := nth q (digits opr) 0) in *.
  assert (exists part, digits_nibble_multiplication BigBCD_null x d = Ok part /\ rep part s (d * v))
    as (part & -> & Hpart).
  { destruct (Z.eq_dec d 0) as [->|Hd0].
    - rewrite nibble_zero. eexists; split; [reflexivity|]. apply rep_null.
    - apply nibble_spec; [done|lia|]. intros _. apply rep_null. }
  cbn [mbind res_bind].
  destruct (rep_add_multiple rt sum part s v (10 * D) d Hrsum Hpart ltac:(lia)) as (r1 & -> & Hr1).
  { intros ->. by rewrite Z.mul_0_r in Hrt. }
  cbn [mbind res_bind]. rewrite it_increment_at.
  destruct (IH q r1 (10 * D + d) ltac:(lia) ltac:(lia) ltac:(lia) Hr1) as (r & -> & Hr).
  exists r. split; [done|]. rewrite dec_take_S by lia. fold d.
  rewrite Nat2Z.inj_succ, Z.pow_succ_r by lia.
  replace (D * (10 * 10 ^ Z.of_nat q) + (dec (take q (digits opr)) + 10 ^ Z.of_nat q * d))
    with ((10 * D + d) * 10 ^ Z.of_nat q + dec (take q (digits opr))) by ring. done.
Qed.

(** The product has the sign of the first operand. *)
Lemma digits_multiplication_spec x opr s v :
  rep x s v -> big_ok opr ->
  exists r, digits_multiplication BigBCD_null x opr = Ok r /\ rep r s (mag opr * v).
Proof.
  intros Hx Ho. unfold digits_multiplication. rewrite it_begin_spec by done. cbn [mbind res_bind].
  rewrite it_at_end_dec. destruct (Nat.eqb_spec (len opr) 0) as [E|E].
  { exists BigBCD_null. apply len_zero in E; [|done]. rewrite E. split; [done|apply rep_null]. }
  pose proof (len_le opr) as Hle. destruct (digits_spec opr Ho) as (Hd & Hl & _).
  pose proof (top_digit (digits opr) _ E) as Ht. fold (len opr) in Ht.
  pose proof (nth_digit_ok (digits opr) (len opr - 1) Hd) as Hdd.
  replace (it_at (len opr)) with (it_at (S (len opr - 1))) by (f_equal; lia).
  rewrite it_digit_at by (auto; lia). cbn [mbind res_bind]. rewrite it_increment_at.
  assert (0 < nth (len opr - 1) (digits opr) 0 < 16) as Hd16 by lia.
  destruct (nibble_spec BigBCD_null x s v _ Hx Hd16) as (rt & -> & Hrt); [intros; apply rep_null|].
  cbn [mbind res_bind].
  destruct (product_loop_spec x opr s v Hx Ho (digit_fuel opr) (len opr - 1) rt _
    ltac:(lia) ltac:(unfold digit_fuel; lia) (proj1 Hd16) Hrt) as (r & -> & Hr).
  exists r. split; [done|]. rewrite <- (dec_take_len opr) by done.
  replace (len opr) with (S (len opr - 1)) at 1 by lia. rewrite dec_take_S by lia.
  replace (dec (take (len opr - 1) (digits opr)) +
    10 ^ Z.of_nat (len opr - 1) * nth (len opr - 1) (digits opr) 0) with
    (nth (len opr - 1) (digits opr) 0 * 10 ^ Z.of_nat (len opr - 1) +
     dec (take (len opr - 1) (digits opr))) by ring. done.
Qed.

(** ** Multiplication with a machine word *)

(** What the loop over the nibbles of a factor adds up, in multiples of the operand: [w] is
    the weight of the last nibble and [p] the multiple that [part] holds. *)
Fixpoint effective (n : nat) (f p w : Z) : Z :=
  match n with
  | O => 0
  | S n' =>
      if f =? 0 then 0
      else
        let w' := 16 * w in
        let p' := if f mod 16 =? 0 then p else (f mod 16) * w' in
        p' + effective n' (f / 16) p' w'
  end.

Definition effective_factor (f : Z) : Z := f mod 16 + effective factor_fuel (f / 16) 0 1.

(** A zero nibble between nibbles that are not zero, the lowest nibble apart. *)
Fixpoint no_gap (n : nat) (f : Z) (started : bool) : bool :=
  match n with
  | O => true
  | S n' =>
      (f =? 0) || (if f mod 16 =? 0 then negb started && no_gap n' (f / 16) false
                   else no_gap n' (f / 16) true)
  end.

Lemma effective_bound n : forall f p w,
  0 <= f < 16 ^ Z.of_nat n -> 0 <= p -> 0 < w ->
  16 * f * w <= effective n f p w /\
  (effective n f p w = 16 * f * w <-> no_gap n f (negb (p =? 0)) = true).
Proof.
  induction n as [|n IH]; intros f p w Hf Hp Hw.
  { cbn in Hf. assert (f = 0) as -> by lia. cbn. split; [lia|]. split; auto. }
  cbn [effective no_gap]. destruct (Z.eqb_spec f 0) as [->|E]; cbn [orb]; [split; [lia|split; auto; lia]|].
  rewrite Nat2Z.inj_succ, Z.pow_succ_r in Hf by lia.
  pose proof (Z.div_mod f 16 ltac:(lia)) as Ef. pose proof (Z.mod_pos_bound f 16 ltac:(lia)) as Hm.
  set (q := f / 16) in *. set (m := f mod 16) in *.
  destruct (Z.eqb_spec m 0) as [Em|Em].
  - destruct (IH q p (16 * w) ltac:(lia) Hp ltac:(lia)) as [H1 H2]. split; [nia|].
    destruct (Z.eqb_spec p 0) as [->|Hp0]; cbn [negb andb].
    + cbn [negb] in H2. rewrite <- H2. split; intros; lia.
    + split; [intros; nia|discriminate].
  - assert (0 < m * (16 * w)) by nia.
    destruct (IH q (m * (16 * w)) (16 * w) ltac:(lia) ltac:(lia) ltac:(lia)) as [H1 H2].
    destruct (Z.eqb_spec (m * (16 * w)) 0); [lia|]. cbn [negb] in H2. split; [lia|].
    rewrite <- H2. split; intros; lia.
Qed.

Lemma effective_fuel n : forall f p w,
  0 <= f < 16 ^ Z.of_nat n -> effective (S n) f p w = effective n f p w.
Proof.
  induction n as [|n IH]; intros f p w Hf.
  { cbn in Hf. assert (f = 0) as -> by lia. reflexivity. }
  rewrite Nat2Z.inj_succ, Z.pow_succ_r in Hf by lia.
  assert (0 <= f / 16 < 16 ^ Z.of_nat n).
  { split; [apply Z.div_pos; lia|apply Z.div_lt_upper_bound; lia]. }
  remember (S n) as n1 eqn:En. cbn [effective]. subst n1.
  rewrite !IH by done. reflexivity.
Qed.

Lemma mul16_spec x s v w :
  rep x s (w * v) -> 0 < w ->
  exists r, digits_16_multiplication BigBCD_null x = Ok r /\ rep r s (16 * w * v).
Proof.
  intros Hx Hw. unfold digits_16_multiplication.
  rep_sum Hx Hx. rep_sum Hrep Hrep. rep_sum Hrep0 Hrep0. rep_sum Hrep1 Hrep1.
  eexists; split; [reflexivity|].
  by replace (16 * w) with (w + w + (w + w) + (w + w + (w + w)) +
    (w + w + (w + w) + (w + w + (w + w)))) by ring.
Qed.

(** The sign of the sum is that of the last part. *)
Lemma factor_loop_spec s v : forall n rt part fac f a p w s',
  0 <= f < 16 ^ Z.of_nat n -> 0 <= p -> 0 <= a -> 0 < w ->
  rep rt s' (a * v) -> rep part s (p * v) -> rep fac s (w * v) -> (f = 0 -> s' = s) ->
  exists r, factor_loop (S n) rt part fac f = Ok r /\
    rep r s ((a + effective n f p w) * v).
Proof.
  induction n as [|n IH]; intros rt part fac f a p w s' Hf Hp Ha Hw Hrt Hpart Hfac Hs.
  - cbn in Hf. assert (f = 0) as -> by lia. exists rt. rewrite <- Hs by done. split; [done|].
    cbn [effective]. by rewrite Z.add_0_r.
  - remember (S n) as n1 eqn:En. cbn [factor_loop]. subst n1.
    destruct (Z.ltb_spec 0 f).
    2: { assert (f = 0) as -> by lia. exists rt. rewrite <- Hs by done. split; [done|].
         cbn [effective Z.eqb]. by rewrite Z.add_0_r. }
    destruct (mul16_spec fac s v w Hfac Hw) as (fac' & -> & Hfac'). cbn [mbind res_bind].
    change 0x0f with (Z.ones 4). rewrite Z.land_ones, Z.shiftr_div_pow2 by lia. change (2 ^ 4) with 16.
    rewrite Nat2Z.inj_succ, Z.pow_succ_r in Hf by lia.
    pose proof (Z.div_mod f 16 ltac:(lia)) as Ef. pose proof (Z.mod_pos_bound f 16 ltac:(lia)) as Hm.
    cbn [effective]. destruct (Z.eqb_spec f 0) as [|_]; [lia|].
    set (p' := if f mod 16 =? 0 then p else f mod 16 * (16 * w)).
    assert (0 <= p') by (subst p'; destruct (f mod 16 =? 0); nia).
    assert (exists part', digits_nibble_multiplication part fac' (f mod 16) = Ok part' /\ rep part' s (p' * v))
      as (part' & -> & Hpart').
    { subst p'. destruct (Z.eqb_spec (f mod 16) 0) as [->|]; [exists part; by rewrite nibble_zero|].
      destruct (nibble_spec part fac' s (16 * w * v) (f mod 16) Hfac' ltac:(lia)) as (r & -> & Hr).
      - intros E. assert (v = 0) as -> by nia. by rewrite Z.mul_0_r in Hpart.
      - exists r. split; [done|]. by replace (f mod 16 * (16 * w) * v) with (f mod 16 * (16 * w * v)) by ring. }
    cbn [mbind res_bind].
    destruct (rep_add BigBCD_null part' rt s s' (p' * v) (a * v) Hpart' Hrt) as (rt' & -> & Hrt').
    { intros _ _. apply rep_null. }
    cbn [mbind res_bind].
    assert (rep rt' (negb (p' * v =? 0) && s) ((a + p') * v)) as Hrt2.
    { by replace ((a + p') * v) with (p' * v + a * v) by ring. }
    replace (a + (p' + effective n (f / 16) p' (16 * w)))
      with (a + p' + effective n (f / 16) p' (16 * w)) by lia.
    destruct (Z.eq_dec v 0) as [->|Hv].
    + apply (IH rt' part' fac' (f / 16) (a + p') p' (16 * w) s); auto; try lia.
      assert ((a + p') * 0 = 0) as E0 by lia. rewrite E0 in Hrt2 |- *. by eapply rep_zero_sign.
    + eapply (IH rt' part' fac' (f / 16) (a + p') p' (16 * w)); eauto; try lia.
      intros Hq. subst p'. destruct (Z.eqb_spec (f mod 16) 0) as [E|E]; [lia|].
      destruct (Z.eqb_spec (f mod 16 * (16 * w) * v) 0); [nia|done].
Qed.

Lemma multiplication_factor_spec x s v f :
  rep x s v -> 0 <= f < 2 ^ 64 ->
  exists r, digits_multiplication_factor BigBCD_null x f = Ok r /\ rep r s (effective_factor f * v).
Proof.
  intros Hx Hf. unfold digits_multiplication_factor.
  destruct (Z.eqb_spec f 0) as [->|E]; [exists (allocate 0); split; [done|apply rep_null]|].
  change 0x0f with (Z.ones 4). rewrite Z.land_ones, Z.shiftr_div_pow2 by lia. change (2 ^ 4) with 16.
  pose proof (Z.mod_pos_bound f 16 ltac:(lia)) as Hm.
  pose proof (Z.div_mod f 16 ltac:(lia)) as Ef.
  assert (exists rt, digits_nibble_multiplication BigBCD_null x (f mod 16) = Ok rt /\ rep rt s (f mod 16 * v))
    as (rt & -> & Hrt).
  { destruct (Z.eq_dec (f mod 16) 0) as [->|]; [eexists; split; [apply nibble_zero|apply rep_null]|].
    apply nibble_spec; auto using rep_null. lia. }
  cbn [mbind res_bind]. unfold effective_factor.
  assert (0 <= f / 16 < 16 ^ Z.of_nat 15) as Hq.
  { change (16 ^ Z.of_nat 15) with (2 ^ 60). split; [apply Z.div_pos; lia|apply Z.div_lt_upper_bound; lia]. }
  assert (rep (copy x) s (1 * v)) as Hfac by (rewrite Z.mul_1_l; by apply rep_copy).
  destruct (factor_loop_spec s v 15 rt BigBCD_null (copy x) (f / 16) (f mod 16) 0 1 s
    Hq ltac:(lia) ltac:(lia) ltac:(lia) Hrt (rep_null s) Hfac ltac:(done)) as (r & Hr & Hrep).
  exists r. split; [exact Hr|].
  replace (effective factor_fuel (f / 16) 0 1) with (effective 15 (f / 16) 0 1); [done|].
  symmetry. exact (effective_fuel 15 _ _ _ Hq).
Qed.
