(* ===== verification/BigBCDInit.v ===== *)
(** * Arbitrary size packed decimal numbers: initialisation

    Proofs about the constructors of BigBCD from decimal digits and machine integers. *)
From S2P Require Import Prelude Decimal Variant BcdWord BigBCD BigBCDArith BigBCDDigits BigBCDMul.

(** ** Setting a digit of an array of words *)

Lemma flat_app ws vs : flat (ws ++ vs) = flat ws ++ flat vs.
Proof. unfold flat. by rewrite map_app, concat_app. Qed.

Lemma enc_insert ds : forall k d, (k < length ds)%nat ->
  enc (<[k := d]> ds) = enc ds + 16 ^ Z.of_nat k * (d - nth k ds 0).
Proof.
  induction ds as [|e ds IH]; intros k d Hk; [cbn in Hk; lia|]. destruct k as [|k].
  - cbn [insert list_insert enc nth]. change (Z.of_nat 0) with 0. rewrite Z.pow_0_r. lia.
  - cbn [length] in Hk. change (<[S k := d]> (e :: ds)) with (e :: <[k := d]> ds). cbn [enc nth].
    rewrite IH, Nat2Z.inj_succ, Z.pow_succ_r by lia. ring.
Qed.

Lemma dec_insert ds : forall k d, (k < length ds)%nat ->
  dec (<[k := d]> ds) = dec ds + 10 ^ Z.of_nat k * (d - nth k ds 0).
Proof.
  induction ds as [|e ds IH]; intros k d Hk; [cbn in Hk; lia|]. destruct k as [|k].
  - cbn [insert list_insert dec nth]. change (Z.of_nat 0) with 0. rewrite Z.pow_0_r. lia.
  - cbn [length] in Hk. change (<[S k := d]> (e :: ds)) with (e :: <[k := d]> ds). cbn [dec nth].
    rewrite IH, Nat2Z.inj_succ, Z.pow_succ_r by lia. ring.
Qed.

Lemma nth_insert (ds : list Z) k q d :
  (k < length ds)%nat -> nth q (<[k := d]> ds) 0 = if (q =? k)%nat then d else nth q ds 0.
Proof.
  intros Hk. rewrite !nth_lookup. destruct (Nat.eqb_spec q k) as [->|Hne].
  - by rewrite list_lookup_insert_eq.
  - by rewrite list_lookup_insert_ne.
Qed.

Lemma digits_insert ds k d : digits_ok ds -> 0 <= d <= 9 -> digits_ok (<[k := d]> ds).
Proof. intros Hd Hd'. by apply Forall_insert. Qed.

(** Setting a digit that is zero. *)
Lemma set_digit w k d :
  word_ok w -> (k < NumDigits)%nat -> nth k (nibbles NumDigits w) 0 = 0 -> 0 <= d <= 9 ->
  let w' := w + Z.shiftl d (Z.of_nat k * 4) in
  word_ok w' /\ nibbles NumDigits w' = <[k := d]> (nibbles NumDigits w) /\
  u64 (Z.shiftl d (Z.of_nat k * 4)) = Z.shiftl d (Z.of_nat k * 4) /\
  u64 w' = w' /\ Z.lor w (Z.shiftl d (Z.of_nat k * 4)) = w'.
Proof.
  intros [Hr Hd] Hk H0 Hdd w'.
  pose proof (digits_insert _ k d Hd Hdd) as Hd'. set (ds := nibbles NumDigits w) in *.
  assert (length ds = NumDigits) as Hl by apply length_word.
  assert (length (<[k := d]> ds) = NumDigits) as Hl' by (by rewrite length_insert).
  destruct (enc_word _ Hd' Hl') as [Hok _].
  assert (w' = enc (<[k := d]> ds)) as Hw'.
  { rewrite enc_insert, H0 by lia. unfold ds. rewrite word_enc by done. unfold w'.
    rewrite Z.shiftl_mul_pow2, pow16 by lia. lia. }
  assert (nibbles NumDigits w' = <[k := d]> ds) as Hn.
  { rewrite Hw'. pose proof (nibbles_word _ 0 Hd' Hl') as E. by rewrite Z.mul_0_r, Z.add_0_r in E. }
  destruct Hok as [Hr' Hok']. rewrite <- Hw' in Hr', Hok'.
  assert (0 <= Z.shiftl d (Z.of_nat k * 4)) as Hs by (rewrite Z.shiftl_nonneg; lia).
  split; [done|]. split; [done|].
  split; [apply wrap_small; unfold w' in *; lia|]. split; [apply wrap_small; lia|].
  destruct (digits_split (S k) ds Hd ltac:(lia)) as (_ & _ & He & _).
  destruct (digits_split k ds Hd ltac:(lia)) as (_ & _ & _ & Hb & _).
  rewrite (take_S_nth 0), enc_app, length_take, H0, Nat.min_l in He by lia. cbn [enc] in He.
  unfold ds in He at 1. rewrite word_enc in He by done.
  rewrite Nat2Z.inj_succ, Z.pow_succ_r in He by lia.
  rewrite pow16 in He, Hb. set (n := Z.of_nat k * 4) in *.
  unfold w'. rewrite Z.shiftl_mul_pow2 by lia.
  replace w with (enc (take k ds) + (enc (drop (S k) ds) * 2 ^ 4) * 2 ^ n) by lia.
  rewrite <- (Z.add_0_l (d * 2 ^ n)) at 1.
  rewrite lor_fields by (rewrite ?Z.lor_0_r; lia).
  rewrite Z.lor_0_r, Z.lor_comm, lor_high_low by lia. ring.
Qed.

(** The effect on an array. *)
Lemma set_array_digit ar bb k d :
  Forall word_ok ar -> (bb < length ar)%nat -> (k < NumDigits)%nat ->
  nth (bb * NumDigits + k) (flat ar) 0 = 0 -> 0 <= d <= 9 ->
  exists w, ar !! bb = Some w /\
    u64 (Z.shiftl d (Z.of_nat k * 4)) = Z.shiftl d (Z.of_nat k * 4) /\
    let w' := w + Z.shiftl d (Z.of_nat k * 4) in
    u64 w' = w' /\ Z.lor w (Z.shiftl d (Z.of_nat k * 4)) = w' /\
    Forall word_ok (<[bb := w']> ar) /\
    flat (<[bb := w']> ar) = <[(bb * NumDigits + k)%nat := d]> (flat ar).
Proof.
  intros Har Hbb Hk H0 Hd. destruct (lookup_lt_is_Some_2 ar bb Hbb) as [w Hw].
  exists w. split; [done|].
  pose proof (take_drop_middle ar bb w Hw) as Hmid.
  assert (word_ok w) as Hwok by (eapply Forall_lookup_1; eauto).
  assert (length (flat (take bb ar)) = bb * NumDigits)%nat as Hlt.
  { rewrite length_flat, length_take, Nat.min_l by lia. done. }
  assert (nth k (nibbles NumDigits w) 0 = 0) as Hz.
  { rewrite <- Hmid, flat_app, app_nth2, Hlt in H0 by lia.
    replace (bb * NumDigits + k - bb * NumDigits)%nat with k in H0 by lia.
    unfold flat in H0. cbn [map concat] in H0.
    by rewrite app_nth1 in H0 by (by rewrite length_word). }
  destruct (set_digit w k d Hwok Hk Hz Hd) as (Hok & Hn & E1 & E2 & E3).
  split; [done|]. cbn zeta. split; [done|]. split; [done|]. split; [by apply Forall_insert|].
  set (w' := w + _) in *. rewrite insert_take_drop by done. rewrite <- Hmid at 3.
  rewrite !flat_app. rewrite insert_app_r_alt by lia. f_equal. rewrite Hlt.
  replace (bb * NumDigits + k - bb * NumDigits)%nat with k by lia.
  unfold flat. cbn [map concat]. rewrite Hn, insert_app_l by (by rewrite length_word). done.
Qed.

Lemma array_digits ar : Forall word_ok ar -> digits_ok (flat ar) /\ length (flat ar) = (length ar * NumDigits)%nat.
Proof. intros H. split; [by apply flat_ok|apply length_flat]. Qed.

(** ** Machine integers *)

(** The digits of [e] are written from position [pos] on. *)
Lemma estimate_loop_spec n : forall fuel ar bb k e,
  Forall word_ok ar -> (k < NumDigits)%nat -> 0 <= e < 10 ^ Z.of_nat n -> (n < fuel)%nat ->
  (bb * NumDigits + k + n <= length ar * NumDigits)%nat ->
  (forall q, (bb * NumDigits + k <= q)%nat -> nth q (flat ar) 0 = 0) ->
  exists ar', estimate_loop fuel ar bb (Z.of_nat k * 4) e = Ok ar' /\ length ar' = length ar /\
    Forall word_ok ar' /\
    words_val ar' = words_val ar + e * 10 ^ Z.of_nat (bb * NumDigits + k).
Proof.
  induction n as [|n IH]; intros fuel ar bb k e Har Hk He Hf Hle Hz;
    (destruct fuel as [|fuel]; [lia|]); cbn [estimate_loop].
  - assert (e = 0) as -> by (cbn in He; lia). exists ar. split_and!; auto. lia.
  - destruct (Z.ltb_spec 0 e).
    2: { exists ar. assert (e = 0) as -> by lia. split_and!; auto. lia. }
    pose proof (Z.mod_pos_bound e 10 ltac:(lia)) as Hm. pose proof (Z.div_mod e 10 ltac:(lia)) as Ed.
    assert (bb < length ar)%nat as Hbb by (unfold NumDigits in *; lia).
    destruct (set_array_digit ar bb k (e mod 10) Har Hbb Hk (Hz _ (le_n _)) ltac:(lia))
      as (w & Hw & E1 & _ & E2 & Hok & Hflat).
    unfold word_at. cbn [m_ar]. rewrite Hw. cbn [mbind res_bind]. rewrite E1, E2.
    unfold put. destruct (Nat.ltb_spec bb (length ar)); [|lia]. cbn [mbind res_bind].
    set (ar1 := <[bb := _]> ar) in *.
    assert (length ar1 = length ar) as Hl1 by apply length_insert.
    destruct (array_digits ar Har) as [_ Hlf].
    assert (words_val ar1 = words_val ar + e mod 10 * 10 ^ Z.of_nat (bb * NumDigits + k)) as Hv1.
    { rewrite <- !dec_flat, Hflat, dec_insert, (Hz (bb * NumDigits + k)%nat) by lia. lia. }
    assert (forall q, (bb * NumDigits + k < q)%nat -> nth q (flat ar1) 0 = 0) as Hz1.
    { intros q Hq. rewrite Hflat, nth_insert by lia. destruct (Nat.eqb_spec q (bb * NumDigits + k)); [lia|].
      apply Hz. lia. }
    assert (0 <= e / 10 < 10 ^ Z.of_nat n) as He'.
    { rewrite Nat2Z.inj_succ, Z.pow_succ_r in He by lia.
      split; [apply Z.div_pos; lia|apply Z.div_lt_upper_bound; lia]. }
    assert (forall bb' k', (k' < NumDigits)%nat -> (bb' * NumDigits + k' = S (bb * NumDigits + k))%nat ->
      exists ar', estimate_loop fuel ar1 bb' (Z.of_nat k' * 4) (e / 10) = Ok ar' /\
        length ar' = length ar /\ Forall word_ok ar' /\
        words_val ar' = words_val ar + e * 10 ^ Z.of_nat (bb * NumDigits + k)) as Hnext.
    { intros bb' k' Hk' Epos.
      destruct (IH fuel ar1 bb' k' (e / 10) Hok Hk' He' ltac:(lia) ltac:(lia)) as (ar' & Hr & Hl & Ho & Hv).
      { intros q Hq. apply Hz1. lia. }
      exists ar'. split_and!; auto; [lia|]. rewrite Hv, Hv1, Epos, Nat2Z.inj_succ, Z.pow_succ_r by lia.
      rewrite Ed at 3. ring. }
    destruct (Z.eqb_spec (Z.of_nat k * 4) (NumHighShift - 4)) as [E|E].
    + apply (Hnext (S bb) 0%nat); unfold NumDigits, NumHighShift in *; lia.
    + replace (Z.of_nat k * 4 + 4) with (Z.of_nat (S k) * 4) by lia.
      apply Hnext; unfold NumDigits, NumHighShift in *; lia.
Qed.

(** Each scaling loop divides by the power of ten it adds to the shift. *)
Lemma scale_down_spec lim step : 0 < step -> forall fuel e s,
  0 <= e -> (Z.to_nat (- s) < fuel)%nat -> lim <= 0 ->
  exists e' s', scale_down fuel lim step (10 ^ step) e s = Ok (e', s') /\
    s <= s' /\ lim <= s' /\ s' <= Z.max s (lim + step - 1) /\ e' = e / 10 ^ (s' - s).
Proof.
  intros Hstep. induction fuel as [|fuel IH]; intros e s He Hf Hlim; [lia|]. cbn [scale_down].
  destruct (Z.ltb_spec s lim).
  - destruct (IH (e / 10 ^ step) (s + step)) as (e' & s' & -> & H1 & H2 & H3 & ->);
      [apply Z.div_pos; lia|lia|lia|].
    do 2 eexists; split; [reflexivity|]. split_and!; try lia.
    rewrite Z.div_div, <- Z.pow_add_r by lia. do 2 f_equal. lia.
  - exists e, s. split_and!; auto; try lia. rewrite Z.sub_diag, Z.pow_0_r, Z.div_1_r. done.
Qed.

(** An estimate of zero counts as one. *)
Definition estimate_val (e s : Z) : Z :=
  Z.max 1 (e / 10 ^ Z.max 0 (- s)) * 10 ^ Z.max 0 s.

Lemma flat_zeros n q : nth q (flat (replicate n 0)) 0 = 0.
Proof.
  revert q. induction n as [|n IH]; intros q; cbn; [by destruct q|].
  do 15 (destruct q as [|q]; [done|]). apply IH.
Qed.

(** The scaling of a negative shift. *)
Lemma scaled_estimate e s :
  0 <= e -> scale_estimate e s = Ok (e / 10 ^ Z.max 0 (- s), Z.max 0 s).
Proof.
  intros He. unfold scale_estimate. set (fuel := S (Z.to_nat (- s))).
  destruct (scale_down_spec (-6) 6 ltac:(lia) fuel e s He ltac:(subst fuel; lia) ltac:(lia))
    as (e1 & s1 & Hr1 & Ha1 & Hb1 & Hc1 & ->).
  change (10 ^ 6) with 1000000 in Hr1. rewrite Hr1. cbn [mbind res_bind fst snd].
  assert (0 <= e / 10 ^ (s1 - s)) as He1 by (apply Z.div_pos; lia).
  destruct (scale_down_spec (-3) 3 ltac:(lia) fuel _ s1 He1 ltac:(subst fuel; lia) ltac:(lia))
    as (e2 & s2 & Hr2 & Ha2 & Hb2 & Hc2 & ->).
  change (10 ^ 3) with 1000 in Hr2. rewrite Hr2. cbn [mbind res_bind fst snd].
  rewrite Z.div_div, <- Z.pow_add_r by lia. replace (s1 - s + (s2 - s1)) with (s2 - s) by lia.
  assert (0 <= e / 10 ^ (s2 - s)) as He2 by (apply Z.div_pos; lia).
  destruct (scale_down_spec (-1) 2 ltac:(lia) fuel _ s2 He2 ltac:(subst fuel; lia) ltac:(lia))
    as (e3 & s3 & Hr3 & Ha3 & Hb3 & Hc3 & ->).
  change (10 ^ 2) with 100 in Hr3. rewrite Hr3. cbn [mbind res_bind fst snd].
  rewrite Z.div_div, <- Z.pow_add_r by lia. replace (s2 - s + (s3 - s2)) with (s3 - s) by lia.
  assert (0 <= e / 10 ^ (s3 - s)) as He3 by (apply Z.div_pos; lia).
  destruct (scale_down_spec 0 1 ltac:(lia) fuel _ s3 He3 ltac:(subst fuel; lia) ltac:(lia))
    as (e4 & s4 & Hr4 & Ha4 & Hb4 & Hc4 & ->).
  change (10 ^ 1) with 10 in Hr4. rewrite Hr4.
  rewrite Z.div_div, <- Z.pow_add_r by lia. replace (s3 - s + (s4 - s3)) with (s4 - s) by lia.
  assert (s4 = Z.max 0 s) as -> by lia. replace (Z.max 0 s - s) with (Z.max 0 (- s)) by lia. done.
Qed.

Lemma bind_Ok {A B} (a : A) (f : A -> res B) : (Ok a ≫= f) = f a.
Proof. reflexivity. Qed.

Lemma check_that_true b x : b = true -> check_that b x = Ok tt.
Proof. by intros ->. Qed.

Lemma estimate_as_bcd_spec e s :
  0 <= e < 2 ^ 64 - 1 ->
  exists r, estimate_as_bcd e s = Ok r /\ rep r false (estimate_val e s).
Proof.
  intros He. unfold estimate_as_bcd.
  rewrite check_that_true, bind_Ok, scaled_estimate, bind_Ok by (try apply Z.ltb_lt; lia).
  set (e0 := e / 10 ^ Z.max 0 (- s)). set (s0 := Z.max 0 s).
  assert (0 <= e0 < 2 ^ 64) as He0.
  { subst e0. split; [apply Z.div_pos; lia|]. apply Z.le_lt_trans with e; [|lia].
    apply Z.div_le_upper_bound; [lia|]. assert (0 < 10 ^ Z.max 0 (- s)) by lia. nia. }
  set (v := if e0 =? 0 then 1 else e0).
  assert (0 <= v < 10 ^ Z.of_nat 20 /\ v = Z.max 1 e0) as [Hv Hvmax].
  { subst v. change (10 ^ Z.of_nat 20) with 100000000000000000000.
    destruct (Z.eqb_spec e0 0); split; lia. }
  set (mm := Z.to_nat (if 0 <? s then 3 + Z.quot s 4 else 3 - Z.quot s 4)).
  assert (s0 + 20 <= Z.of_nat mm * 15) as Hmm.
  { subst s0 mm. destruct (Z.ltb_spec 0 s).
    - rewrite Z.quot_div_nonneg by lia. pose proof (Z.div_mod s 4 ltac:(lia)).
      pose proof (Z.mod_pos_bound s 4 ltac:(lia)). lia.
    - assert (Z.quot s 4 <= 0) by (apply Z.quot_le_upper_bound; lia). lia. }
  set (n := Z.to_nat s0). replace s0 with (Z.of_nat n) by lia.
  destruct (digits_divmod n) as [Hn Hk].
  rewrite <- Nat2Z.inj_div, Nat2Z.id, <- Nat2Z.inj_mod, (Z.mul_comm 4).
  destruct (estimate_loop_spec 20 estimate_fuel (replicate mm 0) (n / NumDigits) (n mod NumDigits) v)
    as (ar & -> & Hl & Hok & Hval); auto using zeros_ok.
  { rewrite length_replicate. unfold NumDigits in *. lia. }
  { intros q _. apply flat_zeros. }
  cbn [mbind res_bind]. rewrite length_replicate in Hl.
  destruct (normalize_spec (mkBigBCD mm ar false) (big_ok_full mm ar false Hl Hok))
    as (r & -> & Hr & Hnr & Hmr & _ & Hsr).
  exists r. split; [done|]. rep_split; auto; [|by rewrite Hsr, !andb_false_r].
  rewrite Hmr, mag_full, Hval, words_val_zeros, Hvmax by done. unfold estimate_val.
  fold e0 s0. rewrite <- Hn. unfold n. rewrite Z2Nat.id by lia. lia.
Qed.

Lemma init_INTEGER_spec n :
  - 2 ^ 63 < n < 2 ^ 63 ->
  exists r, init_INTEGER n = Ok r /\ big_ok r /\ normal r /\ num r = (if n =? 0 then 1 else n).
Proof.
  intros Hn. unfold init_INTEGER.
  replace (if n <? 0 then int64_op (- n) else Ok n) with (Ok (Z.abs n)).
  2: { destruct (Z.ltb_spec n 0); [rewrite int64_op_ok by lia|]; f_equal; lia. }
  cbn [mbind res_bind]. rewrite wrap_small by lia.
  destruct (estimate_as_bcd_spec (Z.abs n) 0 ltac:(lia)) as (r & -> & Hr).
  cbn [mbind res_bind]. eexists; split; [reflexivity|].
  assert (estimate_val (Z.abs n) 0 = Z.max 1 (Z.abs n)) as E.
  { unfold estimate_val. change (10 ^ Z.max 0 (- 0)) with 1. change (10 ^ Z.max 0 0) with 1.
    rewrite Z.div_1_r. lia. }
  rewrite E in Hr. destruct Hr as (Ho & Hnm & Hm & Hs). rewrite andb_false_r in Hs.
  rewrite Hs. cbn [xorb].
  assert (rep (with_sign (n <? 0) r) (n <? 0) (Z.max 1 (Z.abs n))) as Hrep.
  { rep_split; auto; [|destruct (Z.eqb_spec (Z.max 1 (Z.abs n)) 0); [lia|done]].
    unfold normal in *. change (words (with_sign (n <? 0) r)) with (words r).
    destruct (last (words r)) eqn:El; [done|]. exfalso. apply last_None in El.
    unfold mag in Hm. rewrite El in Hm. cbn [words_val] in Hm. lia. }
  apply rep_copy in Hrep. rewrite (rep_num _ _ _ Hrep). destruct Hrep as (? & ? & _).
  split_and!; auto. unfold signed. destruct (Z.ltb_spec n 0), (Z.eqb_spec n 0); lia.
Qed.

(** ** Decimal digits *)

(** The digits are written from the most significant position of the array down. *)
Lemma init_loop_spec (digs : list Z) nn : digits_ok (take nn digs) -> (nn <= length digs)%nat ->
  forall n ii ar bb k,
  (ii + n = nn)%nat -> Forall word_ok ar -> (k < NumDigits)%nat -> (bb <= length ar)%nat ->
  (n <> 0 -> bb <> 0 /\ (bb - 1) * NumDigits + k + 1 = n)%nat ->
  (forall q, (q < n)%nat -> nth q (flat ar) 0 = 0) ->
  exists ar', init_loop n ii nn nn digs ar bb (Z.of_nat k * 4) = Ok ar' /\ length ar' = length ar /\
    Forall word_ok ar' /\
    words_val ar' = words_val ar + digits_val (drop ii (take nn digs)).
Proof.
  intros Hdig Hnn. induction n as [|n IH]; intros ii ar bb k Hii Har Hk Hbb Hpos Hz; cbn [init_loop].
  { exists ar. split_and!; auto. rewrite drop_ge by (rewrite length_take; lia). cbn. lia. }
  destruct (Hpos ltac:(lia)) as [Hbb0 Hp].
  destruct (Nat.ltb_spec nn ii); [lia|].
  destruct (lookup_lt_is_Some_2 digs ii ltac:(lia)) as [d Hd]. rewrite Hd.
  assert (take nn digs !! ii = Some d) as Hd' by (by rewrite lookup_take_lt by lia).
  assert (0 <= d <= 9) as Hdr by (eapply (Forall_lookup_1 _ _ _ _ Hdig Hd')).
  destruct (Z.leb_spec d 9); [|lia]. cbn [check_that mbind res_bind].
  replace ((bb - 1) * NumDigits + k)%nat with n in Hp by lia.
  assert ((bb - 1) * NumDigits + k = n)%nat as Epos by lia.
  destruct (set_array_digit ar (bb - 1) k d Har ltac:(lia) Hk) as (w & Hw & _ & E1 & _ & Hok & Hflat);
    [rewrite Epos; apply Hz; lia|done|].
  unfold word_at. cbn [m_ar]. rewrite Hw. cbn [mbind res_bind].
  unfold put. destruct (Nat.ltb_spec (bb - 1) (length ar)); [|lia]. cbn [mbind res_bind].
  rewrite E1. set (ar1 := <[(bb - 1)%nat := _]> ar) in *. rewrite Epos in Hflat.
  assert (length ar1 = length ar) as Hl1 by apply length_insert.
  destruct (array_digits ar Har) as [_ Hlf].
  assert (n < length (flat ar))%nat as Hnl by (rewrite Hlf; unfold NumDigits in *; nia).
  assert (words_val ar1 = words_val ar + d * 10 ^ Z.of_nat n) as Hv1.
  { rewrite <- !dec_flat, Hflat, dec_insert, (Hz n) by lia. lia. }
  assert (forall q, (q < n)%nat -> nth q (flat ar1) 0 = 0) as Hz1.
  { intros q Hq. rewrite Hflat, nth_insert by lia. destruct (Nat.eqb_spec q n); [lia|]. apply Hz. lia. }
  assert (digits_val (drop ii (take nn digs)) = d * 10 ^ Z.of_nat n + digits_val (drop (S ii) (take nn digs)))
    as Hdv.
  { rewrite (drop_S _ d) by done. unfold digits_val. cbn [rev]. rewrite dec_app, length_rev, length_drop, length_take.
    cbn [dec]. replace (min nn (length digs) - S ii)%nat with n by lia. lia. }
  assert (forall bb' k', (k' < NumDigits)%nat -> (bb' <= length ar)%nat ->
    (n <> 0 -> bb' <> 0 /\ (bb' - 1) * NumDigits + k' + 1 = n)%nat ->
    exists ar', init_loop n (S ii) nn nn digs ar1 bb' (Z.of_nat k' * 4) = Ok ar' /\
      length ar' = length ar /\ Forall word_ok ar' /\
      words_val ar' = words_val ar + digits_val (drop ii (take nn digs))) as Hnext.
  { intros bb' k' Hk' Hbb' Hp'.
    destruct (IH (S ii) ar1 bb' k' ltac:(lia) Hok Hk' ltac:(lia) Hp' Hz1) as (ar' & Hr & Hl & Ho & Hv).
    exists ar'. split_and!; auto; [lia|]. rewrite Hv, Hv1, Hdv. lia. }
  destruct (Z.eqb_spec (Z.of_nat k * 4) 0) as [E|E].
  - assert (negb ((bb - 1 =? 0)%nat && negb (ii + 1 =? nn)%nat) = true) as ->.
    { destruct (Nat.eqb_spec (bb - 1) 0) as [Eb|]; [|done]. rewrite Eb in Epos.
      assert (k = 0%nat) as -> by lia. destruct (Nat.eqb_spec (ii + 1) nn); [done|lia]. }
    cbn [check_that mbind res_bind].
    apply (Hnext (bb - 1)%nat 14%nat); unfold NumDigits in *; lia.
  - replace (Z.of_nat k * 4 - 4) with (Z.of_nat (k - 1) * 4) by lia.
    apply Hnext; unfold NumDigits in *; lia.
Qed.

(** The digits left of the point. *)
Definition integer_part (num : BigNumber) : Z :=
  digits_val (take (length (bn_digits num) - Z.to_nat (bn_scale num)) (bn_digits num)).

Lemma init_BigNumber_spec bn :
  digits_ok (bn_digits bn) -> 0 <= bn_scale bn ->
  exists r, init_BigNumber bn = Ok r /\ rep r (bn_sign bn) (integer_part bn).
Proof.
  intros Hd Hsc.
  assert (exists digs nn, (nn <= length digs)%nat /\ digits_ok (take nn digs) /\
    digits_val (take nn digs) = integer_part bn /\ init_digits bn = (digs, nn, nn))
    as (digs & nn & Hnn & Hdg & Hval & Hsel).
  { unfold integer_part, init_digits. set (size := length (bn_digits bn)).
    assert (digits_ok [0]) as Hz by (repeat constructor; lia).
    destruct (Nat.eqb_spec size 0) as [E|E].
    - assert (bn_digits bn = []) as Hnil by (by apply length_zero_iff_nil). rewrite Hnil, take_nil.
      destruct (Z.ltb_spec 0 (bn_scale bn)); [destruct (Z.ltb_spec (Z.of_nat 1) (bn_scale bn))|].
      + exists [0], 1%nat. auto.
      + exists [0], 0%nat. replace (1 - Z.to_nat (bn_scale bn))%nat with 0%nat by lia.
        split_and!; auto; [cbn; lia|constructor].
      + exists [0], 1%nat. replace (1 + Z.to_nat (- bn_scale bn))%nat with 1%nat by lia. auto.
    - destruct (Z.ltb_spec 0 (bn_scale bn)); [destruct (Z.ltb_spec (Z.of_nat size) (bn_scale bn))|].
      + exists [0], 1%nat. replace (size - Z.to_nat (bn_scale bn))%nat with 0%nat by lia.
        rewrite take_0. auto.
      + eexists (bn_digits bn), _. split_and!; [|by apply Forall_take|reflexivity|reflexivity].
        fold size. lia.
      + exists (bn_digits bn), size. replace (size + Z.to_nat (- bn_scale bn))%nat with size by lia.
        replace (size - Z.to_nat (bn_scale bn))%nat with size by lia.
        split_and!; auto. by apply Forall_take. }
  unfold init_BigNumber. rewrite Hsel.
  set (bb := ((nn + NumDigits - 1) / NumDigits)%nat).
  destruct (digits_divmod (nn + NumDigits - 1)) as [Hdm Hk]. fold bb in Hdm.
  set (k := ((nn + NumDigits - 1) mod NumDigits)%nat) in *.
  destruct (init_loop_spec digs nn Hdg Hnn nn 0 (replicate bb 0) bb k)
    as (ar & -> & Hl & Hok & Hv); auto using zeros_ok.
  { by rewrite length_replicate. }
  { intros Hn. unfold NumDigits in *. lia. }
  { intros q _. apply flat_zeros. }
  cbn [mbind res_bind]. rewrite length_replicate in Hl.
  destruct (normalize_spec (mkBigBCD bb ar (bn_sign bn)) (big_ok_full bb ar _ Hl Hok))
    as (r & -> & Hr & Hnr & Hmr & _ & Hsr).
  rewrite mag_full, Hv, words_val_zeros, drop_0, Hval in Hmr by done.
  exists r. split; [done|]. rep_split; auto. rewrite Hsr, mag_full by done.
  rewrite Hv, words_val_zeros, drop_0, Hval. done.
Qed.

(** ** Properties *)

(** What a borrow loses, with the sign of the difference. *)
Definition lost (x y : BigBCD) : Z := signed (negb (m_sign x)) (lost_carry x y).

Lemma subtraction_value x y s :
  rep x (m_sign x) (mag x) -> rep y (m_sign y) (mag y) -> s = m_sign x ->
  exists r, digits_subtraction BigBCD_null x y = Ok r /\ big_ok r /\ normal r /\
    num r = signed s (mag x - mag y) - lost x y.
Proof.
  intros Hx Hy ->. pose proof Hx as (Hox & Hnx & _ & _). pose proof Hy as (Hoy & Hny & _ & _).
  destruct (Nat.eq_dec (m_size x + m_size y) 0) as [E|E].
  - exists BigBCD_null. unfold digits_subtraction.
    replace (Nat.max (m_size y) (m_size x)) with 0%nat by lia. split; [done|].
    assert (forall z, m_size z = 0%nat -> mag z = 0) as Hz.
    { intros z Hz. unfold mag, words. by rewrite Hz, take_0. }
    destruct (rep_null false) as (? & ? & _). split; [done|]. split; [done|].
    unfold lost, lost_carry. rewrite !Hz by lia. cbn. unfold signed. destruct (m_sign x); reflexivity.
  - destruct (digits_subtraction_spec BigBCD_null x y Hox Hoy ltac:(lia)) as (r & -> & Hr & Hn & Hm & Hs).
    exists r. split; [done|]. split; [done|]. split; [done|].
    unfold num. rewrite Hs. unfold lost, signed. pose proof (mag_nonneg r Hr).
    assert (lost_carry x y = 0 \/ mag x < mag y) as Hl.
    { unfold lost_carry. destruct (Z.ltb_spec (mag x) (mag y)); [by right|by left]. }
    destruct (Z.ltb_spec (mag x) (mag y)), (m_sign x), (Z.eqb_spec (mag r) 0); cbn [negb andb xorb];
      lia.
Qed.

(** Sums and differences. *)
Lemma add_sub_value x y :
  big_ok x -> normal x -> big_ok y -> normal y ->
  (exists r, add x y = Ok r /\ big_ok r /\ normal r /\
     num r = num x + num y - (if Bool.eqb (m_sign x) (m_sign y) then 0 else lost x y)) /\
  (exists r, sub x y = Ok r /\ big_ok r /\ normal r /\
     num r = num x - num y - (if Bool.eqb (m_sign x) (m_sign y) then lost x y else 0)).
Proof.
  intros Hx Hnx Hy Hny. pose proof (rep_self x Hx Hnx) as Rx. pose proof (rep_self y Hy Hny) as Ry.
  destruct (subtraction_value x y (m_sign x) Rx Ry eq_refl) as (rs & Es & Hos & Hns & Hvs).
  destruct (rep_add BigBCD_null x y _ _ _ _ Rx Ry) as (ra & Ea & Ra); [intros; apply rep_null|].
  pose proof (rep_num _ _ _ Ra) as Hva. destruct Ra as (Hoa & Hna & _ & _).
  pose proof (fun H => proj2 (normal_zero x Hx Hnx H)) as Hzx.
  pose proof (fun H => proj2 (normal_zero y Hy Hny H)) as Hzy.
  unfold add, sub. unfold num at 2 3 5 6. unfold signed in *.
  destruct (m_sign x), (m_sign y); cbn [Bool.eqb]; rewrite Es, Ea;
    (split; eexists; (split; [reflexivity|split; [assumption|split; [assumption|]]])); rewrite ?Hva, ?Hvs;
    destruct (Z.eqb_spec (mag x) 0); cbn [negb andb]; try lia; discriminate (Hzx ltac:(assumption)).
Qed.

(** A number of one word. *)
Definition small (v : Z) : BigBCD := mkBigBCD 1 [v] false.

Lemma small_ok v : digits_okb v = true -> 0 < v < 2 ^ 60 -> big_ok (small v) /\ normal (small v).
Proof.
  intros Hd Hv. split; [|unfold normal; cbn; lia]. apply big_ok_full; [done|].
  constructor; [|done]. split; [lia|by apply digits_okb_spec].
Qed.

(** The product of two numbers: it is normalised, its magnitude is the product of the
    magnitudes, and it has the sign of the first factor whatever the sign of the second. *)
Lemma mul_value x y :
  big_ok x -> normal x -> big_ok y ->
  exists r, mul x y = Ok r /\ big_ok r /\ normal r /\ num r = signed (m_sign x) (mag x * mag y).
Proof.
  intros Hx Hnx Hy. unfold mul.
  destruct (digits_multiplication_spec x y _ _ (rep_self x Hx Hnx) Hy) as (r & -> & Hr).
  apply rep_copy in Hr. rewrite Z.mul_comm in Hr. exists (copy r). split; [done|].
  rewrite (rep_num _ _ _ Hr). destruct Hr as (? & ? & _). done.
Qed.

(** 12 * -34 is 408. *)
Lemma mul_value_witness :
  exists r, mul (small 0x12) (with_sign true (small 0x34)) = Ok r /\ num r = 408.
Proof.
  destruct (small_ok 0x12 eq_refl ltac:(lia)) as [H1 H2].
  destruct (small_ok 0x34 eq_refl ltac:(lia)) as [H3 _].
  destruct (mul_value (small 0x12) (with_sign true (small 0x34)) H1 H2 H3) as (r & Hr & _ & _ & Hv).
  exists r. split; [exact Hr|]. rewrite Hv. reflexivity.
Defined.

(** The product with an integer: the magnitude is multiplied with what the loop over
    the nibbles of the factor adds up, which is never less than the factor and is the factor
    exactly if no zero nibble lies between nibbles that are not zero (the lowest apart);
    the sign is right. *)
Theorem mul_int_value x n :
  big_ok x -> normal x -> - 2 ^ 63 < n < 2 ^ 63 ->
  (exists r, mul_int x n = Ok r /\ big_ok r /\ mag r = mag x * effective_factor (Z.abs n) /\
     num r = signed (n <? 0) (signed (m_sign x) (mag r))) /\
  Z.abs n <= effective_factor (Z.abs n) /\
  (effective_factor (Z.abs n) = Z.abs n <-> no_gap factor_fuel (Z.abs n / 16) false = true).
Proof.
  intros Hx Hnx Hn. split.
  - unfold mul_int. replace (if n <? 0 then int64_op (- n) else Ok n) with (Ok (Z.abs n)).
    2: { destruct (Z.ltb_spec n 0); [rewrite int64_op_ok by lia|]; f_equal; lia. }
    rewrite bind_Ok, wrap_small by lia.
    destruct (multiplication_factor_spec x _ _ (Z.abs n) (rep_self x Hx Hnx) ltac:(lia))
      as (r & -> & Ho & _ & Hm & Hs).
    rewrite bind_Ok. eexists; split; [reflexivity|]. split; [exact Ho|].
    change (mag (with_sign (xorb (m_sign r) (n <? 0)) r)) with (mag r). split; [lia|].
    unfold num. change (mag (with_sign _ r)) with (mag r). cbn [m_sign with_sign]. rewrite Hs, Hm.
    unfold signed. destruct (Z.eqb_spec (effective_factor (Z.abs n) * mag x) 0) as [E|E];
      destruct (m_sign x), (n <? 0); cbn; lia.
  - pose proof (Z.mod_pos_bound (Z.abs n) 16 ltac:(lia)). pose proof (Z.div_mod (Z.abs n) 16 ltac:(lia)).
    assert (0 <= Z.abs n / 16 < 16 ^ Z.of_nat factor_fuel).
    { change (16 ^ Z.of_nat factor_fuel) with (2 ^ 64).
      split; [apply Z.div_pos; lia|apply Z.div_lt_upper_bound; lia]. }
    destruct (effective_bound factor_fuel (Z.abs n / 16) 0 1) as [Hge Hgap]; [done|lia|lia|].
    unfold effective_factor. cbn [Z.eqb negb] in Hgap. rewrite <- Hgap. split; [lia|]. split; lia.
Qed.

(** 1 * 4113 is 4129: the factor is 0x1011. *)
Lemma mul_int_value_witness : exists r, mul_int (small 0x1) 4113 = Ok r /\ num r = 4129.
Proof.
  destruct (small_ok 0x1 eq_refl ltac:(lia)) as [H1 H2].
  destruct (mul_int_value (small 0x1) 4113 H1 H2 ltac:(lia)) as [(r & Hr & _ & Hm & Hv) _].
  exists r. split; [exact Hr|]. rewrite Hv, Hm. reflexivity.
Defined.



(** C35. Printing and conversion to an integer: a normalised number prints as the numeral of
    its value, without leading zeros; the conversion gives the value if its magnitude is
    below 2^63 and overflows otherwise: the range check is never reached. *)
Theorem conversions x :
  big_ok x -> normal x ->
  (exists s, tostring x = Ok s /\ numeral_value s = Some (num x)) /\
  toint x = (if mag x <? 2 ^ 63 then Ok (num x) else Throw (Undefined "signed integer overflow")).
Proof. intros Hx Hn. split; [by apply tostring_spec|by apply toint_spec]. Qed.

Lemma conversions_witness : toint (small 0x4711) = Ok 4711.
Proof.
  destruct (small_ok 0x4711 eq_refl ltac:(lia)) as [H1 H2].
  destruct (conversions (small 0x4711) H1 H2) as [_ Hi]. rewrite Hi. reflexivity.
Defined.

(** A number made from decimal digits is the integer part of the decimal number, as a
    normalised number with its sign, if the scale is not negative. *)
Theorem init_BigNumber_value bn :
  digits_ok (bn_digits bn) -> 0 <= bn_scale bn ->
  exists r, init_BigNumber bn = Ok r /\ big_ok r /\ normal r /\
    num r = signed (bn_sign bn) (integer_part bn).
Proof.
  intros Hd Hs. destruct (init_BigNumber_spec bn Hd Hs) as (r & Hr & Hrep).
  exists r. split; [exact Hr|]. rewrite (rep_num _ _ _ Hrep). destruct Hrep as (? & ? & _). done.
Qed.

(** -123.45 *)
Lemma init_BigNumber_value_witness :
  exists r, init_BigNumber (mkBigNumber 2 true [1; 2; 3; 4; 5]) = Ok r /\ num r = -123.
Proof.
  destruct (init_BigNumber_value (mkBigNumber 2 true [1; 2; 3; 4; 5])) as (r & Hr & _ & _ & Hv).
  - repeat constructor; lia.
  - cbn. lia.
  - exists r. split; [exact Hr|]. rewrite Hv. reflexivity.
Defined.

(** A machine integer converted to a number and back is the same, unless it is zero,
    which becomes one. *)
Theorem integer_roundtrip n :
  - 2 ^ 63 < n < 2 ^ 63 ->
  (x ← init_INTEGER n; toint x) = Ok (if n =? 0 then 1 else n).
Proof.
  intros Hn. destruct (init_INTEGER_spec n Hn) as (r & -> & Ho & _ & Hv). rewrite bind_Ok.
  rewrite toint_spec by done. pose proof (mag_nonneg r Ho).
  assert (mag r = Z.abs (num r)) as Hm by (unfold num, signed; destruct (m_sign r); lia).
  rewrite Hm, Hv. destruct (Z.ltb_spec (Z.abs (if n =? 0 then 1 else n)) (2 ^ 63)); [done|].
  destruct (Z.eqb_spec n 0); lia.
Qed.

Lemma integer_roundtrip_witness : (x ← init_INTEGER (-4711); toint x) = Ok (-4711).
Proof. apply (integer_roundtrip (-4711)). lia. Defined.

(** Shifting by digits multiplies the magnitude with a power of ten, or divides it
    rounding towards zero, as long as not all words are shifted out. *)
Theorem shift_value x n :
  big_ok x -> - Z.of_nat (m_size x * NumDigits) < n \/ 0 <= n ->
  exists r, digits_shift x n = Ok r /\ big_ok r /\ normal r /\
    num r = signed (m_sign x) (if 0 <=? n then mag x * 10 ^ n else mag x / 10 ^ (- n)).
Proof.
  intros Hx Hn. destruct (digits_shift_spec x n Hx Hn) as (r & Hr & Ho & Hnr & Hm & Hs).
  exists r. split; [exact Hr|]. split; [exact Ho|]. split; [exact Hnr|].
  unfold num, signed. rewrite Hs, Hm. set (v := if 0 <=? n then _ else _).
  destruct (Z.eqb_spec v 0) as [->|]; cbn [negb andb]; destruct (m_sign x); lia.
Qed.

Lemma shift_value_witness : exists r, digits_shift (small 0x4711) (-2) = Ok r /\ num r = 47.
Proof.
  destruct (small_ok 0x4711 eq_refl ltac:(lia)) as [H1 H2].
  destruct (shift_value (small 0x4711) (-2) H1) as (r & Hr & _ & _ & Hv); [cbn; lia|].
  exists r. split; [exact Hr|]. rewrite Hv. reflexivity.
Defined.
