(* ===== verification/Conversions.v ===== *)
(** * Conversions between numbers and strings

    Models src/libwolframe/types/conversions.cpp: the printing of machine integers two
    digits at a time from a table, and the reading of decimal numbers. *)
From S2P Require Import Prelude Decimal.

(** ** Printing *)

(** The table [NumTable]: the two characters of the numbers below 100, one after the other. *)
Definition tab_chr : list ascii :=
  flat_map (fun ii => [ascii_of_nat (ii / 10 + 48); ascii_of_nat (ii mod 10 + 48)]) (seq 0 100).

(** The entry [tab.ar[ ai]] read as a short covers two characters. *)
Definition tab_ar (ai : nat) : ascii * ascii :=
  (nth (2 * ai) tab_chr "000"%char, nth (2 * ai + 1) tab_chr "000"%char).

(** The buffer has room for ten entries; it is filled from its end. *)
Fixpoint number_loop (n : nat) (val : Z) (str : string) : string :=
  match n with
  | O => str
  | S n' =>
      if 0 <? val then
        let '(c1, c2) := tab_ar (Z.to_nat (val mod 100)) in
        number_loop n' (val / 100) (String c1 (String c2 str))
      else str
  end.

Definition getNumberString (val : Z) : string :=
  if val =? 0 then "0"%string
  else
    match number_loop 10 val EmptyString with
    | String c s => if (c =? "0")%char then s else String c s
    | EmptyString => EmptyString
    end.

Definition tostring_cast_uint (val : Z) : string := getNumberString val.

(** The negation of the least integer overflows. *)
Definition negate (val : Z) : res Z :=
  if val =? - 2 ^ 63 then Throw (Undefined "signed integer overflow") else Ok (- val).

Definition tostring_cast_int (val : Z) : res string :=
  if val <? 0 then v ← negate val; Ok (String "-" (getNumberString (u64 v)))
  else Ok (getNumberString (u64 val)).

(** ** Reading *)

Definition is_digit (c : ascii) : bool :=
  (48 <=? Z.of_nat (nat_of_ascii c)) && (Z.of_nat (nat_of_ascii c) <=? 57).
Definition digit_of (c : ascii) : Z := Z.of_nat (nat_of_ascii c) - 48.

(** The string ends with its terminating zero, or with the first zero it contains. *)
Fixpoint string2uint (s : string) (rt : Z) : res Z :=
  match s with
  | EmptyString => Ok rt
  | String c s' =>
      if is_digit c then
        let prev := rt in
        let rt := u64 (u64 (rt * 10) + digit_of c) in
        _ ← check_that (negb (rt <? prev))
              (RuntimeError "string to number conversion error: value out of range");
        string2uint s' rt
      else
        _ ← check_that (c =? "000")%char
              (RuntimeError "string to number conversion error: value is not a sequence of digits");
        Ok rt
  end.

Definition string_empty : exn := RuntimeError "string to number conversion error: string empty".

Definition touint_cast (val : string) : res Z :=
  match val with
  | EmptyString => Throw string_empty
  | _ => string2uint val 0
  end.

Definition int_out_of_range : exn :=
  RuntimeError "string to integer conversion error: value out of range".

Definition toint_cast (val : string) : res Z :=
  match val with
  | EmptyString => Throw string_empty
  | String c s =>
      if (c =? "-")%char then
        rt ← string2uint s 0;
        _ ← check_that (rt <=? 2 ^ 63 - 1 + 1) int_out_of_range;
        negate (i64 rt)
      else
        u ← string2uint val 0;
        let rt := i64 u in
        _ ← check_that (negb (rt <? 0)) int_out_of_range;
        Ok rt
  end.

(** ** Lemmas *)

Lemma is_digit_char d : 0 <= d <= 9 -> is_digit (digit_char d) = true /\ digit_of (digit_char d) = d.
Proof.
  intros Hd. unfold is_digit, digit_of. rewrite nat_of_digit_char by done. split; [|lia].
  apply andb_true_iff. split; apply Z.leb_le; lia.
Qed.

(** Reading digits whose value fits the machine word. *)
Lemma string2uint_digits ds : forall rt,
  digits_ok ds -> 0 <= rt -> rt * 10 ^ Z.of_nat (length ds) + digits_val ds < 2 ^ 64 ->
  string2uint (of_digits ds) rt = Ok (rt * 10 ^ Z.of_nat (length ds) + digits_val ds).
Proof.
  induction ds as [|d ds IH]; intros rt Hd Hrt Hlt; cbn [of_digits string2uint].
  { f_equal. unfold digits_val. cbn. lia. }
  apply Forall_cons in Hd as [Hd1 Hd]. destruct (is_digit_char d Hd1) as [-> ->].
  unfold digits_val in *. cbn [rev length] in *. rewrite dec_app, length_rev in *. cbn [dec] in *.
  rewrite Nat2Z.inj_succ, Z.pow_succ_r in * by lia.
  set (P := 10 ^ Z.of_nat (length ds)) in *. assert (0 < P) by (unfold P; lia).
  pose proof (dec_bounds (rev ds) ltac:(by apply Forall_rev)) as Hb.
  assert (rt * 10 + d < 2 ^ 64) as Hsmall by nia.
  rewrite (wrap_small 64 (rt * 10)), wrap_small by lia.
  destruct (Z.ltb_spec (rt * 10 + d) rt); [lia|]. cbn [negb check_that mbind res_bind].
  rewrite IH by (auto; lia). f_equal. lia.
Qed.

Lemma touint_cast_digits ds :
  digits_ok ds -> ds <> [] -> digits_val ds < 2 ^ 64 -> touint_cast (of_digits ds) = Ok (digits_val ds).
Proof.
  intros Hd Hn Hlt. destruct ds as [|d ds]; [done|]. cbn [of_digits touint_cast].
  change (String (digit_char d) (of_digits ds)) with (of_digits (d :: ds)).
  rewrite string2uint_digits by (auto; lia). f_equal; lia.
Qed.

(** The table holds the two digits of its index. *)
Lemma tab_ar_digits v :
  0 <= v < 100 -> tab_ar (Z.to_nat v) = (digit_char (v / 10), digit_char (v mod 10)).
Proof.
  intros Hv.
  assert (forall n, (n < 100)%nat ->
    tab_ar n = (digit_char (Z.of_nat n / 10), digit_char (Z.of_nat n mod 10))) as Ht.
  { assert (forallb (fun n => bool_decide (tab_ar n =
      (digit_char (Z.of_nat n / 10), digit_char (Z.of_nat n mod 10)))) (seq 0 100) = true) as Hall
      by (vm_compute; reflexivity).
    intros n Hn. rewrite forallb_forall in Hall. specialize (Hall n).
    apply bool_decide_eq_true in Hall; [done|]. apply in_seq. lia. }
  specialize (Ht (Z.to_nat v) ltac:(lia)). by rewrite Z2Nat.id in Ht by lia.
Qed.

(** The pairs of digits of a number, most significant first. *)
Fixpoint pairs (n : nat) (val : Z) (ds : list Z) : list Z :=
  match n with
  | O => ds
  | S n' => if 0 <? val then pairs n' (val / 100) (val mod 100 / 10 :: val mod 100 mod 10 :: ds) else ds
  end.

Lemma number_loop_pairs n : forall val ds,
  0 <= val -> number_loop n val (of_digits ds) = of_digits (pairs n val ds).
Proof.
  induction n as [|n IH]; intros val ds Hv; cbn [number_loop pairs]; [done|].
  destruct (Z.ltb_spec 0 val); [|done]. rewrite tab_ar_digits by (apply Z.mod_pos_bound; lia).
  change (String (digit_char (val mod 100 / 10)) (String (digit_char (val mod 100 mod 10)) (of_digits ds)))
    with (of_digits (val mod 100 / 10 :: val mod 100 mod 10 :: ds)).
  apply IH. apply Z.div_pos; lia.
Qed.

(** A first digit of zero is followed by one that is not. *)
Definition one_zero (ds : list Z) : Prop :=
  match ds with
  | d :: e :: _ => d <> 0 \/ e <> 0
  | _ => False
  end.

Lemma pair_digits m : 0 <= m < 100 -> 0 <= m / 10 <= 9 /\ 0 <= m mod 10 <= 9 /\ m = 10 * (m / 10) + m mod 10.
Proof.
  intros Hm. pose proof (Z.mod_pos_bound m 10 ltac:(lia)). pose proof (Z.div_mod m 10 ltac:(lia)). lia.
Qed.

Lemma pairs_nil n ds : pairs n 0 ds = ds.
Proof. by destruct n. Qed.

Lemma pairs_spec n : forall val ds,
  0 < val < 100 ^ Z.of_nat n -> digits_ok ds ->
  digits_ok (pairs n val ds) /\ one_zero (pairs n val ds) /\
  digits_val (pairs n val ds) = val * 10 ^ Z.of_nat (length ds) + digits_val ds.
Proof.
  induction n as [|n IH]; intros val ds Hv Hd; [cbn in Hv; lia|].
  cbn [pairs]. destruct (Z.ltb_spec 0 val); [|lia].
  rewrite Nat2Z.inj_succ, Z.pow_succ_r in Hv by lia.
  pose proof (Z.mod_pos_bound val 100 ltac:(lia)) as Hm. pose proof (Z.div_mod val 100 ltac:(lia)) as Ev.
  destruct (pair_digits _ Hm) as (H1 & H2 & H3).
  set (m := val mod 100) in *. set (ds' := m / 10 :: m mod 10 :: ds).
  assert (digits_ok ds') as Hd' by (repeat constructor; auto; lia).
  assert (digits_val ds' = m * 10 ^ Z.of_nat (length ds) + digits_val ds) as Hval.
  { unfold digits_val, ds'. cbn [rev]. rewrite !dec_app, length_app, length_rev. cbn [dec length].
    rewrite Nat2Z.inj_add, Z.pow_add_r by lia. change (10 ^ Z.of_nat 1) with 10. 
    set (q := m / 10) in *. set (r := m mod 10) in *. rewrite H3. ring. }
  destruct (Z.eq_dec (val / 100) 0) as [E|E].
  - rewrite E, pairs_nil. split_and!; [done|unfold ds'; cbn; lia|]. rewrite Hval. f_equal. lia.
  - assert (0 <= val / 100) by (apply Z.div_pos; lia).
    destruct (IH (val / 100) ds' ltac:(lia) Hd') as (Ho & Hz & Hv'). split_and!; auto.
    rewrite Hv', Hval. unfold ds'. cbn [length]. rewrite !Nat2Z.inj_succ, !Z.pow_succ_r by lia.
    set (q := val / 100) in *. rewrite Ev. ring.
Qed.

(** A printed number: digits without a leading zero. *)
Lemma getNumberString_digits val :
  0 < val < 2 ^ 64 ->
  exists d ds, getNumberString val = of_digits (d :: ds) /\ digits_ok (d :: ds) /\ d <> 0 /\
    digits_val (d :: ds) = val.
Proof.
  intros Hv. unfold getNumberString. destruct (Z.eqb_spec val 0); [lia|].
  change EmptyString with (of_digits []) at 1. rewrite number_loop_pairs by lia.
  destruct (pairs_spec 10 val []) as (Ho & Hz & Hval); [|constructor|].
  { change (100 ^ Z.of_nat 10) with 100000000000000000000. lia. }
  destruct (pairs 10 val []) as [|d [|e ds]]; try done.
  assert (digits_val (d :: e :: ds) = val) as Hval' by (rewrite Hval; cbn; lia).
  pose proof Ho as Ho2. apply Forall_cons in Ho2 as [Hd1 Ho2]. cbn [of_digits].
  assert ((digit_char d =? "0")%char = (d =? 0)) as ->.
  { destruct (Z.eqb_spec d 0) as [->|Hne]; [done|]. apply Ascii.eqb_neq. intros E.
    apply (f_equal (fun c => Z.of_nat (nat_of_ascii c))) in E. rewrite nat_of_digit_char in E by done.
    change (Z.of_nat (nat_of_ascii "0")) with 48 in E. lia. }
  destruct (Z.eqb_spec d 0) as [->|Hne].
  - exists e, ds. split_and!; auto; [cbn in Hz; lia|]. rewrite <- Hval'. unfold digits_val.
    cbn [rev]. rewrite !dec_app. cbn [dec]. lia.
  - exists d, (e :: ds). auto.
Qed.

(** ** Properties *)

(** C36. Printing a machine integer and reading it again gives the integer, for every
    unsigned integer of 64 bits and every signed one but the least. *)
Theorem number_string_roundtrip v :
  (0 <= v < 2 ^ 64 -> touint_cast (tostring_cast_uint v) = Ok v) /\
  (- 2 ^ 63 < v < 2 ^ 63 -> (s ← tostring_cast_int v; toint_cast s) = Ok v).
Proof.
  assert (forall u, 0 < u < 2 ^ 64 -> exists c s, getNumberString u = String c s /\ c <> "-"%char /\
    string2uint (getNumberString u) 0 = Ok u) as Hu.
  { intros u Hr. destruct (getNumberString_digits u Hr) as (d & ds & -> & Hd & Hd0 & <-).
    exists (digit_char d), (of_digits ds). split; [done|].
    apply Forall_cons in Hd as Hd'. destruct Hd' as [Hd1 _]. split.
    - intros E. apply (f_equal (fun c => Z.of_nat (nat_of_ascii c))) in E.
      rewrite nat_of_digit_char in E by done. change (Z.of_nat (nat_of_ascii "-")) with 45 in E. lia.
    - rewrite string2uint_digits by (auto; lia). f_equal; lia. }
  split; intros Hv.
  - unfold tostring_cast_uint. destruct (Z.eq_dec v 0) as [->|]; [done|].
    destruct (Hu v ltac:(lia)) as (c & s & E & _ & H2). unfold touint_cast. rewrite E in H2 |- *. done.
  - unfold tostring_cast_int. destruct (Z.ltb_spec v 0).
    + unfold negate at 1. destruct (Z.eqb_spec v (- 2 ^ 63)); [lia|]. cbn [mbind res_bind].
      rewrite wrap_small by lia. destruct (Hu (- v) ltac:(lia)) as (c & s & _ & _ & H2).
      cbn [toint_cast]. change ("-" =? "-")%char with true. cbn iota. rewrite H2. cbn [mbind res_bind].
      destruct (Z.leb_spec (- v) (2 ^ 63 - 1 + 1)); [|lia]. cbn [check_that mbind res_bind].
      rewrite swrap_small by lia. unfold negate. destruct (Z.eqb_spec (- v) (- 2 ^ 63)); [lia|].
      f_equal. lia.
    + rewrite wrap_small by lia. cbn [mbind res_bind].
      destruct (Z.eq_dec v 0) as [->|]; [done|].
      destruct (Hu v ltac:(lia)) as (c & s & E & Hc & H2). rewrite E in H2 |- *. unfold toint_cast.
      apply Ascii.eqb_neq in Hc. rewrite Hc, H2. cbn [mbind res_bind].
      rewrite swrap_small by lia. destruct (Z.ltb_spec v 0); [lia|]. done.
Qed.

Lemma number_string_roundtrip_witness :
  touint_cast (tostring_cast_uint 18446744073709551615) = Ok 18446744073709551615 /\
  (s ← tostring_cast_int (-4711); toint_cast s) = Ok (-4711).
Proof.
  split; [apply (number_string_roundtrip 18446744073709551615)|apply (number_string_roundtrip (-4711))]; lia.
Defined.

(** The test for an overflow compares the wrapped value with the one before: a number that
    wraps around to a bigger value is accepted. *)
Example overflow_accepted : touint_cast "30000000000000000000" = Ok 11553255926290448384.
Proof. vm_compute. reflexivity. Qed.
