(* ===== verification/BigNum.v ===== *)
(** * Decimal numbers with a scale

    Models src/libwolframe/types/bignumber.cpp: the number as significant digits, most
    significant first, and the number of digits right of the point ([bn_scale], a short
    that may be negative): its parser, its printing, conversions and comparison. *)
From S2P Require Import Prelude Decimal Variant Conversions.

Abbreviation m_digits := bn_digits.
Definition bn_size (x : BigNumber) : Z := Z.of_nat (length (bn_digits x)).

(** ** Conversion to integers *)

Definition too_big_for_uint : exn :=
  RuntimeError "conversion error: big number value to big to convert to unsigned integer".

(** The loop of [touint]: its index is never incremented. *)
Fixpoint touint_loop (fuel : nat) (x : BigNumber) (ii : nat) (rt prev : Z) : res Z :=
  match fuel with
  | O => OutOfFuel
  | S fuel' =>
      if (ii <? length (bn_digits x))%nat then
        let rt := u64 (u64 (rt * 10) + nth ii (bn_digits x) 0) in
        _ ← check_that (prev <? rt) too_big_for_uint;
        touint_loop fuel' x ii rt rt
      else Ok rt
  end.

(** The value grows by a digit with every iteration and does not get over 2^64. *)
Definition touint_fuel : nat := 21.

Definition touint (x : BigNumber) : res Z :=
  _ ← check_that (negb (bn_sign x))
        (RuntimeError "conversion error: negative bcd number to unsigned integer");
  _ ← check_that (bn_scale x =? 0)
        (RuntimeError "conversion error: bcd number with fraction to unsigned integer");
  touint_loop touint_fuel x 0 0 0.

Definition toint (x : BigNumber) : res Z :=
  u ← touint x;
  let val := i64 u in
  _ ← check_that (negb (val <? 0))
        (RuntimeError "conversion error: big number value to big to convert to signed integer");
  if bn_sign x then negate val else Ok val.

(** ** Printing *)

(** The character of a digit, [digits[ ii] + '0']. *)
Definition print_digit (digits : list Z) (ii : nat) : res ascii :=
  match digits !! ii with
  | Some d => Ok (ascii_of_nat (Z.to_nat (u8 (d + 48))))
  | None => Throw (Undefined "array access out of bounds")
  end.

(** The characters of the digits [ofs], ..., [ofs + n - 1]. *)
Fixpoint print_digits (digits : list Z) (ofs n : nat) : res string :=
  match n with
  | O => Ok EmptyString
  | S n' =>
      c ← print_digit digits ofs;
      s ← print_digits digits (S ofs) n';
      Ok (String c s)
  end.

Fixpoint zeros (n : nat) : string :=
  match n with O => EmptyString | S n' => String "0" (zeros n') end.

(** A negative scale prints digits from the start again where zeros are missing. *)
Definition numtostring (sign : bool) (digits : list Z) (numsize numscale exponent : Z) : res string :=
  if numsize =? 0 then Ok "0"%string
  else
    let sg := (if sign then "-" else "")%string in
    let size := Z.to_nat numsize in
    let scale := Z.to_nat (Z.abs numscale) in
    if numscale =? 0 then
      s ← print_digits digits 0 size; Ok (sg +:+ s)%string
    else
      rt ← (if 0 <? numscale then
              if numsize <=? numscale then
                s ← print_digits digits 0 size;
                Ok ("0." +:+ zeros (scale - size) +:+ s)%string
              else
                let pre := (size - scale)%nat in
                s1 ← print_digits digits 0 pre;
                s2 ← print_digits digits pre scale;
                Ok (s1 +:+ "." +:+ s2)%string
            else
              s1 ← print_digits digits 0 size;
              s2 ← print_digits digits 0 scale;
              Ok (s1 +:+ s2)%string);
      ex ← (if exponent =? 0 then Ok EmptyString
            else e ← tostring_cast_int exponent; Ok (String "E" e));
      Ok (sg +:+ rt +:+ ex)%string.

Definition tostring (x : BigNumber) : res string :=
  numtostring (bn_sign x) (bn_digits x) (bn_size x) (bn_scale x) 0.

(** The loop that cuts zeros at the end of the fractional part. *)
Fixpoint cut_zeros (n : nat) (digits : list Z) (numsize numscale : Z) : Z * Z :=
  match n with
  | O => (numsize, numscale)
  | S n' =>
      if (0 <? numsize) && (0 <? numscale) && (nth (Z.to_nat (numsize - 1)) digits 0 =? 0)
      then cut_zeros n' digits (numsize - 1) (numscale - 1)
      else (numsize, numscale)
  end.

Definition tostringNormalized (x : BigNumber) : res string :=
  let numsize := bn_size x in
  let '(exponent, numscale) :=
    if (bn_scale x <? 0) && (numsize <? - bn_scale x) then (- bn_scale x + numsize, numsize)
    else if numsize <? bn_scale x then (- (bn_scale x - numsize), numsize)
    else (0, bn_scale x) in
  let '(numsize, numscale) := cut_zeros (length (bn_digits x)) (bn_digits x) numsize numscale in
  numtostring (bn_sign x) (bn_digits x) numsize numscale exponent.

(** ** Parsing *)

Inductive State := NUMS | NUM0 | NUM1 | FRC0 | FRC1 | EXPE | EXPS | EXP0 | EXP1.

#[export] Instance State_eq_dec : EqDecision State.
Proof. solve_decision. Defined.

(** The members under construction and the local variables of the parser; [m_room] is the
    size of the digit array. *)
Record Parser := mkParser {
  p_state : State;
  p_scale : Z;
  p_sign : bool;
  p_digits : list Z;
  p_room : nat;
  p_scaleinc : Z;
  p_prev_scaleinc : Z;
  p_expsign : bool
}.

Definition set_state (s : State) (p : Parser) : Parser :=
  mkParser s (p_scale p) (p_sign p) (p_digits p) (p_room p) (p_scaleinc p) (p_prev_scaleinc p) (p_expsign p).
Definition set_sign (b : bool) (p : Parser) : Parser :=
  mkParser (p_state p) (p_scale p) b (p_digits p) (p_room p) (p_scaleinc p) (p_prev_scaleinc p) (p_expsign p).
Definition set_expsign (b : bool) (p : Parser) : Parser :=
  mkParser (p_state p) (p_scale p) (p_sign p) (p_digits p) (p_room p) (p_scaleinc p) (p_prev_scaleinc p) b.
Definition inc_scale (p : Parser) : Parser :=
  mkParser (p_state p) (i16 (p_scale p + 1)) (p_sign p) (p_digits p) (p_room p) (p_scaleinc p)
    (p_prev_scaleinc p) (p_expsign p).

(** [m_ar[ m_size++] = val[vi] - '0'] *)
Definition push_digit (c : ascii) (p : Parser) : res Parser :=
  if (length (p_digits p) <? p_room p)%nat then
    Ok (mkParser (p_state p) (p_scale p) (p_sign p) (p_digits p ++ [digit_of c]) (p_room p)
          (p_scaleinc p) (p_prev_scaleinc p) (p_expsign p))
  else Throw (Undefined "array access out of bounds").

Definition syntax_error : exn := RuntimeError "syntax error in big number string".
Definition out_of_range : exn :=
  RuntimeError "conversion error: big number value in string is out of range".

(** The cases of the parser's switch, each with those it falls through to. *)
Definition case_NUM1 (c : ascii) (p : Parser) : res Parser :=
  if is_digit c then push_digit c p
  else if (c =? ".")%char then
    Ok (set_state (if (length (p_digits p) =? 0)%nat then FRC0 else FRC1) p)
  else Ok (set_state EXPE p).

Definition case_NUM0 (c : ascii) (p : Parser) : res Parser :=
  if (c =? "0")%char then Ok p else case_NUM1 c (set_state NUM1 p).

Definition case_NUMS (c : ascii) (p : Parser) : res Parser :=
  let p := set_state NUM0 p in
  if (c =? "-")%char then Ok (set_sign true p)
  else if (c =? "+")%char then Ok (set_sign false p)
  else case_NUM0 c p.

Definition case_EXPE (c : ascii) (p : Parser) : res Parser :=
  if (c =? " ")%char then Ok p
  else if (c =? "E")%char then Ok (set_state EXPS p)
  else Throw syntax_error.

Definition case_FRC1 (c : ascii) (p : Parser) : res Parser :=
  if is_digit c then p ← push_digit c p; Ok (inc_scale p)
  else case_EXPE c (set_state EXPE p).

Definition case_FRC0 (c : ascii) (p : Parser) : res Parser :=
  if (c =? "0")%char then Ok (inc_scale p) else case_FRC1 c (set_state FRC1 p).

Definition case_EXP1 (c : ascii) (p : Parser) : res Parser :=
  if is_digit c then
    let scaleinc := i16 (p_scaleinc p * 10 + digit_of c) in
    _ ← check_that (negb (scaleinc <? p_prev_scaleinc p)) out_of_range;
    Ok (mkParser (p_state p) (p_scale p) (p_sign p) (p_digits p) (p_room p) scaleinc scaleinc
          (p_expsign p))
  else Throw syntax_error.

Definition case_EXP0 (c : ascii) (p : Parser) : res Parser :=
  if (c =? "0")%char then Ok p else case_EXP1 c (set_state EXP1 p).

Definition case_EXPS (c : ascii) (p : Parser) : res Parser :=
  let p := set_state EXP0 p in
  if (c =? "-")%char then Ok (set_expsign true p)
  else if (c =? "+")%char then Ok (set_expsign false p)
  else case_EXP0 c p.

Definition parse_char (c : ascii) (p : Parser) : res Parser :=
  match p_state p with
  | NUMS => case_NUMS c p
  | NUM0 => case_NUM0 c p
  | NUM1 => case_NUM1 c p
  | FRC0 => case_FRC0 c p
  | FRC1 => case_FRC1 c p
  | EXPE => case_EXPE c p
  | EXPS => case_EXPS c p
  | EXP0 => case_EXP0 c p
  | EXP1 => case_EXP1 c p
  end.

Fixpoint parse_chars (s : string) (p : Parser) : res Parser :=
  match s with
  | EmptyString => Ok p
  | String c s' => p ← parse_char c p; parse_chars s' p
  end.

(** The exponent is subtracted from the scale. *)
Definition parse_end (p : Parser) : res BigNumber :=
  scale ← (if p_expsign p then
             let scale := i16 (p_scale p + p_scaleinc p) in
             _ ← check_that (negb (scale <? p_scale p)) out_of_range; Ok scale
           else
             let scale := i16 (p_scale p - p_scaleinc p) in
             _ ← check_that (negb (p_scale p <? scale)) out_of_range; Ok scale);
  match p_digits p with
  | [] => Ok (mkBigNumber 0 false [])
  | _ => Ok (mkBigNumber scale (p_sign p) (p_digits p))
  end.

Fixpoint skip_leading_zeros (s : string) : string :=
  match s with
  | String c s' => if (c =? "0")%char then skip_leading_zeros s' else s
  | EmptyString => EmptyString
  end.

Definition parse_start (room : nat) : Parser := mkParser NUMS 0 false [] room 0 0 false.

Definition constructor (val : string) : res BigNumber :=
  let rest := skip_leading_zeros val in
  let valsize := String.length rest in
  if (valsize =? 0)%nat then Ok (mkBigNumber 0 false [])
  else
    _ ← check_that (Z.of_nat valsize <=? 65535) BadAlloc;
    p ← parse_chars rest (parse_start valsize);
    parse_end p.

Definition constructor_uint (val : Z) : res BigNumber := constructor (tostring_cast_uint val).
Definition constructor_int (val : Z) : res BigNumber :=
  s ← tostring_cast_int val; constructor s.

(** ** Validity and comparison *)

Definition isvalid (x : BigNumber) : bool :=
  (if (bn_size x =? 0) then (bn_scale x =? 0) && negb (bn_sign x) else true) &&
  forallb (fun d => d <=? 9) (bn_digits x).

(** The comparison of the common digits. *)
Fixpoint compare_digits (nn : nat) (d1 d2 : list Z) (smaller bigger : Z) : option Z :=
  match nn, d1, d2 with
  | S nn', a :: d1', b :: d2' =>
      if a =? b then compare_digits nn' d1' d2' smaller bigger
      else Some (if a <? b then smaller else bigger)
  | _, _, _ => None
  end.

(** The rest of the digits is read from the number that is shorter, behind its end. *)
Fixpoint compare_rest (restsize ii : nat) (rest : list Z) (diff : Z) : res Z :=
  match restsize with
  | O => Ok 0
  | S n' =>
      match rest !! ii with
      | None => Throw (Undefined "array access out of bounds")
      | Some d => if d =? 0 then compare_rest n' (S ii) rest diff else Ok diff
      end
  end.

Definition compare (x o : BigNumber) : res Z :=
  if negb (Bool.eqb (bn_sign x) (bn_sign o)) then Ok (if bn_sign x then -1 else 1)
  else
    let smaller := if bn_sign x then 1 else -1 in
    let bigger := if bn_sign x then -1 else 1 in
    let rt := (bn_size x - bn_scale x) - (bn_size o - bn_scale o) in
    if rt <? 0 then Ok smaller
    else if 0 <? rt then Ok bigger
    else
      let size := length (bn_digits x) in
      let osize := length (bn_digits o) in
      let '(nn, rest, restsize, resrestdiff) :=
        if (size <? osize)%nat then (size, drop size (bn_digits x), (osize - size)%nat, bigger)
        else (osize, drop osize (bn_digits o), (size - osize)%nat, smaller) in
      match compare_digits nn (bn_digits x) (bn_digits o) smaller bigger with
      | Some r => Ok r
      | None => compare_rest restsize 0 rest resrestdiff
      end.

(** ** Safety of the parser *)

(** The digits parsed so far are decimal, and there is room for as many as there are
    characters left. *)
Definition parser_ok (left : nat) (p : Parser) : Prop :=
  digits_ok (p_digits p) /\ (length (p_digits p) + left <= p_room p)%nat /\
  - 2 ^ 15 <= p_scale p < 2 ^ 15 /\ 0 <= p_prev_scaleinc p <= p_scaleinc p /\ p_scaleinc p < 2 ^ 15.

(** The computation does nothing undefined and its result satisfies [Q]. *)
Definition safe {A} (Q : A -> Prop) (r : res A) : Prop :=
  match r with
  | Ok a => Q a
  | Throw (Undefined _) => False
  | Throw _ => True
  | OutOfFuel => False
  end.

Lemma safe_bind {A B} (Q : A -> Prop) (R : B -> Prop) (m : res A) (f : A -> res B) :
  safe Q m -> (forall a, Q a -> safe R (f a)) -> safe R (m ≫= f).
Proof. intros Hm Hf. destruct m as [a|e|]; cbn in *; [by apply Hf|done|done]. Qed.

Lemma safe_mono {A} (Q R : A -> Prop) m : (forall a, Q a -> R a) -> safe Q m -> safe R m.
Proof. intros H. destruct m as [a|[]|]; cbn; auto. Qed.

Lemma swrap16_range x : - 2 ^ 15 <= i16 x < 2 ^ 15.
Proof.
  unfold swrap. change (16 - 1) with 15. pose proof (Z.mod_pos_bound (x + 2 ^ 15) (2 ^ 16) ltac:(lia)). lia.
Qed.

Lemma digit_of_range c : is_digit c = true -> 0 <= digit_of c <= 9.
Proof. unfold is_digit, digit_of. rewrite andb_true_iff, !Z.leb_le. lia. Qed.

Section parser_safety.
Context (left : nat).
Implicit Types p : Parser.

Let pre p := parser_ok (S left) p.
Let post p := parser_ok left p.

Lemma pre_post p : pre p -> post p.
Proof. intros (? & ? & ?). split; [done|]. split; [lia|done]. Qed.

Lemma set_state_ok n s p : parser_ok n p -> parser_ok n (set_state s p).
Proof. done. Qed.

Lemma inc_scale_ok n p : parser_ok n p -> parser_ok n (inc_scale p).
Proof. intros (? & ? & ? & ?). split; [done|]. split; [done|]. split; [apply swrap16_range|done]. Qed.

Lemma push_digit_ok c p : is_digit c = true -> pre p -> safe post (push_digit c p).
Proof.
  intros Hc (Hd & Hl & Hr). unfold push_digit. destruct (Nat.ltb_spec (length (p_digits p)) (p_room p)); [|lia].
  cbn. split; [|split; [|done]]; cbn [p_digits p_room].
  - apply Forall_app. split; [done|]. constructor; [by apply digit_of_range|done].
  - rewrite length_app. cbn. lia.
Qed.

Lemma case_NUM1_ok c p : pre p -> safe post (case_NUM1 c p).
Proof.
  intros Hp. unfold case_NUM1. destruct (is_digit c) eqn:Hc; [by apply push_digit_ok|].
  destruct (c =? ".")%char; cbn; by apply set_state_ok, pre_post.
Qed.

Lemma case_NUM0_ok c p : pre p -> safe post (case_NUM0 c p).
Proof.
  intros Hp. unfold case_NUM0. destruct (c =? "0")%char; [by apply pre_post|].
  by apply case_NUM1_ok.
Qed.

Lemma case_NUMS_ok c p : pre p -> safe post (case_NUMS c p).
Proof.
  intros Hp. unfold case_NUMS. destruct (c =? "-")%char; [by apply pre_post|].
  destruct (c =? "+")%char; [by apply pre_post|]. by apply case_NUM0_ok.
Qed.

Lemma case_EXPE_ok c p : pre p -> safe post (case_EXPE c p).
Proof.
  intros Hp. unfold case_EXPE. destruct (c =? " ")%char; [by apply pre_post|].
  destruct (c =? "E")%char; [by apply pre_post|done].
Qed.

Lemma case_FRC1_ok c p : pre p -> safe post (case_FRC1 c p).
Proof.
  intros Hp. unfold case_FRC1. destruct (is_digit c) eqn:Hc; [|by apply case_EXPE_ok].
  eapply safe_bind; [by apply push_digit_ok|]. intros q Hq. by apply inc_scale_ok.
Qed.

Lemma case_FRC0_ok c p : pre p -> safe post (case_FRC0 c p).
Proof.
  intros Hp. unfold case_FRC0. destruct (c =? "0")%char; [by apply inc_scale_ok, pre_post|].
  by apply case_FRC1_ok.
Qed.

Lemma case_EXP1_ok c p : pre p -> safe post (case_EXP1 c p).
Proof.
  intros Hp. unfold case_EXP1. destruct (is_digit c) eqn:Hc; [|done].
  destruct Hp as (Hd & Hl & Hs & Hi & Hi').
  pose proof (swrap16_range (p_scaleinc p * 10 + digit_of c)).
  set (si := i16 _) in *. destruct (Z.ltb_spec si (p_prev_scaleinc p)); [done|].
  cbn. split; [done|]. split; [cbn; lia|]. split; [done|]. cbn. lia.
Qed.

Lemma case_EXP0_ok c p : pre p -> safe post (case_EXP0 c p).
Proof.
  intros Hp. unfold case_EXP0. destruct (c =? "0")%char; [by apply pre_post|]. by apply case_EXP1_ok.
Qed.

Lemma case_EXPS_ok c p : pre p -> safe post (case_EXPS c p).
Proof.
  intros Hp. unfold case_EXPS. destruct (c =? "-")%char; [by apply pre_post|].
  destruct (c =? "+")%char; [by apply pre_post|]. by apply case_EXP0_ok.
Qed.

Lemma parse_char_ok c p : pre p -> safe post (parse_char c p).
Proof.
  unfold parse_char. destruct (p_state p);
    [apply case_NUMS_ok|apply case_NUM0_ok|apply case_NUM1_ok|apply case_FRC0_ok|apply case_FRC1_ok
    |apply case_EXPE_ok|apply case_EXPS_ok|apply case_EXP0_ok|apply case_EXP1_ok].
Qed.
End parser_safety.

Lemma parse_chars_ok s : forall p,
  parser_ok (String.length s) p -> safe (parser_ok 0) (parse_chars s p).
Proof.
  induction s as [|c s IH]; intros p Hp; cbn [parse_chars]; [done|].
  eapply safe_bind; [by apply parse_char_ok|]. apply IH.
Qed.

(** A number in the representation the code promises. *)
Definition bn_ok (x : BigNumber) : Prop :=
  digits_ok (bn_digits x) /\ - 2 ^ 15 <= bn_scale x < 2 ^ 15 /\ isvalid x = true.

Lemma isvalid_digits d ds sc sg :
  digits_ok (d :: ds) -> isvalid (mkBigNumber sc sg (d :: ds)) = true.
Proof.
  intros Hd. unfold isvalid, bn_size. cbn [bn_digits length]. rewrite Nat2Z.inj_succ.
  destruct (Z.eqb_spec (Z.succ (Z.of_nat (length ds))) 0); [lia|]. cbn [andb].
  apply forallb_forall. intros e He. apply Z.leb_le.
  eapply Forall_forall in Hd; [apply Hd|]. by apply list_elem_of_In.
Qed.

Lemma parse_end_ok p : parser_ok 0 p -> safe bn_ok (parse_end p).
Proof.
  intros (Hd & _ & Hs & Hi & Hi'). unfold parse_end.
  apply (safe_bind (fun scale => - 2 ^ 15 <= scale < 2 ^ 15)).
  { destruct (p_expsign p);
      (eapply (safe_bind (fun _ => True)); [|intros [] _; apply swrap16_range]);
      unfold check_that; destruct (negb _); done. }
  intros scale Hsc. destruct (p_digits p) as [|d ds] eqn:E.
  - cbn. split; [constructor|]. split; [cbn; lia|done].
  - cbn. split; [done|]. split; [done|]. by apply isvalid_digits.
Qed.


(** ** Integer conversions *)

(** No number with digits converts to an integer: the loop adds the first digit again
    and again until the value overflows, and throws; only the number without digits, zero,
    converts. *)
Theorem toint_fails x :
  digits_ok (bn_digits x) ->
  touint x =
    (if bn_sign x then Throw (RuntimeError "conversion error: negative bcd number to unsigned integer")
     else if negb (bn_scale x =? 0) then
       Throw (RuntimeError "conversion error: bcd number with fraction to unsigned integer")
     else if bool_decide (bn_digits x = []) then Ok 0 else Throw too_big_for_uint) /\
  (bn_digits x <> [] -> forall v, toint x <> Ok v).
Proof.
  intros Hd.
  assert (bn_digits x <> [] -> touint_loop touint_fuel x 0 0 0 = Throw too_big_for_uint) as Hl.
  { intros Hn. destruct x as [sc sg [|d ds]]; [done|]. cbn [bn_digits] in *.
    apply Forall_cons in Hd as [Hd _].
    assert (d = 0 \/ d = 1 \/ d = 2 \/ d = 3 \/ d = 4 \/ d = 5 \/ d = 6 \/ d = 7 \/ d = 8 \/ d = 9)
      as Hc by lia.
    repeat destruct Hc as [->|Hc]; try subst d; vm_compute; reflexivity. }
  assert (touint x = if bn_sign x then Throw (RuntimeError "conversion error: negative bcd number to unsigned integer")
     else if negb (bn_scale x =? 0) then
       Throw (RuntimeError "conversion error: bcd number with fraction to unsigned integer")
     else if bool_decide (bn_digits x = []) then Ok 0 else Throw too_big_for_uint) as Ht.
  { unfold touint. destruct (bn_sign x); [done|]. cbn [negb check_that mbind res_bind].
    destruct (bn_scale x =? 0); [|done]. cbn [negb check_that mbind res_bind].
    destruct (bn_digits x) as [|d ds] eqn:E.
    - unfold touint_fuel. cbn [touint_loop]. rewrite E. done.
    - rewrite Hl by done. done. }
  split; [exact Ht|]. intros Hn v. unfold toint. rewrite Ht.
  destruct (bn_sign x); [done|]. destruct (negb (bn_scale x =? 0)); [done|].
  rewrite bool_decide_eq_false_2 by done. done.
Qed.

Lemma toint_fails_witness : ~ exists v, toint (mkBigNumber 0 false [7]) = Ok v.
Proof.
  destruct (toint_fails (mkBigNumber 0 false [7])) as [_ H]; [repeat constructor; lia|].
  intros [v Hv]. exact (H ltac:(discriminate) v Hv).
Defined.

(** ** Comparison *)

(** The value, in units of 10^-[k]. *)
Definition bn_value (k : Z) (x : BigNumber) : Z :=
  (if bn_sign x then -1 else 1) * digits_val (bn_digits x) * 10 ^ (k - bn_scale x).

(** The first digit is not zero. *)
Definition significant (x : BigNumber) : Prop :=
  match bn_digits x with d :: _ => d <> 0 | [] => False end.

Lemma digits_val_bound ds : digits_ok ds -> 0 <= digits_val ds < 10 ^ Z.of_nat (length ds).
Proof.
  intros Hd. unfold digits_val. pose proof (dec_bounds (rev ds) ltac:(by apply Forall_rev)) as Hb.
  by rewrite length_rev in Hb.
Qed.

Lemma digits_val_cons d ds :
  digits_val (d :: ds) = d * 10 ^ Z.of_nat (length ds) + digits_val ds.
Proof. unfold digits_val. cbn [rev]. rewrite dec_app, length_rev. cbn [dec]. lia. Qed.

Lemma significant_bound x :
  digits_ok (bn_digits x) -> significant x -> 10 ^ (bn_size x - 1) <= digits_val (bn_digits x).
Proof.
  unfold significant, bn_size. destruct (bn_digits x) as [|d ds]; [done|]. intros Hd Hs.
  apply Forall_cons in Hd as [Hd1 Hd]. rewrite digits_val_cons. cbn [length].
  pose proof (digits_val_bound ds Hd). replace (Z.of_nat (S (length ds)) - 1) with (Z.of_nat (length ds)) by lia.
  assert (0 < 10 ^ Z.of_nat (length ds)) by lia. nia.
Qed.

(** The comparison of the common digits decides between numbers of the same length. *)
Lemma compare_digits_val sm bg : forall d1 d2,
  length d1 = length d2 -> digits_ok d1 -> digits_ok d2 ->
  compare_digits (length d1) d1 d2 sm bg =
  match digits_val d1 ?= digits_val d2 with Eq => None | Lt => Some sm | Gt => Some bg end.
Proof.
  induction d1 as [|a d1 IH]; intros [|b d2] Hl H1 H2; try discriminate Hl; [done|].
  apply Forall_cons in H1 as [Ha H1], H2 as [Hb H2]. cbn [compare_digits length].
  rewrite !digits_val_cons. assert (length d1 = length d2) as Hl' by (cbn in Hl; lia). rewrite Hl'.
  pose proof (digits_val_bound d1 H1) as B1. pose proof (digits_val_bound d2 H2) as B2. rewrite Hl' in B1.
  set (P := 10 ^ Z.of_nat (length d2)) in *. assert (0 < P) by (unfold P; lia).
  destruct (Z.eqb_spec a b) as [->|Hne].
  - rewrite <- Hl', IH by done. by rewrite Zcompare_plus_compat.
  - destruct (Z.ltb_spec a b).
    + replace (_ ?= _) with Lt; [done|]. symmetry. apply Z.compare_lt_iff. nia.
    + replace (_ ?= _) with Gt; [done|]. symmetry. apply Z.compare_gt_iff. nia.
Qed.

(** The common digits of numbers of different length agree. *)
Fixpoint agree (d1 d2 : list Z) : bool :=
  match d1, d2 with
  | a :: d1', b :: d2' => (a =? b) && agree d1' d2'
  | _, _ => true
  end.

Lemma compare_digits_agree sm bg : forall d1 d2,
  agree d1 d2 = true -> compare_digits (Nat.min (length d1) (length d2)) d1 d2 sm bg = None.
Proof.
  induction d1 as [|a d1 IH]; intros [|b d2] Ha; try done. cbn in Ha |- *.
  apply andb_true_iff in Ha as [-> Ha]. by apply IH.
Qed.

(** The magnitude of a number with leading digits at a higher place is bigger. *)
Lemma place_bound x y k :
  digits_ok (bn_digits x) -> digits_ok (bn_digits y) -> significant y ->
  bn_scale x <= k -> bn_scale y <= k -> bn_size x - bn_scale x < bn_size y - bn_scale y ->
  digits_val (bn_digits x) * 10 ^ (k - bn_scale x) < digits_val (bn_digits y) * 10 ^ (k - bn_scale y).
Proof.
  intros Hx Hy Hs Hkx Hky Hlt. pose proof (significant_bound y Hy Hs) as By.
  pose proof (digits_val_bound _ Hx) as Bx. fold (bn_size x) in Bx.
  assert (0 < bn_size y) by (unfold bn_size, significant in *; destruct (bn_digits y); cbn; [done|lia]).
  assert (0 <= bn_size x) by (unfold bn_size; lia).
  apply Z.lt_le_trans with (10 ^ bn_size x * 10 ^ (k - bn_scale x)).
  { assert (0 < 10 ^ (k - bn_scale x)) by (apply Z.pow_pos_nonneg; lia). nia. }
  apply Z.le_trans with (10 ^ (bn_size y - 1) * 10 ^ (k - bn_scale y)).
  - rewrite <- !Z.pow_add_r by lia. apply Z.pow_le_mono_r; lia.
  - apply Z.mul_le_mono_nonneg_r; [apply Z.pow_nonneg; lia|done].
Qed.

(** The comparison: two numbers with the same number of digits and a first digit that is
    not zero compare like their values; two numbers with the same sign and leading place
    whose common digits agree, but with a different number of digits (1.5 and 1.50), make
    the comparison read behind the digits of the shorter one. *)
Theorem bignumber_compare x o :
  digits_ok (bn_digits x) -> digits_ok (bn_digits o) -> significant x -> significant o ->
  (bn_size x = bn_size o -> forall k, bn_scale x <= k -> bn_scale o <= k ->
     compare x o = Ok (sgn_compare (bn_value k x) (bn_value k o))) /\
  (bn_size x <> bn_size o -> bn_size x - bn_scale x = bn_size o - bn_scale o ->
   bn_sign x = bn_sign o -> agree (bn_digits x) (bn_digits o) = true ->
     compare x o = Throw (Undefined "array access out of bounds")).
Proof.
  intros Hx Ho Hsx Hso. unfold compare. split.
  - intros Hl k Hkx Hko. unfold bn_value.
    pose proof (significant_bound x Hx Hsx) as Bx. pose proof (significant_bound o Ho Hso) as Bo.
    assert (forall a b, 10 ^ a <= b -> 0 < 10 ^ a -> 0 < b) as Hpos by lia.
    assert (0 < bn_size x) as Hnx by (unfold bn_size, significant in *; destruct (bn_digits x); cbn; [done|lia]).
    assert (0 < digits_val (bn_digits x)) as Px by (eapply Hpos; [exact Bx|apply Z.pow_pos_nonneg; lia]).
    assert (0 < digits_val (bn_digits o)) as Po by (eapply Hpos; [exact Bo|apply Z.pow_pos_nonneg; lia]).
    set (ex := 10 ^ (k - bn_scale x)). set (eo := 10 ^ (k - bn_scale o)).
    assert (0 < ex) by (apply Z.pow_pos_nonneg; lia). assert (0 < eo) by (apply Z.pow_pos_nonneg; lia).
    set (vx := digits_val (bn_digits x)) in *. set (vo := digits_val (bn_digits o)) in *.
    destruct (Bool.eqb (bn_sign x) (bn_sign o)) eqn:Es; cbn [negb].
    2: { destruct (bn_sign x), (bn_sign o); try discriminate Es; [rewrite sgn_lt by nia|rewrite sgn_gt by nia]; done. }
    apply Bool.eqb_prop in Es. rewrite <- Es.
    pose proof (place_bound x o k Hx Ho Hso Hkx Hko) as Pxo. pose proof (place_bound o x k Ho Hx Hsx Hko Hkx) as Pox.
    fold vx vo ex eo in Pxo, Pox.
    destruct (Z.ltb_spec (bn_size x - bn_scale x - (bn_size o - bn_scale o)) 0).
    { specialize (Pxo ltac:(lia)). destruct (bn_sign x); [rewrite sgn_gt by nia|rewrite sgn_lt by nia]; done. }
    destruct (Z.ltb_spec 0 (bn_size x - bn_scale x - (bn_size o - bn_scale o))).
    { specialize (Pox ltac:(lia)). destruct (bn_sign x); [rewrite sgn_lt by nia|rewrite sgn_gt by nia]; done. }
    assert (ex = eo) as Ee by (unfold ex, eo; f_equal; lia).
    assert (length (bn_digits x) = length (bn_digits o)) as Hl' by (unfold bn_size in Hl; lia).
    destruct (Nat.ltb_spec (length (bn_digits x)) (length (bn_digits o))); [lia|].
    rewrite <- Hl', compare_digits_val by done. fold vx vo.
    replace (length (bn_digits x) - length (bn_digits x))%nat with 0%nat by lia. cbn [compare_rest].
    rewrite <- Ee. destruct (Z.compare_spec vx vo) as [->|Hlt|Hlt].
    + destruct (bn_sign x); unfold sgn_compare; rewrite Z.compare_refl; done.
    + destruct (bn_sign x); [rewrite sgn_gt by nia|rewrite sgn_lt by nia]; done.
    + destruct (bn_sign x); [rewrite sgn_lt by nia|rewrite sgn_gt by nia]; done.
  - intros Hne Hpl Hsg Hag. rewrite Hsg, Bool.eqb_reflx. cbn [negb].
    replace (bn_size x - bn_scale x - (bn_size o - bn_scale o)) with 0 by lia. cbn [Z.ltb Z.compare].
    unfold bn_size in Hne. pose proof (compare_digits_agree) as Hc.
    destruct (Nat.ltb_spec (length (bn_digits x)) (length (bn_digits o))).
    + specialize (Hc (if bn_sign o then 1 else -1) (if bn_sign o then -1 else 1) _ _ Hag).
      rewrite Nat.min_l in Hc by lia. rewrite Hc, drop_all.
      destruct (length (bn_digits o) - length (bn_digits x))%nat eqn:E; [lia|]. done.
    + specialize (Hc (if bn_sign o then 1 else -1) (if bn_sign o then -1 else 1) _ _ Hag).
      rewrite Nat.min_r in Hc by lia. rewrite Hc, drop_all.
      destruct (length (bn_digits x) - length (bn_digits o))%nat eqn:E; [lia|]. done.
Qed.

Lemma bignumber_compare_witness :
  compare (mkBigNumber 1 false [1; 5]) (mkBigNumber 2 false [1; 5; 0]) =
  Throw (Undefined "array access out of bounds").
Proof.
  apply (bignumber_compare (mkBigNumber 1 false [1; 5]) (mkBigNumber 2 false [1; 5; 0]));
    try (repeat constructor; lia); try done; cbn; lia.
Defined.

(** ** Printing and parsing *)

Lemma parse_chars_app s1 s2 p :
  parse_chars (s1 +:+ s2)%string p = (q ← parse_chars s1 p; parse_chars s2 q).
Proof.
  revert p. induction s1 as [|c s1 IH]; intros p; [done|].
  change ((String c s1 +:+ s2)%string) with (String c (s1 +:+ s2)%string). cbn [parse_chars].
  destruct (parse_char c p) as [q|e|]; [|done|done]. apply IH.
Qed.

Lemma digit_char_neq d c :
  0 <= d <= 9 -> Z.of_nat (nat_of_ascii c) <> d + 48 -> (digit_char d =? c)%char = false.
Proof. intros Hd Hc. apply Ascii.eqb_neq. intros <-. by rewrite nat_of_digit_char in Hc. Qed.

Lemma digit_char_zero d : 0 <= d <= 9 -> (digit_char d =? "0")%char = (d =? 0).
Proof.
  intros Hd. destruct (Z.eqb_spec d 0) as [->|Hn]; [done|]. apply digit_char_neq; [done|].
  change (Z.of_nat (nat_of_ascii "0")) with 48. lia.
Qed.

Lemma is_digit_ok d : 0 <= d <= 9 -> is_digit (digit_char d) = true /\ digit_of (digit_char d) = d.
Proof. apply is_digit_char. Qed.

Lemma digit_char_sign d : 0 <= d <= 9 -> (digit_char d =? "-")%char = false /\ (digit_char d =? "+")%char = false.
Proof.
  intros Hd. split; apply digit_char_neq; try done;
    [change (Z.of_nat (nat_of_ascii "-")) with 45|change (Z.of_nat (nat_of_ascii "+")) with 43]; lia.
Qed.

(** A parser state with its digits and scale exposed. *)
Definition at_digits (st : State) (sg : bool) (sc : Z) (ds : list Z) (room : nat) : Parser :=
  mkParser st sc sg ds room 0 0 false.

Lemma inc_scale_at st sg sc ds room :
  - 2 ^ 15 <= sc + 1 < 2 ^ 15 ->
  inc_scale (at_digits st sg sc ds room) = at_digits st sg (sc + 1) ds room.
Proof. intros H. unfold inc_scale, at_digits. cbn [p_scale]. by rewrite i16_small. Qed.

Lemma push_digit_at st sg sc ds room d :
  0 <= d <= 9 -> (length ds < room)%nat ->
  push_digit (digit_char d) (at_digits st sg sc ds room) = Ok (at_digits st sg sc (ds ++ [d]) room).
Proof.
  intros Hd Hl. unfold push_digit, at_digits. cbn [p_digits p_room].
  destruct (Nat.ltb_spec (length ds) room); [|lia]. by rewrite (proj2 (is_digit_ok d Hd)).
Qed.

(** Digits in front of the point. *)
Lemma parse_integer_digits sg room es : forall ds,
  digits_ok es -> (length ds + length es <= room)%nat ->
  parse_chars (of_digits es) (at_digits NUM1 sg 0 ds room) = Ok (at_digits NUM1 sg 0 (ds ++ es) room).
Proof.
  induction es as [|e es IH]; intros ds He Hr; cbn [of_digits parse_chars]; [by rewrite app_nil_r|].
  apply Forall_cons in He as [He1 He]. destruct (is_digit_ok e He1) as [Hd Hv]. cbn [length] in Hr.
  unfold parse_char. cbn [p_state at_digits]. unfold case_NUM1. rewrite Hd.
  rewrite push_digit_at by (auto; lia). cbn [mbind res_bind]. rewrite IH, <- app_assoc by (auto; rewrite length_app; cbn; lia). done.
Qed.

(** Digits behind the point; a leading zero is significant behind a significant digit. *)
Lemma parse_fraction_digits sg room es : forall ds sc,
  digits_ok es -> (length ds + length es <= room)%nat ->
  0 <= sc -> sc + Z.of_nat (length es) < 2 ^ 15 ->
  parse_chars (of_digits es) (at_digits FRC1 sg sc ds room) =
  Ok (at_digits FRC1 sg (sc + Z.of_nat (length es)) (ds ++ es) room).
Proof.
  induction es as [|e es IH]; intros ds sc He Hr Hsc Hs; cbn [of_digits parse_chars].
  { cbn [length]. by rewrite app_nil_r, Z.add_0_r. }
  apply Forall_cons in He as [He1 He]. destruct (is_digit_ok e He1) as [Hd Hv]. cbn [length] in Hr, Hs.
  unfold parse_char. cbn [p_state at_digits]. unfold case_FRC1. rewrite Hd.
  rewrite push_digit_at by (auto; lia). cbn [mbind res_bind]. rewrite inc_scale_at by lia.
  rewrite IH, <- app_assoc by (auto; try rewrite length_app; cbn [length]; lia).
  cbn [length app]. do 2 f_equal. lia.
Qed.

Lemma parse_fraction_zeros sg room n : forall sc,
  0 <= sc -> sc + Z.of_nat n < 2 ^ 15 ->
  parse_chars (zeros n) (at_digits FRC0 sg sc [] room) = Ok (at_digits FRC0 sg (sc + Z.of_nat n) [] room).
Proof.
  induction n as [|n IH]; intros sc Hsc Hs; cbn [zeros parse_chars]; [by rewrite Z.add_0_r|].
  change (parse_char "0" (at_digits FRC0 sg sc [] room)) with (Ok (inc_scale (at_digits FRC0 sg sc [] room))).
  cbn [mbind res_bind]. rewrite inc_scale_at by lia.
  rewrite IH by lia. do 2 f_equal. lia.
Qed.

(** The first significant digit behind the point. *)
Lemma parse_first_fraction sg room d es sc :
  digits_ok (d :: es) -> d <> 0 -> (length (d :: es) <= room)%nat ->
  0 <= sc -> sc + Z.of_nat (length (d :: es)) < 2 ^ 15 ->
  parse_chars (of_digits (d :: es)) (at_digits FRC0 sg sc [] room) =
  Ok (at_digits FRC1 sg (sc + Z.of_nat (length (d :: es))) (d :: es) room).
Proof.
  intros Hd Hd0 Hr Hsc Hs. rewrite <- (app_nil_l (d :: es)) at 3.
  rewrite <- parse_fraction_digits by done. cbn [of_digits parse_chars].
  apply Forall_cons in Hd as [Hd1 _].
  unfold parse_char. cbn [p_state at_digits]. unfold case_FRC0. rewrite digit_char_zero by done.
  destruct (Z.eqb_spec d 0); [done|]. reflexivity.
Qed.

(** The sign and the first digit in front of the point. *)
Lemma parse_first_integer st sg room d es :
  digits_ok (d :: es) -> d <> 0 -> (length (d :: es) <= room)%nat -> st = NUMS \/ st = NUM0 ->
  parse_chars (of_digits (d :: es)) (at_digits st sg 0 [] room) =
  Ok (at_digits NUM1 sg 0 (d :: es) room).
Proof.
  intros Hd Hd0 Hr Hst. change (d :: es) with ([] ++ d :: es) at 2.
  rewrite <- parse_integer_digits by done. cbn [of_digits parse_chars].
  apply Forall_cons in Hd as [Hd1 _]. destruct (digit_char_sign d Hd1) as [Em Ep].
  assert (case_NUM0 (digit_char d) (at_digits NUM0 sg 0 [] room) =
          parse_char (digit_char d) (at_digits NUM1 sg 0 [] room)) as H0.
  { unfold case_NUM0. rewrite digit_char_zero by done. destruct (Z.eqb_spec d 0); done. }
  destruct Hst as [->| ->].
  - rewrite <- H0. unfold parse_char. cbn [p_state at_digits]. unfold case_NUMS. rewrite Em, Ep. done.
  - by rewrite <- H0.
Qed.

Lemma parse_end_at st sg sc d ds room :
  - 2 ^ 15 <= sc < 2 ^ 15 -> parse_end (at_digits st sg sc (d :: ds) room) = Ok (mkBigNumber sc sg (d :: ds)).
Proof.
  intros Hsc. unfold parse_end, at_digits. cbn [p_expsign p_scale p_scaleinc p_digits p_sign].
  rewrite Z.sub_0_r, i16_small by lia. destruct (Z.ltb_spec sc sc); [lia|]. done.
Qed.

(** The three forms a number with a scale that is not negative prints in. *)
Definition printed (sg : bool) (sc : nat) (ds : list Z) : string :=
  let s := (if sg then "-" else "")%string in
  let size := length ds in
  (if (sc =? 0)%nat then s +:+ of_digits ds
   else if (size <=? sc)%nat then s +:+ "0." +:+ zeros (sc - size) +:+ of_digits ds
   else s +:+ of_digits (take (size - sc) ds) +:+ "." +:+ of_digits (drop (size - sc) ds))%string.

Lemma print_digits_ok ds : digits_ok ds -> forall n ofs, (ofs + n <= length ds)%nat ->
  print_digits ds ofs n = Ok (of_digits (take n (drop ofs ds))).
Proof.
  intros Hd. induction n as [|n IH]; intros ofs Hl; cbn [print_digits]; [done|].
  destruct (lookup_lt_is_Some_2 ds ofs ltac:(lia)) as [d Hd'].
  unfold print_digit. rewrite Hd'. cbn [mbind res_bind]. rewrite IH by lia. cbn [mbind res_bind].
  rewrite (drop_S ds d ofs) by done. cbn [take firstn of_digits]. unfold digit_char.
  assert (0 <= d <= 9) by (eapply (Forall_lookup_1 _ _ _ _ Hd Hd')). by rewrite wrap_small by lia.
Qed.

Lemma string_app_nil s : (s +:+ "")%string = s.
Proof. induction s as [|c s IH]; [done|]. change ((String c s +:+ "")%string) with (String c (s +:+ "")%string). by rewrite IH. Qed.

Lemma tostring_printed sg sc ds :
  digits_ok ds -> ds <> [] -> tostring (mkBigNumber (Z.of_nat sc) sg ds) = Ok (printed sg sc ds).
Proof.
  intros Hd Hn. unfold tostring, numtostring, printed, bn_size. cbn [bn_sign bn_digits bn_scale].
  assert (0 < length ds)%nat by (destruct ds; [done|cbn; lia]).
  destruct (Z.eqb_spec (Z.of_nat (length ds)) 0); [lia|].
  rewrite Nat2Z.id, Z.abs_eq, Nat2Z.id by lia.
  pose proof (print_digits_ok ds Hd) as Hp.
  destruct (Z.eqb_spec (Z.of_nat sc) 0), (Nat.eqb_spec sc 0); try lia.
  { rewrite Hp, drop_0, firstn_all by lia. done. }
  destruct (Z.ltb_spec 0 (Z.of_nat sc)); [|lia].
  destruct (Z.leb_spec (Z.of_nat (length ds)) (Z.of_nat sc)), (Nat.leb_spec (length ds) sc); try lia.
  - rewrite Hp, drop_0, firstn_all by lia. cbn [mbind res_bind Z.eqb]. by rewrite string_app_nil.
  - rewrite !Hp, drop_0 by lia. cbn [mbind res_bind Z.eqb]. rewrite string_app_nil.
    rewrite (take_ge (drop _ _)) by (rewrite length_drop; lia). done.
Qed.

Lemma length_of_digits ds : String.length (of_digits ds) = length ds.
Proof. induction ds as [|d ds IH]; cbn; [done|by rewrite IH]. Qed.

Lemma length_zeros n : String.length (zeros n) = n.
Proof. induction n as [|n IH]; cbn; [done|by rewrite IH]. Qed.

Lemma length_string_app s t : String.length (s +:+ t)%string = (String.length s + String.length t)%nat.
Proof.
  induction s as [|c s IH]; [done|]. change ((String c s +:+ t)%string) with (String c (s +:+ t)%string).
  cbn [String.length]. by rewrite IH.
Qed.

Lemma skip_zeros_digit d s : 0 <= d <= 9 -> d <> 0 ->
  skip_leading_zeros (String (digit_char d) s) = String (digit_char d) s.
Proof.
  intros Hd Hd0. cbn [skip_leading_zeros]. rewrite digit_char_zero by done.
  destruct (Z.eqb_spec d 0); [done|done].
Qed.

(** A string whose parse is known. *)
Lemma constructor_parsed s rest p x :
  skip_leading_zeros s = rest -> (0 < String.length rest)%nat -> Z.of_nat (String.length rest) <= 65535 ->
  parse_chars rest (parse_start (String.length rest)) = Ok p -> parse_end p = Ok x ->
  constructor s = Ok x.
Proof.
  intros Hs Hn Hl Hp He. unfold constructor. rewrite Hs.
  destruct (Nat.eqb_spec (String.length rest) 0); [lia|].
  destruct (Z.leb_spec (Z.of_nat (String.length rest)) 65535); [|lia].
  cbn [check_that mbind res_bind]. rewrite Hp. exact He.
Qed.

Lemma take_digits_cons n (d : Z) (es : list Z) : (0 < n)%nat -> exists es', take n (d :: es) = d :: es'.
Proof. intros Hn. destruct n as [|n]; [lia|]. by exists (take n es). Qed.

(** The digits behind the sign, in the states in which a number may begin. *)
Section parse_printed.
Context (st : State) (sg : bool) (room sc : nat) (d : Z) (es : list Z).
Context (Hst : st = NUMS \/ st = NUM0) (Hd : digits_ok (d :: es)) (Hd0 : d <> 0)
        (Hroom : (length (d :: es) <= room)%nat) (Hsc : Z.of_nat sc < 2 ^ 15).
Set Default Proof Using "All".

Lemma parse_printed_integer :
  parse_chars (of_digits (d :: es)) (at_digits st sg 0 [] room) = Ok (at_digits NUM1 sg 0 (d :: es) room).
Proof. by apply parse_first_integer. Qed.

Lemma parse_printed_mixed :
  (sc <> 0)%nat -> (sc < length (d :: es))%nat ->
  parse_chars (of_digits (take (length (d :: es) - sc) (d :: es)) +:+ "." +:+
    of_digits (drop (length (d :: es) - sc) (d :: es)))%string (at_digits st sg 0 [] room) =
  Ok (at_digits FRC1 sg (Z.of_nat sc) (d :: es) room).
Proof.
  intros Hsc0 Hlt. rewrite parse_chars_app. set (n := (length (d :: es) - sc)%nat).
  destruct (take_digits_cons n d es) as [es' E]; [unfold n; lia|].
  assert (digits_ok (take n (d :: es))) as Ht by (by apply Forall_take).
  assert (digits_ok (drop n (d :: es))) as Hdr by (by apply Forall_drop).
  assert (length (take n (d :: es)) = n) as Hl by (rewrite length_take; unfold n; lia).
  assert (length (drop n (d :: es)) = sc) as Hl' by (rewrite length_drop; unfold n; lia).
  rewrite E in Ht, Hl |- *. rewrite parse_first_integer by (auto; unfold n in Hl; lia). cbn [mbind res_bind].
  change (("." +:+ of_digits (drop n (d :: es)))%string) with (String "." (of_digits (drop n (d :: es)))).
  cbn [parse_chars].
  change (parse_char "." (at_digits NUM1 sg 0 (d :: es') room)) with (Ok (at_digits FRC1 sg 0 (d :: es') room)).
  cbn [mbind res_bind]. rewrite parse_fraction_digits by (auto; rewrite ?Hl, ?Hl'; unfold n in *; lia).
  rewrite <- E, take_drop, Hl'. done.
Qed.

Lemma parse_printed_fraction :
  (length (d :: es) <= sc)%nat ->
  parse_chars (String "." (zeros (sc - length (d :: es)) +:+ of_digits (d :: es)))%string
    (at_digits st sg 0 [] room) =
  Ok (at_digits FRC1 sg (Z.of_nat sc) (d :: es) room).
Proof.
  intros Hle. cbn [parse_chars].
  replace (parse_char "." (at_digits st sg 0 [] room)) with (Ok (at_digits FRC0 sg 0 [] room))
    by (destruct Hst as [->| ->]; reflexivity).
  cbn [mbind res_bind]. rewrite parse_chars_app, parse_fraction_zeros by lia. cbn [mbind res_bind].
  rewrite parse_first_fraction by (auto; lia). do 2 f_equal. lia.
Qed.
End parse_printed.



(** Behind digits without a point the parser skips one character, whatever it is: a
    number followed by any other character is read as the number, and the "E" of an exponent
    is skipped, so that every exponent directly behind such digits is a syntax error. *)
Theorem integer_trailing_char d es c :
  digits_ok (d :: es) -> d <> 0 -> Z.of_nat (length (d :: es)) < 65000 ->
  is_digit c = false -> c <> "."%char ->
  constructor (of_digits (d :: es) +:+ String c "")%string = Ok (mkBigNumber 0 false (d :: es)) /\
  (forall e s, is_digit e = true -> Z.of_nat (String.length s) < 500 ->
     constructor (of_digits (d :: es) +:+ String c (String e s))%string = Throw syntax_error).
Proof.
  intros Hd Hd0 Hl Hc Hdot. set (ds := d :: es) in *.
  pose proof Hd as Hd2. apply Forall_cons in Hd2 as [Hd1 _].
  assert (0 < length ds)%nat by (unfold ds; cbn; lia).
  assert (forall t, Z.of_nat (String.length t) <= 501 -> exists room,
    constructor (of_digits ds +:+ String c t)%string =
    (p ← parse_chars t (at_digits EXPE false 0 ds room); parse_end p)) as Hgen.
  { intros t Ht. exists (length ds + S (String.length t))%nat. unfold constructor.
    assert (skip_leading_zeros (of_digits ds +:+ String c t)%string = (of_digits ds +:+ String c t)%string) as ->
      by (by apply skip_zeros_digit).
    rewrite length_string_app, length_of_digits. cbn [String.length].
    destruct (Nat.eqb_spec (length ds + S (String.length t)) 0); [lia|].
    destruct (Z.leb_spec (Z.of_nat (length ds + S (String.length t))) 65535); [|lia].
    cbn [check_that mbind res_bind]. rewrite parse_chars_app.
    change (parse_start ?n) with (at_digits NUMS false 0 [] n).
    pose proof (parse_first_integer NUMS false (length ds + S (String.length t)) d es Hd Hd0
      ltac:(fold ds; lia) ltac:(auto)) as Hp.
    fold ds in Hp. rewrite Hp. cbn [mbind res_bind parse_chars].
    unfold parse_char at 1. cbn [p_state at_digits]. unfold case_NUM1. rewrite Hc.
    apply Ascii.eqb_neq in Hdot. rewrite Hdot. reflexivity. }
  split.
  - destruct (Hgen EmptyString) as [room ->]; [cbn; lia|]. cbn [parse_chars mbind res_bind].
    by apply parse_end_at.
  - intros e s He Hs. destruct (Hgen (String e s)) as [room ->]; [cbn [String.length]; lia|].
    cbn [parse_chars]. unfold parse_char at 1. cbn [p_state at_digits]. unfold case_EXPE.
    assert ((e =? " ")%char = false /\ (e =? "E")%char = false) as [-> ->]; [|done].
    split; apply Ascii.eqb_neq; intros ->; discriminate He.
Qed.

Lemma integer_trailing_char_witness :
  constructor "12x" = Ok (mkBigNumber 0 false [1; 2]) /\ constructor "12E5" = Throw syntax_error.
Proof.
  assert (digits_ok [1; 2]) as Hd by concrete_digits.
  change "12x"%string with (of_digits [1; 2] +:+ String "x" "")%string.
  change "12E5"%string with (of_digits [1; 2] +:+ String "E" (String "5" ""))%string.
  assert (Z.of_nat (length [1; 2]) < 65000) as Hl by (cbn; lia).
  split.
  - refine (proj1 (integer_trailing_char 1 [2] "x"%char Hd _ Hl _ _)); [lia|reflexivity|discriminate].
  - refine (proj2 (integer_trailing_char 1 [2] "E"%char Hd _ Hl _ _) "5"%char "" _ _);
      [lia|reflexivity|discriminate|reflexivity|cbn; lia].
Defined.
