(* ===== verification/BigFxp.v ===== *)
(** * Fixed point numbers

    Models src/modules/datatype/bcdnumber/fxpArithmetic.cpp: an integer of arbitrary size
    ([m_bcd]) and the number of its digits that are right of the point ([m_scale], an
    unsigned int).  The division is not modelled. *)
From S2P Require Import Prelude Decimal Variant BcdWord BigBCD BigBCDArith BigBCDDigits.
From S2P Require Import BigBCDMul BigBCDInit Conversions BigNum.

Record BigFxpBCD := mkFxp { m_bcd : BigBCD; m_scale : Z }.

Definition with_bcd (b : BigBCD) (x : BigFxpBCD) : BigFxpBCD := mkFxp b (m_scale x).

(** [BigBCD::init( const std::string&)] *)
Definition init_string (str : string) : res BigBCD :=
  bn ← constructor str; init_BigNumber bn.

(** The shift for a precision below the scale is computed, but its result is dropped. *)
Definition initFromNumber (bn : BigNumber) : res BigFxpBCD :=
  if 0 <? bn_scale bn then
    b ← init_BigNumber (mkBigNumber 0 (bn_sign bn) (bn_digits bn));
    _ ← (if bn_size bn <? bn_scale bn then digits_shift b (bn_scale bn - bn_size bn) else Ok b);
    Ok (mkFxp b (bn_scale bn))
  else if bn_scale bn <? 0 then
    b ← init_BigNumber bn;
    _ ← digits_shift b (- bn_scale bn);
    Ok (mkFxp b 0)
  else
    b ← init_BigNumber bn;
    Ok (mkFxp b 0).

Definition illegal_value (numstr : string) : exn :=
  RuntimeError ("illegal big number value '" +:+ numstr +:+ "'")%string.

(** The loop over the characters: the digits copied to [val] and the number [cpn] of those
    behind the point; [state] is 1 behind the point. *)
Fixpoint scan_number (numstr s : string) (state cpn : Z) : res (string * Z) :=
  match s with
  | EmptyString => Ok (EmptyString, cpn)
  | String c s' =>
      if (c =? ".")%char then
        _ ← check_that (state =? 0) (RuntimeError "illegal big number syntax");
        scan_number numstr s' 1 cpn
      else if is_digit c then
        r ← scan_number numstr s' state (if state =? 1 then u32 (cpn + 1) else cpn);
        Ok (String c r.1, r.2)
      else Throw (illegal_value numstr)
  end.

Definition initFromString (numstr : string) : res BigFxpBCD :=
  match numstr with
  | EmptyString => Throw (Undefined "end iterator dereferenced")
  | String c s =>
      r ← (if (c =? "-")%char then r ← scan_number numstr s 0 0; Ok (String "-" r.1, r.2)
           else scan_number numstr numstr 0 0);
      b ← init_string r.1;
      Ok (mkFxp b r.2)
  end.

(** The assignment from an integer. *)
Definition assign_int (o : Z) : res BigFxpBCD := b ← init_INTEGER o; Ok (mkFxp b 0).

(** The loops of [tostring]: characters of at most [n] digits, and the iterator and the
    count reached. *)
Fixpoint push_digits (n : nat) (x : BigBCD) (it : const_iterator) (kk : nat)
  : res (string * const_iterator * nat) :=
  match n with
  | O => Ok (EmptyString, it, kk)
  | S n' =>
      if bool_decide (it = it_end) then Ok (EmptyString, it, kk)
      else
        d ← it_digit x it;
        r ← push_digits n' x (it_increment it) (S kk);
        Ok (String (digit_char d) r.1.1, r.1.2, r.2)
  end.

Definition fxp_tostring (x : BigFxpBCD) : res string :=
  it ← it_begin (m_bcd x);
  let kk := it_size it in
  let scale := Z.to_nat (m_scale x) in
  if (kk =? 0)%nat then Ok "0"%string
  else
    let sg := (if m_sign (m_bcd x) then "-" else "")%string in
    r1 ← (if (kk =? scale)%nat then Ok ("0"%string, it, kk)
          else push_digits (kk - scale) (m_bcd x) it 0);
    let pt := (if (0 <? scale)%nat then "." else "")%string in
    r2 ← push_digits scale (m_bcd x) r1.1.2 0;
    Ok (sg +:+ r1.1.1 +:+ pt +:+ r2.1.1 +:+ zeros (scale - r2.2))%string.

(** The difference of two scales, as the int the code passes on. *)
Definition scale_diff (a b : Z) : Z := i32 (a - b).

Definition setScale (scale_ : Z) (x : BigFxpBCD) : res BigFxpBCD :=
  if negb (scale_ =? m_scale x) then
    b ← digits_shift (m_bcd x) (scale_diff scale_ (m_scale x)); Ok (mkFxp b scale_)
  else Ok x.

Definition format (scale_ : Z) (x : BigFxpBCD) : res BigFxpBCD := setScale scale_ x.

(** The operands brought to the bigger one of the scales. *)
Definition aligned (x o : BigFxpBCD) : res (BigBCD * BigBCD * Z) :=
  if m_scale o =? m_scale x then Ok (m_bcd x, m_bcd o, m_scale x)
  else if m_scale o <? m_scale x then
    b ← digits_shift (m_bcd o) (scale_diff (m_scale x) (m_scale o)); Ok (m_bcd x, b, m_scale x)
  else
    a ← digits_shift (m_bcd x) (scale_diff (m_scale o) (m_scale x)); Ok (a, m_bcd o, m_scale o).

Definition fxp_compare (x o : BigFxpBCD) : res Z :=
  '(a, b, _) ← aligned x o; BigBCD.compare a b.

Definition fxp_add (x o : BigFxpBCD) : res BigFxpBCD :=
  '(a, b, s) ← aligned x o; r ← BigBCD.add a b; Ok (mkFxp r s).

Definition fxp_sub (x o : BigFxpBCD) : res BigFxpBCD :=
  '(a, b, s) ← aligned x o; r ← BigBCD.sub a b; Ok (mkFxp r s).

(** The sum with an integer is computed, but not stored. *)
Definition fxp_add_int (x : BigFxpBCD) (opr : Z) : res BigFxpBCD :=
  arg ← init_INTEGER opr;
  a ← digits_shift arg (i32 (m_scale x));
  _ ← BigBCD.add (m_bcd x) a;
  Ok x.

Definition fxp_sub_int (x : BigFxpBCD) (opr : Z) : res BigFxpBCD :=
  arg ← init_INTEGER opr;
  a ← digits_shift arg (i32 (m_scale x));
  _ ← BigBCD.sub (m_bcd x) a;
  Ok x.

Definition fxp_mul (x o : BigFxpBCD) : res BigFxpBCD :=
  val ← mul (m_bcd x) (m_bcd o); Ok (mkFxp val (u32 (m_scale x + m_scale o))).

Definition fxp_mul_int (x : BigFxpBCD) (opr : Z) : res BigFxpBCD :=
  val ← mul_int (m_bcd x) opr; Ok (mkFxp val (m_scale x)).

Definition fxp_neg (x : BigFxpBCD) : res BigFxpBCD :=
  b ← invert_sign (m_bcd x); Ok (with_bcd b x).

(** [bool sign()] converts the character '-' or '+': it is always true. *)
Definition fxp_sign (x : BigFxpBCD) : bool := negb ((if m_sign (m_bcd x) then 45 else 43) =? 0).

Definition fxp_round (fuel : nat) (x gran : BigFxpBCD) : res BigFxpBCD :=
  aa ← (if negb (m_scale gran =? m_scale x)
        then digits_shift (m_bcd x) (scale_diff (m_scale gran) (m_scale x)) else Ok (m_bcd x));
  r ← round fuel aa (m_bcd gran);
  Ok (mkFxp r (m_scale gran)).

(** ** Lemmas *)

(** A well formed fixed point number. *)
Definition fxp_ok (x : BigFxpBCD) : Prop :=
  big_ok (m_bcd x) /\ normal (m_bcd x) /\ 0 <= m_scale x < 2 ^ 31.

(** The value in units of 10^-[k]. *)
Definition fxp_num (k : Z) (x : BigFxpBCD) : Z := num (m_bcd x) * 10 ^ (k - m_scale x).

Lemma shift_up_num b n :
  big_ok b -> 0 <= n ->
  exists r, digits_shift b n = Ok r /\ big_ok r /\ normal r /\ num r = num b * 10 ^ n.
Proof.
  intros Hb Hn. destruct (digits_shift_spec b n Hb ltac:(lia)) as (r & Hr & Ho & Hnr & Hm & Hs).
  exists r. split; [exact Hr|]. split; [exact Ho|]. split; [exact Hnr|].
  destruct (Z.leb_spec 0 n); [|lia]. unfold num, signed. rewrite Hs, Hm.
  destruct (Z.eqb_spec (mag b * 10 ^ n) 0) as [E|]; cbn [negb andb]; [|destruct (m_sign b); lia].
  rewrite E. assert (0 < 10 ^ n) by (apply Z.pow_pos_nonneg; lia).
  assert (mag b = 0) as -> by nia. destruct (m_sign b); lia.
Qed.

Lemma aligned_spec x o :
  fxp_ok x -> fxp_ok o ->
  exists a b, aligned x o = Ok (a, b, Z.max (m_scale x) (m_scale o)) /\
    big_ok a /\ normal a /\ big_ok b /\ normal b /\
    num a = fxp_num (Z.max (m_scale x) (m_scale o)) x /\
    num b = fxp_num (Z.max (m_scale x) (m_scale o)) o.
Proof.
  intros (Hx & Hnx & Hsx) (Ho & Hno & Hso). unfold aligned, fxp_num, scale_diff.
  destruct (Z.eqb_spec (m_scale o) (m_scale x)) as [E|]; [|destruct (Z.ltb_spec (m_scale o) (m_scale x))].
  - exists (m_bcd x), (m_bcd o). rewrite E, Z.max_id, Z.sub_diag, Z.pow_0_r, !Z.mul_1_r. done.
  - rewrite i32_small by lia.
    destruct (shift_up_num (m_bcd o) (m_scale x - m_scale o) Ho ltac:(lia)) as (b & -> & ? & ? & Hb).
    exists (m_bcd x), b. rewrite Z.max_l by lia. cbn [mbind res_bind].
    rewrite Z.sub_diag, Z.pow_0_r, Z.mul_1_r. done.
  - rewrite i32_small by lia.
    destruct (shift_up_num (m_bcd x) (m_scale o - m_scale x) Hx ltac:(lia)) as (b & -> & ? & ? & Hb).
    exists b, (m_bcd o). rewrite Z.max_r by lia. cbn [mbind res_bind].
    rewrite Z.sub_diag, Z.pow_0_r, Z.mul_1_r. done.
Qed.

(** The digits pushed from an iterator position. *)
Lemma push_digits_spec x n : forall p kk,
  big_ok x -> (p <= m_size x * NumDigits)%nat ->
  push_digits n x (it_at p) kk =
  Ok (of_digits (take n (rev (take p (digits x)))), it_at (p - n), (kk + Nat.min n p)%nat).
Proof.
  induction n as [|n IH]; intros p kk Hx Hp; cbn [push_digits].
  { rewrite Nat.sub_0_r, Nat.add_0_r. done. }
  rewrite it_at_end_dec. destruct p as [|q].
  { rewrite take_0. cbn [Nat.eqb rev take firstn of_digits Nat.sub Nat.min]. by rewrite Nat.add_0_r. }
  change (S q =? 0)%nat with false. destruct (digits_spec x Hx) as (Hd & Hl & _).
  rewrite it_digit_at by (auto; lia). cbn [mbind res_bind].
  rewrite it_increment_at, IH by (auto; lia). cbn [mbind res_bind fst snd].
  rewrite (take_S_nth 0 q), rev_app_distr by lia. cbn [rev app firstn of_digits Nat.sub Nat.min].
  do 2 f_equal. lia.
Qed.

(** ** Properties *)



(** Printing of fixed point numbers: with at least as many digits as the scale the point
    is put in front of the last [scale] digits ("0." if there are no others); with fewer
    digits the missing zeros are printed behind the digits instead of in front of them. *)
Theorem fxp_tostring_forms x :
  fxp_ok x -> mag (m_bcd x) <> 0 -> 0 < m_scale x ->
  let sg := (if m_sign (m_bcd x) then "-" else "")%string in
  let ds := rev (take (len (m_bcd x)) (digits (m_bcd x))) in
  let n := length ds in
  let s := Z.to_nat (m_scale x) in
  digits_val ds = mag (m_bcd x) /\
  fxp_tostring x = Ok
    (sg +:+ (if (n <? s)%nat then "." +:+ of_digits ds +:+ zeros (s - n)
             else (if (n =? s)%nat then "0" else of_digits (take (n - s) ds)) +:+ "." +:+
                  of_digits (drop (n - s) ds)))%string.
Proof.
  intros (Hx & Hnx & Hsx) Hm Hs sg ds n s.
  assert (len (m_bcd x) <> 0%nat) as Hl by (by rewrite len_zero).
  pose proof (len_le (m_bcd x)) as Hle. destruct (digits_spec (m_bcd x) Hx) as (Hd & Hld & _).
  assert (n = len (m_bcd x)) as Hn by (unfold n, ds; rewrite length_rev, length_take; lia).
  split.
  { unfold digits_val, ds. rewrite rev_involutive. by apply dec_take_len. }
  assert (forall p, (p <= len (m_bcd x))%nat ->
    rev (take p (digits (m_bcd x))) = drop (len (m_bcd x) - p) ds) as Hdrop.
  { intros p Hp. unfold ds. rewrite <- (take_drop p (take (len (m_bcd x)) (digits (m_bcd x)))), rev_app_distr.
    rewrite take_take, Nat.min_l by lia. rewrite drop_app_ge by (rewrite length_rev, length_drop, length_take; lia).
    rewrite length_rev, length_drop, length_take.
    replace (len (m_bcd x) - p - (len (m_bcd x) `min` length (digits (m_bcd x)) - p))%nat with 0%nat by lia. done. }
  unfold fxp_tostring. rewrite it_begin_spec by done. cbn [mbind res_bind].
  rewrite it_size_at. fold s sg. destruct (Nat.eqb_spec (len (m_bcd x)) 0); [lia|].
  assert (0 < s)%nat as Hs' by (unfold s; lia). destruct (Nat.ltb_spec 0 s); [|lia].
  destruct (Nat.eqb_spec (len (m_bcd x)) s) as [E|E].
  - cbn [mbind res_bind fst snd]. rewrite push_digits_spec by (auto; lia). cbn [mbind res_bind fst snd].
    rewrite Hdrop by lia. rewrite Hn, E, Nat.sub_diag, drop_0, Nat.min_id.
    destruct (Nat.ltb_spec s s); [lia|]. rewrite Nat.eqb_refl.
    rewrite take_ge by (fold n; lia). rewrite Nat.add_0_l, Nat.sub_diag. cbn [zeros]. by rewrite string_app_nil.
  - rewrite push_digits_spec by (auto; lia). cbn [mbind res_bind fst snd].
    rewrite push_digits_spec by (auto; lia). cbn [mbind res_bind fst snd].
    rewrite !Hdrop by lia. rewrite Nat.sub_diag, drop_0, Hn.
    destruct (Nat.ltb_spec (len (m_bcd x)) s).
    + replace (len (m_bcd x) - s)%nat with 0%nat by lia. rewrite Nat.sub_0_r, Nat.sub_diag, drop_0, take_0.
      rewrite take_ge by (fold n; lia). rewrite Nat.min_r by lia. done.
    + destruct (Nat.eqb_spec (len (m_bcd x)) s); [lia|].
      replace (len (m_bcd x) - (len (m_bcd x) - (len (m_bcd x) - s)))%nat with (len (m_bcd x) - s)%nat by lia.
      rewrite (take_ge (drop _ _)) by (rewrite length_drop; fold n; lia).
      replace (s - (0 + s `min` (len (m_bcd x) - (len (m_bcd x) - s))))%nat with 0%nat by lia.
      cbn [zeros]. by rewrite string_app_nil.
Qed.

(** 0.05 is printed as ".50". *)
Lemma fxp_tostring_forms_witness : fxp_tostring (mkFxp (small 0x5) 2) = Ok ".50"%string.
Proof.
  destruct (small_ok 0x5 eq_refl ltac:(lia)) as [Ho Hn].
  destruct (fxp_tostring_forms (mkFxp (small 0x5) 2)) as [_ ->];
    [split; [exact Ho|split; [exact Hn|cbn; lia]]|vm_compute; congruence|cbn; lia|].
  vm_compute. reflexivity.
Defined.

(** Adding or subtracting an integer leaves a fixed point number as it is, whatever the
    integer: the result of the addition is thrown away. *)
Theorem fxp_int_operators x opr :
  fxp_ok x -> - 2 ^ 63 < opr < 2 ^ 63 ->
  fxp_add_int x opr = Ok x /\ fxp_sub_int x opr = Ok x.
Proof.
  intros (Hx & Hnx & Hsx) Hopr. unfold fxp_add_int, fxp_sub_int.
  destruct (init_INTEGER_spec opr Hopr) as (arg & -> & Harg & _ & _). cbn [mbind res_bind].
  rewrite i32_small by lia.
  destruct (shift_up_num arg (m_scale x) Harg ltac:(lia)) as (a & -> & Ha & Hna & _).
  cbn [mbind res_bind].
  destruct (subtraction_value _ _ _ (rep_self _ Hx Hnx) (rep_self a Ha Hna) eq_refl) as (rs & Hrs & _).
  destruct (rep_add BigBCD_null _ _ _ _ _ _ (rep_self _ Hx Hnx) (rep_self a Ha Hna)) as (ra & Hra & _);
    [intros; apply rep_null|].
  unfold BigBCD.add, BigBCD.sub. rewrite Hrs, Hra. by destruct (Bool.eqb _ _).
Qed.

Lemma fxp_int_operators_witness : fxp_add_int (mkFxp (small 0x12) 1) 1000 = Ok (mkFxp (small 0x12) 1).
Proof.
  destruct (small_ok 0x12 eq_refl ltac:(lia)) as [Ho Hn].
  apply (fxp_int_operators (mkFxp (small 0x12) 1) 1000); [split; [exact Ho|split; [exact Hn|cbn; lia]]|lia].
Defined.
