(* ===== verification/IoBlocks.v ===== *)
(** * Network message blocks

    Models src/modules/protocol/wolframe/ioblocks.hpp and ioblocks.cpp: memory blocks with a
    cursor, the printing to an output block, the automaton that escapes a dot at the start of
    a line, the automaton that recognises the end of data and takes the escapes away again,
    and the two functions that do the same on strings.

    A block is the list of its bytes, as many as its allocation has, and the cursor.  A
    write or a read outside of the allocation is [Undefined]. *)
From S2P Require Import Prelude Decimal.

Module Mem.

Record t := mk { m_ptr : list ascii; m_pos : nat }.

Definition size (b : t) : nat := length (m_ptr b).
Definition setPos (p : nat) (b : t) : t := mk (m_ptr b) p.
Definition set (ptr : list ascii) : t := mk ptr 0.
Definition restsize (b : t) : nat := if (m_pos b <? size b)%nat then size b - m_pos b else 0.
Definition incr (n : nat) (b : t) : t :=
  if (size b <=? m_pos b + n)%nat then setPos (size b) b else setPos (m_pos b + n) b.

(** Reading and writing the memory. *)
Definition load (mem : list ascii) (i : nat) : res ascii :=
  match mem !! i with Some c => Ok c | None => Throw (Undefined "read outside of the block") end.
Definition store (mem : list ascii) (i : nat) (c : ascii) : res (list ascii) :=
  if (i <? length mem)%nat then Ok (<[i := c]> mem) else Throw (Undefined "write outside of the block").
Definition store_block (mem : list ascii) (i : nat) (s : list ascii) : res (list ascii) :=
  if (i + length s <=? length mem)%nat then Ok (take i mem ++ s ++ drop (i + length s) mem)
  else Throw (Undefined "write outside of the block").

(** The access operator checks the index against the cursor. *)
Definition get (b : t) (idx : nat) : res ascii :=
  _ ← check_that (idx <? m_pos b)%nat (LogicError "ABR"); load (m_ptr b) idx.

End Mem.

(** ** Output blocks *)

Module OutputBlock.
Import Mem.

Definition empty (b : t) : bool := (m_pos b =? 0)%nat.
Definition release (b : t) : t := setPos 0 b.

Definition print_char (ch : ascii) (b : t) : res (t * bool) :=
  if (m_pos b =? size b)%nat then Ok (b, false)
  else mem ← store (m_ptr b) (m_pos b) ch; Ok (mk mem (m_pos b + 1), true).

(** The size left, an unsigned difference. *)
Definition restsize (b : t) : Z := u64 (Z.of_nat (size b) - Z.of_nat (m_pos b)).

Definition print (p : list ascii) (b : t) : res (t * bool) :=
  if restsize b <? Z.of_nat (length p) then Ok (b, false)
  else mem ← store_block (m_ptr b) (m_pos b) p; Ok (mk mem (m_pos b + length p), true).

(** A C string ends with its first zero. *)
Fixpoint strlen_prefix (pp : list ascii) : list ascii :=
  match pp with
  | [] => []
  | c :: pp' => if (c =? "000")%char then [] else c :: strlen_prefix pp'
  end.
Definition print_cstr (pp : list ascii) (b : t) : res (t * bool) := print (strlen_prefix pp) b.

Definition incPos (nn : nat) (b : t) : t * bool :=
  if (size b <? m_pos b + nn)%nat then (b, false) else (setPos (m_pos b + nn) b, true).

(** The digits of a number, written from the end of a buffer of 64 characters. *)
Fixpoint number_digits (fuel : nat) (num : Z) (nn : list ascii) : res (list ascii) :=
  if 0 <? num then
    match fuel with
    | O => Throw (Undefined "write in front of the digit buffer")
    | S fuel' => number_digits fuel' (num / 10) (digit_char (num mod 10) :: nn)
    end
  else Ok nn.

Definition number_text (num : Z) : res (list ascii) :=
  let nn0 := if num =? 0 then ["0"%char] else [] in
  if i32 num <? 0 then
    _ ← check_that (negb (i32 num =? - 2 ^ 31)) (Undefined "signed integer overflow");
    nn ← number_digits 63 (u32 (- i32 num)) nn0; Ok ("-"%char :: nn)
  else number_digits (64 - length nn0) num nn0.

Definition printNumber (num : Z) (b : t) : res (t * bool) :=
  nn ← number_text num; print nn b.

End OutputBlock.

(** ** Escaping of a dot at the start of a line *)

Module EscapeSTM.
Import Mem.

Inductive State := SRC | LF | LFdot.
#[global] Instance State_eq_dec : EqDecision State.
Proof. solve_decision. Defined.

Record t := mk {
  m_state : State;
  m_output : Mem.t;
  m_blk : list ascii;
  m_blkpos : nat
}.

Definition init : t := mk SRC (Mem.mk [] 0) [] 0.
Definition setNextBlock (output : Mem.t) (blk : list ascii) (m : t) : t :=
  mk (m_state m) output blk 0.
Definition hasMore (m : t) : bool := (m_blkpos m <? length (m_blk m))%nat.

Definition set_state (st : State) (m : t) : t := mk st (m_output m) (m_blk m) (m_blkpos m).
Definition set_output (o : Mem.t) (m : t) : t := mk (m_state m) o (m_blk m) (m_blkpos m).
Definition advance (m : t) : t := mk (m_state m) (m_output m) (m_blk m) (m_blkpos m + 1).

(** [print ch k m] is [if (!m_output->print( ch)) return;] followed by [k]; the boolean
    tells whether the loop goes on. *)
Definition print (ch : ascii) (m : t) (k : t -> res (t * bool)) : res (t * bool) :=
  '(o, ok) ← OutputBlock.print_char ch (m_output m);
  if ok : bool then k (set_output o m) else Ok (set_output o m, false).

(** The case [LFdot], also the end of the case [LF]. *)
Definition case_LFdot (ch : ascii) (m : t) : res (t * bool) :=
  if (ch =? ".")%char then print "." (set_state LFdot m) (fun m => Ok (advance (set_state SRC m), true))
  else if negb (ch =? "010")%char then Ok (advance (set_state SRC m), true)
  else Ok (advance m, true).

Definition step (ch : ascii) (m : t) : res (t * bool) :=
  match m_state m with
  | SRC => print ch m (fun m =>
             if (ch =? "010")%char then Ok (advance (set_state LF m), true) else Ok (advance m, true))
  | LF => print ch m (case_LFdot ch)
  | LFdot => case_LFdot ch m
  end.

(** The loop; every iteration that goes on consumes a character of the block. *)
Fixpoint loop (n : nat) (m : t) : res t :=
  match n with
  | O => Ok m
  | S n' =>
      ch ← load (m_blk m) (m_blkpos m);
      '(m', more) ← step ch m;
      if more : bool then loop n' m' else Ok m'
  end.

Definition process (m : t) : res t := loop (length (m_blk m) - m_blkpos m) m.

End EscapeSTM.

(** ** The same on strings *)

Definition behind_end {A} : res A := Throw (Undefined "string iterator behind the end").

(** After a line feed the iterator is advanced twice, also if the line feed is the last
    character: then it passes the end of the string. *)
Fixpoint escapeStringDLF (src : list ascii) : res (list ascii) :=
  match src with
  | [] => Ok []
  | c :: src' =>
      if (c =? "010")%char then
        match src' with
        | [] => behind_end
        | d :: src'' =>
            rt ← escapeStringDLF src'';
            Ok (c :: d :: (if (d =? ".")%char then "."%char :: rt else rt))
        end
      else rt ← escapeStringDLF src'; Ok (c :: rt)
  end.

(** The part behind "\n.": end of data, or the iterator and the buffer from where the
    loop goes on.  The result is the buffer and the position of the end of data in it. *)
Definition after_dot (si buf : list ascii) : res (list ascii * list ascii + list ascii * nat) :=
  let idx := length buf in
  match si with
  | [] => behind_end
  | c :: si' =>
      let '(si, buf) := if (c =? "013")%char then (si', buf ++ ["013"%char]) else (si, buf) in
      match si with
      | [] => behind_end
      | c :: si' => if (c =? "010")%char then Ok (inr (buf ++ si, idx)) else Ok (inl (si', buf ++ [c]))
      end
  end.

(** Every iteration consumes a character of the source. *)
Fixpoint unescape_loop (fuel : nat) (si buf : list ascii) : res (list ascii * nat) :=
  match fuel with
  | O => OutOfFuel
  | S fuel' =>
      match si with
      | [] => Ok (buf, length buf)
      | c :: si1 =>
          let buf := buf ++ [c] in
          if (c =? "010")%char then
            match si1 with
            | [] => behind_end
            | d :: si2 =>
                if (d =? ".")%char then
                  r ← after_dot si2 buf;
                  match r with
                  | inr r => Ok r
                  | inl (si, buf) => unescape_loop fuel' si buf
                  end
                else unescape_loop fuel' si2 (buf ++ [d])
            end
          else unescape_loop fuel' si1 buf
      end
  end.

Definition unescapeStringDLF (src buf : list ascii) : res (list ascii * nat) :=
  unescape_loop (S (length src)) src buf.

(** ** End of data in input blocks *)

Module InputBlock.
Import Mem.

Inductive EoD := SRC | CR | CR_LF | CR_LF_DOT | CR_LF_DOT_CR | CR_LF_DOT_CR_LF.
#[global] Instance EoD_eq_dec : EqDecision EoD.
Proof. solve_decision. Defined.

Record t := mk {
  m_mem : Mem.t;
  m_nextpos : nat;
  m_eodState : EoD;
  m_eodcharbuf : list ascii
}.

Definition make (mem : Mem.t) : t := mk mem 0 SRC [].
Definition set_pos (p : nat) (b : t) : t :=
  mk (Mem.setPos p (m_mem b)) (m_nextpos b) (m_eodState b) (m_eodcharbuf b).

(** The owner of the memory writes a chunk into it. *)
Definition write (i : nat) (chunk : list ascii) (b : t) : t :=
  let mem := m_ptr (m_mem b) in
  mk (Mem.mk (take i mem ++ chunk ++ drop (i + length chunk) mem) (m_pos (m_mem b)))
    (m_nextpos b) (m_eodState b) (m_eodcharbuf b).

(** Buffer::append( cc, nn) on the buffer of 8 characters. *)
Definition buffer_append (buf cc : list ascii) : list ascii := buf ++ take (8 - length buf) cc.

Definition gotEoD (b : t) : bool := bool_decide (m_eodState b = CR_LF_DOT_CR_LF).

Definition skipEoD (b : t) : t * Z :=
  if gotEoD b then (mk (m_mem b) (m_nextpos b) SRC (m_eodcharbuf b), i32 (Z.of_nat (m_nextpos b)))
  else (b, -1).

(** The position and size of the memory to read the next message into. *)
Definition getNetworkMessageRead (b : t) : t * option (nat * nat) :=
  let k := length (m_eodcharbuf b) in
  if (size (m_mem b) <=? k)%nat then (b, None)
  else
    let mem := Mem.mk (m_eodcharbuf b ++ drop k (m_ptr (m_mem b))) k in
    (mk mem (m_nextpos b) (m_eodState b) [], Some (k, size (m_mem b) - k)%nat).

(** [*cpbuf++ = *ibuf++], [n] times. *)
Fixpoint copy_chars (n : nat) (buf : list ascii) (cp ib : nat) : res (list ascii) :=
  match n with
  | O => Ok buf
  | S n' => c ← load buf ib; buf ← store buf cp c; copy_chars n' buf (cp + 1) (ib + 1)
  end.

(** [dpos] is the position behind the last deleted character, where ibuf points; the
    number of characters copied before the next one is an unsigned difference. *)
Fixpoint remove_loop (first : bool) (delchrs : list nat) (buf : list ascii) (cp dpos : nat)
    : res (list ascii * nat * nat) :=
  match delchrs with
  | [] => Ok (buf, cp, dpos)
  | d :: ds =>
      _ ← check_that (negb ((d <=? dpos)%nat && negb first))
            (LogicError "illegal state in getEoDpos (params remove_chars_from_buf)");
      let nn := Z.to_nat (u64 (Z.of_nat d - Z.of_nat dpos)) in
      buf ← copy_chars nn buf cp dpos;
      remove_loop false ds buf (cp + nn) (d + 1)
  end.

Definition remove_chars_from_buf (buf : list ascii) (bufsize : nat) (delchrs : list nat) : res (list ascii) :=
  match delchrs with
  | [] => Ok buf
  | _ =>
      '(buf, cp, dpos) ← remove_loop true delchrs buf 0 0;
      let nn := Z.to_nat (u64 (Z.of_nat bufsize - Z.of_nat dpos)) in
      buf ← copy_chars nn buf cp dpos;
      _ ← check_that (dpos - cp =? length delchrs)%nat
            (LogicError "illegal state in getEoDpos (consistency remove_chars_from_buf)");
      Ok buf
  end.

(** The variables of the scan: the state of the automaton, the positions of the dots to
    delete, the end of the source and the characters read since (ecb). *)
Record scan := mkScan {
  s_state : EoD;
  delchrs : list nat;
  srcendpos : nat;
  ecb : list ascii
}.

(** [ecb[ eci++] = c] on an array of 8 characters. *)
Definition ecb_push (c : ascii) (s : scan) : res scan :=
  _ ← check_that (length (ecb s) <? 8)%nat (Undefined "end of data buffer overrun");
  Ok (mkScan (s_state s) (delchrs s) (srcendpos s) (ecb s ++ [c])).

Definition set_state (st : EoD) (s : scan) : scan := mkScan st (delchrs s) (srcendpos s) (ecb s).
(** Content again; a new possible end of the source; a dot to delete. *)
Definition content (s : scan) : scan := mkScan SRC (delchrs s) (srcendpos s) [].
Definition restart (st : EoD) (bufpos : nat) (c : ascii) (s : scan) : scan :=
  mkScan st (delchrs s) bufpos [c].
Definition delete (bufpos : nat) (s : scan) : scan :=
  mkScan (s_state s) (delchrs s ++ [bufpos]) (srcendpos s) (ecb s).

(** One character; [true] for the end of data. *)
Definition scan_char (bufpos : nat) (c : ascii) (s : scan) : res (scan * bool) :=
  let cr := (c =? "013")%char in
  let lf := (c =? "010")%char in
  match s_state s with
  | SRC =>
      if cr then Ok (restart CR bufpos c s, false)
      else if lf then Ok (restart CR_LF bufpos c s, false)
      else Ok (s, false)
  | CR =>
      if lf then s ← ecb_push c s; Ok (set_state CR_LF s, false)
      else if cr then Ok (restart CR bufpos c s, false)
      else Ok (content s, false)
  | CR_LF =>
      if (c =? ".")%char then s ← ecb_push c s; Ok (delete bufpos (set_state CR_LF_DOT s), false)
      else if lf then Ok (restart CR_LF bufpos c s, false)
      else if cr then Ok (restart CR bufpos c s, false)
      else Ok (content s, false)
  | CR_LF_DOT =>
      if cr then s ← ecb_push c s; Ok (set_state CR_LF_DOT_CR s, false)
      else if lf then Ok (set_state CR_LF_DOT_CR_LF s, true)
      else Ok (content s, false)
  | CR_LF_DOT_CR =>
      if lf then Ok (set_state CR_LF_DOT_CR_LF s, true)
      else if cr then Ok (restart CR bufpos c s, false)
      else Ok (content s, false)
  | CR_LF_DOT_CR_LF => Throw (LogicError "getEoDpos called after getting eoD")
  end.

(** The loop, and the position where it ended. *)
Fixpoint scan_loop (n : nat) (buf : list ascii) (bufpos : nat) (s : scan) : res (scan * nat * bool) :=
  match n with
  | O => Ok (s, bufpos, false)
  | S n' =>
      c ← load buf bufpos;
      '(s, eod) ← scan_char bufpos c s;
      if eod : bool then Ok (s, bufpos, true) else scan_loop n' buf (bufpos + 1) s
  end.

(** A size_t computed with wrap-around. *)
Definition size_t (z : Z) : nat := Z.to_nat (u64 z).

(** The position of the end of data, or -1, an int in the code. *)
Definition getEoDpos (offset : nat) (b : t) : res (t * Z) :=
  let bufsize := m_pos (m_mem b) in
  if (bufsize <=? offset)%nat then Ok (b, -1)
  else
    '(s, bufpos, eod) ← scan_loop (bufsize - offset) (m_ptr (m_mem b)) offset
                          (mkScan (m_eodState b) [] bufsize []);
    let nd := Z.of_nat (length (delchrs s)) in
    buf ← remove_chars_from_buf (m_ptr (m_mem b)) bufsize (delchrs s);
    if eod : bool then
      Ok (mk (Mem.mk buf (size_t (Z.of_nat bufsize - nd))) (size_t (Z.of_nat bufpos - nd + 1))
             (s_state s) (m_eodcharbuf b),
          i32 (Z.of_nat (srcendpos s) - nd + 1))
    else
      let '(srcend, st, ecbuf) :=
        if decide (s_state s = SRC) then (bufpos, SRC, m_eodcharbuf b)
        else (srcendpos s, SRC, buffer_append [] (ecb s)) in
      let p :=
        match last (delchrs s) with
        | None => srcend
        | Some d => if (srcend <=? d)%nat then size_t (Z.of_nat srcend - nd + 1)
                    else size_t (Z.of_nat srcend - nd)
        end in
      Ok (mk (Mem.mk buf p) (m_nextpos b) st ecbuf, -1).

(** Start to end of data or to the end of the block. *)
Definition getEoD (start : nat) (b : t) : res (t * nat) :=
  '(b, eodpos) ← getEoDpos start b;
  Ok (b, if 0 <=? eodpos then Z.to_nat eodpos else m_pos (m_mem b)).

End InputBlock.
