(* ===== verification/IoBlocksEscape.v ===== *)
(** * The escaping of network output

    The escape a message gets on the network, and that the automaton of the output and the
    function on strings of ioblocks.cpp produce it. *)
From S2P Require Import Prelude Decimal IoBlocks.
Import Mem.

Abbreviation LFc := "010"%char.
Abbreviation CRc := "013"%char.
Abbreviation dot := "."%char.

(** ** Specification *)

(** A dot behind a line feed is doubled; [p] is the character in front of the text. *)
Fixpoint escape (p : ascii) (s : list ascii) : list ascii :=
  match s with
  | [] => []
  | c :: s' => if (c =? dot)%char && (p =? LFc)%char then c :: c :: escape c s' else c :: escape c s'
  end.

(** Only whether the character in front is a line feed matters. *)
Lemma escape_prev p q s : (p =? LFc)%char = (q =? LFc)%char -> escape p s = escape q s.
Proof. destruct s as [|c s]; intros H; cbn; [done|]. by rewrite H. Qed.

(** The character in front of what follows a text. *)
Definition last_char (p : ascii) (s : list ascii) : ascii := default p (last s).

Lemma last_char_cons p c s : last_char p (c :: s) = last_char c s.
Proof. unfold last_char. rewrite last_cons. by destruct (last s). Qed.

Lemma escape_app s1 : forall p s2, escape p (s1 ++ s2) = escape p s1 ++ escape (last_char p s1) s2.
Proof.
  induction s1 as [|c s1 IH]; intros p s2; cbn [app escape]; [done|].
  rewrite IH, last_char_cons. by destruct (_ && _).
Qed.

Lemma last_char_LF p q s :
  (p =? LFc)%char = (q =? LFc)%char -> (last_char p s =? LFc)%char = (last_char q s =? LFc)%char.
Proof. destruct s as [|c s]; [done|]. by rewrite !last_char_cons. Qed.

(** ** Output blocks *)

(** The block after [s] was printed to it, if it has room. *)
Definition emit (o : Mem.t) (s : list ascii) : Mem.t :=
  Mem.mk (take (m_pos o) (m_ptr o) ++ s ++ drop (m_pos o + length s) (m_ptr o)) (m_pos o + length s).

Definition free (o : Mem.t) : nat := size o - m_pos o.

Definition block_wf (o : Mem.t) : Prop := (m_pos o <= size o)%nat.

(** What was printed since the cursor was at [p]. *)
Definition printed (p : nat) (o : Mem.t) : list ascii := drop p (take (m_pos o) (m_ptr o)).

Lemma size_emit o s : (m_pos o + length s <= size o)%nat -> size (emit o s) = size o.
Proof. unfold size, emit. cbn. rewrite !length_app, length_take, length_drop. lia. Qed.

Lemma emit_nil o : emit o [] = o.
Proof. destruct o as [p i]. unfold emit. cbn. rewrite Nat.add_0_r, take_drop. done. Qed.

Lemma emit_emit o s1 s2 :
  (m_pos o + length s1 <= size o)%nat -> emit (emit o s1) s2 = emit o (s1 ++ s2).
Proof.
  unfold size. intros Hs. unfold emit. cbn. rewrite length_app, Nat.add_assoc. f_equal.
  assert (length (take (m_pos o) (m_ptr o)) = m_pos o) as Hl by (rewrite length_take; lia).
  set (a := take (m_pos o) (m_ptr o)) in *. rewrite !(app_assoc a), (take_app_length' (a ++ s1)) by (rewrite length_app; lia).
  rewrite (drop_app_ge (a ++ s1)), drop_drop, length_app by (rewrite length_app; lia).
  rewrite <- !app_assoc. do 4 f_equal. lia.
Qed.

Lemma printed_emit o s : block_wf o -> printed (m_pos o) (emit o s) = s.
Proof.
  unfold block_wf, size. intros Hw. unfold printed, emit. cbn.
  assert (length (take (m_pos o) (m_ptr o)) = m_pos o) as Hl by (rewrite length_take; lia).
  set (a := take (m_pos o) (m_ptr o)) in *. rewrite app_assoc, (take_app_length' (a ++ s)) by (rewrite length_app; lia).
  by rewrite drop_app_length'.
Qed.

Lemma free_emit o s : (length s <= free o)%nat -> block_wf o -> free (emit o s) = (free o - length s)%nat /\ block_wf (emit o s).
Proof.
  unfold free, block_wf. intros Hs Hw. rewrite !size_emit by lia. cbn. lia.
Qed.

Lemma print_char_ok o c :
  block_wf o ->
  OutputBlock.print_char c o = Ok (if decide (free o = 0%nat) then (o, false) else (emit o [c], true)).
Proof.
  unfold block_wf, free, OutputBlock.print_char. intros Hw.
  destruct (Nat.eqb_spec (m_pos o) (size o)) as [He|He].
  { rewrite decide_True by lia. done. }
  rewrite decide_False by lia. unfold store. unfold size in *.
  destruct (Nat.ltb_spec (m_pos o) (length (m_ptr o))) as [_|]; [|lia]. cbn.
  unfold emit. rewrite insert_take_drop by lia. cbn [length app]. by rewrite Nat.add_1_r.
Qed.

(** Printing a text prints all of it or, without enough room, nothing. *)
Lemma print_ok o s :
  block_wf o -> Z.of_nat (size o) < 2 ^ 64 ->
  OutputBlock.print s o = Ok (if decide (length s <= free o)%nat then (emit o s, true) else (o, false)).
Proof.
  unfold block_wf, free, OutputBlock.print, OutputBlock.restsize. intros Hw Hb.
  rewrite wrap_small by lia. destruct (Z.ltb_spec (Z.of_nat (size o) - Z.of_nat (m_pos o)) (Z.of_nat (length s))).
  { rewrite decide_False by lia. done. }
  rewrite decide_True by lia. unfold store_block, size in *.
  destruct (Nat.leb_spec (m_pos o + length s) (length (m_ptr o))); [done|lia].
Qed.

(** ** The automaton *)

Module Escaping.
Import EscapeSTM.

(** What the automaton has still to print. *)
Definition rest (m : t) : list ascii := drop (m_blkpos m) (m_blk m).
Definition prev (st : State) : ascii := match st with LF => LFc | _ => dot end.
Definition pending (m : t) : list ascii :=
  match m_state m with
  | LFdot => dot :: escape dot (drop 1 (rest m))
  | st => escape (prev st) (rest m)
  end.

(** Whether the block ends, in its context, with a line feed. *)
Definition ends_LF (m : t) : bool := (last_char (prev (m_state m)) (rest m) =? LFc)%char.

Record wf (m : t) : Prop := mk_wf {
  wf_block : block_wf (m_output m);
  wf_pos : (m_blkpos m <= length (m_blk m))%nat;
  wf_dot : m_state m = LFdot -> exists s, rest m = dot :: s
}.

(** One round of the loop prints the first part of what is pending, and stops exactly if
    the room does not suffice. *)
Definition progress (m m' : t) (more : bool) : Prop :=
  exists s, m_output m' = emit (m_output m) s /\ (length s <= free (m_output m))%nat /\
    pending m = s ++ pending m' /\ m_blk m' = m_blk m /\ wf m' /\ ends_LF m' = ends_LF m /\
    (if more then m_blkpos m' = m_blkpos m + 1
     else m_blkpos m' = m_blkpos m /\ length s = free (m_output m) /\ pending m' <> [])%nat.

Lemma rest_cons m ch : (m_blk m !! m_blkpos m) = Some ch -> rest m = ch :: drop (m_blkpos m + 1) (m_blk m).
Proof. intros H. unfold rest. rewrite Nat.add_1_r. by apply drop_S. Qed.

(** The guard [if (!m_output->print( ch)) return;]. *)
Lemma print_eq ch m k :
  block_wf (m_output m) ->
  print ch m k = if decide (free (m_output m) = 0%nat) then Ok (m, false)
                 else k (set_output (emit (m_output m) [ch]) m).
Proof.
  intros Hw. unfold print. rewrite print_char_ok by done. cbn.
  destruct (decide _); cbn; [|done]. by destruct m.
Qed.

Lemma progress_stop m : wf m -> free (m_output m) = 0%nat -> pending m <> [] -> progress m m false.
Proof. intros Hw Hf Hp. exists []. rewrite emit_nil. cbn. rewrite Hf. auto 10 with lia. Qed.

Lemma escape_dot p s : p = LFc -> escape p (dot :: s) = dot :: dot :: escape dot s.
Proof. by intros ->. Qed.

Lemma escape_other p c s :
  (c =? dot)%char && (p =? LFc)%char = false -> escape p (c :: s) = c :: escape c s.
Proof. cbn. by intros ->. Qed.

Lemma rest_advance m ch s : rest m = ch :: s -> drop (m_blkpos m + 1) (m_blk m) = s.
Proof. unfold rest. intros H. by rewrite <- drop_drop, H. Qed.

(** Advancing after [s] was printed. *)
Lemma progress_advance m m' ch s0 s :
  wf m -> rest m = ch :: s0 ->
  m_blk m' = m_blk m -> m_blkpos m' = (m_blkpos m + 1)%nat -> (m_blkpos m < length (m_blk m))%nat ->
  m_state m' <> LFdot -> (prev (m_state m') =? LFc)%char = (ch =? LFc)%char -> (length s <= free (m_output m))%nat -> m_output m' = emit (m_output m) s ->
  pending m = s ++ escape (prev (m_state m')) s0 -> progress m m' true.
Proof.
  intros Hw Hr Hb Hp Hlt Hst Hprev Hs Ho Hpend.
  assert (rest m' = s0) as Hr' by (unfold rest; rewrite Hb, Hp; by apply rest_advance with ch).
  exists s. unfold pending at 2. split_and!; auto.
  - rewrite Hpend, Hr'. by destruct (m_state m').
  - constructor; rewrite ?Ho, ?Hb; [apply free_emit; [done|apply Hw]|lia|done].
  - unfold ends_LF. rewrite Hr', Hr, last_char_cons. by apply last_char_LF.
Qed.

Lemma set_state_same m st : m_state m = st -> set_state st m = m.
Proof. intros <-. by destruct m. Qed.

Lemma step_LFdot m s :
  wf m -> m_state m = LFdot -> rest m = dot :: s -> (m_blkpos m < length (m_blk m))%nat ->
  exists m' more, step dot m = Ok (m', more) /\ progress m m' more.
Proof.
  intros Hw Hst Hr Hlt. unfold step, case_LFdot. rewrite Hst. cbn [Ascii.eqb Bool.eqb].
  rewrite set_state_same, print_eq by (auto; apply Hw). destruct (decide _) as [Hf|Hf].
  - exists m, false. split; [done|]. apply progress_stop; auto. unfold pending. by rewrite Hst.
  - eexists _, true. split; [done|]. eapply (progress_advance _ _ dot s [dot]); cbn; auto; [lia|].
    unfold pending. rewrite Hst, Hr. cbn. by rewrite skipn_O.
Qed.

Lemma step_SRC m ch s :
  wf m -> m_state m = SRC -> rest m = ch :: s -> (m_blkpos m < length (m_blk m))%nat ->
  exists m' more, step ch m = Ok (m', more) /\ progress m m' more.
Proof.
  intros Hw Hst Hr Hlt. unfold step. rewrite Hst, print_eq by apply Hw.
  assert (pending m = ch :: escape (prev (if (ch =? LFc)%char then LF else SRC)) s) as Hp.
  { unfold pending. rewrite Hst, Hr, escape_other by apply andb_false_r. f_equal.
    destruct (Ascii.eqb_spec ch LFc) as [->|Hn]; [done|]. apply escape_prev. by apply Ascii.eqb_neq in Hn as ->. }
  destruct (decide _) as [Hf|Hf].
  - exists m, false. split; [done|]. apply progress_stop; auto. by rewrite Hp.
  - destruct (ch =? LFc)%char eqn:Hl; (eexists _, true; split; [reflexivity|]);
      eapply (progress_advance _ _ ch s [ch]); cbn; rewrite ?Hst; auto; lia.
Qed.

Lemma step_LF m ch s :
  wf m -> m_state m = LF -> rest m = ch :: s -> (m_blkpos m < length (m_blk m))%nat ->
  exists m' more, step ch m = Ok (m', more) /\ progress m m' more.
Proof.
  intros Hw Hst Hr Hlt. unfold step. rewrite Hst, print_eq by apply Hw.
  assert (pending m = escape LFc (ch :: s)) as Hp by (unfold pending; by rewrite Hst, Hr).
  destruct (decide _) as [Hf|Hf].
  { exists m, false. split; [done|]. apply progress_stop; auto. rewrite Hp. cbn. by destruct (_ && _). }
  unfold case_LFdot. destruct (Ascii.eqb_spec ch dot) as [->|Hn].
  - pose proof (free_emit (m_output m) [dot] ltac:(cbn; lia) (wf_block _ Hw)) as [Hf2 Hw2]. cbn [length] in Hf2.
    rewrite print_eq by done. cbn [set_output set_state m_output]. rewrite Hf2.
    destruct (decide _) as [Hf'|Hf'].
    + eexists _, false. split; [done|]. exists [dot]. split_and!; auto; cbn; try lia.
      * rewrite Hp. unfold pending. cbn. unfold rest. cbn.
        change (drop (m_blkpos m) (m_blk m)) with (rest m). rewrite Hr. cbn. by rewrite skipn_O.
      * constructor; [done|cbn; lia|]. intros _. exists s. done.
      * unfold ends_LF, rest. cbn. change (drop (m_blkpos m) (m_blk m)) with (rest m). by rewrite Hr, Hst, !last_char_cons.
    + eexists _, true. split; [done|]. eapply (progress_advance _ _ dot s [dot; dot]); cbn; auto; try lia.
      rewrite emit_emit by (cbn; unfold free in *; lia). done.
  - assert (pending m = ch :: escape ch s) as Hp2.
    { rewrite Hp. apply escape_other. apply Ascii.eqb_neq in Hn as ->. done. }
    destruct (ch =? LFc)%char eqn:Hl; cbn [negb]; (eexists _, true; split; [reflexivity|]);
      eapply (progress_advance _ _ ch s [ch]); cbn; rewrite ?Hst; auto; try lia;
      rewrite Hp2; cbn; f_equal; by apply escape_prev.
Qed.

Lemma step_progress m ch :
  wf m -> m_blk m !! m_blkpos m = Some ch ->
  exists m' more, step ch m = Ok (m', more) /\ progress m m' more.
Proof.
  intros Hw Hch. pose proof (lookup_lt_Some _ _ _ Hch) as Hlt. pose proof (rest_cons _ _ Hch) as Hr.
  destruct (m_state m) eqn:Hst.
  - by eapply step_SRC.
  - by eapply step_LF.
  - destruct (wf_dot _ Hw Hst) as [s Hs]. rewrite Hr in Hs. injection Hs as -> Hs.
    by eapply step_LFdot.
Qed.

(** What a call prints: as much of what is pending as there is room for. *)
Definition printed_part (m m' : t) : Prop :=
  m_output m' = emit (m_output m) (take (free (m_output m)) (pending m)) /\
  pending m' = drop (free (m_output m)) (pending m) /\ wf m' /\ ends_LF m' = ends_LF m.

Lemma pending_end m : m_state m <> LFdot -> (m_blkpos m = length (m_blk m))%nat -> pending m = [].
Proof. intros Hst Hp. unfold pending, rest. rewrite Hp, drop_all. by destruct (m_state m). Qed.

Lemma wf_end m : wf m -> (m_blkpos m = length (m_blk m))%nat -> m_state m <> LFdot.
Proof. intros Hw Hp Hst. destruct (wf_dot _ Hw Hst) as [s Hs]. unfold rest in Hs. by rewrite Hp, drop_all in Hs. Qed.

Lemma loop_printed n : forall m,
  wf m -> (m_blkpos m + n = length (m_blk m))%nat -> exists m', loop n m = Ok m' /\ printed_part m m'.
Proof.
  induction n as [|n IH]; intros m Hw Hn; cbn [loop].
  { exists m. split; [done|]. unfold printed_part. rewrite pending_end by (auto using wf_end with lia; lia).
    by rewrite take_nil, drop_nil, emit_nil. }
  destruct (lookup_lt_is_Some_2 (m_blk m) (m_blkpos m) ltac:(lia)) as [ch Hch].
  unfold load. rewrite Hch. cbn.
  destruct (step_progress m ch Hw Hch) as (m' & more & -> & s & Ho & Hs & Hp & Hb & Hw' & He & Hmore). cbn.
  destruct (free_emit _ _ Hs (wf_block _ Hw)) as [Hf _]. destruct more.
  - destruct (IH m' Hw' ltac:(rewrite Hb; lia)) as (m2 & -> & Ho2 & Hp2 & Hw2 & He2).
    exists m2. split; [done|]. unfold printed_part. rewrite Ho2, Hp2, Ho, Hf, Hp, He2.
    rewrite emit_emit by (unfold free in *; pose proof (wf_block _ Hw); unfold block_wf in *; lia).
    rewrite take_app_ge, drop_app_ge by lia. done.
  - destruct Hmore as (_ & Hlen & _). exists m'. split; [done|]. unfold printed_part.
    rewrite Ho, Hp. rewrite take_app_length', drop_app_length' by lia. done.
Qed.

Lemma process_printed m : wf m -> exists m', process m = Ok m' /\ printed_part m m'.
Proof. intros Hw. apply loop_printed; [done|]. pose proof (wf_pos _ Hw). lia. Qed.

Lemma hasMore_pending m : wf m -> hasMore m = bool_decide (pending m <> []).
Proof.
  intros Hw. unfold hasMore. pose proof (wf_pos _ Hw). destruct (Nat.ltb_spec (m_blkpos m) (length (m_blk m))).
  - symmetry. apply bool_decide_eq_true. unfold pending, rest.
    destruct (drop (m_blkpos m) (m_blk m)) as [|c s] eqn:E.
    { apply (f_equal length) in E. rewrite length_drop in E. cbn in E. lia. }
    destruct (m_state m); cbn; try destruct (_ && _); discriminate.
  - symmetry. apply bool_decide_eq_false. intros Hn. apply Hn, pending_end; [apply wf_end|]; auto; lia.
Qed.

End Escaping.
