(* ===== verification/IoBlocksEod.v ===== *)
(** * The end of data in network input

    The specification of the automaton InputBlock::getEoDpos: on a stream of characters, the
    content without the dots that escape, up to a line with a single dot.  The scan of a
    block follows the automaton on the stream, the deletion of the escaping dots is exact,
    and a stream can be cut into blocks everywhere. *)
From S2P Require Import Prelude Decimal IoBlocks IoBlocksEscape.
Import Mem InputBlock.

(** ** The automaton on a stream *)

(** A state is [SRC] with nothing held back, or one of the others with the characters
    since the possible end of the source.  The held characters as they are, the content
    without the escaping dot. *)
Definition undot (held : list ascii) : list ascii := filter (fun c => c <> dot) held.

Definition no_more (st : EoD) (c : ascii) : bool :=
  (c =? LFc)%char && match st with CR_LF_DOT | CR_LF_DOT_CR => true | _ => false end.
Definition line_start (st : EoD) : bool := match st with CR_LF => true | _ => false end.

(** The content a character completes, the next state and what is held back then. *)
Definition stream_char (st : EoD) (held : list ascii) (c : ascii) : list ascii * EoD * list ascii :=
  if (c =? LFc)%char then
    match st with
    | CR => ([], CR_LF, held ++ [c])
    | _ => (undot held, CR_LF, [c])
    end
  else if (c =? CRc)%char then
    match st with
    | CR_LF_DOT => ([], CR_LF_DOT_CR, held ++ [c])
    | _ => (undot held, CR, [c])
    end
  else if (c =? dot)%char && line_start st then ([], CR_LF_DOT, held ++ [c])
  else (undot held ++ [c], SRC, []).

(** The content of a stream, and how it ends: the end of data with what follows it, or the
    state to go on with. *)
Fixpoint stream (st : EoD) (held s : list ascii) : list ascii * (EoD * list ascii + list ascii) :=
  match s with
  | [] => ([], inl (st, held))
  | c :: s' =>
      if no_more st c then ([], inr s')
      else let '(out, st', held') := stream_char st held c in
           let '(out', r) := stream st' held' s' in (out ++ out', r)
  end.

(** The states a held text stands for. *)
Inductive holds : EoD -> list ascii -> Prop :=
| holds_SRC : holds SRC []
| holds_CR : holds CR [CRc]
| holds_LF : holds CR_LF [LFc]
| holds_CRLF : holds CR_LF [CRc; LFc]
| holds_LF_dot : holds CR_LF_DOT [LFc; dot]
| holds_CRLF_dot : holds CR_LF_DOT [CRc; LFc; dot]
| holds_LF_dot_CR : holds CR_LF_DOT_CR [LFc; dot; CRc]
| holds_CRLF_dot_CR : holds CR_LF_DOT_CR [CRc; LFc; dot; CRc].
#[export] Hint Constructors holds : wolf.

Lemma stream_char_holds st held c out st' held' :
  holds st held -> no_more st c = false -> stream_char st held c = (out, st', held') -> holds st' held'.
Proof.
  unfold stream_char, no_more. intros H.
  destruct (Ascii.eqb_spec c LFc) as [->|]; [|destruct (Ascii.eqb_spec c CRc) as [->|]; [|destruct (Ascii.eqb_spec c dot) as [->|]]];
    destruct H; cbn; intros Hm He; try discriminate Hm; injection He as <- <- <-; auto with wolf.
Qed.

Lemma stream_app s1 : forall st held s2 out st' held',
  stream st held s1 = (out, inl (st', held')) ->
  stream st held (s1 ++ s2) = let '(out2, r) := stream st' held' s2 in (out ++ out2, r).
Proof.
  induction s1 as [|c s1 IH]; intros st held s2 out st' held'; cbn [stream app].
  - intros [= <- <- <-]. by destruct (stream st held s2).
  - destruct (no_more st c); [discriminate|]. destruct (stream_char st held c) as [[o1 st1] h1].
    destruct (stream st1 h1 s1) as [o2 r2] eqn:E. intros [= <- ->].
    rewrite (IH _ _ s2 _ _ _ E). destruct (stream st' held' s2) as [o3 r3]. by rewrite app_assoc.
Qed.

(** The text held back leads from the start to the state it stands for: it can be put in
    front of the rest of the stream. *)
Lemma stream_held st held s : holds st held -> stream SRC [] (held ++ s) = stream st held s.
Proof.
  intros H.
  assert (stream SRC [] held = ([], inl (st, held))) as Hh by (by destruct H).
  rewrite (stream_app _ _ _ s _ _ _ Hh). by destruct (stream st held s).
Qed.

Lemma holds_length st held : holds st held -> (length held <= 4)%nat.
Proof. destruct 1; cbn; lia. Qed.

Lemma holds_end st held s out st' held' :
  holds st held -> stream st held s = (out, inl (st', held')) -> holds st' held'.
Proof.
  revert st held out. induction s as [|c s IH]; intros st held out H; cbn [stream].
  - by intros [= <- <- <-].
  - destruct (no_more st c) eqn:Em; [discriminate|]. destruct (stream_char st held c) as [[o1 st1] h1] eqn:E1.
    destruct (stream st1 h1 s) as [o2 r2] eqn:E. intros [= <- ->].
    eapply IH; [|done]. by eapply stream_char_holds.
Qed.

(** ** Escaped text *)

(** The character in front of the text in a state, as far as it matters. *)
Definition front (st : EoD) : ascii := match st with CR_LF => LFc | _ => "000"%char end.

(** Of an escaped text the automaton gives back the text; what is held at the end has not
    been given out yet and is content if the data go on. *)
Lemma stream_escape s : forall st held p,
  holds st held -> st <> CR_LF_DOT_CR -> (st = CR_LF_DOT -> False) ->
  (p =? LFc)%char = line_start st ->
  exists out st' held', stream st held (escape p s) = (out, inl (st', held')) /\
    holds st' held' /\ (st' = SRC \/ st' = CR \/ st' = CR_LF) /\ out ++ held' = held ++ s.
Proof.
  induction s as [|c s IH]; intros st held p Hh H1 H2 Hp; cbn [escape].
  { exists [], st, held. split_and!; auto; [|by rewrite app_nil_r]. destruct Hh; tauto. }
  assert (undot held = held) as Hud by (destruct Hh; try done; tauto).
  destruct ((c =? dot)%char && (p =? LFc)%char) eqn:Ed.
  - apply andb_true_iff in Ed as [Ec Ep]. apply Ascii.eqb_eq in Ec as ->. rewrite Ep in Hp.
    assert (st = CR_LF) as -> by (destruct st; done).
    destruct (IH SRC [] dot ltac:(constructor) ltac:(done) ltac:(done) eq_refl) as (out & st' & held' & E & Hh' & Hst & Ho).
    exists (held ++ [dot] ++ out), st', held'. split_and!; auto.
    + cbn [stream]. change (no_more CR_LF dot) with false. cbn iota.
      change (stream_char CR_LF held dot) with ([] : list ascii, CR_LF_DOT, held ++ [dot]). cbn iota beta.
      cbn [stream]. change (no_more CR_LF_DOT dot) with false. cbn iota.
      change (stream_char CR_LF_DOT (held ++ [dot]) dot) with (undot (held ++ [dot]) ++ [dot], SRC, [] : list ascii).
      cbn iota beta. rewrite E. cbn [app]. f_equal.
      unfold undot in *. rewrite filter_app, Hud. cbn. by rewrite app_nil_r, <- app_assoc.
    + by rewrite <- !app_assoc, Ho.
  - cbn [stream].
    assert (no_more st c = false) as ->.
    { unfold no_more. apply andb_false_intro2. destruct st; tauto. }
    destruct (stream_char st held c) as [[o1 st1] h1] eqn:E1.
    assert (holds st1 h1 /\ st1 <> CR_LF_DOT_CR /\ (st1 = CR_LF_DOT -> False) /\ o1 ++ h1 = held ++ [c] /\
      (c =? LFc)%char = line_start st1) as (Hh1 & Hs1 & Hs2 & Ho1 & Hp1).
    { unfold stream_char in E1. rewrite Hud in E1.
      destruct (Ascii.eqb_spec c LFc) as [->|Hl]; [|destruct (Ascii.eqb_spec c CRc) as [->|Hc]].
      - destruct Hh; try tauto; injection E1 as <- <- <-; split_and!; auto with wolf; done.
      - destruct Hh; try tauto; injection E1 as <- <- <-; split_and!; auto with wolf; done.
      - rewrite <- Hp, Ed in E1. injection E1 as <- <- <-.
        split_and!; auto with wolf; rewrite ?app_nil_r; auto. by apply Ascii.eqb_neq in Hl. }
    destruct (IH st1 h1 c Hh1 Hs1 Hs2 Hp1) as (out & st' & held' & E & Hh' & Hst & Ho).
    exists (o1 ++ out), st', held'. rewrite E. split_and!; auto.
    rewrite <- app_assoc, Ho, app_assoc, Ho1, <- app_assoc. done.
Qed.

(** The marker of the end of data, and the protocol on a stream: escaped data, the marker
    and anything behind it give the data and what is behind. *)
Definition eod_marker : list ascii := [CRc; LFc; dot; CRc; LFc].

Lemma stream_message s rest :
  stream SRC [] (escape "000" s ++ eod_marker ++ rest) = (s, inr rest).
Proof.
  destruct (stream_escape s SRC [] "000" ltac:(constructor) ltac:(done) ltac:(done) eq_refl)
    as (out & st & held & E & Hh & Hst & Ho).
  rewrite (stream_app _ _ _ _ _ _ _ E).
  assert (undot held = held) as Hud by (destruct Hh; try done; naive_solver).
  assert (stream st held (eod_marker ++ rest) = (held, inr rest)) as ->.
  { unfold eod_marker. cbn [app stream]. destruct Hst as [-> | [-> | ->]]; cbn; rewrite ?Hud, ?app_nil_r; done. }
  cbn in Ho. by rewrite Ho.
Qed.

(** ** Deleting characters *)

(** The text without the characters at the positions [ds]; it starts at position [i]. *)
Fixpoint keep (i : nat) (l : list ascii) (ds : list nat) : list ascii :=
  match l with
  | [] => []
  | c :: l' => if bool_decide (i ∈ ds) then keep (S i) l' ds else c :: keep (S i) l' ds
  end.

Lemma keep_app l1 : forall i l2 ds, keep i (l1 ++ l2) ds = keep i l1 ds ++ keep (i + length l1) l2 ds.
Proof.
  induction l1 as [|c l1 IH]; intros i l2 ds; cbn [app keep length]; [by rewrite Nat.add_0_r|].
  rewrite IH. replace (S i + length l1)%nat with (i + S (length l1))%nat by lia. by destruct (bool_decide _).
Qed.

Lemma keep_ext l : forall i ds ds',
  (forall j, (i <= j < i + length l)%nat -> j ∈ ds <-> j ∈ ds') -> keep i l ds = keep i l ds'.
Proof.
  induction l as [|c l IH]; intros i ds ds' H; cbn [keep]; [done|].
  rewrite (IH (S i) ds ds') by (intros; apply H; cbn; lia).
  assert (i ∈ ds <-> i ∈ ds') as Hi by (apply H; cbn; lia). by rewrite (bool_decide_ext _ _ Hi).
Qed.

Lemma keep_none l i ds : (forall j, (i <= j < i + length l)%nat -> j ∉ ds) -> keep i l ds = l.
Proof.
  intros H. rewrite (keep_ext l i ds []).
  - clear H. revert i. induction l as [|c l IH]; intros i; cbn [keep]; [done|]. by rewrite IH.
  - intros j Hj. specialize (H j Hj). set_solver.
Qed.

(** Positions in order with a character between two of them, as the code demands. *)
Fixpoint spaced (first : bool) (dpos : nat) (ds : list nat) : Prop :=
  match ds with
  | [] => True
  | d :: ds' => (if first then dpos <= d else dpos < d)%nat /\ spaced false (d + 1) ds'
  end.

Lemma spaced_ge ds : forall first dpos, spaced first dpos ds -> Forall (fun d => dpos <= d)%nat ds.
Proof.
  induction ds as [|d ds IH]; intros first dpos; cbn [spaced]; [constructor|].
  intros [Hd Hs]. constructor; [destruct first; lia|].
  eapply Forall_impl; [by eapply IH|]. cbn. destruct first; lia.
Qed.

Lemma spaced_snoc ds d : forall first dpos,
  spaced first dpos ds -> Forall (fun e => e + 1 < d)%nat ds -> (if first then dpos <= d else dpos < d)%nat ->
  spaced first dpos (ds ++ [d]).
Proof.
  induction ds as [|e ds IH]; intros first dpos; cbn [spaced app]; [tauto|].
  intros [He Hs] Hf Hd. apply Forall_cons in Hf as [Hf1 Hf]. split; [done|]. apply IH; auto.
Qed.

Lemma copy_chars_ok n : forall b0 k i,
  (length k <= i)%nat -> (i + n <= length b0)%nat ->
  copy_chars n (k ++ drop (length k) b0) (length k) i =
    Ok ((k ++ take n (drop i b0)) ++ drop (length k + n) b0).
Proof.
  induction n as [|n IH]; intros b0 k i Hk Hi; cbn [copy_chars].
  { by rewrite take_0, app_nil_r, Nat.add_0_r. }
  destruct (lookup_lt_is_Some_2 b0 i ltac:(lia)) as [c Hc].
  unfold load. rewrite lookup_app_r, lookup_drop by lia.
  replace (length k + (i - length k))%nat with i by lia. rewrite Hc. cbn.
  unfold store. rewrite length_app, length_drop.
  destruct (Nat.ltb_spec (length k) (length k + (length b0 - length k))); [|lia]. cbn.
  rewrite insert_app_r_alt, Nat.sub_diag by lia.
  destruct (lookup_lt_is_Some_2 b0 (length k) ltac:(lia)) as [e He]. rewrite (drop_S _ _ _ He). cbn [insert list_insert].
  assert (length (k ++ [c]) = length k + 1)%nat as Hl by (rewrite length_app; cbn; lia).
  assert (k ++ c :: drop (S (length k)) b0 = (k ++ [c]) ++ drop (length (k ++ [c])) b0) as ->
    by (by rewrite Hl, Nat.add_1_r, <- app_assoc).
  rewrite <- Hl, IH by lia. f_equal. rewrite (drop_S _ _ _ Hc). cbn [take].
  rewrite Hl, Nat.add_1_r, <- !app_assoc. cbn. do 4 f_equal. lia.
Qed.

Section remove.
Context (b0 : list ascii) (n : nat) (Hn : (n <= length b0)%nat) (Hb : Z.of_nat (length b0) < 2 ^ 64).
Let T := take n b0.

(** The buffer while characters are removed: what is kept so far and the rest as it was. *)
Abbreviation part k := (k ++ drop (length k) b0).

Lemma u64_diff i j : (i <= j <= length b0)%nat -> Z.to_nat (u64 (Z.of_nat j - Z.of_nat i)) = (j - i)%nat.
Proof using Hn Hb. intros H. rewrite wrap_small; lia. Qed.

Lemma keep_split d dpos ds :
  (dpos <= d < n)%nat -> Forall (fun e => d < e)%nat ds ->
  keep dpos (drop dpos T) (d :: ds) = take (d - dpos) (drop dpos b0) ++ keep (d + 1) (drop (d + 1) T) ds.
Proof using Hn Hb.
  intros Hd Hds. assert (length T = n) as HT by (unfold T; rewrite length_take; lia).
  destruct (lookup_lt_is_Some_2 T d ltac:(lia)) as [c Hc].
  assert (drop dpos T = take (d - dpos) (drop dpos b0) ++ c :: drop (d + 1) T) as ->.
  { rewrite <- (take_drop (d - dpos) (drop dpos T)), drop_drop. f_equal.
    - unfold T. rewrite take_drop_commute, take_take, take_drop_commute. do 2 f_equal. lia.
    - replace (dpos + (d - dpos))%nat with d by lia. by rewrite (drop_S _ _ _ Hc), Nat.add_1_r. }
  assert (length (take (d - dpos) (drop dpos b0)) = d - dpos)%nat as Hl by (rewrite length_take, length_drop; lia).
  rewrite keep_app, Hl, keep_none by (rewrite Hl; intros j Hj; rewrite elem_of_cons;
    rewrite Forall_forall in Hds; intros [->|He]; [lia|]; specialize (Hds _ He); lia).
  f_equal. cbn [keep]. replace (dpos + (d - dpos))%nat with d by lia.
  rewrite bool_decide_eq_true_2 by (left; done). rewrite Nat.add_1_r.
  apply keep_ext. intros j Hj. rewrite elem_of_cons. split; [intros [->|]|]; auto; lia.
Qed.

Lemma remove_loop_ok ds : forall first dpos k,
  (length k <= dpos <= n)%nat -> spaced first dpos ds -> Forall (fun d => d < n)%nat ds ->
  exists k' dpos', remove_loop first ds (part k) (length k) dpos = Ok (part k', length k', dpos') /\
    k ++ keep dpos (drop dpos T) ds = k' ++ drop dpos' T /\
    (length k' <= dpos' <= n)%nat /\ (dpos' - length k' = dpos - length k + length ds)%nat.
Proof using Hn Hb.
  induction ds as [|d ds IH]; intros first dpos k Hk Hs Hlt; cbn [remove_loop].
  { exists k, dpos. split_and!; auto; cbn; try lia. f_equal. apply keep_none. set_solver. }
  destruct Hs as [Hd Hs]. apply Forall_cons in Hlt as [Hdn Hlt].
  assert ((d <=? dpos)%nat && negb first = false) as ->.
  { destruct first; [apply andb_false_r|]. destruct (Nat.leb_spec d dpos); [lia|done]. }
  cbn [negb check_that mbind res_bind].
  assert (dpos <= d)%nat by (destruct first; lia).
  rewrite u64_diff by lia. rewrite copy_chars_ok by lia.
  set (k1 := k ++ take (d - dpos) (drop dpos b0)).
  assert (length k1 = length k + (d - dpos))%nat as Hk1.
  { unfold k1. rewrite length_app, length_take, length_drop. lia. }
  cbn [mbind res_bind]. rewrite <- Hk1.
  destruct (IH false (d + 1)%nat k1 ltac:(lia) Hs Hlt) as (k' & dpos' & -> & Hkeep & Hb1 & Hb2).
  exists k', dpos'. split_and!; auto; try (cbn [length]; lia).
  assert (Forall (fun e => d < e)%nat ds) as Hgt by (eapply Forall_impl; [by eapply spaced_ge|intros; cbn in *; lia]).
  rewrite <- Hkeep, keep_split by (done || lia).
  unfold k1. by rewrite app_assoc.
Qed.

Lemma remove_chars_ok ds :
  spaced true 0 ds -> Forall (fun d => d < n)%nat ds ->
  let r := keep 0 T ds in
  remove_chars_from_buf b0 n ds = Ok (r ++ drop (length r) b0) /\ (length r + length ds = n)%nat.
Proof using Hn Hb.
  intros Hs Hlt r.
  assert (length T = n) as HT by (unfold T; rewrite length_take; lia).
  destruct (remove_loop_ok ds true 0 [] ltac:(cbn; lia) Hs Hlt) as (k & dpos & Hloop & Hk & Hb1 & Hb2).
  assert (r = k ++ drop dpos T) as Hr by done. clear Hk. cbn [length] in *.
  assert (length r + length ds = n)%nat as Hlen by (rewrite Hr, length_app, length_drop; lia).
  split; [|done]. destruct ds as [|d ds].
  { cbn in Hlen. unfold r at 1. rewrite keep_none by set_solver.
    replace (length r) with n by lia. unfold T. by rewrite take_drop. }
  unfold remove_chars_from_buf. cbn [app length] in Hloop. rewrite drop_0 in Hloop. rewrite Hloop. cbn [mbind res_bind].
  rewrite u64_diff by lia. rewrite copy_chars_ok by lia. cbn [mbind res_bind].
  destruct (Nat.eqb_spec (dpos - length k) (length (d :: ds))); [|lia]. cbn [check_that mbind res_bind].
  assert (take (n - dpos) (drop dpos b0) = drop dpos T) as ->.
  { unfold T. rewrite take_drop_commute. do 2 f_equal. lia. }
  rewrite <- Hr. do 3 f_equal. cbn [length] in *. lia.
Qed.

End remove.

(** ** The scan *)

(** The position of the dot that is held back. *)
Definition held_dot (st : EoD) (bufpos : nat) : list nat :=
  match st with
  | CR_LF_DOT => [(bufpos - 1)%nat]
  | CR_LF_DOT_CR => [(bufpos - 2)%nat]
  | _ => []
  end.

(** The scan has read [buf] up to [bufpos]: what remains of it without the deleted dots are
    the characters [pre] and the undotted held text. *)
Record scanned (buf : list ascii) (bufpos : nat) (s : scan) (pre : list ascii) (st : EoD) (held : list ascii) : Prop := {
  i_state : s_state s = st;
  i_ecb : ecb s = held;
  i_holds : holds st held;
  i_pos : (length held <= bufpos)%nat;
  i_end : st <> SRC -> (srcendpos s + length held = bufpos)%nat;
  i_keep : keep 0 (take bufpos buf) (delchrs s) = pre ++ undot held;
  i_spaced : spaced true 0 (delchrs s);
  i_dels : exists ds, delchrs s = ds ++ held_dot st bufpos /\ Forall (fun d => d + length held < bufpos)%nat ds
}.

Lemma scanned_lt buf bufpos s pre st held :
  scanned buf bufpos s pre st held -> Forall (fun d => d < bufpos)%nat (delchrs s).
Proof.
  intros [? ? Hh Hp ? ? ? (ds & -> & Hds)]. apply Forall_app. split.
  - eapply Forall_impl; [done|]. cbn. lia.
  - destruct Hh; cbn in *; repeat constructor; lia.
Qed.

(** Content: the characters of the stream but the dots to delete. *)
Lemma stream_char_content st held c out st' held' :
  holds st held -> no_more st c = false -> stream_char st held c = (out, st', held') ->
  out ++ undot held' = undot held ++ (if line_start st && (c =? dot)%char then [] else [c]).
Proof.
  intros Hh Hm. unfold stream_char, no_more in *.
  destruct (Ascii.eqb_spec c LFc) as [->|Hl];
    [|destruct (Ascii.eqb_spec c CRc) as [->|Hc]; [|destruct (Ascii.eqb_spec c dot) as [->|Hd]]];
    destruct Hh; cbn in *; try discriminate Hm; intros [= <- <- <-]; cbn; auto.
Qed.

Lemma keep_snoc b c ds :
  keep 0 (b ++ [c]) ds = keep 0 b ds ++ (if bool_decide (length b ∈ ds) then [] else [c]).
Proof. rewrite keep_app. cbn. by destruct (bool_decide _). Qed.

Lemma keep_later b ds d : (length b <= d)%nat -> keep 0 b (ds ++ [d]) = keep 0 b ds.
Proof. intros H. apply keep_ext. intros j Hj. rewrite elem_of_app, list_elem_of_singleton. split; [intros [|]; [done|lia]|auto]. Qed.

(** The deleted characters and the end of the source after a character. *)
Definition next_dels (st : EoD) (c : ascii) (bufpos : nat) (ds : list nat) : list nat :=
  if line_start st && (c =? dot)%char then ds ++ [bufpos] else ds.

Lemma scan_char_stream st held c bufpos s out st' held' :
  s_state s = st -> ecb s = held -> holds st held -> no_more st c = false ->
  (st <> SRC -> (srcendpos s + length held = bufpos)%nat) ->
  stream_char st held c = (out, st', held') ->
  exists s', scan_char bufpos c s = Ok (s', false) /\ s_state s' = st' /\ ecb s' = held' /\
    (st' <> SRC -> (srcendpos s' + length held' = bufpos + 1)%nat) /\
    delchrs s' = next_dels st c bufpos (delchrs s).
Proof.
  intros Hst He Hh Hm Hend Hc. unfold no_more, stream_char in *. unfold scan_char, next_dels.
  rewrite Hst. unfold ecb_push. rewrite He.
  destruct (Ascii.eqb_spec c LFc) as [->|Hl];
    [|destruct (Ascii.eqb_spec c CRc) as [->|Hr]; [|destruct (Ascii.eqb_spec c dot) as [->|Hd]]];
    destruct Hh; cbn in *; try discriminate Hm; injection Hc as <- <- <-;
    (eexists; split; [reflexivity|]); cbn; rewrite ?He; split_and!; auto;
    intros; try done; specialize (Hend ltac:(done)); lia.
Qed.

Lemma scanned_char buf bufpos s pre st held c out st' held' s' :
  scanned buf bufpos s pre st held -> buf !! bufpos = Some c -> no_more st c = false ->
  stream_char st held c = (out, st', held') ->
  s_state s' = st' -> ecb s' = held' -> (st' <> SRC -> (srcendpos s' + length held' = bufpos + 1)%nat) ->
  delchrs s' = next_dels st c bufpos (delchrs s) ->
  scanned buf (bufpos + 1) s' (pre ++ out) st' held'.
Proof.
  intros Hs Hc Hm Hchar Hst' He' Hend' Hd'.
  pose proof (scanned_lt _ _ _ _ _ _ Hs) as Hlt.
  destruct Hs as [Hst He Hh Hp Hend Hkeep Hsp (ds & Hds & Hdsl)].
  pose proof (stream_char_holds _ _ _ _ _ _ Hh Hm Hchar) as Hh'.
  pose proof (stream_char_content _ _ _ _ _ _ Hh Hm Hchar) as Hcont.
  assert (take (bufpos + 1) buf = take bufpos buf ++ [c]) as Htake by (rewrite Nat.add_1_r; by apply take_S_r).
  assert (length (take bufpos buf) = bufpos) as Hlen.
  { apply lookup_lt_Some in Hc. rewrite length_take. lia. }
  assert (bool_decide (bufpos ∈ delchrs s) = false) as Hnin.
  { apply bool_decide_eq_false. intros Hi. rewrite Forall_forall in Hlt. specialize (Hlt _ Hi). lia. }
  constructor; auto.
  - destruct Hh'; cbn in *; try lia; specialize (Hend' ltac:(done)); lia.
  - rewrite Htake, Hd', <- app_assoc, Hcont, app_assoc, <- Hkeep. unfold next_dels.
    destruct (_ && _).
    + rewrite keep_snoc, keep_later, Hlen by lia. rewrite bool_decide_eq_true_2 by set_solver. done.
    + by rewrite keep_snoc, Hlen, Hnin.
  - rewrite Hd'. unfold next_dels. destruct st; cbn; auto. destruct (c =? dot)%char; [|done].
    apply spaced_snoc; [done| |lia]. rewrite Hds. cbn. rewrite app_nil_r.
    eapply Forall_impl; [done|]. cbn. inversion Hh; subst; cbn; lia.
  - rewrite Hd'. clear - Hchar Hm Hh Hds Hdsl Hlt. unfold next_dels, stream_char, no_more in *.
    destruct (Ascii.eqb_spec c LFc) as [->|Hl];
      [|destruct (Ascii.eqb_spec c CRc) as [->|Hr]; [|destruct (Ascii.eqb_spec c dot) as [->|Hdt]]];
      destruct Hh; cbn in *; try discriminate Hm; injection Hchar as <- <- <-; cbn;
      first [ exists ds; split; [rewrite Hds, ?app_nil_r; first [done|do 2 f_equal; lia]
                                |eapply Forall_impl; [exact Hdsl|cbn; lia]]
            | exists (delchrs s); split; [by rewrite app_nil_r|eapply Forall_impl; [exact Hlt|cbn; lia]] ].
Qed.

(** The loop reads the stream up to the end of data or to the end of the block. *)
Lemma scan_loop_stream n : forall buf bufpos s pre st held,
  scanned buf bufpos s pre st held -> (bufpos + n <= length buf)%nat ->
  let '(out, r) := stream st held (take n (drop bufpos buf)) in
  match r with
  | inl (st', held') =>
      exists s', scan_loop n buf bufpos s = Ok (s', bufpos + n, false)%nat /\
        scanned buf (bufpos + n) s' (pre ++ out) st' held'
  | inr rest =>
      exists s' bufpos' st' held', scan_loop n buf bufpos s = Ok (set_state CR_LF_DOT_CR_LF s', bufpos', true) /\
        scanned buf bufpos' s' (pre ++ out) st' held' /\ st' <> SRC /\
        held_dot st' bufpos' <> [] /\ buf !! bufpos' = Some LFc /\
        (bufpos' < bufpos + n)%nat /\ rest = take (bufpos + n - S bufpos') (drop (S bufpos') buf)
  end.
Proof.
  induction n as [|n IH]; intros buf bufpos s pre st held Hs Hn; cbn [scan_loop].
  { rewrite take_0. cbn. exists s. rewrite Nat.add_0_r, app_nil_r. done. }
  destruct (lookup_lt_is_Some_2 buf bufpos ltac:(lia)) as [c Hc].
  rewrite (drop_S _ _ _ Hc). cbn [take stream]. unfold load. rewrite Hc. cbn [mbind res_bind].
  pose proof Hs as [Hst He Hh Hp Hend Hkeep Hsp Hds].
  destruct (no_more st c) eqn:Hm.
  - exists s, bufpos, st, held. unfold no_more in Hm. apply andb_true_iff in Hm as [Hl Hm].
    apply Ascii.eqb_eq in Hl as ->.
    split_and!; auto; try lia; try (by destruct st); [|by rewrite app_nil_r|].
    + unfold scan_char. rewrite Hst. by destruct st.
    + f_equal. lia.
  - destruct (stream_char st held c) as [[o1 st1] h1] eqn:Hchar.
    destruct (scan_char_stream _ _ _ bufpos s _ _ _ Hst He Hh Hm Hend Hchar) as (s1 & -> & Hst1 & He1 & Hend1 & Hd1).
    cbn [mbind res_bind].
    pose proof (scanned_char _ _ _ _ _ _ _ _ _ _ s1 Hs Hc Hm Hchar Hst1 He1 Hend1 Hd1) as Hs1.
    specialize (IH buf (bufpos + 1)%nat s1 _ _ _ Hs1 ltac:(lia)). rewrite Nat.add_1_r in IH.
    rewrite Nat.add_1_r. destruct (stream st1 h1 (take n (drop (S bufpos) buf))) as [o2 [[st2 h2]|rest]].
    + replace (bufpos + S n)%nat with (S bufpos + n)%nat by lia. by rewrite app_assoc.
    + replace (bufpos + S n)%nat with (S bufpos + n)%nat by lia. by rewrite app_assoc.
Qed.

(** ** The operation on a block *)

(** What a block holds. *)
Definition contents (m : Mem.t) : list ascii := take (m_pos m) (m_ptr m).

Lemma undot_length st held bufpos :
  holds st held -> (length (undot held) + length (held_dot st bufpos) = length held)%nat.
Proof. by destruct 1. Qed.

Lemma held_dot_held st held bufpos d :
  holds st held -> (length held <= bufpos)%nat -> d ∈ held_dot st bufpos -> (bufpos - length held <= d < bufpos)%nat.
Proof. destruct 1; cbn; intros Hp; rewrite ?list_elem_of_singleton; try (intros Hd; by apply not_elem_of_nil in Hd); intros ->; lia. Qed.

Lemma size_t_small z : 0 <= z < 2 ^ 64 -> size_t z = Z.to_nat z.
Proof. intros H. unfold size_t. by rewrite wrap_small. Qed.

(** The position computed for the end of the data of a block without end of data. *)
Lemma data_position buf n s pre st held :
  scanned buf n s pre st held -> (length (pre ++ undot held) + length (delchrs s) = n)%nat -> Z.of_nat n < 2 ^ 31 ->
  match last (delchrs s) with
  | None => (n - length held)%nat
  | Some d => if (n - length held <=? d)%nat
              then size_t (Z.of_nat (n - length held) - Z.of_nat (length (delchrs s)) + 1)
              else size_t (Z.of_nat (n - length held) - Z.of_nat (length (delchrs s)))
  end = length pre.
Proof.
  intros Hs Hlen Hn. destruct Hs as [_ _ Hh Hp _ _ _ (ds & Hd0 & Hds)].
  rewrite Hd0, !length_app in *. clear Hd0. pose proof (undot_length _ _ n Hh) as Hu.
  destruct (held_dot st n) as [|d l] eqn:Hd.
  - rewrite app_nil_r. cbn [length] in *. destruct (last ds) as [e|] eqn:Hl.
    + apply last_Some_elem_of in Hl. rewrite Forall_forall in Hds. specialize (Hds _ Hl). cbn in Hds.
      destruct (Nat.leb_spec (n - length held) e); [lia|]. rewrite size_t_small; lia.
    + apply last_None in Hl as ->. cbn in *. lia.
  - assert (l = []) as -> by (destruct st; cbn in Hd; congruence).
    rewrite last_snoc. cbn [length] in *.
    pose proof (held_dot_held st held n d Hh Hp ltac:(rewrite Hd; left; done)).
    destruct (Nat.leb_spec (n - length held) d); [|lia]. rewrite size_t_small; lia.
Qed.

(** A block ready for the search: nothing found yet, and no characters saved. *)
Record ready (b : t) : Prop := {
  r_state : m_eodState b = SRC;
  r_saved : m_eodcharbuf b = [];
  r_block : block_wf (m_mem b);
  r_size : Z.of_nat (size (m_mem b)) < 2 ^ 31
}.

Lemma contents_prefix (pre l o buf : list ascii) :
  l = pre ++ o -> take (length pre) (l ++ drop (length l) buf) = pre.
Proof. intros ->. rewrite <- app_assoc. by rewrite take_app_length. Qed.

(** The result for a block whose input, from the start of the search, is [s]. *)
Definition search_result (b : t) (start : nat) (out : list ascii)
    (r : EoD * list ascii + list ascii) (b' : t) (eod : nat) : Prop :=
  size (m_mem b') = size (m_mem b) /\ block_wf (m_mem b') /\
  take eod (contents (m_mem b')) = take start (contents (m_mem b)) ++ out /\
  (start <= eod <= m_pos (m_mem b'))%nat /\
  match r with
  | inl (st, held) => m_eodState b' = SRC /\ m_eodcharbuf b' = held /\ eod = m_pos (m_mem b')
  | inr rest => m_eodState b' = CR_LF_DOT_CR_LF /\ m_eodcharbuf b' = [] /\
                drop (m_nextpos b') (contents (m_mem b')) = rest /\ (m_nextpos b' <= m_pos (m_mem b'))%nat
  end.

Lemma scanned_init b start :
  ready b -> (start < m_pos (m_mem b))%nat ->
  scanned (m_ptr (m_mem b)) start (mkScan (m_eodState b) [] (m_pos (m_mem b)) [])
    (take start (m_ptr (m_mem b))) SRC [].
Proof.
  intros [Hst _ _ _] Hlt. constructor; cbn; auto with wolf; try lia.
  - done.
  - rewrite app_nil_r. apply keep_none. set_solver.
  - exists []. done.
Qed.

Lemma take_start m start : (start <= m_pos m)%nat -> take start (contents m) = take start (m_ptr m).
Proof. intros H. unfold contents. rewrite take_take. f_equal. lia. Qed.

Lemma drop_start m start : drop start (contents m) = take (m_pos m - start) (drop start (m_ptr m)).
Proof. unfold contents. apply skipn_firstn_comm. Qed.

Lemma getEoD_no_eod b start out st held :
  ready b -> (start < m_pos (m_mem b))%nat ->
  stream SRC [] (drop start (contents (m_mem b))) = (out, inl (st, held)) ->
  exists b' eod, getEoD start b = Ok (b', eod) /\ search_result b start out (inl (st, held)) b' eod.
Proof.
  intros Hr Hlt Hstream. pose proof (r_block _ Hr) as Hwf. unfold block_wf, size in Hwf.
  pose proof (scan_loop_stream (m_pos (m_mem b) - start) _ _ _ _ _ _ (scanned_init b start Hr Hlt) ltac:(lia)) as Hl.
  rewrite <- drop_start, Hstream in Hl. destruct Hl as (s & Hloop & Hs).
  replace (start + (m_pos (m_mem b) - start))%nat with (m_pos (m_mem b)) in * by lia.
  unfold getEoD, getEoDpos. destruct (Nat.leb_spec (m_pos (m_mem b)) start); [lia|].
  rewrite Hloop. cbn [mbind res_bind].
  pose proof (r_size _ Hr) as Hsz. unfold size in Hsz.
  destruct (remove_chars_ok (m_ptr (m_mem b)) (m_pos (m_mem b)) Hwf ltac:(lia) (delchrs s)
    (i_spaced _ _ _ _ _ _ Hs) (scanned_lt _ _ _ _ _ _ Hs)) as [-> Hlen]. cbn [mbind res_bind].
  pose proof (i_keep _ _ _ _ _ _ Hs) as Hkeep. rewrite Hkeep in *. set (pre := take start _ ++ out) in *.
  pose proof (data_position _ _ _ _ _ _ Hs Hlen ltac:(lia)) as Hpos.
  set (buf := (pre ++ undot held) ++ drop (length (pre ++ undot held)) (m_ptr (m_mem b))).
  assert (length buf = length (m_ptr (m_mem b))) as Hbuf.
  { unfold buf. rewrite length_app, length_drop. lia. }
  assert (exists st', st' = SRC /\ exists ecbuf, ecbuf = held /\
    (if decide (s_state s = SRC) then (m_pos (m_mem b), SRC, m_eodcharbuf b)
     else (srcendpos s, SRC, buffer_append [] (ecb s))) = ((m_pos (m_mem b) - length held)%nat, st', ecbuf)) as Hres.
  { exists SRC. split; [done|]. exists held. split; [done|]. pose proof (i_holds _ _ _ _ _ _ Hs) as Hh.
    rewrite (i_state _ _ _ _ _ _ Hs), (i_ecb _ _ _ _ _ _ Hs). destruct (decide (st = SRC)) as [->|Hn].
    - inversion Hh; subst. rewrite (r_saved _ Hr). cbn. by rewrite Nat.sub_0_r.
    - specialize (i_end _ _ _ _ _ _ Hs Hn) as He. f_equal; [f_equal; lia|].
      unfold buffer_append. cbn. apply take_ge. pose proof (holds_length _ _ Hh). lia. }
  destruct Hres as (st' & -> & ecbuf & -> & ->). rewrite Hpos.
  assert (length pre <= length buf)%nat by (unfold buf; rewrite !length_app; lia).
  eexists _, _. split; [reflexivity|]. cbn. split_and!; cbn; auto.
  - rewrite take_start by lia. unfold contents. cbn. rewrite take_take, Nat.min_id. unfold buf.
    by rewrite (contents_prefix pre _ (undot held)).
  - unfold pre. rewrite length_app, length_take. lia.
Qed.

Lemma keep_beyond buf n k ds :
  (n <= k <= length buf)%nat -> Forall (fun d => d < n)%nat ds ->
  keep 0 (take k buf) ds = keep 0 (take n buf) ds ++ take (k - n) (drop n buf).
Proof.
  intros Hk Hds. assert (take k buf = take n buf ++ take (k - n) (drop n buf)) as ->.
  { rewrite <- (take_drop n (take k buf)), take_take. f_equal; [f_equal; lia|apply skipn_firstn_comm]. }
  rewrite keep_app. f_equal. apply keep_none. intros j Hj Hin. rewrite length_take in Hj.
  rewrite Forall_forall in Hds. specialize (Hds _ Hin). cbn in Hds. lia.
Qed.

Lemma getEoD_eod b start out rest :
  ready b -> (start < m_pos (m_mem b))%nat ->
  stream SRC [] (drop start (contents (m_mem b))) = (out, inr rest) ->
  exists b' eod, getEoD start b = Ok (b', eod) /\ search_result b start out (inr rest) b' eod.
Proof.
  intros Hr Hlt Hstream. pose proof (r_block _ Hr) as Hwf. unfold block_wf, size in Hwf.
  pose proof (r_size _ Hr) as Hsz. unfold size in Hsz. set (n := m_pos (m_mem b)) in *.
  pose proof (scan_loop_stream (n - start) _ _ _ _ _ _ (scanned_init b start Hr Hlt) ltac:(lia)) as Hl.
  pose proof (drop_start (m_mem b) start) as Hcs. fold n in Hcs. rewrite <- Hcs, Hstream in Hl.
  destruct Hl as (s & bufpos & st & held & Hloop & Hs & Hst & Hdot & Hc & Hbp & Hrest).
  replace (start + (n - start))%nat with n in * by lia. fold n in Hloop.
  unfold getEoD, getEoDpos. fold n. destruct (Nat.leb_spec n start); [lia|].
  rewrite Hloop. cbn [mbind res_bind set_state delchrs].
  pose proof (scanned_lt _ _ _ _ _ _ Hs) as Hds.
  destruct (remove_chars_ok (m_ptr (m_mem b)) n Hwf ltac:(lia) (delchrs s) (i_spaced _ _ _ _ _ _ Hs))
    as [-> Hlen]; [eapply Forall_impl; [done|cbn; lia]|]. cbn [mbind res_bind].
  pose proof (i_keep _ _ _ _ _ _ Hs) as Hkeep.
  assert (take (n - bufpos) (drop bufpos (m_ptr (m_mem b))) = LFc :: rest) as Htail.
  { rewrite (drop_S _ _ _ Hc), Hrest. replace (n - bufpos)%nat with (S (n - S bufpos)) by lia. done. }
  rewrite (keep_beyond _ bufpos n), Hkeep, Htail in Hlen |- * by (auto; lia). clear Hkeep.
  set (pre := take start _ ++ out) in *.
  set (r := (pre ++ undot held) ++ LFc :: rest) in *.
  pose proof (i_end _ _ _ _ _ _ Hs Hst) as Hend. pose proof (i_holds _ _ _ _ _ _ Hs) as Hh.
  destruct (i_dels _ _ _ _ _ _ Hs) as (ds & Hd & _).
  pose proof (undot_length _ _ bufpos Hh) as Hu.
  assert (length (held_dot st bufpos) = 1)%nat as Hone by (destruct st; done || (exfalso; by apply Hdot)).
  assert (length rest = n - S bufpos)%nat as Hlrest.
  { apply (f_equal length) in Htail. rewrite length_take, length_drop in Htail. cbn in Htail. lia. }
  assert (length r = length pre + length (undot held) + S (length rest))%nat as Hr1.
  { unfold r. rewrite !length_app. done. }
  cbn [set_state srcendpos s_state]. rewrite Hd, length_app in Hlen |- *. rewrite i32_small by lia.
  assert (Z.of_nat (srcendpos s) - Z.of_nat (length ds + length (held_dot st bufpos)) + 1 = Z.of_nat (length pre)) as He by lia.
  rewrite He. destruct (Z.leb_spec 0 (Z.of_nat (length pre))); [|lia].
  rewrite !size_t_small, Nat2Z.id by lia.
  eexists _, _. split; [reflexivity|].
  assert (contents (Mem.mk (r ++ drop (length r) (m_ptr (m_mem b))) (length r)) = r) as Hcont.
  { unfold contents. cbn. apply take_app_length. }
  replace (Z.to_nat (Z.of_nat n - Z.of_nat (length ds + length (held_dot st bufpos)))) with (length r) by lia.
  replace (Z.to_nat (Z.of_nat bufpos - Z.of_nat (length ds + length (held_dot st bufpos)) + 1))
    with (S (length (pre ++ undot held))) by (rewrite length_app; lia).
  unfold search_result. cbn [m_mem m_nextpos m_eodState m_eodcharbuf]. rewrite Hcont. split_and!; auto.
  - unfold size. cbn. rewrite length_app, length_drop. lia.
  - unfold block_wf, size. cbn. rewrite length_app. lia.
  - unfold r. rewrite <- !app_assoc, take_app_length. by rewrite take_start by lia.
  - unfold pre. rewrite length_app, length_take. lia.
  - cbn [m_pos]. rewrite Hr1. lia.
  - apply (r_saved _ Hr).
  - unfold r. rewrite drop_app_ge by lia.
    replace (S (length (pre ++ undot held)) - length (pre ++ undot held))%nat with 1%nat by lia. done.
  - cbn [m_pos]. rewrite Hr1, length_app. lia.
Qed.

Lemma getEoD_stream b start :
  ready b -> (start < m_pos (m_mem b))%nat ->
  let '(out, r) := stream SRC [] (drop start (contents (m_mem b))) in
  exists b' eod, getEoD start b = Ok (b', eod) /\ search_result b start out r b' eod.
Proof.
  intros Hr Hlt. destruct (stream SRC [] _) as [out [[st held]|rest]] eqn:E.
  - by apply getEoD_no_eod.
  - by apply getEoD_eod.
Qed.

(** The same when there is nothing to search. *)
Lemma getEoD_search b start :
  ready b -> (start <= m_pos (m_mem b))%nat ->
  let '(out, r) := stream SRC [] (drop start (contents (m_mem b))) in
  exists b' eod, getEoD start b = Ok (b', eod) /\ search_result b start out r b' eod.
Proof.
  intros Hr Hle. destruct (decide (start < m_pos (m_mem b))%nat) as [Hlt|Hge]; [by apply getEoD_stream|].
  assert (start = m_pos (m_mem b)) as -> by lia. rewrite drop_start, Nat.sub_diag, take_0. cbn [stream].
  unfold getEoD, getEoDpos. rewrite (proj2 (Nat.leb_le _ _)) by lia. cbn.
  eexists _, _. split; [reflexivity|]. destruct Hr as [? ? ? ?].
  unfold search_result. rewrite app_nil_r. by split_and!.
Qed.

(** ** Reading in chunks *)

(** The saved characters come first in the memory of the next message. *)
Definition refilled (b : t) (chunk : list ascii) : t :=
  let k := length (m_eodcharbuf b) in
  set_pos (length chunk + k) (write k chunk (getNetworkMessageRead b).1).

Lemma refilled_ready b chunk held :
  m_eodState b = SRC -> m_eodcharbuf b = held -> Z.of_nat (size (m_mem b)) < 2 ^ 31 ->
  (length held < size (m_mem b))%nat -> (length chunk + length held <= size (m_mem b))%nat ->
  getNetworkMessageRead b = ((getNetworkMessageRead b).1, Some (length held, size (m_mem b) - length held)%nat) /\
  size (m_mem (getNetworkMessageRead b).1) = size (m_mem b) /\
  ready (refilled b chunk) /\ size (m_mem (refilled b chunk)) = size (m_mem b) /\
  contents (m_mem (refilled b chunk)) = held ++ chunk.
Proof.
  intros Hst <- Hsz Hlt Hle. unfold refilled, getNetworkMessageRead.
  destruct (Nat.leb_spec (size (m_mem b)) (length (m_eodcharbuf b))); [lia|]. unfold size in *. cbn.
  split_and!; auto.
  - rewrite length_app, length_drop. lia.
  - constructor; cbn; auto; unfold block_wf, size; cbn; rewrite ?take_app_length, !length_app, !length_drop, ?length_app, ?length_drop; lia.
  - rewrite take_app_length, !length_app, length_drop, length_app, length_drop. lia.
  - unfold contents. cbn. rewrite take_app_length, app_assoc. apply take_app_length'. rewrite length_app. lia.
Qed.

Lemma stream_eod_app s1 : forall st held s2 out rest,
  stream st held s1 = (out, inr rest) -> stream st held (s1 ++ s2) = (out, inr (rest ++ s2)).
Proof.
  induction s1 as [|c s1 IH]; intros st held s2 out rest; cbn [stream app]; [discriminate|].
  destruct (no_more st c); [by intros [= <- <-]|].
  destruct (stream_char st held c) as [[o1 st1] h1]. destruct (stream st1 h1 s1) as [o2 r2] eqn:E.
  intros [= <- ->]. by rewrite (IH _ _ s2 _ _ E).
Qed.

(** A part of a message in front of its end. *)
Lemma stream_prefix s1 s2 st held out rest :
  stream st held (s1 ++ s2) = (out, inr rest) -> (length rest <= length s2)%nat ->
  (exists out1 st1 held1 out2, stream st held s1 = (out1, inl (st1, held1)) /\
     stream st1 held1 s2 = (out2, inr rest) /\ out = out1 ++ out2) \/
  rest = s2.
Proof.
  intros E Hlen. destruct (stream st held s1) as [o1 [[st1 h1]|r1]] eqn:E1.
  - left. rewrite (stream_app _ _ _ s2 _ _ _ E1) in E.
    destruct (stream st1 h1 s2) as [o2 r2] eqn:E2. injection E as <- ->. by exists o1, st1, h1, o2.
  - right. rewrite (stream_eod_app _ _ _ s2 _ _ E1) in E. injection E as <- <-.
    rewrite length_app in Hlen. destruct r1; [done|cbn in Hlen; lia].
Qed.

(** ** The escaping of strings *)

(** A text without two line feeds in a row and without one at its end. *)
Fixpoint regular (s : list ascii) : Prop :=
  match s with
  | [] => True
  | c :: s' => (c = LFc -> match s' with [] => False | d :: _ => d <> LFc end) /\ regular s'
  end.

Lemma escape_regular k : forall s, (length s <= k)%nat -> regular s -> escapeStringDLF s = Ok (escape "000" s).
Proof.
  induction k as [|k IH]; intros [|c s] Hk Hr; try done; [cbn in Hk; lia|].
  destruct Hr as [Hc Hr]. cbn [escapeStringDLF escape]. rewrite andb_false_r.
  destruct (Ascii.eqb_spec c LFc) as [->|Hn].
  - specialize (Hc eq_refl). destruct s as [|d s]; [done|]. destruct Hr as [Hd Hr].
    rewrite IH by (auto; cbn in *; lia). cbn [mbind res_bind escape]. rewrite andb_true_r.
    rewrite (escape_prev d "000") by (by apply Ascii.eqb_neq in Hc as ->). by destruct (Ascii.eqb_spec d dot) as [->|].
  - rewrite IH by (auto; cbn in *; lia). cbn [mbind res_bind]. do 2 f_equal. apply escape_prev.
    by apply Ascii.eqb_neq in Hn as ->.
Qed.

Lemma escape_ends_LF k : forall s, (length s <= k)%nat -> regular s ->
  escapeStringDLF (s ++ [LFc]) = Throw (Undefined "string iterator behind the end").
Proof.
  induction k as [|k IH]; intros [|c s] Hk Hr; try done; [cbn in Hk; lia|].
  destruct Hr as [Hc Hr]. cbn [escapeStringDLF app]. destruct (Ascii.eqb_spec c LFc) as [->|Hn].
  - specialize (Hc eq_refl). destruct s as [|d s]; [done|]. destruct Hr as [Hd Hr]. cbn [app].
    rewrite IH by (auto; cbn in *; lia). done.
  - rewrite IH by (auto; cbn in *; lia). done.
Qed.

(** The messages of the authentication protocol.  The function that escapes a string
    does what the automaton does, and the receiver gets the message back, if no two line
    feeds follow each other and none is at the end.  With a line feed at the end its
    iterator passes the end of the string, and a dot behind two line feeds is not escaped:
    a message that contains an end marker in this form is cut there by the receiver. *)
Theorem escapeStringDLF_messages :
  (forall msg rest, regular msg ->
     exists t, escapeStringDLF msg = Ok t /\ t = escape "000" msg /\
       stream SRC [] (t ++ eod_marker ++ rest) = (msg, inr rest)) /\
  (forall msg, regular msg ->
     escapeStringDLF (msg ++ [LFc]) = Throw (Undefined "string iterator behind the end")) /\
  (escapeStringDLF ["a"; LFc; LFc; dot; LFc; "b"]%char = Ok ["a"; LFc; LFc; dot; LFc; "b"]%char /\
   stream SRC [] (["a"; LFc; LFc; dot; LFc; "b"]%char ++ eod_marker) = (["a"; LFc]%char, inr ("b"%char :: eod_marker))).
Proof.
  split; [|split].
  - intros msg rest Hr. exists (escape "000" msg). split; [by apply (escape_regular (length msg))|].
    split; [done|]. apply stream_message.
  - intros msg Hr. by apply (escape_ends_LF (length msg)).
  - split; reflexivity.
Qed.

Lemma escapeStringDLF_messages_witness :
  (exists t, escapeStringDLF ["a"; LFc; dot]%char = Ok t /\ t = escape "000" ["a"; LFc; dot]%char /\
    stream SRC [] (t ++ eod_marker ++ ["X"%char]) = (["a"; LFc; dot]%char, inr ["X"%char])) /\
  escapeStringDLF (["a"; LFc; dot]%char ++ [LFc]) = Throw (Undefined "string iterator behind the end").
Proof.
  assert (regular ["a"; LFc; dot]%char) as Hr by (cbn; split_and!; intros; discriminate || done).
  exact (conj (proj1 escapeStringDLF_messages ["a"; LFc; dot]%char ["X"%char] Hr)
              (proj1 (proj2 escapeStringDLF_messages) ["a"; LFc; dot]%char Hr)).
Defined.
