(* ===== verification/EscDlfHandler.v ===== *)
(** * The protocol handler of data sessions

    Models src/modules/protocol/wolframe/escDlfProtocolHandler.hpp and
    escDlfProtocolHandler.cpp: the handler between the network and a command handler, which
    takes the escapes from the input and recognises its end, and escapes the output.

    The command handler is reached through the interface cmdbind::CommandHandler, the class
    [CommandHandler] here; the laws of this file hold for every instance.  The input and
    the output buffer belong to the connection; the connection writes what it received to
    the input buffer ([receive]) and takes the output before it asks for the next
    operation.  The escaping automaton keeps a pointer to the output block of the handler,
    so the block is the one of the automaton here. *)
From S2P Require Import Prelude Decimal IoBlocks.
Import Mem.

(** ** The interface to command handlers *)

Inductive Operation := READ | WRITE | CLOSE.
#[global] Instance Operation_eq_dec : EqDecision Operation.
Proof. solve_decision. Defined.

Class CommandHandler (H : Type) := {
  ch_nextOperation : M H Operation;
  ch_putInput : list ascii -> bool -> M H unit;
  ch_getOutput : M H (list ascii);
  ch_lastError : H -> option string
}.

(** ** State *)

Inductive State := StartProcessing | Processing | FlushingOutput | DiscardInput | Terminated.
#[global] Instance State_eq_dec : EqDecision State.
Proof. solve_decision. Defined.

Record t (H : Type) := mk {
  m_state : State;
  m_unconsumedInput : bool;
  m_gotEoD : bool;
  m_writedata : list ascii;
  m_input : InputBlock.t;
  m_esc_stm : EscapeSTM.t;
  m_eoD : nat;
  m_nextmsg : nat;
  m_itrpos : nat;
  m_cmdhandler : option H;
  m_lastError : option string
}.
Arguments mk {H} _ _ _ _ _ _ _ _ _ _ _.
Arguments m_state {H} _.
Arguments m_unconsumedInput {H} _.
Arguments m_gotEoD {H} _.
Arguments m_writedata {H} _.
Arguments m_input {H} _.
Arguments m_esc_stm {H} _.
Arguments m_eoD {H} _.
Arguments m_nextmsg {H} _.
Arguments m_itrpos {H} _.
Arguments m_cmdhandler {H} _.
Arguments m_lastError {H} _.

Definition make {H} (cmdhandler : option H) : t H :=
  mk StartProcessing false false [] (InputBlock.make (Mem.mk [] 0)) EscapeSTM.init 0 0 0 cmdhandler None.

Section handler.
Context {H : Type} `{CommandHandler H}.

Definition with_state (st : State) (s : t H) : t H :=
  mk st (m_unconsumedInput s) (m_gotEoD s) (m_writedata s) (m_input s) (m_esc_stm s) (m_eoD s)
    (m_nextmsg s) (m_itrpos s) (m_cmdhandler s) (m_lastError s).
Definition with_unconsumed (b : bool) (s : t H) : t H :=
  mk (m_state s) b (m_gotEoD s) (m_writedata s) (m_input s) (m_esc_stm s) (m_eoD s)
    (m_nextmsg s) (m_itrpos s) (m_cmdhandler s) (m_lastError s).
Definition with_gotEoD (s : t H) : t H :=
  mk (m_state s) (m_unconsumedInput s) true (m_writedata s) (m_input s) (m_esc_stm s) (m_eoD s)
    (m_nextmsg s) (m_itrpos s) (m_cmdhandler s) (m_lastError s).
Definition with_writedata (w : list ascii) (s : t H) : t H :=
  mk (m_state s) (m_unconsumedInput s) (m_gotEoD s) w (m_input s) (m_esc_stm s) (m_eoD s)
    (m_nextmsg s) (m_itrpos s) (m_cmdhandler s) (m_lastError s).
Definition with_input (i : InputBlock.t) (s : t H) : t H :=
  mk (m_state s) (m_unconsumedInput s) (m_gotEoD s) (m_writedata s) i (m_esc_stm s) (m_eoD s)
    (m_nextmsg s) (m_itrpos s) (m_cmdhandler s) (m_lastError s).
Definition with_esc_stm (e : EscapeSTM.t) (s : t H) : t H :=
  mk (m_state s) (m_unconsumedInput s) (m_gotEoD s) (m_writedata s) (m_input s) e (m_eoD s)
    (m_nextmsg s) (m_itrpos s) (m_cmdhandler s) (m_lastError s).
Definition with_eoD (eod : nat) (s : t H) : t H :=
  mk (m_state s) (m_unconsumedInput s) (m_gotEoD s) (m_writedata s) (m_input s) (m_esc_stm s) eod
    (m_nextmsg s) (m_itrpos s) (m_cmdhandler s) (m_lastError s).
Definition with_nextmsg (n : nat) (s : t H) : t H :=
  mk (m_state s) (m_unconsumedInput s) (m_gotEoD s) (m_writedata s) (m_input s) (m_esc_stm s) (m_eoD s)
    n (m_itrpos s) (m_cmdhandler s) (m_lastError s).
Definition with_itrpos (n : nat) (s : t H) : t H :=
  mk (m_state s) (m_unconsumedInput s) (m_gotEoD s) (m_writedata s) (m_input s) (m_esc_stm s) (m_eoD s)
    (m_nextmsg s) n (m_cmdhandler s) (m_lastError s).
Definition with_cmdhandler (h : option H) (s : t H) : t H :=
  mk (m_state s) (m_unconsumedInput s) (m_gotEoD s) (m_writedata s) (m_input s) (m_esc_stm s) (m_eoD s)
    (m_nextmsg s) (m_itrpos s) h (m_lastError s).
Definition setLastError (msg : string) (s : t H) : t H :=
  mk (m_state s) (m_unconsumedInput s) (m_gotEoD s) (m_writedata s) (m_input s) (m_esc_stm s) (m_eoD s)
    (m_nextmsg s) (m_itrpos s) (m_cmdhandler s) (Some msg).

Definition m_output (s : t H) : Mem.t := EscapeSTM.m_output (m_esc_stm s).

(** ** The interface to the connection *)

Definition interruptDataSessionMarker (s : t H) : list ascii :=
  match m_state s with
  | Terminated => []
  | _ => ["013"%char; "010"%char; "."%char; "013"%char; "010"%char]
  end.

Definition setInputBuffer (buf : list ascii) (s : t H) : t H :=
  let i := m_input s in
  with_nextmsg 0
    (with_input (InputBlock.mk (Mem.set buf) (InputBlock.m_nextpos i) (InputBlock.m_eodState i)
                   (InputBlock.m_eodcharbuf i)) s).

Definition setOutputBuffer (buf : list ascii) (pos : nat) (s : t H) : t H :=
  with_esc_stm (EscapeSTM.set_output (Mem.mk buf pos) (m_esc_stm s)) s.

(** A call of the command handler; without one it would be a null dereference. *)
Definition call {A} (m : M H A) : M (t H) A := fun s =>
  match m_cmdhandler s with
  | None => (s, Throw (Undefined "null command handler"))
  | Some h => let '(h', r) := m h in (with_cmdhandler (Some h') s, r)
  end.

(** The next block of the command handler, if the last one is finished. *)
Definition fetchOutput : M (t H) unit := fun s =>
  if EscapeSTM.hasMore (m_esc_stm s) then (s, Ok tt)
  else (data ← call ch_getOutput;
        modify (fun s => with_esc_stm (EscapeSTM.setNextBlock (m_output s) data (m_esc_stm s)) s)) s.

(** Escape into the output buffer what fits; the data to write are what was added. *)
Definition processOutput (outputstart : nat) : M (t H) bool := fun s =>
  match EscapeSTM.process (m_esc_stm s) with
  | Ok stm =>
      let o := EscapeSTM.m_output stm in
      let written := drop outputstart (take (m_pos o) (m_ptr o)) in
      (with_writedata written (with_esc_stm (EscapeSTM.set_output (Mem.setPos 0 o) stm) s),
       Ok (bool_decide (written <> [])))
  | Throw e => (s, Throw e)
  | OutOfFuel => (s, OutOfFuel)
  end.

Definition getCommandHandlerWriteData : M (t H) bool := fun s =>
  match m_cmdhandler s with
  | None => (with_writedata [] s, Ok false)
  | Some _ => (_ ← fetchOutput; processOutput (m_pos (m_output s))) s
  end.

Definition consumeInput : M (t H) bool := fun s =>
  if m_unconsumedInput s then
    (_ ← (if bool_decide (m_cmdhandler s <> None /\ m_state s <> DiscardInput) then
            let data := take (m_eoD s - m_itrpos s) (drop (m_itrpos s) (m_ptr (InputBlock.m_mem (m_input s)))) in
            _ ← throw_if (m_eoD s <? m_itrpos s)%nat (Undefined "negative size of the data");
            call (ch_putInput data (InputBlock.gotEoD (m_input s)))
          else mret tt);
     _ ← modify (fun s =>
           if InputBlock.gotEoD (m_input s) then
             let '(i, nextpos) := InputBlock.skipEoD (m_input s) in
             with_nextmsg (InputBlock.size_t nextpos) (with_input i (with_gotEoD s))
           else s);
     _ ← modify (with_unconsumed false);
     mret true) s
  else (s, Ok false).

(** [startidx] is the position of the chunk in the input buffer. *)
Definition putInput (startidx chunksize : nat) : M (t H) unit := fun s =>
  (_ ← throw_if (size (InputBlock.m_mem (m_input s)) <? chunksize + startidx)%nat
         (LogicError "illegal input range passed to EscDlfProtocolHandler");
   _ ← modify (fun s => with_input (InputBlock.set_pos (chunksize + startidx) (m_input s)) s);
   _ ← throw_if (negb (m_itrpos s =? 0)%nat && negb (startidx =? m_itrpos s)%nat)
         (LogicError "unexpected buffer start for input to cmd handler");
   let start := if (m_itrpos s =? 0)%nat then startidx else 0%nat in
   _ ← modify (with_itrpos start);
   '(i, eod) ← (fun s => (s, InputBlock.getEoD start (m_input s)));
   _ ← modify (fun s => with_nextmsg eod (with_eoD eod (with_input i s)));
   _ ← modify (with_unconsumed true);
   if bool_decide (m_state s = StartProcessing) then mret tt
   else _ ← consumeInput; mret tt) s.

(** The position and the size of the memory for the next chunk. *)
Definition getInputBlock : M (t H) (nat * nat) := fun s =>
  match InputBlock.getNetworkMessageRead (m_input s) with
  | (i, Some (begin, maxBlockSize)) => (with_itrpos begin (with_input i s), Ok (begin, maxBlockSize))
  | (i, None) => (with_input i s, Throw (LogicError "buffer too small"))
  end.

Definition getOutput : M (t H) (list ascii) := fun s => (with_writedata [] s, Ok (m_writedata s)).

Definition getDataLeft (s : t H) : nat * nat :=
  (m_nextmsg s, (m_pos (InputBlock.m_mem (m_input s)) - m_nextmsg s)%nat).

(** ** The state machine *)

(** Set the state and go on with the loop, or return an operation. *)
Definition goto (st : State) : M (t H) (option Operation) := _ ← modify (with_state st); mret None.
Definition return_ (op : Operation) : M (t H) (option Operation) := mret (Some op).

(** Exceptions of the command handler that are runtime errors. *)
Definition catch_runtime_error (m : M (t H) (option Operation)) : M (t H) (option Operation) :=
  try_catch m (fun e =>
    match e with
    | RuntimeError msg => _ ← modify (setLastError msg); goto DiscardInput
    | e => throw e
    end).

Definition eod_text : list ascii := ["013"%char; "010"%char; "."%char; "013"%char; "010"%char].

Definition case_FlushingOutput : M (t H) (option Operation) := fun s =>
  match m_cmdhandler s with
  | None =>
      (_ ← modify (setLastError "internal: command handler undefined");
       _ ← modify (with_state DiscardInput); return_ READ) s
  | Some _ => (more ← getCommandHandlerWriteData; if more : bool then return_ WRITE else goto Processing) s
  end.

Definition case_DiscardInput : M (t H) (option Operation) := fun s =>
  if m_gotEoD s then
    (_ ← modify (with_writedata eod_text); _ ← modify (with_state Terminated); return_ WRITE) s
  else (more ← consumeInput; if more : bool then mret None else return_ READ) s.

Definition case_Processing : M (t H) (option Operation) := fun s =>
  match m_cmdhandler s with
  | None => goto DiscardInput s
  | Some _ =>
      (_ ← modify (with_state Processing);
       catch_runtime_error
         (op ← call ch_nextOperation;
          match op with
          | READ =>
              more ← consumeInput;
              if more : bool then mret None
              else got ← gets m_gotEoD; if got : bool then goto DiscardInput else return_ READ
          | WRITE =>
              more ← getCommandHandlerWriteData;
              if more : bool then _ ← modify (with_state FlushingOutput); return_ WRITE
              else _ ← modify (with_state Terminated);
                   _ ← modify (setLastError "illegal state: got WRITE from command handler but no data");
                   return_ CLOSE
          | CLOSE =>
              err ← gets (fun s => m_cmdhandler s ≫= ch_lastError);
              _ ← match err with Some msg => modify (setLastError msg) | None => mret tt end;
              goto DiscardInput
          end)) s
  end.

Definition step : M (t H) (option Operation) := fun s =>
  match m_state s with
  | Terminated => return_ CLOSE s
  | FlushingOutput => case_FlushingOutput s
  | DiscardInput => case_DiscardInput s
  | StartProcessing | Processing => case_Processing s
  end.

(** The loop ends when the command handler asks for something the network has to do;
    a command handler can keep it busy. *)
Fixpoint nextOperation (fuel : nat) : M (t H) Operation :=
  match fuel with
  | O => fun s => (s, OutOfFuel)
  | S fuel' => r ← step; match r with Some op => mret op | None => nextOperation fuel' end
  end.

(** ** The connection *)

(** The connection asks for the memory, writes a chunk it received there and passes it on. *)
Definition receive (chunk : list ascii) : M (t H) unit :=
  '(begin, maxsize) ← getInputBlock;
  _ ← throw_if (maxsize <? length chunk)%nat (Undefined "more received than fits");
  _ ← modify (fun s => with_input (InputBlock.write begin chunk (m_input s)) s);
  putInput begin (length chunk).

End handler.
