(* ===== verification/EscDlfSession.v ===== *)
(** * Data sessions

    What the handler of data sessions promises: the command handler gets the data the
    client escaped, whatever the division into network messages, and the client gets the
    escaped output of the command handler, whatever the division into buffers. *)
From S2P Require Import Prelude Decimal IoBlocks IoBlocksEscape IoBlocksEod.
Import Mem.
From S2P Require Import EscDlfHandler.

Section session.
Context {H : Type} `{CommandHandler H}.

(** ** Input *)

(** A command handler that accepts a sequence of pieces of input. *)
Inductive puts : list (list ascii * bool) -> H -> H -> Prop :=
| puts_nil h : puts [] h h
| puts_cons d eod ps h h1 h' :
    ch_putInput d eod h = (h1, Ok tt) -> puts ps h1 h' -> puts ((d, eod) :: ps) h h'.

(** A session that has [held] back and waits for the next of its chunks. *)
Record waiting (n : nat) (st : InputBlock.EoD) (held : list ascii) (h : H) (s : t H) : Prop := {
  w_state : m_state s = Processing \/ m_state s = FlushingOutput;
  w_handler : m_cmdhandler s = Some h;
  w_consumed : m_unconsumedInput s = false;
  w_eod : InputBlock.m_eodState (m_input s) = InputBlock.SRC;
  w_saved : InputBlock.m_eodcharbuf (m_input s) = held;
  w_holds : holds st held;
  w_size : size (InputBlock.m_mem (m_input s)) = n
}.

(** A session that got all of its data; what follows is left for the next one. *)
Record finished (h : H) (rest : list ascii) (s : t H) : Prop := {
  f_state : m_state s = Processing \/ m_state s = FlushingOutput;
  f_handler : m_cmdhandler s = Some h;
  f_got : m_gotEoD s = true;
  f_consumed : m_unconsumedInput s = false;
  f_left : let '(pos, k) := getDataLeft s in
           take k (drop pos (m_ptr (InputBlock.m_mem (m_input s)))) = rest
}.

Lemma i32_nat k : (Z.of_nat k < 2 ^ 31) -> InputBlock.size_t (i32 (Z.of_nat k)) = k.
Proof. intros Hk. rewrite i32_small, size_t_small by lia. lia. Qed.

Lemma drop_beyond (l : list ascii) n p : take (n - p) (drop p l) = drop p (take n l).
Proof. symmetry. apply skipn_firstn_comm. Qed.

Lemma consumeInput_put s h h' :
  m_unconsumedInput s = true -> m_cmdhandler s = Some h -> m_state s <> DiscardInput -> m_itrpos s = 0%nat ->
  ch_putInput (take (m_eoD s) (m_ptr (InputBlock.m_mem (m_input s)))) (InputBlock.gotEoD (m_input s)) h = (h', Ok tt) ->
  consumeInput s =
    (with_unconsumed false
       (let s := with_cmdhandler (Some h') s in
        if InputBlock.gotEoD (m_input s) then
          let '(i, nextpos) := InputBlock.skipEoD (m_input s) in
          with_nextmsg (InputBlock.size_t nextpos) (with_input i (with_gotEoD s))
        else s), Ok true).
Proof.
  intros Hun Hh Hst Hi Hput. unfold consumeInput. rewrite Hun.
  rewrite bool_decide_eq_true_2 by (rewrite Hh; auto). rewrite Hi, Nat.sub_0_r, drop_0.
  assert ((m_eoD s <? 0)%nat = false) as E by (apply Nat.ltb_ge; lia).
  unfold mbind, M_bind, throw_if. rewrite E. cbn. unfold call. rewrite Hh, Hput. done.
Qed.

(** The state in which a chunk was searched and waits to be consumed. *)
Definition searched (b : InputBlock.t) (eod : nat) (s : t H) : t H :=
  with_unconsumed true (with_nextmsg eod (with_eoD eod (with_input b (with_itrpos 0 s)))).

Lemma putInput_searched s k chunksize b eod :
  m_state s <> StartProcessing -> m_itrpos s = k -> (chunksize + k <= size (InputBlock.m_mem (m_input s)))%nat ->
  InputBlock.getEoD 0 (InputBlock.set_pos (chunksize + k) (m_input s)) = Ok (b, eod) ->
  putInput k chunksize s =
    (_ ← consumeInput; mret tt) (searched b eod s).
Proof.
  intros Hst Hk Hle Hget. unfold putInput, mbind, M_bind, throw_if, modify.
  rewrite (proj2 (Nat.ltb_ge _ _)) by done. cbn beta iota.
  rewrite Hk, Nat.eqb_refl, andb_false_r. cbn beta iota.
  assert ((if (k =? 0)%nat then k else 0%nat) = 0%nat) as -> by (destruct (Nat.eqb_spec k 0); lia).
  cbn [m_input with_itrpos with_input mret M_ret]. rewrite Hget. cbn beta iota.
  by rewrite bool_decide_eq_false_2.
Qed.

(** One chunk, read by the connection and passed to the handler. *)
Lemma receive_chunk n st held h h' s chunk :
  waiting n st held h s -> Z.of_nat n < 2 ^ 31 -> (4 < n)%nat -> (length chunk + length held <= n)%nat ->
  let '(out, r) := stream st held chunk in
  ch_putInput out (match r with inl _ => false | inr _ => true end) h = (h', Ok tt) ->
  exists s', receive chunk s = (s', Ok tt) /\
    match r with
    | inl (st', held') => waiting n st' held' h' s' /\ m_gotEoD s' = m_gotEoD s
    | inr rest => finished h' rest s'
    end.
Proof.
  intros [Hst Hh Hun Heod Hsaved Hholds Hsize] Hn H4 Hlen. pose proof (holds_length _ _ Hholds) as H5.
  destruct (refilled_ready (m_input s) chunk held Heod Hsaved) as (Hread & Hsize1 & Hready & Hsize2 & Hcont);
    [rewrite Hsize; lia..|]. rewrite Hsize in *.
  pose proof (getEoD_search _ 0 Hready ltac:(lia)) as Hsearch.
  rewrite drop_0, Hcont, (stream_held st) in Hsearch by done.
  destruct (stream st held chunk) as [out r] eqn:Estream. destruct Hsearch as (b' & eod & Hget & Hsz & Hwf & Hout & Heodle & Hr).
  intros Hput. unfold receive, getInputBlock. rewrite M_bind_eq, Hread. cbn beta iota.
  rewrite M_bind_eq, throw_if_false by (apply Nat.ltb_ge; lia). rewrite M_bind_eq. cbn [modify].
  rewrite (putInput_searched _ (length held) (length chunk) b' eod); cbn [m_state m_itrpos m_input with_input with_itrpos].
  2: { by destruct Hst as [-> | ->]. }
  2: done.
  2: { unfold refilled in Hsize2. rewrite Hsaved in Hsize2. change (size (InputBlock.m_mem (InputBlock.write (length held) chunk (InputBlock.getNetworkMessageRead (m_input s)).1)) = n) in Hsize2. lia. }
  2: { unfold refilled in Hget. by rewrite Hsaved in Hget. }
  rewrite take_0 in Hout. cbn [app] in Hout. unfold contents in Hout. rewrite take_take, Nat.min_l in Hout by lia.
  set (s1 := searched _ _ _).
  assert (InputBlock.gotEoD b' = match r with inl _ => false | inr _ => true end) as Hgot.
  { unfold InputBlock.gotEoD. destruct r as [[st' held']|rest].
    - apply bool_decide_eq_false_2. destruct Hr as (-> & _). done.
    - apply bool_decide_eq_true_2. by destruct Hr as (-> & _). }
  rewrite M_bind_eq, (consumeInput_put s1 h h'); [|done|done|by destruct Hst as [E|E]; cbn; rewrite E|done|].
  2: { cbn [s1 searched with_unconsumed with_nextmsg with_eoD with_input m_eoD m_input]. by rewrite Hout, Hgot. }
  cbn [m_input with_cmdhandler s1 searched with_unconsumed with_nextmsg with_eoD with_input].
  rewrite Hgot. eexists. split; [reflexivity|]. destruct r as [[st' held']|rest].
  - destruct Hr as (Hst' & Hheld' & _). split; [|done]. constructor; cbn; auto; [|by rewrite Hsz].
    by eapply holds_end.
  - destruct Hr as (Hst' & _ & Hrest & Hnext). unfold InputBlock.skipEoD. rewrite Hgot.
    assert (m_pos (InputBlock.m_mem b') <= n)%nat by (unfold block_wf in Hwf; rewrite Hsz, Hsize2 in Hwf; lia).
    rewrite i32_nat by lia. constructor; cbn; auto. rewrite drop_beyond. done.
Qed.

(** A sequence of chunks. *)
Fixpoint receive_all (chunks : list (list ascii)) : M (t H) unit :=
  match chunks with [] => mret tt | c :: cs => _ ← receive c; receive_all cs end.

(** ** Output *)

(** The blocks a command handler has for output. *)
Inductive supplies : list (list ascii) -> H -> H -> Prop :=
| supplies_nil h : supplies [] h h
| supplies_cons b bs h h1 h' :
    ch_getOutput h = (h1, Ok b) -> supplies bs h1 h' -> supplies (b :: bs) h h'.

(** The connection asks for output again and again and sends it. *)
Fixpoint write_loop (n : nat) : M (t H) (list ascii) :=
  match n with
  | O => mret []
  | S n' => _ ← getCommandHandlerWriteData; d ← getOutput; ds ← write_loop n'; mret (d ++ ds)
  end.

Lemma write_loop_add n1 : forall n2 s s1 s2 a b,
  write_loop n1 s = (s1, Ok a) -> write_loop n2 s1 = (s2, Ok b) ->
  write_loop (n1 + n2) s = (s2, Ok (a ++ b)).
Proof.
  induction n1 as [|n1 IH]; intros n2 s s1 s2 a b; cbn [write_loop Nat.add].
  { intros [= <- <-] ->. done. }
  intros H1 H2. apply M_bind_Ok in H1 as (s3 & u & E1 & H1). apply M_bind_Ok in H1 as (s4 & d & E2 & H1).
  apply M_bind_Ok in H1 as (s5 & ds & E3 & H1). injection H1 as -> <-.
  rewrite M_bind_eq, E1, M_bind_eq, E2, M_bind_eq, (IH _ _ _ _ _ _ E3 H2).
  cbn. by rewrite app_assoc.
Qed.

(** A session that writes: the automaton is well formed and the buffer has room. *)
Record writing (h : H) (s : t H) : Prop := {
  wr_handler : m_cmdhandler s = Some h;
  wr_wf : Escaping.wf (m_esc_stm s);
  wr_room : (0 < free (m_output s))%nat
}.

Abbreviation owed s := (Escaping.pending (m_esc_stm s)).

(** The state a call leaves behind when [p] was owed. *)
Definition shipped (h : H) (s : t H) (k : nat) (p : list ascii) (e : bool) (s' : t H) : Prop :=
  writing h s' /\ owed s' = drop k p /\ Escaping.ends_LF (m_esc_stm s') = e.

Lemma ship h s :
  writing h s ->
  exists s', processOutput (m_pos (m_output s)) s = (s', Ok (bool_decide (take (free (m_output s)) (owed s) <> []))) /\
    m_writedata s' = take (free (m_output s)) (owed s) /\
    shipped h s (free (m_output s)) (owed s) (Escaping.ends_LF (m_esc_stm s)) s'.
Proof.
  intros [Hh Hw Hf]. destruct (Escaping.process_printed _ Hw) as (m' & Hm & Ho & Hp & Hw' & He).
  unfold processOutput. rewrite Hm. change (EscapeSTM.m_output (m_esc_stm s)) with (m_output s) in *.
  pose proof (printed_emit (m_output s) (take (free (m_output s)) (owed s)) (Escaping.wf_block _ Hw)) as Hpr.
  unfold printed in Hpr. rewrite <- Ho in Hpr. rewrite Hpr. eexists. split; [reflexivity|]. split; [done|].
  split; [|done]. constructor; cbn; [done| |].
  - destruct Hw' as [? ? Hd]. constructor; [unfold block_wf; cbn; lia|done|]. intros Hst. apply Hd, Hst.
  - unfold m_output, free in *. cbn. rewrite Nat.sub_0_r. unfold size. cbn.
    change (length (m_ptr (EscapeSTM.m_output m'))) with (size (EscapeSTM.m_output m')).
    rewrite Ho, size_emit by (rewrite length_take; unfold m_output; lia). lia.
Qed.

(** A call with something left to print writes a part of it. *)
Lemma write_pending h s :
  writing h s -> owed s <> [] ->
  exists s', write_loop 1 s = (s', Ok (take (free (m_output s)) (owed s))) /\
    shipped h s (free (m_output s)) (owed s) (Escaping.ends_LF (m_esc_stm s)) s'.
Proof.
  intros Hwr Hp. pose proof Hwr as [Hh Hw _]. destruct (ship h s Hwr) as (s1 & Hs1 & Hd & Hsh).
  cbn [write_loop]. unfold getCommandHandlerWriteData, fetchOutput.
  rewrite M_bind_eq, Hh, M_bind_eq, Escaping.hasMore_pending, bool_decide_eq_true_2 by done.
  rewrite Hs1. eexists. rewrite M_bind_eq. cbn. rewrite Hd, M_bind_eq. cbn. rewrite app_nil_r. split; [done|].
  destruct Hsh as ([? ? ?] & ? & ?). done.
Qed.

(** A call with nothing left fetches a block first. *)
Lemma write_fetch h h1 s b :
  writing h s -> owed s = [] -> ch_getOutput h = (h1, Ok b) ->
  let p := escape (if Escaping.ends_LF (m_esc_stm s) then LFc else "000"%char) b in
  exists s', write_loop 1 s = (s', Ok (take (free (m_output s)) p)) /\
    shipped h1 s (free (m_output s)) p
      (last_char (if Escaping.ends_LF (m_esc_stm s) then LFc else "000"%char) b =? LFc)%char s'.
Proof.
  intros [Hh Hw Hf] Hp Hget p.
  set (s1 := with_esc_stm (EscapeSTM.setNextBlock (m_output s) b (m_esc_stm s)) (with_cmdhandler (Some h1) s)).
  assert (EscapeSTM.hasMore (m_esc_stm s) = false) as Hmore.
  { rewrite Escaping.hasMore_pending by done. apply bool_decide_eq_false_2. tauto. }
  assert (m_blkpos_end : EscapeSTM.m_blkpos (m_esc_stm s) = length (EscapeSTM.m_blk (m_esc_stm s))).
  { unfold EscapeSTM.hasMore in Hmore. apply Nat.ltb_ge in Hmore. pose proof (Escaping.wf_pos _ Hw). lia. }
  pose proof (Escaping.wf_end _ Hw m_blkpos_end) as Hst.
  assert ((Escaping.prev (EscapeSTM.m_state (m_esc_stm s)) =? LFc)%char = Escaping.ends_LF (m_esc_stm s)) as Hprev.
  { unfold Escaping.ends_LF, Escaping.rest. by rewrite m_blkpos_end, drop_all. }
  assert (forall q, (q =? LFc)%char = Escaping.ends_LF (m_esc_stm s) ->
    (q =? LFc)%char = ((if Escaping.ends_LF (m_esc_stm s) then LFc else "000"%char) =? LFc)%char) as Hq.
  { intros q ->. by destruct (Escaping.ends_LF _). }
  assert (owed s1 = p) as Hp1.
  { unfold Escaping.pending, Escaping.rest. cbn. rewrite drop_0. unfold p.
    destruct (EscapeSTM.m_state (m_esc_stm s)) eqn:E; try done; apply escape_prev, Hq; by rewrite <- Hprev. }
  assert (writing h1 s1) as Hwr1.
  { constructor; [done| |done]. constructor; [apply (Escaping.wf_block _ Hw)|cbn; lia|done]. }
  destruct (ship h1 s1 Hwr1) as (s2 & Hs2 & Hd & Hsh). rewrite Hp1 in *.
  cbn [write_loop]. unfold getCommandHandlerWriteData, fetchOutput.
  rewrite M_bind_eq, Hh, M_bind_eq, Hmore, M_bind_eq. unfold call. rewrite Hh, Hget. cbn [modify]. cbn beta iota.
  change (processOutput _ _) with (processOutput (m_pos (m_output s1)) s1). rewrite Hs2. eexists. rewrite M_bind_eq. cbn.
  rewrite Hd, M_bind_eq. cbn. rewrite app_nil_r. split; [done|]. destruct Hsh as ([? ? ?] & ? & He). split; [done|]. split; [done|].
  etrans; [exact He|]. apply last_char_LF, Hq, Hprev.
Qed.

(** What is owed is written in at most as many calls as it has characters. *)
Lemma write_owed h : forall k s,
  writing h s -> (length (owed s) <= k)%nat ->
  exists n s', (n <= k)%nat /\ write_loop n s = (s', Ok (owed s)) /\ writing h s' /\ owed s' = [] /\
    Escaping.ends_LF (m_esc_stm s') = Escaping.ends_LF (m_esc_stm s).
Proof.
  induction k as [|k IH]; intros s Hwr Hk.
  { exists 0%nat, s. destruct (owed s) eqn:E; [|cbn in Hk; lia]. split_and!; auto. }
  destruct (decide (owed s = [])) as [E|Hn].
  { exists 0%nat, s. rewrite E. split_and!; auto; lia. }
  destruct (write_pending h s Hwr Hn) as (s1 & H1 & Hwr1 & Hp1 & He1).
  destruct (IH s1 Hwr1) as (n & s2 & Hle & H2 & Hwr2 & Hp2 & He2).
  { rewrite Hp1, length_drop. pose proof (wr_room _ _ Hwr).
    destruct (owed s); [done|]. cbn in *. lia. }
  exists (1 + n)%nat, s2. split_and!; auto; [lia| |by rewrite He2].
  rewrite (write_loop_add _ _ _ _ _ _ _ H1 H2), Hp1, take_drop. done.
Qed.

Lemma write_blocks bs : forall h h' s,
  writing h s -> owed s = [] -> supplies bs h h' ->
  let text := escape (if Escaping.ends_LF (m_esc_stm s) then LFc else "000"%char) (concat bs) in
  exists n s', (n <= length bs + length text)%nat /\ write_loop n s = (s', Ok text) /\
    writing h' s' /\ owed s' = [].
Proof.
  induction bs as [|b bs IH]; intros h h' s Hwr Hp Hs.
  { exists 0%nat, s. inversion Hs; subst. split_and!; auto; cbn; lia. }
  inversion Hs as [|? ? ? h1 ? Hget Hs1]; subst. cbn zeta.
  set (q := if Escaping.ends_LF (m_esc_stm s) then LFc else "000"%char).
  destruct (write_fetch h h1 s b Hwr Hp Hget) as (s1 & H1 & Hwr1 & Hp1 & He1). fold q in H1, Hp1, He1.
  destruct (write_owed h1 (length (owed s1)) s1 Hwr1 (Nat.le_refl _)) as (n2 & s2 & Hn2 & H2 & Hwr2 & Hp2 & He2).
  destruct (IH h1 h' s2 Hwr2 Hp2 Hs1) as (n3 & s3 & Hn3 & H3 & Hwr3 & Hp3).
  assert (escape (if Escaping.ends_LF (m_esc_stm s2) then LFc else "000"%char) (concat bs)
          = escape (last_char q b) (concat bs)) as Hesc.
  { apply escape_prev. rewrite He2, He1. by destruct (last_char q b =? LFc)%char. }
  rewrite Hesc in H3, Hn3. cbn [concat]. rewrite escape_app, length_app. cbn [length].
  exists (1 + (n2 + n3))%nat, s3. split_and!; auto.
  - rewrite Hp1, length_drop in Hn2. pose proof (wr_room _ _ Hwr). lia.
  - rewrite (write_loop_add _ _ _ _ _ _ _ H1 (write_loop_add _ _ _ _ _ _ _ H2 H3)).
    rewrite Hp1, app_assoc, take_drop. done.
Qed.

(** ** The session *)

Lemma receive_pieces n chunks : forall st held out st' held',
  holds st held -> Z.of_nat n < 2 ^ 31 -> (4 < n)%nat -> Forall (fun c => length c + 4 <= n)%nat chunks ->
  stream st held (concat chunks) = (out, inl (st', held')) ->
  exists ps, concat (map fst ps) = out /\ Forall (fun p => p.2 = false) ps /\
    forall h h' s, waiting n st held h s -> puts ps h h' ->
      exists s', receive_all chunks s = (s', Ok tt) /\ waiting n st' held' h' s'.
Proof.
  induction chunks as [|c cs IH]; intros st held out st' held' Hh Hn H4 Hc; cbn [concat].
  { intros [= <- <- <-]. exists []. split_and!; auto. intros h h' s Hw Hp. inversion Hp; subst. by exists s. }
  intros Hs. apply Forall_cons in Hc as [Hc Hcs].
  destruct (stream st held c) as [o1 [[st1 h1]|r1]] eqn:E1;
    [|rewrite (stream_eod_app _ _ _ _ _ _ E1) in Hs; discriminate].
  rewrite (stream_app _ _ _ _ _ _ _ E1) in Hs.
  destruct (stream st1 h1 (concat cs)) as [o2 r2] eqn:E2. injection Hs as <- ->.
  destruct (IH _ _ _ _ _ (holds_end _ _ _ _ _ _ Hh E1) Hn H4 Hcs E2) as (ps & Hps & Hf & Hrec).
  exists ((o1, false) :: ps). cbn [map fst concat]. rewrite Hps. split_and!; auto.
  intros h h' s Hw Hp. inversion Hp as [|? ? ? ? hm ? Hput Hp']; subst.
  pose proof (holds_length _ _ Hh).
  pose proof (receive_chunk n st held h hm s c Hw Hn H4 ltac:(lia)) as Hr. rewrite E1 in Hr.
  destruct (Hr Hput) as (s1 & Hs1 & Hw1 & _). destruct (Hrec _ _ _ Hw1 Hp') as (s2 & Hs2 & Hw2).
  exists s2. split; [|done]. cbn [receive_all]. by rewrite M_bind_eq, Hs1.
Qed.

Lemma receive_all_snoc cs c : forall s s1,
  receive_all cs s = (s1, Ok tt) -> receive_all (cs ++ [c]) s = receive c s1.
Proof.
  induction cs as [|c0 cs IH]; intros s s1; cbn [receive_all app].
  - intros [= <-]. rewrite M_bind_eq. by destruct (receive c s) as [s2 [[]|e|]].
  - intros H1. apply M_bind_Ok in H1 as (s2 & [] & E & H2). rewrite M_bind_eq, E. by apply IH.
Qed.

Lemma puts_snoc ps p : forall h h', puts (ps ++ [p]) h h' ->
  exists h1, puts ps h h1 /\ ch_putInput p.1 p.2 h1 = (h', Ok tt).
Proof.
  induction ps as [|[d e] ps IH]; intros h h' Hp; inversion Hp as [|? ? ? ? h1 ? Hput Hp']; subst.
  - inversion Hp'; subst. exists h. by split; [constructor|].
  - destruct (IH _ _ Hp') as (h2 & H1 & H2). exists h2. split; [|done]. by econstructor.
Qed.

(** C2. The input of a session.  Whatever data a client sends, escaped and followed by the
    end marker, and however the network divides them into chunks that fit into the buffer,
    the command handler gets the data in pieces, unescaped and without the marker, the
    last piece and only that one with the flag for the end of data, and what follows the
    marker is left for the next session.  The pieces depend on the chunks only, not on the
    command handler or the rest of the state. *)
Theorem session_input n data rest chunks final :
  Z.of_nat n < 2 ^ 31 -> (4 < n)%nat -> Forall (fun c => length c + 4 <= n)%nat (chunks ++ [final]) ->
  concat (chunks ++ [final]) = escape "000" data ++ eod_marker ++ rest ->
  (length rest < length final)%nat ->
  exists ps piece, concat (map fst ps) ++ piece = data /\ Forall (fun p => p.2 = false) ps /\
    forall h h' s, waiting n InputBlock.SRC [] h s -> puts (ps ++ [(piece, true)]) h h' ->
      exists s', receive_all (chunks ++ [final]) s = (s', Ok tt) /\ finished h' rest s'.
Proof.
  intros Hn H4 Hc Hcat Hlen. apply Forall_app in Hc as [Hc Hf]. apply Forall_cons in Hf as [Hf _].
  pose proof (stream_message data rest) as Hm. rewrite <- Hcat, concat_app in Hm. cbn in Hm. rewrite app_nil_r in Hm.
  destruct (stream_prefix _ _ _ _ _ _ Hm ltac:(lia)) as [(o1 & st1 & h1 & o2 & E1 & E2 & ->)| ->]; [|lia].
  destruct (receive_pieces n chunks _ _ _ _ _ holds_SRC Hn H4 Hc E1) as (ps & Hps & Hfalse & Hrec).
  exists ps, o2. rewrite Hps. split_and!; auto. intros h h' s Hw Hp.
  apply puts_snoc in Hp as (hm & Hp & Hput). destruct (Hrec _ _ _ Hw Hp) as (s1 & Hs1 & Hw1).
  pose proof (holds_length _ _ (w_holds _ _ _ _ _ Hw1)).
  pose proof (receive_chunk n st1 h1 hm h' s1 final Hw1 Hn H4 ltac:(lia)) as Hr. rewrite E2 in Hr.
  destruct (Hr Hput) as (s2 & Hs2 & Hfin). exists s2. split; [|done].
  by rewrite (receive_all_snoc _ _ _ _ Hs1).
Qed.

(** C3. The output of a session.  With room for one character in the output buffer, the
    blocks of the command handler are written completely and escaped as one text, whatever
    the size of the buffer, in a bounded number of calls. *)
Theorem session_output h h' s bs :
  writing h s -> EscapeSTM.m_state (m_esc_stm s) = EscapeSTM.SRC -> owed s = [] -> supplies bs h h' ->
  exists n s', (n <= length bs + length (escape "000" (concat bs)))%nat /\
    write_loop n s = (s', Ok (escape "000" (concat bs))) /\
    m_cmdhandler s' = Some h' /\ EscapeSTM.hasMore (m_esc_stm s') = false.
Proof.
  intros Hwr Hst Hp Hs. destruct (write_blocks bs h h' s Hwr Hp Hs) as (n & s' & Hn & Hw & Hwr' & Hp').
  assert (Escaping.ends_LF (m_esc_stm s) = false) as He.
  { unfold Escaping.ends_LF. pose proof (wr_wf _ _ Hwr) as Hwf.
    pose proof (Escaping.hasMore_pending _ Hwf) as Hmore. rewrite Hp in Hmore.
    unfold EscapeSTM.hasMore in Hmore. apply Nat.ltb_ge in Hmore.
    unfold Escaping.rest. rewrite drop_ge by done. by rewrite Hst. }
  rewrite He in Hn, Hw. exists n, s'. split_and!; auto; [apply (wr_handler _ _ Hwr')|].
  rewrite Escaping.hasMore_pending by apply (wr_wf _ _ Hwr'). apply bool_decide_eq_false_2. tauto.
Qed.
End session.

(** ** Instances *)

(** A command handler that records its input and has given blocks for output. *)
#[local] Instance recorder : CommandHandler (list (list ascii * bool) * list (list ascii)) := {
  ch_nextOperation := fun h => (h, Ok READ);
  ch_putInput := fun d eod h => ((h.1 ++ [(d, eod)], h.2), Ok tt);
  ch_getOutput := fun h =>
    match h.2 with
    | [] => (h, Ok [])
    | b :: bs => ((h.1, bs), Ok b)
    end;
  ch_lastError := fun _ => None
}.

Lemma recorder_puts ps : forall r bs, puts ps (r, bs) (r ++ ps, bs).
Proof.
  induction ps as [|[d e] ps IH]; intros r bs; [rewrite app_nil_r; constructor|].
  eapply (puts_cons d e ps _ (r ++ [(d, e)], bs)); [done|].
  replace (r ++ (d, e) :: ps) with ((r ++ [(d, e)]) ++ ps) by (by rewrite <- app_assoc). apply IH.
Qed.

(** A session with an input buffer of ten and an output buffer of two characters. *)
Definition example_session : t (list (list ascii * bool) * list (list ascii)) :=
  with_state Processing (setOutputBuffer (replicate 2 "000"%char) 0
    (setInputBuffer (replicate 10 "000"%char) (make (Some ([], [[LFc]; [dot; "b"%char]]))))).

Lemma session_input_witness :
  exists ps piece s',
    concat (map fst ps) ++ piece = ["a"; LFc; dot; "b"]%char /\ Forall (fun p => p.2 = false) ps /\
    receive_all [["a"; LFc; dot]; [dot; "b"; CRc; LFc]; [dot; CRc; LFc; "X"]]%char example_session = (s', Ok tt) /\
    finished (ps ++ [(piece, true)], [[LFc]; [dot; "b"%char]]) ["X"%char] s'.
Proof.
  destruct (session_input (H := list (list ascii * bool) * list (list ascii)) 10 ["a"; LFc; dot; "b"]%char ["X"%char]
    [["a"; LFc; dot]; [dot; "b"; CRc; LFc]]%char [dot; CRc; LFc; "X"]%char)
    as (ps & piece & H1 & H2 & H3); [reflexivity|lia|repeat (constructor; [cbn; lia|]); constructor|reflexivity|cbn; lia|].
  destruct (H3 ([], [[LFc]; [dot; "b"%char]]) (ps ++ [(piece, true)], [[LFc]; [dot; "b"%char]]) example_session)
    as (s' & H4 & H5).
  - constructor; try reflexivity; [left; reflexivity|constructor].
  - exact (recorder_puts (ps ++ [(piece, true)]) [] _).
  - exists ps, piece, s'. exact (conj H1 (conj H2 (conj H4 H5))).
Defined.

Lemma session_output_witness :
  exists n s', write_loop n example_session = (s', Ok [LFc; dot; dot; "b"%char]).
Proof.
  destruct (session_output (H := list (list ascii * bool) * list (list ascii)) ([], [[LFc]; [dot; "b"%char]]) ([], []) example_session
    [[LFc]; [dot; "b"%char]]) as (n & s' & _ & H1 & _); [| | | |exists n, s'; exact H1].
  - constructor; [reflexivity| |cbn; lia]. constructor; [unfold block_wf; cbn; lia|cbn; lia|discriminate].
  - reflexivity.
  - reflexivity.
  - econstructor; [reflexivity|]. econstructor; [reflexivity|]. constructor.
Defined.
