(* ===== verification/CmdParse.v ===== *)
(** * Command lines

    Models src/modules/protocol/wolframe/parser.hpp (the lexical functions of the protocol
    and the table of commands) and the argument buffer of buffers.hpp.

    The functions read from an iterator range of an input block.  The range is the list of
    the characters left here; what a function leaves is part of its result.  Characters are
    signed in the comparisons of the code. *)
From S2P Require Import Prelude.

Definition schar (c : ascii) : Z := swrap 8 (Z.of_nat (nat_of_ascii c)).

(** ** Lexical functions *)

Module Parser.

(** The functions return what is left and whether there is something left. *)
Definition rest_ok (src : list ascii) : list ascii * bool :=
  (src, match src with [] => false | _ => true end).

Fixpoint skipSpaces (src : list ascii) : list ascii * bool :=
  match src with
  | c :: src' => if (c =? " ")%char || (c =? "009")%char then skipSpaces src' else rest_ok src
  | [] => rest_ok []
  end.

Definition isEOL (c : ascii) : bool := (c =? "013")%char || (c =? "010")%char.

Fixpoint skipLine (src : list ascii) : list ascii * bool :=
  match src with
  | c :: src' => if isEOL c then rest_ok src else skipLine src'
  | [] => rest_ok []
  end.

Definition consumeEOL (src : list ascii) : list ascii * bool :=
  match src with
  | [] => ([], false)
  | c :: src' =>
      let src := if (c =? "013")%char then src' else src in
      match src with
      | [] => ([], false)
      | c :: src' => if (c =? "010")%char then (src', true) else (src, false)
      end
  end.

End Parser.

(** ** The table of commands *)

Module CmdParser.

Definition tolower (c : ascii) : ascii :=
  let n := nat_of_ascii c in
  if ((65 <=? n) && (n <=? 90))%nat then ascii_of_nat (n + 32) else c.

(** The commands in the order of their definition. *)
Abbreviation t := (list (list ascii)).

Definition add (cmd : list ascii) (m_cmdmap : t) : t := m_cmdmap ++ [map tolower cmd].

Fixpoint starts_with (s prefix : list ascii) : bool :=
  match prefix, s with
  | [], _ => true
  | p :: prefix', c :: s' => (c =? p)%char && starts_with s' prefix'
  | _ :: _, [] => false
  end.

(** The characters of the command word, appended to the buffer in lower case. *)
Fixpoint read_word (src buf : list ascii) : list ascii * list ascii :=
  match src with
  | c :: src' => if 32 <? schar c then read_word src' (buf ++ [tolower c]) else (src, buf)
  | [] => ([], buf)
  end.

(** An exact match, or the only command the word abbreviates. *)
Fixpoint match_loop (cmds : t) (idx : Z) (buf : list ascii) (rt : Z) (cnt : nat) : Z :=
  match cmds with
  | [] => if (cnt =? 1)%nat then rt else -1
  | cmd :: cmds' =>
      if starts_with cmd buf then
        if (length buf =? length cmd)%nat then idx
        else match_loop cmds' (idx + 1) buf (if (cnt =? 0)%nat then idx else rt) (cnt + 1)
      else match_loop cmds' (idx + 1) buf rt cnt
  end.

Definition find (cmds : t) (buf : list ascii) : Z := match_loop cmds 0 buf (-1) 0.

(** What is left, the buffer, and the index of the command or -1. *)
Definition getCommand (cmds : t) (src buf : list ascii) : list ascii * list ascii * Z :=
  let '(src, buf) := read_word src buf in
  match src with [] => (src, buf, -1) | _ => (src, buf, find cmds buf) end.

End CmdParser.

(** ** The argument buffer *)

Module CArgBuffer.

Definition Size : nat := 16.

Inductive State :=
| EndToken | Empty | Content | ContentEsc | SQContent | SQContentEsc | DQContent | DQContentEsc.
#[global] Instance State_eq_dec : EqDecision State.
Proof. solve_decision. Defined.

(** The start positions of the arguments in the content and the pointers made from them,
    none before the first call of [argv]. *)
Record t := mk {
  m_buf : list nat;
  m_sbuf : list nat;
  m_state : State;
  m_content : list ascii
}.

Definition make (content : list ascii) : t := mk [] [] Empty content.
Definition clear (b : t) : t := mk [] [] Empty [].

(** The number of arguments, m_pos. *)
Definition size (b : t) : nat := length (m_buf b).

Definition set_state (st : State) (b : t) : t := mk (m_buf b) (m_sbuf b) st (m_content b).
Definition content_push (c : ascii) (b : t) : t := mk (m_buf b) (m_sbuf b) (m_state b) (m_content b ++ [c]).
Definition openArg (b : t) : t :=
  if (size b <? Size)%nat then mk (m_buf b ++ [length (m_content b)]) (m_sbuf b) (m_state b) (m_content b)
  else b.

(** The start of a token, for [EndToken], [Empty] and [Content]. *)
Definition token_char (ch : ascii) (b : t) : t :=
  if (ch =? "'")%char then set_state SQContent b
  else if (ch =? "034")%char then set_state DQContent b
  else if (ch =? "\")%char then set_state ContentEsc b
  else content_push ch (set_state Content b).

Definition push_back (ch : ascii) (b : t) : t :=
  match m_state b with
  | EndToken | Content =>
      if (ch =? " ")%char then set_state Empty (content_push "000" b) else token_char ch b
  | Empty => if (ch =? " ")%char then b else token_char ch (openArg b)
  | ContentEsc => content_push ch (set_state Content b)
  | SQContent =>
      if (ch =? "'")%char then set_state EndToken b
      else if (ch =? "\")%char then set_state SQContentEsc b
      else content_push ch b
  | SQContentEsc => content_push ch (set_state SQContent b)
  | DQContent =>
      if (ch =? "034")%char then set_state EndToken b
      else if (ch =? "\")%char then set_state DQContentEsc b
      else content_push ch b
  | DQContentEsc => content_push ch (set_state DQContent b)
  end.

(** The C string that starts at a position of the content. *)
Fixpoint c_string (s : list ascii) : list ascii :=
  match s with
  | [] => []
  | c :: s' => if (c =? "000")%char then [] else c :: c_string s'
  end.

(** The pointers are made once; the call without a name of the command. *)
Definition argv (b : t) : t * list (list ascii) :=
  let sbuf := match m_sbuf b with [] => m_buf b | sb => sb end in
  (mk (m_buf b) sbuf (m_state b) (m_content b), map (fun p => c_string (drop p (m_content b))) sbuf).

Definition argc (b : t) : t * nat := ((argv b).1, size b).

End CArgBuffer.

(** ** Lines *)

Module Line.
Import Parser CArgBuffer.

(** The rest of a line into the argument buffer, control characters as spaces. *)
Fixpoint read_line (src : list ascii) (buf : CArgBuffer.t) : list ascii * CArgBuffer.t :=
  match src with
  | c :: src' =>
      if isEOL c then (src, buf)
      else read_line src' (push_back (if schar c <=? 32 then " "%char else c) buf)
  | [] => ([], buf)
  end.

Definition getLine (src : list ascii) (buf : CArgBuffer.t) : list ascii * CArgBuffer.t * bool :=
  let '(src, ok) := if (CArgBuffer.size buf =? 0)%nat then skipSpaces src else (src, true) in
  if negb ok then (src, buf, false)
  else let '(src, buf) := read_line src buf in (src, buf, (rest_ok src).2).

End Line.

(** ** Quoting *)

(** What the reading of a line makes of a character: control characters and the characters
    above 127, which are negative, become spaces. *)
Definition sanitize (c : ascii) : ascii := if schar c <=? 32 then " "%char else c.

Definition quote_char (c : ascii) : list ascii :=
  if (c =? "034")%char || (c =? "\")%char then ["\"%char; c] else [c].
Definition quote (a : list ascii) : list ascii := "034"%char :: flat_map quote_char a ++ ["034"%char].
Definition command_line (args : list (list ascii)) : list ascii :=
  flat_map (fun a => " "%char :: quote a) args.

(** ** Lemmas *)

Import CArgBuffer.

Definition push_all (cs : list ascii) (b : t) : t := fold_left (fun b c => push_back c b) cs b.

Lemma push_all_app cs ds b : push_all (cs ++ ds) b = push_all ds (push_all cs b).
Proof. apply fold_left_app. Qed.

Definition no_eol (cs : list ascii) : Prop := Forall (fun c => Parser.isEOL c = false) cs.

Lemma read_line_app cs : forall rest b,
  no_eol cs -> Line.read_line (cs ++ rest) b = Line.read_line rest (push_all (map sanitize cs) b).
Proof.
  induction cs as [|c cs IH]; intros rest b Hc; [done|]. apply Forall_cons in Hc as [Hc Hcs].
  cbn [app Line.read_line map]. rewrite Hc, IH by done. done.
Qed.

(** The content of arguments and the positions where they start. *)
Definition closed (args : list (list ascii)) : list ascii := flat_map (fun a => a ++ ["000"%char]) args.
Fixpoint starts (off : nat) (args : list (list ascii)) : list nat :=
  match args with [] => [] | a :: args' => off :: starts (off + length a + 1) args' end.

Lemma starts_app args1 : forall off args2,
  starts off (args1 ++ args2) = starts off args1 ++ starts (off + length (closed args1)) args2.
Proof.
  induction args1 as [|a args1 IH]; intros off args2; cbn [app starts closed flat_map]; [by rewrite Nat.add_0_r|].
  rewrite IH. do 3 f_equal. unfold closed. cbn. rewrite !length_app. cbn. lia.
Qed.

Lemma length_starts args : forall off, length (starts off args) = length args.
Proof. induction args as [|a args IH]; intros off; cbn; [done|]. by rewrite IH. Qed.

(** The last argument is open. *)
Record holds_args (b : t) (done : list (list ascii)) (cur : list ascii) : Prop := {
  h_content : m_content b = closed done ++ cur;
  h_buf : m_buf b = take Size (starts 0 (done ++ [cur]));
  h_sbuf : m_sbuf b = []
}.

Definition no_nul (a : list ascii) : Prop := Forall (fun c => c <> "000"%char) a.

Lemma c_string_app a s : no_nul a -> c_string (a ++ "000"%char :: s) = a.
Proof.
  induction 1 as [|c a Hc _ IH]; cbn; [done|]. apply Ascii.eqb_neq in Hc as ->. by rewrite IH.
Qed.
Lemma c_string_all a : no_nul a -> c_string a = a.
Proof. induction 1 as [|c a Hc _ IH]; cbn; [done|]. apply Ascii.eqb_neq in Hc as ->. by rewrite IH. Qed.

Lemma read_starts done cur : forall pre,
  Forall no_nul done -> no_nul cur ->
  map (fun p => c_string (drop p (pre ++ closed done ++ cur))) (starts (length pre) (done ++ [cur])) = done ++ [cur].
Proof.
  induction done as [|a args IH]; intros pre Hd Hc; cbn [app starts map closed flat_map].
  { by rewrite drop_app_length, c_string_all. }
  apply Forall_cons in Hd as [Ha Hd]. f_equal.
  - rewrite drop_app_length, <- !app_assoc. cbn. by apply c_string_app.
  - specialize (IH (pre ++ a ++ ["000"%char]) Hd Hc). rewrite !length_app in IH. cbn [length] in IH.
    rewrite Nat.add_assoc in IH. etrans; [|exact IH]. apply map_ext. intros p. by rewrite <- !app_assoc.
Qed.

Lemma argv_holds b args cur :
  holds_args b args cur -> Forall no_nul args -> no_nul cur -> (argv b).2 = take Size (args ++ [cur]).
Proof.
  intros [Hc Hb Hs] Hd Hn. unfold argv. rewrite Hs, Hc, Hb. cbn [snd].
  rewrite <- take_map || rewrite <- firstn_map. f_equal. by apply (read_starts args cur []).
Qed.

(** A quoted character inside of double quotes. *)
Lemma push_quoted_char b args cur c :
  holds_args b args cur -> m_state b = DQContent ->
  let b' := push_all (quote_char c) b in holds_args b' args (cur ++ [c]) /\ m_state b' = DQContent.
Proof.
  intros [Hc Hb Hs] Hst. unfold quote_char.
  assert (forall b', m_content b' = m_content b ++ [c] -> m_buf b' = m_buf b -> m_sbuf b' = m_sbuf b ->
    holds_args b' args (cur ++ [c])) as Hh.
  { intros b' H1 H2 H3. constructor; [by rewrite H1, Hc, app_assoc| |by rewrite H3].
    rewrite H2, Hb, !starts_app. done. }
  destruct (Ascii.eqb_spec c "034") as [->|H1]; [|destruct (Ascii.eqb_spec c "\") as [->|H2]];
    cbn; unfold push_back; rewrite Hst; cbn; rewrite ?Hst; cbn; auto.
  apply Ascii.eqb_neq in H1, H2. rewrite H1, H2. cbn. auto.
Qed.

Lemma push_quoted_chars a : forall b args cur,
  holds_args b args cur -> m_state b = DQContent ->
  let b' := push_all (flat_map quote_char a) b in holds_args b' args (cur ++ a) /\ m_state b' = DQContent.
Proof.
  induction a as [|c a IH]; intros b args cur Hh Hst; cbn [flat_map]; [by rewrite app_nil_r|].
  rewrite push_all_app. destruct (push_quoted_char b args cur c Hh Hst) as [Hh' Hst'].
  destruct (IH _ _ _ Hh' Hst') as [H1 H2]. by rewrite <- app_assoc in H1.
Qed.

(** A quoted argument, behind others or as the first. *)
Lemma push_quote b b1 args cur a :
  b1 = push_back "034" b -> holds_args b1 args [] -> m_state b1 = DQContent -> cur = a ->
  let b' := push_all (quote a) b in holds_args b' args cur /\ m_state b' = EndToken.
Proof.
  intros -> Hh Hst ->. unfold quote. change (push_all (?c :: ?s) b) with (push_all s (push_back c b)).
  cbn zeta. change ("034"%char :: ?s) with (["034"%char] ++ s). rewrite push_all_app, push_all_app.
  destruct (push_quoted_chars a _ _ _ Hh Hst) as [[H1 H2 H3] Hst']. cbn.
  cbn in *. unfold push_back at 1 3. rewrite Hst'. cbn. split; [by constructor|done].
Qed.

Lemma next_argument b args cur a :
  holds_args b args cur -> m_state b = EndToken ->
  let b' := push_all (" "%char :: quote a) b in holds_args b' (args ++ [cur]) a /\ m_state b' = EndToken.
Proof.
  intros [Hc Hb Hs] Hst. cbn zeta. set (b1 := push_back " " b).
  change (push_all (" "%char :: quote a) b) with (push_all (quote a) b1).
  assert (b1 = CArgBuffer.mk (m_buf b) (m_sbuf b) Empty (m_content b ++ ["000"%char])) as Hb1.
  { unfold b1, push_back. by rewrite Hst. }
  assert (closed (args ++ [cur]) = m_content b ++ ["000"%char]) as Hcl.
  { unfold closed. rewrite flat_map_app. cbn. by rewrite app_nil_r, app_assoc, Hc. }
  apply (push_quote b1 (push_back "034" b1) (args ++ [cur]) a a); auto; rewrite Hb1; unfold push_back; cbn.
  - assert (length (m_buf b) = Nat.min Size (length (args ++ [cur]))) as Hlen by (by rewrite Hb, length_take, length_starts).
    unfold openArg, size. cbn [m_buf]. destruct (Nat.ltb_spec (length (m_buf b)) Size) as [Hlt|Hge]; constructor; cbn;
      rewrite ?app_nil_r; auto; rewrite starts_app, Nat.add_0_l, Hcl; cbn [starts].
    + rewrite length_app in Hlen. cbn [length] in Hlen. rewrite Hb. change Size with 16%nat in *.
      rewrite !take_ge by (rewrite ?length_app, ?length_starts, ?length_app; cbn [length]; lia). done.
    + change Size with 16%nat in *. rewrite (take_app_le (starts 0 (args ++ [cur]))) by (rewrite length_starts; lia). done.
  - done.
Qed.

Lemma all_arguments args : forall b dn cur,
  holds_args b dn cur -> m_state b = EndToken ->
  let b' := push_all (command_line args) b in
  exists dn' cur', dn' ++ [cur'] = dn ++ cur :: args /\ holds_args b' dn' cur'.
Proof.
  induction args as [|a args IH]; intros b dn cur Hh Hst; cbn zeta.
  { by exists dn, cur. }
  unfold command_line. cbn [flat_map]. rewrite push_all_app.
  destruct (next_argument b dn cur a Hh Hst) as [Hh' Hst'].
  destruct (IH _ _ _ Hh' Hst') as (dn' & cur' & Heq & H'). exists dn', cur'. split; [|done].
  by rewrite Heq, <- app_assoc.
Qed.

(** A character of an argument after the reading of the line. *)
Lemma sanitize_quote a : map sanitize (quote a) = quote (map sanitize a).
Proof.
  unfold quote. rewrite map_cons, map_app. cbn [map]. change (sanitize "034") with "034"%char. do 2 f_equal.
  induction a as [|c a IH]; cbn [flat_map map]; [done|]. rewrite map_app, IH. f_equal.
  unfold quote_char. destruct (Ascii.eqb_spec c "034") as [->|H1]; [done|].
  destruct (Ascii.eqb_spec c "\") as [->|H2]; [done|]. cbn [orb map].
  unfold sanitize. destruct (schar c <=? 32); [done|].
  apply Ascii.eqb_neq in H1, H2. by rewrite H1, H2.
Qed.

Lemma sanitize_line args : map sanitize (command_line args) = command_line (map (map sanitize) args).
Proof.
  unfold command_line. induction args as [|a args IH]; cbn [flat_map map]; [done|].
  by rewrite map_app, IH, map_cons, sanitize_quote.
Qed.

Lemma sanitize_no_nul a : no_nul (map sanitize a).
Proof.
  unfold no_nul. apply Forall_map, Forall_true. intros c Hc. cbn in Hc. unfold sanitize in Hc.
  destruct (Z.leb_spec (schar c) 32) as [_|Hlt]; [discriminate|]. subst. vm_compute in Hlt. discriminate.
Qed.

Lemma quote_no_eol a : no_eol a -> no_eol (quote a).
Proof.
  unfold no_eol, quote. intros Ha. apply Forall_cons. split; [done|]. apply Forall_app. split; [|by repeat constructor].
  induction Ha as [|c a Hc _ IH]; cbn; [constructor|]. apply Forall_app. split; [|done].
  unfold quote_char. destruct (_ || _); repeat constructor; done.
Qed.

Lemma line_no_eol args : Forall no_eol args -> no_eol (command_line args).
Proof.
  induction 1 as [|a args Ha _ IH]; [constructor|]. constructor; [done|].
  apply Forall_app. split; [by apply quote_no_eol|done].
Qed.

(** ** Properties *)


