(* ===== verification/LineProtocol.v ===== *)
(** * The handler of line protocols

    Models src/modules/protocol/wolframe/lineProtocolHandler.hpp and lineProtocolHandler.cpp:
    a state machine that reads commands with arguments line by line, runs the command the
    table of the current state defines, and writes its result.  A command can delegate the
    protocol to another handler, for example to the one of a data session.

    The commands are functions of the derived class: [RunCommand] acts on the state [O] of
    the derived class and on the delegation, and gives the next state of the protocol and
    the text to write.  The handler a command delegates to is reached through the interface
    cmdbind::ProtocolHandler, the class [ProtocolHandler] here; it works on the same
    memory, which the interface gives back ([ph_input]).  Not modelled: redirectInput and
    the commands themselves. *)
From S2P Require Import Prelude IoBlocks.
Import Mem.
From S2P Require Import EscDlfHandler.
From S2P Require Import CmdParse.

(** ** Interfaces *)

Class ProtocolHandler (D : Type) := {
  ph_setInputBuffer : list ascii -> D -> D;
  ph_setOutputBuffer : list ascii -> nat -> D -> D;
  ph_nextOperation : M D Operation;
  ph_putInput : nat -> nat -> M D unit;
  ph_getInputBlock : M D (nat * nat);
  ph_getOutput : M D (list ascii);
  ph_getDataLeft : D -> nat * nat;
  ph_input : D -> list ascii;
  ph_interruptDataSessionMarker : D -> list ascii
}.

(** The handler of data sessions is one. *)
#[export] Instance EscDlf_ProtocolHandler {H} `{CommandHandler H} (fuel : nat) : ProtocolHandler (EscDlfHandler.t H) := {
  ph_setInputBuffer := setInputBuffer;
  ph_setOutputBuffer := setOutputBuffer;
  ph_nextOperation := nextOperation fuel;
  ph_putInput := putInput;
  ph_getInputBlock := getInputBlock;
  ph_getOutput := getOutput;
  ph_getDataLeft := getDataLeft;
  ph_input := fun d => m_ptr (InputBlock.m_mem (m_input d));
  ph_interruptDataSessionMarker := interruptDataSessionMarker
}.

Module LineProtocolHandler.

(** What is called at the end of a delegation, and a command. *)
Definition DelegateHandlerEnd (O D : Type) : Type := D -> M O (Z * list ascii).
Definition Delegation (O D : Type) : Type := option (D * DelegateHandlerEnd O D).
Definition RunCommand (O D : Type) : Type := list (list ascii) -> M (O * Delegation O D) (Z * list ascii).

(** delegateProcessingFunction, for the commands. *)
Definition delegateProcessingFunction {O D} (ch : D) (end_ : DelegateHandlerEnd O D) : M (O * Delegation O D) unit :=
  fun '(o, d) =>
    match d with
    | Some _ => ((o, d), Throw (LogicError "duplicate delegation of protocol processing"))
    | None => ((o, Some (ch, end_)), Ok tt)
    end.

(** ** The definition of a protocol *)

Module STM.

Record State (O D : Type) := mkState { m_parser : CmdParser.t; m_cmds : list (RunCommand O D) }.
Arguments mkState {O D} _ _.
Arguments m_parser {O D} _.
Arguments m_cmds {O D} _.

Section stm.
Context {O D : Type}.

(** The empty line is the command with index 0 of every state. *)
Definition newState : State O D := mkState (CmdParser.add [] []) [].
Definition defineCommand_ (name : list ascii) (run : RunCommand O D) (st : State O D) : State O D :=
  mkState (CmdParser.add name (m_parser st)) (m_cmds st ++ [run]).

Definition defineState (se : nat) (m_statear : list (State O D)) : res (list (State O D)) :=
  _ ← check_that (se =? length m_statear)%nat
        (LogicError "state index defined not matching to enum given as state index");
  Ok (m_statear ++ [newState]).

Definition defineCommand (name : list ascii) (run : RunCommand O D) (m_statear : list (State O D)) : res (list (State O D)) :=
  match last m_statear with
  | None => Throw (Undefined "back of an empty vector")
  | Some st => Ok (removelast m_statear ++ [defineCommand_ name run st])
  end.

Definition get (idx : nat) (m_statear : list (State O D)) : res (State O D) :=
  match m_statear !! idx with Some st => Ok st | None => Throw (LogicError "illegal state") end.

(** The command with an index, to be called with the arguments. *)
Definition getCommand (stateidx : nat) (cmdidx : Z) (stm : list (State O D)) : res (RunCommand O D) :=
  st ← get stateidx stm;
  match m_cmds st !! Z.to_nat (u64 cmdidx) with
  | Some run => Ok run
  | None => Throw (LogicError "illegal command reference")
  end.
End stm.
End STM.

(** ** State *)

Inductive CommandState :=
| Init | ProcessingDelegation | EnterCommand | ParseArgs | ParseArgsEOL | ProtocolError | ProcessOutput | Terminate.
#[global] Instance CommandState_eq_dec : EqDecision CommandState.
Proof. solve_decision. Defined.

Record t (O D : Type) := mk {
  m_input : InputBlock.t;
  m_output : Mem.t;
  m_itr : nat;
  m_end : nat;
  m_delegateHandler : Delegation O D;
  m_argBuffer : CArgBuffer.t; (* its content is m_buffer *)
  m_cmdstateidx : CommandState;
  m_stateidx : nat;
  m_cmdidx : Z;
  m_resultstate : Z;
  m_resultstr : list ascii;
  m_resultitr : nat;
  m_refuseInputFlag : bool;
  m_object : O
}.
Arguments mk {O D} _ _ _ _ _ _ _ _ _ _ _ _ _ _.
Arguments m_input {O D} _.
Arguments m_output {O D} _.
Arguments m_itr {O D} _.
Arguments m_end {O D} _.
Arguments m_delegateHandler {O D} _.
Arguments m_argBuffer {O D} _.
Arguments m_cmdstateidx {O D} _.
Arguments m_stateidx {O D} _.
Arguments m_cmdidx {O D} _.
Arguments m_resultstate {O D} _.
Arguments m_resultstr {O D} _.
Arguments m_resultitr {O D} _.
Arguments m_refuseInputFlag {O D} _.
Arguments m_object {O D} _.

Definition make {O D} (stateidx : nat) (o : O) : t O D :=
  mk (InputBlock.make (Mem.mk [] 0)) (Mem.mk [] 0) 0 0 None (CArgBuffer.make []) Init stateidx (-1) (-1) [] 0 false o.

Section updates.
Context {O D : Type}.
Implicit Types s : t O D.

Definition with_input (i : InputBlock.t) (itr end_ : nat) s : t O D :=
  mk i (m_output s) itr end_ (m_delegateHandler s) (m_argBuffer s) (m_cmdstateidx s) (m_stateidx s) (m_cmdidx s)
    (m_resultstate s) (m_resultstr s) (m_resultitr s) (m_refuseInputFlag s) (m_object s).
Definition with_output (o : Mem.t) s : t O D :=
  mk (m_input s) o (m_itr s) (m_end s) (m_delegateHandler s) (m_argBuffer s) (m_cmdstateidx s) (m_stateidx s) (m_cmdidx s)
    (m_resultstate s) (m_resultstr s) (m_resultitr s) (m_refuseInputFlag s) (m_object s).
Definition with_delegate (d : Delegation O D) s : t O D :=
  mk (m_input s) (m_output s) (m_itr s) (m_end s) d (m_argBuffer s) (m_cmdstateidx s) (m_stateidx s) (m_cmdidx s)
    (m_resultstate s) (m_resultstr s) (m_resultitr s) (m_refuseInputFlag s) (m_object s).
Definition with_argBuffer (b : CArgBuffer.t) s : t O D :=
  mk (m_input s) (m_output s) (m_itr s) (m_end s) (m_delegateHandler s) b (m_cmdstateidx s) (m_stateidx s) (m_cmdidx s)
    (m_resultstate s) (m_resultstr s) (m_resultitr s) (m_refuseInputFlag s) (m_object s).
Definition with_cmdstate (st : CommandState) s : t O D :=
  mk (m_input s) (m_output s) (m_itr s) (m_end s) (m_delegateHandler s) (m_argBuffer s) st (m_stateidx s) (m_cmdidx s)
    (m_resultstate s) (m_resultstr s) (m_resultitr s) (m_refuseInputFlag s) (m_object s).
Definition with_stateidx (i : nat) s : t O D :=
  mk (m_input s) (m_output s) (m_itr s) (m_end s) (m_delegateHandler s) (m_argBuffer s) (m_cmdstateidx s) i (m_cmdidx s)
    (m_resultstate s) (m_resultstr s) (m_resultitr s) (m_refuseInputFlag s) (m_object s).
Definition with_cmdidx (i : Z) s : t O D :=
  mk (m_input s) (m_output s) (m_itr s) (m_end s) (m_delegateHandler s) (m_argBuffer s) (m_cmdstateidx s) (m_stateidx s) i
    (m_resultstate s) (m_resultstr s) (m_resultitr s) (m_refuseInputFlag s) (m_object s).
Definition with_result (st : Z) (str : list ascii) (itr : nat) s : t O D :=
  mk (m_input s) (m_output s) (m_itr s) (m_end s) (m_delegateHandler s) (m_argBuffer s) (m_cmdstateidx s) (m_stateidx s)
    (m_cmdidx s) st str itr (m_refuseInputFlag s) (m_object s).
Definition with_refuse (b : bool) s : t O D :=
  mk (m_input s) (m_output s) (m_itr s) (m_end s) (m_delegateHandler s) (m_argBuffer s) (m_cmdstateidx s) (m_stateidx s)
    (m_cmdidx s) (m_resultstate s) (m_resultstr s) (m_resultitr s) b (m_object s).
Definition with_object (o : O) s : t O D :=
  mk (m_input s) (m_output s) (m_itr s) (m_end s) (m_delegateHandler s) (m_argBuffer s) (m_cmdstateidx s) (m_stateidx s)
    (m_cmdidx s) (m_resultstate s) (m_resultstr s) (m_resultitr s) (m_refuseInputFlag s) o.
End updates.

(** ** The interface to the connection *)

Section handler.
Context {O D : Type} `{ProtocolHandler D} (stm : list (STM.State O D)).

Definition delegated (s : t O D) : option (D * DelegateHandlerEnd O D) :=
  if bool_decide (m_cmdstateidx s = ProcessingDelegation) then m_delegateHandler s else None.

(** A call of the delegate; it shares the memory of the input. *)
Definition d_call {A} (m : M D A) : M (t O D) A := fun s =>
  match m_delegateHandler s with
  | None => (s, Throw (Undefined "null delegate handler"))
  | Some (d, e) =>
      let '(d', r) := m d in
      let i := m_input s in
      let mem := Mem.mk (ph_input d') (m_pos (InputBlock.m_mem i)) in
      (with_delegate (Some (d', e))
         (with_input (InputBlock.mk mem (InputBlock.m_nextpos i) (InputBlock.m_eodState i) (InputBlock.m_eodcharbuf i))
            (m_itr s) (m_end s) s), r)
  end.

Definition setInputBuffer (buf : list ascii) : M (t O D) unit := fun s =>
  let s1 := with_input (InputBlock.make (Mem.mk buf 0)) 0 0 s in
  match delegated s with
  | Some _ => d_call (fun d => (ph_setInputBuffer buf d, Ok tt)) s1
  | None => (s1, Ok tt)
  end.

Definition setOutputBuffer (buf : list ascii) (pos : nat) : M (t O D) unit := fun s =>
  (_ ← throw_if (length buf <? 16)%nat (LogicError "output buffer smaller than 16 bytes");
   _ ← modify (with_output (Mem.mk buf pos));
   match delegated s with
   | Some _ => d_call (fun d => (ph_setOutputBuffer buf pos d, Ok tt))
   | None => mret tt
   end) s.

Definition putInput (begin bytesTransferred : nat) : M (t O D) unit := fun s =>
  match delegated s with
  | Some _ => d_call (ph_putInput begin bytesTransferred) s
  | None =>
      let i := InputBlock.set_pos (bytesTransferred + begin) (m_input s) in
      (with_input i begin (m_pos (InputBlock.m_mem i)) s, Ok tt)
  end.

Definition getInputBlock : M (t O D) (nat * nat) := fun s =>
  match delegated s with
  | Some _ => d_call ph_getInputBlock s
  | None =>
      match InputBlock.getNetworkMessageRead (m_input s) with
      | (i, Some r) => (with_input i (m_itr s) (m_end s) s, Ok r)
      | (i, None) => (with_input i (m_itr s) (m_end s) s, Throw (LogicError "buffer too small for input"))
      end
  end.

Definition getOutput : M (t O D) (list ascii) := fun s =>
  match delegated s with
  | Some _ => d_call ph_getOutput s
  | None => (with_output (Mem.setPos 0 (m_output s)) s, Ok (take (m_pos (m_output s)) (m_ptr (m_output s))))
  end.

Definition getDataLeft (s : t O D) : nat * nat :=
  match delegated s with
  | Some (d, _) => ph_getDataLeft d
  | None => (m_itr s, (m_end s - m_itr s)%nat)
  end.

Definition interruptDataSessionMarker (s : t O D) : list ascii :=
  match delegated s with
  | Some (d, _) => ph_interruptDataSessionMarker d
  | None => []
  end.

(** ** The state machine *)

Definition goto (st : CommandState) : M (t O D) (option Operation) := _ ← modify (with_cmdstate st); mret None.
Definition return_in (st : CommandState) (op : Operation) : M (t O D) (option Operation) :=
  _ ← modify (with_cmdstate st); mret (Some op).

(** The characters of the range [m_itr], [m_end]; reading at or behind the cursor throws. *)
Definition input_range : M (t O D) (list ascii) := fun s =>
  let mem := InputBlock.m_mem (m_input s) in
  if (m_itr s =? m_end s)%nat then (s, Ok [])
  else if (m_end s <=? m_pos mem)%nat then (s, Ok (take (m_end s - m_itr s) (drop (m_itr s) (m_ptr mem))))
  else (s, Throw (LogicError "ABR")).

(** Advance the iterator to where [src] is left. *)
Definition set_left (src : list ascii) : M (t O D) unit :=
  modify (fun s => with_input (m_input s) (m_end s - length src) (m_end s) s).

Definition print_error (msg : string) : M (t O D) unit := fun s =>
  match OutputBlock.print_cstr (String.list_ascii_of_string msg) (m_output s) with
  | Ok (o, _) => (with_output o s, Ok tt)
  | Throw e => (s, Throw e)
  | OutOfFuel => (s, OutOfFuel)
  end.

Definition endl : string := String "013" (String "010" EmptyString).

(** [READ] at the end of the range, an error otherwise. *)
Definition read_or_error (src : list ascii) (msg : string) (act : t O D -> t O D) : M (t O D) (option Operation) :=
  match src with
  | [] => mret (Some READ)
  | _ =>
      _ ← print_error (msg ++ endl);
      _ ← modify act;
      return_in ProtocolError WRITE
  end.

(** Hand the rest of the input over to the delegate. *)
Definition start_delegation : M (t O D) unit := fun s =>
  match m_delegateHandler s with
  | None => (s, Ok tt)
  | Some _ =>
      let datasize := (m_end s - m_itr s)%nat in
      (_ ← throw_if (size (InputBlock.m_mem (m_input s)) <? datasize)%nat
             (RuntimeError "internal: data chunk to feed exceeds size of buffer. Can not happen");
       let data := take datasize (drop (m_itr s) (m_ptr (InputBlock.m_mem (m_input s)))) in
       let i := InputBlock.write 0 data (m_input s) in
       _ ← modify (with_input i 0 datasize);
       _ ← d_call (fun d => (ph_setInputBuffer (m_ptr (InputBlock.m_mem i)) d, Ok tt));
       _ ← d_call (ph_putInput 0 datasize);
       _ ← d_call (fun d => (ph_setOutputBuffer (m_ptr (m_output s)) (m_pos (m_output s)) d, Ok tt));
       modify (with_cmdstate ProcessingDelegation)) s
  end.

Definition case_Init : M (t O D) (option Operation) := fun s =>
  (_ ← modify (fun s => with_argBuffer (CArgBuffer.clear (m_argBuffer s)) s);
   if (m_pos (m_output s) =? 0)%nat then
     _ ← modify (fun s => with_result (-1) [] 0 (with_cmdidx (-1) (with_cmdstate EnterCommand s)));
     _ ← start_delegation;
     mret None
   else mret (Some WRITE)) s.

(** Exceptions that end the session. *)
Definition is_std_exception (e : exn) : bool := match e with Undefined _ => false | _ => true end.
Definition catch_std_exception (m : M (t O D) (option Operation)) : M (t O D) (option Operation) :=
  try_catch m (fun e => if is_std_exception e then return_in Terminate CLOSE else throw e).

(** What the derived class does with its own state. *)
Definition object_call {A} (m : M O A) : M (t O D) A := fun s =>
  let '(o, r) := m (m_object s) in (with_object o s, r).
Definition command_call {A} (m : M (O * Delegation O D) A) : M (t O D) A := fun s =>
  let '((o, d), r) := m (m_object s, m_delegateHandler s) in (with_delegate d (with_object o s), r).

Definition end_delegation (d : D) (e : DelegateHandlerEnd O D) : M (t O D) (option Operation) :=
  catch_std_exception
    (let '(r_begin, r_nofBytes) := ph_getDataLeft d in
     _ ← modify (fun s => with_cmdstate ProcessOutput (with_delegate None s));
     '(resultstate, out) ← object_call (e d);
     _ ← modify (fun s => with_result resultstate (m_resultstr s) (m_resultitr s) s);
     refuse ← gets m_refuseInputFlag;
     _ ← (if refuse : bool then mret tt else putInput r_begin r_nofBytes);
     _ ← modify (fun s => with_result (m_resultstate s) out 0 s);
     mret None).

Definition delegate_closed : M (t O D) (option Operation) := fun s =>
  match m_delegateHandler s with
  | Some (d, e) => end_delegation d e s
  | None => (s, Throw (Undefined "null delegate handler"))
  end.

Definition case_ProcessingDelegation : M (t O D) (option Operation) := fun s =>
  match m_delegateHandler s with
  | None => return_in Terminate CLOSE s
  | Some _ =>
      (op ← d_call ph_nextOperation;
       match op with CLOSE => delegate_closed | op => mret (Some op) end) s
  end.

Definition case_EnterCommand : M (t O D) (option Operation) := fun s =>
  (_ ← modify (with_refuse false);
   st ← lift (STM.get (m_stateidx s) stm);
   src ← input_range;
   let '(src, buf, ci) := CmdParser.getCommand (STM.m_parser st) src (CArgBuffer.m_content (m_argBuffer s)) in
   let b := m_argBuffer s in
   let b' := CArgBuffer.mk (CArgBuffer.m_buf b) (CArgBuffer.m_sbuf b) (CArgBuffer.m_state b) buf in
   _ ← set_left src;
   _ ← modify (with_argBuffer b');
   if ci =? -1 then
     read_or_error src "ERR unknown command"
       (fun s => with_argBuffer (CArgBuffer.mk (CArgBuffer.m_buf b) (CArgBuffer.m_sbuf b) (CArgBuffer.m_state b) []) s)
   else
     _ ← modify (fun s => with_argBuffer (CArgBuffer.clear b') (with_cmdidx ci s));
     goto ParseArgs) s.

Definition case_ParseArgs : M (t O D) (option Operation) := fun s =>
  (src ← input_range;
   let '(src, buf, ok) := Line.getLine src (m_argBuffer s) in
   _ ← set_left src;
   _ ← modify (with_argBuffer buf);
   if ok : bool then goto ParseArgsEOL else read_or_error src "ERR bad arguments" id) s.

(** The command is run with the arguments; its exceptions end the session. *)
Definition run_command : M (t O D) (option Operation) := fun s =>
  catch_std_exception
    (run ← lift (STM.getCommand (m_stateidx s) (m_cmdidx s - 1) stm);
     let '(b, args) := CArgBuffer.argv (m_argBuffer s) in
     _ ← modify (with_argBuffer b);
     '(resultstate, out) ← command_call (run args);
     _ ← modify (fun s => with_result resultstate out 0 (with_cmdstate ProcessOutput s));
     mret None) s.

Definition case_ParseArgsEOL : M (t O D) (option Operation) := fun s =>
  (src ← input_range;
   let '(src, ok) := Parser.consumeEOL src in
   _ ← set_left src;
   if negb ok then read_or_error src "ERR bad command line" id
   else if m_cmdidx s =? 0 then
     let '(b, argc) := CArgBuffer.argc (m_argBuffer s) in
     _ ← modify (with_argBuffer b);
     if (0 <? argc)%nat then
       _ ← print_error ("ERR command line starting with spaces" ++ endl);
       return_in ProtocolError WRITE
     else goto EnterCommand
   else run_command) s.

Definition case_ProcessOutput : M (t O D) (option Operation) := fun s =>
  let left := (length (m_resultstr s) - m_resultitr s)%nat in
  if (m_resultitr s =? length (m_resultstr s))%nat then
    if m_resultstate s <? 0 then return_in Terminate CLOSE s
    else (_ ← modify (with_stateidx (Z.to_nat (m_resultstate s))); goto Init) s
  else
    let rr := Nat.min (Z.to_nat (OutputBlock.restsize (m_output s))) left in
    match OutputBlock.print (take rr (drop (m_resultitr s) (m_resultstr s))) (m_output s) with
    | Ok (o, true) =>
        (with_result (m_resultstate s) (m_resultstr s) (m_resultitr s + rr) (with_output o s), Ok (Some WRITE))
    | Ok (o, false) => (s, Throw (LogicError "protocol error"))
    | Throw e => (s, Throw e)
    | OutOfFuel => (s, OutOfFuel)
    end.

(** The rest of the line is skipped; without a line end in the range the next one is read. *)
Definition case_ProtocolError : M (t O D) (option Operation) := fun s =>
  (src ← input_range;
   let '(src, ok) := Parser.skipLine src in
   let '(src, ok) := if ok : bool then Parser.consumeEOL src else (src, false) in
   _ ← set_left src;
   if ok : bool then
     _ ← modify (fun s => with_argBuffer (CArgBuffer.clear (m_argBuffer s)) s);
     goto EnterCommand
   else mret (Some READ)) s.

Definition step : M (t O D) (option Operation) := fun s =>
  match m_cmdstateidx s with
  | Init => case_Init s
  | ProcessingDelegation => case_ProcessingDelegation s
  | EnterCommand => case_EnterCommand s
  | ParseArgs => case_ParseArgs s
  | ParseArgsEOL => case_ParseArgsEOL s
  | ProcessOutput => case_ProcessOutput s
  | ProtocolError => case_ProtocolError s
  | Terminate => (s, Ok (Some CLOSE))
  end.

Fixpoint nextOperation (fuel : nat) : M (t O D) Operation :=
  match fuel with
  | 0%nat => fun s => (s, OutOfFuel)
  | S fuel' => r ← step; match r with Some op => mret op | None => nextOperation fuel' end
  end.

(** A command run for another one. *)
Definition runCommand (cmd : list ascii) (args : list (list ascii)) : M (t O D) (Z * list ascii) := fun s =>
  (st ← lift (STM.get (m_stateidx s) stm);
   let cmdidx := (CmdParser.getCommand (STM.m_parser st) (cmd ++ ["000"%char]) []).2 in
   _ ← throw_if (cmdidx =? 0) (LogicError "protocol error: redirected to empty command");
   _ ← throw_if (cmdidx <? 0) (LogicError "protocol error: redirected to unknown command");
   run ← lift (STM.getCommand (m_stateidx s) (cmdidx - 1) stm);
   command_call (run args)) s.

End handler.
End LineProtocolHandler.
