(* ===== verification/LineSession.v ===== *)
(** * Sessions of a line protocol

    The specification of a session: every line runs one command, or is answered with an
    error.  The handler implements it for every division of the lines into network
    messages and of the answers into output buffers. *)
From S2P Require Import Prelude IoBlocks IoBlocksEscape IoBlocksEod.
Import Mem.
From S2P Require Import EscDlfHandler CmdParse LineProtocol.
Import LineProtocolHandler.

(** ** The connection *)

Section session.
Context {O D : Type} `{ProtocolHandler D} (stm : list (STM.State O D)).

(** The connection writes what it received into the memory it asked for. *)
Definition receive (chunk : list ascii) : M (t O D) unit :=
  '(begin, maxsize) ← getInputBlock;
  _ ← throw_if (maxsize <? length chunk)%nat (Undefined "more received than fits");
  _ ← modify (fun s => with_input (InputBlock.write begin chunk (m_input s)) (m_itr s) (m_end s) s);
  putInput begin (length chunk).

(** One round of the loop of the handler, and what the connection does then: the session,
    the chunks still to come and what was sent. *)
Definition conn (c : t O D * list (list ascii) * list ascii) : option (t O D * list (list ascii) * list ascii) :=
  let '(s, cs, out) := c in
  match step stm s with
  | (s', Ok None) => Some (s', cs, out)
  | (s', Ok (Some READ)) =>
      match cs with
      | [] => None
      | c :: cs' => match receive c s' with (s'', Ok tt) => Some (s'', cs', out) | _ => None end
      end
  | (s', Ok (Some WRITE)) =>
      match getOutput s' with (s'', Ok d) => Some (s'', cs, out ++ d) | _ => None end
  | _ => None
  end.

Definition runs_to := rtc (fun c c' => conn c = Some c').

(** ** Specification *)

Record line := mkLine { word : list ascii; args : list ascii; crlf : bool }.

Definition eol (l : line) : list ascii := if crlf l then [CRc; LFc] else [LFc].
Definition text (l : line) : list ascii := word l ++ args l ++ eol l.

(** The word ends with the first control character or blank. *)
Record line_wf (l : line) : Prop := {
  l_word : Forall (fun c => 32 < schar c) (word l);
  l_args : no_eol (args l);
  l_sep : match args l with [] => True | c :: _ => schar c <= 32 end
}.

(** The arguments of a line. *)
Definition arg_buffer (l : line) : CArgBuffer.t :=
  push_all (map sanitize (args l)) (CArgBuffer.clear (CArgBuffer.make [])).
Definition arguments (l : line) : list (list ascii) := (CArgBuffer.argv (arg_buffer l)).2.

Definition error_text (msg : string) : list ascii := String.list_ascii_of_string (msg ++ endl).

(** The command a line names in a state: -1 if there is none or more than one. *)
Definition command (sidx : nat) (l : line) : option Z :=
  st ← stm !! sidx; Some (CmdParser.find (STM.m_parser st) (map CmdParser.tolower (word l))).

(** The lines, the state of the protocol and of the derived class before and behind them,
    and what is sent.  A line with arguments but no command is answered with an error, and
    the next line is lost. *)
Inductive interp : list line -> nat -> O -> nat -> O -> list ascii -> Prop :=
| interp_nil i o : interp [] i o i o []
| interp_command l ls i o i1 o1 i2 o2 ci run out out2 :
    command i l = Some ci -> 0 < ci -> STM.getCommand i (ci - 1) stm = Ok run ->
    run (arguments l) (o, None) = ((o1, None), Ok (Z.of_nat i1, out)) ->
    interp ls i1 o1 i2 o2 out2 ->
    interp (l :: ls) i o i2 o2 (out ++ out2)
| interp_unknown l ls i o i2 o2 out2 :
    command i l = Some (-1) -> interp ls i o i2 o2 out2 ->
    interp (l :: ls) i o i2 o2 (error_text "ERR unknown command" ++ out2)
| interp_empty l ls i o i2 o2 out2 :
    command i l = Some 0 -> CArgBuffer.size (arg_buffer l) = 0%nat -> interp ls i o i2 o2 out2 ->
    interp (l :: ls) i o i2 o2 out2
| interp_spaces l l' ls i o i2 o2 out2 :
    command i l = Some 0 -> (0 < CArgBuffer.size (arg_buffer l))%nat -> interp ls i o i2 o2 out2 ->
    interp (l :: l' :: ls) i o i2 o2 (error_text "ERR command line starting with spaces" ++ out2).

(** ** The state between two steps *)

(** A session in phase [ph] with the argument buffer [b], the input [src] and the output
    [p] to send; the input buffer has [n] characters. *)
Record conf_out (n : nat) (ph : CommandState) (b : CArgBuffer.t) (i : nat) (o : O) (src p : list ascii) (s : t O D) : Prop := {
  c_phase : m_cmdstateidx s = ph;
  c_buf : m_argBuffer s = b;
  c_state : m_stateidx s = i;
  c_obj : m_object s = o;
  c_del : m_delegateHandler s = None;
  c_pos : m_pos (m_output s) = length p;
  c_text : take (length p) (m_ptr (m_output s)) = p;
  c_room : (64 <= size (m_output s))%nat;
  c_bound : Z.of_nat (size (m_output s)) < 2 ^ 31;
  c_saved : InputBlock.m_eodcharbuf (m_input s) = [];
  c_size : size (InputBlock.m_mem (m_input s)) = n;
  c_end : m_end s = m_pos (InputBlock.m_mem (m_input s));
  c_range : (m_itr s <= m_end s <= n)%nat;
  c_src : take (m_end s - m_itr s) (drop (m_itr s) (m_ptr (InputBlock.m_mem (m_input s)))) = src
}.

Abbreviation conf n ph b i o src s := (conf_out n ph b i o src [] s).

(** The other variables. *)
Definition same_vars (s s' : t O D) : Prop :=
  m_cmdidx s' = m_cmdidx s /\ m_resultstate s' = m_resultstate s /\ m_resultstr s' = m_resultstr s /\
  m_resultitr s' = m_resultitr s.

Lemma conf_input_range n ph b i o src p s : conf_out n ph b i o src p s -> input_range s = (s, Ok src).
Proof.
  intros []. unfold input_range. destruct (Nat.eqb_spec (m_itr s) (m_end s)) as [E|E].
  - do 2 f_equal. rewrite <- c_src0, E, Nat.sub_diag. done.
  - destruct (Nat.leb_spec (m_end s) (m_pos (InputBlock.m_mem (m_input s)))); [|lia]. by rewrite c_src0.
Qed.

Lemma conf_length n ph b i o src p s : conf_out n ph b i o src p s -> length src = (m_end s - m_itr s)%nat.
Proof.
  intros []. rewrite <- c_src0, length_take, length_drop. unfold size in c_size0. lia.
Qed.

(** The state after a part of the input was read. *)
Definition left_at (src : list ascii) (s : t O D) : t O D :=
  with_input (m_input s) (m_end s - length src) (m_end s) s.

Lemma set_left_eq src s : set_left src s = (left_at src s, Ok tt).
Proof. done. Qed.

Lemma conf_left n ph b i o pre src p s :
  conf_out n ph b i o (pre ++ src) p s -> conf_out n ph b i o src p (left_at src s) /\ same_vars s (left_at src s).
Proof.
  intros Hc. pose proof (conf_length _ _ _ _ _ _ _ _ Hc) as Hl. rewrite length_app in Hl.
  destruct Hc. split; [|done]. constructor; cbn; auto; [lia|].
  replace (m_end s - length src)%nat with (m_itr s + length pre)%nat by lia.
  rewrite <- drop_drop, <- c_src0 || idtac.
  assert (take (m_end s - (m_itr s + length pre)) (drop (length pre) (drop (m_itr s) (m_ptr (InputBlock.m_mem (m_input s)))))
    = drop (length pre) (take (m_end s - m_itr s) (drop (m_itr s) (m_ptr (InputBlock.m_mem (m_input s)))))) as Hd.
  { rewrite skipn_firstn_comm. f_equal. lia. }
  rewrite <- drop_drop, Hd, c_src0, drop_app_length. done.
Qed.

Lemma conf_buf n ph b b' i o src p s :
  conf_out n ph b i o src p s -> conf_out n ph b' i o src p (with_argBuffer b' s) /\ same_vars s (with_argBuffer b' s).
Proof. intros []. split; [|done]. by constructor. Qed.

Lemma conf_phase n ph ph' b i o src p s :
  conf_out n ph b i o src p s -> conf_out n ph' b i o src p (with_cmdstate ph' s) /\ same_vars s (with_cmdstate ph' s).
Proof. intros []. split; [|done]. by constructor. Qed.

(** The next chunk. *)
Lemma receive_conf n ph b i o s c :
  conf n ph b i o [] s -> ph <> ProcessingDelegation -> (0 < n)%nat -> (length c <= n)%nat ->
  exists s', receive c s = (s', Ok tt) /\ conf n ph b i o c s' /\ same_vars s s'.
Proof.
  intros [] Hph Hn Hc. unfold receive, getInputBlock, delegated. rewrite M_bind_eq.
  rewrite bool_decide_eq_false_2 by congruence. unfold InputBlock.getNetworkMessageRead. rewrite c_saved0, c_size0.
  cbn [length]. destruct (Nat.leb_spec n 0); [lia|]. cbn [app drop]. rewrite Nat.sub_0_r.
  unfold mbind, M_bind, throw_if. rewrite (proj2 (Nat.ltb_ge _ _)) by done. cbn beta iota.
  unfold modify, putInput, delegated. cbn [mret M_ret m_cmdstateidx with_input].
  rewrite bool_decide_eq_false_2 by congruence. eexists. split; [reflexivity|]. split; [|done].
  unfold size in c_size0. cbn in *. constructor; cbn; auto.
  - unfold size. cbn. rewrite !drop_0, take_0. cbn [app]. rewrite length_app, length_drop. lia.
  - lia.
  - rewrite !drop_0, take_0, Nat.add_0_r, Nat.sub_0_r. cbn [app]. by rewrite take_app_length.
Qed.

(** Text for the client. *)
Lemma print_conf n ph b i o src s msg :
  conf n ph b i o src s -> let p := String.list_ascii_of_string msg in
  OutputBlock.strlen_prefix p = p -> (length p <= 64)%nat ->
  exists s', print_error msg s = (s', Ok tt) /\ conf_out n ph b i o src p s' /\ same_vars s s'.
Proof.
  intros [] p Hp Hlen. unfold print_error, OutputBlock.print_cstr. fold p. rewrite Hp.
  rewrite print_ok by (unfold block_wf; cbn in *; lia). unfold free. rewrite c_pos0.
  rewrite decide_True by (cbn; lia). eexists. split; [reflexivity|]. split; [|done].
  pose proof (size_emit (m_output s) p ltac:(rewrite c_pos0; cbn; lia)) as Hs.
  constructor; auto; cbn [m_output with_output]; rewrite ?Hs; auto.
  - cbn. by rewrite c_pos0.
  - unfold emit. cbn [m_ptr]. rewrite c_pos0. cbn [length]. rewrite take_0. cbn [app]. by rewrite take_app_length.
Qed.

Lemma send_conf n ph b i o src p s :
  conf_out n ph b i o src p s -> ph <> ProcessingDelegation ->
  exists s', getOutput s = (s', Ok p) /\ conf n ph b i o src s' /\ same_vars s s'.
Proof.
  intros [] Hph. unfold getOutput, delegated. rewrite bool_decide_eq_false_2 by congruence.
  eexists. rewrite c_pos0, c_text0. split; [reflexivity|]. split; [|done]. by constructor.
Qed.

(** An error message: the step of [s0] prints it in the state [s]. *)
Lemma error_conf n ph b i o src s msg act s0 cs out :
  conf n ph b i o src s -> let p := error_text msg in
  OutputBlock.strlen_prefix p = p -> (length p <= 64)%nat ->
  (forall s b, exists b', act (with_argBuffer b s) = with_argBuffer b' s) ->
  step stm s0 = (_ ← print_error (msg ++ endl); _ ← modify act; return_in ProtocolError WRITE) s ->
  exists s' b', conn (s0, cs, out) = Some (s', cs, out ++ p) /\ conf n ProtocolError b' i o src s'.
Proof.
  intros Hc p Hp Hlen Hact Hstep.
  destruct (print_conf _ _ _ _ _ _ _ (msg ++ endl) Hc Hp Hlen) as (s1 & H1 & C1 & V1).
  destruct (Hact s1 (m_argBuffer s1)) as [b' Hb'].
  assert (with_argBuffer (m_argBuffer s1) s1 = s1) as He by (by destruct s1). rewrite He in Hb'.
  destruct (conf_buf _ _ _ b' _ _ _ _ _ C1) as [C2 _].
  destruct (conf_phase _ _ ProtocolError _ _ _ _ _ _ C2) as [C3 _].
  destruct (send_conf _ _ _ _ _ _ _ _ C3 ltac:(done)) as (s4 & H4 & C4 & _).
  exists s4, b'. split; [|done]. unfold conn. rewrite Hstep. unfold return_in, modify, mbind, M_bind. rewrite H1.
  cbn beta iota. rewrite Hb'. cbn beta iota delta [mret M_ret]. by rewrite H4.
Qed.

(** ** Reading across chunks *)

Lemma split_stream (w : list ascii) : forall src tl d rest,
  src ++ tl = w ++ d :: rest ->
  (exists w2, w = src ++ w2 /\ tl = w2 ++ d :: rest) \/ (exists r, src = w ++ d :: r /\ rest = r ++ tl).
Proof.
  induction w as [|c w IH]; intros src tl d rest Heq.
  - destruct src as [|e src]; cbn in Heq; [left; by exists []|]. injection Heq as -> <-. right. by exists src.
  - destruct src as [|e src]; cbn in Heq; [left; by exists (c :: w)|]. injection Heq as -> Heq.
    destruct (IH _ _ _ _ Heq) as [(w2 & -> & ->)|(r & -> & ->)]; [left; by exists w2|right; by exists r].
Qed.

(** In a phase that consumes texts [Q], with the effect [f] on the argument buffer, the
    session reads chunk after chunk until the character behind the text has arrived. *)
Section reading.
Context (n : nat) (ph : CommandState) (i : nat) (o : O) (Q : list ascii -> Prop)
  (f : list ascii -> CArgBuffer.t -> CArgBuffer.t) (Inv : CArgBuffer.t -> Prop)
  (Hn : (0 < n)%nat) (Hph : ph <> ProcessingDelegation)
  (Q_split : forall w1 w2, Q (w1 ++ w2) -> Q w1 /\ Q w2)
  (f_app : forall w1 w2 b, f (w1 ++ w2) b = f w2 (f w1 b))
  (f_nil : forall b, f [] b = b)
  (reads : forall b w s, Q w -> Inv b -> conf n ph b i o w s ->
    Inv (f w b) /\ exists s', step stm s = (s', Ok (Some READ)) /\ conf n ph (f w b) i o [] s' /\ same_vars s s').

Lemma reads_until cs : forall src w d rest b s out,
  conf n ph b i o src s -> Inv b -> Q w -> src ++ concat cs = w ++ d :: rest ->
  Forall (fun c => length c <= n)%nat cs ->
  exists w0 w1 r s' cs', runs_to (s, cs, out) (s', cs', out) /\ w = w0 ++ w1 /\
    conf n ph (f w0 b) i o (w1 ++ d :: r) s' /\ Inv (f w0 b) /\ rest = r ++ concat cs' /\ same_vars s s' /\
    Forall (fun c => length c <= n)%nat cs'.
Proof using Hn Hph Q_split f_app f_nil reads.
  induction cs as [|c cs IH]; intros src w d rest b s out Hc Hi Hq Heq Hcs;
    destruct (split_stream w _ _ _ _ Heq) as [(w2 & -> & Heq2)|(r & -> & ->)].
  - by destruct w2.
  - exists [], w, r, s, []. rewrite f_nil. split_and!; auto; try done; apply rtc_refl.
  - apply Q_split in Hq as [Hq1 Hq2]. destruct (reads _ _ _ Hq1 Hi Hc) as (Hi1 & s1 & Hs1 & Hc1 & Hv1).
    apply Forall_cons in Hcs as [Hlen Hcs].
    destruct (receive_conf n ph _ i o s1 c Hc1 Hph Hn Hlen) as (s2 & Hs2 & Hc2 & Hv2).
    destruct (IH c w2 d rest _ s2 out Hc2 Hi1 Hq2 Heq2 Hcs) as (w0 & w1 & r & s3 & cs3 & Hr & Hw & Hc3 & Hi3 & Hrest & Hv3 & Hcs3).
    exists (src ++ w0), w1, r, s3, cs3. rewrite f_app. split_and!; auto.
    + eapply rtc_l; [|exact Hr]. cbn. by rewrite Hs1, Hs2.
    + by rewrite <- app_assoc, Hw.
    + unfold same_vars in *. intuition congruence.
  - exists [], w, r, s, (c :: cs). rewrite f_nil. split_and!; auto; try done; apply rtc_refl.
Qed.
End reading.

(** ** Commands *)

Definition word_buf (w : list ascii) (b : CArgBuffer.t) : CArgBuffer.t :=
  CArgBuffer.mk (CArgBuffer.m_buf b) (CArgBuffer.m_sbuf b) (CArgBuffer.m_state b)
    (CArgBuffer.m_content b ++ map CmdParser.tolower w).

Lemma read_word_app w : forall rest buf,
  Forall (fun c => 32 < schar c) w ->
  CmdParser.read_word (w ++ rest) buf = CmdParser.read_word rest (buf ++ map CmdParser.tolower w).
Proof.
  induction w as [|c w IH]; intros rest buf Hw; cbn [app map]; [by rewrite app_nil_r|].
  apply Forall_cons in Hw as [Hc Hw]. cbn [CmdParser.read_word].
  destruct (Z.ltb_spec 32 (schar c)); [|lia]. by rewrite IH, <- app_assoc.
Qed.

Lemma enter_reads n i o st b w s :
  stm !! i = Some st -> Forall (fun c => 32 < schar c) w -> conf n EnterCommand b i o w s ->
  exists s', step stm s = (s', Ok (Some READ)) /\ conf n EnterCommand (word_buf w b) i o [] s' /\ same_vars s s'.
Proof.
  intros Hst Hw Hc. pose proof Hc as [Hp Hb Hsi _ _ _ _ _ _ _ _ _ _ _].
  unfold step. rewrite Hp. unfold case_EnterCommand.
  set (s0 := with_refuse false s).
  assert (conf n EnterCommand b i o w s0) as Hc0 by (destruct Hc; by constructor).
  rewrite M_bind_eq. cbn [modify]. rewrite M_bind_eq. unfold lift, STM.get. rewrite Hsi, Hst. cbn beta iota.
  fold s0. rewrite M_bind_eq, (conf_input_range _ _ _ _ _ _ _ _ Hc0), Hb. cbn beta iota.
  unfold CmdParser.getCommand. pose proof (read_word_app w [] (CArgBuffer.m_content b) Hw) as Hword.
  rewrite app_nil_r in Hword. rewrite Hword. cbn [CmdParser.read_word]. rewrite M_bind_eq, set_left_eq. cbn beta iota. rewrite M_bind_eq. cbn [modify].
  change (-1 =? -1) with true. cbn beta iota.
  rewrite <- (app_nil_r w) in Hc0. destruct (conf_left _ _ _ _ _ w [] _ _ Hc0) as [H1 V1].
  destruct (conf_buf _ _ _ (word_buf w b) _ _ _ _ _ H1) as [H2 V2].
  eexists. split; [reflexivity|]. split; [exact H2|]. done.
Qed.

(** One step of the session that goes on. *)
Lemma conn_continue s s' cs out : step stm s = (s', Ok None) -> conn (s, cs, out) = Some (s', cs, out).
Proof. intros Hs. unfold conn. by rewrite Hs. Qed.

Lemma command_word w d r buf :
  Forall (fun c => 32 < schar c) w -> schar d <= 32 ->
  CmdParser.read_word (w ++ d :: r) buf = (d :: r, buf ++ map CmdParser.tolower w).
Proof.
  intros Hw Hd. rewrite read_word_app by done. cbn [CmdParser.read_word].
  destruct (Z.ltb_spec 32 (schar d)); [lia|done].
Qed.

(** The decision at the end of the word. *)
Lemma enter_decides n i o st b w d r s :
  stm !! i = Some st -> Forall (fun c => 32 < schar c) w -> schar d <= 32 ->
  conf n EnterCommand b i o (w ++ d :: r) s ->
  let ci := CmdParser.find (STM.m_parser st) (CArgBuffer.m_content b ++ map CmdParser.tolower w) in
  if ci =? -1 then
    forall cs out, exists s' b', conn (s, cs, out) = Some (s', cs, out ++ error_text "ERR unknown command") /\
      conf n ProtocolError b' i o (d :: r) s'
  else
    exists s', step stm s = (s', Ok None) /\ conf n ParseArgs (CArgBuffer.clear b) i o (d :: r) s' /\ m_cmdidx s' = ci.
Proof.
  intros Hst Hw Hd Hc ci. pose proof Hc as [Hp Hb Hsi _ _ _ _ _ _ _ _ _ _ _].
  set (s0 := with_refuse false s).
  assert (conf n EnterCommand b i o (w ++ d :: r) s0) as Hc0 by (destruct Hc; by constructor).
  destruct (conf_left _ _ _ _ _ w (d :: r) _ _ Hc0) as [H1 V1].
  destruct (conf_buf _ _ _ (word_buf w b) _ _ _ _ _ H1) as [H2 V2].
  set (s2 := with_argBuffer (word_buf w b) (left_at (d :: r) s0)) in *.
  assert (step stm s =
    (if ci =? -1 then
       read_or_error (d :: r) "ERR unknown command"
         (fun s => with_argBuffer (CArgBuffer.mk (CArgBuffer.m_buf b) (CArgBuffer.m_sbuf b) (CArgBuffer.m_state b) []) s) s2
     else (_ ← modify (fun s => with_argBuffer (CArgBuffer.clear (word_buf w b)) (with_cmdidx ci s)); goto ParseArgs) s2))
    as Hstep.
  { unfold step. rewrite Hp. unfold case_EnterCommand. rewrite M_bind_eq. cbn [modify]. fold s0.
    rewrite M_bind_eq. unfold lift, STM.get. rewrite Hsi, Hst. cbn beta iota.
    rewrite M_bind_eq, (conf_input_range _ _ _ _ _ _ _ _ Hc0), Hb. cbn beta iota.
    unfold CmdParser.getCommand. rewrite command_word by done. rewrite M_bind_eq, set_left_eq. cbn beta iota.
    rewrite M_bind_eq. cbn [modify]. fold ci. by destruct (ci =? -1). }
  destruct (Z.eqb_spec ci (-1)) as [Hci|Hci].
  - intros cs out. eapply (error_conf _ _ _ _ _ _ s2 "ERR unknown command"); [exact H2|reflexivity|vm_compute; lia| |exact Hstep].
    intros s1 b1. eexists. reflexivity.
  - destruct (conf_buf _ _ _ (CArgBuffer.clear b) _ _ _ _ _ H2) as [H3 _].
    destruct (conf_phase _ _ ParseArgs _ _ _ _ _ _ H3) as [H4 _].
    exists (with_cmdstate ParseArgs (with_argBuffer (CArgBuffer.clear b) (with_cmdidx ci s2))).
    split; [exact Hstep|]. split; [|done]. destruct H4. by constructor.
Qed.

(** ** Arguments and line ends *)

Definition fresh (b : CArgBuffer.t) : Prop :=
  CArgBuffer.size b = 0%nat -> b = CArgBuffer.clear b.

Definition line_chars (w : list ascii) (b : CArgBuffer.t) : CArgBuffer.t := push_all (map sanitize w) b.

Lemma push_back_nonempty c b : CArgBuffer.size b <> 0%nat -> CArgBuffer.size (CArgBuffer.push_back c b) <> 0%nat.
Proof.
  intros Hs. destruct b as [buf sb st ct]. unfold CArgBuffer.push_back, CArgBuffer.token_char, CArgBuffer.openArg, CArgBuffer.size in *.
  cbn in *. destruct st; cbn; repeat case_match; cbn; rewrite ?length_app; cbn; lia.
Qed.

Lemma fresh_push c b : fresh b -> fresh (CArgBuffer.push_back c b).
Proof.
  intros Hf. destruct (decide (CArgBuffer.size b = 0%nat)) as [E|E].
  - rewrite (Hf E). unfold CArgBuffer.push_back. cbn. destruct (c =? " ")%char; [done|].
    intros Hz. exfalso. revert Hz. unfold CArgBuffer.token_char. repeat case_match; cbn; discriminate.
  - intros Hz. by apply push_back_nonempty with (c := c) in E.
Qed.

Lemma fresh_push_all cs : forall b, fresh b -> fresh (push_all cs b).
Proof. induction cs as [|c cs IH]; intros b Hf; [done|]. by apply IH, fresh_push. Qed.

(** Spaces in front of the arguments make no difference. *)
Lemma skip_spaces src : forall b,
  fresh b -> CArgBuffer.size b = 0%nat -> Line.read_line (Parser.skipSpaces src).1 b = Line.read_line src b /\
  ((Parser.skipSpaces src).2 = false -> Line.read_line src b = ([], b)).
Proof.
  induction src as [|c src IH]; intros b Hf Hz; [done|]. cbn [Parser.skipSpaces].
  destruct ((c =? " ")%char || (c =? "009")%char) eqn:E; [|done].
  assert (Line.read_line (c :: src) b = Line.read_line src b) as ->; [|by apply IH].
  cbn [Line.read_line].
  assert (CArgBuffer.push_back " " b = b) as Hp by (rewrite (Hf Hz); done).
  apply orb_true_iff in E as [E|E]; apply Ascii.eqb_eq in E as ->;
    (change (Line.read_line src (CArgBuffer.push_back " " b) = Line.read_line src b); by rewrite Hp).
Qed.

Lemma skip_spaces_end src : (Parser.skipSpaces src).2 = false -> (Parser.skipSpaces src).1 = [].
Proof. induction src as [|c src IH]; [done|]. cbn. by destruct (_ || _). Qed.

Lemma getLine_read src b :
  fresh b -> Line.getLine src b = (Line.read_line src b, (Parser.rest_ok (Line.read_line src b).1).2).
Proof.
  intros Hf. unfold Line.getLine. destruct (Nat.eqb_spec (CArgBuffer.size b) 0) as [E|E].
  - destruct (skip_spaces src b Hf E) as [H1 H2]. pose proof (skip_spaces_end src) as H3.
    destruct (Parser.skipSpaces src) as [src' []]; cbn [fst snd negb] in *.
    + rewrite H1. by destruct (Line.read_line src b).
    + by rewrite (H2 eq_refl), (H3 eq_refl).
  - cbn [negb]. by destruct (Line.read_line src b).
Qed.

Lemma no_eol_app w1 w2 : no_eol (w1 ++ w2) -> no_eol w1 /\ no_eol w2.
Proof. apply Forall_app. Qed.

Lemma args_reads n i o b w s :
  no_eol w -> fresh b -> conf n ParseArgs b i o w s ->
  fresh (line_chars w b) /\
  exists s', step stm s = (s', Ok (Some READ)) /\ conf n ParseArgs (line_chars w b) i o [] s' /\ same_vars s s'.
Proof.
  intros Hw Hf Hc. split; [by apply fresh_push_all|]. pose proof Hc as [Hp Hb _ _ _ _ _ _ _ _ _ _ _ _].
  unfold step. rewrite Hp. unfold case_ParseArgs.
  rewrite M_bind_eq, (conf_input_range _ _ _ _ _ _ _ _ Hc), Hb. cbn beta iota.
  rewrite getLine_read by done. pose proof (read_line_app w [] b Hw) as Hr. rewrite app_nil_r in Hr. rewrite Hr.
  cbn [Line.read_line fst snd Parser.rest_ok]. rewrite M_bind_eq, set_left_eq. cbn beta iota. rewrite M_bind_eq. cbn [modify].
  rewrite <- (app_nil_r w) in Hc. destruct (conf_left _ _ _ _ _ w [] _ _ Hc) as [H1 V1].
  destruct (conf_buf _ _ _ (line_chars w b) _ _ _ _ _ H1) as [H2 V2].
  eexists. split; [reflexivity|]. split; [exact H2|]. done.
Qed.

Lemma args_decides n i o b w d r s :
  no_eol w -> fresh b -> Parser.isEOL d = true -> conf n ParseArgs b i o (w ++ d :: r) s ->
  exists s', step stm s = (s', Ok None) /\ conf n ParseArgsEOL (line_chars w b) i o (d :: r) s' /\ same_vars s s'.
Proof.
  intros Hw Hf Hd Hc. pose proof Hc as [Hp Hb _ _ _ _ _ _ _ _ _ _ _ _].
  unfold step. rewrite Hp. unfold case_ParseArgs.
  rewrite M_bind_eq, (conf_input_range _ _ _ _ _ _ _ _ Hc), Hb. cbn beta iota.
  rewrite getLine_read by done. rewrite read_line_app by done.
  cbn [Line.read_line]. rewrite Hd. cbn [fst snd Parser.rest_ok].
  rewrite M_bind_eq, set_left_eq. cbn beta iota. rewrite M_bind_eq. cbn [modify].
  destruct (conf_left _ _ _ _ _ w (d :: r) _ _ Hc) as [H1 V1].
  destruct (conf_buf _ _ _ (line_chars w b) _ _ _ _ _ H1) as [H2 V2].
  destruct (conf_phase _ _ ParseArgsEOL _ _ _ _ _ _ H2) as [H3 V3].
  eexists. split; [reflexivity|]. split; [exact H3|]. done.
Qed.

(** A carriage return may be in front of the line feed. *)
Definition cr_only (w : list ascii) : Prop := w = [] \/ w = [CRc].

Lemma cr_only_split w1 w2 : cr_only (w1 ++ w2) -> cr_only w1 /\ cr_only w2.
Proof.
  unfold cr_only. destruct w1 as [|c w1]; cbn; [auto|]. intros [|[= -> H1]]; [done|].
  apply app_nil in H1 as [-> ->]. auto.
Qed.

Lemma consume_eol w r : cr_only w ->
  Parser.consumeEOL w = ([], false) /\ Parser.consumeEOL (w ++ LFc :: r) = (r, true).
Proof. by intros [-> | ->]. Qed.

Lemma eol_reads n i o b w s :
  cr_only w -> conf n ParseArgsEOL b i o w s ->
  exists s', step stm s = (s', Ok (Some READ)) /\ conf n ParseArgsEOL b i o [] s' /\ same_vars s s'.
Proof.
  intros Hw Hc. pose proof Hc as [Hp Hb _ _ _ _ _ _ _ _ _ _ _ _].
  unfold step. rewrite Hp. unfold case_ParseArgsEOL.
  rewrite M_bind_eq, (conf_input_range _ _ _ _ _ _ _ _ Hc). cbn beta iota.
  rewrite (proj1 (consume_eol w [] Hw)). rewrite M_bind_eq, set_left_eq. cbn [negb]. cbn beta iota.
  rewrite <- (app_nil_r w) in Hc. destruct (conf_left _ _ _ _ _ w [] _ _ Hc) as [H1 V1].
  eexists. split; [reflexivity|]. done.
Qed.

(** What follows a line end. *)
Lemma eol_step n i o b w r s :
  cr_only w -> conf n ParseArgsEOL b i o (w ++ LFc :: r) s ->
  exists s1, conf n ParseArgsEOL b i o r s1 /\ same_vars s s1 /\
    step stm s =
      (if m_cmdidx s =? 0 then
         let '(b, argc) := CArgBuffer.argc (m_argBuffer s) in
         _ ← modify (with_argBuffer b);
         if (0 <? argc)%nat then
           _ ← print_error ("ERR command line starting with spaces" ++ endl);
           return_in ProtocolError WRITE
         else goto EnterCommand
       else run_command stm) s1.
Proof.
  intros Hw Hc. pose proof Hc as [Hp Hb _ _ _ _ _ _ _ _ _ _ _ _].
  destruct (conf_left _ _ _ _ _ (w ++ [LFc]) r _ s ltac:(by rewrite <- app_assoc)) as [H1 V1].
  exists (left_at r s). split_and!; auto.
  unfold step at 1. rewrite Hp. unfold case_ParseArgsEOL.
  rewrite M_bind_eq, (conf_input_range _ _ _ _ _ _ _ _ Hc). cbn beta iota.
  rewrite (proj2 (consume_eol w r Hw)). rewrite M_bind_eq, set_left_eq. cbn [negb]. cbn beta iota.
  done.
Qed.

(** ** The rest of a line with an error *)

Definition junk (w : list ascii) : Prop := exists j c, w = j ++ c /\ no_eol j /\ cr_only c.

Lemma junk_split w1 : forall w2, junk (w1 ++ w2) -> junk w1 /\ junk w2.
Proof.
  induction w1 as [|c w1 IH]; intros w2 (j & e & Heq & Hj & He).
  { split; [exists [], []|exists j, e]; split_and!; auto; [constructor|by left]. }
  destruct j as [|c' j].
  - cbn in Heq. subst e. destruct He as [|[= -> He]]; [done|]. apply app_nil in He as [-> ->].
    split; [exists [], [CRc]|exists [], []]; split_and!; auto; try constructor; done.
  - cbn in Heq. injection Heq as <- Heq. apply Forall_cons in Hj as [Hc Hj].
    destruct (IH w2) as [(j1 & e1 & -> & Hj1 & He1) H2]; [by exists j, e|].
    split; [|done]. exists (c :: j1), e1. split_and!; auto. by constructor.
Qed.

Lemma skipLine_app j : forall w, no_eol j -> Parser.skipLine (j ++ w) = Parser.skipLine w.
Proof.
  induction j as [|c j IH]; intros w Hj; [done|]. apply Forall_cons in Hj as [Hc Hj].
  cbn. by rewrite Hc, IH.
Qed.

Lemma error_reads n i o b w s :
  junk w -> conf n ProtocolError b i o w s ->
  exists s', step stm s = (s', Ok (Some READ)) /\ conf n ProtocolError b i o [] s' /\ same_vars s s'.
Proof.
  intros (j & e & -> & Hj & He) Hc. pose proof Hc as [Hp Hb _ _ _ _ _ _ _ _ _ _ _ _].
  unfold step. rewrite Hp. unfold case_ProtocolError.
  rewrite M_bind_eq, (conf_input_range _ _ _ _ _ _ _ _ Hc). cbn beta iota.
  rewrite skipLine_app by done. rewrite <- (app_nil_r (j ++ e)) in Hc.
  destruct (conf_left _ _ _ _ _ (j ++ e) [] _ _ Hc) as [H1 V1].
  destruct He as [-> | ->]; cbn; (eexists; split; [reflexivity|]; done).
Qed.

Lemma error_decides n i o b w r s :
  junk w -> conf n ProtocolError b i o (w ++ LFc :: r) s ->
  exists s', step stm s = (s', Ok None) /\ conf n EnterCommand (CArgBuffer.clear b) i o r s' /\ same_vars s s'.
Proof.
  intros (j & e & -> & Hj & He) Hc. pose proof Hc as [Hp Hb _ _ _ _ _ _ _ _ _ _ _ _].
  unfold step. rewrite Hp. unfold case_ProtocolError.
  rewrite M_bind_eq, (conf_input_range _ _ _ _ _ _ _ _ Hc). cbn beta iota.
  rewrite <- app_assoc, skipLine_app by done.
  destruct (conf_left _ _ _ _ _ ((j ++ e) ++ [LFc]) r _ s ltac:(by rewrite <- app_assoc)) as [H1 V1].
  destruct (conf_buf _ _ _ (CArgBuffer.clear b) _ _ _ _ _ H1) as [H2 V2].
  destruct (conf_phase _ _ EnterCommand _ _ _ _ _ _ H2) as [H3 V3].
  assert (Parser.skipLine (e ++ LFc :: r) = (e ++ LFc :: r, true)) as -> by (by destruct He as [-> | ->]).
  cbn beta iota. rewrite (proj2 (consume_eol e r He)). cbn beta iota. rewrite M_bind_eq, set_left_eq. cbn beta iota.
  eexists. split; [|split; [exact H3|done]]. rewrite M_bind_eq. cbn [modify]. cbn beta iota. reflexivity.
Qed.

(** ** Running a command and sending its result *)

Lemma run_command_conf n i o b src s ci run rs out o1 :
  conf n ParseArgsEOL b i o src s -> m_cmdidx s = ci -> STM.getCommand i (ci - 1) stm = Ok run ->
  run (CArgBuffer.argv b).2 (o, None) = ((o1, None), Ok (rs, out)) ->
  exists s' b', run_command stm s = (s', Ok None) /\ conf n ProcessOutput b' i o1 src s' /\
    m_resultstate s' = rs /\ m_resultstr s' = out /\ m_resultitr s' = 0%nat.
Proof.
  intros [] Hci Hget Hrun. unfold run_command, catch_std_exception, try_catch.
  rewrite M_bind_eq. unfold lift. rewrite c_state0, Hci, Hget. cbn beta iota. rewrite c_buf0.
  destruct (CArgBuffer.argv b) as [b' args'] eqn:Eargv. cbn [snd] in Hrun.
  rewrite M_bind_eq. cbn [modify]. cbn beta iota. rewrite M_bind_eq. unfold command_call.
  change (m_object (with_argBuffer b' s)) with (m_object s).
  change (m_delegateHandler (with_argBuffer b' s)) with (m_delegateHandler s).
  assert (run args' (m_object s, m_delegateHandler s) = ((o1, None), Ok (rs, out))) as Hrun' by (rewrite c_obj0, c_del0; exact Hrun).
  rewrite Hrun'. cbn beta iota.
  rewrite M_bind_eq. cbn [modify]. cbn beta iota. eexists _, b'. split; [reflexivity|]. cbn. split_and!; try done.
Qed.

(** The result is sent in parts, then the next command is read. *)
Lemma output_sent n b i o src cs : forall k s out,
  conf n ProcessOutput b i o src s -> (m_resultitr s <= length (m_resultstr s))%nat ->
  (length (m_resultstr s) - m_resultitr s <= k)%nat ->
  exists s', runs_to (s, cs, out) (s', cs, out ++ drop (m_resultitr s) (m_resultstr s)) /\
    conf n ProcessOutput b i o src s' /\ m_resultstate s' = m_resultstate s /\
    m_resultstr s' = m_resultstr s /\ m_resultitr s' = length (m_resultstr s).
Proof.
  induction k as [|k IH]; intros s out Hc Hle Hk.
  { assert (m_resultitr s = length (m_resultstr s)) as E by lia. exists s.
    rewrite E, drop_all, app_nil_r. split_and!; auto. apply rtc_refl. }
  destruct (decide (m_resultitr s = length (m_resultstr s))) as [E|E].
  { exists s. rewrite E, drop_all, app_nil_r. split_and!; auto. apply rtc_refl. }
  pose proof Hc as [Hp _ _ _ _ Hpos _ Hroom Hbound _ _ _ _ _]. cbn [length] in Hpos.
  set (rr := Nat.min (size (m_output s)) (length (m_resultstr s) - m_resultitr s)).
  set (d := take rr (drop (m_resultitr s) (m_resultstr s))).
  assert (length d = rr) as Hd by (unfold d; rewrite length_take, length_drop; lia).
  set (s1 := with_result (m_resultstate s) (m_resultstr s) (m_resultitr s + rr) (with_output (emit (m_output s) d) s)).
  assert (step stm s = (s1, Ok (Some WRITE))) as Hs1.
  { unfold step. rewrite Hp. unfold case_ProcessOutput. destruct (Nat.eqb_spec (m_resultitr s) (length (m_resultstr s))); [done|].
    assert (Z.to_nat (OutputBlock.restsize (m_output s)) = size (m_output s)) as ->.
    { unfold OutputBlock.restsize. rewrite Hpos, wrap_small by lia. lia. }
    fold rr d. rewrite print_ok by (unfold block_wf; lia). rewrite decide_True by (unfold free; lia). done. }
  assert (conf_out n ProcessOutput b i o src d s1) as C1.
  { pose proof (size_emit (m_output s) d ltac:(lia)) as Hsz.
    destruct Hc. constructor; auto; cbn [m_output with_output with_result s1]; rewrite ?Hsz; auto.
    - cbn. by rewrite Hpos.
    - unfold emit. cbn [m_ptr]. rewrite Hpos, take_0. cbn [app]. by rewrite take_app_length. }
  destruct (send_conf _ _ _ _ _ _ _ _ C1 ltac:(done)) as (s2 & E2 & C2 & (V1 & V2 & V3 & V4)).
  destruct (IH s2 (out ++ d) C2) as (s3 & R3 & C3 & S3 & T3 & I3); rewrite ?V3, ?V4; cbn; try lia.
  exists s3. rewrite V3, V4 in *. cbn [m_resultitr m_resultstr m_resultstate s1 with_result] in *.
  split_and!; auto; [|by rewrite S3, V2].
  eapply rtc_l; [cbn; rewrite Hs1, E2; reflexivity|].
  replace (drop (m_resultitr s) (m_resultstr s)) with (d ++ drop (m_resultitr s + rr) (m_resultstr s)); [by rewrite app_assoc|].
  unfold d. by rewrite <- drop_drop, take_drop.
Qed.

Lemma output_done n b i o src s i1 cs out :
  conf n ProcessOutput b i o src s -> m_resultitr s = length (m_resultstr s) -> m_resultstate s = Z.of_nat i1 ->
  exists s', runs_to (s, cs, out) (s', cs, out) /\ conf n EnterCommand (CArgBuffer.clear b) i1 o src s'.
Proof.
  intros Hc Hi Hr. pose proof Hc as [Hp _ _ _ _ _ _ _ _ _ _ _ _ _].
  set (s1 := with_cmdstate Init (with_stateidx i1 s)).
  assert (conf n Init b i1 o src s1) as C1 by (destruct Hc; by constructor).
  destruct (conf_buf _ _ _ (CArgBuffer.clear b) _ _ _ _ _ C1) as [C2 _].
  exists (with_result (-1) [] 0 (with_cmdidx (-1) (with_cmdstate EnterCommand (with_argBuffer (CArgBuffer.clear b) s1)))).
  split; [|destruct C2; by constructor].
  eapply rtc_l; [apply (conn_continue s s1)|eapply rtc_once, conn_continue].
  - unfold step. rewrite Hp. unfold case_ProcessOutput. rewrite Hi, Nat.eqb_refl, Hr.
    destruct (Z.ltb_spec (Z.of_nat i1) 0); [lia|]. rewrite Nat2Z.id. done.
  - destruct C1. unfold step. cbn [m_cmdstateidx s1 with_cmdstate]. unfold case_Init. rewrite M_bind_eq. cbn [modify].
    cbn beta iota. rewrite c_pos0. cbn [length]. rewrite Nat.eqb_refl, c_buf0. rewrite M_bind_eq. cbn [modify].
    cbn beta iota. set (s2 := with_result _ _ _ _).
    assert (start_delegation s2 = (s2, Ok tt)) as Hd by (unfold start_delegation; change (m_delegateHandler s2) with (m_delegateHandler s1); by rewrite c_del0).
    by rewrite M_bind_eq, Hd.
Qed.

(** ** A line *)

Abbreviation fits n cs := (Forall (fun c : list ascii => length c <= n)%nat cs).

(** The session is ready for a command; [S] is the input to come. *)
Definition ready_for (n i : nat) (o : O) (S : list ascii) (s : t O D) (cs : list (list ascii)) : Prop :=
  exists b src, conf n EnterCommand b i o src s /\ CArgBuffer.m_content b = [] /\ src ++ concat cs = S /\ fits n cs.

Definition crs (l : line) : list ascii := if crlf l then [CRc] else [].

Lemma eol_crs l : eol l = crs l ++ [LFc] /\ cr_only (crs l).
Proof. unfold eol, crs, cr_only. destruct (crlf l); auto. Qed.

(** What follows the word begins with its end. *)
Lemma behind_word l rest : line_wf l -> exists d r, args l ++ eol l ++ rest = d :: r /\ schar d <= 32.
Proof.
  intros [_ _ Hs]. destruct (args l) as [|c a]; [|by exists c, (a ++ eol l ++ rest)].
  unfold eol. destruct (crlf l); eexists _, _; (split; [reflexivity|]); vm_compute; discriminate.
Qed.

Lemma eol_first l : exists e tl, eol l = e :: tl /\ Parser.isEOL e = true.
Proof. unfold eol. destruct (crlf l); eexists _, _; (split; reflexivity). Qed.

(** Up to the end of the command word. *)
Lemma word_read n i o st l rest s cs out :
  stm !! i = Some st -> line_wf l -> (0 < n)%nat -> ready_for n i o (text l ++ rest) s cs ->
  let ci := CmdParser.find (STM.m_parser st) (map CmdParser.tolower (word l)) in
  exists s' b src cs', fits n cs' /\ src ++ concat cs' = args l ++ eol l ++ rest /\ src <> [] /\
    if ci =? -1 then
      runs_to (s, cs, out) (s', cs', out ++ error_text "ERR unknown command") /\ conf n ProtocolError b i o src s'
    else runs_to (s, cs, out) (s', cs', out) /\ conf n ParseArgs (CArgBuffer.clear b) i o src s' /\ m_cmdidx s' = ci.
Proof.
  intros Hst Hl Hn (b & src & Hc & Hb & Heq & Hcs) ci.
  destruct (behind_word l rest Hl) as (d & r0 & Hr0 & Hd).
  unfold text in Heq. rewrite <- !app_assoc, Hr0 in Heq. rewrite Hr0.
  destruct (reads_until n EnterCommand i o (Forall (fun c => 32 < schar c)) word_buf (fun _ => True) Hn ltac:(done)
    ltac:(intros; by apply Forall_app)
    ltac:(intros; unfold word_buf; cbn; by rewrite map_app, app_assoc)
    ltac:(intros []; unfold word_buf; cbn; by rewrite app_nil_r)
    ltac:(intros; split; [done|by apply enter_reads with st])
    cs src (word l) d r0 b s out Hc I (l_word _ Hl) Heq Hcs)
    as (w0 & w1 & r & s1 & cs1 & R1 & Hw & C1 & _ & Hr & _ & F1).
  pose proof (l_word _ Hl) as Hword. rewrite Hw in Hword. apply Forall_app in Hword as [_ Hw1].
  pose proof (enter_decides n i o st _ w1 d r s1 Hst Hw1 Hd C1) as Hdec. cbn zeta in Hdec.
  assert (CmdParser.find (STM.m_parser st) (CArgBuffer.m_content (word_buf w0 b) ++ map CmdParser.tolower w1) = ci) as Hci.
  { unfold ci, word_buf. cbn. by rewrite Hb, Hw, map_app. }
  rewrite Hci in Hdec. destruct (ci =? -1).
  - destruct (Hdec cs1 out) as (s2 & b2 & E2 & C2). exists s2, b2, (d :: r), cs1. split_and!; auto.
    + cbn. by rewrite Hr.
    + eapply rtc_r; [exact R1|exact E2].
  - destruct Hdec as (s2 & E2 & C2 & V2). exists s2, (word_buf w0 b), (d :: r), cs1. split_and!; auto.
    + cbn. by rewrite Hr.
    + eapply rtc_r; [exact R1|]. by apply conn_continue.
Qed.

(** From the arguments to the end of the line. *)
Lemma args_read n i o l rest src b s cs out :
  line_wf l -> (0 < n)%nat -> conf n ParseArgs (CArgBuffer.clear b) i o src s ->
  src ++ concat cs = args l ++ eol l ++ rest -> fits n cs ->
  exists s1 w r cs1, runs_to (s, cs, out) (s1, cs1, out) /\ cr_only w /\
    conf n ParseArgsEOL (arg_buffer l) i o (w ++ LFc :: r) s1 /\ m_cmdidx s1 = m_cmdidx s /\
    r ++ concat cs1 = rest /\ fits n cs1.
Proof.
  intros Hl Hn Hc Heq Hcs. destruct (eol_first l) as (e & tl & He & Hise). rewrite He in Heq. cbn [app] in Heq.
  destruct (reads_until n ParseArgs i o no_eol line_chars fresh Hn ltac:(done) no_eol_app
    ltac:(intros; unfold line_chars; by rewrite map_app, push_all_app) ltac:(done)
    ltac:(intros; by eapply args_reads)
    cs src (args l) e (tl ++ rest) _ s out Hc ltac:(done) (l_args _ Hl) Heq Hcs)
    as (w0 & w1 & r & s1 & cs1 & R1 & Hw & C1 & F1 & Hr & V1 & Fit1).
  pose proof (l_args _ Hl) as Hargs. rewrite Hw in Hargs. apply no_eol_app in Hargs as [_ Hw1].
  destruct (args_decides n i o _ w1 e r s1 Hw1 F1 Hise C1) as (s2 & E2 & C2 & V2).
  assert (line_chars w1 (line_chars w0 (CArgBuffer.clear b)) = arg_buffer l) as Hbuf.
  { unfold line_chars, arg_buffer. by rewrite <- push_all_app, <- map_app, <- Hw. }
  rewrite Hbuf in C2. destruct (eol_crs l) as [Hcrs Hcr].
  assert ((e :: r) ++ concat cs1 = crs l ++ LFc :: rest) as Heq2.
  { cbn. rewrite <- Hr. change (e :: tl ++ rest) with ((e :: tl) ++ rest). by rewrite <- He, Hcrs, <- app_assoc. }
  destruct (reads_until n ParseArgsEOL i o cr_only (fun _ b => b) (fun _ => True) Hn ltac:(done) cr_only_split
    ltac:(done) ltac:(done) ltac:(intros; split; [done|by eapply eol_reads])
    cs1 (e :: r) (crs l) LFc rest _ s2 out C2 I Hcr Heq2 Fit1)
    as (u0 & u1 & r3 & s3 & cs3 & R3 & Hu & C3 & _ & Hr3 & V3 & Fit3).
  exists s3, u1, r3, cs3. split_and!; auto.
  - etrans; [exact R1|]. eapply rtc_l; [apply conn_continue; exact E2|exact R3].
  - rewrite Hu in Hcr. by apply cr_only_split in Hcr as [_ ?].
  - unfold same_vars in *. intuition congruence.
Qed.

(** A line in error is skipped. *)
Lemma error_skipped n i o w rest src b s cs out :
  junk w -> (0 < n)%nat -> conf n ProtocolError b i o src s -> src ++ concat cs = w ++ LFc :: rest -> fits n cs ->
  exists s' cs', runs_to (s, cs, out) (s', cs', out) /\ ready_for n i o rest s' cs'.
Proof.
  intros Hw Hn Hc Heq Hcs.
  destruct (reads_until n ProtocolError i o junk (fun _ b => b) (fun _ => True) Hn ltac:(done) junk_split
    ltac:(done) ltac:(done) ltac:(intros; split; [done|by eapply error_reads])
    cs src w LFc rest _ s out Hc I Hw Heq Hcs)
    as (w0 & w1 & r & s1 & cs1 & R1 & -> & C1 & _ & Hr & _ & F1).
  apply junk_split in Hw as [_ Hw1]. destruct (error_decides n i o b w1 r s1 Hw1 C1) as (s2 & E2 & C2 & _).
  exists s2, cs1. split; [eapply rtc_r; [exact R1|by apply conn_continue]|].
  by exists (CArgBuffer.clear b), r.
Qed.

Lemma word_no_eol w : Forall (fun c => 32 < schar c) w -> no_eol w.
Proof.
  intros Hw. eapply Forall_impl; [exact Hw|]. intros c Hc. cbn in Hc. unfold Parser.isEOL.
  destruct (Ascii.eqb_spec c CRc) as [->|]; [vm_compute in Hc; discriminate|].
  destruct (Ascii.eqb_spec c LFc) as [->|]; [vm_compute in Hc; discriminate|]. done.
Qed.

Lemma junk_line j l : no_eol j -> junk (j ++ crs l).
Proof. intros Hj. exists j, (crs l). split_and!; auto. apply eol_crs. Qed.

Lemma command_state i l ci : command i l = Some ci ->
  exists st, stm !! i = Some st /\ CmdParser.find (STM.m_parser st) (map CmdParser.tolower (word l)) = ci.
Proof. unfold command. destruct (stm !! i) as [st|]; [|done]. cbn. intros [= <-]. by exists st. Qed.

Lemma no_args_content l : CArgBuffer.size (arg_buffer l) = 0%nat -> CArgBuffer.m_content (arg_buffer l) = [].
Proof.
  intros Hz. assert (fresh (arg_buffer l)) as Hf by by apply fresh_push_all. by rewrite (Hf Hz).
Qed.

(** A line with a command up to its end; [s1] is the state in which the command is run. *)
Lemma line_read n i o l ci rest s cs out :
  command i l = Some ci -> ci <> -1 -> line_wf l -> (0 < n)%nat -> ready_for n i o (text l ++ rest) s cs ->
  exists s0 s1 b r cs1, runs_to (s, cs, out) (s0, cs1, out) /\ conf n ParseArgsEOL b i o r s1 /\
    CArgBuffer.m_content b = CArgBuffer.m_content (arg_buffer l) /\ (ci <> 0 -> b = arg_buffer l) /\
    m_cmdidx s1 = ci /\ r ++ concat cs1 = rest /\ fits n cs1 /\
    step stm s0 =
      (if ci =? 0 then
         if (0 <? CArgBuffer.size (arg_buffer l))%nat then
           _ ← print_error ("ERR command line starting with spaces" ++ endl);
           return_in ProtocolError WRITE
         else goto EnterCommand
       else run_command stm) s1.
Proof.
  intros Hcmd Hci Hl Hn Hr. destruct (command_state _ _ _ Hcmd) as (st & Hst & Hfind).
  destruct (word_read n i o st l rest s cs out Hst Hl Hn Hr) as (s1 & b1 & src1 & cs1 & F1 & Heq1 & _ & Hword).
  rewrite Hfind in Hword. destruct (Z.eqb_spec ci (-1)); [done|]. destruct Hword as (R1 & C1 & V1).
  destruct (args_read n i o l rest src1 b1 s1 cs1 out Hl Hn C1 Heq1 F1) as (s2 & w & r & cs2 & R2 & Hw & C2 & V2 & Heq2 & F2).
  destruct (eol_step n i o _ w r s2 Hw C2) as (s3 & C3 & V3 & Hstep).
  assert (m_cmdidx s2 = ci) as Hc2 by congruence. rewrite Hc2 in Hstep.
  assert (m_cmdidx s3 = ci) as Hc3 by (destruct V3 as (-> & _); done).
  pose proof (c_buf _ _ _ _ _ _ _ _ C2) as Hb2.
  destruct (Z.eqb_spec ci 0) as [E0|E0].
  - unfold CArgBuffer.argc in Hstep. rewrite Hb2 in Hstep. rewrite M_bind_eq in Hstep. cbn [modify] in Hstep.
    destruct (conf_buf _ _ _ (CArgBuffer.argv (arg_buffer l)).1 _ _ _ _ _ C3) as [C4 V4].
    exists s2, (with_argBuffer (CArgBuffer.argv (arg_buffer l)).1 s3), (CArgBuffer.argv (arg_buffer l)).1, r, cs2.
    split_and!; auto; [etrans; [exact R1|exact R2]|done].
  - exists s2, s3, (arg_buffer l), r, cs2. split_and!; auto. etrans; [exact R1|exact R2].
Qed.

(** A command runs and its result is sent. *)
Lemma command_runs n i o l ci run rs out o1 rest s cs acc :
  command i l = Some ci -> 0 < ci -> STM.getCommand i (ci - 1) stm = Ok run ->
  run (arguments l) (o, None) = ((o1, None), Ok (Z.of_nat rs, out)) ->
  line_wf l -> (0 < n)%nat -> ready_for n i o (text l ++ rest) s cs ->
  exists s' cs', runs_to (s, cs, acc) (s', cs', acc ++ out) /\ ready_for n rs o1 rest s' cs'.
Proof.
  intros Hcmd Hci Hget Hrun Hl Hn Hr.
  destruct (line_read n i o l ci rest s cs acc Hcmd ltac:(lia) Hl Hn Hr)
    as (s0 & s1 & b & r & cs1 & R1 & C1 & _ & Hb & V1 & Heq & F1 & Hstep).
  rewrite (Hb ltac:(lia)) in C1. destruct (Z.eqb_spec ci 0); [lia|].
  destruct (run_command_conf n i o _ r s1 ci run (Z.of_nat rs) out o1 C1 V1 Hget Hrun)
    as (s2 & b2 & E2 & C2 & Hrs & Hstr & Hitr).
  destruct (output_sent n b2 i o1 r cs1 (length out) s2 acc C2) as (s3 & R3 & C3 & Hrs3 & Hstr3 & Hitr3);
    [rewrite Hstr, Hitr; lia..|].
  destruct (output_done n b2 i o1 r s3 rs cs1 (acc ++ out) C3) as (s4 & R4 & C4); [congruence..|].
  exists s4, cs1. split; [|exists (CArgBuffer.clear b2), r; done].
  etrans; [exact R1|]. eapply rtc_l; [apply conn_continue; by rewrite Hstep|].
  rewrite Hstr, Hitr, drop_0 in R3. etrans; [exact R3|exact R4].
Qed.

(** A line without a command. *)
Lemma empty_line_read n i o l rest s cs acc :
  command i l = Some 0 -> line_wf l -> (0 < n)%nat -> ready_for n i o (text l ++ rest) s cs ->
  if (0 <? CArgBuffer.size (arg_buffer l))%nat then
    exists s' b src cs', runs_to (s, cs, acc) (s', cs', acc ++ error_text "ERR command line starting with spaces") /\
      conf n ProtocolError b i o src s' /\ src ++ concat cs' = rest /\ fits n cs'
  else exists s' cs', runs_to (s, cs, acc) (s', cs', acc) /\ ready_for n i o rest s' cs'.
Proof.
  intros Hcmd Hl Hn Hr.
  destruct (line_read n i o l 0 rest s cs acc Hcmd ltac:(lia) Hl Hn Hr)
    as (s0 & s1 & b & r & cs1 & R1 & C1 & Hct & _ & V1 & Heq & F1 & Hstep).
  cbn [Z.eqb] in Hstep. destruct (Nat.ltb_spec 0 (CArgBuffer.size (arg_buffer l))) as [Hsz|Hsz].
  - destruct (error_conf n ParseArgsEOL b i o r s1 "ERR command line starting with spaces" id s0 cs1 acc C1)
      as (s2 & b2 & E2 & C2); [reflexivity|vm_compute; lia|intros s2 b2; by exists b2|exact Hstep|].
    exists s2, b2, r, cs1. split_and!; auto. eapply rtc_r; [exact R1|exact E2].
  - destruct (conf_phase _ _ EnterCommand _ _ _ _ _ _ C1) as [C2 _].
    exists (with_cmdstate EnterCommand s1), cs1. split.
    + eapply rtc_r; [exact R1|]. by apply conn_continue.
    + exists b, r. split_and!; auto. rewrite Hct. apply no_args_content. lia.
Qed.

Lemma lines_run n ls i o i2 o2 txt :
  interp ls i o i2 o2 txt -> Forall line_wf ls -> (0 < n)%nat ->
  forall s cs acc, ready_for n i o (concat (map text ls)) s cs ->
  exists s' cs', runs_to (s, cs, acc) (s', cs', acc ++ txt) /\ ready_for n i2 o2 [] s' cs'.
Proof.
  induction 1 as [i o|l ls i o i1 o1 i2 o2 ci run out out2 Hcmd Hci Hget Hrun _ IH
    |l ls i o i2 o2 out2 Hcmd _ IH|l ls i o i2 o2 out2 Hcmd Hz _ IH|l l' ls i o i2 o2 out2 Hcmd Hz _ IH];
    intros Hls Hn s cs acc Hr; cbn [map concat] in Hr.
  - exists s, cs. rewrite app_nil_r. split; [apply rtc_refl|done].
  - apply Forall_cons in Hls as [Hl Hls].
    destruct (command_runs n i o l ci run i1 out o1 _ s cs acc Hcmd Hci Hget Hrun Hl Hn Hr) as (s1 & cs1 & R1 & Hr1).
    destruct (IH Hls Hn s1 cs1 (acc ++ out) Hr1) as (s2 & cs2 & R2 & Hr2).
    exists s2, cs2. split; [|done]. rewrite app_assoc. etrans; [exact R1|exact R2].
  - apply Forall_cons in Hls as [Hl Hls]. destruct (command_state _ _ _ Hcmd) as (st & Hst & Hfind).
    destruct (word_read n i o st l _ s cs acc Hst Hl Hn Hr) as (s1 & b & src & cs1 & F1 & Heq1 & _ & Hword).
    rewrite Hfind in Hword. cbn [Z.eqb Pos.eqb] in Hword. destruct Hword as [R1 C1].
    destruct (eol_crs l) as [He _]. rewrite He, app_assoc, app_assoc, <- app_assoc in Heq1.
    destruct (error_skipped n i o (args l ++ crs l) _ src b s1 cs1 (acc ++ error_text "ERR unknown command")
      (junk_line _ _ (l_args _ Hl)) Hn C1 Heq1 F1)
      as (s2 & cs2 & R2 & Hr2).
    destruct (IH Hls Hn s2 cs2 (acc ++ error_text "ERR unknown command") Hr2) as (s3 & cs3 & R3 & Hr3).
    exists s3, cs3. split; [|done]. rewrite app_assoc. etrans; [exact R1|]. etrans; [exact R2|exact R3].
  - apply Forall_cons in Hls as [Hl Hls].
    pose proof (empty_line_read n i o l _ s cs acc Hcmd Hl Hn Hr) as He. rewrite Hz in He.
    destruct He as (s1 & cs1 & R1 & Hr1). destruct (IH Hls Hn s1 cs1 acc Hr1) as (s2 & cs2 & R2 & Hr2).
    exists s2, cs2. split; [|done]. etrans; [exact R1|exact R2].
  - apply Forall_cons in Hls as [Hl Hls]. apply Forall_cons in Hls as [Hl' Hls].
    pose proof (empty_line_read n i o l _ s cs acc Hcmd Hl Hn Hr) as He. rewrite (proj2 (Nat.ltb_lt _ _) Hz) in He.
    destruct He as (s1 & b & src & cs1 & R1 & C1 & Heq1 & F1).
    destruct (eol_crs l') as [He _]. unfold text in Heq1. rewrite He in Heq1.
    assert (junk ((word l' ++ args l') ++ crs l')) as Hj.
    { apply junk_line. apply Forall_app. split; [apply word_no_eol, (l_word _ Hl')|apply (l_args _ Hl')]. }
    destruct (error_skipped n i o _ (concat (map text ls)) src b s1 cs1 (acc ++ error_text "ERR command line starting with spaces") Hj Hn C1) as (s2 & cs2 & R2 & Hr2).
    { rewrite Heq1, <- !app_assoc. done. }
    { done. }
    destruct (IH Hls Hn s2 cs2 (acc ++ error_text "ERR command line starting with spaces") Hr2) as (s3 & cs3 & R3 & Hr3).
    exists s3, cs3. split; [|done]. rewrite app_assoc. etrans; [exact R1|]. etrans; [exact R2|exact R3].
Qed.

(** C1. Sessions of a line protocol.  For every table of commands that do not delegate, the
    handler implements the interpretation of the lines, however the lines are divided into
    network messages that fit into the input buffer and whatever the size of the output
    buffer, from 64 characters: it reads all lines, ends in the state of the protocol and
    of the derived class the interpretation gives, ready for the next command, and has
    sent exactly its text. *)
Theorem lines_interpreted n ls i o i2 o2 txt s cs :
  interp ls i o i2 o2 txt -> Forall line_wf ls -> (0 < n)%nat ->
  ready_for n i o (concat (map text ls)) s cs ->
  exists s' cs', runs_to (s, cs, []) (s', cs', txt) /\ ready_for n i2 o2 [] s' cs'.
Proof. intros Hi Hls Hn Hr. exact (lines_run n ls i o i2 o2 txt Hi Hls Hn s cs [] Hr). Qed.
End session.

(** ** An example *)

(** No handler to delegate to. *)
#[local] Instance no_delegate : ProtocolHandler Empty_set := {
  ph_setInputBuffer := fun _ d => d;
  ph_setOutputBuffer := fun _ _ d => d;
  ph_nextOperation := fun d => (d, Ok CLOSE);
  ph_putInput := fun _ _ d => (d, Ok tt);
  ph_getInputBlock := fun d => (d, Ok (0, 0)%nat);
  ph_getOutput := fun d => (d, Ok []);
  ph_getDataLeft := fun _ => (0, 0)%nat;
  ph_input := fun _ => [];
  ph_interruptDataSessionMarker := fun _ => []
}.

(** A protocol with one state and one command, which counts its calls and echoes its first
    argument. *)
Definition echo : RunCommand nat Empty_set := fun args '(o, d) =>
  ((S o, d), Ok (0, default [] (args !! 0%nat) ++ [LFc])).
Definition echo_protocol : list (STM.State nat Empty_set) :=
  [STM.defineCommand_ ["e"; "c"; "h"; "o"]%char echo STM.newState].

Definition echo_session : t nat Empty_set :=
  with_cmdstate EnterCommand
    (with_output (Mem.mk (replicate 64 "000"%char) 0)
      (with_input (InputBlock.make (Mem.mk (replicate 5 "000"%char) 0)) 0 0 (make 0 0%nat))).

Lemma lines_interpreted_witness :
  exists s' cs',
    runs_to echo_protocol
      (echo_session, [["E"; "C"; " "; "h"; "i"]; ["013"]; ["010"; " "; "x"; "013"; "010"]; ["e"; "c"; "h"; "o"; "010"];
                      ["f"; "o"; "o"; "010"]]%char, [])
      (s', cs', ["h"; "i"; LFc]%char ++ error_text "ERR command line starting with spaces" ++
                error_text "ERR unknown command" ++ []) /\
    ready_for 5 0 1%nat [] s' cs'.
Proof.
  apply (lines_interpreted echo_protocol 5
    [mkLine ["E"; "C"]%char [" "; "h"; "i"]%char true; mkLine [] [" "; "x"]%char true;
     mkLine ["e"; "c"; "h"; "o"]%char [] false; mkLine ["f"; "o"; "o"]%char [] false] 0 0%nat 0 1%nat).
  - eapply (interp_command _ _ _ _ _ 0%nat 1%nat); [reflexivity|reflexivity|reflexivity|reflexivity|].
    eapply interp_spaces; [reflexivity|apply Nat.ltb_lt; reflexivity|]. eapply interp_unknown; [reflexivity|]. constructor.
  - repeat (constructor; [constructor; [repeat (constructor; [reflexivity|]); constructor
      |repeat (constructor; [reflexivity|]); constructor|first [exact I|vm_compute; discriminate]]|]). constructor.
  - lia.
  - exists (CArgBuffer.make []), []. split; [constructor; try reflexivity; cbn; lia|].
    split; [reflexivity|]. split; [reflexivity|]. repeat (constructor; [cbn; lia|]). constructor.
Defined.
