(* ===== verification/MessageHandler.v ===== *)
(** * The handlers of the authentication protocols

    Models src/modules/protocol/wolframe/baseCryptoProtocolHandler.hpp and .cpp, the
    exchange of messages, and authProtocolHandler.cpp and passwordChangeProtocolHandler.cpp,
    which exchange them with an authenticator or a password changer.  The two are reached
    through their interfaces AAAA::Authenticator and AAAA::PasswordChanger, the classes
    [Authenticator] and [PasswordChanger] here.

    The memory for input and output belongs to the connection, as in EscDlfHandler. *)
From S2P Require Import Prelude IoBlocks.
Import Mem.
From S2P Require Import EscDlfHandler.

(** ** The base class *)

Module BaseCryptoProtocolHandler.

Inductive State := Init | NextOperation | FlushOutput.
#[global] Instance State_eq_dec : EqDecision State.
Proof. solve_decision. Defined.

(** [m_peer] stands for the derived class. *)
Record t (P : Type) := mk {
  m_input : InputBlock.t;
  m_eoD : nat;
  m_itrpos : nat;
  m_msgstart : nat;
  m_outputbuf : list ascii;
  m_outputbufpos : nat;
  m_state : State;
  m_readbuffer : list ascii;
  m_writebuffer : list ascii;
  m_writepos : nat;
  m_lastError : option string;
  m_peer : P
}.
Arguments mk {P} _ _ _ _ _ _ _ _ _ _ _ _.
Arguments m_input {P} _.
Arguments m_eoD {P} _.
Arguments m_itrpos {P} _.
Arguments m_msgstart {P} _.
Arguments m_outputbuf {P} _.
Arguments m_outputbufpos {P} _.
Arguments m_state {P} _.
Arguments m_readbuffer {P} _.
Arguments m_writebuffer {P} _.
Arguments m_writepos {P} _.
Arguments m_lastError {P} _.
Arguments m_peer {P} _.

Definition make {P} (peer : P) : t P :=
  mk (InputBlock.make (Mem.mk [] 0)) 0 0 0 [] 0 Init [] [] 0 None peer.

Section handler.
Context {P : Type} (processMessage : list ascii -> M P unit).

(** The input block and the positions in it. *)
Definition with_input (i : InputBlock.t) (eod itr msg : nat) (s : t P) : t P :=
  mk i eod itr msg (m_outputbuf s) (m_outputbufpos s) (m_state s) (m_readbuffer s) (m_writebuffer s)
    (m_writepos s) (m_lastError s) (m_peer s).
Definition with_outputbuf (buf : list ascii) (pos : nat) (s : t P) : t P :=
  mk (m_input s) (m_eoD s) (m_itrpos s) (m_msgstart s) buf pos (m_state s) (m_readbuffer s) (m_writebuffer s)
    (m_writepos s) (m_lastError s) (m_peer s).
Definition setState (st : State) (s : t P) : t P :=
  mk (m_input s) (m_eoD s) (m_itrpos s) (m_msgstart s) (m_outputbuf s) (m_outputbufpos s) st (m_readbuffer s)
    (m_writebuffer s) (m_writepos s) (m_lastError s) (m_peer s).
Definition with_readbuffer (rb : list ascii) (s : t P) : t P :=
  mk (m_input s) (m_eoD s) (m_itrpos s) (m_msgstart s) (m_outputbuf s) (m_outputbufpos s) (m_state s) rb
    (m_writebuffer s) (m_writepos s) (m_lastError s) (m_peer s).
Definition with_write (wb : list ascii) (pos : nat) (s : t P) : t P :=
  mk (m_input s) (m_eoD s) (m_itrpos s) (m_msgstart s) (m_outputbuf s) (m_outputbufpos s) (m_state s)
    (m_readbuffer s) wb pos (m_lastError s) (m_peer s).
Definition setLastError (msg : string) (s : t P) : t P :=
  mk (m_input s) (m_eoD s) (m_itrpos s) (m_msgstart s) (m_outputbuf s) (m_outputbufpos s) (m_state s)
    (m_readbuffer s) (m_writebuffer s) (m_writepos s) (Some msg) (m_peer s).
Definition with_peer (p : P) (s : t P) : t P :=
  mk (m_input s) (m_eoD s) (m_itrpos s) (m_msgstart s) (m_outputbuf s) (m_outputbufpos s) (m_state s)
    (m_readbuffer s) (m_writebuffer s) (m_writepos s) (m_lastError s) p.
Definition peer {A} (m : M P A) : M (t P) A := zoom m_peer with_peer m.

Definition interruptDataSessionMarker (s : t P) : list ascii :=
  if bool_decide (m_state s = FlushOutput) then eod_text else [].

Definition setInputBuffer (buf : list ascii) (s : t P) : t P :=
  let i := m_input s in
  with_input (InputBlock.mk (Mem.set buf) (InputBlock.m_nextpos i) (InputBlock.m_eodState i) (InputBlock.m_eodcharbuf i))
    (m_eoD s) (m_itrpos s) (m_msgstart s) s.

Definition setOutputBuffer (buf : list ascii) (pos : nat) : M (t P) unit :=
  _ ← modify (with_outputbuf buf pos);
  throw_if (length buf <? pos)%nat (LogicError "illegal parameter (setOutputBuffer)").

Definition consumeNextMessage : M (t P) bool :=
  s ← gets id;
  '(i, eod) ← lift (InputBlock.getEoD (m_msgstart s) (m_input s));
  _ ← modify (with_input i eod (m_itrpos s) (m_msgstart s));
  _ ← throw_if (eod <? m_msgstart s)%nat (Undefined "negative size of the data");
  let data := take (eod - m_msgstart s) (drop (m_msgstart s) (m_ptr (InputBlock.m_mem i))) in
  _ ← modify (with_readbuffer (m_readbuffer s ++ data));
  if InputBlock.gotEoD i then
    _ ← peer (processMessage (m_readbuffer s ++ data));
    _ ← modify (with_readbuffer []);
    _ ← modify (fun s =>
          let '(i, nextpos) := InputBlock.skipEoD (m_input s) in
          with_input i (m_eoD s) (m_itrpos s) (InputBlock.size_t nextpos) s);
    mret true
  else mret false.

(** [startidx] is the position of the chunk in the input buffer. *)
Definition putInput (startidx bytesTransferred : nat) : M (t P) unit := fun s =>
  (_ ← throw_if (size (InputBlock.m_mem (m_input s)) <? bytesTransferred + startidx)%nat
         (LogicError "illegal input range passed to BaseCryptoProtocolHandler");
   _ ← modify (fun s => with_input (InputBlock.set_pos (bytesTransferred + startidx) (m_input s))
                          (m_eoD s) (m_itrpos s) (m_msgstart s) s);
   _ ← throw_if (negb (startidx =? m_itrpos s)%nat) (LogicError "unexpected buffer start for input to cmd handler");
   modify (fun s => setState NextOperation (with_input (m_input s) (m_eoD s) (m_itrpos s) 0 s))) s.

Definition getInputBlock : M (t P) (nat * nat) := fun s =>
  match InputBlock.getNetworkMessageRead (m_input s) with
  | (i, Some (begin, maxBlockSize)) =>
      (with_input i (m_eoD s) begin (m_msgstart s) s, Ok (begin, maxBlockSize))
  | (i, None) =>
      (with_input i (m_eoD s) (m_itrpos s) (m_msgstart s) s, Throw (LogicError "buffer too small for input"))
  end.

(** The sizes are unsigned differences. *)
Definition getOutput : M (t P) (list ascii) := fun s =>
  let room := InputBlock.size_t (Z.of_nat (length (m_outputbuf s)) - Z.of_nat (m_outputbufpos s)) in
  let left := InputBlock.size_t (Z.of_nat (length (m_writebuffer s)) - Z.of_nat (m_writepos s)) in
  let bytesToTransfer := if (left <? room)%nat then left else room in
  (_ ← throw_if (bytesToTransfer =? 0)%nat
         (LogicError "protocol error: empty write in authentication command handler");
   let data := take bytesToTransfer (drop (m_writepos s) (m_writebuffer s)) in
   buf ← lift (store_block (m_outputbuf s) (m_outputbufpos s) data);
   _ ← modify (fun s => with_write (m_writebuffer s) (m_writepos s + bytesToTransfer) (with_outputbuf buf 0 s));
   mret data) s.

Definition getDataLeft (s : t P) : nat * nat :=
  (m_msgstart s, (m_pos (InputBlock.m_mem (m_input s)) - m_msgstart s)%nat).

Definition pushOutput (msg : list ascii) : M (t P) unit :=
  text ← lift (escapeStringDLF msg);
  modify (fun s => setState FlushOutput (with_write (text ++ eod_text) 0 s)).

Definition endOfOutput : M (t P) bool := fun s =>
  if (m_writepos s =? length (m_writebuffer s))%nat then (with_write [] 0 s, Ok true) else (s, Ok false).

(** The connection writes what it received into the memory it asked for. *)
Definition receive (chunk : list ascii) : M (t P) unit :=
  '(begin, maxsize) ← getInputBlock;
  _ ← throw_if (maxsize <? length chunk)%nat (Undefined "more received than fits");
  _ ← modify (fun s => with_input (InputBlock.write begin chunk (m_input s)) (m_eoD s) (m_itrpos s) (m_msgstart s) s);
  putInput begin (length chunk).

(** To go on with the loop of the operations, or to return from it. *)
Definition continue : M (t P) (option Operation) := mret None.
Definition return_ (op : Operation) : M (t P) (option Operation) := mret (Some op).
Definition close_with (msg : string) : M (t P) (option Operation) :=
  _ ← modify (setLastError msg); return_ CLOSE.

End handler.
End BaseCryptoProtocolHandler.
Import BaseCryptoProtocolHandler.

(** ** Authentication *)

Module AuthProtocolHandler.

Inductive Status :=
  INITIALIZED | MESSAGE_AVAILABLE | AWAITING_MESSAGE | AUTHENTICATED | INVALID_CREDENTIALS | MECH_UNAVAILABLE | SYSTEM_FAILURE.

Class Authenticator (A : Type) := {
  status : A -> Status;
  messageOut : M A (list ascii);
  messageIn : list ascii -> M A unit
}.

Section handler.
Context {A : Type} `{Authenticator A}.

Definition processMessage : list ascii -> M A unit := messageIn.

Definition case_NextOperation : M (t A) (option Operation) :=
  st ← gets (fun s => status (m_peer s));
  match st with
  | INITIALIZED => throw (LogicError "authentication protocol operation in state INITIALIZED")
  | MESSAGE_AVAILABLE => msg ← peer messageOut; _ ← pushOutput msg; continue
  | AWAITING_MESSAGE =>
      got ← consumeNextMessage processMessage; if got : bool then continue else return_ READ
  | AUTHENTICATED => return_ CLOSE
  | INVALID_CREDENTIALS => close_with "either the username or the credentials are invalid"
  | MECH_UNAVAILABLE => close_with "the requested authentication mech is not available"
  | SYSTEM_FAILURE => close_with "unspecified authentication system error"
  end.

Definition step : M (t A) (option Operation) :=
  st ← gets m_state;
  match st with
  | Init => _ ← modify (setState NextOperation); case_NextOperation
  | NextOperation => case_NextOperation
  | FlushOutput =>
      e ← endOfOutput;
      if e : bool then _ ← modify (setState NextOperation); continue else return_ WRITE
  end.

(** The authenticator can keep the loop busy. *)
Fixpoint nextOperation (fuel : nat) : M (t A) Operation :=
  match fuel with
  | O => fun s => (s, OutOfFuel)
  | S fuel' => r ← step; match r with Some op => mret op | None => nextOperation fuel' end
  end.

End handler.
End AuthProtocolHandler.

(** ** Password change *)

Module PasswordChangeProtocolHandler.

Inductive Status := MESSAGE_AVAILABLE | AWAITING_MESSAGE | PASSWORD_EXCHANGED | INVALID_MESSAGE | SYSTEM_FAILURE.

Class PasswordChanger (A : Type) := {
  status : A -> Status;
  messageOut : M A (list ascii);
  messageIn : list ascii -> M A unit
}.

Section handler.
Context {A : Type} `{PasswordChanger A}.

Definition processMessage : list ascii -> M A unit := messageIn.

Definition case_NextOperation : M (t A) (option Operation) :=
  st ← gets (fun s => status (m_peer s));
  match st with
  | MESSAGE_AVAILABLE => msg ← peer messageOut; _ ← pushOutput msg; continue
  | AWAITING_MESSAGE =>
      got ← consumeNextMessage processMessage; if got : bool then continue else return_ READ
  | PASSWORD_EXCHANGED => return_ CLOSE
  | INVALID_MESSAGE => close_with "invalid message"
  | SYSTEM_FAILURE => close_with "unspecified authentication system error"
  end.

Definition step : M (t A) (option Operation) :=
  st ← gets m_state;
  match st with
  | Init => _ ← modify (setState NextOperation); case_NextOperation
  | NextOperation => case_NextOperation
  | FlushOutput =>
      e ← endOfOutput;
      if e : bool then _ ← modify (setState NextOperation); continue else return_ WRITE
  end.

Fixpoint nextOperation (fuel : nat) : M (t A) Operation :=
  match fuel with
  | O => fun s => (s, OutOfFuel)
  | S fuel' => r ← step; match r with Some op => mret op | None => nextOperation fuel' end
  end.

End handler.
End PasswordChangeProtocolHandler.
