(* ===== verification/MessageSession.v ===== *)
(** * Dialogs of the authentication protocols

    What the handlers of authentication and password change promise: the peer of the client
    gets the messages of the client one by one, whatever their division into network
    messages, and the client gets the answers, whatever the size of the output buffer. *)
From S2P Require Import Prelude Decimal IoBlocks IoBlocksEscape IoBlocksEod.
Import Mem.
From S2P Require Import EscDlfHandler.
From S2P Require Import MessageHandler.
Import BaseCryptoProtocolHandler.

(** ** Specification *)

(** What a peer wants to do next. *)
Inductive Want := Send | Receive | Close (err : option string) | Illegal.

(** The value of a computation of a peer. *)
Definition runs {P A} (m : M P A) (p p' : P) (a : A) : Prop := m p = (p', Ok a).

Section dialog.
Context {P : Type} (want : P -> Want) (messageOut : M P (list ascii)) (messageIn : list ascii -> M P unit).

(** A dialog: the peer and what the client sends before, and the peer, what is left of the
    input, what was sent to the client and the error at the end. *)
Inductive dialog : P -> list ascii -> P -> list ascii -> list ascii -> option string -> Prop :=
| dialog_send p p1 p2 msg text input rest sent err :
    want p = Send -> runs messageOut p p1 msg -> escapeStringDLF msg = Ok text ->
    dialog p1 input p2 rest sent err ->
    dialog p input p2 rest ((text ++ eod_marker) ++ sent) err
| dialog_receive p p1 p2 msg input input1 rest sent err :
    want p = Receive -> stream InputBlock.SRC [] input = (msg, inr input1) -> runs (messageIn msg) p p1 tt ->
    dialog p1 input1 p2 rest sent err ->
    dialog p input p2 rest sent err
| dialog_close p input err : want p = Close err -> dialog p input p input [] err.

(** ** The loop of both handlers *)

Definition dialog_case : M (t P) (option Operation) := fun s =>
  match want (m_peer s) with
  | Send => (msg ← peer messageOut; _ ← pushOutput msg; continue) s
  | Receive => (got ← consumeNextMessage messageIn; if got : bool then continue else return_ READ) s
  | Close None => return_ CLOSE s
  | Close (Some msg) => close_with msg s
  | Illegal => (s, Throw (LogicError "authentication protocol operation in state INITIALIZED"))
  end.

Definition dialog_step : M (t P) (option Operation) := fun s =>
  match m_state s with
  | Init => dialog_case (setState NextOperation s)
  | NextOperation => dialog_case s
  | FlushOutput =>
      (e ← endOfOutput; if e : bool then _ ← modify (setState NextOperation); continue else return_ WRITE) s
  end.

(** ** The connection *)

Context (step : M (t P) (option Operation)) (Hstep : forall s, step s = dialog_step s).

Definition session : Type := t P * list (list ascii) * list ascii.

(** One round of the loop of the handler, and what the connection does then. *)
Definition conn (c : session) : option session :=
  let '(s, cs, out) := c in
  match step s with
  | (s', Ok None) => Some (s', cs, out)
  | (s', Ok (Some READ)) =>
      match cs with
      | [] => None
      | c :: cs' => match receive c s' with (s'', Ok tt) => Some (s'', cs', out) | _ => None end
      end
  | (s', Ok (Some WRITE)) =>
      match getOutput s' with (s'', Ok d) => Some (s'', cs, out ++ d) | _ => None end
  | _ => None
  end.

Definition runs_to : session -> session -> Prop := rtc (fun c c' => conn c = Some c').

(** ** States *)

(** The input buffer of [n] characters is searched from the next message on, [src] is what
    it has; the message so far is [rb]. *)
Record reading (n : nat) (rb src : list ascii) (s : t P) : Prop := {
  rd_ready : ready (m_input s);
  rd_size : size (InputBlock.m_mem (m_input s)) = n;
  rd_start : (m_msgstart s <= m_pos (InputBlock.m_mem (m_input s)))%nat;
  rd_src : drop (m_msgstart s) (contents (InputBlock.m_mem (m_input s))) = src;
  rd_buffer : m_readbuffer s = rb
}.

(** The output buffer has room. *)
Definition roomy (s : t P) : Prop :=
  (m_outputbufpos s < length (m_outputbuf s))%nat /\ Z.of_nat (length (m_outputbuf s)) < 2 ^ 32.

(** A session between two messages with the peer [p] and the rest of the input. *)
Record idle (n : nat) (p : P) (input : list ascii) (s : t P) (cs : list (list ascii)) : Prop := {
  id_state : m_state s = NextOperation \/ m_state s = Init;
  id_peer : m_peer s = p;
  id_reading : exists src, reading n [] src s /\ src ++ concat cs = input;
  id_fits : Forall (fun c => length c + 4 <= n)%nat cs;
  id_size : (4 < n)%nat;
  id_roomy : roomy s
}.

(** ** Input *)

Lemma peer_runs {A} (m : M P A) s p' a : runs m (m_peer s) p' a -> peer m s = (with_peer p' s, Ok a).
Proof using. unfold peer, zoom. by intros ->. Qed.

(** A message that is complete in the buffer. *)
Lemma consume_message n rb src out rest s p1 :
  reading n rb src s -> stream InputBlock.SRC [] src = (out, inr rest) -> runs (messageIn (rb ++ out)) (m_peer s) p1 tt ->
  exists s', consumeNextMessage messageIn s = (s', Ok true) /\ reading n [] rest s' /\
    m_peer s' = p1 /\ m_state s' = m_state s /\ m_outputbuf s' = m_outputbuf s /\ m_outputbufpos s' = m_outputbufpos s /\
    m_lastError s' = m_lastError s.
Proof using.
  intros [Hready Hsize Hstart Hsrc Hrb] Hs Hp. pose proof (getEoD_search _ _ Hready Hstart) as Hg.
  rewrite Hsrc, Hs in Hg. destruct Hg as (b & eod & Hg & Hsz & Hwf & Hout & Hle & Hst & Hsaved & Hrest & Hnext).
  unfold consumeNextMessage, gets, lift, modify. rewrite M_bind_eq. cbn [id]. rewrite M_bind_eq, Hg.
  rewrite M_bind_eq, M_bind_eq, throw_if_false by (apply Nat.ltb_ge; lia). rewrite M_bind_eq.
  assert (take (eod - m_msgstart s) (drop (m_msgstart s) (m_ptr (InputBlock.m_mem b))) = out) as ->.
  { unfold contents in Hout. rewrite !take_take, !Nat.min_l in Hout by lia.
    rewrite <- skipn_firstn_comm, Hout. apply drop_app_length'.
    rewrite length_take. pose proof (r_block _ Hready) as Hb. unfold block_wf, size in Hb. lia. }
  assert (InputBlock.gotEoD b = true) as Hgot by (unfold InputBlock.gotEoD; by rewrite Hst).
  rewrite Hgot, Hrb. rewrite M_bind_eq, (peer_runs _ _ p1 tt) by done. rewrite M_bind_eq, M_bind_eq.
  cbn [m_input with_readbuffer with_peer with_input]. unfold InputBlock.skipEoD. rewrite Hgot.
  eexists. split; [reflexivity|]. split; [|done].
  assert (m_pos (InputBlock.m_mem b) <= size (InputBlock.m_mem b))%nat by done.
  pose proof (r_size _ Hready). rewrite Hsz in *. constructor; cbn; rewrite ?i32_small, ?size_t_small, ?Nat2Z.id by lia;
    try done; [|congruence]. constructor; cbn; auto; by rewrite Hsz.
Qed.

(** A message that is not: the next network message is appended. *)
Lemma consume_part n rb src out st held s c :
  reading n rb src s -> stream InputBlock.SRC [] src = (out, inl (st, held)) -> (length c + 4 <= n)%nat -> (4 < n)%nat ->
  exists s1 s', consumeNextMessage messageIn s = (s1, Ok false) /\ receive c s1 = (s', Ok tt) /\
    reading n (rb ++ out) (held ++ c) s' /\
    m_peer s' = m_peer s /\ m_state s' = NextOperation /\ m_outputbuf s' = m_outputbuf s /\
    m_outputbufpos s' = m_outputbufpos s /\ m_lastError s' = m_lastError s.
Proof using.
  intros [Hready Hsize Hstart Hsrc Hrb] Hs Hc Hn. pose proof (getEoD_search _ _ Hready Hstart) as Hg.
  rewrite Hsrc, Hs in Hg. destruct Hg as (b & eod & Hg & Hsz & Hwf & Hout & Hle & Hst & Hsaved & Heod).
  pose proof (holds_length _ _ (holds_end _ _ _ _ _ _ holds_SRC Hs)) as Hheld.
  pose proof (r_size _ Hready) as Hb31. rewrite Hsize in *.
  unfold consumeNextMessage, gets, lift, modify. rewrite M_bind_eq. cbn [id]. rewrite M_bind_eq, Hg.
  rewrite M_bind_eq, M_bind_eq, throw_if_false by (apply Nat.ltb_ge; lia). rewrite M_bind_eq.
  assert (take (eod - m_msgstart s) (drop (m_msgstart s) (m_ptr (InputBlock.m_mem b))) = out) as ->.
  { unfold contents in Hout. rewrite !take_take, !Nat.min_l in Hout by lia.
    rewrite <- skipn_firstn_comm, Hout. apply drop_app_length'.
    rewrite length_take. pose proof (r_block _ Hready) as Hb. unfold block_wf in Hb. rewrite Hsize in Hb. unfold size in Hsize. lia. }
  assert (InputBlock.gotEoD b = false) as Hgot by (unfold InputBlock.gotEoD; by rewrite Hst).
  rewrite Hgot, Hrb. set (s1 := with_readbuffer _ _).
  destruct (refilled_ready b c held Hst Hsaved) as (Hread & Hsize1 & Hready2 & Hsize2 & Hcont); [rewrite Hsz; lia..|].
  rewrite Hsz in *. exists s1. eexists. split; [reflexivity|]. unfold receive, getInputBlock. rewrite M_bind_eq.
  change (m_input s1) with b. rewrite Hread. cbn beta iota.
  rewrite M_bind_eq, throw_if_false by (apply Nat.ltb_ge; lia). rewrite M_bind_eq. cbn [modify].
  unfold putInput. rewrite M_bind_eq, throw_if_false.
  2: { apply Nat.ltb_ge. unfold refilled in Hsize2. rewrite Hsaved in Hsize2. cbn [m_input with_input].
       change (size (InputBlock.m_mem (InputBlock.write (length held) c (InputBlock.getNetworkMessageRead b).1)) = n) in Hsize2. lia. }
  rewrite M_bind_eq. cbn [modify]. rewrite M_bind_eq, throw_if_false.
  2: { cbn. by rewrite Nat.eqb_refl. }
  unfold modify. split; [reflexivity|]. split; [|done]. unfold refilled in Hready2, Hsize2, Hcont. rewrite Hsaved in *.
  constructor; cbn [m_input m_msgstart m_readbuffer setState with_input]; done || lia.
Qed.

(** What a step does between two messages. *)
Lemma dialog_entered s : m_state s = NextOperation \/ m_state s = Init ->
  step s = dialog_case (setState NextOperation s).
Proof using Hstep.
  intros H. rewrite Hstep. unfold dialog_step. destruct H as [E|E]; rewrite E; [|done].
  destruct s. cbn in E. subst. done.
Qed.

Lemma dialog_receives s : m_state s = NextOperation \/ m_state s = Init -> want (m_peer s) = Receive ->
  step s = (got ← consumeNextMessage messageIn; if got : bool then continue else return_ READ) (setState NextOperation s).
Proof using Hstep.
  intros Hst Hw. rewrite dialog_entered by done. unfold dialog_case. cbn [m_peer setState]. by rewrite Hw.
Qed.

(** A message that ends in the buffer. *)
Lemma message_in_buffer n p1 rb src out rest s cs acc :
  m_state s = NextOperation \/ m_state s = Init -> want (m_peer s) = Receive -> reading n rb src s ->
  stream InputBlock.SRC [] src = (out, inr rest) -> runs (messageIn (rb ++ out)) (m_peer s) p1 tt ->
  exists s', runs_to (s, cs, acc) (s', cs, acc) /\ m_state s' = NextOperation /\ m_peer s' = p1 /\ reading n [] rest s' /\
    m_outputbuf s' = m_outputbuf s /\ m_outputbufpos s' = m_outputbufpos s /\ m_lastError s' = m_lastError s.
Proof using Hstep.
  intros Hst Hw Hr Hs Hp. assert (reading n rb src (setState NextOperation s)) as Hr0 by (by destruct Hr).
  destruct (consume_message n rb src out rest _ p1 Hr0 Hs Hp) as (s' & Hc & Hr' & Hp' & Hst' & Hb & Hbp & He).
  exists s'. split_and!; auto. apply rtc_once. unfold conn. by rewrite dialog_receives, M_bind_eq, Hc by done.
Qed.

(** A message in any number of chunks. *)
Lemma message_read n p1 rest0 : forall cs s out acc rb src,
  m_state s = NextOperation \/ m_state s = Init -> want (m_peer s) = Receive -> reading n rb src s ->
  Forall (fun c => length c + 4 <= n)%nat cs -> (4 < n)%nat ->
  stream InputBlock.SRC [] (src ++ concat cs) = (out, inr rest0) -> runs (messageIn (rb ++ out)) (m_peer s) p1 tt ->
  exists s' cs', runs_to (s, cs, acc) (s', cs', acc) /\
    m_state s' = NextOperation /\ m_peer s' = p1 /\
    (exists src', reading n [] src' s' /\ src' ++ concat cs' = rest0) /\
    Forall (fun c => length c + 4 <= n)%nat cs' /\ m_outputbuf s' = m_outputbuf s /\ m_outputbufpos s' = m_outputbufpos s /\
    m_lastError s' = m_lastError s.
Proof using Hstep.
  induction cs as [|c cs IH]; intros s out acc rb src Hst Hw Hr Hcs Hn Hs Hp;
    destruct (stream InputBlock.SRC [] src) as [out1 [[st held]|rest1]] eqn:E1.
  - cbn [concat] in Hs. by rewrite app_nil_r, E1 in Hs.
  - rewrite (stream_eod_app _ _ _ _ _ _ E1) in Hs. injection Hs as -> <-.
    destruct (message_in_buffer n p1 rb src out rest1 s [] acc Hst Hw Hr E1 Hp) as (s' & R & Hst' & Hp' & Hr' & H).
    exists s', []. split_and!; auto; [|apply H..]. by exists rest1.
  - apply Forall_cons in Hcs as [Hc Hcs].
    assert (reading n rb src (setState NextOperation s)) as Hr0 by (by destruct Hr).
    destruct (consume_part n rb src out1 st held _ c Hr0 E1 Hc Hn) as (s1 & s2 & H1 & H2 & Hr2 & Hp2 & Hst2 & H3).
    rewrite (stream_app _ _ _ _ _ _ _ E1) in Hs. destruct (stream st held (concat (c :: cs))) as [o2 r2] eqn:E2.
    injection Hs as <- ->.
    assert (stream InputBlock.SRC [] ((held ++ c) ++ concat cs) = (o2, inr rest0)) as E3.
    { rewrite <- app_assoc, (stream_held st); [exact E2|]. exact (holds_end _ _ _ _ _ _ holds_SRC E1). }
    destruct (IH s2 o2 acc (rb ++ out1) (held ++ c)) as (s' & cs' & R & H); auto; [by rewrite Hp2|by rewrite <- app_assoc, Hp2|].
    destruct H3 as (Hb2 & Hbp2 & He2). rewrite Hb2, Hbp2, He2 in H.
    exists s', cs'. split; [|exact H]. eapply rtc_l; [|exact R].
    unfold conn. rewrite dialog_receives, M_bind_eq, H1 by done. cbn. by rewrite H2.
  - rewrite (stream_eod_app _ _ _ _ _ _ E1) in Hs. injection Hs as -> <-.
    destruct (message_in_buffer n p1 rb src out rest1 s (c :: cs) acc Hst Hw Hr E1 Hp) as (s' & R & Hst' & Hp' & Hr' & H).
    exists s', (c :: cs). split_and!; auto; [|apply H..]. by exists rest1.
Qed.

(** ** Output *)

(** A part of a message. *)
Lemma part_written s cs acc :
  m_state s = FlushOutput -> roomy s -> (m_writepos s < length (m_writebuffer s))%nat ->
  Z.of_nat (length (m_writebuffer s)) < 2 ^ 32 ->
  exists m buf, (0 < m <= length (m_writebuffer s) - m_writepos s)%nat /\ length buf = length (m_outputbuf s) /\
    conn (s, cs, acc) = Some (with_write (m_writebuffer s) (m_writepos s + m) (with_outputbuf buf 0 s), cs,
                              acc ++ take m (drop (m_writepos s) (m_writebuffer s))).
Proof using Hstep.
  intros Hst [Hroom Hb] Hpos Hw.
  set (room := (length (m_outputbuf s) - m_outputbufpos s)%nat).
  set (left := (length (m_writebuffer s) - m_writepos s)%nat).
  set (m := if (left <? room)%nat then left else room).
  assert (0 < m <= left /\ m <= room)%nat as [Hm Hm2] by (unfold m; destruct (Nat.ltb_spec left room); unfold room, left in *; lia).
  set (data := take m (drop (m_writepos s) (m_writebuffer s))).
  assert (length data = m) as Hdata by (unfold data; rewrite length_take, length_drop; lia).
  unfold conn. rewrite Hstep. unfold dialog_step. rewrite Hst, M_bind_eq. unfold endOfOutput.
  rewrite (proj2 (Nat.eqb_neq _ _)) by lia. cbn. unfold getOutput. rewrite !size_t_small by lia.
  replace (Z.to_nat (Z.of_nat (length (m_outputbuf s)) - Z.of_nat (m_outputbufpos s))) with room by (unfold room; lia).
  replace (Z.to_nat (Z.of_nat (length (m_writebuffer s)) - Z.of_nat (m_writepos s))) with left by (unfold left; lia).
  fold m. fold data. rewrite M_bind_eq, throw_if_false by (apply Nat.eqb_neq; lia).
  rewrite M_bind_eq. unfold lift, store_block. rewrite Hdata, (proj2 (Nat.leb_le _ _)) by lia.
  eexists m, _. split; [done|]. split; [|reflexivity]. rewrite !length_app, length_take, length_drop, Hdata. lia.
Qed.

(** The rest of a message from position [m_writepos] on. *)
Lemma message_written k : forall s cs acc,
  m_state s = FlushOutput -> roomy s -> (m_writepos s <= length (m_writebuffer s))%nat ->
  Z.of_nat (length (m_writebuffer s)) < 2 ^ 32 -> (length (m_writebuffer s) - m_writepos s <= k)%nat ->
  exists s', runs_to (s, cs, acc) (s', cs, acc ++ drop (m_writepos s) (m_writebuffer s)) /\
    m_state s' = NextOperation /\ m_peer s' = m_peer s /\ m_input s' = m_input s /\ m_msgstart s' = m_msgstart s /\
    m_readbuffer s' = m_readbuffer s /\ m_lastError s' = m_lastError s /\ roomy s'.
Proof using Hstep.
  induction k as [|k IH]; intros s cs acc Hst Hroom Hpos Hw Hk;
    destruct (Nat.eqb_spec (m_writepos s) (length (m_writebuffer s))) as [E|E]; [|lia| |].
  1, 2: exists (setState NextOperation (with_write [] 0 s)); rewrite E, drop_all, app_nil_r; split; [|done];
    apply rtc_once; unfold conn; rewrite Hstep; unfold dialog_step; rewrite Hst, M_bind_eq; unfold endOfOutput;
    by rewrite E, Nat.eqb_refl.
  destruct (part_written s cs acc Hst Hroom ltac:(lia) Hw) as (m & buf & Hm & Hbuf & Hconn).
  destruct (IH (with_write (m_writebuffer s) (m_writepos s + m) (with_outputbuf buf 0 s)) cs
    (acc ++ take m (drop (m_writepos s) (m_writebuffer s)))) as (s' & R & H); cbn; [done| |lia|done|lia|].
  - destruct Hroom. unfold roomy. cbn. lia.
  - exists s'. split; [|exact H]. eapply rtc_l; [exact Hconn|]. cbn in R.
    by rewrite <- app_assoc, <- drop_drop, take_drop in R.
Qed.

(** ** Dialogs *)

(** The handler closes the session, with an error message or as before. *)
Definition closes (err : option string) (s : t P) : Prop :=
  exists s', step s = (s', Ok (Some CLOSE)) /\ m_lastError s' = match err with Some e => Some e | None => m_lastError s end.

Lemma message_sent p1 msg text s cs acc :
  m_state s = NextOperation \/ m_state s = Init -> want (m_peer s) = Send ->
  runs messageOut (m_peer s) p1 msg -> escapeStringDLF msg = Ok text ->
  roomy s -> Z.of_nat (length (text ++ eod_marker)) < 2 ^ 32 ->
  exists s', runs_to (s, cs, acc) (s', cs, acc ++ text ++ eod_marker) /\
    m_state s' = NextOperation /\ m_peer s' = p1 /\ m_input s' = m_input s /\ m_msgstart s' = m_msgstart s /\
    m_readbuffer s' = m_readbuffer s /\ m_lastError s' = m_lastError s /\ roomy s'.
Proof using Hstep.
  intros Hst Hw Hm Hesc Hroom Hlen.
  set (s1 := setState FlushOutput (with_write (text ++ eod_marker) 0 (with_peer p1 (setState NextOperation s)))).
  destruct (message_written (length (text ++ eod_marker)) s1 cs acc) as (s' & R & H); try done; cbn; try lia.
  exists s'. split; [|exact H]. eapply rtc_l; [|exact R]. unfold conn. rewrite dialog_entered by done.
  unfold dialog_case. cbn [m_peer setState]. rewrite Hw, M_bind_eq, (peer_runs _ _ p1 msg) by done.
  unfold pushOutput, lift. rewrite M_bind_eq, M_bind_eq, Hesc. done.
Qed.

Lemma dialog_runs n p input p2 rest sent err :
  dialog p input p2 rest sent err ->
  forall s cs acc, idle n p input s cs -> Z.of_nat (length sent) < 2 ^ 32 ->
  exists s' cs', runs_to (s, cs, acc) (s', cs', acc ++ sent) /\ idle n p2 rest s' cs' /\ closes err s' /\
    m_lastError s' = m_lastError s.
Proof using Hstep.
  induction 1 as [p p1 p2 msg text input rest sent err Hw Hm Hesc _ IH
    |p p1 p2 msg input input1 rest sent err Hw Hs Hm _ IH|p input err Hw]; intros s cs acc Hi Hlen;
    destruct Hi as [Hst Hp (src & Hr & Hsrc) Hf Hn Hroom]; subst p.
  - rewrite length_app in Hlen.
    destruct (message_sent p1 msg text s cs acc) as (s1 & R1 & Hst1 & Hp1 & Hin & Hms & Hrb & He & Hroom1); auto; [lia|].
    destruct (IH s1 cs (acc ++ text ++ eod_marker)) as (s2 & cs2 & R2 & Hi2 & Hc2 & He2); [|lia|].
    { constructor; auto. exists src. split; [|done]. destruct Hr as [? ? ? ? ?]. constructor; congruence. }
    exists s2, cs2. split_and!; auto; [|congruence]. etrans; [exact R1|]. by rewrite <- (app_assoc acc (text ++ eod_marker)) in R2.
  - rewrite <- Hsrc in Hs.
    destruct (message_read n p1 input1 cs s msg acc [] src) as (s1 & cs1 & R1 & Hst1 & Hp1 & Hr1 & Hf1 & Hb1 & Hbp1 & He1); auto.
    destruct (IH s1 cs1 acc) as (s2 & cs2 & R2 & Hi2 & Hc2 & He2); [|done|].
    { constructor; auto. unfold roomy. by rewrite Hb1, Hbp1. }
    exists s2, cs2. split_and!; auto; [|congruence]. etrans; [exact R1|exact R2].
  - exists s, cs. rewrite app_nil_r. split_and!; auto; [apply rtc_refl|by constructor; eauto|].
    unfold closes. rewrite dialog_entered by done. unfold dialog_case. cbn [m_peer setState]. rewrite Hw.
    destruct err as [e|]; eexists; (split; [reflexivity|done]).
Qed.

End dialog.

(** ** The two handlers *)

Section handlers.

Definition auth_want {A} `{AuthProtocolHandler.Authenticator A} (p : A) : Want :=
  match AuthProtocolHandler.status p with
  | AuthProtocolHandler.INITIALIZED => Illegal
  | AuthProtocolHandler.MESSAGE_AVAILABLE => Send
  | AuthProtocolHandler.AWAITING_MESSAGE => Receive
  | AuthProtocolHandler.AUTHENTICATED => Close None
  | AuthProtocolHandler.INVALID_CREDENTIALS => Close (Some "either the username or the credentials are invalid"%string)
  | AuthProtocolHandler.MECH_UNAVAILABLE => Close (Some "the requested authentication mech is not available"%string)
  | AuthProtocolHandler.SYSTEM_FAILURE => Close (Some "unspecified authentication system error"%string)
  end.

Definition change_want {A} `{PasswordChangeProtocolHandler.PasswordChanger A} (p : A) : Want :=
  match PasswordChangeProtocolHandler.status p with
  | PasswordChangeProtocolHandler.MESSAGE_AVAILABLE => Send
  | PasswordChangeProtocolHandler.AWAITING_MESSAGE => Receive
  | PasswordChangeProtocolHandler.PASSWORD_EXCHANGED => Close None
  | PasswordChangeProtocolHandler.INVALID_MESSAGE => Close (Some "invalid message"%string)
  | PasswordChangeProtocolHandler.SYSTEM_FAILURE => Close (Some "unspecified authentication system error"%string)
  end.

End handlers.

Lemma auth_step_dialog {A} `{AuthProtocolHandler.Authenticator A} (s : t A) :
  AuthProtocolHandler.step s =
    dialog_step auth_want AuthProtocolHandler.messageOut AuthProtocolHandler.messageIn s.
Proof.
  unfold AuthProtocolHandler.step, dialog_step, gets. rewrite M_bind_eq. destruct (m_state s).
  2: unfold AuthProtocolHandler.case_NextOperation, dialog_case, auth_want, gets; rewrite M_bind_eq.
  1: unfold modify; rewrite M_bind_eq; unfold AuthProtocolHandler.case_NextOperation, dialog_case, auth_want, gets;
    rewrite M_bind_eq; cbn [m_peer setState].
  all: try destruct (AuthProtocolHandler.status (m_peer s)); reflexivity.
Qed.

Lemma change_step_dialog {A} `{PasswordChangeProtocolHandler.PasswordChanger A} (s : t A) :
  PasswordChangeProtocolHandler.step s =
    dialog_step change_want PasswordChangeProtocolHandler.messageOut PasswordChangeProtocolHandler.messageIn s.
Proof.
  unfold PasswordChangeProtocolHandler.step, dialog_step, gets. rewrite M_bind_eq. destruct (m_state s).
  2: unfold PasswordChangeProtocolHandler.case_NextOperation, dialog_case, change_want, gets; rewrite M_bind_eq.
  1: unfold modify; rewrite M_bind_eq; unfold PasswordChangeProtocolHandler.case_NextOperation, dialog_case, change_want, gets;
    rewrite M_bind_eq; cbn [m_peer setState].
  all: try destruct (PasswordChangeProtocolHandler.status (m_peer s)); reflexivity.
Qed.

(** C4. Dialogs of authentication and password change.  For every authenticator and every
    password changer the handler carries out the dialog they define with the stream of the
    client's characters: each gets exactly the messages the client escaped, whatever the
    division into network messages, the client is sent exactly the escaped answers, each
    with its end marker, whatever the size of the output buffer, the handler closes with
    the error the status says, and what the client sent behind the dialog is left in the
    buffer. *)
Theorem dialogs_carried_out :
  (forall A (H : AuthProtocolHandler.Authenticator A) n p input p2 rest sent err (s : t A) cs,
     dialog auth_want AuthProtocolHandler.messageOut AuthProtocolHandler.messageIn p input p2 rest sent err ->
     idle n p input s cs -> Z.of_nat (length sent) < 2 ^ 32 ->
     exists s' cs', runs_to AuthProtocolHandler.step (s, cs, []) (s', cs', sent) /\ idle n p2 rest s' cs' /\
       closes AuthProtocolHandler.step err s' /\ m_lastError s' = m_lastError s) /\
  (forall A (H : PasswordChangeProtocolHandler.PasswordChanger A) n p input p2 rest sent err (s : t A) cs,
     dialog change_want PasswordChangeProtocolHandler.messageOut PasswordChangeProtocolHandler.messageIn
       p input p2 rest sent err ->
     idle n p input s cs -> Z.of_nat (length sent) < 2 ^ 32 ->
     exists s' cs', runs_to PasswordChangeProtocolHandler.step (s, cs, []) (s', cs', sent) /\ idle n p2 rest s' cs' /\
       closes PasswordChangeProtocolHandler.step err s' /\ m_lastError s' = m_lastError s).
Proof.
  split; intros A H n p input p2 rest sent err s cs Hd Hi Hl.
  - exact (dialog_runs _ _ _ _ auth_step_dialog n p input p2 rest sent err Hd s cs [] Hi Hl).
  - exact (dialog_runs _ _ _ _ change_step_dialog n p input p2 rest sent err Hd s cs [] Hi Hl).
Qed.

(** ** An example *)

(** An authenticator that waits for a name, asks for a word and compares it. *)
Inductive demo := NeedName | Ask | NeedWord | Right | Wrong.
#[local] Instance demo_authenticator : AuthProtocolHandler.Authenticator demo := {
  AuthProtocolHandler.status := fun d =>
    match d with
    | NeedName | NeedWord => AuthProtocolHandler.AWAITING_MESSAGE
    | Ask => AuthProtocolHandler.MESSAGE_AVAILABLE
    | Right => AuthProtocolHandler.AUTHENTICATED
    | Wrong => AuthProtocolHandler.INVALID_CREDENTIALS
    end;
  AuthProtocolHandler.messageOut := fun _ => (NeedWord, Ok ["?"; "010"; "."]%char);
  AuthProtocolHandler.messageIn := fun m d =>
    (match d with
     | NeedName => Ask
     | _ => if decide (m = [LFc; "."%char]) then Right else Wrong
     end, Ok tt)
}.

Definition demo_session : t demo :=
  with_outputbuf ["000"; "000"]%char 1
    (with_input (InputBlock.make (Mem.mk (replicate 9 "000"%char) 0)) 0 0 0 (make NeedName)).

Lemma dialogs_carried_out_witness :
  exists s' cs',
    runs_to AuthProtocolHandler.step
      (demo_session, [["m"; "e"; CRc; LFc; "."]; [LFc; LFc; "."; "."; CRc]; [LFc; "."; CRc; LFc; "x"]]%char, [])
      (s', cs', (["?"; LFc; "."; "."]%char ++ eod_marker) ++ []) /\
    idle 9 Right ["x"%char] s' cs' /\ closes AuthProtocolHandler.step None s' /\ m_lastError s' = None.
Proof.
  apply (proj1 dialogs_carried_out demo demo_authenticator 9%nat NeedName
    (["m"; "e"]%char ++ [CRc; LFc; "."; LFc]%char ++ [LFc; "."; "."]%char ++ eod_marker ++ ["x"%char]) Right ["x"%char]).
  - eapply dialog_receive; [reflexivity|reflexivity|reflexivity|].
    eapply dialog_send; [reflexivity|reflexivity|reflexivity|].
    eapply dialog_receive; [reflexivity|reflexivity|reflexivity|]. by apply dialog_close.
  - constructor; [by right|done| |repeat (constructor; [cbn; lia|]); constructor|lia|split; cbn; lia].
    exists []. split; [|done]. constructor; try done; try (cbn; lia). constructor; try done; unfold block_wf, size; cbn; lia.
  - cbn. lia.
Defined.
