(* ===== verification/Base64.v ===== *)
(** * Base64: definitions

    Models src/include/types/base64.h, src/libwolframe/b64encode.c and b64decode.c: the
    encoder and the decoder, each for one block of data and for a sequence of chunks.

    Data and text are lists of characters; [byte] is the value of an unsigned char.  Output
    is what the function wrote to its buffer, a final zero included, next to the returned
    int.  A failing assertion stops the program; it is [Undefined] here. *)
From S2P Require Import Prelude.

Definition byte (c : ascii) : Z := Z.of_N (N_of_ascii c).
Definition char_of (z : Z) : ascii := ascii_of_N (Z.to_N (u8 z)).
Abbreviation NUL := "000"%char.
Abbreviation NL := "010"%char.

Definition BASE64_BUFFER_OVERFLOW : Z := -1.

(** ** Encoding *)

Definition base64Table : list ascii :=
  String.list_ascii_of_string "ABCDEFGHIJKLMNOPQRSTUVWXYZabcdefghijklmnopqrstuvwxyz0123456789+/".
(** The indexes have six bits, see [decodeValue_table]. *)
Definition table (i : Z) : ascii := nth (Z.to_nat i) base64Table NUL.

Definition encodeBytes (a b c : ascii) : list ascii :=
  [table (Z.shiftr (byte a) 2);
   table (Z.land (Z.lor (Z.shiftl (byte a) 4) (Z.shiftr (byte b) 4)) 63);
   table (Z.land (Z.lor (Z.shiftl (byte b) 2) (Z.shiftr (byte c) 6)) 63);
   table (Z.land (byte c) 63)].

Definition encodeEndBytes (data : list ascii) : res (list ascii) :=
  match data with
  | [] => Ok []
  | [a] =>
      Ok [table (Z.shiftr (byte a) 2); table (Z.land (Z.shiftl (byte a) 4) 63); "="%char; "="%char]
  | [a; b] =>
      Ok [table (Z.shiftr (byte a) 2);
          table (Z.land (Z.lor (Z.shiftl (byte a) 4) (Z.shiftr (byte b) 4)) 63);
          table (Z.land (Z.shiftl (byte b) 2) 63); "="%char]
  | _ => Throw (Undefined "assertion dataSize < 3")
  end.

Definition correctedLineLength (length : Z) : Z :=
  if length =? 0 then 0
  else
    let corrected := u16 ((length + 2) / 4 * 4) in
    if corrected =? 0 then 4 else corrected.

Definition base64_encodedSize (dataSize lineLength : Z) : Z :=
  let encodedSize := u64 (u64 (dataSize + 2) / 3 * 4) in
  let lineLength := correctedLineLength lineLength in
  if negb (lineLength =? 0) && negb (encodedSize =? 0) then
    u64 (encodedSize + u64 (u64 (encodedSize + lineLength - 1) / lineLength - 1))
  else encodedSize.

(** The triplets of the block, with a line break behind a full line if data follow; the
    result is the text and the bytes that remain. *)
Fixpoint encode_loop (lineLength lineSize : Z) (bytes : list ascii) : list ascii * list ascii :=
  match bytes with
  | a :: b :: c :: rest =>
      let '(brk, lineSize) :=
        if negb (lineLength =? 0) then
          let lineSize := u16 (lineSize + 4) in
          if (lineLength <=? lineSize) && negb (length rest =? 0)%nat then ([NL], 0) else ([], lineSize)
        else ([], lineSize) in
      let '(text, bytes) := encode_loop lineLength lineSize rest in
      (encodeBytes a b c ++ brk ++ text, bytes)
  | _ => ([], bytes)
  end.

Definition base64_encode (data : list ascii) (encodedMaxSize lineLength : Z) : res (Z * list ascii) :=
  let encodedSize := base64_encodedSize (Z.of_nat (length data)) lineLength in
  if encodedMaxSize <=? encodedSize then Ok (BASE64_BUFFER_OVERFLOW, [])
  else
    let '(text, bytes) := encode_loop (correctedLineLength lineLength) 0 data in
    end_ ← encodeEndBytes bytes;
    let output := text ++ end_ in
    _ ← check_that (encodedSize =? Z.of_nat (length output)) (Undefined "assertion encodedSize");
    Ok (i32 (Z.of_nat (length output)), output ++ [NUL]).

(** ** Encoding of chunks *)

Record EncodeState := mkEncodeState {
  carryBytes : ascii * ascii * ascii;
  bytesLeft : nat;
  lineLength : Z;
  lineSize : Z;
  newLinePending : bool
}.

Definition set_carry (c : ascii * ascii * ascii) (n : nat) (s : EncodeState) : EncodeState :=
  mkEncodeState c n (lineLength s) (lineSize s) (newLinePending s).
Definition set_line (size : Z) (pending : bool) (s : EncodeState) : EncodeState :=
  mkEncodeState (carryBytes s) (bytesLeft s) (lineLength s) size pending.

(** What is in the memory of a new state is not known. *)
Definition base64_initEncodeState (memory : ascii * ascii * ascii) (lineLength : Z) : EncodeState :=
  mkEncodeState memory 0 (correctedLineLength lineLength) 0 false.

Definition base64_resetEncodeState (s : EncodeState) : EncodeState :=
  mkEncodeState (carryBytes s) 0 (lineLength s) 0 false.

Definition base64_encodedChunkSize (s : EncodeState) (dataSize : Z) : Z :=
  let left := Z.of_nat (bytesLeft s) in
  let '(bytesToEncode, encodedSize) :=
    if negb (bytesLeft s =? 0)%nat then
      if 3 <=? u64 (dataSize + left) then (dataSize - (3 - left), 4) else (0, 0)
    else (dataSize, 0) in
  let encodedSize := u64 (encodedSize + bytesToEncode / 3 * 4) in
  let last := if bytesToEncode mod 3 =? 0 then 1 else 0 in
  if negb (lineLength s =? 0) then
    if negb (encodedSize =? 0) then
      if newLinePending s then u64 (encodedSize + (encodedSize - last) / lineLength s + 1)
      else u64 (encodedSize + u64 (lineSize s + encodedSize - last) / lineLength s)
    else if newLinePending s && negb (bytesToEncode =? 0) then encodedSize + 1 else encodedSize
  else encodedSize.

(** After four characters: a line break if the line is full, at once if data follow. *)
Definition after_quad (dataSize : nat) (s : EncodeState) : EncodeState * list ascii :=
  if negb (lineLength s =? 0) then
    let s := set_line (u16 (lineSize s + 4)) (newLinePending s) s in
    if lineLength s <=? lineSize s then
      if negb (dataSize =? 0)%nat then (set_line 0 (newLinePending s) s, [NL])
      else (set_line (lineSize s) true s, [])
    else (s, [])
  else (s, []).

(** The bytes of the last chunk are completed to a triplet. *)
Definition encode_carry (s : EncodeState) (bytes : list ascii) : EncodeState * list ascii * list ascii :=
  let '(c0, c1, c2) := carryBytes s in
  match bytesLeft s, bytes with
  | 1%nat, b1 :: b2 :: rest =>
      let '(s, brk) := after_quad (length rest) (set_carry (c0, b1, b2) 0 s) in
      (s, encodeBytes c0 b1 b2 ++ brk, rest)
  | 1%nat, [b1] => (set_carry (c0, b1, c2) 2 s, [], [])
  | 2%nat, b2 :: rest =>
      let '(s, brk) := after_quad (length rest) (set_carry (c0, c1, b2) 0 s) in
      (s, encodeBytes c0 c1 b2 ++ brk, rest)
  | _, _ => (s, [], bytes)
  end.

Fixpoint chunk_loop (s : EncodeState) (bytes : list ascii) : EncodeState * list ascii * list ascii :=
  match bytes with
  | a :: b :: c :: rest =>
      let '(s, brk) := after_quad (length rest) s in
      let '(s, text, bytes) := chunk_loop s rest in
      (s, encodeBytes a b c ++ brk ++ text, bytes)
  | _ => (s, [], bytes)
  end.

(** The bytes that are left wait for the next chunk. *)
Definition keep_rest (s : EncodeState) (bytes : list ascii) : EncodeState :=
  let '(c0, c1, c2) := carryBytes s in
  match bytes with
  | [a] => set_carry (a, c1, c2) 1 s
  | [a; b] => set_carry (a, b, c2) 2 s
  | _ => s
  end.

(** What the call writes when the buffer is large enough. *)
Definition write_chunk (s : EncodeState) (data : list ascii) : EncodeState * list ascii :=
  let '(s, brk) :=
    if newLinePending s && negb (length data =? 0)%nat then (set_line 0 false s, [NL]) else (s, []) in
  let '(s, text1, bytes) := encode_carry s data in
  let '(s, text2, bytes) := chunk_loop s bytes in
  (keep_rest s bytes, brk ++ text1 ++ text2).

Definition base64_encodeChunk (s : EncodeState) (data : list ascii) (encodedMaxSize : Z)
    : res (EncodeState * Z * list ascii) :=
  let encodedSize := base64_encodedChunkSize s (Z.of_nat (length data)) in
  if encodedMaxSize <? encodedSize then Ok (s, BASE64_BUFFER_OVERFLOW, [])
  else
    let '(s, output) := write_chunk s data in
    _ ← check_that (encodedSize =? Z.of_nat (length output)) (Undefined "assertion encodedSize");
    Ok (s, i32 (Z.of_nat (length output)), output).

Definition carried (s : EncodeState) : list ascii :=
  let '(c0, c1, c2) := carryBytes s in take (bytesLeft s) [c0; c1; c2].

Definition base64_encodeEndChunk (s : EncodeState) (encodedMaxSize : Z) : res (Z * list ascii) :=
  if negb (bytesLeft s =? 0)%nat then
    if newLinePending s then
      if encodedMaxSize <? 6 then Ok (BASE64_BUFFER_OVERFLOW, [])
      else end_ ← encodeEndBytes (carried s); Ok (5, NL :: end_ ++ [NUL])
    else
      if encodedMaxSize <? 5 then Ok (BASE64_BUFFER_OVERFLOW, [])
      else end_ ← encodeEndBytes (carried s); Ok (4, end_ ++ [NUL])
  else
    if encodedMaxSize <? 1 then Ok (BASE64_BUFFER_OVERFLOW, []) else Ok (0, [NUL]).

(** ** Decoding *)

Definition decodeTable : list Z :=
  [-1; -1; -1; -1; -1; -1; -1; -1;   -1; -2; -2; -1; -1; -2; -1; -1;
   -1; -1; -1; -1; -1; -1; -1; -1;   -1; -1; -1; -1; -1; -1; -1; -1;
   -2; -1; -1; -1; -1; -1; -1; -1;   -1; -1; -1; 62; -1; -1; -1; 63;
   52; 53; 54; 55; 56; 57; 58; 59;   60; 61; -1; -1; -1; -2; -1; -1;
   -1; 0; 1; 2; 3; 4; 5; 6;          7; 8; 9; 10; 11; 12; 13; 14;
   15; 16; 17; 18; 19; 20; 21; 22;   23; 24; 25; -1; -1; -1; -1; -1;
   -1; 26; 27; 28; 29; 30; 31; 32;   33; 34; 35; 36; 37; 38; 39; 40;
   41; 42; 43; 44; 45; 46; 47; 48;   49; 50; 51; -1; -1; -1; -1; -1] ++ replicate 128 (-1).

(** The character is a (signed) char: its value as an int is negative from 128 on. *)
Definition decodeValue (value : ascii) : res Z :=
  let i := swrap 8 (byte value) in
  if i <? 0 then Throw (Undefined "read in front of decodeTable")
  else match decodeTable !! Z.to_nat i with
       | Some v => Ok v
       | None => Throw (Undefined "read behind decodeTable")
       end.

Inductive DecodeStep := STEP_A | STEP_B | STEP_C | STEP_D.
Record DecodeState := mkDecodeState { step : DecodeStep; dataByte : Z }.

Definition base64_initDecodeState : DecodeState := mkDecodeState STEP_A 0.

(** What a step does with a fragment: the byte it finishes, and the bits it keeps; the
    last step keeps its byte. *)
Definition fragment_bits (st : DecodeStep) (dataByte fragment : Z) : DecodeStep * option Z * Z :=
  match st with
  | STEP_A => (STEP_B, None, u8 (Z.shiftl (Z.land fragment 63) 2))
  | STEP_B => (STEP_C, Some (Z.lor dataByte (Z.shiftr (Z.land fragment 48) 4)),
               u8 (Z.shiftl (Z.land fragment 15) 4))
  | STEP_C => (STEP_D, Some (Z.lor dataByte (Z.shiftr (Z.land fragment 60) 2)),
               u8 (Z.shiftl (Z.land fragment 3) 6))
  | STEP_D => (STEP_A, Some (Z.lor dataByte (Z.land fragment 63)), Z.lor dataByte (Z.land fragment 63))
  end.

(** The state machine behind the switch: at the end of the text the state is saved; with
    the buffer full the function returns and leaves the state as it was ([None]). *)
Fixpoint decode_steps (st : DecodeStep) (dataByte : Z) (encoded : list ascii) (dataMaxSize : nat)
    : res (option DecodeState * list ascii) :=
  match encoded with
  | [] => Ok (Some (mkDecodeState st dataByte), [])
  | c :: encoded' =>
      fragment ← decodeValue c;
      if fragment <? 0 then decode_steps st dataByte encoded' dataMaxSize
      else
        match fragment_bits st dataByte fragment with
        | (st', None, dataByte') => decode_steps st' dataByte' encoded' dataMaxSize
        | (st', Some out, dataByte') =>
            match dataMaxSize with
            | O => Ok (None, [])
            | S max =>
                '(s, data) ← decode_steps st' dataByte' encoded' max;
                Ok (s, char_of out :: data)
            end
        end
  end.

Definition base64_decodeChunk (s : DecodeState) (encoded : list ascii) (dataMaxSize : nat)
    : res (DecodeState * Z * list ascii) :=
  '(s', data) ← decode_steps (step s) (dataByte s) encoded dataMaxSize;
  match s' with
  | Some s' => Ok (s', i32 (Z.of_nat (length data)), data)
  | None => Ok (s, BASE64_BUFFER_OVERFLOW, data)
  end.

(** [do ... while ( fragment < 0 )]; [None] at the end of the text. *)
Fixpoint next_fragment (encoded : list ascii) : res (option (Z * list ascii)) :=
  match encoded with
  | [] => Ok None
  | c :: encoded' =>
      fragment ← decodeValue c;
      if fragment <? 0 then next_fragment encoded' else Ok (Some (fragment, encoded'))
  end.

(** The returned int, computed from the position in the output. *)
Definition returned (data : list ascii) : Z := i32 (Z.of_nat (length data)).

(** One round of the loop takes up to four fragments; [data] is the output so far. *)
Fixpoint decode_loop (fuel : nat) (encoded : list ascii) (dataMaxSize : nat) (data : list ascii)
    : res (Z * list ascii) :=
  match fuel with
  | O => OutOfFuel
  | S fuel' =>
      f ← next_fragment encoded;
      match f with
      | None => Ok (returned data, data)
      | Some (fragment, encoded) =>
          let dataByte := u8 (Z.shiftl (Z.land fragment 63) 2) in
          f ← next_fragment encoded;
          match f with
          | None => Ok (returned data, data)
          | Some (fragment, encoded) =>
              if (dataMaxSize <? 1)%nat then Ok (BASE64_BUFFER_OVERFLOW, data)
              else
                let data := data ++ [char_of (Z.lor dataByte (Z.shiftr (Z.land fragment 48) 4))] in
                let dataByte := u8 (Z.shiftl (Z.land fragment 15) 4) in
                f ← next_fragment encoded;
                match f with
                | None => Ok (returned data, data)
                | Some (fragment, encoded) =>
                    if (dataMaxSize - 1 <? 1)%nat then Ok (BASE64_BUFFER_OVERFLOW, data)
                    else
                      let data := data ++ [char_of (Z.lor dataByte (Z.shiftr (Z.land fragment 60) 2))] in
                      let dataByte := u8 (Z.shiftl (Z.land fragment 3) 6) in
                      f ← next_fragment encoded;
                      match f with
                      | None => Ok (returned data, data)
                      | Some (fragment, encoded) =>
                          if (dataMaxSize - 2 <? 1)%nat then Ok (BASE64_BUFFER_OVERFLOW, data)
                          else decode_loop fuel' encoded (dataMaxSize - 3)
                                 (data ++ [char_of (Z.lor dataByte (Z.land fragment 63))])
                      end
                end
          end
      end
  end.

Definition base64_decode (encoded : list ascii) (dataMaxSize : nat) : res (Z * list ascii) :=
  decode_loop (S (length encoded)) encoded dataMaxSize [].
