(* ===== verification/Base64Encode.v ===== *)
(** * Base64: the encoder

    The text of the encoder as a specification: groups of four characters, laid out in
    lines of a given length.  The function for a block and the functions for chunks both
    print this layout, and both write as much as they computed in advance. *)
From S2P Require Import Prelude Base64.
From Stdlib Require Import ZifyNat.

#[local] Arguments Nat.modulo : simpl never.

(** ** The layout of the text *)

(** The groups of a block of data. *)
Fixpoint quads (d : list ascii) : list (list ascii) :=
  match d with
  | [] => []
  | a :: b :: c :: d' => encodeBytes a b c :: quads d'
  | d => match encodeEndBytes d with Ok q => [q] | _ => [] end
  end.

(** Groups in lines of [L] characters, no lines if [L] is 0; [n] characters are in the
    current line.  A line break is printed in front of the next group. *)
Fixpoint layout (L n : Z) (qs : list (list ascii)) : list ascii :=
  match qs with
  | [] => []
  | q :: qs' =>
      if negb (L =? 0) && (L <=? n) then NL :: q ++ layout L 4 qs' else q ++ layout L (n + 4) qs'
  end.

Lemma layout_unlimited n m qs : layout 0 n qs = layout 0 m qs.
Proof. revert n m. induction qs as [|q qs IH]; intros n m; [done|]. cbn. f_equal. apply IH. Qed.

Lemma layout_room L n q qs : L = 0 \/ n < L -> layout L n (q :: qs) = q ++ layout L (n + 4) qs.
Proof. intros H. cbn. zcases; cbn; (done || lia). Qed.

Lemma layout_full L n qs : L <> 0 -> 0 < L <= n -> qs <> [] -> layout L n qs = NL :: layout L 0 qs.
Proof. intros HL Hn Hq. destruct qs as [|q qs]; [done|]. cbn. zcases; cbn; (done || lia). Qed.

Lemma quads_nil d : quads d = [] -> d = [].
Proof. by destruct d as [|a [|b [|c d]]]. Qed.

Lemma triplets (P : list ascii -> Prop) :
  (forall d, (length d < 3)%nat -> P d) -> (forall a b c d, P d -> P (a :: b :: c :: d)) -> forall d, P d.
Proof.
  intros H0 H3 d. assert (forall k d, (length d <= k)%nat -> P d) as H; [|by apply (H (length d))].
  clear d. induction k as [|k IH]; intros [|a [|b [|c d]]] Hk; cbn in Hk; try (apply H0; cbn; lia).
  apply H3, IH. lia.
Qed.

Lemma length_quads d : Z.of_nat (length (quads d)) = (Z.of_nat (length d) + 2) / 3.
Proof.
  induction d as [d Hd|a b c d IH] using triplets; [by destruct d as [|a [|b [|c d]]]; cbn in *; try lia|].
  cbn [quads length]. rewrite Nat2Z.inj_succ, IH. rewrite !Nat2Z.inj_succ.
  replace (Z.succ (Z.succ (Z.succ (Z.of_nat (length d)))) + 2) with (Z.of_nat (length d) + 2 + 1 * 3) by lia.
  rewrite Z.div_add by lia. lia.
Qed.

Lemma quads_four d : Forall (fun q => length q = 4%nat) (quads d).
Proof.
  induction d as [d Hd|a b c d IH] using triplets; [|by constructor].
  destruct d as [|a [|b [|c d]]]; cbn in *; try lia; by repeat constructor.
Qed.

(** The number of line breaks. *)
Lemma length_layout L qs : forall n,
  Forall (fun q => length q = 4%nat) qs -> 4 <= L -> L mod 4 = 0 -> 0 <= n <= L -> n mod 4 = 0 -> qs <> [] ->
  Z.of_nat (length (layout L n qs)) =
    4 * Z.of_nat (length qs) + (n + 4 * Z.of_nat (length qs) - 1) / L.
Proof.
  induction qs as [|q qs IH]; intros n Hq HL HL4 Hn Hn4 Hne; [done|]. apply Forall_cons in Hq as [Hq Hqs].
  assert (forall m, 0 <= m <= L -> m mod 4 = 0 ->
    Z.of_nat (length (layout L m qs)) = 4 * Z.of_nat (length qs) + (m + 4 * Z.of_nat (length qs) - 1) / L
    \/ qs = []) as IH'.
  { intros m Hm Hm4. destruct qs as [|q' qs]; [by right|]. left. apply IH; done. }
  clear IH. cbn [layout length]. rewrite Nat2Z.inj_succ. destruct (Z.eqb_spec L 0); [lia|]. cbn [negb andb].
  destruct (Z.leb_spec L n).
  - assert (n = L) as -> by lia. cbn [length]. rewrite length_app, Hq.
    replace (L + 4 * Z.succ (Z.of_nat (length qs)) - 1) with (4 + 4 * Z.of_nat (length qs) - 1 + 1 * L) by lia.
    rewrite Z.div_add by lia. destruct (IH' 4 ltac:(lia) eq_refl) as [E| ->]; [lia|].
    cbn. rewrite Z.div_small by lia. done.
  - rewrite length_app, Hq.
    assert (n + 4 <= L) by lia.
    assert ((n + 4) mod 4 = 0) by lia.
    replace (n + 4 * Z.succ (Z.of_nat (length qs)) - 1) with (n + 4 + 4 * Z.of_nat (length qs) - 1) by lia.
    destruct (IH' (n + 4)) as [E| ->]; [lia|done|lia|]. cbn. rewrite Z.div_small by lia. done.
Qed.

Lemma length_layout_0 n qs :
  Forall (fun q => length q = 4%nat) qs -> Z.of_nat (length (layout 0 n qs)) = 4 * Z.of_nat (length qs).
Proof.
  intros Hq. revert n. induction Hq as [|q qs Hq Hqs IH]; intros n; [done|].
  cbn [layout Z.eqb negb andb]. rewrite length_app, Hq. cbn [length]. specialize (IH (n + 4)). lia.
Qed.

Lemma layout_bound L qs : forall n,
  Forall (fun q => length q = 4%nat) qs -> (length (layout L n qs) <= 5 * length qs)%nat.
Proof.
  induction qs as [|q qs IH]; intros n Hq; [done|]. apply Forall_cons in Hq as [Hq Hqs]. cbn [layout].
  destruct (negb (L =? 0) && (L <=? n)); cbn [length]; rewrite length_app, Hq; [specialize (IH 4 Hqs)|specialize (IH (n + 4) Hqs)]; lia.
Qed.

(** ** Line lengths *)

Definition line_length (L : Z) : Prop := L = 0 \/ (4 <= L <= 65532 /\ L mod 4 = 0).

Lemma correctedLineLength_ok l : 0 <= l < 65536 -> line_length (correctedLineLength l).
Proof.
  intros Hl. unfold correctedLineLength, line_length. destruct (Z.eqb_spec l 0); [by left|]. right.
  destruct (Z.lt_ge_cases l 65534).
  - rewrite wrap_small by lia. destruct (Z.eqb_spec ((l + 2) / 4 * 4) 0); split; lia.
  - assert ((l + 2) / 4 * 4 = 65536) as -> by lia. split; [split|]; vm_compute; congruence.
Qed.

Lemma u16_column L n : line_length L -> L = 0 \/ (0 <= n < L) -> L <> 0 -> u16 (n + 4) = n + 4.
Proof. intros [->|[? ?]] Hn HL; [done|]. apply wrap_small. lia. Qed.

(** ** The function for a block *)

Definition end_text (d : list ascii) : list ascii := match encodeEndBytes d with Ok t => t | _ => [] end.

Lemma encode_loop_layout L d : forall n,
  line_length L -> L = 0 \/ (0 <= n < L /\ n mod 4 = 0) ->
  let '(text, bytes) := encode_loop L n d in
  encodeEndBytes bytes = Ok (end_text bytes) /\ text ++ end_text bytes = layout L n (quads d).
Proof.
  induction d as [d Hd|a b c d IH] using triplets; intros n HL Hn.
  { destruct d as [|a [|b [|c d]]]; cbn [length] in Hd; try lia; cbn [encode_loop quads]; split; try done;
      cbn [encodeEndBytes]; rewrite ?layout_room by tauto; done. }
  cbn [encode_loop quads]. rewrite layout_room by (destruct Hn; [by left|right; lia]).
  destruct (Z.eqb_spec L 0) as [->|HL0]; cbn [negb].
  { specialize (IH n HL Hn). destruct (encode_loop 0 n d) as [text bytes]. destruct IH as [? IH].
    split; [done|]. cbn [app]. rewrite <- app_assoc, IH. f_equal. apply layout_unlimited. }
  rewrite (u16_column L) by (done || (destruct Hn; [by left|right; lia])).
  destruct Hn as [?|[Hn Hn4]]; [done|]. assert (n + 4 <= L) by (destruct HL as [?|[? ?]]; [done|lia]).
  destruct (Z.leb_spec L (n + 4)); cbn [andb].
  - destruct d as [|x d]; cbn [length negb].
    { by split. }
    assert ((S (length d) =? 0)%nat = false) as -> by done. cbn [negb].
    specialize (IH 0 HL ltac:(right; lia)). destruct (encode_loop L 0 (x :: d)) as [text bytes].
    destruct IH as [? IH]. split; [done|]. rewrite layout_full by (done || lia || by intros ?%quads_nil).
    by rewrite <- IH, <- !app_assoc.
  - specialize (IH (n + 4) HL ltac:(right; lia)). destruct (encode_loop L (n + 4) d) as [text bytes].
    destruct IH as [? IH]. split; [done|]. rewrite <- IH, <- app_assoc. done.
Qed.

Lemma base64_encodedSize_layout d l :
  0 <= l < 65536 -> Z.of_nat (length d) < 2 ^ 30 ->
  base64_encodedSize (Z.of_nat (length d)) l =
    Z.of_nat (length (layout (correctedLineLength l) 0 (quads d))).
Proof.
  intros Hl Hd. unfold base64_encodedSize. pose proof (correctedLineLength_ok l Hl) as HL.
  set (L := correctedLineLength l) in *. rewrite (wrap_small 64 (_ + 2)), <- length_quads by lia.
  pose proof (length_quads d) as Hk. set (k := Z.of_nat (length (quads d))) in *.
  rewrite (wrap_small 64) by lia. destruct (Z.eqb_spec L 0) as [->|H0]; cbn [negb andb].
  { rewrite length_layout_0 by apply quads_four. lia. }
  destruct (Z.eqb_spec (k * 4) 0); cbn [negb].
  { destruct (quads d) eqn:E; [done|cbn in k; lia]. }
  destruct HL as [?|[HL HL4]]; [done|].
  assert (quads d <> []) by (intros E; unfold k in *; rewrite E in *; cbn in *; lia).
  rewrite length_layout by (auto using quads_four; lia). fold k.
  rewrite (wrap_small 64 (k * 4 + L - 1)) by lia.
  replace (k * 4 + L - 1) with (0 + 4 * k - 1 + 1 * L) by lia. rewrite Z.div_add by lia.
  assert (0 <= (0 + 4 * k - 1) / L <= 4 * k) by (split; [apply Z.div_pos; lia|apply Z.div_le_upper_bound; nia]).
  replace ((0 + 4 * k - 1) / L + 1 - 1) with ((0 + 4 * k - 1) / L) by lia.
  revert H1. generalize ((0 + 4 * k - 1) / L). intros nl Hnl. rewrite (wrap_small 64 nl), wrap_small by lia. lia.
Qed.

Lemma encode_block d max l :
  0 <= l < 65536 -> Z.of_nat (length d) < 2 ^ 30 ->
  let text := layout (correctedLineLength l) 0 (quads d) in
  base64_encodedSize (Z.of_nat (length d)) l = Z.of_nat (length text) /\
  base64_encode d max l =
    Ok (if max <=? Z.of_nat (length text) then (BASE64_BUFFER_OVERFLOW, [])
        else (Z.of_nat (length text), text ++ [NUL])).
Proof.
  intros Hl Hd text. pose proof (base64_encodedSize_layout d l Hl Hd) as Hsize. fold text in Hsize.
  split; [done|]. unfold base64_encode. rewrite Hsize. destruct (Z.leb_spec max (Z.of_nat (length text))); [done|].
  pose proof (encode_loop_layout (correctedLineLength l) d 0) as Hloop. pose proof (correctedLineLength_ok l Hl) as HL.
  destruct (encode_loop _ 0 d) as [t bytes]. destruct Hloop as [-> Ht]; [done|destruct HL; [by left|right; lia]|].
  fold text in Ht. cbn [mbind res_bind]. rewrite Ht. unfold check_that. rewrite Z.eqb_refl. cbn [mbind res_bind].
  rewrite i32_small; [done|]. pose proof (layout_bound (correctedLineLength l) (quads d) 0 (quads_four d)) as Hb.
  fold text in Hb. pose proof (length_quads d). lia.
Qed.

(** ** The functions for chunks *)

(** A state between two calls: a line that is full has its line break pending. *)
Record valid (s : EncodeState) : Prop := {
  v_length : line_length (lineLength s);
  v_left : (bytesLeft s <= 2)%nat;
  v_size : lineLength s = 0 \/
           if newLinePending s then lineSize s = lineLength s else 0 <= lineSize s < lineLength s /\ lineSize s mod 4 = 0;
  v_pending : newLinePending s = true -> lineLength s <> 0 /\ bytesLeft s = 0%nat
}.

(** What a state prints if [d] are the remaining data. *)
Definition future (s : EncodeState) (d : list ascii) : list ascii :=
  layout (lineLength s) (lineSize s) (quads (carried s ++ d)).

Lemma carried_none s : bytesLeft s = 0%nat -> carried s = [].
Proof. unfold carried. destruct (carryBytes s) as [[? ?] ?]. by intros ->. Qed.

Lemma after_quad_future s rest :
  valid s -> bytesLeft s = 0%nat -> newLinePending s = false ->
  let '(s', brk) := after_quad (length rest) s in
  valid s' /\ bytesLeft s' = 0%nat /\ (rest = [] \/ newLinePending s' = false) /\
  lineLength s' = lineLength s /\
  forall q more, layout (lineLength s) (lineSize s) (q :: quads (rest ++ more)) = q ++ brk ++ future s' (rest ++ more).
Proof.
  intros [HL Hl Hs Hp] H0 Hnp. rewrite Hnp in Hs. unfold after_quad.
  assert (forall q more, layout (lineLength s) (lineSize s) (q :: quads (rest ++ more))
          = q ++ layout (lineLength s) (lineSize s + 4) (quads (rest ++ more))) as Hroom.
  { intros q more. apply layout_room. destruct Hs; [by left|right; lia]. }
  destruct (Z.eqb_spec (lineLength s) 0) as [E|Hn]; cbn [negb].
  { rewrite Hnp. split_and!; auto; [by constructor; auto|].
    intros q more. rewrite Hroom. unfold future. rewrite carried_none, E by done. cbn [app]. f_equal.
    apply layout_unlimited. }
  destruct Hs as [?|[Hs H4]]; [done|]. rewrite (u16_column (lineLength s)) by auto.
  assert (lineSize s + 4 <= lineLength s) by (destruct HL as [?|[? ?]]; [done|lia]).
  cbn [set_line lineLength lineSize newLinePending]. destruct (Z.leb_spec (lineLength s) (lineSize s + 4)).
  - destruct rest as [|x rest].
    + cbn. split_and!; auto.
      * constructor; cbn; auto. right. lia.
      * intros q more. etrans; [apply Hroom|]. unfold future. cbn. rewrite carried_none by done. done.
    + cbn [length Nat.eqb negb]. change ((S (length rest) =? 0)%nat) with false. cbn [negb].
      rewrite Hnp. split_and!; auto.
      * constructor; cbn; auto; try done. right. split; [lia|done].
      * intros q more. rewrite Hroom, layout_full by (done || lia || by intros ?%quads_nil).
        unfold future. cbn. rewrite carried_none by done. done.
  - rewrite Hnp. split_and!; auto.
    + constructor; cbn; auto; try done. right. split; [lia|].
      rewrite <- Z.add_mod_idemp_l, H4 by lia. done.
    + intros q more. rewrite Hroom. unfold future. cbn. rewrite carried_none by done. done.
Qed.

(** A state that printed what was pending. *)
Definition going_on (s : EncodeState) (bytes : list ascii) : Prop := bytes = [] \/ newLinePending s = false.

Lemma chunk_loop_future bytes : forall s,
  valid s -> bytesLeft s = 0%nat -> going_on s bytes ->
  let '(s', text, rest) := chunk_loop s bytes in
  valid s' /\ bytesLeft s' = 0%nat /\ going_on s' rest /\ (length rest < 3)%nat /\ lineLength s' = lineLength s /\
  forall more, future s (bytes ++ more) = text ++ future s' (rest ++ more).
Proof.
  induction bytes as [d Hd|a b c d IH] using triplets; intros s Hv H0 Hg.
  { destruct d as [|a [|b [|c d]]]; cbn in Hd; try lia; cbn; split_and!; auto with lia. }
  cbn [chunk_loop]. destruct Hg as [?|Hnp]; [done|].
  pose proof (after_quad_future s d Hv H0 Hnp) as Ha. destruct (after_quad (length d) s) as [s1 brk].
  destruct Ha as (Hv1 & H01 & Hg1 & HL1 & Ha). specialize (IH s1 Hv1 H01 Hg1).
  destruct (chunk_loop s1 d) as [[s2 text] rest]. destruct IH as (Hv2 & H02 & Hg2 & Hr & HL2 & IH).
  split_and!; auto; [by rewrite HL2|]. intros more. unfold future at 1. rewrite carried_none by done.
  cbn [app quads]. rewrite Ha, IH, <- !app_assoc. done.
Qed.

Lemma valid_carry c n s :
  valid s -> (n <= 2)%nat -> newLinePending s = false -> valid (set_carry c n s).
Proof. intros [HL Hl Hs Hp] Hn Hnp. constructor; cbn; auto. by rewrite Hnp. Qed.

Lemma encode_carry_future s bytes :
  valid s -> going_on s bytes ->
  let '(s', text, rest) := encode_carry s bytes in
  valid s' /\ going_on s' rest /\ lineLength s' = lineLength s /\ (bytesLeft s' = 0%nat \/ rest = []) /\
  forall more, future s (bytes ++ more) = text ++ future s' (rest ++ more).
Proof.
  intros Hv Hg. pose proof (v_left s Hv) as Hl. unfold encode_carry.
  destruct (carryBytes s) as [[c0 c1] c2] eqn:Ec.
  destruct (bytesLeft s) as [|[|[|n]]] eqn:El; [by auto 10| | |lia].
  all: assert (newLinePending s = false) as Hnp
    by (destruct (newLinePending s) eqn:E; [apply v_pending in E as [? ?]; [congruence|done]|done]).
  - destruct bytes as [|b1 [|b2 rest]]; [by auto 10| |].
    + split_and!; auto.
      { by apply valid_carry. }
      { by left. }
      intros more. unfold future, carried. by rewrite Ec, El.
    + pose proof (after_quad_future (set_carry (c0, b1, b2) 0 s) rest) as Ha.
      destruct (after_quad (length rest) (set_carry (c0, b1, b2) 0 s)) as [s1 brk].
      destruct Ha as (Hv1 & H01 & Hg1 & HL1 & Ha); [by apply valid_carry; auto with lia|done|done|].
      split_and!; auto. intros more. unfold future at 1, carried. rewrite Ec, El. cbn [take app quads].
      rewrite <- app_assoc. apply Ha.
  - destruct bytes as [|b2 rest]; [by auto 10|].
    pose proof (after_quad_future (set_carry (c0, c1, b2) 0 s) rest) as Ha.
    destruct (after_quad (length rest) (set_carry (c0, c1, b2) 0 s)) as [s1 brk].
    destruct Ha as (Hv1 & H01 & Hg1 & HL1 & Ha); [by apply valid_carry; auto with lia|done|done|].
    split_and!; auto. intros more. unfold future at 1, carried. rewrite Ec, El. cbn [take app quads].
    rewrite <- app_assoc. apply Ha.
Qed.

Lemma keep_rest_future s bytes :
  valid s -> bytesLeft s = 0%nat -> going_on s bytes -> (length bytes < 3)%nat ->
  valid (keep_rest s bytes) /\ lineLength (keep_rest s bytes) = lineLength s /\
  carried (keep_rest s bytes) = bytes /\
  forall more, future s (bytes ++ more) = future (keep_rest s bytes) more.
Proof.
  intros Hv H0 Hg Hb. unfold keep_rest. destruct (carryBytes s) as [[c0 c1] c2] eqn:Ec.
  destruct bytes as [|a [|b [|c d]]]; cbn in Hb; try lia.
  - split_and!; auto. by apply carried_none.
  - destruct Hg as [?|Hnp]; [done|]. split_and!; auto; [by apply valid_carry; auto with lia|].
    intros more. unfold future at 1. by rewrite carried_none.
  - destruct Hg as [?|Hnp]; [done|]. split_and!; auto; [by apply valid_carry; auto with lia|].
    intros more. unfold future at 1. by rewrite carried_none.
Qed.

Lemma pending_future s data :
  valid s ->
  let '(s', brk) := if newLinePending s && negb (length data =? 0)%nat then (set_line 0 false s, [NL]) else (s, []) in
  valid s' /\ going_on s' data /\ lineLength s' = lineLength s /\
  forall more, future s (data ++ more) = brk ++ future s' (data ++ more).
Proof.
  intros Hv. destruct (newLinePending s) eqn:E; [|by split_and!; auto; right].
  destruct data as [|x data]; cbn [andb length].
  { by split_and!; auto; left. }
  change (negb (S (length data) =? 0)%nat) with true. destruct (v_pending s Hv E) as [HL H0].
  pose proof (v_length s Hv) as HLL. pose proof (v_size s Hv) as Hs. rewrite E in Hs. split_and!; auto.
  - constructor; cbn; auto; try done; [apply (v_left s Hv)|]. right.
    destruct HLL as [?|[? ?]]; [done|]. split; [lia|done].
  - right. done.
  - intros more. destruct Hs as [?|Hs]; [done|]. unfold future. cbn [lineLength lineSize set_line].
    change (carried (set_line 0 false s)) with (carried s).
    apply layout_full; [done|destruct HLL as [?|[? ?]]; [done|lia]|].
    rewrite carried_none by done. by intros ?%quads_nil.
Qed.

Lemma write_chunk_future s data :
  valid s ->
  let '(s', output) := write_chunk s data in
  valid s' /\ lineLength s' = lineLength s /\ forall more, future s (data ++ more) = output ++ future s' more.
Proof.
  intros Hv. unfold write_chunk. pose proof (pending_future s data Hv) as H1.
  destruct (if newLinePending s && _ then _ else _) as [s1 brk]. destruct H1 as (Hv1 & Hg1 & HL1 & H1).
  pose proof (encode_carry_future s1 data Hv1 Hg1) as H2. destruct (encode_carry s1 data) as [[s2 text1] bytes].
  destruct H2 as (Hv2 & Hg2 & HL2 & Hl2 & H2). destruct Hl2 as [Hl2| ->].
  - pose proof (chunk_loop_future bytes s2 Hv2 Hl2 Hg2) as H3.
    destruct (chunk_loop s2 bytes) as [[s3 text2] rest]. destruct H3 as (Hv3 & Hl3 & Hg3 & Hr & HL3 & H3).
    destruct (keep_rest_future s3 rest Hv3 Hl3 Hg3 Hr) as (Hv4 & HL4 & Hc4 & H4).
    split_and!; [done|congruence|]. intros more. by rewrite H1, H2, H3, H4, <- !app_assoc.
  - cbn [chunk_loop]. unfold keep_rest. destruct (carryBytes s2) as [[? ?] ?]. split_and!; [done|congruence|].
    intros more. by rewrite H1, H2, app_nil_r, <- app_assoc.
Qed.

(** *** The size computed in advance *)

Lemma after_quad_left n s : bytesLeft (after_quad n s).1 = bytesLeft s.
Proof. unfold after_quad. by repeat case_match. Qed.

Lemma chunk_loop_left bytes : forall s,
  bytesLeft (chunk_loop s bytes).1.1 = bytesLeft s /\
  length (chunk_loop s bytes).2 = (length bytes mod 3)%nat.
Proof.
  induction bytes as [d Hd|a b c d IH] using triplets; intros s.
  { destruct d as [|a [|b [|c d]]]; cbn in Hd; try lia; done. }
  cbn [chunk_loop]. pose proof (after_quad_left (length d) s) as Ha. destruct (after_quad _ _) as [s1 brk].
  specialize (IH s1). destruct (chunk_loop s1 d) as [[s2 text] rest]. cbn in *. destruct IH as [-> ->].
  split; [done|]. change (S (S (S (length d)))) with (3 + length d)%nat. lia.
Qed.

Lemma keep_rest_left s bytes :
  bytesLeft s = 0%nat -> (length bytes < 3)%nat -> bytesLeft (keep_rest s bytes) = length bytes.
Proof.
  intros H0 Hb. unfold keep_rest. destruct (carryBytes s) as [[c0 c1] c2].
  destruct bytes as [|x [|y [|z l]]]; cbn in *; (done || lia).
Qed.

Lemma encode_carry_left s bytes :
  (bytesLeft s <= 2)%nat ->
  let '(s', _, rest) := encode_carry s bytes in
  ((bytesLeft s' + length rest) mod 3 = (bytesLeft s + length bytes) mod 3)%nat /\
  (bytesLeft s' = 0%nat \/ rest = [] /\ (bytesLeft s' <= 2)%nat).
Proof.
  intros Hl. unfold encode_carry. destruct (carryBytes s) as [[c0 c1] c2].
  destruct (bytesLeft s) as [|[|[|n]]] eqn:El; [by rewrite El; auto| | |lia].
  - destruct bytes as [|b1 [|b2 rest]]; [by rewrite El; auto|by cbn; auto with lia|].
    pose proof (after_quad_left (length rest) (set_carry (c0, b1, b2) 0 s)) as Ha.
    destruct (after_quad _ _) as [s1 brk]. cbn in Ha. rewrite Ha. split; [cbn; lia|by left].
  - destruct bytes as [|b2 rest]; [by rewrite El; auto|].
    pose proof (after_quad_left (length rest) (set_carry (c0, c1, b2) 0 s)) as Ha.
    destruct (after_quad _ _) as [s1 brk]. cbn in Ha. rewrite Ha. split; [cbn; lia|by left].
Qed.

Lemma write_chunk_left s data :
  (bytesLeft s <= 2)%nat -> bytesLeft (write_chunk s data).1 = ((bytesLeft s + length data) mod 3)%nat.
Proof.
  intros Hl. unfold write_chunk.
  assert (exists s1 brk, (if newLinePending s && negb (length data =? 0)%nat then (set_line 0 false s, [NL]) else (s, []))
          = (s1, brk) /\ bytesLeft s1 = bytesLeft s) as (s1 & brk & -> & H1) by (case_match; eauto).
  rewrite <- H1 in Hl |- *. pose proof (encode_carry_left s1 data Hl) as H2.
  destruct (encode_carry s1 data) as [[s2 text1] bytes]. destruct H2 as [<- [H2|[-> H2]]].
  - destruct (chunk_loop_left bytes s2) as [Hs Hr]. destruct (chunk_loop s2 bytes) as [[s3 text2] rest].
    cbn in *. rewrite keep_rest_left by lia. rewrite Hr, H2. done.
  - cbn [chunk_loop fst]. unfold keep_rest. destruct (carryBytes s2) as [[? ?] ?]. cbn. lia.
Qed.

Lemma length_carried s : (bytesLeft s <= 2)%nat -> length (carried s) = bytesLeft s.
Proof. intros H. unfold carried. destruct (carryBytes s) as [[? ?] ?]. rewrite length_take. cbn. lia. Qed.

(** The characters that wait for the next call. *)
Lemma length_future_nil s : valid s -> length (future s []) = (if (bytesLeft s =? 0)%nat then 0 else 4)%nat.
Proof.
  intros [HL Hl Hs Hp]. unfold future. rewrite app_nil_r. destruct (Nat.eqb_spec (bytesLeft s) 0) as [E|E].
  { by rewrite carried_none. }
  assert (newLinePending s = false) as Hnp by (destruct (newLinePending s); [by destruct Hp|done]).
  rewrite Hnp in Hs. assert (length (quads (carried s)) = 1)%nat as Hq.
  { pose proof (length_quads (carried s)) as Hk. rewrite length_carried in Hk by done. lia. }
  pose proof (quads_four (carried s)) as H4. destruct (quads (carried s)) as [|q [|? ?]]; cbn in Hq; try lia.
  rewrite layout_room by (destruct Hs; [by left|right; lia]). cbn. rewrite app_nil_r.
  by apply Forall_cons in H4 as [? _].
Qed.

Lemma length_future s d :
  valid s -> (0 < bytesLeft s + length d)%nat ->
  let k := (Z.of_nat (bytesLeft s + length d) + 2) / 3 in
  Z.of_nat (length (future s d)) =
    4 * k + (if lineLength s =? 0 then 0 else (lineSize s + 4 * k - 1) / lineLength s).
Proof.
  intros [HL Hl Hs Hp] Hd k. unfold future.
  assert (Z.of_nat (length (quads (carried s ++ d))) = k) as Hk.
  { rewrite length_quads, length_app, length_carried by done. done. }
  destruct (Z.eqb_spec (lineLength s) 0) as [->|H0].
  { rewrite length_layout_0 by apply quads_four. lia. }
  destruct HL as [?|[HL HL4]]; [done|]. destruct Hs as [?|Hs]; [done|].
  rewrite length_layout; [by rewrite Hk|apply quads_four|lia|done| | |].
  1, 2: destruct (newLinePending s); [by rewrite Hs; auto with lia|lia].
  intros E. rewrite E in Hk. cbn in Hk. lia.
Qed.

Lemma div_bounds x L : 4 <= L -> 0 <= x -> 0 <= x / L <= x.
Proof. intros HL Hx. split; [apply Z.div_pos; lia|apply Z.div_le_upper_bound; nia]. Qed.

Lemma div_quads x L : 0 < L -> L mod 4 = 0 -> x mod 4 = 0 -> 0 <= x -> (x + 3) / L = x / L.
Proof.
  intros HL HL4 Hx4 Hx. assert (L = 4 * (L / 4)) as -> by lia. assert (0 < L / 4) by lia.
  rewrite <- !Z.div_div by lia. f_equal. lia.
Qed.

(** The wrap-arounds of the size are not reached. *)
Lemma encodedChunkSize_plain s n :
  valid s -> 0 <= n < 2 ^ 30 ->
  let m := Z.of_nat (bytesLeft s) + n in
  let e := m / 3 * 4 in
  base64_encodedChunkSize s n =
    if lineLength s =? 0 then e
    else if e =? 0 then if newLinePending s && negb (n =? 0) then 1 else 0
    else let last := if m mod 3 =? 0 then 1 else 0 in
         e + (lineSize s + e - last) / lineLength s.
Proof.
  intros [HL Hl Hs Hp] Hn m e. unfold base64_encodedChunkSize.
  assert (exists b, (if negb (bytesLeft s =? 0)%nat then
             if 3 <=? u64 (n + Z.of_nat (bytesLeft s)) then (n - (3 - Z.of_nat (bytesLeft s)), 4) else (0, 0)
           else (n, 0)) = (b, e - b / 3 * 4) /\ 0 <= b <= n /\ 0 <= e - b / 3 * 4 /\
           (e <> 0 -> b mod 3 = m mod 3) /\ (bytesLeft s = 0%nat -> b = n)) as (b & -> & Hb & He & Hmod & Hb0).
  { rewrite wrap_small by lia. destruct (Nat.eqb_spec (bytesLeft s) 0) as [E|E]; cbn [negb].
    - exists n. unfold e, m. rewrite E. split_and!; try lia; [f_equal; lia].
    - destruct (Z.leb_spec 3 (n + Z.of_nat (bytesLeft s))); eexists; (split; [apply f_equal2; [reflexivity|]|]);
        unfold e, m; lia. }
  replace (e - b / 3 * 4 + b / 3 * 4) with e by lia.
  assert (0 <= e <= 4 * n + 8) as Hel by (unfold e, m; lia). rewrite (wrap_small 64 e) by lia.
  destruct (Z.eqb_spec (lineLength s) 0) as [H0|H0]; [done|cbn [negb]].
  destruct HL as [?|[HL HL4]]; [done|]. destruct Hs as [?|Hs]; [done|].
  destruct (Z.eqb_spec e 0) as [E|E]; cbn [negb].
  - rewrite E. destruct (newLinePending s) eqn:Hnp; [|done]. cbn [andb]. rewrite Hb0 by (by apply Hp).
    destruct (n =? 0); done.
  - rewrite Hmod by done. set (last := if m mod 3 =? 0 then 1 else 0).
    assert (0 <= last <= 1) as Hlast by (unfold last; destruct (m mod 3 =? 0); lia).
    destruct (newLinePending s).
    + rewrite Hs. pose proof (div_bounds (e - last) (lineLength s) (proj1 HL) ltac:(lia)).
      replace (lineLength s + e - last) with (e - last + 1 * lineLength s) by lia. rewrite Z.div_add by lia.
      rewrite wrap_small by lia. lia.
    + rewrite (wrap_small 64 (lineSize s + e - last)) by lia.
      pose proof (div_bounds (lineSize s + e - last) (lineLength s) (proj1 HL) ltac:(lia)). rewrite wrap_small by lia. done.
Qed.

Lemma write_chunk_size s data :
  valid s -> Z.of_nat (length data) < 2 ^ 30 ->
  Z.of_nat (length (write_chunk s data).2) = base64_encodedChunkSize s (Z.of_nat (length data)).
Proof.
  intros Hv Hd. rewrite encodedChunkSize_plain by (done || lia).
  pose proof (write_chunk_left s data (v_left s Hv)) as Hleft.
  pose proof (write_chunk_future s data Hv) as Hf. destruct (write_chunk s data) as [s' output].
  destruct Hf as (Hv' & HL' & Hf). specialize (Hf []). rewrite app_nil_r in Hf. cbn in Hleft |- *.
  apply (f_equal length) in Hf. rewrite length_app, length_future_nil, Hleft in Hf by done.
  destruct (decide (0 < bytesLeft s + length data)%nat) as [Hp|Hp].
  2: { assert (bytesLeft s = 0%nat /\ data = []) as [E ->] by (split; [lia|destruct data; [done|cbn in Hp; lia]]).
       rewrite length_future_nil, E in Hf by done. change (0 = length output + 0)%nat in Hf.
       rewrite E. cbn [length]. assert (length output = 0)%nat as -> by lia. cbn.
       by destruct (lineLength s =? 0), (newLinePending s). }
  apply (f_equal Z.of_nat) in Hf. rewrite length_future in Hf by done.
  set (m := (bytesLeft s + length data)%nat) in *.
  replace (Z.of_nat (bytesLeft s) + Z.of_nat (length data)) with (Z.of_nat m) by lia.
  rewrite Nat2Z.inj_add in Hf. destruct (v_length s Hv) as [E|[HL HL4]].
  { rewrite E in *. cbn [Z.eqb] in *. destruct (Nat.eqb_spec (m mod 3) 0); lia. }
  destruct (Z.eqb_spec (lineLength s) 0); [lia|].
  destruct (v_size s Hv) as [?|Hs]; [done|].
  destruct (Nat.eqb_spec (m mod 3) 0) as [Hm|Hm].
  - assert ((Z.of_nat m + 2) / 3 = Z.of_nat m / 3) as E by lia. rewrite E in Hf.
    destruct (Z.eqb_spec (Z.of_nat m / 3 * 4) 0); [lia|]. destruct (Z.eqb_spec (Z.of_nat m mod 3) 0); [|lia].
    replace (Z.of_nat m / 3 * 4) with (4 * (Z.of_nat m / 3)) by lia. lia.
  - assert ((Z.of_nat m + 2) / 3 = Z.of_nat m / 3 + 1) as E by lia. rewrite E in Hf.
    destruct (Z.eqb_spec (Z.of_nat m mod 3) 0); [lia|].
    replace (Z.of_nat m / 3 * 4) with (4 * (Z.of_nat m / 3)) by lia. set (k := Z.of_nat m / 3) in *.
    replace (lineSize s + 4 * (k + 1) - 1) with (lineSize s + 4 * k + 3) in Hf by lia.
    rewrite div_quads in Hf by (lia || (destruct (newLinePending s); [rewrite Hs|]; lia)).
    destruct (Z.eqb_spec (4 * k) 0) as [E0|E0].
    + destruct (newLinePending s) eqn:Hnp; cbn [andb].
      * destruct (v_pending s Hv Hnp) as [_ E1]. destruct (Z.eqb_spec (Z.of_nat (length data)) 0); [lia|].
        rewrite Hs, E0, Z.add_0_r, Z.div_same in Hf by lia. cbn. lia.
      * rewrite E0, Z.add_0_r, Z.div_small in Hf by lia. lia.
    + rewrite Z.sub_0_r; lia.
Qed.
