(* ===== verification/Base64Decode.v ===== *)
(** * Base64: the decoder

    The decoder takes groups of four characters back to the bytes they encode, skips line
    breaks and fillers, and does the same for a block and for a sequence of chunks. *)
From S2P Require Import Prelude Base64 Base64Encode.
From Stdlib Require Import ZifyNat.

(** ** Bytes *)

Definition all_bytes : list ascii := map ascii_of_nat (seq 0 256).

Lemma all_bytes_forall (P : ascii -> bool) : forallb P all_bytes = true -> forall c, P c = true.
Proof.
  intros H c. rewrite forallb_forall in H. apply H. apply in_map_iff. exists (nat_of_ascii c).
  split; [apply ascii_nat_embedding|]. apply in_seq. pose proof (nat_ascii_bounded c). lia.
Qed.

Lemma byte_range c : 0 <= byte c < 256.
Proof. unfold byte. pose proof (N_ascii_bounded c). lia. Qed.

Lemma char_of_byte c : char_of (byte c) = c.
Proof. unfold char_of. rewrite wrap_small by apply byte_range. unfold byte. rewrite N2Z.id. apply ascii_N_embedding. Qed.

(** Six bits, their character and back. *)
Lemma decodeValue_table i : 0 <= i < 64 -> decodeValue (table i) = Ok i.
Proof.
  intros Hi.
  assert (forallb (fun n => bool_decide (decodeValue (table (Z.of_nat n)) = Ok (Z.of_nat n))) (seq 0 64) = true) as H
    by (vm_compute; reflexivity).
  rewrite forallb_forall in H. specialize (H (Z.to_nat i)). rewrite Z2Nat.id in H by lia.
  eapply bool_decide_eq_true_1, H, in_seq. lia.
Qed.

Lemma six_bits x : 0 <= Z.land x 63 < 64.
Proof. change 63 with (Z.ones 6). rewrite Z.land_ones by lia. apply Z.mod_pos_bound. lia. Qed.

Lemma first_six a : 0 <= Z.shiftr (byte a) 2 < 64.
Proof. rewrite Z.shiftr_div_pow2 by lia. pose proof (byte_range a). change (2 ^ 2) with 4. lia. Qed.

(** ** Steps *)

Definition prepend (d : list ascii) (r : res (option DecodeState * list ascii)) :
    res (option DecodeState * list ascii) := '(s, data) ← r; Ok (s, d ++ data).

Lemma prepend_nil r : prepend [] r = r.
Proof. by destruct r as [[s d]| |]. Qed.
Lemma prepend_app d1 d2 r : prepend d1 (prepend d2 r) = prepend (d1 ++ d2) r.
Proof. destruct r as [[s d]| |]; cbn; by rewrite <- ?app_assoc. Qed.

Lemma decode_skip st db c t max v :
  decodeValue c = Ok v -> v < 0 -> decode_steps st db (c :: t) max = decode_steps st db t max.
Proof. intros E Hv. cbn [decode_steps]. rewrite E. cbn. by rewrite (proj2 (Z.ltb_lt v 0)). Qed.

(** A character of six bits. *)
Lemma decode_six st db i t max :
  0 <= i < 64 ->
  decode_steps st db (table i :: t) max =
    match fragment_bits st db i with
    | (st', None, db') => decode_steps st' db' t max
    | (st', Some out, db') =>
        match max with O => Ok (None, []) | S max => prepend [char_of out] (decode_steps st' db' t max) end
    end.
Proof.
  intros Hi. cbn [decode_steps]. rewrite decodeValue_table by done. cbn. destruct (Z.ltb_spec i 0); [lia|].
  done.
Qed.

(** The six bit parts of the bytes and the parts the decoder takes of them, as numbers. *)
Lemma fragment_two a b :
  Z.land (Z.lor (Z.shiftl (byte a) 4) (Z.shiftr (byte b) 4)) 63 = byte a mod 4 * 16 + byte b / 16.
Proof.
  pose proof (byte_range b). rewrite Z.shiftl_mul_pow2, Z.shiftr_div_pow2, Z.lor_comm, lor_high_low by lia.
  change 63 with (Z.ones 6). rewrite Z.land_ones by lia. lia.
Qed.

Lemma fragment_three b c :
  Z.land (Z.lor (Z.shiftl (byte b) 2) (Z.shiftr (byte c) 6)) 63 = byte b mod 16 * 4 + byte c / 64.
Proof.
  pose proof (byte_range c). rewrite Z.shiftl_mul_pow2, Z.shiftr_div_pow2, Z.lor_comm, lor_high_low by lia.
  change 63 with (Z.ones 6). rewrite Z.land_ones by lia. lia.
Qed.

Lemma low_bits f n m : 0 <= n -> 0 <= m -> n + m <= 8 -> u8 (Z.shiftl (Z.land f (Z.ones n)) m) = f mod 2 ^ n * 2 ^ m.
Proof.
  intros Hn Hm Hs. rewrite Z.land_ones, Z.shiftl_mul_pow2 by lia. apply wrap_small.
  assert (0 <= f mod 2 ^ n < 2 ^ n) by (apply Z.mod_pos_bound; lia).
  assert (2 ^ n * 2 ^ m <= 2 ^ 8) by (rewrite <- Z.pow_add_r by lia; apply Z.pow_le_mono_r; lia). nia.
Qed.

Lemma char_of_join x n y c :
  0 <= n -> 0 <= y < 2 ^ n -> x * 2 ^ n + y = byte c -> char_of (Z.lor (x * 2 ^ n) y) = c.
Proof.
  intros Hn Hy E. rewrite Z.lor_comm, lor_high_low by done. rewrite Z.add_comm, E. apply char_of_byte.
Qed.

(** The parts fit together again. *)
Lemma bits_first a b :
  char_of (Z.lor (u8 (Z.shiftl (Z.land (Z.shiftr (byte a) 2) 63) 2))
             (Z.shiftr (Z.land (Z.land (Z.lor (Z.shiftl (byte a) 4) (Z.shiftr (byte b) 4)) 63) 48) 4)) = a.
Proof.
  pose proof (byte_range a). pose proof (byte_range b).
  rewrite fragment_two, (low_bits _ 6 2), (field_read 4 2), Z.shiftr_div_pow2 by lia. apply char_of_join; lia.
Qed.

Lemma bits_second b x c :
  char_of (Z.lor (u8 (Z.shiftl (Z.land (x * 16 + byte b / 16) 15) 4))
             (Z.shiftr (Z.land (Z.land (Z.lor (Z.shiftl (byte b) 2) (Z.shiftr (byte c) 6)) 63) 60) 2)) = b.
Proof.
  pose proof (byte_range b). pose proof (byte_range c).
  rewrite fragment_three, (low_bits _ 4 4), (field_read 2 4) by lia. apply char_of_join; lia.
Qed.

Lemma bits_third b c :
  char_of (Z.lor (u8 (Z.shiftl (Z.land (Z.land (Z.lor (Z.shiftl (byte b) 2) (Z.shiftr (byte c) 6)) 63) 3) 6))
             (Z.land (Z.land (byte c) 63) 63)) = c.
Proof.
  pose proof (byte_range b). pose proof (byte_range c).
  rewrite fragment_three, (low_bits _ 2 6) by lia. rewrite <- Z.land_assoc, (Z.land_ones _ 6) by lia.
  apply char_of_join; lia.
Qed.

(** A missing byte is a zero byte in the groups at the end. *)
Lemma six_zero x : Z.lor x (Z.shiftr (byte NUL) 4) = x /\ Z.lor x (Z.shiftr (byte NUL) 6) = x.
Proof. split; apply Z.lor_0_r. Qed.

Lemma decode_quad db a b c t max :
  exists db', decode_steps STEP_A db (encodeBytes a b c ++ t) (3 + max) =
    prepend [a; b; c] (decode_steps STEP_A db' t max).
Proof.
  unfold encodeBytes. cbn [app Nat.add].
  rewrite decode_six by apply first_six. cbn [fragment_bits].
  rewrite decode_six by apply six_bits. cbn [fragment_bits]. rewrite bits_first, fragment_two.
  rewrite decode_six by apply six_bits. cbn [fragment_bits]. rewrite bits_second.
  rewrite decode_six by apply six_bits. cbn [fragment_bits]. rewrite bits_third, !prepend_app. eexists. done.
Qed.

Lemma decode_end db d t max :
  (length d < 3)%nat ->
  exists st db', decode_steps STEP_A db (end_text d ++ t) (length d + max) =
    prepend d (decode_steps st db' t max).
Proof.
  intros Hd. destruct d as [|a [|b [|c d]]]; cbn [length] in Hd; try lia; unfold end_text; cbn [encodeEndBytes app].
  - exists STEP_A, db. by rewrite prepend_nil.
  - rewrite decode_six by apply first_six. cbn [fragment_bits].
    rewrite <- (proj1 (six_zero (Z.shiftl (byte a) 4))).
    rewrite decode_six by apply six_bits. cbn [fragment_bits length Nat.add]. rewrite bits_first.
    eexists _, _. reflexivity.
  - rewrite decode_six by apply first_six. cbn [fragment_bits].
    rewrite decode_six by apply six_bits. cbn [fragment_bits length Nat.add]. rewrite bits_first, fragment_two.
    rewrite <- (proj2 (six_zero (Z.shiftl (byte b) 2))).
    rewrite decode_six by apply six_bits. cbn [fragment_bits]. rewrite bits_second, prepend_app.
    eexists _, _. reflexivity.
Qed.

Lemma decode_layout L d : forall n db max,
  exists st db', decode_steps STEP_A db (layout L n (quads d)) (length d + max) = Ok (Some (mkDecodeState st db'), d).
Proof.
  induction d as [d Hd|a b c d IH] using triplets; intros n db max.
  - destruct (decide (d = [])) as [->|Hne]; [by eexists _, _|].
    assert (quads d = [end_text d]) as -> by (destruct d as [|a [|b [|c d]]]; done || (cbn in Hd; lia)).
    cbn [layout]. destruct (decode_end db d [] max Hd) as (st & db' & E). rewrite app_nil_r in E.
    exists st, db'. destruct (negb (L =? 0) && (L <=? n)); rewrite ?(decode_skip _ _ NL _ _ (-2)) by done;
      rewrite app_nil_r, E; cbn; by rewrite app_nil_r.
  - cbn [quads layout length]. assert (forall m, exists st db',
      decode_steps STEP_A db (encodeBytes a b c ++ layout L m (quads d)) (3 + (length d + max)) =
      Ok (Some (mkDecodeState st db'), a :: b :: c :: d)) as H.
    { intros m. destruct (decode_quad db a b c (layout L m (quads d)) (length d + max)) as [db1 ->].
      destruct (IH m db1 max) as (st & db' & ->). by exists st, db'. }
    destruct (negb (L =? 0) && (L <=? n)); rewrite ?(decode_skip _ _ NL _ _ (-2)) by done; apply H.
Qed.

(** ** The decoder of a block is the state machine *)

Definition finish (data : list ascii) (r : res (option DecodeState * list ascii)) : res (Z * list ascii) :=
  '(s, d) ← r;
  Ok (match s with Some _ => returned (data ++ d) | None => BASE64_BUFFER_OVERFLOW end, data ++ d).

Lemma decode_steps_fragment st db t max :
  decode_steps st db t max =
    f ← next_fragment t;
    match f with
    | None => Ok (Some (mkDecodeState st db), [])
    | Some (i, t') =>
        match fragment_bits st db i with
        | (st', None, db') => decode_steps st' db' t' max
        | (st', Some out, db') =>
            match max with O => Ok (None, []) | S max => prepend [char_of out] (decode_steps st' db' t' max) end
        end
    end.
Proof.
  induction t as [|c t IH]; [done|]. cbn [decode_steps next_fragment].
  destruct (decodeValue c) as [v| |]; [|done..]. cbn [mbind res_bind]. destruct (v <? 0); [apply IH|]. done.
Qed.

Lemma next_fragment_shorter t i t' : next_fragment t = Ok (Some (i, t')) -> (length t' < length t)%nat.
Proof.
  induction t as [|c t IH]; [done|]. cbn. destruct (decodeValue c) as [v| |]; [|done..]. cbn.
  destruct (v <? 0); [intros ?%IH; lia|]. intros [= _ ->]. lia.
Qed.

Lemma finish_prepend data d r : finish data (prepend d r) = finish (data ++ d) r.
Proof. destruct r as [[s d']| |]; cbn; by rewrite ?app_assoc. Qed.

Lemma decode_loop_steps fuel : forall t max data db,
  (length t < fuel)%nat -> decode_loop fuel t max data = finish data (decode_steps STEP_A db t max).
Proof.
  induction fuel as [|fuel IH]; intros t max data db Hf; [lia|]. cbn [decode_loop].
  rewrite decode_steps_fragment. destruct (next_fragment t) as [[[i1 t1]|]| |] eqn:E1; cbn [mbind res_bind];
    try by (cbn; rewrite ?app_nil_r).
  apply next_fragment_shorter in E1. cbn [fragment_bits].
  rewrite decode_steps_fragment. destruct (next_fragment t1) as [[[i2 t2]|]| |] eqn:E2; cbn [mbind res_bind];
    try by (cbn; rewrite ?app_nil_r).
  apply next_fragment_shorter in E2. cbn [fragment_bits].
  destruct max as [|max]; [cbn; by rewrite app_nil_r|]. destruct (Nat.ltb_spec (S max) 1); [lia|].
  rewrite finish_prepend.
  rewrite decode_steps_fragment. destruct (next_fragment t2) as [[[i3 t3]|]| |] eqn:E3; cbn [mbind res_bind];
    try by (cbn; rewrite ?app_nil_r).
  apply next_fragment_shorter in E3. cbn [fragment_bits].
  destruct max as [|max]; [cbn; by rewrite app_nil_r|]. destruct (Nat.ltb_spec (S (S max) - 1) 1); [lia|].
  rewrite finish_prepend.
  rewrite decode_steps_fragment. destruct (next_fragment t3) as [[[i4 t4]|]| |] eqn:E4; cbn [mbind res_bind];
    try by (cbn; rewrite ?app_nil_r).
  apply next_fragment_shorter in E4. cbn [fragment_bits].
  destruct max as [|max]; [cbn; by rewrite app_nil_r|]. destruct (Nat.ltb_spec (S (S (S max)) - 2) 1); [lia|].
  rewrite finish_prepend. replace (S (S (S max)) - 3)%nat with max by lia. apply IH. lia.
Qed.

Lemma base64_decode_steps t max : base64_decode t max = finish [] (decode_steps STEP_A 0 t max).
Proof. apply decode_loop_steps. lia. Qed.

(** ** Chunks *)

Lemma decode_steps_app t1 t2 : forall st db max st1 db1 d1,
  decode_steps st db t1 max = Ok (Some (mkDecodeState st1 db1), d1) ->
  decode_steps st db (t1 ++ t2) max = prepend d1 (decode_steps st1 db1 t2 (max - length d1)).
Proof.
  induction t1 as [|c t1 IH]; intros st db max st1 db1 d1; cbn [decode_steps app].
  { intros [= -> -> <-]. by rewrite prepend_nil, Nat.sub_0_r. }
  destruct (decodeValue c) as [v| |]; cbn [mbind res_bind]; [|done..]. destruct (v <? 0); [apply IH|].
  destruct (fragment_bits st db v) as [[st' [out|]] db']; [|apply IH]. destruct max as [|max]; [done|].
  destruct (decode_steps st' db' t1 max) as [[[[st2 db2]|] d2]| |] eqn:E; cbn [mbind res_bind]; [|done..].
  intros [= -> -> <-]. rewrite (IH _ _ _ _ _ _ E). cbn [length]. rewrite Nat.sub_succ.
  change (prepend [char_of out] (prepend d2 (decode_steps st1 db1 t2 (max - length d2))) =
    prepend (char_of out :: d2) (decode_steps st1 db1 t2 (max - length d2))). by rewrite prepend_app.
Qed.

(** What does not overflow does not depend on the size of the buffer. *)
Lemma decode_steps_max t : forall st db max s d max',
  decode_steps st db t max = Ok (Some s, d) -> (length d <= max')%nat ->
  decode_steps st db t max' = Ok (Some s, d) /\ (length d <= max)%nat.
Proof.
  induction t as [|c t IH]; intros st db max s d max'; cbn [decode_steps].
  { intros [= <- <-] _. split; [done|cbn; lia]. }
  destruct (decodeValue c) as [v| |]; cbn [mbind res_bind]; [|done..]. destruct (v <? 0); [apply IH|].
  destruct (fragment_bits st db v) as [[st' [out|]] db']; [|apply IH]. destruct max as [|max]; [done|].
  destruct (decode_steps st' db' t max) as [[s2 d2]| |] eqn:E; cbn [mbind res_bind]; [|done..].
  intros [= -> <-] Hm. destruct max' as [|max']; cbn [length] in *; [lia|].
  destruct (IH _ _ _ _ _ max' E ltac:(lia)) as [-> ?]. split; [done|lia].
Qed.

(** The bytes of a text are at most as many as its characters. *)
Lemma decode_steps_short t : forall st db max s d,
  decode_steps st db t max = Ok (s, d) -> (length d <= length t)%nat.
Proof.
  induction t as [|c t IH]; intros st db max s d; cbn [decode_steps length]; [by intros [= _ <-]|].
  destruct (decodeValue c) as [v| |]; cbn [mbind res_bind]; [|done..].
  destruct (v <? 0); [intros ?%IH; lia|]. destruct (fragment_bits st db v) as [[st' [out|]] db'].
  - destruct max as [|max]; [by intros [= _ <-]; cbn; lia|].
    destruct (decode_steps st' db' t max) as [[s2 d2]| |] eqn:E; cbn [mbind res_bind]; [|done..].
    intros [= _ <-]. apply IH in E. cbn. lia.
  - intros ?%IH. lia.
Qed.

(** Any division of a text, each part with a buffer of its own size. *)
Fixpoint decode_chunks (s : DecodeState) (chunks : list (list ascii)) : res (DecodeState * list ascii) :=
  match chunks with
  | [] => Ok (s, [])
  | c :: cs =>
      '(s, n, data) ← base64_decodeChunk s c (length c);
      _ ← check_that (0 <=? n) (Undefined "write of a negative size");
      '(s, more) ← decode_chunks s cs;
      Ok (s, take (Z.to_nat n) data ++ more)
  end.

Lemma decode_steps_split t1 t2 : forall st db max s d,
  decode_steps st db (t1 ++ t2) max = Ok (Some s, d) ->
  exists s1 d1 d2, decode_steps st db t1 max = Ok (Some s1, d1) /\
    decode_steps (step s1) (dataByte s1) t2 (max - length d1) = Ok (Some s, d2) /\ d = d1 ++ d2.
Proof.
  induction t1 as [|c t1 IH]; intros st db max s d; cbn [decode_steps app].
  { intros E. exists (mkDecodeState st db), [], d. by rewrite Nat.sub_0_r. }
  destruct (decodeValue c) as [v| |]; cbn [mbind res_bind]; [|done..]. destruct (v <? 0); [apply IH|].
  destruct (fragment_bits st db v) as [[st' [out|]] db']; [|apply IH]. destruct max as [|max]; [done|].
  destruct (decode_steps st' db' (t1 ++ t2) max) as [[s2 d2]| |] eqn:E; cbn [mbind res_bind]; [|done..].
  intros [= -> <-]. destruct (IH _ _ _ _ _ E) as (s1 & d1 & d3 & -> & E2 & ->).
  by exists s1, (char_of out :: d1), d3.
Qed.

Lemma decode_chunks_steps chunks : forall s max s' d,
  decode_steps (step s) (dataByte s) (concat chunks) max = Ok (Some s', d) ->
  Forall (fun c => Z.of_nat (length c) < 2 ^ 31) chunks ->
  decode_chunks s chunks = Ok (s', d).
Proof.
  induction chunks as [|c cs IH]; intros s max s' d Hs Hc; cbn [decode_chunks concat] in *.
  { cbn in Hs. injection Hs as <- <-. by destruct s. }
  apply Forall_cons in Hc as [Hc Hcs]. unfold base64_decodeChunk.
  destruct (decode_steps_split _ _ _ _ _ _ _ Hs) as (s1 & d1 & d2 & E1 & E2 & ->).
  pose proof (decode_steps_short _ _ _ _ _ _ E1) as Hl.
  destruct (decode_steps_max _ _ _ _ _ _ (length c) E1 Hl) as [-> _]. cbn [mbind res_bind].
  rewrite i32_small by lia. destruct (Z.leb_spec 0 (Z.of_nat (length d1))); [|lia]. cbn [check_that mbind res_bind].
  rewrite (IH _ _ _ _ E2 Hcs). cbn. by rewrite Nat2Z.id, take_ge by lia.
Qed.
