(* ===== verification/Base64Stream.v ===== *)
(** * Base64: strings and streams

    Models src/include/types/base64.hpp and src/libwolframe/base64.cpp: the encoding of a
    block to a string and the encoder and decoder of streams, which pass chunks through
    buffers of a fixed size.  The theorems of the codec are here. *)
From S2P Require Import Prelude Base64 Base64Encode Base64Decode.
From Stdlib Require Import ZifyNat.

(** ** Definitions *)

Definition LOCAL_BUFFERSIZE : nat := 512.

(** [output.write( encoded, codedSize)], a write of a negative size is undefined. *)
Definition write (output text : list ascii) (codedSize : Z) : res (list ascii) :=
  _ ← check_that (0 <=? codedSize) (Undefined "write of a negative size");
  Ok (output ++ take (Z.to_nat codedSize) text).

(** The last chunk and the end, behind the loop. *)
Definition encode_tail (state : EncodeState) (plain : list ascii) (max : Z) (output : list ascii)
    : res (EncodeState * list ascii) :=
  '(state, codedSize, encoded) ← base64_encodeChunk state plain max;
  output ← write output encoded codedSize;
  '(codedSize, encoded) ← base64_encodeEndChunk state max;
  output ← write output encoded codedSize;
  Ok (state, output).

Fixpoint encode_string_loop (fuel : nat) (state : EncodeState) (plain output : list ascii) : res (list ascii) :=
  match fuel with
  | O => OutOfFuel
  | S fuel' =>
      if (LOCAL_BUFFERSIZE <? length plain)%nat then
        '(state, codedSize, encoded) ←
          base64_encodeChunk state (take LOCAL_BUFFERSIZE plain) (2 * Z.of_nat LOCAL_BUFFERSIZE);
        output ← write output encoded codedSize;
        encode_string_loop fuel' state (drop LOCAL_BUFFERSIZE plain) output
      else
        '(_, output) ← encode_tail state plain (2 * Z.of_nat LOCAL_BUFFERSIZE) output;
        Ok output
  end.

Definition encode (memory : ascii * ascii * ascii) (data : list ascii) (lineLength : Z) : res (list ascii) :=
  encode_string_loop (S (length data)) (base64_initEncodeState memory lineLength) data [].

(** An input stream: reading less than it should sets its end and failure bits. *)
Record istream := mkIstream { is_rest : list ascii; is_good : bool }.

Definition read (n : nat) (input : istream) : istream * list ascii :=
  if is_good input then
    (mkIstream (drop n (is_rest input)) (n <=? length (is_rest input))%nat, take n (is_rest input))
  else (input, []).

Module Encoder.

Record t := mk { m_state : EncodeState; m_bufferSize : nat }.

Definition make (memory : ascii * ascii * ascii) (bufferSize : nat) (lineLength : Z) : t :=
  mk (base64_initEncodeState memory lineLength) bufferSize.

Fixpoint encode_loop (fuel bufferSize : nat) (state : EncodeState) (input : istream) (output : list ascii)
    : res (EncodeState * list ascii) :=
  match fuel with
  | O => OutOfFuel
  | S fuel' =>
      let '(input, plain) := read bufferSize input in
      '(state, codedSize, encoded) ← base64_encodeChunk state plain (2 * Z.of_nat bufferSize);
      output ← write output encoded codedSize;
      if is_good input && (0 <? i32 (Z.of_nat (length plain))) then
        encode_loop fuel' bufferSize state input output
      else Ok (state, output)
  end.

Definition encode (e : t) (input : istream) (output : list ascii) : res (t * list ascii) :=
  let max := 2 * Z.of_nat (m_bufferSize e) in
  '(state, output) ← encode_loop (S (length (is_rest input))) (m_bufferSize e) (m_state e) input output;
  '(codedSize, encoded) ← base64_encodeEndChunk state max;
  output ← write output encoded codedSize;
  Ok (mk (base64_resetEncodeState state) (m_bufferSize e), output).

End Encoder.

Module Decoder.

Record t := mk { m_state : DecodeState; m_bufferSize : nat }.

Definition make (bufferSize : nat) : t := mk base64_initDecodeState bufferSize.

Fixpoint decode_loop (fuel bufferSize : nat) (state : DecodeState) (input : istream) (output : list ascii)
    : res (list ascii) :=
  match fuel with
  | O => OutOfFuel
  | S fuel' =>
      let '(input, encoded) := read bufferSize input in
      '(state, dataSize, data) ← base64_decodeChunk state encoded bufferSize;
      output ← write output data dataSize;
      if is_good input && (0 <? i32 (Z.of_nat (length encoded))) then
        decode_loop fuel' bufferSize state input output
      else Ok output
  end.

Definition decode (d : t) (input : istream) (output : list ascii) : res (t * list ascii) :=
  output ← decode_loop (S (length (is_rest input))) (m_bufferSize d) (m_state d) input output;
  Ok (mk base64_initDecodeState (m_bufferSize d), output).

End Decoder.

(** ** Calls of the encoder *)

Lemma init_valid memory l : 0 <= l < 65536 -> valid (base64_initEncodeState memory l).
Proof.
  intros Hl. pose proof (correctedLineLength_ok l Hl) as HL. constructor; cbn; [done|lia| |done].
  destruct HL as [?|[? ?]]; [by left|right; split; [lia|done]].
Qed.

Lemma init_future memory l d :
  future (base64_initEncodeState memory l) d = layout (correctedLineLength l) 0 (quads d).
Proof. unfold future, carried. by destruct memory as [[? ?] ?]. Qed.

(** The text of a chunk is short: at most five characters for three bytes. *)
Lemma chunk_size_bound s (data : list ascii) :
  valid s -> Z.of_nat (length data) < 2 ^ 30 ->
  0 <= base64_encodedChunkSize s (Z.of_nat (length data)) <= 5 * ((Z.of_nat (length data) + 4) / 3).
Proof.
  intros Hv Hd. rewrite <- write_chunk_size by done.
  pose proof (write_chunk_future s data Hv) as Hf. destruct (write_chunk s data) as [s' output].
  destruct Hf as (_ & _ & Hf). specialize (Hf []). rewrite app_nil_r in Hf. cbn [snd].
  apply (f_equal length) in Hf. rewrite length_app in Hf. unfold future at 1 in Hf.
  pose proof (layout_bound (lineLength s) (quads (carried s ++ data)) (lineSize s) (quads_four _)) as Hb.
  pose proof (length_quads (carried s ++ data)) as Hq. pose proof (v_left s Hv) as Hl.
  rewrite length_app, length_carried in Hq by done. lia.
Qed.

Lemma encodeChunk_writes s data max :
  valid s -> Z.of_nat (length data) < 2 ^ 30 -> base64_encodedChunkSize s (Z.of_nat (length data)) <= max ->
  exists s' output, base64_encodeChunk s data max = Ok (s', Z.of_nat (length output), output) /\
    Z.of_nat (length output) = base64_encodedChunkSize s (Z.of_nat (length data)) /\
    valid s' /\ lineLength s' = lineLength s /\ forall more, future s (data ++ more) = output ++ future s' more.
Proof.
  intros Hv Hd Hm. pose proof (write_chunk_future s data Hv) as Hf. pose proof (write_chunk_size s data Hv Hd) as Hs.
  pose proof (chunk_size_bound s data Hv Hd) as Hb. unfold base64_encodeChunk.
  destruct (Z.ltb_spec max (base64_encodedChunkSize s (Z.of_nat (length data)))); [lia|].
  destruct (write_chunk s data) as [s' output]. cbn [snd] in Hs. destruct Hf as (Hv' & HL & Hf).
  exists s', output. rewrite <- Hs, Z.eqb_refl. cbn [check_that mbind res_bind].
  rewrite i32_small by lia. split_and!; auto; lia.
Qed.

Lemma encodeEndBytes_short d : (length d < 3)%nat -> encodeEndBytes d = Ok (end_text d).
Proof. intros Hd. destruct d as [|a [|b [|c d]]]; cbn in Hd; (done || lia). Qed.

Lemma encodeEndChunk_writes s max :
  valid s -> 6 <= max ->
  base64_encodeEndChunk s max = Ok (Z.of_nat (length (future s [])), future s [] ++ [NUL]).
Proof.
  intros Hv Hm. pose proof (length_future_nil s Hv) as Hl. destruct Hv as [HL Hle Hs Hp]. unfold base64_encodeEndChunk.
  destruct (Nat.eqb_spec (bytesLeft s) 0) as [E|E]; cbn [negb].
  - destruct (Z.ltb_spec max 1); [lia|]. destruct (future s []); [done|cbn in Hl; lia].
  - assert (newLinePending s = false) as Hnp by (destruct (newLinePending s); [by destruct Hp|done]). rewrite Hnp in *.
    destruct (Z.ltb_spec max 5); [lia|]. pose proof (length_carried s Hle) as Hc.
    rewrite encodeEndBytes_short by lia. cbn [mbind res_bind]. rewrite Hl. change (Z.of_nat 4) with 4.
    assert (future s [] = end_text (carried s)) as ->; [|done]. unfold future. rewrite app_nil_r.
    assert (quads (carried s) = [end_text (carried s)]) as ->.
    { destruct (carried s) as [|a [|b [|c d]]]; cbn in Hc; (done || lia). }
    rewrite layout_room by (destruct Hs; [by left|right; lia]). cbn. apply app_nil_r.
Qed.

Lemma write_all output text : write output text (Z.of_nat (length text)) = Ok (output ++ text).
Proof.
  unfold write. destruct (Z.leb_spec 0 (Z.of_nat (length text))); [|lia]. cbn.
  by rewrite Nat2Z.id, firstn_all.
Qed.

Lemma write_prefix output text n tail : n = Z.of_nat (length text) -> write output (text ++ tail) n = Ok (output ++ text).
Proof.
  intros ->. unfold write. destruct (Z.leb_spec 0 (Z.of_nat (length text))); [|lia]. cbn.
  by rewrite Nat2Z.id, take_app_length.
Qed.

Lemma concat_lengths (cs : list (list ascii)) : Forall (fun c => length c <= length (concat cs))%nat cs.
Proof.
  induction cs as [|c cs IH]; constructor; cbn; rewrite length_app; [lia|].
  eapply Forall_impl; [exact IH|]. cbn. lia.
Qed.

(** A sequence of chunks, each with a buffer of the size computed in advance. *)
Fixpoint encode_chunks (s : EncodeState) (chunks : list (list ascii)) : res (list ascii) :=
  match chunks with
  | [] => '(n, text) ← base64_encodeEndChunk s 6; write [] text n
  | c :: cs =>
      '(s, n, text) ← base64_encodeChunk s c (base64_encodedChunkSize s (Z.of_nat (length c)));
      out ← write [] text n;
      more ← encode_chunks s cs;
      Ok (out ++ more)
  end.

Lemma encode_chunks_future chunks : forall s,
  valid s -> Forall (fun c => Z.of_nat (length c) < 2 ^ 30) chunks ->
  encode_chunks s chunks = Ok (future s (concat chunks)).
Proof.
  induction chunks as [|c cs IH]; intros s Hv Hc; cbn [encode_chunks concat].
  { rewrite encodeEndChunk_writes by (done || lia). cbn [mbind res_bind]. by rewrite write_prefix. }
  apply Forall_cons in Hc as [Hc Hcs].
  destruct (encodeChunk_writes s c (base64_encodedChunkSize s (Z.of_nat (length c))) Hv Hc)
    as (s' & output & -> & _ & Hv' & _ & Hf); [lia|].
  cbn [mbind res_bind]. rewrite write_all. cbn [mbind res_bind]. rewrite IH by done. cbn [mbind res_bind].
  by rewrite Hf.
Qed.

Lemma encode_string_future fuel : forall s plain output,
  valid s -> (length plain < fuel)%nat -> encode_string_loop fuel s plain output = Ok (output ++ future s plain).
Proof.
  induction fuel as [|fuel IH]; intros s plain output Hv Hf; [lia|]. cbn [encode_string_loop].
  assert (forall d : list ascii, (length d <= LOCAL_BUFFERSIZE)%nat ->
    Z.of_nat (length d) < 2 ^ 30 /\ base64_encodedChunkSize s (Z.of_nat (length d)) <= 2 * Z.of_nat LOCAL_BUFFERSIZE) as Hb.
  { intros d Hd. unfold LOCAL_BUFFERSIZE in *. pose proof (chunk_size_bound s d Hv). split; lia. }
  destruct (Nat.ltb_spec LOCAL_BUFFERSIZE (length plain)) as [H|H].
  - assert (length (take LOCAL_BUFFERSIZE plain) <= LOCAL_BUFFERSIZE)%nat as Hl by (rewrite length_take; lia).
    destruct (encodeChunk_writes s _ _ Hv (proj1 (Hb _ Hl)) (proj2 (Hb _ Hl))) as (s' & t & -> & _ & Hv' & _ & Hfut).
    cbn [mbind res_bind]. rewrite write_all. cbn [mbind res_bind].
    rewrite IH by (try done; rewrite length_drop; unfold LOCAL_BUFFERSIZE in *; lia).
    by rewrite <- app_assoc, <- Hfut, take_drop.
  - unfold encode_tail.
    destruct (encodeChunk_writes s _ _ Hv (proj1 (Hb _ H)) (proj2 (Hb _ H))) as (s' & t & -> & _ & Hv' & _ & Hfut).
    cbn [mbind res_bind]. rewrite write_all. cbn [mbind res_bind].
    rewrite encodeEndChunk_writes by (done || (unfold LOCAL_BUFFERSIZE; lia)). cbn [mbind res_bind].
    rewrite write_prefix by done. cbn [mbind res_bind]. specialize (Hfut []). rewrite app_nil_r in Hfut.
    by rewrite Hfut, app_assoc.
Qed.

(** ** Streams *)

Definition string_stream (text : list ascii) : istream := mkIstream text true.

Lemma read_good b text : read b (string_stream text) = (mkIstream (drop b text) (b <=? length text)%nat, take b text).
Proof. done. Qed.

Lemma encoder_loop_future b fuel : forall s text output,
  valid s -> (20 <= b)%nat -> Z.of_nat b < 2 ^ 30 -> (length text < fuel)%nat ->
  exists s' out, Encoder.encode_loop fuel b s (string_stream text) output = Ok (s', output ++ out) /\
    valid s' /\ lineLength s' = lineLength s /\ future s text = out ++ future s' [].
Proof.
  induction fuel as [|fuel IH]; intros s text output Hv Hb Hb30 Hf; [lia|]. cbn [Encoder.encode_loop].
  rewrite read_good. assert (length (take b text) <= b)%nat as Hl by (rewrite length_take; lia).
  pose proof (chunk_size_bound s (take b text) Hv ltac:(lia)) as Hsize.
  destruct (encodeChunk_writes s (take b text) (2 * Z.of_nat b) Hv) as (s1 & t & -> & _ & Hv1 & HL1 & Hfut); [lia..|].
  cbn [mbind res_bind]. rewrite write_all. cbn [mbind res_bind is_good]. rewrite i32_small by lia.
  destruct (Nat.leb_spec b (length text)) as [H|H]; cbn [andb].
  - rewrite length_take, Nat.min_l by lia. rewrite (proj2 (Z.ltb_lt _ _)) by lia.
    replace (mkIstream (drop b text) true) with (string_stream (drop b text)) by done.
    destruct (IH s1 (drop b text) (output ++ t) Hv1 Hb Hb30) as (s2 & out & -> & Hv2 & HL2 & Hfut2);
      [rewrite length_drop; lia|].
    exists s2, (t ++ out). rewrite app_assoc. split_and!; auto; [congruence|].
    specialize (Hfut (drop b text)). rewrite take_drop in Hfut. by rewrite Hfut, Hfut2, app_assoc.
  - exists s1, t. split_and!; auto. specialize (Hfut []). rewrite app_nil_r, take_ge in Hfut by lia. done.
Qed.

Lemma reset_valid s : valid s -> valid (base64_resetEncodeState s).
Proof.
  intros [HL _ _ _]. constructor; cbn; [done|lia| |done].
  destruct HL as [?|[? ?]]; [by left|right; split; [lia|done]].
Qed.

Lemma reset_future s d : future (base64_resetEncodeState s) d = layout (lineLength s) 0 (quads d).
Proof. unfold future, carried. cbn. by destruct (carryBytes s) as [[? ?] ?]. Qed.

Lemma encoder_future e text output :
  valid (Encoder.m_state e) -> (20 <= Encoder.m_bufferSize e)%nat -> Z.of_nat (Encoder.m_bufferSize e) < 2 ^ 30 ->
  exists e', Encoder.encode e (string_stream text) output = Ok (e', output ++ future (Encoder.m_state e) text) /\
    valid (Encoder.m_state e') /\ Encoder.m_bufferSize e' = Encoder.m_bufferSize e /\
    forall d, future (Encoder.m_state e') d = layout (lineLength (Encoder.m_state e)) 0 (quads d).
Proof.
  intros Hv Hb Hb30. unfold Encoder.encode.
  destruct (encoder_loop_future _ _ _ text output Hv Hb Hb30 (Nat.lt_succ_diag_r _)) as (s' & out & E & Hv' & HL & Hf).
  cbn [is_rest string_stream]. rewrite E. cbn [mbind res_bind]. rewrite encodeEndChunk_writes by (done || lia).
  cbn [mbind res_bind]. rewrite write_prefix by done. cbn [mbind res_bind]. eexists. split_and!.
  - by rewrite <- app_assoc, Hf.
  - by apply reset_valid.
  - done.
  - intros d. cbn. by rewrite reset_future, HL.
Qed.

Lemma decoder_loop_steps b fuel : forall s text output max s' d,
  (0 < b)%nat -> Z.of_nat b < 2 ^ 31 -> (length text < fuel)%nat ->
  decode_steps (step s) (dataByte s) text max = Ok (Some s', d) ->
  Decoder.decode_loop fuel b s (string_stream text) output = Ok (output ++ d).
Proof.
  induction fuel as [|fuel IH]; intros s text output max s' d Hb Hb31 Hf Hs; [lia|]. cbn [Decoder.decode_loop].
  rewrite read_good. assert (length (take b text) <= b)%nat as Hl by (rewrite length_take; lia).
  rewrite <- (take_drop b text) in Hs. destruct (decode_steps_split _ _ _ _ _ _ _ Hs) as (s1 & d1 & d2 & E1 & E2 & ->).
  pose proof (decode_steps_short _ _ _ _ _ _ E1) as Hd1. unfold base64_decodeChunk.
  destruct (decode_steps_max _ _ _ _ _ _ b E1 ltac:(lia)) as [-> _]. cbn [mbind res_bind].
  rewrite !i32_small by lia. rewrite write_all. cbn [mbind res_bind is_good].
  destruct (Nat.leb_spec b (length text)) as [H|H]; cbn [andb].
  - rewrite length_take, Nat.min_l by lia. rewrite (proj2 (Z.ltb_lt _ _)) by lia.
    replace (mkIstream (drop b text) true) with (string_stream (drop b text)) by done.
    assert (length (drop b text) < fuel)%nat as Hlt by (rewrite length_drop; lia).
    by rewrite (IH _ _ _ _ _ _ Hb Hb31 Hlt E2), app_assoc.
  - rewrite drop_ge in E2 by lia. cbn in E2. injection E2 as _ <-. by rewrite app_nil_r.
Qed.

(** ** The codec *)

(** A buffer that is too small gets the first bytes. *)
Lemma decode_steps_overflow t : forall st db max s d max',
  decode_steps st db t max = Ok (Some s, d) -> (max' < length d)%nat ->
  decode_steps st db t max' = Ok (None, take max' d).
Proof.
  induction t as [|c t IH]; intros st db max s d max'; cbn [decode_steps].
  { intros [= _ <-]. cbn. lia. }
  destruct (decodeValue c) as [v| |]; cbn [mbind res_bind]; [|done..]. destruct (v <? 0); [apply IH|].
  destruct (fragment_bits st db v) as [[st' [out|]] db']; [|apply IH]. destruct max as [|max]; [done|].
  destruct (decode_steps st' db' t max) as [[s2 d2]| |] eqn:E; cbn [mbind res_bind]; [|done..].
  intros [= -> <-] Hm. destruct max' as [|max']; [done|]. cbn [length] in Hm.
  by rewrite (IH _ _ _ _ _ max' E ltac:(lia)).
Qed.

Lemma decodeValue_undefined c : 128 <= byte c -> decodeValue c = Throw (Undefined "read in front of decodeTable").
Proof.
  intros Hc. unfold decodeValue. pose proof (byte_range c). unfold swrap.
  replace (2 ^ (8 - 1)) with 128 by done. replace (2 ^ 8) with 256 by done.
  rewrite <- (Z.mod_unique_pos _ 256 1 (byte c - 128)) by lia. by rewrite (proj2 (Z.ltb_lt _ _)) by lia.
Qed.

(** C15. Encoding.  The text is the sequence of the groups of four characters of the data
    in lines of the given length, which is rounded to a multiple of four.  The function for
    a block writes it if it fits, with a final zero, and returns a negative number
    otherwise; the size is the one computed in advance.  Chunks, however the data are
    divided, give the same text, each in a buffer of the size computed in advance, and so do
    the functions for strings and for streams, whose encoder can be used again.  With a tiny
    buffer the encoder of streams writes a block of negative size. *)
Theorem base64_text :
  (forall memory l chunks max,
     0 <= l < 65536 -> Z.of_nat (length (concat chunks)) < 2 ^ 30 ->
     let data := concat chunks in
     let text := layout (correctedLineLength l) 0 (quads data) in
     base64_encodedSize (Z.of_nat (length data)) l = Z.of_nat (length text) /\
     base64_encode data max l =
       Ok (if max <=? Z.of_nat (length text) then (BASE64_BUFFER_OVERFLOW, [])
           else (Z.of_nat (length text), text ++ [NUL])) /\
     encode_chunks (base64_initEncodeState memory l) chunks = Ok text /\
     encode memory data l = Ok text /\
     (forall b output, (20 <= b)%nat -> Z.of_nat b < 2 ^ 30 ->
        exists e, Encoder.encode (Encoder.make memory b l) (string_stream data) output = Ok (e, output ++ text) /\
          forall data' output', exists e', Encoder.encode e (string_stream data') output' =
            Ok (e', output' ++ layout (correctedLineLength l) 0 (quads data')))) /\
  (forall l, 2 <= l < 65534 -> correctedLineLength l mod 4 = 0 /\ l - 2 < correctedLineLength l <= l + 2) /\
  correctedLineLength 65534 = 4 /\
  (forall memory, Encoder.encode (Encoder.make memory 1 0) (string_stream ["a"; "b"; "c"]%char) [] =
     Throw (Undefined "write of a negative size")).
Proof.
  split; [|split; [|split; [done|]]].
  - intros memory l chunks max Hl Hlen data text. destruct (encode_block data max l Hl Hlen) as [Hsize Henc].
    pose proof (init_valid memory l Hl) as Hv. pose proof (init_future memory l data) as Hf. fold text in Hf.
    split_and!; [done|done| | |].
    + rewrite encode_chunks_future, <- Hf; [done|done|]. eapply Forall_impl; [apply concat_lengths|].
      cbn. unfold data in Hlen. lia.
    + unfold encode. rewrite encode_string_future by (done || lia). by rewrite Hf.
    + intros b output Hb Hb30. destruct (encoder_future (Encoder.make memory b l) data output Hv Hb Hb30)
        as (e & -> & He & Heb & Hef). exists e. change (Encoder.m_state _) with (base64_initEncodeState memory l) at 1.
      rewrite Hf. split; [done|]. intros data' output'.
      destruct (encoder_future e data' output' He) as (e' & -> & _); [by rewrite Heb..|]. exists e'. by rewrite Hef.
  - intros l Hl. unfold correctedLineLength. destruct (Z.eqb_spec l 0); [lia|]. rewrite wrap_small by lia.
    destruct (Z.eqb_spec ((l + 2) / 4 * 4) 0); lia.
  - by intros [[? ?] ?].
Qed.

Lemma base64_text_witness :
  let data := concat [["a"; "b"]; []; ["c"; "d"]]%char in
  base64_encodedSize (Z.of_nat (length data)) 4 = 9 /\
  base64_encode data 10 4 = Ok (9, String.list_ascii_of_string "YWJj" ++ NL :: String.list_ascii_of_string "ZA==" ++ [NUL]) /\
  encode_chunks (base64_initEncodeState ("x", "y", "z")%char 4) [["a"; "b"]; []; ["c"; "d"]]%char =
    Ok (String.list_ascii_of_string "YWJj" ++ NL :: String.list_ascii_of_string "ZA==").
Proof.
  destruct (proj1 base64_text ("x", "y", "z")%char 4 [["a"; "b"]; []; ["c"; "d"]]%char 10 ltac:(lia) ltac:(cbn; lia))
    as (H1 & H2 & H3 & _).
  split_and!; [exact H1|exact H2|exact H3].
Defined.

(** C14. Decoding.  What was encoded is decoded again, by the function for a block, in
    chunks of any size and from a stream; a buffer that is too small gets the first bytes
    and the function returns a negative number.  The function for a block computes what the
    state machine does on any text.  A character that is not ASCII reads in front of the
    table. *)
Theorem base64_roundtrip :
  (forall data max l n text,
     0 <= l < 65536 -> Z.of_nat (length data) < 2 ^ 30 ->
     base64_encode data max l = Ok (n, text) -> 0 <= n ->
     let encoded := take (Z.to_nat n) text in
     text = encoded ++ [NUL] /\
     (forall dataMaxSize, base64_decode encoded dataMaxSize =
        Ok (if (dataMaxSize <? length data)%nat then (BASE64_BUFFER_OVERFLOW, take dataMaxSize data)
            else (Z.of_nat (length data), data))) /\
     (forall chunks, concat chunks = encoded ->
        exists s, decode_chunks base64_initDecodeState chunks = Ok (s, data)) /\
     (forall b output, (0 < b)%nat -> Z.of_nat b < 2 ^ 31 ->
        Decoder.decode (Decoder.make b) (string_stream encoded) output = Ok (Decoder.make b, output ++ data))) /\
  (forall t max, base64_decode t max = finish [] (decode_steps STEP_A 0 t max)) /\
  (forall c t max, 128 <= byte c -> base64_decode (c :: t) max = Throw (Undefined "read in front of decodeTable")).
Proof.
  split; [|split; [apply base64_decode_steps|]].
  - intros data max l n text Hl Hlen Henc Hn. destruct (encode_block data max l Hl Hlen) as [_ E].
    rewrite E in Henc. set (t := layout _ 0 (quads data)) in *. destruct (Z.leb_spec max (Z.of_nat (length t))).
    { injection Henc as <- <-. done. }
    injection Henc as <- <-. rewrite Nat2Z.id, take_app_length.
    destruct (decode_layout (correctedLineLength l) data 0 0 0) as (st & db & Hd). fold t in Hd. rewrite Nat.add_0_r in Hd.
    split_and!; [done| | |].
    + intros m. rewrite base64_decode_steps. destruct (Nat.ltb_spec m (length data)).
      * by rewrite (decode_steps_overflow _ _ _ _ _ _ _ Hd).
      * destruct (decode_steps_max _ _ _ _ _ _ m Hd) as [-> _]; [lia|]. cbn. unfold returned.
        by rewrite i32_small by lia.
    + intros chunks Hc. eexists. eapply decode_chunks_steps; [rewrite Hc; exact Hd|].
      pose proof (layout_bound (correctedLineLength l) (quads data) 0 (quads_four _)) as Hb. fold t in Hb.
      pose proof (length_quads data). eapply Forall_impl; [apply concat_lengths|]. rewrite Hc. cbn. lia.
    + intros b output Hb Hb31. unfold Decoder.decode. cbn [string_stream is_rest Decoder.make Decoder.m_state Decoder.m_bufferSize].
      by rewrite (decoder_loop_steps b _ base64_initDecodeState t output _ _ _ Hb Hb31 (Nat.lt_succ_diag_r _) Hd).
  - intros c t max Hc. rewrite base64_decode_steps. cbn [decode_steps]. by rewrite decodeValue_undefined.
Qed.

Lemma base64_roundtrip_witness :
  base64_encode ["200"; "a"; "000"; "255"]%char 20 4 =
    Ok (9, String.list_ascii_of_string "yGEA" ++ NL :: String.list_ascii_of_string "/w==" ++ [NUL]) /\
  base64_decode (String.list_ascii_of_string "yGEA" ++ NL :: String.list_ascii_of_string "/w==") 4 =
    Ok (4, ["200"; "a"; "000"; "255"]%char) /\
  base64_decode ["200"]%char 4 = Throw (Undefined "read in front of decodeTable").
Proof.
  split; [vm_compute; reflexivity|].
  destruct (proj1 base64_roundtrip ["200"; "a"; "000"; "255"]%char 20 4 9
    (String.list_ascii_of_string "yGEA" ++ NL :: String.list_ascii_of_string "/w==" ++ [NUL])
    ltac:(lia) ltac:(cbn; lia) ltac:(vm_compute; reflexivity) ltac:(lia)) as (_ & H & _).
  split; [exact (H 4%nat)|]. apply (proj2 (proj2 base64_roundtrip)). vm_compute. discriminate.
Defined.
