(* ===== verification/Hex.v ===== *)
(** * Hexadecimal strings

    Models src/include/types/byte2hex.h and src/libwolframe/byte2hex.c: the conversion of a
    block of bytes to a string of hexadecimal digits and back.

    The output buffer of [hex2byte] is a list of its characters; a write outside of it is
    [Undefined].  Strings are given without their final zero. *)
From S2P Require Import Prelude IoBlocks Base64 Base64Decode.
From Stdlib Require Import ZifyNat.

(** ** Definitions *)

Definition hexDigit : list ascii := String.list_ascii_of_string "0123456789ABCDEF".
Definition hex_digit (i : Z) : ascii := nth (Z.to_nat i) hexDigit NUL.

Definition hDigit2byte (hex : ascii) : Z :=
  match hex with
  | "0" => 0 | "1" => 1 | "2" => 2 | "3" => 3 | "4" => 4 | "5" => 5 | "6" => 6 | "7" => 7
  | "8" => 8 | "9" => 9 | "A" => 10 | "B" => 11 | "C" => 12 | "D" => 13 | "E" => 14 | "F" => 15
  | _ => 0
  end%char.

(** ctype.h in the C locale; the functions are defined for characters that are not negative
    as an int. *)
Definition between (lo c hi : ascii) : bool := (byte lo <=? byte c) && (byte c <=? byte hi).
Definition ctype {A} (f : ascii -> A) (c : ascii) : res A :=
  if byte c <? 128 then Ok (f c) else Throw (Undefined "negative character").
Definition isxdigit_char (c : ascii) : bool := between "0" c "9" || between "A" c "F" || between "a" c "f".
Definition isxdigit : ascii -> res bool := ctype isxdigit_char.
Definition isspace_char (c : ascii) : bool := between "009" c "013" || (c =? " ")%char.
Definition isspace : ascii -> res bool := ctype isspace_char.
Definition toupper_char (c : ascii) : ascii := if between "a" c "z" then char_of (byte c - 32) else c.
Definition toupper : ascii -> res ascii := ctype toupper_char.

Definition byte2hex (data : list ascii) (outSize : Z) : Z * list ascii :=
  if outSize <? u64 (2 * Z.of_nat (length data) + 1) then (-1, [])
  else
    let p := concat (map (fun c => [hex_digit (Z.shiftr (byte c) 4); hex_digit (Z.land (byte c) 15)]) data) in
    (i32 (Z.of_nat (length p)), p ++ [NUL]).

(** The number of digits; [None] for a character that is neither digit nor space. *)
Fixpoint count_digits (inStr : list ascii) (len : nat) : res (option nat) :=
  match inStr with
  | [] => Ok (Some len)
  | c :: inStr =>
      x ← isxdigit c;
      if x : bool then count_digits inStr (len + 1)
      else
        s ← isspace c;
        if s : bool then count_digits inStr len else Ok None
  end.

(** The second loop; [data] is the position in the output. *)
Fixpoint convert (hexStr : list ascii) (len data : nat) (outData : list ascii) : res (nat * list ascii) :=
  match hexStr with
  | [] => Ok (data, outData)
  | c :: hexStr =>
      x ← isxdigit c;
      if x : bool then
        u ← toupper c;
        if (len mod 2 =? 1)%nat then
          old ← Mem.load outData data;
          outData ← Mem.store outData data (char_of (Z.lor (byte old) (hDigit2byte u)));
          convert hexStr (len - 1) (data + 1) outData
        else
          outData ← Mem.store outData data (char_of (Z.shiftl (hDigit2byte u) 4));
          convert hexStr (len - 1) data outData
      else convert hexStr len data outData
  end.

Definition hex2byte (hexStr outData : list ascii) : res (Z * list ascii) :=
  let outSize := length outData in
  if (outSize =? 0)%nat then Ok (-1, outData)
  else
    outData ← Mem.store outData 0 NUL;
    len ← count_digits hexStr 0;
    match len with
    | None => Ok (-2, outData)
    | Some len =>
        if u64 (Z.of_nat outSize * 2) <? Z.of_nat len then Ok (-1, outData)
        else
          '(data, outData) ← convert hexStr len 0 outData;
          Ok (i32 (Z.of_nat data), outData)
    end.

(** ** The bytes of a string *)

(** The values of the digits. *)
Definition digits (text : list ascii) : list Z :=
  map (fun c => hDigit2byte (toupper_char c)) (filter (fun c => isxdigit_char c = true) text).

(** Two digits are a byte; the first digit of an odd number of them is one for itself. *)
Fixpoint pair_up (ds : list Z) : list ascii :=
  match ds with
  | hi :: lo :: ds' => char_of (hi * 16 + lo) :: pair_up ds'
  | _ => []
  end.
Definition bytes_of (ds : list Z) : list ascii :=
  pair_up (if (length ds mod 2 =? 1)%nat then 0 :: ds else ds).

Definition plain (text : list ascii) : Prop := Forall (fun c => byte c < 128) text.
Definition hex_text (text : list ascii) : Prop :=
  Forall (fun c => isxdigit_char c = true \/ isspace_char c = true) text.

Lemma hex_digit_range c : 0 <= hDigit2byte (toupper_char c) < 16.
Proof.
  assert (forall c, bool_decide (0 <= hDigit2byte (toupper_char c) < 16) = true) as H
    by (apply all_bytes_forall; vm_compute; reflexivity).
  specialize (H c). by apply bool_decide_eq_true_1 in H.
Qed.

Lemma hex_char c : isxdigit_char c = true \/ isspace_char c = true -> byte c < 128.
Proof.
  assert (forall c, (isxdigit_char c || isspace_char c) && negb (byte c <? 128) = false) as H.
  { intros d. apply negb_true_iff. revert d. apply all_bytes_forall. vm_compute. reflexivity. }
  specialize (H c). intros Hc. destruct (Z.ltb_spec (byte c) 128); [done|].
  destruct Hc as [E|E]; rewrite E, ?orb_true_r in H; done.
Qed.

Lemma ctype_plain {A} (f : ascii -> A) c : byte c < 128 -> ctype f c = Ok (f c).
Proof. intros H. unfold ctype. by rewrite (proj2 (Z.ltb_lt _ _)). Qed.

Lemma count_digits_ok text : forall n,
  hex_text text -> count_digits text n = Ok (Some (n + length (digits text))%nat).
Proof.
  induction text as [|c text IH]; intros n Ht; cbn [count_digits]; [by rewrite Nat.add_0_r|].
  apply Forall_cons in Ht as [Hc Ht]. unfold isxdigit, isspace. rewrite !ctype_plain by (by apply hex_char).
  cbn [mbind res_bind]. unfold digits. rewrite filter_cons. destruct (isxdigit_char c) eqn:E.
  - rewrite decide_True by done. cbn. rewrite IH by done. unfold digits. f_equal. f_equal. lia.
  - rewrite decide_False by done. destruct Hc as [?|Hc]; [done|]. rewrite Hc. by apply IH.
Qed.

(** A character of another kind is an error, whatever follows. *)
Lemma count_digits_bad text c rest : forall n,
  hex_text text -> byte c < 128 -> isxdigit_char c = false -> isspace_char c = false ->
  count_digits (text ++ c :: rest) n = Ok None.
Proof.
  induction text as [|d text IH]; intros n Ht Hc Hx Hs; cbn [app count_digits].
  - unfold isxdigit, isspace. by rewrite !ctype_plain, Hx, Hs by done.
  - apply Forall_cons in Ht as [Hd Ht]. unfold isxdigit, isspace. rewrite !ctype_plain by (by apply hex_char).
    cbn [mbind res_bind]. destruct (isxdigit_char d); [by apply IH|]. destruct Hd as [?|Hd]; [done|].
    rewrite Hd. by apply IH.
Qed.

Lemma byte_char_of z : 0 <= z < 256 -> byte (char_of z) = z.
Proof.
  intros Hz. unfold char_of. rewrite wrap_small by done. unfold byte. rewrite N_ascii_embedding by lia. lia.
Qed.

(** [w] written at position [k]. *)
Definition splice (k : nat) (w buf : list ascii) : list ascii := take k buf ++ w ++ drop (k + length w) buf.

Lemma splice_nil k buf : splice k [] buf = buf.
Proof. unfold splice. rewrite Nat.add_0_r. apply take_drop. Qed.

Lemma splice_cons k b w buf : (k < length buf)%nat -> splice k (b :: w) buf = splice (k + 1) w (<[k := b]> buf).
Proof.
  intros Hk. unfold splice. rewrite Nat.add_1_r, (take_S_r _ _ b) by (by apply list_lookup_insert_eq).
  rewrite take_insert_ge, drop_insert_lt, <- app_assoc by lia. cbn [length]. by rewrite Nat.add_succ_comm.
Qed.

Lemma splice_over k b b' w buf : (k < length buf)%nat -> splice k (b :: w) (<[k := b']> buf) = splice k (b :: w) buf.
Proof. intros Hk. rewrite !splice_cons by (by rewrite ?length_insert). by rewrite list_insert_insert_eq. Qed.

Lemma store_ok buf k c : (k < length buf)%nat -> Mem.store buf k c = Ok (<[k := c]> buf).
Proof. intros Hk. unfold Mem.store. by rewrite (proj2 (Nat.ltb_lt _ _)). Qed.

Lemma nibbles hi lo : 0 <= hi < 16 -> 0 <= lo < 16 ->
  char_of (Z.lor (byte (char_of (Z.shiftl hi 4))) lo) = char_of (hi * 16 + lo).
Proof.
  intros Hh Hl. rewrite Z.shiftl_mul_pow2 by lia. rewrite byte_char_of by lia. f_equal.
  rewrite Z.lor_comm, lor_high_low by lia. change (2 ^ 4) with 16. lia.
Qed.

(** The second digit of a byte, the first one being in the buffer. *)
Definition or_first (x : ascii) (ds : list Z) : list ascii :=
  match ds with lo :: ds => char_of (Z.lor (byte x) lo) :: pair_up ds | [] => [] end.

Lemma convert_digits text : forall len k buf,
  hex_text text -> length (digits text) = len -> ((0 < len)%nat -> k + (len + 1) / 2 <= length buf)%nat ->
  ((len mod 2 = 0)%nat -> convert text len k buf = Ok ((k + len / 2)%nat, splice k (pair_up (digits text)) buf)) /\
  ((len mod 2 = 1)%nat -> forall x, buf !! k = Some x ->
     convert text len k buf = Ok ((k + (len + 1) / 2)%nat, splice k (or_first x (digits text)) buf)).
Proof.
  induction text as [|c text IH]; intros len k buf Ht Hlen Hroom; cbn [convert].
  { cbn in Hlen. subst len. split; [|done]. intros _. by rewrite Nat.add_0_r, splice_nil. }
  apply Forall_cons in Ht as [Hc Ht]. unfold isxdigit, toupper. rewrite !ctype_plain by (by apply hex_char).
  cbn [mbind res_bind]. unfold digits in Hlen |- *. rewrite filter_cons in Hlen |- *.
  destruct (isxdigit_char c) eqn:Ex.
  2: { rewrite decide_False in Hlen |- * by done. by apply IH. }
  rewrite decide_True in Hlen |- * by done. cbn [map length] in Hlen |- *. fold (digits text) in *.
  set (v := hDigit2byte (toupper_char c)). pose proof (hex_digit_range c) as Hv. fold v in Hv.
  assert (k < length buf)%nat as Hk by lia. replace (len - 1)%nat with (length (digits text)) by lia. split.
  - intros He. destruct (Nat.eqb_spec (len mod 2) 1); [lia|]. rewrite store_ok by done. cbn [mbind res_bind].
    destruct (IH _ k (<[k := char_of (Z.shiftl v 4)]> buf) Ht eq_refl) as [_ IHo]; [rewrite length_insert; lia|].
    rewrite (IHo ltac:(lia) _ ltac:(by apply list_lookup_insert_eq)). f_equal. f_equal; [lia|].
    destruct (digits text) as [|lo ds] eqn:Ed; [cbn in Hlen; lia|]. cbn [or_first pair_up].
    assert (0 <= lo < 16) as Hlo.
    { assert (lo ∈ digits text) as Hin by (rewrite Ed; left). unfold digits in Hin.
      apply list_elem_of_fmap in Hin as (d & -> & _). apply hex_digit_range. }
    by rewrite nibbles, splice_over.
  - intros Ho x Hx. destruct (Nat.eqb_spec (len mod 2) 1); [|lia].
    unfold Mem.load. rewrite Hx. cbn [mbind res_bind]. rewrite store_ok by done. cbn [mbind res_bind or_first].
    destruct (IH _ (k + 1)%nat (<[k := char_of (Z.lor (byte x) v)]> buf) Ht eq_refl) as [IHe _];
      [rewrite length_insert; lia|].
    rewrite IHe by lia. rewrite splice_cons by done. f_equal. f_equal. lia.
Qed.

Lemma digits_app t1 t2 : digits (t1 ++ t2) = digits t1 ++ digits t2.
Proof. unfold digits. by rewrite filter_app, map_app. Qed.

Lemma length_pair_up : forall ds, length (pair_up ds) = (length ds / 2)%nat.
Proof.
  refine (fix go ds := match ds with hi :: lo :: ds' => _ | _ => eq_refl end). cbn [pair_up length].
  rewrite go. change (S (S (length ds'))) with (2 + length ds')%nat. lia.
Qed.

Lemma length_bytes_of ds : length (bytes_of ds) = ((length ds + 1) / 2)%nat.
Proof.
  unfold bytes_of. rewrite length_pair_up. destruct (Nat.eqb_spec (length ds mod 2) 1); cbn [length]; lia.
Qed.

Lemma hex2byte_bytes text buf :
  hex_text text -> Z.of_nat (length buf) < 2 ^ 31 -> (0 < length buf)%nat ->
  let n := length (digits text) in
  hex2byte text buf =
    Ok (if (2 * length buf <? n)%nat then (-1, <[0%nat := NUL]> buf)
        else (Z.of_nat ((n + 1) / 2), splice 0 (bytes_of (digits text)) (<[0%nat := NUL]> buf))).
Proof.
  intros Ht Hb Hpos n. unfold hex2byte. rewrite (proj2 (Nat.eqb_neq _ _)) by lia.
  rewrite store_ok by done. cbn [mbind res_bind]. rewrite count_digits_ok by done. cbn [mbind res_bind].
  change (0 + length (digits text))%nat with n. rewrite wrap_small by lia.
  destruct (Nat.ltb_spec (2 * length buf) n); [by rewrite (proj2 (Z.ltb_lt _ _)) by lia|].
  rewrite (proj2 (Z.ltb_ge _ _)) by lia.
  destruct (convert_digits text n 0 (<[0%nat := NUL]> buf) Ht eq_refl) as [He Ho]; [rewrite length_insert; lia|].
  unfold bytes_of. fold n. destruct (Nat.eqb_spec (n mod 2) 1) as [E|E].
  - rewrite (Ho E NUL) by (by apply list_lookup_insert_eq). cbn [mbind res_bind Nat.add].
    rewrite i32_small by lia. destruct (digits text) as [|d ds] eqn:Ed; [done|]. done.
  - rewrite He by lia. cbn [mbind res_bind Nat.add]. rewrite i32_small by lia.
    replace ((n + 1) / 2)%nat with (n / 2)%nat by lia. done.
Qed.

(** The two digits of a byte. *)
Definition two_digits (c : ascii) : list ascii :=
  [hex_digit (Z.shiftr (byte c) 4); hex_digit (Z.land (byte c) 15)].

Lemma two_digits_byte c :
  Forall (fun d => isxdigit_char d = true) (two_digits c) /\
  exists hi lo, digits (two_digits c) = [hi; lo] /\ char_of (hi * 16 + lo) = c.
Proof.
  assert (forall c, forallb isxdigit_char (two_digits c) &&
    match digits (two_digits c) with [hi; lo] => (char_of (hi * 16 + lo) =? c)%char | _ => false end = true) as H
    by (apply all_bytes_forall; vm_compute; reflexivity).
  specialize (H c). apply andb_true_iff in H as [H1 H2]. rewrite forallb_forall in H1. split.
  - apply Forall_forall. intros d Hd. apply H1. by apply list_elem_of_In.
  - destruct (digits (two_digits c)) as [|hi [|lo [|? ?]]]; try done. exists hi, lo. split; [done|]. by apply Ascii.eqb_eq.
Qed.

Lemma encoded_bytes data :
  let text := concat (map two_digits data) in
  hex_text text /\ length text = (2 * length data)%nat /\
  length (digits text) = (2 * length data)%nat /\ pair_up (digits text) = data.
Proof.
  induction data as [|c data IH]; [by split_and!; [constructor|..]|]. destruct IH as (Ht & Hl & Hd & Hp). cbn [map concat].
  destruct (two_digits_byte c) as (Hc & hi & lo & E & Eb). split_and!.
  - apply Forall_app_2; [|done]. eapply Forall_impl; [exact Hc|]. cbn. auto.
  - rewrite length_app, Hl. cbn. lia.
  - rewrite digits_app, length_app, E, Hd. cbn. lia.
  - rewrite digits_app, E. cbn. by rewrite Eb, Hp.
Qed.

(** C16. Hexadecimal strings.  A string of digits and spaces is converted to the bytes of
    its digits, the first digit of an odd number of them being a byte for itself, and
    nothing is written outside of the buffer; too many digits and characters of another
    kind are errors.  The string of a block of bytes has two digits for each and is
    converted back to the block. *)
Theorem hex_strings :
  (forall text buf,
     hex_text text -> Z.of_nat (length buf) < 2 ^ 31 -> (0 < length buf)%nat ->
     let n := length (digits text) in
     let zeroed := <[0%nat := NUL]> buf in
     let out := bytes_of (digits text) in
     hex2byte text buf =
       Ok (if (2 * length buf <? n)%nat then (-1, zeroed)
           else (Z.of_nat (length out), out ++ drop (length out) zeroed))) /\
  (forall text c rest buf,
     hex_text text -> byte c < 128 -> isxdigit_char c = false -> isspace_char c = false -> (0 < length buf)%nat ->
     hex2byte (text ++ c :: rest) buf = Ok (-2, <[0%nat := NUL]> buf)) /\
  (forall data outSize buf,
     Z.of_nat (length data) < 2 ^ 30 -> 2 * Z.of_nat (length data) < outSize ->
     (0 < length buf)%nat -> (length data <= length buf)%nat -> Z.of_nat (length buf) < 2 ^ 31 ->
     exists text, byte2hex data outSize = (2 * Z.of_nat (length data), text ++ [NUL]) /\
       length text = (2 * length data)%nat /\
       hex2byte text buf = Ok (Z.of_nat (length data), data ++ drop (length data) (<[0%nat := NUL]> buf))) /\
  (forall data outSize, Z.of_nat (length data) < 2 ^ 30 -> outSize <= 2 * Z.of_nat (length data) ->
     byte2hex data outSize = (-1, [])).
Proof.
  split; [|split; [|split]].
  - intros text buf Ht Hb Hpos n zeroed out. rewrite hex2byte_bytes by done. unfold out, n, splice.
    by rewrite length_bytes_of, Nat.add_0_l.
  - intros text c rest buf Ht Hc Hx Hs Hpos. unfold hex2byte. rewrite (proj2 (Nat.eqb_neq _ _)) by lia.
    rewrite store_ok by done. cbn [mbind res_bind]. by rewrite count_digits_bad.
  - intros data outSize buf Hd Ho Hpos Hle Hb. destruct (encoded_bytes data) as (Ht & Hl & Hn & Hp).
    set (text := concat (map two_digits data)) in *. exists text. split_and!.
    + unfold byte2hex. rewrite wrap_small by lia. rewrite (proj2 (Z.ltb_ge _ _)) by lia. change (concat _) with text.
      rewrite i32_small by lia. f_equal. lia.
    + done.
    + rewrite hex2byte_bytes by done. rewrite Hn, (proj2 (Nat.ltb_ge _ _)) by lia. unfold bytes_of. rewrite Hn.
      destruct (Nat.eqb_spec ((2 * length data) mod 2) 1); [lia|]. rewrite Hp.
      replace ((2 * length data + 1) / 2)%nat with (length data) by lia. done.
  - intros data outSize Hd Ho. unfold byte2hex. rewrite wrap_small by lia. by rewrite (proj2 (Z.ltb_lt _ _)) by lia.
Qed.

Lemma hex_strings_witness :
  hex2byte (String.list_ascii_of_string "f 0a") ["x"; "y"; "z"]%char = Ok (2, ["015"; "010"; "z"]%char) /\
  hex2byte (String.list_ascii_of_string "12g4") ["x"; "y"]%char = Ok (-2, ["000"; "y"]%char) /\
  byte2hex ["255"; "010"]%char 4 = (-1, []).
Proof.
  split_and!.
  - refine (eq_trans (proj1 hex_strings (String.list_ascii_of_string "f 0a") ["x"; "y"; "z"]%char _ _ _) _);
      [|cbn; lia|cbn; lia|vm_compute; reflexivity].
    repeat (constructor; [by (left; reflexivity) || (right; reflexivity)|]). constructor.
  - apply (proj1 (proj2 hex_strings) (String.list_ascii_of_string "12") "g"%char ["4"%char] ["x"; "y"]%char).
    + repeat (constructor; [left; reflexivity|]). constructor.
    + vm_compute. reflexivity.
    + reflexivity.
    + reflexivity.
    + cbn. lia.
  - apply (proj2 (proj2 (proj2 hex_strings)) ["255"; "010"]%char 4); cbn; lia.
Defined.
